(* ===== verification/_CoqProject ===== *)
-Q . S2P
Prelude.v
Cbor.v
Rfc8949.v
Protocol.v
Chainsync.v
Blockfetch.v
Keepalive.v
Txsubmission.v
Peersharing.v
Handshake.v
HandshakeVersions.v
LeiosProtocols.v
ProtocolProps.v
Network.v
AnyMessage.v
Bearer.v
Unsent.v
InitiatorState.v
Promotion.v
Connection.v
Discovery.v
Fetching.v
Leios.v
Initiator.v
InitiatorInv.v
Ledger.v
Steps.v
InitiatorProps.v
Discipline.v
ResponderState.v
Responders.v
Responder.v
ResponderInv.v
ResponderProps.v
Accounts.v
Agreement.v
Effects.v
Tree.v
NativeScript.v
PlutusData.v
FlatBase.v
FlatCodec.v
FlatLaws.v
Flat.v
Varuint.v
Address.v
AddressProps.v
SlotTime.v
Truncation.v
Multiplexer.v
Channels.v
Agents.v
MiniCommon.v
MiniChainsync.v
MiniBlockfetch.v
MiniKeepalive.v
MiniPeersharing.v
MiniTxsubmission.v
MiniHandshake.v
MiniLocalstate.v
MiniLocaltxsubmission.v
MiniLocalmsg.v
MiniTxmonitor.v
RollbackBuffer.v
AgentProps.v
Immutable.v
ImmutableReading.v
ImmutableProps.v
LedgerTypes.v
Assets.v
ShelleyMA.v
Kes.v
ShelleyProps.v
ByronTx.v
Phase1.v
Alonzo.v
Babbage.v
ConwayAssets.v
Conway.v
Ledgers.v
