(* ===== verification/Prelude.v ===== *)
(** * Pallas: a verification development

    Pallas is a Rust implementation of the building blocks of a Cardano node.
    This library models its two network stacks, [src/pallas-network2/src] in full
    and the multiplexer and mini-protocols of [src/pallas-network/src]: the
    protocols with their CBOR codecs, the transport that multiplexes them over a
    socket, and the behaviors and agents that drive them.  It also models the flat
    codec, [src/pallas-codec/src/flat], with which Plutus scripts are serialized;
    the stack-safe traversals of [src/pallas-codec/src/tree.rs] with the two
    recursive types of [src/pallas-primitives/src] that use them, native scripts
    and Plutus data; addresses, [src/pallas-addresses/src]; the immutable storage of
    a node, [src/pallas-hardano/src/storage/immutable]; slots and epochs,
    [src/pallas-traverse/src/time.rs]; and ledger rules over the types of the eras,
    [src/pallas-validate/src].

    ** The parts and how they interact

    In the second generation a behavior keeps one state per peer.  The [Manager] of
    [lib.rs] hands it interface events (a peer is connected, a message arrived, a
    message was sent, ..) and commands of the application, and polls the outputs it
    has queued, which are commands for the interface (connect, send, disconnect) or
    events for the application.  On every event the behavior applies the message
    to the state machine of its mini-protocol and then shows the peer's state to
    its sub-behaviors in a fixed order, each of which may change that state and
    queue outputs.  The interface turns messages into segments and back.

    In the first generation every mini-protocol has a client and a server, objects
    with blocking methods.  Each owns a channel of the plexer: queues to and from
    the tasks that write and read the segments of the connection.

    The storage is read through three nested iterators: the offsets of a chunk's
    entries (primary index), the entries (secondary index), the blocks they cut the
    chunk into; over them lie the blocks of consecutive chunks.

    ** The files

    Shared: [Prelude] (results, checked machine integers, bytes, lists and
    maps), [Cbor] (the interface [Minicbor] to the third-party codec with the
    laws used of it, the classes [Encode], [Decode], and the wrappers of
    [pallas-codec/src/utils.rs]), [Rfc8949] (an implementation of that interface,
    with which the witnesses run), [Truncation] (decoding errors of messages that
    are cut off), [Effects] (methods with state, errors and panics as computations;
    shifts and bits of bytes).

    Protocols of the second generation ([pallas-network2/src/protocol/*.rs]), one
    module per Rust module: [Protocol] (common vocabulary, runs of a state machine,
    the interface [PullProtocol]), [Chainsync], [Blockfetch], [Keepalive],
    [Txsubmission], [Peersharing], [Handshake], [HandshakeVersions] (modules [n2n],
    [n2c]), [LeiosProtocols] (leiosnotify.rs, leiosfetch.rs); [ProtocolProps] holds
    their properties.  In each module [State.t] and [Message.t] are the Rust enums
    and [apply], [drain], [Message_encode], [Message_decode] the Rust methods.

    Its transport: [Network] ([lib.rs]: peer identifiers, segments, commands and
    events), [AnyMessage] ([behavior/mod.rs]: the sum of the messages and its
    incremental decoder), [Bearer] ([bearer.rs]).

    The initiator ([behavior/initiator/*.rs], [behavior/unsent.rs]): [Unsent],
    [InitiatorState] (with the trait [PeerVisitor]), [Promotion], [Connection]
    (connection.rs, handshake.rs, keepalive.rs), [Discovery], [Fetching]
    (blockfetch.rs, chainsync.rs), [Leios] (leiosnotify.rs, leiosfetch.rs) and
    [Initiator] (mod.rs).  [Steps] makes its events, commands and polled outputs a
    step relation; [InitiatorInv], [Ledger], [InitiatorProps] and [Discipline] prove
    its invariants and properties.

    The responder ([behavior/responder/*.rs], [behavior/unsent.rs]):
    [ResponderState], [Responders] (the nine sub-behaviors) and [Responder]
    (mod.rs); [ResponderInv] (with its step relation), [ResponderProps] and
    [Accounts] hold its properties, and [Agreement] puts an initiator and a responder at the two ends of a connection.

    The first generation ([pallas-network/src]): [Multiplexer] (multiplexer.rs:
    segments, the tasks [Muxer] and [Demuxer], channels and their buffers),
    [Channels] (what the plexer does to the bytes of a message), [Agents] (the
    methods all clients and servers share, and the interface [Side] under which a
    client and a server never disagree), [MiniCommon] (miniprotocols/common.rs) and
    for the directories of [miniprotocols] [MiniChainsync], [MiniBlockfetch],
    [MiniKeepalive], [MiniPeersharing], [MiniTxsubmission], [MiniHandshake] (with the
    version tables), [MiniLocalstate], [MiniLocaltxsubmission], [MiniLocalmsg]
    (localmsgsubmission and localmsgnotification), [MiniTxmonitor]; [RollbackBuffer]
    (chainsync/buffer.rs); [AgentProps] their properties.

    Codecs ([pallas-codec/src]): [FlatBase] (zigzag.rs and the part of UTF-8 that is
    used), [FlatCodec] (flat/encode, flat/decode, flat/filler.rs, flat/mod.rs and the
    traits [Encode], [Decode]), with [FlatLaws] and [Flat] for
    their properties: an encoder stands for the list of bits written so far, a
    decoder for those that are left.  [Tree] (tree.rs: the drivers and, per driver,
    the recursive definition it computes), [NativeScript] (native_script.rs, the
    scripts of the eras, [pallas-crypto/src/hash/hash.rs]), [PlutusData]
    (plutus_data.rs).

    Addresses ([pallas-addresses/src]): [Varuint] (varuint.rs with its
    specification); [Address] (lib.rs and the wrapper of byron.rs);
    [AddressProps] holds their properties, and an implementation of the parameters
    for the witnesses.

    Storage ([pallas-hardano/src/storage/immutable]): [Immutable] (primary.rs,
    secondary.rs, chunk.rs, mod.rs), [ImmutableReading] (the files as a node writes
    them, and the readers on such files), [ImmutableProps].

    Time ([pallas-traverse/src/time.rs], [wellknown.rs]): [SlotTime].

    Keys ([pallas-crypto/src/kes]): [Kes] (common.rs, single_kes.rs, traits.rs and the
    macros of summed_kes.rs as functions of the depth; a key is the buffer it lives in).

    Validation ([pallas-validate/src]): [LedgerTypes] (the records and variants of
    [pallas-primitives/src] it reads, inputs and outputs across eras, the state and
    the errors of [utils.rs], [utils/environment.rs] and [utils/validation.rs]),
    [Assets] (the arithmetic of values in [utils.rs]), [ShelleyMA]
    ([phase1/shelley_ma.rs]) with [ShelleyProps], [ByronTx] ([phase1/byron.rs] and
    the address payloads of [pallas-addresses/src/byron.rs]), [Phase1] (the loops
    that the validators of the later eras repeat, each once, with the lemma that says
    when it succeeds), [Alonzo] ([phase1/alonzo.rs]), [Babbage] ([phase1/babbage.rs]),
    [ConwayAssets] (the values of Conway in [utils.rs] and the conversions of
    [pallas-traverse/src/value.rs]), [Conway] ([phase1/conway.rs] and
    [pallas-primitives/src/conway/script_data.rs]), [Ledgers] ([phase1/mod.rs]: the
    validator is chosen by the environment, a block is validated on a copy of the
    state).  A check is a
    computation [check] that refuses with an error or panics; the certificates
    change the state [CertState] as they are checked, and what they changed stays
    when a later check refuses the transaction.

    A Rust method that takes [&mut self] is a function that returns the new
    state; one that can panic returns [option], [None] being the panic; one that
    returns a [Result] returns [result]; one with state, errors and panics is a
    computation ([comp] of [Effects]).  A visit of a sub-behavior is a function
    of a [Hook], the name of the trait's method, and returns the sub-behavior, the
    peer's state and the output queue.

    ** What the theorems show

    - Codecs: a message that is written is read back ([any_message_roundtrip],
      [version_tables]), also through segments in any order of channels
      ([bearer_roundtrip], [reassembly_any_segmentation]); the values that
      cannot be written ([any_payload_panics], [peersharing_v6_malformed]); peer
      identifiers ([peer_id_roundtrip]); bitmaps ([from_indices_selects],
      [all_from_indices]).
    - State machines: requests and replies balance ([pull_protocols_balanced]),
      two ends that keep to their turns never refuse a message whatever the
      interleaving ([agency_honest]), every chain-sync event is consumed once
      ([chainsync_consume_all]), tx-submission serves one request
      ([txsubmission_one_request]).
    - The initiator, in every reachable state and for every hash iteration order:
      no block range is lost or duplicated ([block_ranges_conserved]), it panics
      in three listed cases only ([panics_exactly]), every output is justified by
      the state of its peer ([outputs_justified]), the promotion's limits hold
      ([promotion_limits]), banned peers are not connected
      ([banned_peer_not_connected]), requests are sent one at a time per protocol
      ([one_request_per_channel], [no_pipelining]), and what becomes of peers that
      disconnect or are banned by command.
    - The responder: its connection accounts are exact ([connections_accounted])
      except around banned peers ([ban_lifts_host_limit]), every request is
      answered once and in order ([requests_answered], [blocks_provided]),
      housekeeping does the same in every order of iteration
      ([housekeeping_effect]), it panics at overflows only
      ([responder_panics_exactly]), bans last ([banned_refused]), and it asks for
      transactions once ([one_tx_request_per_connection]).
    - Both: when the two meet, the handshake comes to an end and they agree on the
      greatest common version or on the refusal ([handshake_agreement]).
    - The first generation: a client and a server of any mini-protocol, calling
      their methods in any order while segments are in transit, never refuse each
      other's messages ([first_generation_sessions]); every channel of the plexer is
      one queue in each direction ([plexer_routes]); the outcome of a handshake
      ([mini_handshake]); a block range arrives as it was sent
      ([block_range_roundtrip]); the rollback buffer holds the last points of the
      chain ([buffer_follows_chain]); what agents cannot do
      ([snapshot_never_released], [notification_lost]).
    - The flat codec: the encoder implements a list of bits
      ([encoder_refines_bits]); whatever is written is read back
      ([flat_roundtrip]), over a syntax [shape] of what a program writes with one
      encoder; decoding any bytes ends within the buffer
      ([flat_decoding_ends]) and yields values of their types only
      ([decoded_values_valid]); where it panics ([word_outcome], [bit_or_bool]);
      [zigzag_inverse].
    - Trees: every driver with a stack computes the recursive definition within a
      number of turns linear in the size ([traversals_recursive]).  Native scripts
      and Plutus data are read back ([native_script_roundtrip],
      [plutus_data_roundtrip]), of any bytes decoding comes to an end
      ([native_script_decode_total]), they are copied, compared and destroyed
      without recursion ([native_script_lifecycle], [plutus_data_lifecycle]), data
      are totally ordered by their value ([plutus_data_order]); negative big
      integers as byte strings are off by one ([negative_bignum_off_by_one]).
    - Addresses: what is written is parsed again ([address_roundtrip],
      [address_text_roundtrip]), what becomes of any bytes ([from_bytes_outcome],
      [varuint_read_outcome]), and strict pointers are accepted in exactly one
      form ([pointer_strict_exact]).
    - Storage: a chain that a node stored is read back ([stored_chain_read_back]),
      also from a point and where a point is not found ([read_from_point_outcome],
      [point_behind_boundary_refused]), and what damaged chunks yield
      ([damaged_chunk_outcome]).
    - Time: slots and epochs ([slot_epoch_relation]), slots and seconds
      ([wallclock_monotone]).
    - Keys: through its whole life a key-evolving key signs for its period under one
      public key and holds no secret of the past ([kes_lifecycle]); what is refused
      or taken at the edges ([late_periods], [sum0_sign_panics]).
    - Validation: what an accepted transaction of the Shelley, Allegra or Mary era
      consumes is what it produces ([value_conserved]); its inputs are witnessed
      and its scripts satisfied ([inputs_witnessed], [native_script_sound]);
      certificates keep the state of delegations and pools consistent, also when a
      transaction is refused ([state_consistent]); what is wrongly refused
      ([last_tokens_not_burnt], [second_registration_refused]) or moved between
      pots ([instantaneous_rewards_outcome]).  The same for Byron transactions
      ([byron_accepted], [byron_panics]).  From Alonzo on, a record of rules
      states what an accepted transaction satisfies, of the transaction and the UTxO
      set it spends from: [alonzo_phase1], [babbage_phase1], [conway_phase1].  Lovelace
      is conserved exactly; tokens up to multiples of [2 ^ 64], because amounts are cast,
      and exactly where no cast changes them.  The
      examples behind each theorem run the validator on transactions that the
      ledger would treat otherwise.  The transactions of a block are validated by
      the rule LEDGERS, all or none ([validate_txs_ledgers]).

    ** Parameters, bounds and fuel

    Code outside the repository is a parameter: [Minicbor] with its laws,
    [NetworkEndian] (byteorder), [BinaryLayout] (binary_layout), [Connection] (the
    tokio socket; its queues are FIFO), [Dir] (the listing of a directory and its
    files), [BlockDecoder] (the block codec, whose result is not looked into),
    [TextCodecs] (bech32, base58, hex), [ByronCodec], [PayloadCodec] and
    [DerivedCodecs] (codecs that are derived), [Cryptoxide] and [ByronHashes] (hashes, signatures, checksum),
    [Ed25519] (ed25519_dalek, with the laws [Ed25519Laws]),
    and the order in which hash maps iterate ([HashOrder], [VersionOrder],
    [TableOrder]), about which only
    that every element comes once is assumed; witnesses instantiate them.  Where a
    mini-protocol carries a type of another part ([Undecoded], [FromText]) its
    client is generic in it, as in the code.  Integers are [Z] with their width where the
    code checks, casts or wraps; [usize] is 64 bits.  Counters of [+=] are checked
    as in a debug build, and shifts by the width of the integer or more panic.

    The recursion of the code is structural but for loops with fuel:
    - reading a socket until a message is complete ([read_loop], one more than the
      bytes left, each turn reads at least a header), splitting into segments
      ([into_chunks], the length of the payload), the windows of a bitmap
      ([all_loop], one more than the count), the decimal digits of a port (five);
    - the groups of a flat word (ten when it is written, for 64 bits; eleven when it
      is read, where the eleventh shift panics), the loops of the flat decoder (one
      more than the bits left, each turn reads a bit; for the blocks of a byte array
      the length of the buffer, each turn reads a byte): [flat_decoding_ends]; the
      groups of a pointer's part (ten when written, one more than the bytes left
      when read);
    - receiving a message of the first generation (one more than the queued chunks),
      the elements of an array (one more than the bytes left); the tasks of the
      plexer do not end, and run for any number of turns;
    - the drivers of [Tree], whose bounds are proved with [traversals_recursive]:
      three times the size of the tree for a walk, twice for a fold, one more than
      the size for equality, one more than twice the size for comparison, the size
      for a destructor, and for decoding one more than twice the bytes left;
    - the readers of the storage: the bytes left and three of the primary index, the
      number of names or blocks left, one more than the chunks for binary search.

    ** Not modelled

    Metrics and logging; the asynchronous runtime ([interface.rs], the tasks of
    [bearer.rs]) beyond the events it reports; the test doubles of [emulation]; the
    facades of the first generation, its queries of the local state and the ledger's
    rejections, which only serialize.  Big integers of the flat codec (feature
    [num-bigint], over that crate); [map_tree] of tree.rs, which nothing calls; the
    codecs that minicbor derives for the ledger types, which exist only after
    expansion.  Phase-two validation runs scripts in the crate uplc, and the mapping
    to protobuf, the printing of ledger errors and the configuration files only copy
    fields.  The views of [pallas-traverse] over eras, the builder of transactions and
    the blocks and headers of the ledger types are left out, but for what the
    validator reads of them; so are the types of the unstable era Dijkstra, which it
    does not handle.  The hashes and keys of [pallas-crypto] wrap the
    crate cryptoxide. *)
From Stdlib Require Export ZArith Lia.
From stdpp Require Export base list gmap strings numbers sorting.

#[global] Open Scope Z_scope.
#[global] Set Default Goal Selector "!".

(** ** Results

    Rust's [Result<A, E>], with the error type first so that [result E] is a
    monad. *)
Inductive result (E A : Type) : Type :=
| Ok (a : A)
| Err (e : E).
Arguments Ok {E A} _.
Arguments Err {E A} _.

#[export] Instance result_ret E : MRet (result E) := fun A a => Ok a.
#[export] Instance result_bind E : MBind (result E) :=
  fun A B f r => match r with Ok a => f a | Err e => Err e end.
#[export] Instance result_map E : FMap (result E) :=
  fun A B f r => match r with Ok a => Ok (f a) | Err e => Err e end.

Definition is_ok {E A} (r : result E A) : bool :=
  match r with Ok _ => true | Err _ => false end.

Lemma is_ok_true {E A} (r : result E A) : is_ok r = true <-> exists a, r = Ok a.
Proof. destruct r as [a|e]; split; [by exists a|done..|by intros [? ?]]. Qed.

#[export] Instance result_eq_dec E A `{EqDecision E, EqDecision A} :
  EqDecision (result E A).
Proof. solve_decision. Defined.

(** ** Bytes and machine integers

    A byte is its unsigned value; a [w]-bit unsigned integer is a [Z] in
    [0, 2^w). *)
Abbreviation bytes := (list Z).

Definition in_u (w n : Z) : Prop := 0 <= n < 2 ^ w.

#[export] Instance in_u_dec w n : Decision (in_u w n).
Proof. unfold in_u. apply _. Defined.

(** The UTF-8 bytes of a text of ASCII characters. *)
Definition text_bytes (s : string) : bytes :=
  (fun c => Z.of_nat (Ascii.nat_of_ascii c)) <$> String.list_ascii_of_string s.

(** A Rust length fits in 64 bits. *)
Definition fits_len {A} (l : list A) : Prop := in_u 64 (Z.of_nat (length l)).

#[export] Instance fits_len_dec {A} (l : list A) : Decision (fits_len l).
Proof. unfold fits_len. apply _. Defined.

(** [usize]/[u32] arithmetic of a checked build: an overflow is a panic. *)
Definition checked_sub (a b : Z) : option Z := if b <=? a then Some (a - b) else None.
Definition checked_add (w a b : Z) : option Z :=
  if a + b <? 2 ^ w then Some (a + b) else None.

Lemma checked_sub_Some a b c : checked_sub a b = Some c <-> b <= a /\ c = a - b.
Proof. unfold checked_sub. destruct (Z.leb_spec b a); split; intros; simplify_eq; lia || (f_equal; lia). Qed.

Lemma checked_sub_le a b : b <= a -> checked_sub a b = Some (a - b).
Proof. intros. by apply checked_sub_Some. Qed.

Lemma checked_add_Some w a b c : checked_add w a b = Some c <-> a + b < 2 ^ w /\ c = a + b.
Proof. unfold checked_add. destruct (Z.ltb_spec (a + b) (2 ^ w)); split; intros; simplify_eq; lia || (f_equal; lia). Qed.

(** ** Automation shared by the components *)

(** Splits the matches of a hypothesis or the goal that steps a computation. *)
Ltac split_match :=
  match goal with
  | |- context [match ?x with _ => _ end] => destruct x eqn:?
  end.

Ltac split_match_in H :=
  match type of H with
  | context [match ?x with _ => _ end] => destruct x eqn:?
  end.

Ltac invc H := inversion H; subst; clear H.

Create HintDb codec.

(** ** Lists *)
Lemma take_app_sub {A} (p r : list A) :
  take (length (p ++ r) - length r) (p ++ r) = p.
Proof. rewrite length_app, Nat.add_sub. apply take_app_length. Qed.

(** ** Slices *)

(** [slice::chunks]: pieces of [n] bytes, the last one possibly shorter; the fuel
    is the length of the slice. *)
Fixpoint chunks_loop (fuel n : nat) (l : bytes) : list bytes :=
  match fuel, l with
  | O, _ | _, [] => []
  | S fuel, _ => take n l :: chunks_loop fuel n (drop n l)
  end.
Definition chunks (n : nat) (l : bytes) : list bytes := chunks_loop (length l) n l.

Lemma chunks_loop_spec fuel n l :
  (0 < n)%nat -> (length l <= fuel)%nat ->
  concat (chunks_loop fuel n l) = l /\
  Forall (fun c => 0 < length c <= n)%nat (chunks_loop fuel n l).
Proof.
  intros Hn. revert l; induction fuel as [|fuel IH]; intros [|x l] Hl; simpl in *; try (split; [done|constructor]); [lia|].
  destruct n as [|n]; [lia|]. cbn [take drop].
  destruct (IH (drop n l)) as [Hc Hf]; [rewrite length_drop; lia|].
  split.
  - cbn. by rewrite Hc, take_drop.
  - constructor; [|done]. simpl. rewrite length_take. lia.
Qed.

Lemma chunks_spec n l :
  (0 < n)%nat -> concat (chunks n l) = l /\ Forall (fun c => 0 < length c <= n)%nat (chunks n l).
Proof. intros. by apply chunks_loop_spec. Qed.

(** ** Big-endian numbers *)
Fixpoint be_bytes (n : nat) (z : Z) : bytes :=
  match n with O => [] | S n => be_bytes n (z / 256) ++ [z mod 256] end.

Definition of_be (b : bytes) : Z := foldl (fun acc x => acc * 256 + x) 0 b.

Lemma length_be_bytes n z : length (be_bytes n z) = n.
Proof. revert z; induction n; intros; simpl; [done|]. rewrite length_app, IHn. simpl. lia. Qed.

Lemma of_be_snoc b x : of_be (b ++ [x]) = of_be b * 256 + x.
Proof. unfold of_be. by rewrite foldl_app. Qed.

Lemma of_be_be_bytes n z : 0 <= z < 256 ^ Z.of_nat n -> of_be (be_bytes n z) = z.
Proof.
  revert z; induction n as [|n IH]; intros z Hz; simpl.
  - simpl in Hz. unfold of_be; simpl. lia.
  - rewrite Nat2Z.inj_succ, Z.pow_succ_r in Hz by lia.
    rewrite of_be_snoc, IH.
    + pose proof (Z.div_mod z 256). lia.
    + split; [apply Z.div_pos; lia|]. apply Z.div_lt_upper_bound; lia.
Qed.

(** ** Hash maps built from a list of pairs ([collect]): a later pair replaces an
    earlier one with the same key. *)
Definition collect_map {V} (kvs : list (Z * V)) : gmap Z V :=
  foldl (fun m kv => <[kv.1 := kv.2]> m) ∅ kvs.

Lemma collect_map_Forall {V} (P : Z -> V -> Prop) (kvs : list (Z * V)) :
  Forall (fun kv => P kv.1 kv.2) kvs -> map_Forall P (collect_map kvs).
Proof.
  unfold collect_map. generalize (map_Forall_empty P). generalize (∅ : gmap Z V).
  induction kvs as [|[k v] kvs IH]; intros m Hm; simpl; [done|].
  intros [? ?]%Forall_cons. apply IH; [|done]. by apply map_Forall_insert_2.
Qed.

(** ** Maps written in the order of their keys *)
Definition sorted_keys {T} (m : gmap Z T) : list Z := merge_sort Z.le (elements (dom m)).

Lemma elem_of_sorted_keys {T} (m : gmap Z T) k : k ∈ sorted_keys m <-> is_Some (m !! k).
Proof. unfold sorted_keys. rewrite merge_sort_Permutation, elem_of_elements. apply elem_of_dom. Qed.

Lemma length_sorted_keys {T} (m : gmap Z T) : length (sorted_keys m) = size m.
Proof. unfold sorted_keys. by rewrite merge_sort_Permutation, <- size_dom. Qed.

(** The entries of [m] at the keys [ks], added to [acc]. *)
Definition entries_of {T} (m acc : gmap Z T) (ks : list Z) : gmap Z T :=
  foldl (fun a k => match m !! k with Some v => <[k := v]> a | None => a end) acc ks.

Lemma lookup_entries_of {T} (m acc : gmap Z T) ks i :
  (forall k, k ∈ ks -> is_Some (m !! k)) ->
  entries_of m acc ks !! i = if decide (i ∈ ks) then m !! i else acc !! i.
Proof.
  unfold entries_of. revert acc; induction ks as [|k ks IH]; intros acc Hks; cbn [foldl].
  - by rewrite decide_False by set_solver.
  - destruct (Hks k ltac:(set_solver)) as [v Hv]. rewrite Hv, IH by set_solver.
    destruct (decide (i ∈ ks)); [by rewrite decide_True by set_solver|].
    destruct (decide (i = k)) as [->|].
    + rewrite lookup_insert_eq, decide_True by set_solver. done.
    + rewrite lookup_insert_ne, decide_False by set_solver. done.
Qed.

(** Reading a map back from its sorted entries gives the map. *)
Lemma entries_of_sorted {T} (m : gmap Z T) : entries_of m ∅ (sorted_keys m) = m.
Proof.
  apply map_eq. intros i. rewrite lookup_entries_of by (intros; by apply elem_of_sorted_keys).
  case_decide as Hi; [done|]. rewrite lookup_empty.
  symmetry. apply eq_None_not_Some. by rewrite <- elem_of_sorted_keys.
Qed.

Lemma collect_map_entries (m : gmap Z Z) (ks : list Z) acc :
  (forall k, k ∈ ks -> is_Some (m !! k)) ->
  foldl (fun m kv => <[kv.1 := kv.2]> m) acc ((fun k => (k, default 0 (m !! k))) <$> ks) =
  entries_of m acc ks.
Proof.
  revert acc; induction ks as [|k ks IH]; intros acc Hk; [done|].
  unfold entries_of in *. cbn [fmap list_fmap foldl fst snd].
  destruct (Hk k ltac:(set_solver)) as [v ->]. apply IH. set_solver.
Qed.
