(* ===== verification/Cbor.v ===== *)
(** * CBOR encoders and decoders

    The codecs of the protocol messages are written against the third-party
    crate minicbor (re-exported by [pallas-codec/src/lib.rs]).  Its primitives
    are the fields of the class [Minicbor]; what the code relies on are the laws
    of [MinicborLaws], which state the behaviour minicbor documents.  This file
    also holds the two wrappers of [pallas-codec/src/utils.rs] the protocols use
    ([AnyCbor], [CborWrap]) and the calculus ([Parses], [Stable]) in which every
    round trip is proved. *)
From S2P Require Import Prelude.

(** ** Decoders and encoders *)

(** minicbor's decoding errors; [EndOfInput] is the one [is_end_of_input]
    recognises. *)
Inductive decode_error :=
| EndOfInput
| DecodeMessage (msg : string)
| TypeMismatch
| TagMismatch
| UnknownVariant (v : Z)
| MissingValue (i : Z).

(** A decoder reads from the front of the remaining input and returns what it
    left; the position of the Rust decoder is the length of what was read. *)
Definition dec (A : Type) : Type := bytes -> result decode_error (A * bytes).

#[export] Instance dec_ret : MRet dec := fun A x b => Ok (x, b).
#[export] Instance dec_bind : MBind dec :=
  fun A B k d b => match d b with Ok (x, r) => k x r | Err e => Err e end.
Definition dec_fail {A} (e : decode_error) : dec A := fun _ => Err e.

(** What an encoder has written, [None] when it failed. *)
Abbreviation enc := (option bytes).

Definition enc_app (a b : enc) : enc :=
  match a, b with Some x, Some y => Some (x ++ y) | _, _ => None end.
Arguments enc_app : simpl never.
Infix "⊕" := enc_app (at level 58, right associativity).

Fixpoint enc_all (es : list enc) : enc :=
  match es with [] => Some [] | e :: es => e ⊕ enc_all es end.

(** The CBOR types the code tells apart through [Decoder::datatype]. *)
Inductive cbor_type :=
| TU8 | TU16 | TU32 | TU64 | TI8 | TI16 | TI32 | TI64 | TInt
| TBytes | TBytesIndef | TArray | TArrayIndef | TMap | TMapIndef | TTag
| TNull | TBreak | TOther.

(** The types of integers, from [-2^64] to [2^64 - 1]. *)
Definition int_type (t : cbor_type) : Prop := t ∈ [TU8; TU16; TU32; TU64; TI8; TI16; TI32; TI64; TInt].

#[export] Instance cbor_type_eq_dec : EqDecision cbor_type.
Proof. solve_decision. Defined.

(** ** The interface to minicbor *)
Class Minicbor := {
  e_array : Z -> bytes;
  e_map : Z -> bytes;
  e_begin_array : bytes;
  e_begin_map : bytes;
  e_end : bytes;
  e_u8 : Z -> bytes;
  e_u16 : Z -> bytes;
  e_u32 : Z -> bytes;
  e_u64 : Z -> bytes;
  e_i64 : Z -> bytes;
  e_int : Z -> bytes;
  e_bool : bool -> bytes;
  e_bytes : bytes -> bytes;
  e_begin_bytes : bytes;
  e_str : bytes -> bytes;
  e_tag : Z -> bytes;
  e_null : bytes;
  d_array : dec (option Z);
  d_map : dec (option Z);
  d_u8 : dec Z;
  d_u16 : dec Z;
  d_u32 : dec Z;
  d_u64 : dec Z;
  d_i64 : dec Z;
  d_int : dec Z;
  d_bool : dec bool;
  d_bytes : dec bytes;
  (** the chunks of [bytes_iter], up to the first error *)
  d_bytes_iter : dec (list bytes);
  d_str : dec bytes;
  d_tag : dec Z;
  d_skip : dec unit;
  d_datatype : dec cbor_type;
  (** [array_iter], and the [Vec<T>] decoder built on it *)
  d_seq : forall A, dec A -> dec (list A);
  (** [map_iter] *)
  d_pairs : forall K V, dec K -> dec V -> dec (list (K * V));
  (** the decoder of a pair *)
  d_tuple2 : forall A B, dec A -> dec B -> dec (A * B);
  (** the decoder of an [Option] *)
  d_option : forall A, dec A -> dec (option A);
  (** the bytes are one well-formed data item *)
  data_item : bytes -> Prop
}.
Arguments d_seq {_ A} _.
Arguments d_pairs {_ K V} _ _.
Arguments d_tuple2 {_ A B} _ _.
Arguments d_option {_ A} _.

(** [IanaTag::Cbor.tag()] *)
Definition CBOR_TAG : Z := 24.

(** What the encoder's methods write. *)
Abbreviation w_array n := (Some (e_array n)).
Abbreviation w_map n := (Some (e_map n)).
Abbreviation w_begin_array := (Some e_begin_array).
Abbreviation w_begin_map := (Some e_begin_map).
Abbreviation w_end := (Some e_end).
Abbreviation w_u8 n := (Some (e_u8 n)).
Abbreviation w_u16 n := (Some (e_u16 n)).
Abbreviation w_u32 n := (Some (e_u32 n)).
Abbreviation w_u64 n := (Some (e_u64 n)).
Abbreviation w_i64 n := (Some (e_i64 n)).
Abbreviation w_int n := (Some (e_int n)).
Abbreviation w_begin_bytes := (Some e_begin_bytes).
Abbreviation w_bool x := (Some (e_bool x)).
Abbreviation w_bytes x := (Some (e_bytes x)).
Abbreviation w_str x := (Some (e_str x)).
Abbreviation w_tag n := (Some (e_tag n)).

(** ** Round trips and stability

    [Parses d e x]: whatever [e] wrote, [d] reads it back as [x] and leaves the
    bytes that follow. *)
Definition Parses {A} (d : dec A) (e : enc) (x : A) : Prop :=
  forall b rest, e = Some b -> d (b ++ rest) = Ok (x, rest).

(** A successful decoder consumed a prefix of its input and does not depend on
    the bytes behind it. *)
Definition Stable {A} (d : dec A) : Prop :=
  forall b x r, d b = Ok (x, r) ->
    (exists p, b = p ++ r) /\ forall s, d (b ++ s) = Ok (x, r ++ s).

(** A successful decoder consumed at least one byte. *)
Definition Consumes {A} (d : dec A) : Prop :=
  forall b x r, d b = Ok (x, r) -> (length r < length b)%nat.

Class MinicborLaws (M : Minicbor) : Prop := {
  array_parses n : in_u 64 n -> Parses d_array (Some (e_array n)) (Some n);
  map_parses n : in_u 64 n -> Parses d_map (Some (e_map n)) (Some n);
  u8_parses n : in_u 8 n -> Parses d_u8 (Some (e_u8 n)) n;
  u16_parses n : in_u 16 n -> Parses d_u16 (Some (e_u16 n)) n;
  u32_parses n : in_u 32 n -> Parses d_u32 (Some (e_u32 n)) n;
  u64_parses n : in_u 64 n -> Parses d_u64 (Some (e_u64 n)) n;
  i64_parses n : - 2 ^ 63 <= n < 2 ^ 63 -> Parses d_i64 (Some (e_i64 n)) n;
  int_parses n : - 2 ^ 64 <= n < 2 ^ 64 -> Parses d_int (Some (e_int n)) n;
  array_parses_indef : Parses d_array (Some e_begin_array) None;
  map_parses_indef : Parses d_map (Some e_begin_map) None;
  bytes_iter_parses xs : Forall fits_len xs ->
    Parses d_bytes_iter (Some e_begin_bytes ⊕ enc_all ((fun x => Some (e_bytes x)) <$> xs) ⊕ Some e_end) xs;
  i64_parses_u8 n : in_u 8 n -> Parses d_i64 (Some (e_u8 n)) n;
  bool_parses x : Parses d_bool (Some (e_bool x)) x;
  bytes_parses x : fits_len x -> Parses d_bytes (Some (e_bytes x)) x;
  str_parses x : fits_len x -> Parses d_str (Some (e_str x)) x;
  tag_parses n : in_u 64 n -> Parses d_tag (Some (e_tag n)) n;
  skip_parses w : data_item w -> Parses d_skip (Some w) tt;
  datatype_array n r : in_u 64 n -> d_datatype (e_array n ++ r) = Ok (TArray, e_array n ++ r);
  datatype_u64 n r : in_u 64 n ->
    exists t, d_datatype (e_u64 n ++ r) = Ok (t, e_u64 n ++ r) /\ t ∈ [TU8; TU16; TU32; TU64];
  datatype_array_indef r : d_datatype (e_begin_array ++ r) = Ok (TArrayIndef, e_begin_array ++ r);
  datatype_map n r : in_u 64 n -> d_datatype (e_map n ++ r) = Ok (TMap, e_map n ++ r);
  datatype_map_indef r : d_datatype (e_begin_map ++ r) = Ok (TMapIndef, e_begin_map ++ r);
  datatype_bytes x r : fits_len x -> d_datatype (e_bytes x ++ r) = Ok (TBytes, e_bytes x ++ r);
  datatype_bytes_indef r : d_datatype (e_begin_bytes ++ r) = Ok (TBytesIndef, e_begin_bytes ++ r);
  datatype_tag n r : in_u 64 n -> d_datatype (e_tag n ++ r) = Ok (TTag, e_tag n ++ r);
  datatype_int n r : - 2 ^ 64 <= n < 2 ^ 64 ->
    exists t, d_datatype (e_int n ++ r) = Ok (t, e_int n ++ r) /\ int_type t;
  (** the end of an indefinite-length array *)
  datatype_break r : d_datatype (e_end ++ r) = Ok (TBreak, e_end ++ r);
  break_skipped : Parses d_skip (Some e_end) tt;
  (** a definite-length array of items *)
  seq_parses A (d : dec A) (f : A -> enc) xs :
    fits_len xs -> (forall x, x ∈ xs -> Parses d (f x) x) ->
    Parses (d_seq d) (Some (e_array (Z.of_nat (length xs))) ⊕ enc_all (f <$> xs)) xs;
  (** an indefinite-length array, whose items each start with an array header *)
  seq_parses_indef A (d : dec A) (f : A -> enc) xs :
    (forall x, x ∈ xs -> Parses d (f x) x) ->
    (forall x b, x ∈ xs -> f x = Some b -> exists n r, in_u 64 n /\ b = e_array n ++ r) ->
    Parses (d_seq d) (Some e_begin_array ⊕ enc_all (f <$> xs) ⊕ Some e_end) xs;
  (** an indefinite-length map with integer keys *)
  pairs_parses_indef V (d : dec V) (f : V -> enc) (kvs : list (Z * V)) :
    (forall k v, (k, v) ∈ kvs -> in_u 16 k /\ Parses d (f v) v) ->
    Parses (d_pairs d_u16 d)
      (Some e_begin_map ⊕ enc_all ((fun '(k, v) => Some (e_u16 k) ⊕ f v) <$> kvs) ⊕ Some e_end) kvs;
  tuple2_parses A B (da : dec A) (db : dec B) ea eb a b :
    Parses da ea a -> Parses db eb b ->
    Parses (d_tuple2 da db) (Some (e_array 2) ⊕ ea ⊕ eb) (a, b);
  array_stable : Stable d_array;
  map_stable : Stable d_map;
  u8_stable : Stable d_u8;
  u16_stable : Stable d_u16;
  u32_stable : Stable d_u32;
  u64_stable : Stable d_u64;
  i64_stable : Stable d_i64;
  int_stable : Stable d_int;
  bool_stable : Stable d_bool;
  bytes_stable : Stable d_bytes;
  bytes_iter_stable : Stable d_bytes_iter;
  str_stable : Stable d_str;
  tag_stable : Stable d_tag;
  skip_stable : Stable d_skip;
  datatype_stable : Stable d_datatype;
  seq_stable A (d : dec A) : Stable d -> Stable (d_seq d);
  pairs_stable K V (dk : dec K) (dv : dec V) : Stable dk -> Stable dv -> Stable (d_pairs dk dv);
  tuple2_stable A B (da : dec A) (db : dec B) : Stable da -> Stable db -> Stable (d_tuple2 da db);
  (** what opens with the header of an array is not null *)
  option_array_parses A (d : dec A) e x :
    (forall b, e = Some b -> exists n r, in_u 64 n /\ b = e_array n ++ r) ->
    Parses d e x -> Parses (d_option d) e (Some x);
  option_stable A (d : dec A) : Stable d -> Stable (d_option d);
  array_consumes : Consumes d_array;
  map_consumes : Consumes d_map;
  tag_consumes : Consumes d_tag;
  int_consumes : Consumes d_int;
  bytes_consumes : Consumes d_bytes;
  bytes_iter_consumes : Consumes d_bytes_iter
}.

#[export] Hint Resolve array_stable map_stable u8_stable u16_stable u32_stable u64_stable
  i64_stable int_stable bool_stable bytes_stable bytes_iter_stable str_stable tag_stable skip_stable datatype_stable
  seq_stable pairs_stable tuple2_stable option_stable : codec.
#[export] Hint Resolve array_parses map_parses u8_parses u16_parses u32_parses u64_parses
  i64_parses i64_parses_u8 int_parses bool_parses bytes_parses str_parses tag_parses : codec.

(** ** The calculus *)

Lemma enc_app_Some a b c : a ⊕ b = Some c -> exists x y, a = Some x /\ b = Some y /\ c = x ++ y.
Proof. unfold enc_app. destruct a, b; naive_solver. Qed.

Lemma enc_app_is_Some a b : is_Some a -> is_Some b -> is_Some (a ⊕ b).
Proof. intros [x ->] [y ->]. unfold enc_app. eauto. Qed.

Lemma enc_all_is_Some es : Forall is_Some es -> is_Some (enc_all es).
Proof. induction 1; simpl; eauto using enc_app_is_Some. Qed.

Lemma Parses_ret {A} (x : A) : Parses (mret x) (Some []) x.
Proof. intros b rest [= <-]. done. Qed.

Lemma Parses_bind {A B} (d : dec A) (k : A -> dec B) ea eb a b :
  Parses d ea a -> Parses (k a) eb b -> Parses (d ≫= k) (ea ⊕ eb) b.
Proof.
  intros Ha Hb c rest (x & y & -> & -> & ->)%enc_app_Some.
  unfold mbind, dec_bind. rewrite <- app_assoc, (Ha _ _ eq_refl). by apply Hb.
Qed.

(** The last decoder of a sequence. *)
Lemma Parses_bind_last {A B} (d : dec A) (k : A -> dec B) e a b :
  Parses d e a -> Parses (k a) (Some []) b -> Parses (d ≫= k) e b.
Proof.
  intros Ha Hb c rest He. unfold mbind, dec_bind. rewrite (Ha _ _ He).
  by apply (Hb [] rest).
Qed.

Lemma Parses_fail {A} (d : dec A) x : Parses d None x.
Proof. intros b rest [=]. Qed.

Lemma Parses_fail_app {A} (d : dec A) a b x : Parses d (a ⊕ None ⊕ b) x.
Proof. intros c rest. unfold enc_app. destruct a; intros [=]. Qed.

Lemma Stable_ret {A} (x : A) : Stable (mret x).
Proof. intros b y r [= <- <-]. split; [by exists []|done]. Qed.

Lemma Stable_fail {A} e : Stable (@dec_fail A e).
Proof. intros b y r [=]. Qed.

Lemma Stable_bind {A B} (d : dec A) (k : A -> dec B) :
  Stable d -> (forall a, Stable (k a)) -> Stable (d ≫= k).
Proof.
  intros Hd Hk b y r. unfold mbind, dec_bind.
  destruct (d b) as [[a r1]|] eqn:E1; [|done]. intros E2.
  destruct (Hd _ _ _ E1) as [[p1 ->] Hs1]. destruct (Hk _ _ _ _ E2) as [[p2 ->] Hs2].
  split; [exists (p1 ++ p2); by rewrite app_assoc|].
  intros s. by rewrite Hs1, Hs2.
Qed.

Lemma Consumes_bind {A B} (d : dec A) (k : A -> dec B) :
  Consumes d -> (forall a, Stable (k a)) -> Consumes (d ≫= k).
Proof.
  intros Hd Hk b y r. unfold mbind, dec_bind.
  destruct (d b) as [[a r1]|] eqn:E1; [|done]. intros E2.
  apply Hd in E1. destruct (Hk _ _ _ _ E2) as [[p ->] _].
  rewrite length_app in E1. lia.
Qed.
#[export] Hint Resolve Parses_ret Stable_ret Stable_fail array_consumes map_consumes tag_consumes
  int_consumes bytes_consumes bytes_iter_consumes : codec.

#[export] Hint Extern 1 (in_u _ _) => (unfold in_u, CBOR_TAG in *; lia) : codec.

(** A truncated message is not decoded: if [d] reads all of [b], it reads no
    strict prefix of [b]. *)
Lemma Stable_prefix_fails {A} (d : dec A) p s x :
  Stable d -> d (p ++ s) = Ok (x, []) -> s <> [] -> is_ok (d p) = false.
Proof.
  intros Hd Hb Hs. destruct (d p) as [[y r]|] eqn:E; [|done].
  destruct (Hd _ _ _ E) as [_ Hext]. rewrite Hext in Hb.
  injection Hb as _ Hr. destruct r, s; done.
Qed.

(** [solve_stable] proves that a decoder written with the monad is stable. *)
Ltac solve_stable :=
  repeat first
    [ progress intros
    | progress eauto with codec
    | apply Stable_bind
    | match goal with
      | |- Stable (match ?x with _ => _ end) => destruct x
      | |- Stable (if ?x then _ else _) => destruct x
      end ].

(** [solve_parses] walks a decoder and the encoder it reads side by side. *)
Ltac solve_parses :=
  repeat first
    [ progress intros
    | apply Parses_fail
    | solve [eauto with codec]
    | solve [unfold in_u; lia]
    | match goal with
      | |- Parses (_ ≫= _) (_ ⊕ _) _ => eapply Parses_bind; [solve [eauto with codec]|]
      | |- Parses (_ ≫= _) _ _ => eapply Parses_bind_last; [solve [eauto with codec]|]
      end
    | progress cbn ].

(** ** Rust's [Encode] and [Decode] traits *)
Class Encode (A : Type) := encode : A -> enc.
Class Decode (A : Type) := decode : dec A.

(** [valid x]: the model's [x] is a value of the Rust type, its integers in
    their width and its lengths below 2^64. *)
Class Valid (A : Type) := valid : A -> Prop.
Arguments encode : simpl never.
Arguments decode : simpl never.
Arguments valid : simpl never.

(** What a codec promises to the codecs that embed it. *)
Class Codec (A : Type) `{Encode A, Decode A, Valid A} : Prop := {
  codec_parses (x : A) : valid x -> Parses decode (encode x) x;
  codec_stable : Stable (decode (A := A))
}.
#[export] Hint Extern 2 (Parses decode (encode _) _) => (apply codec_parses) : codec.
#[export] Hint Extern 2 (Stable decode) => (apply codec_stable) : codec.

(** [Vec<T>] as the derived encoder writes it. *)
Lemma seq_codec `{MinicborLaws} {A} `{Codec A} (xs : list A) :
  fits_len xs -> Forall valid xs ->
  Parses (d_seq decode) (w_array (Z.of_nat (length xs)) ⊕ enc_all (encode <$> xs)) xs.
Proof.
  intros Hl Hv. apply seq_parses; [done|]. intros x Hx. apply codec_parses.
  rewrite list.Forall_forall in Hv. by apply Hv.
Qed.

(** A value that can be written is read back, whatever follows it. *)
Lemma codec_roundtrip {A} `{Codec A} (x : A) :
  valid x -> is_Some (encode x) ->
  exists b, encode x = Some b /\ forall rest, decode (b ++ rest) = Ok (x, rest).
Proof. intros Hv [b Hb]. exists b. split; [done|]. intros rest. by apply codec_parses. Qed.

(** ... and as the code writes it when it opens an indefinite-length array. *)
Lemma seq_codec_indef `{MinicborLaws} {A} `{Codec A} (xs : list A) :
  (forall x b, encode x = Some b -> exists n r, in_u 64 n /\ b = e_array n ++ r) ->
  Forall valid xs ->
  Parses (d_seq decode) (w_begin_array ⊕ enc_all (encode <$> xs) ⊕ w_end) xs.
Proof.
  intros Hh Hv. apply seq_parses_indef; [|by eauto]. intros x Hx. apply codec_parses.
  rewrite list.Forall_forall in Hv. by apply Hv.
Qed.

(** An encoder that opens with an array header. *)
Lemma enc_array_head `{Minicbor} n e b :
  in_u 64 n -> w_array n ⊕ e = Some b -> exists m r, in_u 64 m /\ b = e_array m ++ r.
Proof. intros Hn (x & y & [= <-] & _ & ->)%enc_app_Some. eauto. Qed.
#[export] Hint Extern 3 (exists n r, in_u 64 n /\ _ = e_array n ++ r) =>
  (match goal with
   | H : encode _ = Some _ |- _ => eapply enc_array_head; [|exact H]; (unfold in_u; lia)
   end) : codec.
#[export] Hint Extern 1 (Parses (d_seq decode) (_ ⊕ enc_all _) _) => (apply seq_codec) : codec.
#[export] Hint Extern 1 (Parses (d_seq decode) (_ ⊕ enc_all _ ⊕ _) _) =>
  (apply seq_codec_indef) : codec.

(** Exposes the bodies of an encoder and a decoder, not those they call. *)
Tactic Notation "unfold_codec" reference(e) reference(d) :=
  unfold encode, decode; unfold e, d; cbn in *.

(** [minicbor::to_vec] and [minicbor::decode]: the latter ignores trailing
    bytes. *)
Definition to_vec {A} `{Encode A} (x : A) : option bytes := encode x.
Definition from_slice {A} `{Decode A} (b : bytes) : result decode_error A :=
  fst <$> decode b.

(** ** [pallas_codec::utils] *)
Section utils.
Context `{ML : MinicborLaws}.

(** An arbitrary CBOR item, kept as it was read. *)
Record AnyCbor := { inner : bytes }.
Definition from_raw_bytes (b : bytes) : AnyCbor := {| inner := b |}.
Definition raw_bytes (a : AnyCbor) : bytes := inner a.

#[export] Instance AnyCbor_decode : Decode AnyCbor := fun all =>
  match d_skip all with
  | Ok (_, rest) => Ok ({| inner := take (length all - length rest) all |}, rest)
  | Err e => Err e
  end.
#[export] Instance AnyCbor_encode : Encode AnyCbor := fun a => Some (raw_bytes a).
#[export] Instance AnyCbor_valid : Valid AnyCbor :=
  fun a => data_item (inner a) /\ fits_len (inner a).

#[export] Instance AnyCbor_codec : Codec AnyCbor.
Proof.
  split.
  - intros [w] [Hw _] b rest [= <-]. unfold decode, AnyCbor_decode, raw_bytes; simpl.
    rewrite (skip_parses w Hw w rest eq_refl). by rewrite take_app_sub.
  - intros b x r. unfold decode, AnyCbor_decode.
    destruct (d_skip b) as [[[] r1]|] eqn:E; [|done]. intros [= <- <-].
    destruct (skip_stable _ _ _ E) as [[p ->] Hs]. split; [by exists p|].
    intros s. rewrite Hs, <- app_assoc. by rewrite !take_app_sub.
Qed.

(** A value written as the byte string that holds its encoding. *)
Record CborWrap (T : Type) := mkCborWrap { cbor_wrapped : T }.
Arguments mkCborWrap {T} _.
Arguments cbor_wrapped {T} _.
Definition unwrap {T} (w : CborWrap T) : T := cbor_wrapped w.

#[export] Instance CborWrap_decode {T} `{Decode T} : Decode (CborWrap T) :=
  _ ← d_tag;
  cbor ← d_bytes;
  match from_slice cbor with Ok x => mret (mkCborWrap x) | Err e => dec_fail e end.
#[export] Instance CborWrap_encode {T} `{Encode T} : Encode (CborWrap T) := fun w =>
  match to_vec (cbor_wrapped w) with
  | Some buf => Some (e_tag CBOR_TAG) ⊕ Some (e_bytes buf)
  | None => None
  end.
#[export] Instance CborWrap_valid {T} `{Encode T, Valid T} : Valid (CborWrap T) := fun w =>
  valid (cbor_wrapped w) /\ forall b, encode (cbor_wrapped w) = Some b -> fits_len b.

#[export] Instance CborWrap_codec {T} `{Codec T} : Codec (CborWrap T).
Proof.
  split.
  - intros [x] [Hx Hl]. unfold encode, decode, CborWrap_encode, CborWrap_decode, to_vec; simpl in *.
    destruct (encode x) as [buf|] eqn:E; [|apply Parses_fail].
    specialize (Hl _ eq_refl).
    eapply Parses_bind; [solve [eauto with codec]|].
    eapply Parses_bind_last; [solve [eauto with codec]|].
    unfold from_slice.
    pose proof (codec_parses x Hx buf [] E) as Hp. rewrite app_nil_r in Hp.
    rewrite Hp. apply Parses_ret.
  - unfold decode, CborWrap_decode. solve_stable.
Qed.
End utils.
Arguments mkCborWrap {T} _.
Arguments cbor_wrapped {T} _.
