(* ===== verification/Rfc8949.v ===== *)
(** * A concrete CBOR codec

    An implementation of the interface [Minicbor] after RFC 8949, with the proof
    that it satisfies [MinicborLaws].  It models no code of the repository: it
    shows that the laws the codecs rely on can hold together, makes the model
    executable, and is what the witnesses are evaluated with.  Strings are kept as
    their UTF-8 bytes, without the validation minicbor does. *)
From S2P Require Import Prelude Cbor.

Definition e_head (mt n : Z) : bytes :=
  if n <? 24 then [mt * 32 + n]
  else if n <? 256 then (mt * 32 + 24) :: be_bytes 1 n
  else if n <? 65536 then (mt * 32 + 25) :: be_bytes 2 n
  else if n <? 4294967296 then (mt * 32 + 26) :: be_bytes 4 n
  else (mt * 32 + 27) :: be_bytes 8 n.

Definition d_take (n : nat) : dec bytes := fun b =>
  if (n <=? length b)%nat then Ok (take n b, drop n b) else Err EndOfInput.

(** The bytes of the argument that follows the initial byte. *)
Definition arg_len (ai : Z) : nat :=
  if ai =? 24 then 1%nat else if ai =? 25 then 2%nat else if ai =? 26 then 4%nat else 8%nat.

(** Major type and argument, [None] for an indefinite length. *)
Definition d_head : dec (Z * option Z) := fun b =>
  match b with
  | [] => Err EndOfInput
  | h :: r =>
      let mt := h / 32 in let ai := h mod 32 in
      if ai <? 24 then Ok ((mt, Some ai), r)
      else if ai =? 31 then Ok ((mt, None), r)
      else if ai <? 28 then (v ← d_take (arg_len ai); mret (mt, Some (of_be v))) r
      else Err TypeMismatch
  end.

Definition d_uint (w : Z) : dec Z :=
  h ← d_head;
  match h with
  | (0, Some n) => if n <? 2 ^ w then mret n else dec_fail TypeMismatch
  | _ => dec_fail TypeMismatch
  end.

(** A negative integer [-1 - n] has major type 1. *)
Definition e_signed (n : Z) : bytes := if 0 <=? n then e_head 0 n else e_head 1 (- 1 - n).

Definition d_signed (w : Z) : dec Z :=
  h ← d_head;
  match h with
  | (0, Some n) => if n <? 2 ^ w then mret n else dec_fail TypeMismatch
  | (1, Some n) => if n <? 2 ^ w then mret (- 1 - n) else dec_fail TypeMismatch
  | _ => dec_fail TypeMismatch
  end.

Definition d_len (mt : Z) : dec (option Z) :=
  h ← d_head; if h.1 =? mt then mret h.2 else dec_fail TypeMismatch.

Definition d_blob (mt : Z) : dec bytes :=
  h ← d_len mt;
  match h with Some n => d_take (Z.to_nat n) | None => dec_fail TypeMismatch end.

Definition d_tag_num : dec Z :=
  h ← d_len 6; match h with Some n => mret n | None => dec_fail TypeMismatch end.

Definition d_simple_bool : dec bool :=
  h ← d_len 7;
  match h with
  | Some 20 => mret false | Some 21 => mret true | _ => dec_fail TypeMismatch
  end.

(** The type of the next item, without consuming it. *)
Definition type_of (h : Z) : cbor_type :=
  if h <? 25 then TU8 else if h =? 25 then TU16
  else if h =? 26 then TU32 else if h =? 27 then TU64
  else if h <? 57 then TI8 else if h =? 57 then TI16
  else if h =? 58 then TI32 else if h =? 59 then TI64
  else if h <? 92 then TBytes else if h =? 95 then TBytesIndef
  else if h <? 128 then TOther
  else if h <? 156 then TArray else if h =? 159 then TArrayIndef
  else if h <? 188 then TMap else if h =? 191 then TMapIndef
  else if h <? 220 then TTag
  else if h =? 246 then TNull else if h =? 255 then TBreak else TOther.

Definition d_peek : dec cbor_type := fun b =>
  match b with
  | [] => Err EndOfInput
  | h :: _ => Ok (type_of h, b)
  end.

Fixpoint rep {A} (n : nat) (d : dec A) : dec (list A) :=
  match n with
  | O => mret []
  | S n => x ← d; xs ← rep n d; mret (x :: xs)
  end.

Fixpoint until_break {A} (fuel : nat) (d : dec A) : dec (list A) := fun b =>
  match fuel, b with
  | O, _ | _, [] => Err EndOfInput
  | S fuel, h :: r =>
      if h =? 255 then Ok ([], r)
      else (x ← d; xs ← until_break fuel d; mret (x :: xs)) b
  end.

Definition d_items {A} (mt : Z) (d : dec A) : dec (list A) :=
  h ← d_len mt;
  match h with
  | Some n => rep (Z.to_nat n) d
  | None => fun b => until_break (S (length b)) d b
  end.

(** The chunks of a byte string. *)
Definition d_chunks : dec (list bytes) :=
  h ← d_len 2;
  match h with
  | Some n => x ← d_take (Z.to_nat n); mret [x]
  | None => fun b => until_break (S (length b)) (d_blob 2) b
  end.

Definition d_both {A B} (da : dec A) (db : dec B) : dec (A * B) :=
  x ← da; y ← db; mret (x, y).

Definition d_tuple {A B} (da : dec A) (db : dec B) : dec (A * B) :=
  h ← d_len 4; match h with Some 2 => d_both da db | _ => dec_fail TypeMismatch end.

(** Skips items with a stack of the open containers and what they still expect. *)
Definition skip_head (st : list (option Z)) (h : Z * option Z) : dec (list (option Z)) :=
  match h with
  | (0, Some _) | (1, Some _) | (7, Some _) => mret st
  | (2, Some n) | (3, Some n) => _ ← d_take (Z.to_nat n); mret st
  | (2, None) | (3, None) | (4, None) | (5, None) => mret (None :: st)
  | (4, Some n) => mret (Some n :: st)
  | (5, Some n) => mret (Some (2 * n) :: st)
  | (6, Some _) => mret (Some 1 :: st)
  | _ => dec_fail TypeMismatch
  end.

Fixpoint skip_run (fuel : nat) (st : list (option Z)) : dec unit := fun b =>
  match fuel, st with
  | O, _ => Err EndOfInput
  | _, [] => Ok (tt, b)
  | S fuel, Some n :: st =>
      if n <=? 0 then skip_run fuel st b
      else (h ← d_head; st' ← skip_head (Some (n - 1) :: st) h; skip_run fuel st') b
  | S fuel, None :: st =>
      match b with
      | [] => Err EndOfInput
      | x :: r =>
          if x =? 255 then skip_run fuel st r
          else (h ← d_head; st' ← skip_head (None :: st) h; skip_run fuel st') b
      end
  end.

Definition d_skip_item : dec unit := fun b => skip_run (2 * length b + 3) [Some 1] b.

(** A break that ends the items of a container is skipped too. *)
Definition d_skip_any : dec unit := fun b =>
  match b with 255 :: r => Ok (tt, r) | _ => d_skip_item b end.

(** Null, or the item. *)
Definition d_opt {A} (d : dec A) : dec (option A) :=
  ty ← d_peek;
  match ty with
  | TNull => _ ← d_skip_item; mret None
  | _ => x ← d; mret (Some x)
  end.

#[export] Instance rfc8949 : Minicbor := {|
  e_array := e_head 4; e_map := e_head 5;
  e_begin_array := [159]; e_begin_map := [191]; e_end := [255];
  e_u8 := e_head 0; e_u16 := e_head 0; e_u32 := e_head 0; e_u64 := e_head 0;
  e_i64 := e_signed; e_int := e_signed; e_begin_bytes := [95]; e_bool := fun x => [if x then 245 else 244];
  e_bytes := fun x => e_head 2 (Z.of_nat (length x)) ++ x;
  e_str := fun x => e_head 3 (Z.of_nat (length x)) ++ x;
  e_tag := e_head 6; e_null := [246];
  d_array := d_len 4; d_map := d_len 5;
  d_u8 := d_uint 8; d_u16 := d_uint 16; d_u32 := d_uint 32; d_u64 := d_uint 64; d_i64 := d_signed 63; d_int := d_signed 64; d_bytes_iter := d_chunks;
  d_bool := d_simple_bool; d_bytes := d_blob 2; d_str := d_blob 3; d_tag := d_tag_num;
  d_skip := d_skip_any; d_datatype := d_peek;
  d_seq := fun A d => d_items 4 d;
  d_pairs := fun K V dk dv => d_items 5 (d_both dk dv);
  d_tuple2 := fun A B da db => d_tuple da db;
  d_option := fun A d => d_opt d;
  data_item := fun w => d_skip_item w = Ok (tt, [])
|}.

(** ** Heads *)
Lemma d_take_parses x : Parses (d_take (length x)) (Some x) x.
Proof.
  intros b rest [= <-]. unfold d_take. rewrite length_app.
  rewrite (proj2 (Nat.leb_le _ _)) by lia. by rewrite take_app_length, drop_app_length.
Qed.

Lemma d_take_stable n : Stable (d_take n).
Proof.
  intros b x r. unfold d_take. destruct (Nat.leb_spec n (length b)); [|done].
  intros [= <- <-]. split; [exists (take n b); by rewrite take_drop|].
  intros s. rewrite length_app, (proj2 (Nat.leb_le _ _)) by lia.
  rewrite take_app_le, drop_app_le by lia. done.
Qed.
#[local] Hint Resolve d_take_stable d_take_parses : codec.

Lemma head_byte mt ai : 0 <= ai < 32 -> (mt * 32 + ai) / 32 = mt /\ (mt * 32 + ai) mod 32 = ai.
Proof.
  intros. rewrite Z.add_comm, Z.div_add, Z.mod_add by lia.
  rewrite Z.div_small, Z.mod_small by lia. lia.
Qed.

Lemma d_head_cons h r :
  d_head (h :: r) =
    if h mod 32 <? 24 then Ok ((h / 32, Some (h mod 32)), r)
    else if h mod 32 =? 31 then Ok ((h / 32, None), r)
    else if h mod 32 <? 28 then (v ← d_take (arg_len (h mod 32)); mret (h / 32, Some (of_be v))) r
    else Err TypeMismatch.
Proof. done. Qed.

Lemma d_head_long mt ai n rest :
  24 <= ai < 28 -> 0 <= n < 256 ^ Z.of_nat (arg_len ai) ->
  d_head (((mt * 32 + ai) :: be_bytes (arg_len ai) n) ++ rest) = Ok ((mt, Some n), rest).
Proof.
  intros Hai Hn. rewrite <- app_comm_cons, d_head_cons.
  destruct (head_byte mt ai) as [-> ->]; [lia|].
  destruct (Z.ltb_spec ai 24); [lia|]. destruct (Z.eqb_spec ai 31); [lia|].
  destruct (Z.ltb_spec ai 28); [|lia].
  pose proof (d_take_parses (be_bytes (arg_len ai) n) _ rest eq_refl) as Ht.
  rewrite length_be_bytes in Ht. unfold mbind, dec_bind. rewrite Ht.
  by rewrite of_be_be_bytes.
Qed.

Local Ltac pow_lia :=
  match goal with |- 0 <= _ < ?x => let y := eval vm_compute in x in change x with y end;
  first [lia | match goal with H : _ < 2 ^ 64 |- _ => change (2 ^ 64) with 18446744073709551616 in H; lia end].

Lemma head_parses mt n : in_u 64 n -> Parses d_head (Some (e_head mt n)) (mt, Some n).
Proof.
  intros [Hn0 Hn] b rest [= <-]. unfold e_head.
  destruct (Z.ltb_spec n 24); [|destruct (Z.ltb_spec n 256);
    [|destruct (Z.ltb_spec n 65536); [|destruct (Z.ltb_spec n 4294967296)]]].
  - cbn [app]. rewrite d_head_cons. destruct (head_byte mt n) as [-> ->]; [lia|].
    destruct (Z.ltb_spec n 24); [done|lia].
  - apply (d_head_long mt 24); [lia|pow_lia].
  - apply (d_head_long mt 25); [lia|pow_lia].
  - apply (d_head_long mt 26); [lia|pow_lia].
  - apply (d_head_long mt 27); [lia|pow_lia].
Qed.

Lemma d_head_stable : Stable d_head.
Proof.
  intros [|h b] x r; [done|]. rewrite d_head_cons. change (h :: b) with ([h] ++ b).
  intros E. enough ((exists p, b = p ++ r) /\ forall s, d_head ((h :: b) ++ s) = Ok (x, r ++ s))
    as [[p ->] ?] by (split; [by exists (h :: p)|done]).
  setoid_rewrite <- app_comm_cons. setoid_rewrite d_head_cons.
  destruct (h mod 32 <? 24); [injection E as <- <-; split; [by exists []|done]|].
  destruct (h mod 32 =? 31); [injection E as <- <-; split; [by exists []|done]|].
  destruct (h mod 32 <? 28); [|done].
  revert E. generalize b x r.
  change (Stable (v ← d_take (arg_len (h mod 32)); mret (h / 32, Some (of_be v)))). solve_stable.
Qed.
#[local] Hint Resolve d_head_stable head_parses : codec.

Lemma d_head_consumes : Consumes d_head.
Proof.
  intros [|h b] x r; [done|]. rewrite d_head_cons. intros E.
  enough (length r <= length b)%nat by (simpl; lia).
  destruct (h mod 32 <? 24); [by injection E as <- <-|].
  destruct (h mod 32 =? 31); [by injection E as <- <-|].
  destruct (h mod 32 <? 28); [|done].
  unfold mbind, dec_bind, d_take in E. destruct (_ <=? _)%nat; [|done].
  injection E as <- <-. rewrite length_drop. lia.
Qed.

Lemma d_len_parses mt n : in_u 64 n -> Parses (d_len mt) (Some (e_head mt n)) (Some n).
Proof.
  intros. eapply Parses_bind_last; [by apply head_parses|]. cbn.
  rewrite Z.eqb_refl. apply Parses_ret.
Qed.

Lemma d_len_stable mt : Stable (d_len mt).
Proof. unfold d_len. solve_stable. Qed.
#[local] Hint Resolve d_len_stable d_len_parses : codec.

Lemma d_uint_parses w n : w <= 64 -> in_u w n -> Parses (d_uint w) (Some (e_head 0 n)) n.
Proof.
  intros Hw [Hn0 Hn]. assert (in_u 64 n).
  { split; [done|]. eapply Z.lt_le_trans; [done|]. apply Z.pow_le_mono_r; lia. }
  eapply Parses_bind_last; [by apply head_parses|]. cbn.
  destruct (Z.ltb_spec n (2 ^ w)); [apply Parses_ret|lia].
Qed.

Lemma d_uint_stable w : Stable (d_uint w).
Proof. unfold d_uint. solve_stable. Qed.

Lemma d_blob_parses mt x :
  fits_len x -> Parses (d_blob mt) (Some (e_head mt (Z.of_nat (length x)) ++ x)) x.
Proof.
  intros Hx.
  assert (Parses (d_blob mt) (Some (e_head mt (Z.of_nat (length x))) ⊕ Some x) x) as Hp; [|exact Hp].
  eapply Parses_bind; [by apply d_len_parses|]. cbn.
  rewrite Nat2Z.id. apply d_take_parses.
Qed.

Lemma d_blob_stable mt : Stable (d_blob mt).
Proof. unfold d_blob. solve_stable. Qed.
#[local] Hint Resolve d_uint_stable d_uint_parses d_blob_stable : codec.

(** ** Sequences *)
Lemma rep_parses {A} (d : dec A) (f : A -> enc) xs :
  (forall x, x ∈ xs -> Parses d (f x) x) -> Parses (rep (length xs) d) (enc_all (f <$> xs)) xs.
Proof.
  induction xs as [|x xs IH]; intros Hf; cbn; [apply Parses_ret|].
  eapply Parses_bind; [apply Hf; set_solver|].
  eapply Parses_bind_last; [apply IH; set_solver|]. apply Parses_ret.
Qed.

Lemma rep_stable {A} n (d : dec A) : Stable d -> Stable (rep n d).
Proof. induction n; cbn; intros; solve_stable. Qed.

(** Items that do not start with the break byte. *)
Definition no_break (e : enc) : Prop := forall b, e = Some b -> exists h r, b = h :: r /\ h <> 255.

Lemma until_break_parses {A} (d : dec A) (f : A -> enc) xs fuel :
  (forall x, x ∈ xs -> Parses d (f x) x) -> (forall x, x ∈ xs -> no_break (f x)) ->
  (length xs < fuel)%nat ->
  Parses (until_break fuel d) (enc_all (f <$> xs) ⊕ Some [255]) xs.
Proof.
  revert fuel; induction xs as [|x xs IH]; intros [|fuel] Hp Hb Hl b rest Hbs; simpl in Hl; [lia| |lia|].
  - cbn in Hbs. injection Hbs as <-. done.
  - cbn [fmap list_fmap enc_all] in Hbs.
    apply enc_app_Some in Hbs as (bx & b1 & Hx & [= <-] & ->).
    apply enc_app_Some in Hx as (b2 & b3 & Hx & Hxs & ->).
    destruct (Hb x ltac:(set_solver) _ Hx) as (h & r & -> & Hh).
    cbn [app until_break]. rewrite (proj2 (Z.eqb_neq _ _) Hh).
    unfold mbind, dec_bind. rewrite <- !app_assoc. 
    change (h :: r ++ b3 ++ [255] ++ rest) with ((h :: r) ++ b3 ++ [255] ++ rest).
    rewrite (Hp x ltac:(set_solver) _ _ Hx), app_assoc.
    rewrite (IH fuel ltac:(set_solver) ltac:(set_solver) ltac:(lia) (b3 ++ [255]) rest); [done|].
    by rewrite Hxs.
Qed.

Lemma until_break_mono {A} (d : dec A) fuel fuel' b x r :
  (fuel <= fuel')%nat -> until_break fuel d b = Ok (x, r) -> until_break fuel' d b = Ok (x, r).
Proof.
  revert fuel' b x r; induction fuel as [|fuel IH]; intros [|fuel'] b x r Hf; try done; [lia|].
  destruct b as [|h b]; [done|]. simpl. destruct (h =? 255); [done|].
  unfold mbind, dec_bind. destruct (d (h :: b)) as [[y r1]|]; [|done].
  destruct (until_break fuel d r1) as [[ys r2]|] eqn:E; [|done].
  by rewrite (IH fuel' _ _ _ ltac:(lia) E).
Qed.

Lemma until_break_stable {A} fuel (d : dec A) : Stable d -> Stable (until_break fuel d).
Proof.
  intros Hd; induction fuel as [|fuel IH]; intros [|h b] x r; try done; simpl.
  destruct (h =? 255); [intros [= <- <-]; split; [by exists [h]|done]|].
  change (h :: b) with ([h] ++ b). intros E.
  assert (Stable (x ← d; xs ← until_break fuel d; mret (x :: xs))) as Hs by solve_stable.
  exact (Hs (h :: b) x r E).
Qed.

Lemma d_items_stable {A} mt (d : dec A) : Stable d -> Stable (d_items mt d).
Proof.
  intros Hd. unfold d_items. apply Stable_bind; [apply d_len_stable|].
  intros [n|]; [by apply rep_stable|]. intros b x r E.
  destruct (until_break_stable _ d Hd _ _ _ E) as [Hp Hs]. split; [done|].
  intros s. eapply until_break_mono; [|apply Hs]. rewrite length_app. lia.
Qed.

Lemma enc_all_length {A} (f : A -> enc) xs b :
  (forall x, x ∈ xs -> no_break (f x)) -> enc_all (f <$> xs) = Some b -> (length xs <= length b)%nat.
Proof.
  revert b; induction xs as [|x xs IH]; intros b Hb; [simpl; lia|]. cbn [fmap list_fmap enc_all].
  intros (b1 & b2 & Hx & Hxs & ->)%enc_app_Some.
  destruct (Hb x ltac:(set_solver) _ Hx) as (h & r & -> & _).
  pose proof (IH b2 ltac:(set_solver) Hxs). rewrite length_app. simpl. lia.
Qed.

Lemma d_items_parses {A} mt (d : dec A) f xs :
  fits_len xs -> (forall x, x ∈ xs -> Parses d (f x) x) ->
  Parses (d_items mt d) (Some (e_head mt (Z.of_nat (length xs))) ⊕ enc_all (f <$> xs)) xs.
Proof.
  intros Hl Hp. eapply Parses_bind; [by apply d_len_parses|]. cbn.
  rewrite Nat2Z.id. by apply rep_parses.
Qed.

Lemma d_items_parses_indef {A} mt (d : dec A) f xs :
  0 <= mt < 8 -> (forall x, x ∈ xs -> Parses d (f x) x) -> (forall x, x ∈ xs -> no_break (f x)) ->
  Parses (d_items mt d) (Some [mt * 32 + 31] ⊕ enc_all (f <$> xs) ⊕ Some [255]) xs.
Proof.
  intros Hmt Hp Hb. unfold d_items. eapply (Parses_bind _ _ _ _ None).
  - intros b rest [= <-]. unfold d_len, mbind, dec_bind. cbn [app]. rewrite d_head_cons.
    destruct (head_byte mt 31) as [-> ->]; [lia|]. simpl. by rewrite Z.eqb_refl.
  - intros b rest Hbs. cbn beta.
    eapply (until_break_mono d (S (length xs))).
    + apply enc_app_Some in Hbs as (b1 & b2 & Hx & [= <-] & ->).
      apply enc_all_length in Hx; [|done]. rewrite !length_app. lia.
    + eapply until_break_parses; eauto.
Qed.

Lemma no_break_array n r : in_u 64 n -> exists h t, e_head 4 n ++ r = h :: t /\ h <> 255.
Proof.
  intros Hn. unfold e_head, in_u in *. repeat (case_match; [by eexists _, _; split; [done|lia]|]).
  eexists _, _; split; [done|lia].
Qed.

Lemma no_break_blob x : fits_len x -> exists h t, e_head 2 (Z.of_nat (length x)) ++ x = h :: t /\ h <> 255.
Proof.
  unfold fits_len, e_head, in_u. intros Hn. repeat (case_match; [by eexists _, _; split; [done|lia]|]).
  eexists _, _; split; [done|lia].
Qed.

Lemma no_break_uint n e : in_u 16 n -> no_break (Some (e_head 0 n) ⊕ e).
Proof.
  intros Hn b (b1 & b2 & [= <-] & _ & ->)%enc_app_Some. unfold e_head, in_u in *.
  repeat (case_match; [by eexists _, _; split; [done|lia]|]).
  eexists _, _; split; [done|lia].
Qed.

Lemma d_both_parses {A B} (da : dec A) (db : dec B) ea eb a b :
  Parses da ea a -> Parses db eb b -> Parses (d_both da db) (ea ⊕ eb) (a, b).
Proof.
  intros. eapply Parses_bind; [done|]. eapply Parses_bind_last; [done|]. apply Parses_ret.
Qed.

Lemma d_both_stable {A B} (da : dec A) (db : dec B) : Stable da -> Stable db -> Stable (d_both da db).
Proof. intros. unfold d_both. solve_stable. Qed.

(** ** Skipping *)
Lemma skip_head_stable st h : Stable (skip_head st h).
Proof. unfold skip_head. solve_stable. Qed.

Lemma skip_run_ext fuel st b x r :
  skip_run fuel st b = Ok (x, r) ->
  (exists p, b = p ++ r) /\
  forall s fuel', (fuel <= fuel')%nat -> skip_run fuel' st (b ++ s) = Ok (x, r ++ s).
Proof.
  revert st b x r; induction fuel as [|fuel IH]; intros st b x r; [done|].
  assert (forall st0 b,
    (h ← d_head; st' ← skip_head st0 h; skip_run fuel st') b = Ok (x, r) ->
    (exists p, b = p ++ r) /\ forall s fuel', (fuel <= fuel')%nat ->
      (h ← d_head; st' ← skip_head st0 h; skip_run fuel' st') (b ++ s) = Ok (x, r ++ s)) as Hstep.
  { intros st0 b0. unfold mbind, dec_bind.
    destruct (d_head b0) as [[h r1]|] eqn:E1; [|done].
    destruct (skip_head st0 h r1) as [[st' r2]|] eqn:E2; [|done]. intros E3.
    destruct (d_head_stable _ _ _ E1) as [[p1 ->] Hs1].
    destruct (skip_head_stable _ _ _ _ _ E2) as [[p2 ->] Hs2].
    destruct (IH _ _ _ _ E3) as [[p3 ->] Hs3].
    split; [exists (p1 ++ p2 ++ p3); by rewrite !app_assoc|].
    intros s fuel' Hf. rewrite Hs1, Hs2. by apply Hs3. }
  destruct st as [|[n|] st]; simpl.
  - intros [= <- <-]. split; [by exists []|]. intros s [|fuel']; [lia|done].
  - destruct (n <=? 0) eqn:En; intros E.
    + destruct (IH _ _ _ _ E) as [Hp Hs]. split; [done|].
      intros s [|fuel'] Hf; [lia|]. simpl. rewrite En. apply Hs. lia.
    + destruct (Hstep _ _ E) as [Hp Hs]. split; [done|].
      intros s [|fuel'] Hf; [lia|]. simpl. rewrite En. apply Hs. lia.
  - destruct b as [|y b]; [done|]. destruct (y =? 255) eqn:Ey; intros E.
    + destruct (IH _ _ _ _ E) as [[p ->] Hs]. split; [by exists (y :: p)|].
      intros s [|fuel'] Hf; [lia|]. simpl. rewrite Ey. apply Hs. lia.
    + destruct (Hstep _ _ E) as [Hp Hs]. split; [done|].
      intros s [|fuel'] Hf; [lia|]. simpl. rewrite Ey. apply Hs. lia.
Qed.

Lemma d_skip_item_stable : Stable d_skip_item.
Proof.
  intros b x r E. destruct (skip_run_ext _ _ _ _ _ E) as [Hp Hs]. split; [done|].
  intros s. apply Hs. rewrite length_app. lia.
Qed.

Lemma d_skip_any_item w rest : d_skip_item w = Ok (tt, []) -> d_skip_any (w ++ rest) = Ok (tt, rest).
Proof.
  intros Hw. destruct (d_skip_item_stable _ _ _ Hw) as [_ Hs]. specialize (Hs rest).
  destruct w as [|h w]; [done|]. cbn [app] in *. unfold d_skip_any. 
  destruct (decide (h = 255)) as [->|Hne]; [|by repeat (case_match; try done)].
  unfold d_skip_item in Hw. by destruct w.
Qed.

Lemma d_skip_any_stable : Stable d_skip_any.
Proof.
  intros b x r E. destruct b as [|h b]; [by destruct (d_skip_item_stable [] x r E)|].
  destruct (decide (h = 255)) as [->|Hne].
  - injection E as <- <-. split; [by exists [255]|done].
  - assert (Hd : forall s, d_skip_any (h :: s) = d_skip_item (h :: s)) by (intros s; unfold d_skip_any; by repeat (case_match; try done)).
    rewrite Hd in E. destruct (d_skip_item_stable _ _ _ E) as [Hp Hs]. split; [done|].
    intros s. cbn [app]. rewrite Hd. apply (Hs s).
Qed.

Lemma d_signed_parses w n : 0 <= w <= 64 -> - 2 ^ w <= n < 2 ^ w -> Parses (d_signed w) (Some (e_signed n)) n.
Proof.
  intros Hw Hn. assert (2 ^ w <= 2 ^ 64) by (apply Z.pow_le_mono_r; lia).
  unfold e_signed. destruct (Z.leb_spec 0 n).
  - eapply Parses_bind_last; [apply head_parses; split; [done|lia]|]. cbn -[Z.pow].
    rewrite (proj2 (Z.ltb_lt _ _)) by lia. apply Parses_ret.
  - eapply Parses_bind_last; [apply head_parses; split; lia|]. cbn -[Z.pow].
    rewrite (proj2 (Z.ltb_lt _ _)) by lia. replace n with (- 1 - (- 1 - n)) at 2 by lia. apply Parses_ret.
Qed.

Lemma d_signed_parses_u8 n : in_u 8 n -> Parses (d_signed 63) (Some (e_head 0 n)) n.
Proof.
  intros [Hn0 Hn]. pose proof (d_signed_parses 63 n ltac:(lia) ltac:(lia)) as Hp. unfold e_signed in Hp.
  by rewrite (proj2 (Z.leb_le _ _)) in Hp.
Qed.

Lemma d_signed_stable w : Stable (d_signed w).
Proof. unfold d_signed. solve_stable. Qed.

Lemma d_chunks_stable : Stable d_chunks.
Proof.
  unfold d_chunks. apply Stable_bind; [apply d_len_stable|]. intros [n|]; [solve_stable|]. intros b x r E.
  destruct (until_break_stable _ (d_blob 2) (d_blob_stable 2) _ _ _ E) as [Hp Hs]. split; [done|].
  intros s. eapply until_break_mono; [|apply Hs]. rewrite length_app. lia.
Qed.

Lemma d_chunks_parses xs :
  Forall fits_len xs ->
  Parses d_chunks (Some [95] ⊕ enc_all ((fun x => Some (e_head 2 (Z.of_nat (length x)) ++ x)) <$> xs) ⊕ Some [255]) xs.
Proof.
  intros Hxs b rest Hb.
  pose proof (d_items_parses_indef 2 (d_blob 2) (fun x => Some (e_head 2 (Z.of_nat (length x)) ++ x)) xs) as Hp.
  pose proof (Hp ltac:(lia)) as Hp'. unfold d_items, d_chunks in *. clear Hp.
  assert (b = 95 :: drop 1 b) as Hb1.
  { apply enc_app_Some in Hb as (b1 & b2 & [= <-] & _ & ->). done. }
  rewrite Hb1 in Hb |- *. specialize (Hp' ltac:(intros x Hx; apply d_blob_parses; by eapply Forall_forall in Hxs)).
  specialize (Hp' ltac:(intros x Hx c [= <-]; apply no_break_blob; by eapply Forall_forall in Hxs) _ rest Hb).
  exact Hp'.
Qed.

(** ** The laws hold *)
Lemma d_peek_stable : Stable d_peek.
Proof.
  intros [|h b] x r; simpl; [done|]. intros [= <- <-]. split; [by exists []|done].
Qed.

Lemma d_bool_parses (x : bool) : Parses d_simple_bool (Some [if x then 245 else 244]) x.
Proof. intros b rest [= <-]. by destruct x. Qed.

Lemma d_bool_stable : Stable d_simple_bool.
Proof. unfold d_simple_bool. solve_stable. Qed.

Lemma d_tag_parses n : in_u 64 n -> Parses d_tag_num (Some (e_head 6 n)) n.
Proof.
  intros. eapply Parses_bind_last; [by apply d_len_parses|]. apply Parses_ret.
Qed.

Lemma d_tag_stable : Stable d_tag_num.
Proof. unfold d_tag_num. solve_stable. Qed.

(** The initial byte of a head tells its major type. *)
Lemma e_head_first mt n :
  in_u 64 n -> exists ai t, e_head mt n = mt * 32 + ai :: t /\ 0 <= ai < 28.
Proof.
  intros Hn. unfold e_head, in_u in *. repeat (case_match; [by eexists _, _; split; [done|lia]|]).
  eexists _, _; split; [done|lia].
Qed.

Ltac type_cases :=
  unfold type_of; repeat match goal with
  | |- context [?a <? ?b] => destruct (Z.ltb_spec a b); try lia
  | |- context [?a =? ?b] => destruct (Z.eqb_spec a b); try lia
  end.

Lemma type_of_array ai : 0 <= ai < 28 -> type_of (4 * 32 + ai) = TArray.
Proof. intros. by type_cases. Qed.
Lemma type_of_map ai : 0 <= ai < 28 -> type_of (5 * 32 + ai) = TMap.
Proof. intros. by type_cases. Qed.
Lemma type_of_tag ai : 0 <= ai < 28 -> type_of (6 * 32 + ai) = TTag.
Proof. intros. by type_cases. Qed.
Lemma type_of_bytes ai : 0 <= ai < 28 -> type_of (2 * 32 + ai) = TBytes.
Proof. intros. by type_cases. Qed.
Lemma type_of_uint ai : 0 <= ai < 28 -> type_of (0 * 32 + ai) ∈ [TU8; TU16; TU32; TU64].
Proof. intros. type_cases; set_solver. Qed.
Lemma type_of_nint ai : 0 <= ai < 28 -> type_of (1 * 32 + ai) ∈ [TI8; TI16; TI32; TI64].
Proof. intros. type_cases; set_solver. Qed.

Lemma d_peek_head mt n t r :
  in_u 64 n -> (forall ai, 0 <= ai < 28 -> type_of (mt * 32 + ai) = t) ->
  d_peek (e_head mt n ++ r) = Ok (t, e_head mt n ++ r).
Proof. intros Hn Ht. destruct (e_head_first mt n Hn) as (ai & u & -> & Hai). cbn. by rewrite Ht. Qed.

Lemma d_peek_array n r : in_u 64 n -> d_peek (e_head 4 n ++ r) = Ok (TArray, e_head 4 n ++ r).
Proof. intros Hn. by apply d_peek_head, type_of_array. Qed.

Lemma d_peek_u64 n r :
  in_u 64 n -> exists t, d_peek (e_head 0 n ++ r) = Ok (t, e_head 0 n ++ r) /\ t ∈ [TU8; TU16; TU32; TU64].
Proof.
  intros Hn. destruct (e_head_first 0 n Hn) as (ai & u & -> & Hai).
  exists (type_of (0 * 32 + ai)). split; [done|by apply type_of_uint].
Qed.

Lemma d_peek_int n r :
  - 2 ^ 64 <= n < 2 ^ 64 -> exists t, d_peek (e_signed n ++ r) = Ok (t, e_signed n ++ r) /\ int_type t.
Proof.
  intros Hn. unfold e_signed, int_type. destruct (Z.leb_spec 0 n).
  - destruct (d_peek_u64 n r) as (t & -> & Ht); [split; lia|]. exists t. split; [done|set_solver].
  - destruct (e_head_first 1 (- 1 - n)) as (ai & u & -> & Hai); [split; lia|].
    exists (type_of (1 * 32 + ai)). split; [done|]. apply type_of_nint in Hai. set_solver.
Qed.

Lemma d_peek_blob x r :
  fits_len x -> d_peek ((e_head 2 (Z.of_nat (length x)) ++ x) ++ r) = Ok (TBytes, (e_head 2 (Z.of_nat (length x)) ++ x) ++ r).
Proof. intros Hx. rewrite <- app_assoc. apply d_peek_head; [exact Hx|apply type_of_bytes]. Qed.

Lemma d_len_consumes mt : Consumes (d_len mt).
Proof. apply Consumes_bind; [apply d_head_consumes|]. intros h. solve_stable. Qed.

Lemma d_signed_consumes w : Consumes (d_signed w).
Proof. apply Consumes_bind; [apply d_head_consumes|]. intros h. solve_stable. Qed.

Lemma d_tag_consumes : Consumes d_tag_num.
Proof. apply Consumes_bind; [apply d_len_consumes|]. intros h. solve_stable. Qed.

Lemma d_blob_consumes mt : Consumes (d_blob mt).
Proof. apply Consumes_bind; [apply d_len_consumes|]. intros h. solve_stable. Qed.

Lemma d_chunks_consumes : Consumes d_chunks.
Proof.
  intros b xs r E. destruct (d_chunks_stable _ _ _ E) as [[p ->] _]. rewrite length_app.
  destruct p as [|h p]; [|simpl; lia]. exfalso. unfold d_chunks, mbind, dec_bind in E. cbn [app] in E.
  destruct (d_len 2 r) as [[n r1]|] eqn:Hl; [|done]. apply d_len_consumes in Hl.
  enough (length r <= length r1)%nat by lia. destruct n as [n|].
  - unfold d_take, mret, dec_ret in E. destruct (_ <=? _)%nat; [|done]. injection E as <- <-. rewrite length_drop. lia.
  - destruct (until_break_stable _ (d_blob 2) (d_blob_stable 2) _ _ _ E) as [[p ->] _]. rewrite length_app. lia.
Qed.

Lemma d_opt_parses A (d : dec A) e x :
  (forall b, e = Some b -> exists n r, in_u 64 n /\ b = e_head 4 n ++ r) ->
  Parses d e x -> Parses (d_opt d) e (Some x).
Proof.
  intros Hh Hd b rest Hb. destruct (Hh b Hb) as (n & r & Hn & Hr).
  unfold d_opt, mbind, dec_bind. rewrite Hr, <- app_assoc, (d_peek_array n _ Hn), app_assoc, <- Hr.
  by rewrite (Hd b rest Hb).
Qed.

Lemma d_opt_stable A (d : dec A) : Stable d -> Stable (d_opt d).
Proof.
  intros Hd. unfold d_opt. apply Stable_bind; [apply d_peek_stable|]. intros ty.
  assert (Stable (x ← d; mret (Some x))) by solve_stable.
  destruct ty; try done. apply Stable_bind; [apply d_skip_item_stable|solve_stable].
Qed.

Lemma d_tuple_parses A B (da : dec A) (db : dec B) ea eb a b :
  Parses da ea a -> Parses db eb b ->
  Parses (d_tuple da db) (Some (e_head 4 2) ⊕ ea ⊕ eb) (a, b).
Proof.
  intros. unfold d_tuple. eapply Parses_bind; [apply d_len_parses; by unfold in_u|].
  by apply d_both_parses.
Qed.

Lemma d_tuple_stable A B (da : dec A) (db : dec B) : Stable da -> Stable db -> Stable (d_tuple da db).
Proof.
  intros. unfold d_tuple. apply Stable_bind; [apply d_len_stable|]. intros [n|]; [|solve_stable].
  pose proof (d_both_stable _ _ H H0).
  repeat (case_match; try apply Stable_fail; try done).
Qed.

#[export] Instance rfc8949_laws : MinicborLaws rfc8949.
Proof.
  split; cbn [e_array e_map e_begin_array e_begin_map e_begin_bytes e_end e_u8 e_u16 e_u32 e_u64 e_i64 e_int e_bool e_bytes
    e_str e_tag e_null d_array d_map d_u8 d_u16 d_u32 d_u64 d_i64 d_int d_bool d_bytes d_bytes_iter d_str d_tag d_skip
    d_datatype d_seq d_pairs d_tuple2 d_option data_item rfc8949].
  all: try solve [intros; first [apply d_len_parses | apply d_uint_parses | apply d_blob_parses
    | apply d_tag_parses | apply d_bool_parses | apply d_len_stable | apply d_uint_stable
    | apply d_blob_stable | apply d_tag_stable | apply d_bool_stable | apply d_skip_any_stable | apply d_signed_stable | apply d_signed_parses_u8 | apply d_signed_parses; lia
    | apply d_len_consumes | apply d_signed_consumes | apply d_tag_consumes | apply d_blob_consumes
    | apply d_chunks_consumes | apply d_chunks_stable | by apply d_chunks_parses | by apply d_peek_blob
    | by apply d_peek_int | by apply d_peek_head, type_of_map | by apply d_peek_head, type_of_tag
    | by apply d_peek_array | by intros ? ? [= <-] | apply d_peek_stable | apply d_items_stable | apply d_items_parses | apply d_tuple_stable
    | apply d_peek_u64 | apply d_tuple_parses | by apply d_opt_parses | by apply d_opt_stable]; done || lia].
  - intros w Hw b rest [= <-]. by apply d_skip_any_item.
  - intros A d f xs Hp Hh. apply (d_items_parses_indef 4); [lia|done|].
    intros x Hx b Hb. destruct (Hh x b Hx Hb) as (n & r & Hn & ->). by apply no_break_array.
  - intros V d f kvs Hp. apply (d_items_parses_indef 5); [lia|intros [k v] Hkv..].
    + destruct (Hp k v Hkv). apply d_both_parses; [|done].
      apply d_uint_parses; [lia|done].
    + apply no_break_uint. by apply (Hp k v).
  - intros K V dk dv Hk Hv. by apply d_items_stable, d_both_stable.
Qed.

(** Vectors of the repository's own tests and of RFC 8949. *)
Example e_head_ex : e_head 4 1 = [0x81] /\ e_head 0 1000000 = [0x1a; 0; 0x0f; 0x42; 0x40].
Proof. done. Qed.

Example skip_ex : d_skip_item [0x83; 1; 0x82; 2; 3; 0x9f; 4; 5; 0xff; 7] = Ok (tt, [7]).
Proof. vm_compute. reflexivity. Qed.
