(* ===== verification/Protocol.v ===== *)
(** * Vocabulary shared by the mini-protocols

    [pallas-network2/src/protocol/mod.rs] and [common.rs]: the errors of the
    protocol state machines, the network magics and channel flags, and chain
    points with their codec. *)
From S2P Require Import Prelude Cbor.

(** ** Errors of the state machines ([protocol::Error]) *)
Inductive Error :=
| AgencyIsOurs
| AgencyIsTheirs
| InvalidInbound
| InvalidOutbound
| Other (msg : string).

#[export] Instance Error_eq_dec : EqDecision Error.
Proof. solve_decision. Defined.

(** ** Constants *)
Definition TESTNET_MAGIC : Z := 1097911063.
Definition MAINNET_MAGIC : Z := 764824073.
Definition PREVIEW_MAGIC : Z := 2.
Definition PREPROD_MAGIC : Z := 1.
Definition PROTOCOL_CLIENT : Z := 0x0.
Definition PROTOCOL_SERVER : Z := 0x8000.

(** ** Points of a chain *)
Module Point.
Inductive t :=
| Origin
| Specific (slot : Z) (hash : bytes).
End Point.

#[export] Instance Point_eq_dec : EqDecision Point.t.
Proof. solve_decision. Defined.

Definition slot_or_default (p : Point.t) : Z :=
  match p with Point.Origin => 0 | Point.Specific slot _ => slot end.

Section Point_codec.
Context `{Minicbor}.

#[export] Instance Point_encode : Encode Point.t := fun p =>
  match p with
  | Point.Origin => w_array 0
  | Point.Specific slot hash => w_array 2 ⊕ w_u64 slot ⊕ w_bytes hash
  end.

#[export] Instance Point_decode : Decode Point.t :=
  size ← d_array;
  match size with
  | Some 0 => mret Point.Origin
  | Some 2 =>
      slot ← d_u64;
      hash ← d_bytes;
      mret (Point.Specific slot hash)
  | _ => dec_fail (DecodeMessage "can't decode Point from array of size")
  end.

#[export] Instance Point_valid : Valid Point.t := fun p =>
  match p with
  | Point.Origin => True
  | Point.Specific slot hash => in_u 64 slot /\ fits_len hash
  end.

#[export] Instance Point_codec `{!MinicborLaws _} : Codec Point.t.
Proof.
  split.
  - intros [|slot hash] Hv; unfold encode, Point_encode, decode, Point_decode.
    + solve_parses.
    + destruct Hv. solve_parses.
  - unfold decode, Point_decode. solve_stable.
Qed.
End Point_codec.

(** ** Runs of the mini-protocol state machines

    Every mini-protocol has a function [apply] from a state and a message to the
    next state or an error.  This file defines the runs of such a function and the
    interface [PullProtocol]: what a protocol promises when one side asks and the
    other answers. *)

Section run.
Context {S M : Type} (apply : S -> M -> result Error S).

Fixpoint run (s : S) (ms : list M) : result Error S :=
  match ms with
  | [] => Ok s
  | m :: ms => s' ← apply s m; run s' ms
  end.

Lemma run_cons s m ms s' :
  run s (m :: ms) = Ok s' <-> exists s1, apply s m = Ok s1 /\ run s1 ms = Ok s'.
Proof.
  simpl. unfold mbind, result_bind. destruct (apply s m) as [s1|]; naive_solver.
Qed.

Lemma run_app s ms1 ms2 s' :
  run s (ms1 ++ ms2) = Ok s' <-> exists s1, run s ms1 = Ok s1 /\ run s1 ms2 = Ok s'.
Proof.
  revert s; induction ms1 as [|m ms1 IH]; intros s.
  - simpl. naive_solver.
  - rewrite <- app_comm_cons. setoid_rewrite run_cons. setoid_rewrite IH. naive_solver.
Qed.

Lemma run_snoc s ms m s' :
  run s (ms ++ [m]) = Ok s' <-> exists s1, run s ms = Ok s1 /\ apply s1 m = Ok s'.
Proof.
  rewrite run_app. setoid_rewrite run_cons. simpl. naive_solver.
Qed.

(** Invariants by induction on the run. *)
Lemma run_invariant (I : S -> Prop) s ms s' :
  (forall s m s', I s -> apply s m = Ok s' -> I s') -> I s -> run s ms = Ok s' -> I s'.
Proof.
  intros Hstep. revert s; induction ms as [|m ms IH]; intros s Hs.
  - by intros [= <-].
  - intros (s1 & H1 & H2)%run_cons. eauto.
Qed.
End run.

(** ** Protocols in which one side pulls *)
Inductive kind := Request | Interim | Reply | Stop.
Inductive phase := Ready | Waiting | Stopped.

#[export] Instance kind_eq_dec : EqDecision kind.
Proof. solve_decision. Defined.
#[export] Instance phase_eq_dec : EqDecision phase.
Proof. solve_decision. Defined.

(** The phase a message of a given kind leads to. *)
Definition next_phase (p : phase) (k : kind) : option phase :=
  match p, k with
  | Ready, Request => Some Waiting
  | Waiting, Interim => Some Waiting
  | Waiting, Reply => Some Ready
  | Ready, Stop | Stopped, Stop => Some Stopped
  | _, _ => None
  end.

(** Every accepted message moves the phase the way its kind says. *)
Class PullProtocol {S M : Type} (apply : S -> M -> result Error S) := {
  msg_kind : M -> kind;
  state_phase : S -> phase;
  apply_phase s m s' :
    apply s m = Ok s' -> next_phase (state_phase s) (msg_kind m) = Some (state_phase s')
}.
Arguments msg_kind {S M} apply {_} _.
Arguments state_phase {S M} apply {_} _.

Section pull.
Context {S M : Type} (apply : S -> M -> result Error S) `{!PullProtocol apply}.

Definition count_kind (k : kind) (ms : list M) : nat :=
  length (filter (fun m => msg_kind apply m = k) ms).

Definition is_waiting (s : S) : nat := if decide (state_phase apply s = Waiting) then 1 else 0.

(** What an accepted run from a ready state looks like: every request was
    answered once, except the pending one, and nothing but the closing messages
    follows a stop. *)
Definition balanced (ms : list M) (s : S) : Prop :=
  count_kind Request ms = (count_kind Reply ms + is_waiting s)%nat /\
  (state_phase apply s = Stopped <-> (0 < count_kind Stop ms)%nat) /\
  forall ms1 m ms2, ms = ms1 ++ m :: ms2 -> msg_kind apply m = Stop ->
    Forall (fun m => msg_kind apply m = Stop) ms2.

Lemma count_kind_snoc k ms m :
  count_kind k (ms ++ [m]) =
  (count_kind k ms + if decide (msg_kind apply m = k) then 1 else 0)%nat.
Proof.
  unfold count_kind. rewrite list.filter_app, length_app, filter_cons, filter_nil.
  by destruct (decide _).
Qed.

Lemma next_phase_Stopped p k : next_phase p k = Some Stopped <-> k = Stop /\ p <> Waiting.
Proof. destruct p, k; naive_solver. Qed.

Lemma run_balanced s ms s' :
  state_phase apply s = Ready -> run apply s ms = Ok s' -> balanced ms s'.
Proof.
  intros Hs. revert s'; induction ms as [|m ms IH] using rev_ind; intros s' Hrun.
  - injection Hrun as <-. unfold balanced, count_kind, is_waiting. rewrite filter_nil, Hs. simpl.
    split_and!; [done|split; [done|lia]|]. intros [|??] ???; done.
  - apply run_snoc in Hrun as (s1 & H1 & H2).
    destruct (IH _ H1) as (Hc & Hst & Hsuf). apply apply_phase in H2.
    unfold balanced, is_waiting in *. rewrite !count_kind_snoc.
    split_and!.
    + destruct (state_phase apply s1), (msg_kind apply m); simplify_eq/=;
        rewrite <- ?H2; repeat case_decide; simplify_eq/=; congruence || lia.
    + destruct (state_phase apply s1), (msg_kind apply m); simplify_eq/=;
        rewrite <- ?H2; repeat case_decide; simplify_eq/=;
        split; intros; try done; try lia; exfalso; naive_solver lia.
    + intros ms1 m' ms2 Heq Hm'. destruct ms2 as [|m2 ms2 _] using rev_ind; [constructor|].
      rewrite app_comm_cons, app_assoc in Heq. apply app_inj_tail in Heq as [-> ->].
      apply Forall_app; split; [by eapply Hsuf|]. constructor; [|done].
      assert (state_phase apply s1 = Stopped) as Hst1.
      { apply Hst. unfold count_kind. rewrite list.filter_app, filter_cons, decide_True by done.
        rewrite length_app. simpl. lia. }
      rewrite Hst1 in H2. destruct (msg_kind apply m2); done.
Qed.
End pull.
