(* ===== verification/Chainsync.v ===== *)
(** * The chain-sync mini-protocol

    [pallas-network2/src/protocol/chainsync.rs]: messages, the state machine with
    the data it keeps for its consumer, and the codecs. *)
From S2P Require Import Prelude Cbor Protocol.

Module chainsync.
Definition CHANNEL_ID : Z := 2.

(** The tip of a chain: a point and its block height. *)
Record Tip := { tip_point : Point.t; tip_block : Z }.

#[global] Instance Tip_eq_dec : EqDecision Tip.
Proof. solve_decision. Defined.

Module Message.
Inductive t (C : Type) :=
| RequestNext
| AwaitReply
| RollForward (content : C) (tip : Tip)
| RollBackward (point : Point.t) (tip : Tip)
| FindIntersect (points : list Point.t)
| IntersectFound (point : Point.t) (tip : Tip)
| IntersectNotFound (tip : Tip)
| Done.
#[global] Arguments RequestNext {C}.
#[global] Arguments AwaitReply {C}.
#[global] Arguments RollForward {C} _ _.
#[global] Arguments RollBackward {C} _ _.
#[global] Arguments FindIntersect {C} _.
#[global] Arguments IntersectFound {C} _ _.
#[global] Arguments IntersectNotFound {C} _.
#[global] Arguments Done {C}.
End Message.

Record HeaderContent := {
  variant : Z;
  byron_prefix : option (Z * Z);
  cbor : bytes
}.

#[global] Instance HeaderContent_eq_dec : EqDecision HeaderContent.
Proof. solve_decision. Defined.

Record BlockContent := { block_bytes : bytes }.
Inductive SkippedContent := Skipped.

(** Data carried in the idle state: the most recent result. *)
Module Data.
Inductive t (C : Type) :=
| New
| Intersection (point : Point.t) (tip : Tip)
| NoIntersection (tip : Tip)
| Content (content : C) (tip : Tip)
| Rollback (point : Point.t) (tip : Tip)
| Drained.
#[global] Arguments New {C}.
#[global] Arguments Intersection {C} _ _.
#[global] Arguments NoIntersection {C} _.
#[global] Arguments Content {C} _ _.
#[global] Arguments Rollback {C} _ _.
#[global] Arguments Drained {C}.
End Data.

Module State.
Inductive t (C : Type) :=
| Idle (data : Data.t C)
| CanAwait
| MustReply
| Intersect (points : list Point.t)
| Done.
#[global] Arguments Idle {C} _.
#[global] Arguments CanAwait {C}.
#[global] Arguments MustReply {C}.
#[global] Arguments Intersect {C} _.
#[global] Arguments Done {C}.
End State.

Section machine.
Context {C : Type}.

Definition is_new (s : State.t C) : bool :=
  match s with State.Idle Data.New => true | _ => false end.
Definition is_drained (s : State.t C) : bool :=
  match s with State.Idle Data.Drained => true | _ => false end.
Definition is_idle (s : State.t C) : bool :=
  match s with State.Idle _ => true | _ => false end.

(** Takes the idle data out, replacing it with [Drained]. *)
Definition drain (s : State.t C) : option (Data.t C) * State.t C :=
  match s with
  | State.Idle data => (Some data, State.Idle Data.Drained)
  | _ => (None, s)
  end.

Definition default_state : State.t C := State.Idle Data.New.

Definition apply (s : State.t C) (msg : Message.t C) : result Error (State.t C) :=
  match s with
  | State.Idle _ =>
      match msg with
      | Message.FindIntersect x => Ok (State.Intersect x)
      | Message.RequestNext => Ok State.CanAwait
      | Message.Done => Ok State.Done
      | _ => Err InvalidInbound
      end
  | State.Intersect _ =>
      match msg with
      | Message.IntersectFound p t => Ok (State.Idle (Data.Intersection p t))
      | Message.IntersectNotFound tip => Ok (State.Idle (Data.NoIntersection tip))
      | _ => Err InvalidInbound
      end
  | State.CanAwait =>
      match msg with
      | Message.RollForward c t => Ok (State.Idle (Data.Content c t))
      | Message.RollBackward p t => Ok (State.Idle (Data.Rollback p t))
      | Message.AwaitReply => Ok State.MustReply
      | _ => Err InvalidInbound
      end
  | State.MustReply =>
      match msg with
      | Message.RollForward c t => Ok (State.Idle (Data.Content c t))
      | Message.RollBackward p t => Ok (State.Idle (Data.Rollback p t))
      | _ => Err InvalidInbound
      end
  | State.Done => Err InvalidInbound
  end.

#[global, refine] Instance pull : PullProtocol apply := {
  msg_kind m :=
    match m with
    | Message.RequestNext | Message.FindIntersect _ => Request
    | Message.AwaitReply => Interim
    | Message.Done => Stop
    | _ => Reply
    end;
  state_phase s :=
    match s with
    | State.Idle _ => Ready
    | State.Done => Stopped
    | _ => Waiting
    end
}.
Proof. intros s m s'. destruct s, m; intros [= <-]; done. Defined.
End machine.

Section codec.
Context `{Minicbor}.

#[global] Instance Tip_encode : Encode Tip := fun t =>
  w_array 2 ⊕ encode (tip_point t) ⊕ w_u64 (tip_block t).
#[global] Instance Tip_decode : Decode Tip :=
  _ ← d_array;
  point ← decode;
  block_num ← d_u64;
  mret {| tip_point := point; tip_block := block_num |}.
#[global] Instance Tip_valid : Valid Tip := fun t =>
  valid (tip_point t) /\ in_u 64 (tip_block t).

#[global] Instance Message_encode {C} `{Encode C} : Encode (Message.t C) := fun m =>
  match m with
  | Message.RequestNext => w_array 1 ⊕ w_u16 0
  | Message.AwaitReply => w_array 1 ⊕ w_u16 1
  | Message.RollForward content tip => w_array 3 ⊕ w_u16 2 ⊕ encode content ⊕ encode tip
  | Message.RollBackward point tip => w_array 3 ⊕ w_u16 3 ⊕ encode point ⊕ encode tip
  | Message.FindIntersect points =>
      w_array 2 ⊕ w_u16 4 ⊕ w_array (Z.of_nat (length points)) ⊕ enc_all (encode <$> points)
  | Message.IntersectFound point tip => w_array 3 ⊕ w_u16 5 ⊕ encode point ⊕ encode tip
  | Message.IntersectNotFound tip => w_array 2 ⊕ w_u16 6 ⊕ encode tip
  | Message.Done => w_array 1 ⊕ w_u16 7
  end.

#[global] Instance Message_decode {C} `{Decode C} : Decode (Message.t C) :=
  _ ← d_array;
  label ← d_u16;
  match label with
  | 0 => mret Message.RequestNext
  | 1 => mret Message.AwaitReply
  | 2 => content ← decode; tip ← decode; mret (Message.RollForward content tip)
  | 3 => point ← decode; tip ← decode; mret (Message.RollBackward point tip)
  | 4 => points ← d_seq decode; mret (Message.FindIntersect points)
  | 5 => point ← decode; tip ← decode; mret (Message.IntersectFound point tip)
  | 6 => tip ← decode; mret (Message.IntersectNotFound tip)
  | 7 => mret Message.Done
  | _ => dec_fail (DecodeMessage "unknown variant for chainsync message")
  end.

#[global] Instance Message_valid {C} `{Valid C} : Valid (Message.t C) := fun m =>
  match m with
  | Message.RollForward content tip => valid content /\ valid tip
  | Message.RollBackward point tip | Message.IntersectFound point tip => valid point /\ valid tip
  | Message.FindIntersect points => fits_len points /\ Forall valid points
  | Message.IntersectNotFound tip => valid tip
  | _ => True
  end.

#[global] Instance HeaderContent_decode : Decode HeaderContent :=
  _ ← d_array;
  variant ← d_u8;
  match variant with
  | 0 =>
      _ ← d_array;
      ab ← d_tuple2 d_u8 d_u64;
      _ ← d_tag;
      bytes ← d_bytes;
      mret {| variant := variant; byron_prefix := Some ab; cbor := bytes |}
  | _ =>
      _ ← d_tag;
      bytes ← d_bytes;
      mret {| variant := variant; byron_prefix := None; cbor := bytes |}
  end.

#[global] Instance HeaderContent_encode : Encode HeaderContent := fun h =>
  w_array 2 ⊕ w_u8 (variant h) ⊕
  if variant h =? 0 then
    w_array 2 ⊕
    match byron_prefix h with
    | Some (a, b) => w_array 2 ⊕ w_u8 a ⊕ w_u64 b
    | None => None (* "header variant 0 but no byron prefix" *)
    end ⊕
    w_tag CBOR_TAG ⊕ w_bytes (cbor h)
  else w_tag CBOR_TAG ⊕ w_bytes (cbor h).

(** The prefix of a header past Byron is not written, so only headers without
    one are read back. *)
#[global] Instance HeaderContent_valid : Valid HeaderContent := fun h =>
  in_u 8 (variant h) /\ fits_len (cbor h) /\
  match byron_prefix h with
  | Some (a, b) => variant h = 0 /\ in_u 8 a /\ in_u 64 b
  | None => True
  end.

#[global] Instance BlockContent_decode : Decode BlockContent :=
  _ ← d_tag; bytes ← d_bytes; mret {| block_bytes := bytes |}.
#[global] Instance BlockContent_encode : Encode BlockContent := fun b =>
  w_tag CBOR_TAG ⊕ w_bytes (block_bytes b).
#[global] Instance BlockContent_valid : Valid BlockContent := fun b => fits_len (block_bytes b).

#[global] Instance SkippedContent_decode : Decode SkippedContent := _ ← d_skip; mret Skipped.
#[global] Instance SkippedContent_encode : Encode SkippedContent := fun _ => Some e_null.
End codec.

Section laws.
Context `{ML : MinicborLaws}.

#[global] Instance Tip_codec : Codec Tip.
Proof.
  split.
  - intros [p n] [Hp Hn]. unfold_codec Tip_encode Tip_decode. solve_parses.
  - unfold decode; unfold Tip_decode. solve_stable.
Qed.

#[global] Instance HeaderContent_codec : Codec HeaderContent.
Proof.
  split.
  - intros [v p b] (Hv & Hb & Hp).
    unfold_codec HeaderContent_encode HeaderContent_decode; cbn.
    do 2 (eapply Parses_bind; [solve [eauto with codec]|]).
    destruct p as [[x y]|].
    + destruct Hp as (-> & Hx & Hy). cbn.
      eapply Parses_bind; [solve [eauto with codec]|].
      eapply Parses_bind; [eapply tuple2_parses; solve [eauto with codec]|]. solve_parses.
    + destruct v; cbn; [apply Parses_fail_app|solve_parses..].
  - unfold decode; unfold HeaderContent_decode. solve_stable.
Qed.

#[global] Instance BlockContent_codec : Codec BlockContent.
Proof.
  split.
  - intros [b] Hb. unfold_codec BlockContent_encode BlockContent_decode. solve_parses.
  - unfold decode; unfold BlockContent_decode. solve_stable.
Qed.

#[global] Instance Message_codec {C} `{Codec C} : Codec (Message.t C).
Proof.
  split.
  - intros m Hm. unfold_codec Message_encode Message_decode.
    destruct m; unfold valid in Hm; cbn in Hm; destruct_and?; solve_parses.
  - unfold decode; unfold Message_decode. solve_stable.
Qed.
End laws.
End chainsync.
