(* ===== verification/Blockfetch.v ===== *)
(** * The block-fetch mini-protocol

    [pallas-network2/src/protocol/blockfetch.rs]. *)
From S2P Require Import Prelude Cbor Protocol.

Module blockfetch.
Definition CHANNEL_ID : Z := 3.

(** A range of blocks between two points, inclusive. *)
Abbreviation Range := (Point.t * Point.t)%type.

Module Message.
Inductive t :=
| RequestRange (range : Range)
| ClientDone
| StartBatch
| NoBlocks
| Block (body : bytes)
| BatchDone.
End Message.

Module State.
Inductive t :=
| Idle
| Busy (range : Range)
| Streaming (block : option bytes)
| Done.
End State.

Definition default_state : State.t := State.Idle.

Definition apply (s : State.t) (msg : Message.t) : result Error State.t :=
  match s with
  | State.Idle =>
      match msg with
      | Message.RequestRange range => Ok (State.Busy range)
      | Message.ClientDone => Ok State.Done
      | _ => Err InvalidOutbound
      end
  | State.Busy _ =>
      match msg with
      | Message.NoBlocks => Ok State.Idle
      | Message.StartBatch => Ok (State.Streaming None)
      | _ => Err InvalidInbound
      end
  | State.Streaming _ =>
      match msg with
      | Message.Block body => Ok (State.Streaming (Some body))
      | Message.BatchDone => Ok State.Idle
      | _ => Err InvalidInbound
      end
  | State.Done => Err InvalidOutbound
  end.

#[global, refine] Instance pull : PullProtocol apply := {
  msg_kind m :=
    match m with
    | Message.RequestRange _ => Request
    | Message.ClientDone => Stop
    | Message.NoBlocks | Message.BatchDone => Reply
    | _ => Interim
    end;
  state_phase s :=
    match s with State.Idle => Ready | State.Done => Stopped | _ => Waiting end
}.
Proof. intros s m s'. destruct s, m; intros [= <-]; done. Defined.

Section codec.
Context `{Minicbor}.

#[global] Instance Message_encode : Encode Message.t := fun m =>
  match m with
  | Message.RequestRange range => w_array 3 ⊕ w_u16 0 ⊕ encode range.1 ⊕ encode range.2
  | Message.ClientDone => w_array 1 ⊕ w_u16 1
  | Message.StartBatch => w_array 1 ⊕ w_u16 2
  | Message.NoBlocks => w_array 1 ⊕ w_u16 3
  | Message.Block body => w_array 2 ⊕ w_u16 4 ⊕ w_tag CBOR_TAG ⊕ w_bytes body
  | Message.BatchDone => w_array 1 ⊕ w_u16 5
  end.

#[global] Instance Message_decode : Decode Message.t :=
  _ ← d_array;
  label ← d_u16;
  match label with
  | 0 => point1 ← decode; point2 ← decode; mret (Message.RequestRange (point1, point2))
  | 1 => mret Message.ClientDone
  | 2 => mret Message.StartBatch
  | 3 => mret Message.NoBlocks
  | 4 => _ ← d_tag; body ← d_bytes; mret (Message.Block body)
  | 5 => mret Message.BatchDone
  | _ => dec_fail (DecodeMessage "unknown variant for blockfetch message")
  end.

#[global] Instance Message_valid : Valid Message.t := fun m =>
  match m with
  | Message.RequestRange range => valid range.1 /\ valid range.2
  | Message.Block body => fits_len body
  | _ => True
  end.

#[global] Instance Message_codec `{!MinicborLaws _} : Codec Message.t.
Proof.
  split.
  - intros m Hm. unfold_codec Message_encode Message_decode.
    destruct m as [[]| | | | |]; unfold valid in Hm; cbn in Hm; destruct_and?; solve_parses.
  - unfold decode; unfold Message_decode. solve_stable.
Qed.
End codec.
End blockfetch.
