(* ===== verification/Keepalive.v ===== *)
(** * The keep-alive mini-protocol

    [pallas-network2/src/protocol/keepalive.rs]. *)
From S2P Require Import Prelude Cbor Protocol.

Module keepalive.
Definition CHANNEL_ID : Z := 8.

(** An opaque [u16], to be echoed back. *)
Abbreviation Cookie := Z.

Module ClientState.
Inductive t :=
| Empty
| Response (cookie : Cookie).
End ClientState.

Module Message.
Inductive t :=
| KeepAlive (cookie : Cookie)
| ResponseKeepAlive (cookie : Cookie)
| Done.
End Message.

Module State.
Inductive t :=
| Client (client : ClientState.t)
| Server (cookie : Cookie)
| Done.
End State.

Definition default_state : State.t := State.Client ClientState.Empty.

Definition apply (s : State.t) (msg : Message.t) : result Error State.t :=
  match s with
  | State.Client _ =>
      match msg with
      | Message.KeepAlive x => Ok (State.Server x)
      | _ => Err InvalidOutbound
      end
  | State.Server _ =>
      match msg with
      | Message.ResponseKeepAlive x => Ok (State.Client (ClientState.Response x))
      | _ => Err InvalidInbound
      end
  | State.Done => Err InvalidOutbound
  end.

#[global, refine] Instance pull : PullProtocol apply := {
  msg_kind m :=
    match m with
    | Message.KeepAlive _ => Request
    | Message.ResponseKeepAlive _ => Reply
    | Message.Done => Stop
    end;
  state_phase s :=
    match s with State.Client _ => Ready | State.Server _ => Waiting | State.Done => Stopped end
}.
Proof. intros s m s'. destruct s, m; intros [= <-]; done. Defined.

Section codec.
Context `{Minicbor}.

#[global] Instance Message_encode : Encode Message.t := fun m =>
  match m with
  | Message.KeepAlive cookie => w_array 2 ⊕ w_u16 0 ⊕ w_u16 cookie
  | Message.ResponseKeepAlive cookie => w_array 2 ⊕ w_u16 1 ⊕ w_u16 cookie
  | Message.Done => w_array 1 ⊕ w_u16 2
  end.

#[global] Instance Message_decode : Decode Message.t :=
  _ ← d_array;
  label ← d_u16;
  match label with
  | 0 => cookie ← d_u16; mret (Message.KeepAlive cookie)
  | 1 => cookie ← d_u16; mret (Message.ResponseKeepAlive cookie)
  | 2 => mret Message.Done
  | _ => dec_fail (DecodeMessage "can't decode Message")
  end.

#[global] Instance Message_valid : Valid Message.t := fun m =>
  match m with
  | Message.KeepAlive cookie | Message.ResponseKeepAlive cookie => in_u 16 cookie
  | Message.Done => True
  end.

#[global] Instance Message_codec `{!MinicborLaws _} : Codec Message.t.
Proof.
  split.
  - intros m Hm. unfold_codec Message_encode Message_decode.
    destruct m; unfold valid in Hm; cbn in Hm; destruct_and?; solve_parses.
  - unfold decode; unfold Message_decode. solve_stable.
Qed.
End codec.
End keepalive.
