(* ===== verification/Txsubmission.v ===== *)
(** * The tx-submission mini-protocol

    [pallas-network2/src/protocol/txsubmission.rs]. *)
From S2P Require Import Prelude Cbor Protocol.

Module txsubmission.
Definition CHANNEL_ID : Z := 4.

(** A transaction id and a transaction body, tagged with their era. *)
Record EraTxId := { txid_era : Z; txid_bytes : bytes }.
Record EraTxBody := { txbody_era : Z; txbody_bytes : bytes }.

#[global] Instance EraTxBody_eq_dec : EqDecision EraTxBody.
Proof. solve_decision. Defined.

Record TxIdAndSize (TxID : Type) := { tx_id : TxID; tx_size : Z }.
#[global] Arguments tx_id {TxID} _.
#[global] Arguments tx_size {TxID} _.
#[global] Arguments Build_TxIdAndSize {TxID} _ _.

Module Message.
Inductive t :=
| Init
| RequestTxIds (blocking : bool) (ack req : Z)
| ReplyTxIds (ids : list (TxIdAndSize EraTxId))
| RequestTxs (ids : list EraTxId)
| ReplyTxs (txs : list EraTxBody)
| Done.
End Message.

Module State.
Inductive t :=
| Init
| Idle
| TxIdsNonBlocking
| TxIdsBlocking
| Txs (txs : list EraTxBody)
| Done.
End State.

#[global] Instance State_eq_dec : EqDecision State.t.
Proof. solve_decision. Defined.

Definition default_state : State.t := State.Init.

Definition apply (s : State.t) (msg : Message.t) : result Error State.t :=
  match s with
  | State.Init =>
      match msg with
      | Message.Init => Ok State.Idle
      | _ => Err InvalidInbound
      end
  | State.Idle =>
      match msg with
      | Message.RequestTxIds _ _ _ => Ok State.TxIdsBlocking
      | Message.RequestTxs _ => Ok (State.Txs [])
      | _ => Err InvalidInbound
      end
  | State.TxIdsNonBlocking =>
      match msg with
      | Message.ReplyTxIds _ => Ok State.TxIdsNonBlocking
      | _ => Err InvalidInbound
      end
  | State.TxIdsBlocking =>
      match msg with
      | Message.ReplyTxIds _ => Ok State.TxIdsBlocking
      | _ => Err InvalidInbound
      end
  | State.Txs _ =>
      match msg with
      | Message.ReplyTxs txs => Ok (State.Txs txs)
      | _ => Err InvalidInbound
      end
  | State.Done => Err InvalidInbound
  end.

Section codec.
Context `{Minicbor}.

#[global] Instance TxIdAndSize_encode {T} `{Encode T} : Encode (TxIdAndSize T) := fun x =>
  w_array 2 ⊕ encode (tx_id x) ⊕ w_u32 (tx_size x).
#[global] Instance TxIdAndSize_decode {T} `{Decode T} : Decode (TxIdAndSize T) :=
  _ ← d_array;
  tx_id ← decode;
  size ← d_u32;
  mret {| tx_id := tx_id; tx_size := size |}.
#[global] Instance TxIdAndSize_valid {T} `{Valid T} : Valid (TxIdAndSize T) := fun x =>
  valid (tx_id x) /\ in_u 32 (tx_size x).

#[global] Instance EraTxBody_encode : Encode EraTxBody := fun x =>
  w_array 2 ⊕ w_u16 (txbody_era x) ⊕ w_tag CBOR_TAG ⊕ w_bytes (txbody_bytes x).
#[global] Instance EraTxBody_decode : Decode EraTxBody :=
  _ ← d_array;
  era ← d_u16;
  tag ← d_tag;
  if negb (tag =? CBOR_TAG) then dec_fail (DecodeMessage "Expected encoded CBOR data item")
  else body ← d_bytes; mret {| txbody_era := era; txbody_bytes := body |}.
#[global] Instance EraTxBody_valid : Valid EraTxBody := fun x =>
  in_u 16 (txbody_era x) /\ fits_len (txbody_bytes x).

#[global] Instance EraTxId_encode : Encode EraTxId := fun x =>
  w_array 2 ⊕ w_u16 (txid_era x) ⊕ w_bytes (txid_bytes x).
#[global] Instance EraTxId_decode : Decode EraTxId :=
  _ ← d_array;
  era ← d_u16;
  tx_id ← d_bytes;
  mret {| txid_era := era; txid_bytes := tx_id |}.
#[global] Instance EraTxId_valid : Valid EraTxId := fun x =>
  in_u 16 (txid_era x) /\ fits_len (txid_bytes x).

#[global] Instance Message_encode : Encode Message.t := fun m =>
  match m with
  | Message.Init => w_array 1 ⊕ w_u16 6
  | Message.RequestTxIds blocking ack req =>
      w_array 4 ⊕ w_u16 0 ⊕ w_bool blocking ⊕ w_u16 ack ⊕ w_u16 req
  | Message.ReplyTxIds ids =>
      w_array 2 ⊕ w_u16 1 ⊕ w_begin_array ⊕ enc_all (encode <$> ids) ⊕ w_end
  | Message.RequestTxs ids =>
      w_array 2 ⊕ w_u16 2 ⊕ w_begin_array ⊕ enc_all (encode <$> ids) ⊕ w_end
  | Message.ReplyTxs txs =>
      w_array 2 ⊕ w_u16 3 ⊕ w_begin_array ⊕ enc_all (encode <$> txs) ⊕ w_end
  | Message.Done => w_array 1 ⊕ w_u16 4
  end.

#[global] Instance Message_decode : Decode Message.t :=
  _ ← d_array;
  label ← d_u16;
  match label with
  | 0 =>
      blocking ← d_bool;
      ack ← d_u16;
      req ← d_u16;
      mret (Message.RequestTxIds blocking ack req)
  | 1 => items ← d_seq decode; mret (Message.ReplyTxIds items)
  | 2 => ids ← d_seq decode; mret (Message.RequestTxs ids)
  | 3 => txs ← d_seq decode; mret (Message.ReplyTxs txs)
  | 4 => mret Message.Done
  | 6 => mret Message.Init
  | _ => dec_fail (DecodeMessage "unknown variant for txsubmission message")
  end.

#[global] Instance Message_valid : Valid Message.t := fun m =>
  match m with
  | Message.RequestTxIds _ ack req => in_u 16 ack /\ in_u 16 req
  | Message.ReplyTxIds ids => Forall valid ids
  | Message.RequestTxs ids => Forall valid ids
  | Message.ReplyTxs txs => Forall valid txs
  | _ => True
  end.
End codec.

Section laws.
Context `{ML : MinicborLaws}.

#[global] Instance TxIdAndSize_codec {T} `{Codec T} : Codec (TxIdAndSize T).
Proof.
  split.
  - intros [x n] [Hx Hn]. unfold_codec TxIdAndSize_encode TxIdAndSize_decode. solve_parses.
  - unfold decode; unfold TxIdAndSize_decode. solve_stable.
Qed.

#[global] Instance EraTxBody_codec : Codec EraTxBody.
Proof.
  split.
  - intros [x n] [Hx Hn]. unfold_codec EraTxBody_encode EraTxBody_decode. solve_parses.
  - unfold decode; unfold EraTxBody_decode. solve_stable.
Qed.

#[global] Instance EraTxId_codec : Codec EraTxId.
Proof.
  split.
  - intros [x n] [Hx Hn]. unfold_codec EraTxId_encode EraTxId_decode. solve_parses.
  - unfold decode; unfold EraTxId_decode. solve_stable.
Qed.

#[global] Instance Message_codec : Codec Message.t.
Proof.
  split.
  - intros m Hm. unfold_codec Message_encode Message_decode.
    destruct m; unfold valid in Hm; cbn in Hm; destruct_and?; solve_parses.
  - unfold decode; unfold Message_decode. solve_stable.
Qed.
End laws.
End txsubmission.
