(* ===== verification/Peersharing.v ===== *)
(** * The peer-sharing mini-protocol

    [pallas-network2/src/protocol/peersharing.rs].  An IP address of the standard
    library is modelled by the integer [to_bits] gives. *)
From S2P Require Import Prelude Cbor Protocol.

Module peersharing.
Definition CHANNEL_ID : Z := 10.

Module PeerAddress.
Inductive t :=
| V4 (address port : Z)
| V6 (address port : Z).
End PeerAddress.

#[global] Instance PeerAddress_eq_dec : EqDecision PeerAddress.t.
Proof. solve_decision. Defined.

Module Message.
Inductive t :=
| ShareRequest (amount : Z)
| SharePeers (addresses : list PeerAddress.t)
| Done.
End Message.

Module IdleState.
Inductive t :=
| Empty
| Response (peers : list PeerAddress.t).
End IdleState.

Module State.
Inductive t :=
| Idle (idle : IdleState.t)
| Busy (amount : Z)
| Done.
End State.

Definition default_state : State.t := State.Idle IdleState.Empty.

Definition apply (s : State.t) (msg : Message.t) : result Error State.t :=
  match s with
  | State.Idle _ =>
      match msg with
      | Message.ShareRequest x => Ok (State.Busy x)
      | _ => Err InvalidOutbound
      end
  | State.Busy _ =>
      match msg with
      | Message.SharePeers x => Ok (State.Idle (IdleState.Response x))
      | _ => Err InvalidInbound
      end
  | State.Done => Err InvalidOutbound
  end.

#[global, refine] Instance pull : PullProtocol apply := {
  msg_kind m :=
    match m with
    | Message.ShareRequest _ => Request
    | Message.SharePeers _ => Reply
    | Message.Done => Stop
    end;
  state_phase s :=
    match s with State.Idle _ => Ready | State.Busy _ => Waiting | State.Done => Stopped end
}.
Proof. intros s m s'. destruct s, m; intros [= <-]; done. Defined.

(** The four 32-bit words of an IPv6 address, most significant first. *)
Definition word1 (bits : Z) : Z := Z.shiftr bits 96 mod 2 ^ 32.
Definition word2 (bits : Z) : Z := Z.land (Z.shiftr bits 64) 0xFFFFFFFF mod 2 ^ 32.
Definition word3 (bits : Z) : Z := Z.land (Z.shiftr bits 32) 0xFFFFFFFF mod 2 ^ 32.
Definition word4 (bits : Z) : Z := Z.land bits 0xFFFFFFFF mod 2 ^ 32.

Definition from_words (w1 w2 w3 w4 : Z) : Z :=
  Z.lor (Z.lor (Z.lor (Z.shiftl w1 96) (Z.shiftl w2 64)) (Z.shiftl w3 32)) w4.

Section codec.
Context `{Minicbor}.

#[global] Instance PeerAddress_encode : Encode PeerAddress.t := fun a =>
  match a with
  | PeerAddress.V4 address port => w_array 3 ⊕ w_u16 0 ⊕ w_u32 address ⊕ w_u16 port
  | PeerAddress.V6 address port =>
      w_array 8 ⊕ w_u16 1 ⊕
      w_u32 (word1 address) ⊕ w_u32 (word2 address) ⊕ w_u32 (word3 address) ⊕
      w_u32 (word4 address) ⊕ w_u16 port
  end.

#[global] Instance PeerAddress_decode : Decode PeerAddress.t :=
  _ ← d_array;
  label ← d_u16;
  match label with
  | 0 => ip ← d_u32; port ← d_u16; mret (PeerAddress.V4 ip port)
  | 1 =>
      word1 ← d_u32;
      word2 ← d_u32;
      word3 ← d_u32;
      word4 ← d_u32;
      port ← d_u16;
      mret (PeerAddress.V6 (from_words word1 word2 word3 word4) port)
  | _ => dec_fail (DecodeMessage "can't decode PeerAddress")
  end.

#[global] Instance PeerAddress_valid : Valid PeerAddress.t := fun a =>
  match a with
  | PeerAddress.V4 address port => in_u 32 address /\ in_u 16 port
  | PeerAddress.V6 address port => in_u 128 address /\ in_u 16 port
  end.

#[global] Instance Message_encode : Encode Message.t := fun m =>
  match m with
  | Message.ShareRequest amount => w_array 2 ⊕ w_u16 0 ⊕ w_u8 amount
  | Message.SharePeers addresses =>
      w_array 2 ⊕ w_u16 1 ⊕ w_begin_array ⊕ enc_all (encode <$> addresses) ⊕ w_end
  | Message.Done => w_array 1 ⊕ w_u16 2
  end.

#[global] Instance Message_decode : Decode Message.t :=
  _ ← d_array;
  label ← d_u16;
  match label with
  | 0 => amount ← d_u8; mret (Message.ShareRequest amount)
  | 1 => addresses ← d_seq decode; mret (Message.SharePeers addresses)
  | 2 => mret Message.Done
  | _ => dec_fail (DecodeMessage "can't decode Message")
  end.

#[global] Instance Message_valid : Valid Message.t := fun m =>
  match m with
  | Message.ShareRequest amount => in_u 8 amount
  | Message.SharePeers addresses => Forall valid addresses
  | Message.Done => True
  end.
End codec.

(** ** The words hold the address *)
Lemma in_u_word x : in_u 32 (x mod 2 ^ 32).
Proof. unfold in_u. apply Z.mod_pos_bound. lia. Qed.
#[local] Hint Extern 1 (in_u 32 (word1 _)) => (apply in_u_word) : codec.
#[local] Hint Extern 1 (in_u 32 (word2 _)) => (apply in_u_word) : codec.
#[local] Hint Extern 1 (in_u 32 (word3 _)) => (apply in_u_word) : codec.
#[local] Hint Extern 1 (in_u 32 (word4 _)) => (apply in_u_word) : codec.

Lemma from_words_words bits :
  in_u 128 bits -> from_words (word1 bits) (word2 bits) (word3 bits) (word4 bits) = bits.
Proof.
  intros [Hb0 Hb]. unfold from_words, word1, word2, word3, word4.
  change 0xFFFFFFFF with (Z.ones 32). rewrite <- !Z.land_ones by lia.
  apply Z.bits_inj'. intros n Hn.
  rewrite !Z.lor_spec, !Z.shiftl_spec by lia.
  assert (forall k, 0 <= k -> Z.testbit (Z.land (Z.shiftr bits k) (Z.ones 32)) (n - k) =
    (k <=? n) && (n <? k + 32) && Z.testbit bits n) as Hw.
  { intros k Hk. rewrite Z.land_spec. destruct (Z.leb_spec k n).
    - rewrite Z.shiftr_spec, Z.testbit_ones by lia. replace (n - k + k) with n by lia.
      destruct (Z.testbit bits n), (Z.leb_spec 0 (n - k)), (Z.ltb_spec (n - k) 32),
        (Z.ltb_spec n (k + 32)); simpl; done || lia.
    - rewrite Z.testbit_neg_r, andb_false_l by lia. done. }
  pose proof (Hw 96 ltac:(lia)) as H96. pose proof (Hw 64 ltac:(lia)) as H64.
  pose proof (Hw 32 ltac:(lia)) as H32. pose proof (Hw 0 ltac:(lia)) as H0.
  rewrite Z.shiftr_0_r, Z.sub_0_r in H0.
  rewrite <- !Z.land_assoc, !Z.land_diag. rewrite H96, H64, H32, H0.
  destruct (Z.ltb_spec n 128).
  - destruct (Z.testbit bits n); rewrite ?andb_false_r, ?andb_true_r; [|done].
    destruct (Z.leb_spec 96 n), (Z.ltb_spec n (96 + 32)), (Z.leb_spec 64 n), (Z.ltb_spec n (64 + 32)),
      (Z.leb_spec 32 n), (Z.ltb_spec n (32 + 32)), (Z.leb_spec 0 n), (Z.ltb_spec n (0 + 32)); done || lia.
  - assert (Z.testbit bits n = false) as ->; [|by rewrite !andb_false_r].
    destruct (decide (bits = 0)) as [->|]; [apply Z.bits_0|].
    apply Z.bits_above_log2; [done|]. apply Z.log2_lt_pow2; [lia|].
    eapply Z.lt_le_trans; [exact Hb|]. apply Z.pow_le_mono_r; lia.
Qed.

Section laws.
Context `{ML : MinicborLaws}.

#[global] Instance PeerAddress_codec : Codec PeerAddress.t.
Proof.
  split.
  - intros a Ha. unfold_codec PeerAddress_encode PeerAddress_decode.
    destruct a as [ip port|ip port]; destruct Ha as [Hip Hp]; [solve_parses|].
    rewrite <- (from_words_words ip Hip) at 5. solve_parses.
  - unfold decode; unfold PeerAddress_decode. solve_stable.
Qed.

Lemma PeerAddress_head (a : PeerAddress.t) b :
  encode a = Some b -> exists n r, in_u 64 n /\ b = e_array n ++ r.
Proof. destruct a; apply enc_array_head; by unfold in_u. Qed.
#[local] Hint Resolve PeerAddress_head : codec.

#[global] Instance Message_codec : Codec Message.t.
Proof.
  split.
  - intros m Hm. unfold_codec Message_encode Message_decode.
    destruct m; unfold valid in Hm; cbn in Hm; destruct_and?; solve_parses.
  - unfold decode; unfold Message_decode. solve_stable.
Qed.
End laws.
End peersharing.
