(* ===== verification/Handshake.v ===== *)
(** * The handshake mini-protocol

    [pallas-network2/src/protocol/handshake/mod.rs], [n2n.rs] and [n2c.rs].  The
    version table is a hash map, written with its keys in ascending order; Rust
    strings are their UTF-8 bytes. *)
From S2P Require Import Prelude Cbor Protocol.

Module handshake.
Definition CHANNEL_ID : Z := 0.

(** The version table: [HashMap<u64, T>]. *)
Record VersionTable (T : Type) := { values : gmap Z T }.
#[global] Arguments values {T} _.
#[global] Arguments Build_VersionTable {T} _.

#[global] Instance VersionTable_eq_dec {T} `{EqDecision T} : EqDecision (VersionTable T).
Proof. solve_decision. Defined.

Module RefuseReason.
Inductive t :=
| VersionMismatch (versions : list Z)
| HandshakeDecodeError (version : Z) (msg : bytes)
| Refused (version : Z) (msg : bytes).
End RefuseReason.

#[global] Instance RefuseReason_eq_dec : EqDecision RefuseReason.t.
Proof. solve_decision. Defined.

Module Message.
Inductive t (D : Type) :=
| Propose (version_table : VersionTable D)
| Accept (version_number : Z) (version_data : D)
| Refuse (reason : RefuseReason.t)
| QueryReply (version_table : VersionTable D).
#[global] Arguments Propose {D} _.
#[global] Arguments Accept {D} _ _.
#[global] Arguments Refuse {D} _.
#[global] Arguments QueryReply {D} _.
End Message.

Module DoneState.
Inductive t (D : Type) :=
| Accepted (version_number : Z) (version_data : D)
| Rejected (reason : RefuseReason.t)
| QueryReply (version_table : VersionTable D).
#[global] Arguments Accepted {D} _ _.
#[global] Arguments Rejected {D} _.
#[global] Arguments QueryReply {D} _.
End DoneState.

Module State.
Inductive t (D : Type) :=
| Propose
| Confirm (version_table : VersionTable D)
| Done (done : DoneState.t D).
#[global] Arguments Propose {D}.
#[global] Arguments Confirm {D} _.
#[global] Arguments Done {D} _.
End State.

Definition default_state {D} : State.t D := State.Propose.

Definition apply {D} (s : State.t D) (msg : Message.t D) : result Error (State.t D) :=
  match s with
  | State.Propose =>
      match msg with
      | Message.Propose x => Ok (State.Confirm x)
      | _ => Err InvalidOutbound
      end
  | State.Confirm _ =>
      match msg with
      | Message.Accept x y => Ok (State.Done (DoneState.Accepted x y))
      | Message.Refuse x => Ok (State.Done (DoneState.Rejected x))
      | Message.QueryReply x => Ok (State.Done (DoneState.QueryReply x))
      | _ => Err InvalidInbound
      end
  | State.Done _ => Err InvalidInbound
  end.

Section codec.
Context `{Minicbor}.

Definition encode_entry {T} `{Encode T} (m : gmap Z T) (key : Z) : enc :=
  w_u64 key ⊕ match m !! key with Some v => encode v | None => None end.

#[global] Instance VersionTable_encode {T} `{Encode T} : Encode (VersionTable T) := fun t =>
  w_map (Z.of_nat (size (values t))) ⊕
  enc_all (encode_entry (values t) <$> sorted_keys (values t)).

Fixpoint decode_entries {T} `{Decode T} (len : nat) (values : gmap Z T) : dec (gmap Z T) :=
  match len with
  | O => mret values
  | S len =>
      key ← d_u64;
      value ← decode;
      decode_entries len (<[key := value]> values)
  end.

#[global] Instance VersionTable_decode {T} `{Decode T} : Decode (VersionTable T) :=
  len ← d_map;
  match len with
  | None => dec_fail (DecodeMessage "expected def-length map for versiontable")
  | Some len => values ← decode_entries (Z.to_nat len) ∅; mret {| values := values |}
  end.

#[global] Instance VersionTable_valid {T} `{Valid T} : Valid (VersionTable T) := fun t =>
  in_u 64 (Z.of_nat (size (values t))) /\
  forall k v, values t !! k = Some v -> in_u 64 k /\ valid v.

#[global] Instance RefuseReason_encode : Encode RefuseReason.t := fun r =>
  match r with
  | RefuseReason.VersionMismatch versions =>
      w_array 2 ⊕ w_u16 0 ⊕ w_array (Z.of_nat (length versions)) ⊕
      enc_all ((fun v => w_u64 v) <$> versions)
  | RefuseReason.HandshakeDecodeError version msg =>
      w_array 3 ⊕ w_u16 1 ⊕ w_u64 version ⊕ w_str msg
  | RefuseReason.Refused version msg => w_array 3 ⊕ w_u16 2 ⊕ w_u64 version ⊕ w_str msg
  end.

#[global] Instance RefuseReason_decode : Decode RefuseReason.t :=
  _ ← d_array;
  label ← d_u16;
  match label with
  | 0 => versions ← d_seq d_u64; mret (RefuseReason.VersionMismatch versions)
  | 1 => version ← d_u64; msg ← d_str; mret (RefuseReason.HandshakeDecodeError version msg)
  | 2 => version ← d_u64; msg ← d_str; mret (RefuseReason.Refused version msg)
  | _ => dec_fail (DecodeMessage "unknown variant for refusereason")
  end.

#[global] Instance RefuseReason_valid : Valid RefuseReason.t := fun r =>
  match r with
  | RefuseReason.VersionMismatch versions => fits_len versions /\ Forall (in_u 64) versions
  | RefuseReason.HandshakeDecodeError version msg | RefuseReason.Refused version msg =>
      in_u 64 version /\ fits_len msg
  end.

#[global] Instance Message_encode {D} `{Encode D} : Encode (Message.t D) := fun m =>
  match m with
  | Message.Propose version_table => w_array 2 ⊕ w_u16 0 ⊕ encode version_table
  | Message.Accept version_number version_data =>
      w_array 3 ⊕ w_u16 1 ⊕ w_u64 version_number ⊕ encode version_data
  | Message.Refuse reason => w_array 2 ⊕ w_u16 2 ⊕ encode reason
  | Message.QueryReply version_table => w_array 2 ⊕ w_u16 3 ⊕ encode version_table
  end.

#[global] Instance Message_decode {D} `{Decode D} : Decode (Message.t D) :=
  _ ← d_array;
  label ← d_u16;
  match label with
  | 0 => version_table ← decode; mret (Message.Propose version_table)
  | 1 =>
      version_number ← d_u64;
      version_data ← decode;
      mret (Message.Accept version_number version_data)
  | 2 => reason ← decode; mret (Message.Refuse reason)
  | 3 => version_table ← decode; mret (Message.QueryReply version_table)
  | _ => dec_fail (DecodeMessage "unknown variant for handshake message")
  end.

#[global] Instance Message_valid {D} `{Valid D} : Valid (Message.t D) := fun m =>
  match m with
  | Message.Propose version_table | Message.QueryReply version_table => valid version_table
  | Message.Accept version_number version_data => in_u 64 version_number /\ valid version_data
  | Message.Refuse reason => valid reason
  end.
End codec.

Section laws.
Context `{ML : MinicborLaws}.

Lemma decode_entries_parses {T} `{Codec T} (m acc : gmap Z T) ks :
  (forall k v, m !! k = Some v -> in_u 64 k /\ valid v) ->
  Parses (decode_entries (length ks) acc) (enc_all (encode_entry m <$> ks)) (entries_of m acc ks).
Proof.
  intros Hm. revert acc; induction ks as [|k ks IH]; intros acc; cbn; [apply Parses_ret|].
  unfold encode_entry at 1. destruct (m !! k) as [v|] eqn:Hk.
  - destruct (Hm _ _ Hk) as [Hk64 Hv].
    assert (forall a b c, (a ⊕ b) ⊕ c = a ⊕ b ⊕ c) as Hassoc.
    { intros [|] [|] [|]; unfold enc_app; by rewrite ?app_assoc. }
    rewrite Hassoc.
    do 2 (eapply Parses_bind; [solve [eauto with codec]|]). apply IH.
  - intros b rest Hb. by apply enc_app_Some in Hb as (? & ? & ? & _).
Qed.

Lemma decode_entries_stable {T} `{Codec T} n (acc : gmap Z T) : Stable (decode_entries n acc).
Proof. revert acc; induction n; intros; cbn; solve_stable. Qed.
#[local] Hint Resolve decode_entries_stable : codec.

#[global] Instance VersionTable_codec {T} `{Codec T} : Codec (VersionTable T).
Proof.
  split.
  - intros [m] [Hsz Hm]. unfold_codec VersionTable_encode VersionTable_decode.
    eapply Parses_bind; [solve [eauto with codec]|]. cbn.
    eapply Parses_bind_last.
    + rewrite Nat2Z.id, <- length_sorted_keys. by apply decode_entries_parses.
    + rewrite entries_of_sorted. apply Parses_ret.
  - unfold decode; unfold VersionTable_decode. solve_stable.
Qed.

(** A table whose data can all be written can be proposed. *)
Lemma VersionTable_is_Some {T} `{Encode T} (t : VersionTable T) :
  (forall v : T, is_Some (encode v)) -> is_Some (encode t).
Proof.
  intros Hv. unfold encode; unfold VersionTable_encode. apply enc_app_is_Some; [by eexists|].
  apply enc_all_is_Some, Forall_fmap, list.Forall_forall. intros k [v Hk]%elem_of_sorted_keys.
  unfold encode_entry; simpl. rewrite Hk. by apply enc_app_is_Some.
Qed.

Lemma Propose_is_Some {T} `{Encode T} (t : VersionTable T) :
  (forall v : T, is_Some (encode v)) -> is_Some (encode (Message.Propose t)).
Proof.
  intros Hv. unfold encode; unfold Message_encode.
  do 2 (apply enc_app_is_Some; [by eexists|]). by apply VersionTable_is_Some.
Qed.

Lemma u64s_parses xs :
  fits_len xs -> Forall (in_u 64) xs ->
  Parses (d_seq d_u64) (w_array (Z.of_nat (length xs)) ⊕ enc_all ((fun v => w_u64 v) <$> xs)) xs.
Proof.
  intros Hl Hv. apply (seq_parses Z d_u64 (fun v => w_u64 v)); [done|]. intros x Hx.
  rewrite list.Forall_forall in Hv. by apply u64_parses, Hv.
Qed.
#[local] Hint Resolve u64s_parses : codec.

#[global] Instance RefuseReason_codec : Codec RefuseReason.t.
Proof.
  split.
  - intros r Hr. unfold_codec RefuseReason_encode RefuseReason_decode.
    destruct r; destruct Hr; solve_parses.
  - unfold decode; unfold RefuseReason_decode. solve_stable.
Qed.

#[global] Instance Message_codec {D} `{Codec D} : Codec (Message.t D).
Proof.
  split.
  - intros m Hm. unfold_codec Message_encode Message_decode.
    destruct m; unfold valid in Hm; cbn in Hm; destruct_and?; solve_parses.
  - unfold decode; unfold Message_decode. solve_stable.
Qed.
End laws.
End handshake.
