(* ===== verification/HandshakeVersions.v ===== *)
(** * Version tables of the handshake

    [pallas-network2/src/protocol/handshake/n2n.rs] and [n2c.rs]: the version
    numbers, the version data with their codecs, and the tables a client
    proposes. *)
From S2P Require Import Prelude Cbor Protocol Handshake.
Import handshake.

Module n2n.
Definition PROTOCOL_V7 : Z := 7.
Definition PROTOCOL_V8 : Z := 8.
Definition PROTOCOL_V9 : Z := 9.
Definition PROTOCOL_V10 : Z := 10.
Definition PROTOCOL_V11 : Z := 11.
Definition PROTOCOL_V12 : Z := 12.
Definition PROTOCOL_V13 : Z := 13.
Definition PROTOCOL_V14 : Z := 14.
Definition PROTOCOL_V15 : Z := 15.

Definition PEER_SHARING_DISABLED : Z := 0.

(** The first version that carries the Leios overlay. *)
Definition LEIOS_MIN_VERSION : Z := PROTOCOL_V15.

Record VersionData := {
  network_magic : Z;
  initiator_only_diffusion_mode : bool;
  peer_sharing : option Z;
  query : option bool
}.

#[global] Instance VersionData_eq_dec : EqDecision VersionData.
Proof. solve_decision. Defined.

Definition new (magic : Z) (diffusion : bool) (sharing : option Z) (q : option bool) : VersionData :=
  {| network_magic := magic; initiator_only_diffusion_mode := diffusion;
     peer_sharing := sharing; query := q |}.

Definition v7_to_v10 (network_magic : Z) : VersionTable VersionData :=
  {| values := collect_map [
    (PROTOCOL_V7, new network_magic true None None);
    (PROTOCOL_V8, new network_magic true None None);
    (PROTOCOL_V9, new network_magic true None None);
    (PROTOCOL_V10, new network_magic true None None)] |}.

Definition v7_and_above_with_query (network_magic : Z) (query : bool) : VersionTable VersionData :=
  {| values := collect_map [
    (PROTOCOL_V7, new network_magic true None None);
    (PROTOCOL_V8, new network_magic true None None);
    (PROTOCOL_V9, new network_magic true None None);
    (PROTOCOL_V10, new network_magic true None None);
    (PROTOCOL_V11, new network_magic true (Some PEER_SHARING_DISABLED) (Some query));
    (PROTOCOL_V12, new network_magic true (Some PEER_SHARING_DISABLED) (Some query));
    (PROTOCOL_V13, new network_magic true (Some PEER_SHARING_DISABLED) (Some query));
    (PROTOCOL_V14, new network_magic true (Some PEER_SHARING_DISABLED) (Some query));
    (PROTOCOL_V15, new network_magic true (Some PEER_SHARING_DISABLED) (Some query))] |}.

Definition v7_and_above (network_magic : Z) : VersionTable VersionData :=
  v7_and_above_with_query network_magic false.

Definition v6_and_above (network_magic : Z) : VersionTable VersionData := v7_and_above network_magic.
Definition v4_and_above (network_magic : Z) : VersionTable VersionData := v7_and_above network_magic.

Definition v11_and_above_with_query (network_magic : Z) (query : bool) : VersionTable VersionData :=
  {| values := collect_map [
    (PROTOCOL_V11, new network_magic true (Some PEER_SHARING_DISABLED) (Some query));
    (PROTOCOL_V12, new network_magic true (Some PEER_SHARING_DISABLED) (Some query));
    (PROTOCOL_V13, new network_magic true (Some PEER_SHARING_DISABLED) (Some query));
    (PROTOCOL_V14, new network_magic true (Some PEER_SHARING_DISABLED) (Some query));
    (PROTOCOL_V15, new network_magic true (Some PEER_SHARING_DISABLED) (Some query))] |}.

Definition v11_and_above (network_magic : Z) : VersionTable VersionData :=
  v11_and_above_with_query network_magic false.

Section codec.
Context `{Minicbor}.

#[global] Instance VersionData_encode : Encode VersionData := fun v =>
  match peer_sharing v, query v with
  | Some peer_sharing, Some query =>
      w_array 4 ⊕ w_u64 (network_magic v) ⊕ w_bool (initiator_only_diffusion_mode v) ⊕
      w_u8 peer_sharing ⊕ w_bool query
  | _, _ => w_array 2 ⊕ w_u64 (network_magic v) ⊕ w_bool (initiator_only_diffusion_mode v)
  end.

#[global] Instance VersionData_decode : Decode VersionData :=
  len ← d_array;
  network_magic ← d_u64;
  initiator_only_diffusion_mode ← d_bool;
  peer_sharing ← match len with Some 4 => x ← d_u8; mret (Some x) | _ => mret None end;
  query ← match len with Some 4 => x ← d_bool; mret (Some x) | _ => mret None end;
  mret {| network_magic := network_magic;
          initiator_only_diffusion_mode := initiator_only_diffusion_mode;
          peer_sharing := peer_sharing; query := query |}.

(** The two optional fields are written together or not at all. *)
#[global] Instance VersionData_valid : Valid VersionData := fun v =>
  in_u 64 (network_magic v) /\
  match peer_sharing v, query v with
  | Some p, Some _ => in_u 8 p
  | None, None => True
  | _, _ => False
  end.

#[global] Instance VersionData_codec `{!MinicborLaws _} : Codec VersionData.
Proof.
  split.
  - intros [mg df ps q] [Hm Hv]. unfold_codec VersionData_encode VersionData_decode.
    destruct ps as [p|], q as [q|]; try done; cbn.
    + do 3 (eapply Parses_bind; [solve [eauto with codec]|]; cbn).
      eapply Parses_bind; [eapply Parses_bind_last; [solve [eauto with codec]|apply Parses_ret]|].
      eapply Parses_bind_last; [eapply Parses_bind_last; [solve [eauto with codec]|apply Parses_ret]|].
      apply Parses_ret.
    + do 2 (eapply Parses_bind; [solve [eauto with codec]|]; cbn).
      eapply Parses_bind_last; [solve [eauto with codec]|]. apply Parses_ret.
  - unfold decode; unfold VersionData_decode. solve_stable.
Qed.
End codec.
End n2n.

Module n2c.
Definition PROTOCOL_V1 : Z := 1.
Definition PROTOCOL_V2 : Z := 32770.
Definition PROTOCOL_V3 : Z := 32771.
Definition PROTOCOL_V4 : Z := 32772.
Definition PROTOCOL_V5 : Z := 32773.
Definition PROTOCOL_V6 : Z := 32774.
Definition PROTOCOL_V7 : Z := 32775.
Definition PROTOCOL_V8 : Z := 32776.
Definition PROTOCOL_V9 : Z := 32777.
Definition PROTOCOL_V10 : Z := 32778.
Definition PROTOCOL_V11 : Z := 32779.
Definition PROTOCOL_V12 : Z := 32780.
Definition PROTOCOL_V13 : Z := 32781.
Definition PROTOCOL_V14 : Z := 32782.
Definition PROTOCOL_V15 : Z := 32783.
Definition PROTOCOL_V16 : Z := 32784.
Definition PROTOCOL_V17 : Z := 32785.
Definition PROTOCOL_V18 : Z := 32786.
Definition PROTOCOL_V19 : Z := 32787.
Definition PROTOCOL_V20 : Z := 32788.
Definition PROTOCOL_V21 : Z := 32789.
Definition PROTOCOL_V22 : Z := 32790.
Definition PROTOCOL_V23 : Z := 32791.

(** The network magic and the query flag, [VersionData(NetworkMagic, Option<bool>)]. *)
Record VersionData := { magic : Z; is_query : option bool }.

#[global] Instance VersionData_eq_dec : EqDecision VersionData.
Proof. solve_decision. Defined.

Definition new (magic : Z) (param : option bool) : VersionData :=
  {| magic := magic; is_query := param |}.

Definition v1_and_above (network_magic : Z) : VersionTable VersionData :=
  {| values := collect_map [
    (PROTOCOL_V1, Build_VersionData network_magic None);
    (PROTOCOL_V2, Build_VersionData network_magic None);
    (PROTOCOL_V3, Build_VersionData network_magic None);
    (PROTOCOL_V4, Build_VersionData network_magic None);
    (PROTOCOL_V5, Build_VersionData network_magic None);
    (PROTOCOL_V6, Build_VersionData network_magic None);
    (PROTOCOL_V7, Build_VersionData network_magic None);
    (PROTOCOL_V8, Build_VersionData network_magic None);
    (PROTOCOL_V9, Build_VersionData network_magic None);
    (PROTOCOL_V10, Build_VersionData network_magic None);
    (PROTOCOL_V11, Build_VersionData network_magic None);
    (PROTOCOL_V12, Build_VersionData network_magic None);
    (PROTOCOL_V13, Build_VersionData network_magic None);
    (PROTOCOL_V14, Build_VersionData network_magic None);
    (PROTOCOL_V15, Build_VersionData network_magic (Some false));
    (PROTOCOL_V16, Build_VersionData network_magic (Some false));
    (PROTOCOL_V17, Build_VersionData network_magic (Some false));
    (PROTOCOL_V18, Build_VersionData network_magic (Some false));
    (PROTOCOL_V19, Build_VersionData network_magic (Some false));
    (PROTOCOL_V20, Build_VersionData network_magic (Some false));
    (PROTOCOL_V21, Build_VersionData network_magic (Some false));
    (PROTOCOL_V22, Build_VersionData network_magic (Some false));
    (PROTOCOL_V23, Build_VersionData network_magic (Some false))] |}.

Definition only_v10 (network_magic : Z) : VersionTable VersionData :=
  {| values := collect_map [
    (PROTOCOL_V10, Build_VersionData network_magic None)] |}.

Definition v10_and_above (network_magic : Z) : VersionTable VersionData :=
  {| values := collect_map [
    (PROTOCOL_V10, Build_VersionData network_magic None);
    (PROTOCOL_V11, Build_VersionData network_magic None);
    (PROTOCOL_V12, Build_VersionData network_magic None);
    (PROTOCOL_V13, Build_VersionData network_magic None);
    (PROTOCOL_V14, Build_VersionData network_magic None);
    (PROTOCOL_V15, Build_VersionData network_magic (Some false));
    (PROTOCOL_V16, Build_VersionData network_magic (Some false));
    (PROTOCOL_V17, Build_VersionData network_magic (Some false));
    (PROTOCOL_V18, Build_VersionData network_magic (Some false));
    (PROTOCOL_V19, Build_VersionData network_magic (Some false));
    (PROTOCOL_V20, Build_VersionData network_magic (Some false));
    (PROTOCOL_V21, Build_VersionData network_magic (Some false));
    (PROTOCOL_V22, Build_VersionData network_magic (Some false));
    (PROTOCOL_V23, Build_VersionData network_magic (Some false))] |}.

Definition v15_with_query (network_magic : Z) : VersionTable VersionData :=
  {| values := collect_map [
    (PROTOCOL_V15, Build_VersionData network_magic (Some true))] |}.

Section codec.
Context `{Minicbor}.

#[global] Instance VersionData_encode : Encode VersionData := fun v =>
  match is_query v with
  | None => w_u64 (magic v)
  | Some is_query => w_array 2 ⊕ w_u64 (magic v) ⊕ w_bool is_query
  end.

#[global] Instance VersionData_decode : Decode VersionData :=
  ty ← d_datatype;
  match ty with
  | TU8 | TU16 | TU32 | TU64 =>
      network_magic ← d_u64;
      mret {| magic := network_magic; is_query := None |}
  | TArray =>
      _ ← d_array;
      network_magic ← d_u64;
      is_query ← d_bool;
      mret {| magic := network_magic; is_query := Some is_query |}
  | _ => dec_fail (DecodeMessage "unknown type for VersionData")
  end.

#[global] Instance VersionData_valid : Valid VersionData := fun v => in_u 64 (magic v).

#[global] Instance VersionData_codec `{!MinicborLaws _} : Codec VersionData.
Proof.
  split.
  - intros [mg [q|]] Hm; unfold_codec VersionData_encode VersionData_decode;
      intros b rest Hb; unfold mbind at 1, dec_bind at 1.
    + pose proof Hb as (x & y & [= <-] & _ & Hxy)%enc_app_Some.
      rewrite Hxy, <- app_assoc, datatype_array, app_assoc, <- Hxy by by unfold in_u.
      clear Hxy. revert b rest Hb. change (Parses (_ ← d_array; network_magic ← d_u64; is_query ← d_bool;
        mret {| magic := network_magic; is_query := Some is_query |})
        (w_array 2 ⊕ w_u64 mg ⊕ w_bool q) {| magic := mg; is_query := Some q |}).
      solve_parses.
    + injection Hb as <-. destruct (datatype_u64 mg rest Hm) as (t & -> & Ht).
      assert (Parses (network_magic ← d_u64; mret {| magic := network_magic; is_query := None |})
        (w_u64 mg) {| magic := mg; is_query := None |}) as Hp by solve_parses.
      pose proof (Hp _ rest eq_refl).
      repeat (apply elem_of_cons in Ht as [->|Ht]; [done|]). by apply elem_of_nil in Ht.
  - unfold decode; unfold VersionData_decode. solve_stable.
Qed.
End codec.
End n2c.

(** ** Every table a client may propose is written and read back *)
Section tables.
Context `{ML : MinicborLaws}.

Lemma collected_table_roundtrip {T} `{Codec T} (kvs : list (Z * T)) :
  (forall v : T, is_Some (encode v)) ->
  in_u 64 (Z.of_nat (size (collect_map kvs))) ->
  Forall (fun kv => in_u 64 kv.1 /\ valid kv.2) kvs ->
  exists b, encode (Message.Propose (Build_VersionTable (collect_map kvs))) = Some b /\
    forall rest, decode (b ++ rest) = Ok (Message.Propose (Build_VersionTable (collect_map kvs)), rest).
Proof.
  intros He Hs Hv. apply codec_roundtrip; [|by apply Propose_is_Some].
  split; [done|]. by apply (collect_map_Forall (fun k v => in_u 64 k /\ valid v)).
Qed.

Lemma n2n_encode_total (v : n2n.VersionData) : is_Some (encode v).
Proof. unfold encode; unfold n2n.VersionData_encode. destruct (n2n.peer_sharing v), (n2n.query v); eauto. Qed.

Lemma n2c_encode_total (v : n2c.VersionData) : is_Some (encode v).
Proof. unfold encode; unfold n2c.VersionData_encode. destruct (n2c.is_query v); eauto. Qed.
End tables.
