(* ===== verification/LeiosProtocols.v ===== *)
(** * The leios-notify mini-protocol

    [pallas-network2/src/protocol/leiosnotify.rs]. *)
From S2P Require Import Prelude Cbor Protocol.

#[export] Instance AnyCbor_eq_dec : EqDecision AnyCbor.
Proof. solve_decision. Defined.

Module leiosnotify.
Definition CHANNEL_ID : Z := 18.

Module Message.
Inductive t :=
| Done
| Quit
| Canceled
| RequestNext
| BlockAnnouncement (header : AnyCbor)
| BlockOffer (point : Point.t) (size : Z)
| BlockTxsOffer (point : Point.t)
| Votes (votes : list AnyCbor).
End Message.

(** An announcement or offer kept for the consumer. *)
Module Notification.
Inductive t :=
| BlockAnnouncement (header : AnyCbor)
| BlockOffer (point : Point.t) (size : Z)
| BlockTxsOffer (point : Point.t)
| Votes (votes : list AnyCbor).
End Notification.

Module State.
Inductive t :=
| Idle (pending : option Notification.t)
| Busy
| Quit
| Done.
End State.

Definition default_state : State.t := State.Idle None.

Definition apply (s : State.t) (msg : Message.t) : result Error State.t :=
  match s with
  | State.Idle _ =>
      match msg with
      | Message.RequestNext => Ok State.Busy
      | Message.Quit => Ok State.Quit
      | _ => Err InvalidOutbound
      end
  | State.Busy =>
      match msg with
      | Message.BlockAnnouncement h => Ok (State.Idle (Some (Notification.BlockAnnouncement h)))
      | Message.BlockOffer p s => Ok (State.Idle (Some (Notification.BlockOffer p s)))
      | Message.BlockTxsOffer p => Ok (State.Idle (Some (Notification.BlockTxsOffer p)))
      | Message.Votes v => Ok (State.Idle (Some (Notification.Votes v)))
      | Message.Canceled => Ok (State.Idle None)
      | _ => Err InvalidInbound
      end
  | State.Quit =>
      match msg with
      | Message.Done => Ok State.Done
      | _ => Err InvalidInbound
      end
  | State.Done => Err InvalidOutbound
  end.

(** [Option::take] on the pending notification. *)
Definition drain (s : State.t) : option Notification.t * State.t :=
  match s with
  | State.Idle n => (n, State.Idle None)
  | _ => (None, s)
  end.

#[global, refine] Instance pull : PullProtocol apply := {
  msg_kind m :=
    match m with
    | Message.RequestNext => Request
    | Message.Quit | Message.Done => Stop
    | _ => Reply
    end;
  state_phase s :=
    match s with State.Idle _ => Ready | State.Busy => Waiting | _ => Stopped end
}.
Proof. intros s m s'. destruct s, m; intros [= <-]; done. Defined.

Section codec.
Context `{Minicbor}.

#[global] Instance Message_encode : Encode Message.t := fun m =>
  match m with
  | Message.Done => w_array 1 ⊕ w_u16 0
  | Message.Quit => w_array 1 ⊕ w_u16 1
  | Message.Canceled => w_array 1 ⊕ w_u16 2
  | Message.RequestNext => w_array 1 ⊕ w_u16 3
  | Message.BlockAnnouncement header => w_array 2 ⊕ w_u16 4 ⊕ encode header
  | Message.BlockOffer point size => w_array 3 ⊕ w_u16 5 ⊕ encode point ⊕ w_u32 size
  | Message.BlockTxsOffer point => w_array 2 ⊕ w_u16 6 ⊕ encode point
  | Message.Votes votes =>
      w_array 2 ⊕ w_u16 7 ⊕ w_array (Z.of_nat (length votes)) ⊕ enc_all (encode <$> votes)
  end.

#[global] Instance Message_decode : Decode Message.t :=
  _ ← d_array;
  label ← d_u16;
  match label with
  | 0 => mret Message.Done
  | 1 => mret Message.Quit
  | 2 => mret Message.Canceled
  | 3 => mret Message.RequestNext
  | 4 => header ← decode; mret (Message.BlockAnnouncement header)
  | 5 => point ← decode; size ← d_u32; mret (Message.BlockOffer point size)
  | 6 => point ← decode; mret (Message.BlockTxsOffer point)
  | 7 => votes ← d_seq decode; mret (Message.Votes votes)
  | _ => dec_fail (DecodeMessage "unknown variant for leiosnotify message")
  end.

#[global] Instance Message_valid : Valid Message.t := fun m =>
  match m with
  | Message.BlockAnnouncement header => valid header
  | Message.BlockOffer point size => valid point /\ in_u 32 size
  | Message.BlockTxsOffer point => valid point
  | Message.Votes votes => fits_len votes /\ Forall valid votes
  | _ => True
  end.

#[global] Instance Message_codec `{!MinicborLaws _} : Codec Message.t.
Proof.
  split.
  - intros m Hm. unfold_codec Message_encode Message_decode.
    destruct m; unfold valid in Hm; cbn in Hm; destruct_and?; solve_parses.
  - unfold decode; unfold Message_decode. solve_stable.
Qed.
End codec.
End leiosnotify.

(** ** The leios-fetch mini-protocol

    [pallas-network2/src/protocol/leiosfetch.rs]: the bitmaps that select
    transactions of an endorser block, the messages, the state machine and the
    codecs. *)

Module leiosfetch.
Definition CHANNEL_ID : Z := 19.

(** ** Bitmaps: [BTreeMap<u16, u64>] *)
Record Bitmaps := { windows : gmap Z Z }.

#[global] Instance Bitmaps_eq_dec : EqDecision Bitmaps.
Proof. solve_decision. Defined.

(** [!x] on a [u64]. *)
Definition u64_not (x : Z) : Z := Z.lxor x (Z.ones 64).
Definition U64_MAX : Z := 2 ^ 64 - 1.

(** The top [bits] bits, [0 < bits <= 64]. *)
Definition top_mask (bits : Z) : Z :=
  if bits =? 64 then U64_MAX else u64_not (Z.shiftl 1 (64 - bits) - 1).

(** The loop of [Bitmaps::all]; [None] when [window += 1] overflows its [u16]
    (a panic of a checked build) or when the fuel runs out, which
    [all_from_indices] excludes. *)
Fixpoint all_loop (fuel : nat) (remaining window : Z) (m : gmap Z Z) : option (gmap Z Z) :=
  match fuel with
  | O => None
  | S fuel =>
      if 0 <? remaining then
        let bits := Z.min remaining 64 in
        window' ← checked_add 16 window 1;
        all_loop fuel (remaining - bits) window' (<[window := top_mask bits]> m)
      else Some m
  end.

Definition all (count : Z) : option Bitmaps :=
  m ← all_loop (S (Z.to_nat count)) count 0 ∅;
  Some {| windows := m |}.

Definition set_index (m : gmap Z Z) (offset : Z) : gmap Z Z :=
  let window := (offset / 64) mod 2 ^ 16 in
  let bit := 63 - offset mod 64 in
  <[window := Z.lor (default 0 (m !! window)) (Z.shiftl 1 bit)]> m.

Definition from_indices (indices : list Z) : Bitmaps :=
  {| windows := foldl set_index ∅ indices |}.

(** Whether a bitmap selects the transaction at an index. *)
Definition selects (b : Bitmaps) (i : Z) : bool :=
  Z.testbit (default 0 (windows b !! (i / 64))) (63 - i mod 64).

(** ** Messages and states *)
Module Message.
Inductive t :=
| Done
| BlockRequest (point : Point.t)
| Block (block : AnyCbor)
| BlockTxsRequest (point : Point.t) (bitmaps : Bitmaps)
| BlockTxs (txs : list AnyCbor).
End Message.

Module Response.
Inductive t :=
| Block (block : AnyCbor)
| BlockTxs (txs : list AnyCbor).
End Response.

Module State.
Inductive t :=
| Idle (response : option (Point.t * Response.t))
| AwaitingBlock (eb : Point.t)
| AwaitingBlockTxs (eb : Point.t) (bitmaps : Bitmaps)
| Done.
End State.

Definition default_state : State.t := State.Idle None.

Definition apply (s : State.t) (msg : Message.t) : result Error State.t :=
  match s with
  | State.Idle _ =>
      match msg with
      | Message.BlockRequest p => Ok (State.AwaitingBlock p)
      | Message.BlockTxsRequest p b => Ok (State.AwaitingBlockTxs p b)
      | Message.Done => Ok State.Done
      | _ => Err InvalidOutbound
      end
  | State.AwaitingBlock eb =>
      match msg with
      | Message.Block b => Ok (State.Idle (Some (eb, Response.Block b)))
      | _ => Err InvalidInbound
      end
  | State.AwaitingBlockTxs eb _ =>
      match msg with
      | Message.BlockTxs txs => Ok (State.Idle (Some (eb, Response.BlockTxs txs)))
      | _ => Err InvalidInbound
      end
  | State.Done => Err InvalidOutbound
  end.

Definition drain (s : State.t) : option (Point.t * Response.t) * State.t :=
  match s with
  | State.Idle r => (r, State.Idle None)
  | _ => (None, s)
  end.

#[global, refine] Instance pull : PullProtocol apply := {
  msg_kind m :=
    match m with
    | Message.BlockRequest _ | Message.BlockTxsRequest _ _ => Request
    | Message.Block _ | Message.BlockTxs _ => Reply
    | Message.Done => Stop
    end;
  state_phase s :=
    match s with State.Idle _ => Ready | State.Done => Stopped | _ => Waiting end
}.
Proof. intros s m s'. destruct s, m; intros [= <-]; done. Defined.

Section codec.
Context `{Minicbor}.

Definition encode_window (m : gmap Z Z) (k : Z) : enc := w_u16 k ⊕ w_u64 (default 0 (m !! k)).

#[global] Instance Bitmaps_encode : Encode Bitmaps := fun b =>
  w_begin_map ⊕
  enc_all (encode_window (windows b) <$> sorted_keys (windows b)) ⊕
  w_end.
#[global] Instance Bitmaps_decode : Decode Bitmaps :=
  kvs ← d_pairs d_u16 d_u64; mret {| windows := collect_map kvs |}.
#[global] Instance Bitmaps_valid : Valid Bitmaps := fun b =>
  forall k v, windows b !! k = Some v -> in_u 16 k /\ in_u 64 v.

#[global] Instance Message_encode : Encode Message.t := fun m =>
  match m with
  | Message.Done => w_array 1 ⊕ w_u16 0
  | Message.BlockRequest point => w_array 2 ⊕ w_u16 1 ⊕ encode point
  | Message.Block block => w_array 2 ⊕ w_u16 2 ⊕ encode block
  | Message.BlockTxsRequest point bitmaps => w_array 3 ⊕ w_u16 3 ⊕ encode point ⊕ encode bitmaps
  | Message.BlockTxs txs =>
      w_array 2 ⊕ w_u16 4 ⊕ w_array (Z.of_nat (length txs)) ⊕
      enc_all ((fun tx => encode (mkCborWrap tx)) <$> txs)
  end.

#[global] Instance Message_decode : Decode Message.t :=
  _ ← d_array;
  label ← d_u16;
  match label with
  | 0 => mret Message.Done
  | 1 => point ← decode; mret (Message.BlockRequest point)
  | 2 => block ← decode; mret (Message.Block block)
  | 3 => point ← decode; bitmaps ← decode; mret (Message.BlockTxsRequest point bitmaps)
  | 4 => txs ← d_seq decode; mret (Message.BlockTxs (unwrap <$> txs))
  | _ => dec_fail (DecodeMessage "unknown variant for leiosfetch message")
  end.

#[global] Instance Message_valid : Valid Message.t := fun m =>
  match m with
  | Message.Done => True
  | Message.BlockRequest point => valid point
  | Message.Block block => valid block
  | Message.BlockTxsRequest point bitmaps => valid point /\ valid bitmaps
  | Message.BlockTxs txs => fits_len txs /\ Forall valid (mkCborWrap <$> txs)
  end.
End codec.

Section laws.
Context `{ML : MinicborLaws}.

Lemma encode_windows (m : gmap Z Z) (ks : list Z) :
  (forall k, k ∈ ks -> is_Some (m !! k)) ->
  encode_window m <$> ks =
  (fun '(k, v) => w_u16 k ⊕ w_u64 v) <$> ((fun k => (k, default 0 (m !! k))) <$> ks).
Proof. intros. rewrite <- list_fmap_compose. done. Qed.

#[global] Instance Bitmaps_codec : Codec Bitmaps.
Proof.
  split.
  - intros [m] Hm. unfold_codec Bitmaps_encode Bitmaps_decode.
    rewrite encode_windows by (intros; by apply elem_of_sorted_keys).
    eapply Parses_bind_last.
    + eapply (pairs_parses_indef _ _ (fun v => w_u64 v)). intros k v Hkv.
      apply list_elem_of_fmap in Hkv as (k' & [= -> ->] & Hk').
      apply elem_of_sorted_keys in Hk' as [v Hv]. rewrite Hv. destruct (Hm _ _ Hv).
      split; [done|]. by apply u64_parses.
    + unfold collect_map. rewrite collect_map_entries, entries_of_sorted by (intros; by apply elem_of_sorted_keys).
      apply Parses_ret.
  - unfold decode; unfold Bitmaps_decode. solve_stable.
Qed.

Lemma wrapped_txs (txs : list AnyCbor) :
  (fun tx => encode (mkCborWrap tx)) <$> txs = encode <$> (mkCborWrap <$> txs).
Proof. by rewrite <- list_fmap_compose. Qed.

#[global] Instance Message_codec : Codec Message.t.
Proof.
  split.
  - intros m Hm. unfold_codec Message_encode Message_decode.
    destruct m; unfold valid in Hm; cbn in Hm; destruct_and?; [solve_parses..|].
    rewrite wrapped_txs, <- (length_fmap mkCborWrap txs).
    do 2 (eapply Parses_bind; [solve [eauto with codec]|]; cbn).
    eapply Parses_bind_last.
    + apply seq_codec; [|done]. unfold fits_len. by rewrite length_fmap.
    + rewrite <- list_fmap_compose. unfold compose, unwrap; simpl.
      rewrite list_fmap_id. apply Parses_ret.
  - unfold decode; unfold Message_decode. solve_stable.
Qed.
End laws.

(** ** What a bitmap selects *)

(** The first [n] bits of a window, the most significant first. *)
Definition first_bits (n : Z) : Z := Z.shiftl (Z.ones n) (64 - n).

Lemma first_bits_testbit n i :
  0 <= n <= 64 -> Z.testbit (first_bits n) i = (64 - n <=? i) && (i <? 64).
Proof.
  intros Hn. unfold first_bits. destruct (Z.leb_spec 0 i).
  - rewrite Z.shiftl_spec by lia. destruct (Z.leb_spec (64 - n) i).
    + rewrite Z.testbit_ones by lia.
      destruct (Z.leb_spec 0 (i - (64 - n))), (Z.ltb_spec (i - (64 - n)) n), (Z.ltb_spec i 64);
        done || lia.
    + rewrite Z.testbit_neg_r by lia. done.
  - rewrite Z.testbit_neg_r by lia. destruct (Z.leb_spec (64 - n) i); [lia|done].
Qed.

Lemma top_mask_first_bits n : 0 < n <= 64 -> top_mask n = first_bits n.
Proof.
  intros Hn. unfold top_mask. destruct (Z.eqb_spec n 64) as [->|]; [done|].
  unfold u64_not. rewrite Z.shiftl_1_l.
  replace (2 ^ (64 - n) - 1) with (Z.ones (64 - n)) by (rewrite Z.ones_equiv; lia).
  apply Z.bits_inj'. intros i Hi. rewrite Z.lxor_spec, first_bits_testbit, !Z.testbit_ones by lia.
  destruct (Z.leb_spec 0 i), (Z.ltb_spec i (64 - n)), (Z.ltb_spec i 64), (Z.leb_spec (64 - n) i);
    done || lia.
Qed.

Lemma first_bits_succ n :
  0 <= n < 64 -> Z.lor (first_bits n) (Z.shiftl 1 (63 - n)) = first_bits (n + 1).
Proof.
  intros Hn. apply Z.bits_inj'. intros i Hi.
  rewrite Z.lor_spec, !first_bits_testbit, Z.shiftl_1_l, Z.pow2_bits_eqb by lia.
  destruct (Z.leb_spec (64 - n) i), (Z.ltb_spec i 64), (Z.eqb_spec (63 - n) i),
    (Z.leb_spec (64 - (n + 1)) i); done || lia.
Qed.

Definition first_indices (n : Z) : gmap Z Z := foldl set_index ∅ (seqZ 0 n).

Lemma first_indices_succ n : 0 <= n -> first_indices (n + 1) = set_index (first_indices n) n.
Proof.
  intros Hn. unfold first_indices. rewrite seqZ_app by lia. by rewrite foldl_app.
Qed.

Lemma div_window w k : 0 <= k < 64 -> (64 * w + k) / 64 = w /\ (64 * w + k) mod 64 = k.
Proof.
  intros. rewrite Z.mul_comm, Z.add_comm, Z.div_add, Z.mod_add by lia.
  rewrite Z.div_small, Z.mod_small by lia. lia.
Qed.

(** The windows the first indices fill. *)
Lemma first_indices_window w k :
  0 <= w < 2 ^ 16 -> 0 <= k <= 64 ->
  first_indices (64 * w + k) =
    if decide (k = 0) then first_indices (64 * w)
    else <[w := first_bits k]> (first_indices (64 * w)).
Proof.
  intros Hw Hk. assert (first_indices (64 * w) !! w = None) as Hnone.
  { clear Hk. assert (forall n, 0 <= n <= 64 * w -> first_indices n !! w = None) as Hn;
      [|apply Hn; lia].
    intros n [Hn0 Hn]. revert Hn. pattern n. apply natlike_ind; [done| |done].
    clear n Hn0. intros n Hn0 IH Hn. rewrite <- Z.add_1_r, first_indices_succ by done.
    unfold set_index. rewrite lookup_insert_ne; [apply IH; lia|].
    assert (n / 64 < w) by (apply Z.div_lt_upper_bound; lia).
    assert (0 <= n / 64) by (apply Z.div_pos; lia).
    rewrite Z.mod_small; lia. }
  destruct Hk as [Hk0 Hk]. revert Hk. pattern k. apply natlike_ind; [|clear k Hk0; intros k Hk0 IH Hk|done].
  - intros _. rewrite Z.add_0_r. done.
  - specialize (IH ltac:(lia)).
    rewrite <- Z.add_1_r, Z.add_assoc, first_indices_succ, IH by lia.
    unfold set_index. destruct (div_window w k) as [-> ->]; [lia|].
    rewrite (Z.mod_small w), (decide_False (P := k + 1 = 0)) by lia.
    rewrite <- first_bits_succ by lia.
    case_decide as Hk1.
    + subst k. by rewrite Hnone.
    + rewrite lookup_insert_eq, insert_insert_eq. done.
Qed.

Lemma all_loop_spec fuel remaining w :
  0 <= remaining -> 0 <= w < 2 ^ 16 -> remaining < Z.of_nat fuel ->
  all_loop fuel remaining w (first_indices (64 * w)) =
    if decide (64 * w + remaining <= 64 * (2 ^ 16 - 1)) then Some (first_indices (64 * w + remaining))
    else None.
Proof.
  revert remaining w; induction fuel as [|fuel IH]; intros r w Hr Hw Hf; [lia|].
  cbn [all_loop]. destruct (Z.ltb_spec 0 r).
  2: { replace r with 0 by lia. rewrite Z.add_0_r, decide_True by lia. done. }
  destruct (decide (w + 1 < 2 ^ 16)).
  2: { rewrite decide_False by lia.
       destruct (checked_add 16 w 1) eqn:E; [|done]. apply checked_add_Some in E. lia. }
  rewrite (proj2 (checked_add_Some 16 w 1 (w + 1))) by lia. cbn [mbind option_bind].
  assert (first_indices (64 * w + Z.min r 64) =
    <[w := first_bits (Z.min r 64)]> (first_indices (64 * w))) as Hwin.
  { rewrite first_indices_window, decide_False by lia. done. }
  rewrite top_mask_first_bits, <- Hwin by lia.
  destruct (Z.leb_spec r 64).
  - rewrite Z.min_l, Z.sub_diag, decide_True by lia. destruct fuel; [lia|]. done.
  - rewrite Z.min_r by lia. replace (64 * w + 64) with (64 * (w + 1)) by lia.
    rewrite IH by lia. replace (64 * (w + 1) + (r - 64)) with (64 * w + r) by lia. done.
Qed.

Lemma selects_set_index m o i :
  0 <= o < 64 * 2 ^ 16 -> 0 <= i ->
  selects {| windows := set_index m o |} i = (i =? o) || selects {| windows := m |} i.
Proof.
  intros Ho Hi. unfold selects, set_index; cbn [windows].
  assert (0 <= o / 64 < 2 ^ 16) by (split; [apply Z.div_pos; lia|apply Z.div_lt_upper_bound; lia]).
  rewrite (Z.mod_small (o / 64)) by lia.
  pose proof (Z.div_mod i 64 ltac:(lia)). pose proof (Z.div_mod o 64 ltac:(lia)).
  pose proof (Z.mod_pos_bound i 64 ltac:(lia)). pose proof (Z.mod_pos_bound o 64 ltac:(lia)).
  destruct (decide (i / 64 = o / 64)) as [E|].
  - rewrite E, lookup_insert_eq. cbn [from_option id].
    rewrite Z.lor_spec, Z.shiftl_1_l, Z.pow2_bits_eqb, orb_comm by lia. f_equal.
    destruct (Z.eqb_spec (63 - o mod 64) (63 - i mod 64)), (Z.eqb_spec i o); lia || done.
  - rewrite lookup_insert_ne by done. destruct (Z.eqb_spec i o); [congruence|done].
Qed.

(** The bitmap [Bitmaps::from_indices] builds selects exactly the given
    transactions, whatever their order and repetitions, as long as they lie in
    the 65536 windows a [u16] can number. *)
Theorem from_indices_selects indices i :
  Forall (fun o => 0 <= o < 64 * 2 ^ 16) indices -> 0 <= i ->
  selects (from_indices indices) i = true <-> i ∈ indices.
Proof.
  intros Hf Hi. unfold from_indices.
  induction indices as [|o os IH] using rev_ind.
  - unfold selects; cbn. rewrite lookup_empty, Z.bits_0. set_solver.
  - apply Forall_app in Hf as [Hf Ho]. inversion Ho as [|? ? Ho' _]; subst.
    rewrite foldl_app. cbn [foldl]. rewrite selects_set_index, orb_true_iff, Z.eqb_eq by done.
    rewrite IH by done. set_solver.
Qed.

(** [Bitmaps::all] always terminates: up to 65535 full windows it agrees with
    [from_indices] on the first [count] indices, and past that its [u16] window
    counter overflows. *)
Theorem all_from_indices count :
  0 <= count ->
  all count =
    if decide (count <= 64 * (2 ^ 16 - 1)) then Some (from_indices (seqZ 0 count)) else None.
Proof.
  intros Hc. unfold all.
  pose proof (all_loop_spec (S (Z.to_nat count)) count 0 ltac:(lia) ltac:(lia) ltac:(lia)) as Hl.
  change (first_indices (64 * 0)) with (∅ : gmap Z Z) in Hl. rewrite Hl.
  destruct (decide (count <= _)) as [Hd|Hd]; [rewrite decide_True by lia|rewrite decide_False by lia]; done.
Qed.

Lemma from_indices_selects_witness :
  selects (from_indices [70; 3; 3]) 70 = true <-> 70 ∈ [70; 3; 3].
Proof. apply (from_indices_selects [70; 3; 3] 70); [repeat constructor; lia|lia]. Defined.

Lemma all_from_indices_witness : all 67 = Some (from_indices (seqZ 0 67)).
Proof. exact (all_from_indices 67 ltac:(lia)). Defined.
End leiosfetch.
