(* ===== verification/ProtocolProps.v ===== *)
(** * Properties of the mini-protocols

    What holds of whole runs of the state machines, of the version tables and of
    the codecs taken one by one. *)
From S2P Require Import Prelude Cbor Rfc8949 Protocol Chainsync Blockfetch Keepalive.
From S2P Require Import Txsubmission Peersharing Handshake HandshakeVersions.
From S2P Require Import LeiosProtocols.

(** ** Runs *)

(** In every run a pull protocol accepts from its initial state, each request
    has been answered exactly once except the one that is pending, and after a
    terminating message only terminating messages are accepted. *)
Theorem pull_protocols_balanced :
  (forall C ms s, run (@chainsync.apply C) chainsync.default_state ms = Ok s ->
     balanced chainsync.apply ms s) /\
  (forall ms s, run blockfetch.apply blockfetch.default_state ms = Ok s ->
     balanced blockfetch.apply ms s) /\
  (forall ms s, run keepalive.apply keepalive.default_state ms = Ok s ->
     balanced keepalive.apply ms s) /\
  (forall ms s, run peersharing.apply peersharing.default_state ms = Ok s ->
     balanced peersharing.apply ms s) /\
  (forall ms s, run leiosnotify.apply leiosnotify.default_state ms = Ok s ->
     balanced leiosnotify.apply ms s) /\
  (forall ms s, run leiosfetch.apply leiosfetch.default_state ms = Ok s ->
     balanced leiosfetch.apply ms s).
Proof. split_and!; intros; (eapply run_balanced; [|eassumption]; reflexivity). Qed.

(** The content a chain-sync message leaves in the idle state. *)
Definition chainsync_data {C} (m : chainsync.Message.t C) : option (chainsync.Data.t C) :=
  match m with
  | chainsync.Message.RollForward c t => Some (chainsync.Data.Content c t)
  | chainsync.Message.RollBackward p t => Some (chainsync.Data.Rollback p t)
  | chainsync.Message.IntersectFound p t => Some (chainsync.Data.Intersection p t)
  | chainsync.Message.IntersectNotFound t => Some (chainsync.Data.NoIntersection t)
  | _ => None
  end.

Definition chainsync_drained {C} (s : chainsync.State.t C) : option (chainsync.Data.t C) :=
  (chainsync.drain s).1.

(** Applies messages in sequence, draining the data after each as a consumer does,
    and collects what was drained. *)
Fixpoint chainsync_consume {C} (s : chainsync.State.t C) (ms : list (chainsync.Message.t C)) :
    result Error (list (chainsync.Data.t C) * chainsync.State.t C) :=
  match ms with
  | [] => Ok ([], s)
  | m :: ms =>
      s' ← chainsync.apply s m;
      let (d, s'') := chainsync.drain s' in
      r ← chainsync_consume s'' ms;
      Ok (option_list d ++ r.1, r.2)
  end.

Lemma chainsync_apply_data {C} s (m : chainsync.Message.t C) s' :
  chainsync.apply s m = Ok s' -> chainsync_drained s' = chainsync_data m.
Proof. destruct s, m; intros [= <-]; done. Qed.

(** A consumer that drains chain-sync after every message sees the content of
    each server reply exactly once, in order, and nothing else. *)
Theorem chainsync_consume_all C (s : chainsync.State.t C) ms ds s' :
  chainsync_consume s ms = Ok (ds, s') -> ds = omap chainsync_data ms.
Proof.
  revert s ds; induction ms as [|m ms IH]; intros s ds; simpl; [by intros [= <- <-]|].
  unfold mbind, result_bind. destruct (chainsync.apply s m) as [s1|] eqn:E; [|done].
  pose proof (chainsync_apply_data _ _ _ E) as Hd. unfold chainsync_drained in Hd.
  destruct (chainsync.drain s1) as [d s2]. simpl in Hd. subst d.
  destruct (chainsync_consume s2 ms) as [[ds' s3]|] eqn:E2; [|done].
  intros [= <- <-]. rewrite (IH _ _ E2). by destruct (chainsync_data m).
Qed.

Lemma chainsync_consume_all_witness :
  let tip := {| chainsync.tip_point := Point.Origin; chainsync.tip_block := 0 |} in
  [chainsync.Data.Content 7 tip] =
  omap chainsync_data [chainsync.Message.RequestNext; chainsync.Message.RollForward 7 tip].
Proof.
  apply (chainsync_consume_all Z chainsync.default_state _ _ (chainsync.State.Idle chainsync.Data.Drained)).
  reflexivity.
Defined.

(** *** Tx-submission

    [apply] leaves the two states that await transaction ids and the one that
    awaits transactions only for themselves. *)
Definition txsubmission_stuck (s : txsubmission.State.t) : bool :=
  match s with
  | txsubmission.State.TxIdsBlocking | txsubmission.State.Txs _ => true
  | _ => false
  end.

Lemma txsubmission_stuck_step s m s' :
  txsubmission_stuck s = true -> txsubmission.apply s m = Ok s' -> txsubmission_stuck s' = true.
Proof. destruct s, m; intros Hs [= <-]; done. Qed.

Lemma txsubmission_reachable s m s' :
  (s = txsubmission.State.Init \/ s = txsubmission.State.Idle \/ txsubmission_stuck s = true) ->
  txsubmission.apply s m = Ok s' -> s' = txsubmission.State.Idle \/ txsubmission_stuck s' = true.
Proof. intros [->|[->|Hs]]; [destruct m; intros [= <-]; eauto..|]. eauto using txsubmission_stuck_step. Qed.

Definition txsubmission_request (m : txsubmission.Message.t) : bool :=
  match m with
  | txsubmission.Message.RequestTxIds _ _ _ | txsubmission.Message.RequestTxs _ => true
  | _ => false
  end.

(** The tx-submission machine serves at most one request: once a server
    request has been accepted no later message brings it back to [Idle], so every
    further request is refused; the non-blocking state and [Done] are never
    reached, and [Done] messages are always refused. *)
Theorem txsubmission_one_request ms s :
  run txsubmission.apply txsubmission.default_state ms = Ok s ->
  s <> txsubmission.State.Done /\ s <> txsubmission.State.TxIdsNonBlocking /\
  is_ok (txsubmission.apply s txsubmission.Message.Done) = false /\
  forall m m', m ∈ ms -> txsubmission_request m = true -> txsubmission_request m' = true ->
    is_ok (txsubmission.apply s m') = false.
Proof.
  intros Hrun.
  assert (s = txsubmission.State.Init \/ s = txsubmission.State.Idle \/ txsubmission_stuck s = true) as Hs.
  { eapply (run_invariant txsubmission.apply (fun s => s = txsubmission.State.Init \/
      s = txsubmission.State.Idle \/ txsubmission_stuck s = true)); [|by left|exact Hrun].
    intros s1 m s2 H1 H2. right. by eapply txsubmission_reachable. }
  split_and!; try by (destruct Hs as [->|[->|Hs]]; [..|destruct s]).
  intros m m' (ms1 & ms2 & ->)%list_elem_of_split Hm Hm'.
  apply run_app in Hrun as (s1 & _ & H2). apply run_cons in H2 as (s2 & H2 & H3).
  assert (txsubmission_stuck s2 = true) as Hst by (destruct m, s1; simplify_eq/=; done).
  assert (txsubmission_stuck s = true) as Hst'
    by (eapply (run_invariant txsubmission.apply (fun s => txsubmission_stuck s = true));
        eauto using txsubmission_stuck_step).
  by destruct s, m'.
Qed.

Lemma txsubmission_one_request_witness :
  is_ok (txsubmission.apply txsubmission.State.TxIdsBlocking (txsubmission.Message.RequestTxs [])) = false.
Proof.
  refine (proj2 (proj2 (proj2 (txsubmission_one_request
    [txsubmission.Message.Init; txsubmission.Message.RequestTxIds false 0 1;
     txsubmission.Message.ReplyTxIds []] _ _)))
    (txsubmission.Message.RequestTxIds false 0 1) _ _ _ _); [done| |done|done].
  right; left.
Defined.

(** ** Version tables *)

(** The entries of a table from a version number on. *)
Definition from_version {T} (v : Z) (m : gmap Z T) : gmap Z T := filter (fun kv => v <= kv.1) m.

Definition proposable `{Minicbor} {T} `{Encode T, Decode T} (t : handshake.VersionTable T) : Prop :=
  exists b, encode (handshake.Message.Propose t) = Some b /\
    forall rest, decode (b ++ rest) = Ok (handshake.Message.Propose t, rest).

(** The narrower version tables are the wider ones cut at a version, and every
    table a client may propose can be written and is read back, whatever follows
    it. *)
Theorem version_tables magic query `{ML : MinicborLaws} :
  in_u 64 magic ->
  handshake.values (n2n.v11_and_above_with_query magic query) =
    from_version n2n.PROTOCOL_V11 (handshake.values (n2n.v7_and_above_with_query magic query)) /\
  handshake.values (n2n.v7_to_v10 magic) =
    filter (fun kv => kv.1 <= n2n.PROTOCOL_V10) (handshake.values (n2n.v7_and_above_with_query magic query)) /\
  handshake.values (n2c.v10_and_above magic) = from_version n2c.PROTOCOL_V10 (handshake.values (n2c.v1_and_above magic)) /\
  Forall proposable [n2n.v7_to_v10 magic; n2n.v7_and_above magic; n2n.v11_and_above magic;
    n2n.v7_and_above_with_query magic query; n2n.v11_and_above_with_query magic query] /\
  Forall proposable [n2c.v1_and_above magic; n2c.v10_and_above magic; n2c.only_v10 magic;
    n2c.v15_with_query magic].
Proof.
  intros Hm. split_and!; [reflexivity..| |];
    repeat apply Forall_cons_2; try apply Forall_nil_2;
    (apply collected_table_roundtrip;
     [auto using n2n_encode_total, n2c_encode_total|done|repeat (apply Forall_cons_2; [done|]); done]).
Qed.

Lemma version_tables_witness :
  @proposable rfc8949 _ _ _ (n2c.v15_with_query MAINNET_MAGIC).
Proof.
  pose proof (@version_tables MAINNET_MAGIC true rfc8949 rfc8949_laws
    ltac:(by unfold in_u)) as (_ & _ & _ & _ & H).
  rewrite list.Forall_forall in H. apply H. repeat first [by left|right].
Defined.

(** ** Peer addresses on the wire *)

#[local] Arguments e_head : simpl never.

(** Skipping one unsigned integer, and the array header, of a data item. *)
Lemma skip_run_uint fuel n st v r :
  in_u 64 v -> 0 < n ->
  skip_run (S fuel) (Some n :: st) (e_head 0 v ++ r) = skip_run fuel (Some (n - 1) :: st) r.
Proof.
  intros Hv Hn. cbn [skip_run]. destruct (Z.leb_spec n 0); [lia|].
  unfold mbind, dec_bind. by rewrite (head_parses 0 v Hv _ r eq_refl).
Qed.

Lemma skip_run_array fuel n st k r :
  in_u 64 k -> 0 < n ->
  skip_run (S fuel) (Some n :: st) (e_head 4 k ++ r) = skip_run fuel (Some k :: Some (n - 1) :: st) r.
Proof.
  intros Hv Hn. cbn [skip_run]. destruct (Z.leb_spec n 0); [lia|].
  unfold mbind, dec_bind. by rewrite (head_parses 4 k Hv _ r eq_refl).
Qed.

Lemma enc_app_assoc_Some x y e c : Some x ⊕ (Some y ⊕ e) = Some c -> Some (x ++ y) ⊕ e = Some c.
Proof. unfold enc_app. destruct e; [|done]. by rewrite app_assoc. Qed.

Lemma length_e_head mt n : (1 <= length (e_head mt n))%nat.
Proof. unfold e_head. repeat case_match; simpl; lia. Qed.

Lemma in_u_le w w' n : 0 <= w <= w' -> in_u w n -> in_u w' n.
Proof. unfold in_u. intros. pose proof (Z.pow_le_mono_r 2 w w'). lia. Qed.

Lemma skip_run_out fuel st ns b k :
  Forall (in_u 64) ns -> Z.of_nat (length ns) < k -> enc_all ((fun n => w_u16 n) <$> ns) = Some b ->
  skip_run fuel (Some k :: st) b = Err EndOfInput.
Proof.
  revert fuel b k; induction ns as [|n ns IH]; intros [|fuel] b k Hns Hk; try done.
  - intros [= <-]. simpl. destruct (Z.leb_spec k 0); [simpl in *; lia|done].
  - apply Forall_cons in Hns as [Hn Hns]. rewrite length_cons in Hk.
    cbn [fmap list_fmap enc_all]. intros (x & y & [= <-] & Hy & ->)%enc_app_Some.
    cbn [e_u16 rfc8949]. rewrite skip_run_uint by (try done; lia). apply IH; [done|lia|done].
Qed.

(** With the CBOR of RFC 8949, an IPv4 peer address is written as one
    well-formed item, and no IPv6 peer address is: its array header announces
    eight items and six follow, so a reader of whole items runs out of input. *)
Theorem peersharing_v6_malformed address port b :
  in_u 16 port ->
  (in_u 32 address -> encode (peersharing.PeerAddress.V4 address port) = Some b -> data_item b) /\
  (encode (peersharing.PeerAddress.V6 address port) = Some b -> d_skip b = Err EndOfInput).
Proof.
  intros Hp. split.
  - intros Ha He. cbv [encode peersharing.PeerAddress_encode enc_app] in He.
    apply (inj Some) in He; subst b.
    cbn [data_item rfc8949]. unfold d_skip_item. rewrite !length_app.
    pose proof (length_e_head 0 0); pose proof (length_e_head 0 address);
    pose proof (length_e_head 0 port); pose proof (length_e_head 4 3).
    cbn [e_array e_u16 e_u32 rfc8949].
    match goal with |- skip_run ?f _ _ = _ => replace f with (7 + (f - 7))%nat by lia end.
    cbn [Nat.add]. rewrite skip_run_array by (by unfold in_u).
    rewrite !skip_run_uint by (unfold in_u in *; lia).
    rewrite <- (app_nil_r (e_head 0 port)), skip_run_uint by (unfold in_u in *; lia). done.
  - intros He. cbv [encode peersharing.PeerAddress_encode enc_app] in He.
    apply (inj Some) in He; subst b.
    cbn [d_skip e_array e_u16 e_u32 rfc8949].
    match goal with |- d_skip_any ?w = _ => change (d_skip_item w = Err EndOfInput) end. unfold d_skip_item.
    match goal with |- skip_run ?f _ _ = _ => generalize f end. intros fuel.
    destruct fuel as [|fuel]; [done|]. rewrite skip_run_array by (by unfold in_u).
    apply (skip_run_out fuel [Some 0] [1; peersharing.word1 address; peersharing.word2 address;
      peersharing.word3 address; peersharing.word4 address; port]); [|done|].
    + repeat apply Forall_cons_2; try apply Forall_nil_2;
        (first [by unfold in_u | eapply in_u_le, peersharing.in_u_word; lia | by eapply in_u_le; [|exact Hp]]).
    + cbn [enc_all fmap list_fmap e_u16 rfc8949]. unfold enc_app. by rewrite app_nil_r.
Qed.

Lemma peersharing_v6_malformed_witness :
  d_skip [136; 1; 0; 0; 0; 1; 25; 11; 185] = Err EndOfInput.
Proof.
  apply (proj2 (peersharing_v6_malformed 1 3001 _ ltac:(by unfold in_u))). reflexivity.
Defined.

(** ** Two ends of one protocol

    Both ends of a connection run the same [apply]: an end applies a message when
    it has sent it, and the other end when it receives it.  This file puts two
    such ends at the two sides of a pair of FIFO channels and shows that, as long
    as each sends only when it is its turn, neither ever refuses a message. *)

(** Whose turn it is: the client and the server never have it both. *)
Class Agency {S M : Type} (apply : S -> M -> result Error S) := {
  client_may : S -> M -> bool;
  server_may : S -> M -> bool;
  one_agency s m m' : client_may s m = true -> server_may s m' = true -> False
}.
Arguments client_may {S M} apply {_} _ _.
Arguments server_may {S M} apply {_} _ _.

Section ends.
Context {S M : Type} (apply : S -> M -> result Error S) `{!Agency apply}.

Record ends := {
  client : S;
  server : S;
  to_server : list M;
  to_client : list M
}.

Definition both_in (s : S) : ends := {| client := s; server := s; to_server := []; to_client := [] |}.

Inductive exchange : ends -> ends -> Prop :=
| client_sends p m s :
    client_may apply (client p) m = true -> apply (client p) m = Ok s ->
    exchange p {| client := s; server := server p; to_server := to_server p ++ [m]; to_client := to_client p |}
| server_sends p m s :
    server_may apply (server p) m = true -> apply (server p) m = Ok s ->
    exchange p {| client := client p; server := s; to_server := to_server p; to_client := to_client p ++ [m] |}
| server_receives p m rest s :
    to_server p = m :: rest -> apply (server p) m = Ok s ->
    exchange p {| client := client p; server := s; to_server := rest; to_client := to_client p |}
| client_receives p m rest s :
    to_client p = m :: rest -> apply (client p) m = Ok s ->
    exchange p {| client := s; server := server p; to_server := to_server p; to_client := rest |}.

(** The messages one end sent in its turns, from one state to another. *)
Fixpoint sent_by (may : S -> M -> bool) (s : S) (ms : list M) (s' : S) : Prop :=
  match ms with
  | [] => s = s'
  | m :: ms => may s m = true /\ exists s1, apply s m = Ok s1 /\ sent_by may s1 ms s'
  end.

Lemma sent_by_snoc may s ms s' m s'' :
  sent_by may s ms s' -> may s' m = true -> apply s' m = Ok s'' -> sent_by may s (ms ++ [m]) s''.
Proof.
  revert s; induction ms as [|m1 ms IH]; intros s; simpl.
  - intros -> Hm Ha. eauto.
  - intros (Hm1 & s1 & Ha1 & Hs) Hm Ha. eauto.
Qed.

(** One channel at least is empty, and the other holds what brings the end that
    reads it to the state of the end that wrote it. *)
Definition in_step (p : ends) : Prop :=
  (to_server p = [] /\ sent_by (server_may apply) (client p) (to_client p) (server p)) \/
  (to_client p = [] /\ sent_by (client_may apply) (server p) (to_server p) (client p)).

Lemma exchange_in_step p p' : in_step p -> exchange p p' -> in_step p'.
Proof.
  intros Hp He. unfold in_step in *.
  destruct He as [p m s Hm Ha|p m s Hm Ha|p m rest s Hq Ha|p m rest s Hq Ha]; simpl.
  - right. destruct Hp as [[Hs Hc]|[Hc Hs]]; [|split; [done|by eapply sent_by_snoc]].
    destruct (to_client p) as [|m' l]; simpl in Hc.
    + rewrite Hs. split; [done|]. rewrite <- Hc. simpl. eauto.
    + destruct Hc as [Hm' _]. by destruct (one_agency _ _ _ Hm Hm').
  - left. destruct Hp as [[Hs Hc]|[Hc Hs]]; [split; [done|by eapply sent_by_snoc]|].
    destruct (to_server p) as [|m' l]; simpl in Hs.
    + rewrite Hc. split; [done|]. rewrite <- Hs. simpl. eauto.
    + destruct Hs as [Hm' _]. by destruct (one_agency _ _ _ Hm' Hm).
  - right. destruct Hp as [[Hs _]|[Hc Hs]]; [by rewrite Hs in Hq|]. split; [done|].
    rewrite Hq in Hs. simpl in Hs. destruct Hs as (_ & s1 & Ha1 & Hs). congruence.
  - left. destruct Hp as [[Hs Hc]|[Hc _]]; [|by rewrite Hc in Hq]. split; [done|].
    rewrite Hq in Hc. simpl in Hc. destruct Hc as (_ & s1 & Ha1 & Hc). congruence.
Qed.

(** What two such ends can rely on. *)
Definition well_matched (p : ends) : Prop :=
  (forall m rest, to_server p = m :: rest -> is_ok (apply (server p) m) = true) /\
  (forall m rest, to_client p = m :: rest -> is_ok (apply (client p) m) = true) /\
  (to_server p = [] -> to_client p = [] -> client p = server p).

Lemma in_step_well_matched p : in_step p -> well_matched p.
Proof.
  unfold well_matched. intros [[Hs Hc]|[Hc Hs]]; split_and!.
  - by rewrite Hs.
  - intros m rest Hq. rewrite Hq in Hc. destruct Hc as (_ & s & -> & _). done.
  - intros _ Hq. by rewrite Hq in Hc.
  - intros m rest Hq. rewrite Hq in Hs. destruct Hs as (_ & s & -> & _). done.
  - by rewrite Hc.
  - intros Hq _. by rewrite Hq in Hs.
Qed.

Definition honest (s : S) : Prop := forall p, rtc exchange (both_in s) p -> well_matched p.

Lemma agency_honest s : honest s.
Proof.
  intros p Hp. apply in_step_well_matched.
  assert (in_step (both_in s)) as Hs by (left; done).
  revert Hs. induction Hp as [|p1 p2 p3 He _ IH]; [done|]. intros Hs. by eapply IH, exchange_in_step.
Qed.
End ends.
Arguments client {S M} _.
Arguments server {S M} _.
Arguments to_server {S M} _.
Arguments to_client {S M} _.

(** In a pull protocol the client asks and stops, the server answers, and closes
    what the client has stopped. *)
#[export, refine] Instance pull_agency {S M} (apply : S -> M -> result Error S) `{!PullProtocol apply} :
    Agency apply := {
  client_may s m :=
    match state_phase apply s, msg_kind apply m with Ready, (Request | Stop) => true | _, _ => false end;
  server_may s m :=
    match state_phase apply s, msg_kind apply m with
    | Waiting, (Reply | Interim) | Stopped, Stop => true
    | _, _ => false
    end
}.
Proof. intros s m m'. by destruct (state_phase apply s), (msg_kind apply m), (msg_kind apply m'). Defined.

#[export, refine] Instance handshake_agency {D} : Agency (@handshake.apply D) := {
  client_may s _ := match s with handshake.State.Propose => true | _ => false end;
  server_may s _ := match s with handshake.State.Confirm _ => true | _ => false end
}.
Proof. by intros []. Defined.

(** The server of tx-submission asks. *)
#[export, refine] Instance txsubmission_agency : Agency txsubmission.apply := {
  client_may s _ :=
    match s with
    | txsubmission.State.Init | txsubmission.State.TxIdsBlocking | txsubmission.State.TxIdsNonBlocking
    | txsubmission.State.Txs _ => true
    | _ => false
    end;
  server_may s _ := match s with txsubmission.State.Idle => true | _ => false end
}.
Proof. by intros []. Defined.
