(* ===== verification/Network.v ===== *)
(** * Vocabulary of the network stack

    [pallas-network2/src/lib.rs]: peer identifiers with their printer and parser,
    the [Message] trait with the splitting of a payload into segments, and the
    commands and events that travel between a behavior and an interface. *)
From Stdlib Require Import Ascii.
From S2P Require Import Prelude.

(** ** Peer identifiers *)
Record PeerId := { host : string; port : Z }.

#[export] Instance PeerId_eq_dec : EqDecision PeerId.
Proof. solve_decision. Defined.

#[export, refine] Instance PeerId_countable : Countable PeerId :=
  inj_countable' (fun p => (host p, port p)) (fun hp => {| host := hp.1; port := hp.2 |}) _.
Proof. by intros []. Defined.

(** [Display for u16]: decimal digits without leading zeros.  Five digits are
    enough. *)
Definition digit (n : Z) : Ascii.ascii := Ascii.ascii_of_nat (48 + Z.to_nat n).

Fixpoint show_digits (fuel : nat) (n : Z) (acc : string) : string :=
  match fuel with
  | O => acc
  | S fuel =>
      let acc := String (digit (n mod 10)) acc in
      if n <? 10 then acc else show_digits fuel (n / 10) acc
  end.

Definition show_u16 (n : Z) : string := show_digits 5 n EmptyString.

(** [u16::from_str]: an optional plus sign and at least one digit, below 2^16. *)
Definition digit_value (c : Ascii.ascii) : option Z :=
  let n := Z.of_nat (Ascii.nat_of_ascii c) in
  if (48 <=? n) && (n <? 58) then Some (n - 48) else None.

Fixpoint parse_digits (s : string) (acc : Z) : option Z :=
  match s with
  | EmptyString => Some acc
  | String c s =>
      d ← digit_value c;
      let acc := acc * 10 + d in
      if acc <? 2 ^ 16 then parse_digits s acc else None
  end.

Definition parse_u16 (s : string) : option Z :=
  match s with
  | EmptyString => None
  | String c s' =>
      if Ascii.eqb c "+"%char then match s' with EmptyString => None | _ => parse_digits s' 0 end
      else parse_digits s 0
  end.

(** [str::split_once]: the text before and after the first occurrence. *)
Fixpoint split_once (c : Ascii.ascii) (s : string) : option (string * string) :=
  match s with
  | EmptyString => None
  | String d s =>
      if Ascii.eqb c d then Some (EmptyString, s)
      else '(a, b) ← split_once c s; Some (String d a, b)
  end.

Definition peer_id_fmt (p : PeerId) : string := host p +:+ ":" +:+ show_u16 (port p).

(** [FromStr]: an error without a colon; [None] is the panic of the [unwrap] on
    the port. *)
Definition peer_id_from_str (s : string) : option (result string PeerId) :=
  match split_once ":"%char s with
  | None => Some (Err "invalid peer id")
  | Some (host, port) =>
      port ← parse_u16 port;
      Some (Ok {| host := host; port := port |})
  end.

Fixpoint has_char (c : Ascii.ascii) (s : string) : bool :=
  match s with
  | EmptyString => false
  | String d s => Ascii.eqb c d || has_char c s
  end.

Lemma split_once_app c a b : has_char c a = false -> split_once c (a +:+ String c b) = Some (a, b).
Proof.
  induction a as [|d a IH]; simpl; [by rewrite Ascii.eqb_refl|].
  intros [-> Ha]%orb_false_iff. by rewrite (IH Ha).
Qed.

Lemma digit_value_digit n : 0 <= n < 10 -> digit_value (digit n) = Some n.
Proof.
  intros Hn. unfold digit_value, digit.
  rewrite Ascii.nat_ascii_embedding by lia.
  replace (Z.of_nat (48 + Z.to_nat n)) with (48 + n) by lia.
  destruct (Z.leb_spec 48 (48 + n)), (Z.ltb_spec (48 + n) 58); try lia. simpl. f_equal. lia.
Qed.

Lemma parse_digits_digit d s acc :
  0 <= d < 10 -> acc * 10 + d < 2 ^ 16 ->
  parse_digits (String (digit d) s) acc = parse_digits s (acc * 10 + d).
Proof.
  intros Hd Hacc. cbn [parse_digits]. rewrite digit_value_digit by done. cbn [mbind option_bind].
  by rewrite (proj2 (Z.ltb_lt _ (2 ^ 16)) Hacc).
Qed.

(** The digits printed before [s] read as the number. *)
Lemma parse_show_digits fuel n s :
  0 <= n < 10 ^ Z.of_nat (S fuel) -> n < 2 ^ 16 ->
  parse_digits (show_digits (S fuel) n s) 0 = parse_digits s n.
Proof.
  revert n s; induction fuel as [|fuel IH]; intros n s Hn Hn16;
    rewrite Nat2Z.inj_succ, Z.pow_succ_r in Hn by lia;
    pose proof (Z.mod_pos_bound n 10 ltac:(lia)) as Hm; pose proof (Z.div_mod n 10 ltac:(lia)).
  - change (Z.of_nat 0) with 0 in Hn. rewrite Z.pow_0_r in Hn.
    cbn [show_digits]. rewrite (proj2 (Z.ltb_lt n 10)) by lia.
    rewrite Z.mod_small in * by lia. by rewrite parse_digits_digit by lia.
  - remember (S fuel) as f eqn:Hf. cbn [show_digits]. destruct (Z.ltb_spec n 10).
    + rewrite Z.mod_small in * by lia. by rewrite parse_digits_digit by lia.
    + subst f. rewrite IH.
      * rewrite parse_digits_digit by lia. f_equal. lia.
      * split; [apply Z.div_pos; lia|]. apply Z.div_lt_upper_bound; lia.
      * apply Z.div_lt_upper_bound; lia.
Qed.

(** A printed number starts with a digit. *)
Lemma show_digits_head fuel n s :
  0 <= n -> exists d s', 0 <= d < 10 /\ show_digits (S fuel) n s = String (digit d) s'.
Proof.
  revert n s; induction fuel as [|fuel IH]; intros n s Hn.
  all: pose proof (Z.mod_pos_bound n 10 ltac:(lia)).
  - exists (n mod 10). cbn. destruct (n <? 10); eauto.
  - destruct (IH (n / 10) (String (digit (n mod 10)) s)) as (d & s' & Hd & E); [by apply Z.div_pos|].
    remember (S fuel) as f. cbn [show_digits]. rewrite E. destruct (n <? 10); eauto.
Qed.

Lemma parse_show_u16 n : in_u 16 n -> parse_u16 (show_u16 n) = Some n.
Proof.
  intros [Hn0 Hn]. unfold show_u16.
  assert (forall s, (exists d s', 0 <= d < 10 /\ s = String (digit d) s') -> parse_u16 s = parse_digits s 0) as Hp.
  { intros s (d & s' & Hd & ->). assert (d ∈ [0;1;2;3;4;5;6;7;8;9]) as Hin.
    { assert (d = 0 \/ d = 1 \/ d = 2 \/ d = 3 \/ d = 4 \/ d = 5 \/ d = 6 \/ d = 7 \/ d = 8 \/ d = 9) by lia.
      set_solver. }
    repeat (apply elem_of_cons in Hin as [->|Hin]; [done|]). by apply elem_of_nil in Hin. }
  rewrite Hp by (by apply show_digits_head). rewrite parse_show_digits; [done| |done].
    split; [done|]. eapply Z.lt_trans; [exact Hn|done].
Qed.

Lemma split_once_no_char c s a b : split_once c s = Some (a, b) -> has_char c a = false.
Proof.
  revert a; induction s as [|d s IH]; intros a; simpl; [done|].
  destruct (Ascii.eqb c d) eqn:E; [by intros [= <- <-]|].
  destruct (split_once c s) as [[a' b']|]; [|done]. intros [= <- <-]. simpl. by rewrite E, (IH a').
Qed.

(** A peer identifier is printed and parsed back exactly when its host has no
    colon (so never for an IPv6 host). *)
Theorem peer_id_roundtrip p :
  in_u 16 (port p) ->
  peer_id_from_str (peer_id_fmt p) = Some (Ok p) <-> has_char ":"%char (host p) = false.
Proof.
  intros Hp. destruct p as [h n]. unfold peer_id_from_str, peer_id_fmt; simpl in *. split.
  - destruct (split_once _ _) as [[a b]|] eqn:E; [|done].
    destruct (parse_u16 b); simpl; [|done]. intros [= -> _]. by eapply split_once_no_char.
  - intros Hh. change (":" +:+ show_u16 n) with (String ":"%char (show_u16 n)).
    by rewrite (split_once_app _ _ _ Hh), (parse_show_u16 n Hp).
Qed.

Lemma peer_id_roundtrip_witness :
  peer_id_from_str "relays:3001" = Some (Ok {| host := "relays"; port := 3001 |}).
Proof.
  apply (proj2 (peer_id_roundtrip {| host := "relays"; port := 3001 |} ltac:(by unfold in_u))).
  reflexivity.
Defined.

(** ** Messages *)

(** [MAX_SEGMENT_PAYLOAD_LENGTH] *)
Definition MAX_SEGMENT_PAYLOAD_LENGTH : nat := Z.to_nat 65535.
Arguments MAX_SEGMENT_PAYLOAD_LENGTH : simpl never.

(** The trait [Message].  [payload] is [None] where the code panics on an encoding
    error; [from_payload] also returns what it left of the buffer. *)
Class Message (M : Type) := {
  channel : M -> Z;
  payload : M -> option bytes;
  from_payload : Z -> bytes -> option M * bytes
}.

Definition into_payload `{Message M} (m : M) : option (Z * bytes) :=
  payload ← payload m; Some (channel m, payload).

Definition into_chunks `{Message M} (m : M) : option (Z * list bytes) :=
  '(channel, payload) ← into_payload m;
  Some (channel, chunks MAX_SEGMENT_PAYLOAD_LENGTH payload).

(** What a message type promises to the transport: a written message is read back
    and no more than it is consumed, a proper prefix of one is left alone until
    more arrives, and reading a message consumes something. *)
Class MessageLaws (M : Type) `{Message M} := {
  sendable : M -> Prop;
  (** channels are below the flag that tells the two directions apart *)
  channel_range m : in_u 15 (channel m);
  payload_total m : sendable m -> is_Some (payload m);
  payload_read m b rest :
    sendable m -> payload m = Some b -> from_payload (channel m) (b ++ rest) = (Some m, rest);
  payload_partial m p s :
    sendable m -> payload m = Some (p ++ s) -> s <> [] -> from_payload (channel m) p = (None, p);
  from_payload_empty c : from_payload c [] = (None, []);
  from_payload_channel c b m r : from_payload c b = (Some m, r) -> channel m = c;
  from_payload_consumes c b m r : from_payload c b = (Some m, r) -> (length r < length b)%nat
}.

(** ** Commands, events and outputs *)
Inductive InterfaceError := InterfaceError_Other (msg : string).

Inductive InterfaceCommand (M : Type) :=
| Connect (pid : PeerId)
| Send (pid : PeerId) (msg : M)
| Disconnect (pid : PeerId).
Arguments Connect {M} _.
Arguments Send {M} _ _.
Arguments Disconnect {M} _.

Module InterfaceEvent.
Inductive t (M : Type) :=
| Connected (pid : PeerId)
| Disconnected (pid : PeerId)
| Sent (pid : PeerId) (msg : M)
| Recv (pid : PeerId) (msgs : list M)
| Error (pid : PeerId) (err : InterfaceError)
| Idle.
#[global] Arguments Connected {M} _.
#[global] Arguments Disconnected {M} _.
#[global] Arguments Sent {M} _ _.
#[global] Arguments Recv {M} _ _.
#[global] Arguments Error {M} _ _.
#[global] Arguments Idle {M}.
End InterfaceEvent.

Inductive BehaviorOutput (M E : Type) :=
| OutCommand (cmd : InterfaceCommand M)
| OutEvent (event : E).
Arguments OutCommand {M E} _.
Arguments OutEvent {M E} _.

(** [OutboundQueue]: what was pushed, in order.  The queue of the code is polled in
    any order. *)
Definition push_ready {M E} (outbound : list (BehaviorOutput M E)) (out : BehaviorOutput M E) :
    list (BehaviorOutput M E) := outbound ++ [out].
