(* ===== verification/AnyMessage.v ===== *)
(** * The message type of the node-to-node behaviors

    [pallas-network2/src/behavior/mod.rs]: the sum of all mini-protocol messages,
    its payloads and channels, the decoding of a message from a buffer, and the
    negotiated version. *)
From S2P Require Import Prelude Cbor Rfc8949 Protocol Network Chainsync Blockfetch.
From S2P Require Import Keepalive Txsubmission Peersharing Handshake HandshakeVersions.
From S2P Require Import LeiosProtocols.

(** [accepted_version] and [supports_leios]. *)
Definition accepted_version {D} (s : handshake.State.t D) : option Z :=
  match s with
  | handshake.State.Done (handshake.DoneState.Accepted num _) => Some num
  | _ => None
  end.

Definition supports_leios {D} (s : handshake.State.t D) : bool :=
  match accepted_version s with
  | Some v => n2n.LEIOS_MIN_VERSION <=? v
  | None => false
  end.

Module AnyMessage.
Inductive t :=
| Handshake (msg : handshake.Message.t n2n.VersionData)
| KeepAlive (msg : keepalive.Message.t)
| ChainSync (msg : chainsync.Message.t chainsync.HeaderContent)
| PeerSharing (msg : peersharing.Message.t)
| BlockFetch (msg : blockfetch.Message.t)
| TxSubmission (msg : txsubmission.Message.t)
| LeiosNotify (msg : leiosnotify.Message.t)
| LeiosFetch (msg : leiosfetch.Message.t).
End AnyMessage.

(** The state of the connection with a peer. *)
Module ConnectionState.
Inductive t := New | Connecting | Connected | Initialized | Disconnected | Errored.
End ConnectionState.

#[export] Instance ConnectionState_eq_dec : EqDecision ConnectionState.t.
Proof. solve_decision. Defined.

Abbreviation BlockRange := (Point.t * Point.t)%type.
Abbreviation AcceptedVersion := (Z * n2n.VersionData)%type.

(** [AnyMessage::channel] *)
Definition any_channel (m : AnyMessage.t) : Z :=
  match m with
  | AnyMessage.Handshake _ => handshake.CHANNEL_ID
  | AnyMessage.KeepAlive _ => keepalive.CHANNEL_ID
  | AnyMessage.ChainSync _ => chainsync.CHANNEL_ID
  | AnyMessage.PeerSharing _ => peersharing.CHANNEL_ID
  | AnyMessage.BlockFetch _ => blockfetch.CHANNEL_ID
  | AnyMessage.TxSubmission _ => txsubmission.CHANNEL_ID
  | AnyMessage.LeiosNotify _ => leiosnotify.CHANNEL_ID
  | AnyMessage.LeiosFetch _ => leiosfetch.CHANNEL_ID
  end.

Section payloads.
Context `{Minicbor}.

(** Reads a message from the front of the buffer and drains what it read; the
    buffer is left alone when there is no whole message. *)
Definition try_decode_msg {T} `{Decode T} (buffer : bytes) : option T * bytes :=
  match decode buffer with
  | Ok (msg, rest) => (Some msg, rest)
  | Err _ => (None, buffer)
  end.

(** [try_decode_msg(payload).map(wrap)] *)
Definition decode_as {T} `{Decode T} (payload : bytes) (wrap : T -> AnyMessage.t) :
    option AnyMessage.t * bytes :=
  let (msg, rest) := try_decode_msg payload in (wrap <$> msg, rest).

(** [AnyMessage::payload]; [None] is the panic of [to_vec(msg).unwrap()]. *)
Definition any_payload (m : AnyMessage.t) : option bytes :=
  match m with
  | AnyMessage.Handshake msg => to_vec msg
  | AnyMessage.KeepAlive msg => to_vec msg
  | AnyMessage.ChainSync msg => to_vec msg
  | AnyMessage.PeerSharing msg => to_vec msg
  | AnyMessage.BlockFetch msg => to_vec msg
  | AnyMessage.TxSubmission msg => to_vec msg
  | AnyMessage.LeiosNotify msg => to_vec msg
  | AnyMessage.LeiosFetch msg => to_vec msg
  end.

(** [AnyMessage::from_payload], with what it leaves of the buffer. *)
Definition any_from_payload (channel : Z) (payload : bytes) : option AnyMessage.t * bytes :=
  if channel =? handshake.CHANNEL_ID then decode_as payload AnyMessage.Handshake
  else if channel =? keepalive.CHANNEL_ID then decode_as payload AnyMessage.KeepAlive
  else if channel =? chainsync.CHANNEL_ID then decode_as payload AnyMessage.ChainSync
  else if channel =? peersharing.CHANNEL_ID then decode_as payload AnyMessage.PeerSharing
  else if channel =? blockfetch.CHANNEL_ID then decode_as payload AnyMessage.BlockFetch
  else if channel =? txsubmission.CHANNEL_ID then decode_as payload AnyMessage.TxSubmission
  else if channel =? leiosnotify.CHANNEL_ID then decode_as payload AnyMessage.LeiosNotify
  else if channel =? leiosfetch.CHANNEL_ID then decode_as payload AnyMessage.LeiosFetch
  else (None, []).

#[export] Instance AnyMessage_message : Message AnyMessage.t := {
  channel := any_channel;
  payload := any_payload;
  from_payload := any_from_payload
}.

(** The values of the Rust type for which [payload] does not panic: a Byron
    header must come with its prefix. *)
Definition any_valid (m : AnyMessage.t) : Prop :=
  match m with
  | AnyMessage.Handshake msg => valid msg
  | AnyMessage.KeepAlive msg => valid msg
  | AnyMessage.ChainSync msg =>
      valid msg /\
      match msg with
      | chainsync.Message.RollForward h _ => chainsync.variant h = 0 -> is_Some (chainsync.byron_prefix h)
      | _ => True
      end
  | AnyMessage.PeerSharing msg => valid msg
  | AnyMessage.BlockFetch msg => valid msg
  | AnyMessage.TxSubmission msg => valid msg
  | AnyMessage.LeiosNotify msg => valid msg
  | AnyMessage.LeiosFetch msg => valid msg
  end.
End payloads.

(** ** Encoders that never fail *)
Class TotalEncode (A : Type) `{Encode A} : Prop := encode_total (x : A) : is_Some (encode x).

Lemma encode_all_total {A} `{TotalEncode A} (xs : list A) : is_Some (enc_all (encode <$> xs)).
Proof. apply enc_all_is_Some, Forall_fmap, list.Forall_forall. intros x _. apply encode_total. Qed.

Ltac solve_total :=
  repeat first
    [ by eexists
    | apply encode_all_total
    | apply encode_total
    | apply enc_app_is_Some ].

(** Unfolds the encoder of a value and proves that each of its cases writes. *)
Tactic Notation "total_encode" reference(e) :=
  intros x; unfold encode; unfold e; destruct x; solve_total.

Section total.
Context `{Minicbor}.

#[export] Instance Point_total : TotalEncode Point.t.
Proof. total_encode Point_encode. Qed.
#[export] Instance AnyCbor_total : TotalEncode AnyCbor.
Proof. total_encode AnyCbor_encode. Qed.
#[export] Instance CborWrap_total {T} `{TotalEncode T} : TotalEncode (CborWrap T).
Proof.
  intros [x]. unfold encode; unfold CborWrap_encode, to_vec; cbn.
  destruct (encode_total x) as [b ->]. solve_total.
Qed.
#[export] Instance Tip_total : TotalEncode chainsync.Tip.
Proof. total_encode chainsync.Tip_encode. Qed.
#[export] Instance keepalive_total : TotalEncode keepalive.Message.t.
Proof. total_encode keepalive.Message_encode. Qed.
#[export] Instance PeerAddress_total : TotalEncode peersharing.PeerAddress.t.
Proof. total_encode peersharing.PeerAddress_encode. Qed.
#[export] Instance peersharing_total : TotalEncode peersharing.Message.t.
Proof. total_encode peersharing.Message_encode. Qed.
#[export] Instance blockfetch_total : TotalEncode blockfetch.Message.t.
Proof. total_encode blockfetch.Message_encode. Qed.
#[export] Instance EraTxId_total : TotalEncode txsubmission.EraTxId.
Proof. total_encode txsubmission.EraTxId_encode. Qed.
#[export] Instance EraTxBody_total : TotalEncode txsubmission.EraTxBody.
Proof. total_encode txsubmission.EraTxBody_encode. Qed.
#[export] Instance TxIdAndSize_total {T} `{TotalEncode T} : TotalEncode (txsubmission.TxIdAndSize T).
Proof. total_encode txsubmission.TxIdAndSize_encode. Qed.
#[export] Instance txsubmission_total : TotalEncode txsubmission.Message.t.
Proof. total_encode txsubmission.Message_encode. Qed.
#[export] Instance leiosnotify_total : TotalEncode leiosnotify.Message.t.
Proof. total_encode leiosnotify.Message_encode. Qed.
#[export] Instance Bitmaps_total : TotalEncode leiosfetch.Bitmaps.
Proof.
  total_encode leiosfetch.Bitmaps_encode.
  apply enc_all_is_Some, Forall_fmap, list.Forall_forall. intros k _.
  unfold compose, leiosfetch.encode_window. solve_total.
Qed.
#[export] Instance leiosfetch_total : TotalEncode leiosfetch.Message.t.
Proof. total_encode leiosfetch.Message_encode. rewrite leiosfetch.wrapped_txs. solve_total. Qed.
#[export] Instance RefuseReason_total : TotalEncode handshake.RefuseReason.t.
Proof. total_encode handshake.RefuseReason_encode. apply enc_all_is_Some, Forall_fmap, list.Forall_forall.
  intros. by eexists. Qed.
#[export] Instance n2n_VersionData_total : TotalEncode n2n.VersionData.
Proof. intros x. apply n2n_encode_total. Qed.
#[export] Instance VersionTable_total {T} `{TotalEncode T} : TotalEncode (handshake.VersionTable T).
Proof. intros t. apply handshake.VersionTable_is_Some, encode_total. Qed.
#[export] Instance handshake_total {T} `{TotalEncode T} : TotalEncode (handshake.Message.t T).
Proof. total_encode handshake.Message_encode. Qed.

(** A header is written unless it is a Byron header without its prefix. *)
Lemma header_total (h : chainsync.HeaderContent) :
  (chainsync.variant h = 0 -> is_Some (chainsync.byron_prefix h)) <-> is_Some (encode h).
Proof.
  unfold encode; unfold chainsync.HeaderContent_encode. destruct (Z.eqb_spec (chainsync.variant h) 0) as [E|E].
  - destruct (chainsync.byron_prefix h) as [[a b]|].
    + split; intros; [solve_total|eauto].
    + split; [intros Hs; by destruct (Hs E)|].
      unfold enc_app. by intros [? [=]].
  - split; intros; [solve_total|done].
Qed.

(** The messages that can be written. *)
Definition writable (m : AnyMessage.t) : Prop :=
  match m with
  | AnyMessage.ChainSync (chainsync.Message.RollForward h _) =>
      chainsync.variant h = 0 -> is_Some (chainsync.byron_prefix h)
  | _ => True
  end.

Lemma any_payload_writable m : writable m <-> is_Some (any_payload m).
Proof.
  destruct m as [m|m|m|m|m|m|m|m]; cbn [any_payload writable]; unfold to_vec;
    try (split; intros _; [apply encode_total|done]).
  unfold encode; unfold chainsync.Message_encode.
  destruct m as [| |h tip| | | | |]; try (split; intros _; [by solve_total|done]).
  rewrite header_total. split.
  - intros Hh. do 2 (apply enc_app_is_Some; [by eexists|]).
    apply enc_app_is_Some; [done|apply encode_total].
  - intros [b (? & ? & _ & (? & ? & _ & (x & ? & -> & _)%enc_app_Some & _)%enc_app_Some & _)%enc_app_Some].
    by eexists.
Qed.

Lemma any_payload_total m : any_valid m -> is_Some (any_payload m).
Proof.
  intros Hv. apply any_payload_writable.
  destruct m as [m|m|m|m|m|m|m|m]; try done. destruct m; try done. by destruct Hv.
Qed.
End total.

(** ** The laws the transport relies on *)
Section laws.
Context `{ML : MinicborLaws}.

Lemma decode_as_read {T} `{Codec T} (wrap : T -> AnyMessage.t) x b rest :
  valid x -> encode x = Some b -> decode_as (b ++ rest) wrap = (Some (wrap x), rest).
Proof. intros Hv He. unfold decode_as, try_decode_msg. by rewrite (codec_parses x Hv b rest He). Qed.

Lemma decode_as_partial {T} `{Codec T} (wrap : T -> AnyMessage.t) x p s :
  valid x -> encode x = Some (p ++ s) -> s <> [] -> decode_as p wrap = (None, p).
Proof.
  intros Hv He Hs. unfold decode_as, try_decode_msg.
  pose proof (codec_parses x Hv _ [] He) as Hd. rewrite app_nil_r in Hd.
  pose proof (Stable_prefix_fails _ _ _ _ codec_stable Hd Hs) as Hp.
  by destruct (decode p).
Qed.

Lemma decode_as_consumes {T} `{Decode T} (wrap : T -> AnyMessage.t) b m r :
  Consumes (decode (A := T)) -> decode_as b wrap = (Some m, r) -> (length r < length b)%nat.
Proof.
  intros Hc. unfold decode_as, try_decode_msg. destruct (decode b) as [[x rest]|] eqn:E; [|done].
  intros [= _ <-]. by eapply Hc.
Qed.

(** Every message decoder starts by reading an array header. *)
Lemma array_first {A} (k : option Z -> dec A) : (forall a, Stable (k a)) -> Consumes (d_array ≫= k).
Proof. apply Consumes_bind, array_consumes. Qed.

Lemma any_consumes c b m r : any_from_payload c b = (Some m, r) -> (length r < length b)%nat.
Proof.
  unfold any_from_payload.
  repeat case_match; try done; apply decode_as_consumes; unfold decode;
    [unfold handshake.Message_decode|unfold keepalive.Message_decode|unfold chainsync.Message_decode
    |unfold peersharing.Message_decode|unfold blockfetch.Message_decode
    |unfold txsubmission.Message_decode|unfold leiosnotify.Message_decode
    |unfold leiosfetch.Message_decode]; apply array_first; solve_stable.
Qed.

Lemma decode_as_Some {T} `{Decode T} (wrap : T -> AnyMessage.t) b m r :
  decode_as b wrap = (Some m, r) -> exists x, m = wrap x.
Proof. unfold decode_as. destruct (try_decode_msg b) as [[x|] ?]; intros [= <- _]; eauto. Qed.

Lemma any_decoded_channel c b m r : any_from_payload c b = (Some m, r) -> any_channel m = c.
Proof.
  unfold any_from_payload.
  repeat match goal with |- context [?x =? ?y] => destruct (Z.eqb_spec x y) as [->|_] end;
    [intros [x ->]%decode_as_Some; done..|done].
Qed.

Lemma any_from_empty c : any_from_payload c [] = (None, []).
Proof.
  destruct (any_from_payload c []) as [[m|] r] eqn:E; [apply any_consumes in E; simpl in E; lia|].
  revert E. unfold any_from_payload, decode_as, try_decode_msg. by repeat case_match; intros; simplify_eq/=.
Qed.

Lemma any_read m b rest :
  any_valid m -> any_payload m = Some b -> any_from_payload (any_channel m) (b ++ rest) = (Some m, rest).
Proof.
  intros Hv Hb. destruct m; cbn in *; unfold any_from_payload; cbn; destruct_and?; by apply decode_as_read.
Qed.

Lemma any_partial m p s :
  any_valid m -> any_payload m = Some (p ++ s) -> s <> [] ->
  any_from_payload (any_channel m) p = (None, p).
Proof.
  intros Hv Hb Hs. destruct m; cbn in *; unfold any_from_payload; cbn; destruct_and?;
    by eapply decode_as_partial.
Qed.

#[export, refine] Instance AnyMessage_laws : MessageLaws AnyMessage.t := { sendable := any_valid }.
Proof.
  - intros []; done.
  - apply any_payload_total.
  - apply any_read.
  - apply any_partial.
  - apply any_from_empty.
  - apply any_decoded_channel.
  - apply any_consumes.
Defined.
End laws.

(** ** Properties *)

(** C5: Every message of every mini-protocol is read back from its payload,
    whatever follows it in the buffer, and a payload cut short anywhere is left in
    the buffer untouched until the rest arrives. *)
Theorem any_message_roundtrip `{ML : MinicborLaws} m rest :
  any_valid m ->
  exists b, any_payload m = Some b /\
    any_from_payload (any_channel m) (b ++ rest) = (Some m, rest) /\
    forall p s, b = p ++ s -> s <> [] -> any_from_payload (any_channel m) p = (None, p).
Proof.
  intros Hv. destruct (any_payload_total m Hv) as [b Hb]. exists b. split_and!; [done|..].
  - by apply any_read.
  - intros p s -> Hs. by eapply any_partial.
Qed.

Lemma any_message_roundtrip_witness :
  any_from_payload (H := rfc8949) 8 [130; 0; 25; 1; 44; 7] =
    (Some (AnyMessage.KeepAlive (keepalive.Message.KeepAlive 300)), [7]).
Proof.
  destruct (any_message_roundtrip (ML := rfc8949_laws)
    (AnyMessage.KeepAlive (keepalive.Message.KeepAlive 300)) [7] ltac:(by cbv)) as (b & [= <-] & H & _).
  exact H.
Defined.

(** Writing a message panics exactly for a chain-sync roll-forward whose header
    is of the Byron variant and lacks the Byron prefix. *)
Theorem any_payload_panics `{Minicbor} m :
  any_payload m = None <->
  exists h tip, m = AnyMessage.ChainSync (chainsync.Message.RollForward h tip) /\
    chainsync.variant h = 0 /\ chainsync.byron_prefix h = None.
Proof.
  rewrite eq_None_not_Some, <- any_payload_writable. split.
  - intros Hw. destruct m as [m|m|m|m|m|m|m|m]; try (by destruct Hw).
    destruct m as [| |h tip| | | | |]; try (by destruct Hw). exists h, tip. split; [done|].
    cbn in Hw. destruct (chainsync.byron_prefix h); [destruct Hw; by eexists|].
    split; [|done]. destruct (decide (chainsync.variant h = 0)); [done|by destruct Hw].
  - intros (h & tip & -> & Hv & Hp). cbn. rewrite Hp. intros Hs. by destruct (Hs Hv).
Qed.
