(* ===== verification/Bearer.v ===== *)
(** * The bearer: messages as multiplexed segments

    [pallas-network2/src/bearer.rs]: segment headers, the writing of a message as
    segments and the reassembly of messages from the segments read, with the
    buffers of what is incomplete.  The byte orders of the crate byteorder and the
    connection of the crate tokio are the interfaces [NetworkEndian] and
    [Connection]. *)
From S2P Require Import Prelude Cbor Rfc8949 Protocol Network Chainsync Keepalive AnyMessage.

(** ** Interfaces to third-party code *)

(** [byteorder::NetworkEndian] on slices of the right length. *)
Class NetworkEndian := {
  read_u32 : bytes -> Z;
  read_u16 : bytes -> Z;
  write_u32 : Z -> bytes;
  write_u16 : Z -> bytes;
  read_write_u32 n : in_u 32 n -> read_u32 (write_u32 n) = n;
  read_write_u16 n : in_u 16 n -> read_u16 (write_u16 n) = n;
  length_write_u32 n : length (write_u32 n) = 4%nat;
  length_write_u16 n : length (write_u16 n) = 2%nat
}.

Inductive io_error := UnexpectedEof | IoOther (msg : string).

(** A tokio connection, seen by what was written to it and not yet read. *)
Class Connection (P : Type) := {
  read_exact : nat -> P -> result io_error (bytes * P);
  write_all : bytes -> P -> result io_error P;
  flush : P -> result io_error P;
  pending : P -> bytes;
  read_exact_pending x rest p :
    pending p = x ++ rest -> exists p', read_exact (length x) p = Ok (x, p') /\ pending p' = rest;
  write_all_pending x p p' : write_all x p = Ok p' -> pending p' = pending p ++ x;
  flush_pending p p' : flush p = Ok p' -> pending p' = pending p
}.

(** ** Headers *)
Definition HEADER_LEN : nat := 8.

Record Header := { protocol : Z; timestamp : Z; payload_len : Z }.

Section bearer.
Context `{NetworkEndian}.

(** [&value[i..j]] *)
Definition slice (i j : nat) (value : bytes) : bytes := take (j - i) (drop i value).

Definition Header_from (value : bytes) : Header :=
  let timestamp := read_u32 (slice 0 4 value) in
  let protocol := read_u16 (slice 4 6 value) in
  let payload_len := read_u16 (slice 6 8 value) in
  {| timestamp := timestamp; protocol := protocol; payload_len := payload_len |}.

Definition Header_into (value : Header) : bytes :=
  write_u32 (timestamp value) ++ write_u16 (protocol value) ++ write_u16 (payload_len value).

Context `{Connection P} `{Message M}.

(** ** Writing *)
Definition write_segment (protocol timestamp : Z) (payload : bytes) (p : P) : result io_error P :=
  let header := {| protocol := protocol; timestamp := timestamp;
                   payload_len := Z.of_nat (length payload) mod 2 ^ 16 |} in
  let buf := Header_into header in
  p ← write_all buf p;
  p ← write_all payload p;
  p ← flush p;
  Ok p.

Fixpoint write_chunks (channel timestamp : Z) (chunks : list bytes) (p : P) : result io_error P :=
  match chunks with
  | [] => Ok p
  | chunk :: chunks =>
      p ← write_segment channel timestamp chunk p;
      write_chunks channel timestamp chunks p
  end.

(** [None]: the panic of encoding the message. *)
Definition write_message (msg : M) (timestamp mode : Z) (p : P) : option (result io_error P) :=
  '(channel, chunks) ← into_chunks msg;
  let channel := Z.lor channel mode in
  Some (write_chunks channel timestamp chunks p).

(** ** Reading *)
Definition read_segment (p : P) : result io_error (Z * bytes * P) :=
  '(buf, p) ← read_exact HEADER_LEN p;
  let header := Header_from buf in
  let segment_size := Z.to_nat (payload_len header) in
  '(buf, p) ← read_exact segment_size p;
  Ok (protocol header, buf, p).

(** [raw_channel & !PROTOCOL_SERVER], on a [u16]. *)
Definition channel_of (raw_channel : Z) : Z := Z.land raw_channel (Z.lxor PROTOCOL_SERVER 0xFFFF).

(** [while let Some(msg) = M::from_payload(channel, &mut payload)]: the fuel is
    one more than the bytes left, as every message read consumes some
    ([read_loop_done]). *)
Fixpoint read_loop (fuel : nat) (channel : Z) (payload : bytes) : list M * bytes :=
  match fuel with
  | O => ([], payload)
  | S fuel =>
      match from_payload channel payload with
      | (Some msg, payload) =>
          let (msgs, payload) := read_loop fuel channel payload in (msg :: msgs, payload)
      | (None, payload) => ([], payload)
      end
  end.
Definition read_msgs (channel : Z) (payload : bytes) : list M * bytes :=
  read_loop (S (length payload)) channel payload.

(** What [read_full_msgs] does with a segment it has read. *)
Definition accept_segment (partial_chunks : gmap Z bytes) (raw_channel : Z) (chunk : bytes) :
    list M * gmap Z bytes :=
  let channel := channel_of raw_channel in
  let previous := partial_chunks !! channel in
  let partial_chunks := delete channel partial_chunks in
  let payload :=
    match previous with
    | Some x => x ++ chunk
    | None => chunk
    end in
  let (msgs, payload) := read_msgs channel payload in
  match payload with
  | [] => (msgs, partial_chunks)
  | _ => (msgs, <[channel := payload]> partial_chunks)
  end.

Definition read_full_msgs (partial_chunks : gmap Z bytes) (p : P) :
    result io_error (list M * gmap Z bytes * P) :=
  '(raw_channel, chunk, p) ← read_segment p;
  Ok (accept_segment partial_chunks raw_channel chunk, p).
End bearer.

(** ** The reading loop *)
Section loop.
Context `{MessageLaws M}.

Lemma read_loop_done fuel c b :
  (length b < fuel)%nat ->
  exists ms r r', read_loop fuel c b = (ms, r') /\ from_payload c r = (None (A := M), r').
Proof.
  revert b; induction fuel as [|fuel IH]; intros b Hb; [lia|]. cbn [read_loop].
  destruct (from_payload c b) as [[m|] r] eqn:E; [|by eauto].
  pose proof (from_payload_consumes _ _ _ _ E). destruct (IH r ltac:(lia)) as (ms & r1 & r2 & -> & Hr).
  by eauto.
Qed.

Lemma read_loop_channel fuel c b ms r :
  read_loop fuel c b = (ms, r) -> Forall (fun m : M => channel m = c) ms.
Proof.
  revert b ms r; induction fuel as [|fuel IH]; intros b ms r; cbn [read_loop]; [by intros [= <- _]|].
  destruct (from_payload c b) as [[m|] b'] eqn:E; [|by intros [= <- _]].
  destruct (read_loop fuel c b') as [ms' r'] eqn:E'. intros [= <- _].
  constructor; [by eapply from_payload_channel|by eapply IH].
Qed.

(** Messages that travel on channel [c]. *)
Definition on_channel (c : Z) (m : M) : Prop := channel m = c /\ sendable m.

(** The bytes of a sequence of messages. *)
Definition wire (ms : list M) : bytes := concat ((fun m => default [] (payload m)) <$> ms).

Lemma wire_cons m ms w : payload m = Some w -> wire (m :: ms) = w ++ wire ms.
Proof. intros Hw. unfold wire. cbn. by rewrite Hw. Qed.

Lemma wire_app ms1 ms2 : wire (ms1 ++ ms2) = wire ms1 ++ wire ms2.
Proof. unfold wire. by rewrite fmap_app, concat_app. Qed.

(** What is left of a message that has not arrived completely. *)
Definition incomplete (r : bytes) (ms : list M) : Prop :=
  match ms with
  | [] => r = []
  | m :: _ => exists s, default [] (payload m) = r ++ s /\ s <> []
  end.

Lemma prefix_split {A} (a b c d : list A) :
  a ++ b = c ++ d -> (exists e, a = c ++ e /\ d = e ++ b) \/ (exists e, c = a ++ e /\ b = e ++ d /\ e <> []).
Proof.
  revert c; induction a as [|x a IH]; intros c Heq.
  - simpl in Heq. subst b. destruct c as [|y c]; [left; by exists []|right; by exists (y :: c)].
  - destruct c as [|y c]; simplify_eq/=; [left; by exists (x :: a)|].
    destruct (IH c) as [(e & -> & ->)|(e & -> & -> & He)]; [done|left|right]; by exists e.
Qed.

(** Reading a prefix of the bytes of [ms] gives the messages that have arrived
    and leaves the beginning of the next one. *)
Lemma read_loop_prefix fuel c b ms tl :
  (length b < fuel)%nat -> Forall (on_channel c) ms -> b ++ tl = wire ms ->
  exists ms1 ms2 r, ms = ms1 ++ ms2 /\ read_loop fuel c b = (ms1, r) /\
    r ++ tl = wire ms2 /\ incomplete r ms2.
Proof.
  revert b ms; induction fuel as [|fuel IH]; intros b ms Hb Hms Heq; [lia|].
  cbn [read_loop]. destruct ms as [|m ms].
  - apply app_eq_nil in Heq as [-> ->]. exists [], [], []. by rewrite from_payload_empty.
  - apply Forall_cons in Hms as [[Hc Hm] Hms]. destruct (payload_total m Hm) as [w Hw].
    rewrite (wire_cons _ _ _ Hw) in Heq.
    destruct (prefix_split _ _ _ _ Heq) as [(e & -> & He)|(e & -> & -> & He)].
    + rewrite <- Hc, (payload_read m w e Hm Hw), Hc.
      pose proof (payload_read m w e Hm Hw) as Hr. apply from_payload_consumes in Hr.
      destruct (IH e ms) as (ms1 & ms2 & r & -> & -> & Hr' & Hi); [lia|done|done|].
      by exists (m :: ms1), ms2, r.
    + rewrite <- Hc, (payload_partial m b e Hm Hw He). exists [], (m :: ms), b.
      split_and!; [done|done|by rewrite (wire_cons _ _ _ Hw), <- app_assoc|].
      exists e. by rewrite Hw.
Qed.

Lemma read_msgs_prefix c b ms tl :
  Forall (on_channel c) ms -> b ++ tl = wire ms ->
  exists ms1 ms2 r, ms = ms1 ++ ms2 /\ read_msgs c b = (ms1, r) /\
    r ++ tl = wire ms2 /\ incomplete r ms2.
Proof. apply read_loop_prefix. lia. Qed.
End loop.

(** ** Reassembly

    The segments of all channels are read one after the other. *)
Section reassembly.
Context `{MessageLaws M}.

Fixpoint accept_segments (partial_chunks : gmap Z bytes) (segs : list (Z * bytes)) :
    list M * gmap Z bytes :=
  match segs with
  | [] => ([], partial_chunks)
  | (raw_channel, chunk) :: segs =>
      let (msgs, partial_chunks) := accept_segment partial_chunks raw_channel chunk in
      let (msgs', partial_chunks) := accept_segments partial_chunks segs in
      (msgs ++ msgs', partial_chunks)
  end.

(** The bytes the segments carry for a channel. *)
Definition stream (c : Z) (segs : list (Z * bytes)) : bytes :=
  concat (snd <$> filter (fun s => channel_of s.1 = c) segs).

Definition on (c : Z) (ms : list M) : list M := filter (fun m => channel m = c) ms.

Lemma stream_cons c raw chunk segs :
  stream c ((raw, chunk) :: segs) = (if decide (channel_of raw = c) then chunk else []) ++ stream c segs.
Proof. unfold stream. rewrite filter_cons. simpl. by destruct (decide _). Qed.

Lemma stream_same c raw cs : channel_of raw = c -> stream c (pair raw <$> cs) = concat cs.
Proof.
  intros Hc. induction cs as [|x cs IH]; [done|]. cbn [fmap list_fmap concat].
  rewrite stream_cons, decide_True by done. by rewrite <- IH.
Qed.

Lemma on_all c ms : Forall (fun m => channel m = c) ms -> on c ms = ms.
Proof. intros Hc. unfold on. induction Hc; [done|]. by rewrite filter_cons_True, IHHc. Qed.

Lemma on_none c c' ms : c <> c' -> Forall (fun m => channel m = c') ms -> on c ms = [].
Proof. intros Hne Hc. unfold on. induction Hc as [|m ms Hm _ IH]; [done|].
  rewrite filter_cons_False by congruence. exact IH. Qed.

(** What [accept_segment] does to the channel of the segment and to the others. *)
Lemma accept_segment_other (partial : gmap Z bytes) raw chunk c msgs partial' :
  accept_segment partial raw chunk = (msgs, partial') -> channel_of raw <> c ->
  on c msgs = [] /\ partial' !! c = partial !! c.
Proof.
  unfold accept_segment. destruct (read_msgs _ _) as [ms r] eqn:E. intros Hp Hc.
  apply read_loop_channel in E.
  split; [|destruct r; injection Hp as <- <-; by rewrite ?lookup_insert_ne, ?lookup_delete_ne].
  destruct r; injection Hp as <- <-; by eapply on_none.
Qed.

Lemma accept_segment_same (partial : gmap Z bytes) raw chunk ms tl msgs partial' :
  let c := channel_of raw in
  accept_segment partial raw chunk = (msgs, partial') ->
  Forall (on_channel c) ms -> default [] (partial !! c) ++ chunk ++ tl = wire ms ->
  exists ms2, ms = msgs ++ ms2 /\ default [] (partial' !! c) ++ tl = wire ms2 /\
    incomplete (default [] (partial' !! c)) ms2 /\ partial' !! c <> Some [].
Proof.
  intros c Hacc Hms Heq. rewrite app_assoc in Heq.
  destruct (read_msgs_prefix c _ ms tl Hms Heq) as (ms1 & ms2 & r & -> & Hr & Hr' & Hi).
  unfold accept_segment in Hacc. fold c in Hacc.
  replace (match partial !! c with Some x => x ++ chunk | None => chunk end)
    with (default [] (partial !! c) ++ chunk) in Hacc by (by destruct (partial !! c)).
  rewrite Hr in Hacc. exists ms2.
  destruct r; injection Hacc as <- <-; rewrite ?lookup_delete_eq, ?lookup_insert_eq; done.
Qed.

Lemma accept_segments_channel (partial : gmap Z bytes) segs c ms msgs partial' :
  accept_segments partial segs = (msgs, partial') ->
  Forall (on_channel c) ms -> default [] (partial !! c) ++ stream c segs = wire ms ->
  incomplete (default [] (partial !! c)) ms -> partial !! c <> Some [] ->
  on c msgs = ms /\ partial' !! c = None.
Proof.
  revert partial ms msgs; induction segs as [|[raw chunk] segs IH]; intros partial ms msgs; cbn [accept_segments].
  - intros [= <- <-] Hms Heq Hi Hne. unfold stream in Heq; simpl in Heq. rewrite app_nil_r in Heq.
    destruct ms as [|m ms].
    + split; [done|]. simpl in Hi. destruct (partial !! c); [|done]. simpl in Hi. congruence.
    + destruct Hi as (s & Hs & Hne'). change (wire (m :: ms)) with (default [] (payload m) ++ wire ms) in Heq.
      rewrite Hs in Heq.
      apply (f_equal length) in Heq. rewrite !length_app in Heq. destruct s; [done|simpl in Heq; lia].
  - destruct (accept_segment partial raw chunk) as [msgs1 partial1] eqn:E1.
    destruct (accept_segments partial1 segs) as [msgs2 partial2] eqn:E2.
    intros [= <- <-] Hms Heq Hi Hne. rewrite stream_cons in Heq. unfold on. rewrite list.filter_app.
    case_decide as Hc.
    + subst c. destruct (accept_segment_same _ _ _ _ _ _ _ E1 Hms Heq) as (ms2 & -> & Heq2 & Hi2 & Hne2).
      apply Forall_app in Hms as [Hms1 Hms2].
      destruct (IH _ _ _ E2 Hms2 Heq2 Hi2 Hne2) as [Hon Hp]. split; [|done].
      f_equal; [|exact Hon]. apply on_all. eapply Forall_impl; [exact Hms1|]. by intros m [? _].
    + destruct (accept_segment_other _ _ _ c _ _ E1 Hc) as [Hon Hp].
      unfold on in Hon. rewrite Hon. apply (IH partial1); rewrite ?Hp; done.
Qed.
End reassembly.

(** ** Channels and segments on the connection *)
Lemma channel_of_lor c mode :
  in_u 15 c -> mode = PROTOCOL_CLIENT \/ mode = PROTOCOL_SERVER ->
  channel_of (Z.lor c mode) = c /\ in_u 16 (Z.lor c mode).
Proof.
  intros Hc Hm. unfold channel_of. change (Z.lxor PROTOCOL_SERVER 0xFFFF) with (Z.ones 15).
  rewrite Z.land_lor_distr_l, Z.land_ones, (Z.mod_small c) by (unfold in_u in Hc; lia).
  assert (Z.land mode (Z.ones 15) = 0) as -> by (by destruct Hm as [->| ->]).
  split; [apply Z.lor_0_r|]. destruct Hm as [->| ->].
  - rewrite Z.lor_0_r. unfold in_u in *. lia.
  - pose proof (Z.add_lor_land c PROTOCOL_SERVER) as Hs.
    pose proof (proj2 (Z.land_nonneg c PROTOCOL_SERVER) ltac:(right; done)).
    pose proof (proj2 (Z.lor_nonneg c PROTOCOL_SERVER)). unfold in_u, PROTOCOL_SERVER in *.
    split; [apply H0; lia|lia].
Qed.

Section transport.
Context `{NetworkEndian} `{Connection P} `{MessageLaws M}.

Definition segment_bytes (timestamp : Z) (s : Z * bytes) : bytes :=
  Header_into {| protocol := s.1; timestamp := timestamp; payload_len := Z.of_nat (length s.2) mod 2 ^ 16 |}
  ++ s.2.

Lemma write_segment_pending raw ts chunk p p' :
  write_segment raw ts chunk p = Ok p' -> pending p' = pending p ++ segment_bytes ts (raw, chunk).
Proof.
  unfold write_segment, mbind, result_bind.
  destruct (write_all _ p) as [p1|] eqn:E1; [|done].
  destruct (write_all chunk p1) as [p2|] eqn:E2; [|done].
  destruct (flush p2) as [p3|] eqn:E3; [|done]. intros [= <-].
  apply write_all_pending in E1, E2. apply flush_pending in E3.
  by rewrite E3, E2, E1, <- app_assoc.
Qed.

Lemma write_chunks_pending raw ts cs p p' :
  write_chunks raw ts cs p = Ok p' ->
  pending p' = pending p ++ concat (segment_bytes ts <$> (pair raw <$> cs)).
Proof.
  revert p; induction cs as [|c cs IH]; intros p; cbn [write_chunks].
  - intros [= <-]. simpl. by rewrite app_nil_r.
  - unfold mbind, result_bind. destruct (write_segment raw ts c p) as [p1|] eqn:E; [|done].
    intros ->%IH. rewrite (write_segment_pending _ _ _ _ _ E). cbn. by rewrite <- app_assoc.
Qed.

Lemma slice_header a b c :
  length a = 4%nat -> length b = 2%nat -> length c = 2%nat ->
  slice 0 4 (a ++ b ++ c) = a /\ slice 4 6 (a ++ b ++ c) = b /\ slice 6 8 (a ++ b ++ c) = c.
Proof.
  intros Ha Hb Hc. unfold slice. split_and!.
  - rewrite drop_0, take_app_le by (simpl; lia). by rewrite take_ge by (simpl; lia).
  - rewrite drop_app_ge, Ha by lia. simpl. rewrite drop_0, take_app_le by lia. by rewrite take_ge by lia.
  - rewrite app_assoc, drop_app_ge by (rewrite length_app; lia). rewrite length_app, Ha, Hb. simpl.
    by rewrite drop_0, take_ge by lia.
Qed.

(** A header is read back. *)
Lemma Header_roundtrip h :
  in_u 16 (protocol h) -> in_u 32 (timestamp h) -> in_u 16 (payload_len h) ->
  Header_from (Header_into h) = h /\ length (Header_into h) = HEADER_LEN.
Proof.
  intros Hp Ht Hl. unfold Header_from, Header_into.
  destruct (slice_header (write_u32 (timestamp h)) (write_u16 (protocol h)) (write_u16 (payload_len h)))
    as (-> & -> & ->); rewrite ?length_write_u32, ?length_write_u16; try done.
  rewrite !length_app, length_write_u32, !length_write_u16. split; [|done].
  rewrite read_write_u32, !read_write_u16 by done. by destruct h.
Qed.

Lemma read_segment_pending raw ts chunk rest p :
  in_u 16 raw -> in_u 32 ts -> Z.of_nat (length chunk) < 65536 ->
  pending p = segment_bytes ts (raw, chunk) ++ rest ->
  exists p', read_segment p = Ok (raw, chunk, p') /\ pending p' = rest.
Proof.
  intros Hr Ht Hl Hp. unfold segment_bytes in Hp. cbn [fst snd] in Hp.
  rewrite Z.mod_small in Hp by lia.
  set (h := {| protocol := raw; timestamp := ts; payload_len := Z.of_nat (length chunk) |}) in *.
  destruct (Header_roundtrip h Hr Ht) as [Hh Hlen]; [unfold in_u; simpl; lia|].
  rewrite <- app_assoc in Hp. destruct (read_exact_pending _ _ _ Hp) as (p1 & E1 & Hp1).
  destruct (read_exact_pending _ _ _ Hp1) as (p2 & E2 & Hp2).
  exists p2. split; [|done]. unfold read_segment, mbind, result_bind.
  rewrite <- Hlen, E1, Hh. unfold h at 1. cbn [payload_len]. by rewrite Nat2Z.id, E2.
Qed.

(** Reading a number of segments with [read_full_msgs]. *)
Fixpoint read_many (n : nat) (partial_chunks : gmap Z bytes) (p : P) :
    result io_error (list M * gmap Z bytes * P) :=
  match n with
  | O => Ok ([], partial_chunks, p)
  | S n =>
      '(msgs, partial_chunks, p) ← read_full_msgs partial_chunks p;
      '(msgs', partial_chunks, p) ← read_many n partial_chunks p;
      Ok (msgs ++ msgs', partial_chunks, p)
  end.

Lemma read_many_segments ts segs partial rest p :
  in_u 32 ts -> Forall (fun s => in_u 16 s.1 /\ Z.of_nat (length s.2) < 65536) segs ->
  pending p = concat (segment_bytes ts <$> segs) ++ rest ->
  exists p', read_many (length segs) partial p = Ok (accept_segments partial segs, p') /\ pending p' = rest.
Proof.
  intros Ht. revert partial p; induction segs as [|[raw chunk] segs IH]; intros partial p Hs Hp; cbn [length read_many].
  - by exists p.
  - apply Forall_cons in Hs as [[Hr Hl] Hs]. cbn in Hp. rewrite <- app_assoc in Hp.
    destruct (read_segment_pending _ _ _ _ _ Hr Ht Hl Hp) as (p1 & E1 & Hp1).
    cbn [fst snd] in *. unfold read_full_msgs, mbind, result_bind. rewrite E1. cbn [accept_segments].
    destruct (accept_segment partial raw chunk) as [ms1 partial1].
    destruct (IH partial1 p1 Hs Hp1) as (p2 & E2 & Hp2). exists p2. split; [|done].
    rewrite E2. by destruct (accept_segments partial1 segs).
Qed.
End transport.

Section messages.
Context `{NetworkEndian} `{Connection P} `{MessageLaws M}.

(** Writing messages one after the other, each with its timestamp and mode. *)
Fixpoint write_messages (ms : list (M * (Z * Z))) (p : P) : option (result io_error P) :=
  match ms with
  | [] => Some (Ok p)
  | (m, (ts, mode)) :: ms =>
      match write_message m ts mode p with
      | Some (Ok p) => write_messages ms p
      | r => r
      end
  end.

Definition well_sent (x : M * (Z * Z)) : Prop :=
  let '(m, (ts, mode)) := x in
  sendable m /\ in_u 32 ts /\ (mode = PROTOCOL_CLIENT \/ mode = PROTOCOL_SERVER).

Lemma accept_all_other segs (partial : gmap Z bytes) raw msgs partial' :
  accept_segments partial (pair raw <$> segs) = (msgs, partial') ->
  Forall (fun m => channel m = channel_of raw) msgs /\
  forall c, c <> channel_of raw -> partial' !! c = partial !! c.
Proof.
  revert partial msgs; induction segs as [|chunk segs IH]; intros partial msgs; cbn [fmap list_fmap accept_segments].
  - intros [= <- <-]. by split; [constructor|].
  - destruct (accept_segment partial raw chunk) as [ms1 p1] eqn:E1.
    destruct (accept_segments p1 _) as [ms2 p2] eqn:E2. intros [= <- <-].
    destruct (IH _ _ E2) as [Hf Hp]. split.
    + apply Forall_app; split; [|done]. unfold accept_segment in E1.
      destruct (read_msgs _ _) as [ms r] eqn:Er. apply read_loop_channel in Er. by destruct r; injection E1 as <- _.
    + intros c Hc. rewrite Hp by done. by eapply accept_segment_other.
Qed.

(** The segments of one message give back the message and leave no trace. *)
Lemma accept_message raw (partial : gmap Z bytes) (m : M) w :
  channel_of raw = channel m -> sendable m -> payload m = Some w -> partial !! channel m = None -> w <> [] ->
  accept_segments partial (pair raw <$> chunks MAX_SEGMENT_PAYLOAD_LENGTH w) = ([m], partial).
Proof.
  intros Hraw Hm Hw Hp Hne.
  destruct (accept_segments partial _) as [msgs partial'] eqn:E.
  destruct (accept_all_other _ _ _ _ _ E) as [Hch Hoth].
  destruct (chunks_spec MAX_SEGMENT_PAYLOAD_LENGTH w) as [Hc _]; [unfold MAX_SEGMENT_PAYLOAD_LENGTH; lia|].
  destruct (accept_segments_channel _ _ (channel m) [m] _ _ E) as [Hon Hp'].
  - by repeat constructor.
  - rewrite Hp, (stream_same _ _ _ Hraw), Hc, (wire_cons _ _ _ Hw). symmetry. apply app_nil_r.
  - rewrite Hp. exists w. by rewrite Hw.
  - by rewrite Hp.
  - f_equal.
    + rewrite <- Hon. symmetry. apply on_all. by rewrite <- Hraw.
    + apply map_eq. intros c. destruct (decide (c = channel m)) as [->|Hne']; [by rewrite Hp, Hp'|].
      apply Hoth. by rewrite Hraw.
Qed.

(** An empty payload is never sent. *)
Lemma payload_nonempty (m : M) w : sendable m -> payload m = Some w -> w <> [].
Proof.
  intros Hm Hw ->. pose proof (payload_read m [] [] Hm Hw) as Hr.
  rewrite from_payload_empty in Hr. done.
Qed.

Lemma read_many_app n1 n2 (partial : gmap Z bytes) (p : P) ms1 partial1 p1 :
  read_many n1 partial p = Ok (ms1, partial1, p1) ->
  read_many (M := M) (n1 + n2) partial p =
    ('(ms2, partial2, p2) ← read_many n2 partial1 p1; Ok (ms1 ++ ms2, partial2, p2)).
Proof.
  revert partial p ms1; induction n1 as [|n1 IH]; intros partial p ms1; cbn [Nat.add read_many].
  - intros [= <- <- <-]. unfold mbind, result_bind. by destruct (read_many n2 partial p) as [[[? ?] ?]|].
  - unfold mbind, result_bind. destruct (read_full_msgs partial p) as [[[ms partial2] p2]|]; [|done].
    destruct (read_many n1 partial2 p2) as [[[ms' partial3] p3]|] eqn:E; [|done].
    intros [= <- <- <-]. rewrite (IH _ _ _ E). unfold mbind, result_bind.
    destruct (read_many n2 partial3 p3) as [[[? ?] ?]|]; [|done]. by rewrite app_assoc.
Qed.

Lemma write_messages_read ms p p' (partial : gmap Z bytes) :
  (forall m c, (m, c) ∈ ms -> partial !! channel m = None) ->
  Forall well_sent ms -> write_messages ms p = Some (Ok p') ->
  exists sent n, pending p' = pending p ++ sent /\
    forall p0 rest, pending p0 = sent ++ rest ->
      exists p1, read_many n partial p0 = Ok (ms.*1, partial, p1) /\ pending p1 = rest.
Proof.
  revert p; induction ms as [|[m [ts mode]] ms IH]; intros p Hpart Hms; cbn [write_messages].
  - intros [= <-]. exists [], 0%nat. split; [by rewrite app_nil_r|]. intros q rest Hq. by exists q.
  - apply Forall_cons in Hms as [(Hm & Hts & Hmode) Hms].
    unfold write_message, into_chunks, into_payload.
    destruct (payload_total m Hm) as [w Hw]. rewrite Hw. cbn [mbind option_bind].
    destruct (channel_of_lor (channel m) mode (channel_range m) Hmode) as [Hch H16].
    destruct (write_chunks _ ts _ p) as [p1|] eqn:E; [|done]. intros Hrest.
    destruct (IH p1) as (sent & n & Hp' & Hread); [set_solver|done|done|].
    apply write_chunks_pending in E.
    set (segs := pair (Z.lor (channel m) mode) <$> chunks MAX_SEGMENT_PAYLOAD_LENGTH w) in *.
    exists (concat (segment_bytes ts <$> segs) ++ sent), (length segs + n)%nat.
    split; [by rewrite Hp', E, <- app_assoc|]. intros q rest Hq. rewrite <- app_assoc in Hq.
    assert (Forall (fun s => in_u 16 s.1 /\ Z.of_nat (length s.2) < 65536) segs) as Hsegs.
    { unfold segs. apply Forall_fmap, list.Forall_forall. intros c Hc. split; [done|].
      destruct (chunks_spec MAX_SEGMENT_PAYLOAD_LENGTH w) as [_ Hl]; [unfold MAX_SEGMENT_PAYLOAD_LENGTH; lia|].
      rewrite list.Forall_forall in Hl. destruct (Hl c Hc). unfold MAX_SEGMENT_PAYLOAD_LENGTH in *. simpl. lia. }
    destruct (read_many_segments (M := M) ts segs partial _ q Hts Hsegs Hq) as (q1 & Hq1 & Hpq).
    assert (accept_segments partial segs = ([m], partial)) as Hacc.
    { apply accept_message with (w := w); eauto using payload_nonempty. set_solver. }
    rewrite Hacc in Hq1.
    destruct (Hread q1 rest Hpq) as (q2 & Hq2 & Hpq2). exists q2. split; [|done].
    rewrite (read_many_app _ n _ _ _ _ _ Hq1). unfold mbind, result_bind. by rewrite Hq2.
Qed.
End messages.

(** ** Concrete instances

    Big-endian byte orders and a connection that is the bytes in flight, to
    evaluate the model with. *)
#[refine] Instance big_endian : NetworkEndian := {
  read_u32 := of_be; read_u16 := of_be; write_u32 := be_bytes 4; write_u16 := be_bytes 2
}.
Proof.
  - intros n Hn. by apply of_be_be_bytes.
  - intros n Hn. by apply of_be_be_bytes.
  - intros. apply length_be_bytes.
  - intros. apply length_be_bytes.
Defined.

#[refine] Instance pipe : Connection bytes := {
  read_exact n p := if (n <=? length p)%nat then Ok (take n p, drop n p) else Err UnexpectedEof;
  write_all x p := Ok (p ++ x);
  flush p := Ok p;
  pending p := p
}.
Proof.
  - intros x rest p ->. exists rest. rewrite length_app, (proj2 (Nat.leb_le _ _)) by lia.
    by rewrite take_app_length, drop_app_length.
  - by intros x p p' [= <-].
  - by intros p p' [= <-].
Defined.

(** ** Properties *)

(** However the bytes of each channel are cut into segments and however the
    segments of the channels interleave, the reader returns on every channel
    exactly the messages whose payloads were sent there, in order, and keeps
    nothing. *)
Theorem reassembly_any_segmentation `{MessageLaws M} segs msgs partial :
  accept_segments ∅ segs = (msgs, partial) ->
  (forall c, exists ms, Forall (on_channel c) ms /\ stream c segs = wire ms) ->
  partial = ∅ /\
  forall c ms, Forall (on_channel c) ms -> stream c segs = wire ms ->
    filter (fun m : M => channel m = c) msgs = ms.
Proof.
  intros Hacc Hall.
  assert (forall c ms, Forall (on_channel c) ms -> stream c segs = wire ms ->
    on c msgs = ms /\ partial !! c = None) as Hc.
  { intros c ms Hms Hs. eapply accept_segments_channel; rewrite ?lookup_empty; try done.
    destruct ms as [|m ms]; [done|]. apply Forall_cons in Hms as [[_ Hm] _].
    destruct (payload_total m Hm) as [w Hw]. exists w. rewrite Hw. by eauto using payload_nonempty. }
  split; [|intros c ms Hms Hs; by apply Hc].
  apply map_eq. intros c. destruct (Hall c) as (ms & Hms & Hs). rewrite lookup_empty. by eapply Hc.
Qed.

(** C4: Writing any messages, on any channels and in either direction, and reading
    the connection back segment by segment returns exactly those messages in the
    order they were written, with no partial message kept and no byte left. *)
Theorem bearer_roundtrip `{NetworkEndian} `{Connection P} `{MessageLaws M} ms (p p' : P) :
  pending p = [] -> Forall well_sent ms -> write_messages (M := M) ms p = Some (Ok p') ->
  exists n p'', read_many n ∅ p' = Ok (ms.*1, ∅, p'') /\ pending p'' = [].
Proof.
  intros Hp Hms Hw.
  destruct (write_messages_read ms p p' ∅) as (sent & n & Hp' & Hread); [|done..|].
  - intros. apply lookup_empty.
  - exists n. apply Hread. rewrite Hp', Hp. simpl. by rewrite app_nil_r.
Qed.

(** A keep-alive split over two segments, interleaved with a chain-sync request cut
    in two. *)
Lemma reassembly_any_segmentation_witness :
  let m := AnyMessage.KeepAlive (keepalive.Message.KeepAlive 300) in
  let n := AnyMessage.ChainSync chainsync.Message.RequestNext in
  accept_segments (H := AnyMessage_message (H := rfc8949)) ∅
    [(32776, [130; 0]); (2, [129]); (8, [25; 1; 44]); (2, [0])] = ([m; n], ∅) /\
  filter (fun m => any_channel m = 8) [m; n] = [m].
Proof.
  intros m n. set (segs := [(32776, [130; 0]); (2, [129]); (8, [25; 1; 44]); (2, [0])]).
  assert (Hm : Forall (on_channel (H0 := AnyMessage_laws (ML := rfc8949_laws)) 8) [m])
    by (repeat constructor; by cbv).
  assert (Hn : Forall (on_channel (H0 := AnyMessage_laws (ML := rfc8949_laws)) 2) [n])
    by (repeat constructor; by cbv).
  split; [by vm_compute|].
  eapply (reassembly_any_segmentation (H0 := AnyMessage_laws (ML := rfc8949_laws)) segs [m; n] ∅);
    [by vm_compute| |exact Hm|by vm_compute].
  intros c. destruct (decide (c = 8)) as [->|H8]; [exists [m]; split; [done|by vm_compute]|].
  destruct (decide (c = 2)) as [->|H2]; [exists [n]; split; [done|by vm_compute]|].
  exists []. split; [constructor|]. unfold segs. rewrite !stream_cons, !decide_False by (intros Heq; vm_compute in Heq; congruence). done.
Defined.

Lemma bearer_roundtrip_witness :
  let ms := [(AnyMessage.KeepAlive (keepalive.Message.KeepAlive 300), (7, PROTOCOL_CLIENT));
             (AnyMessage.ChainSync chainsync.Message.RequestNext, (8, PROTOCOL_SERVER))] in
  exists n p', read_many (H1 := AnyMessage_message (H := rfc8949)) (P := bytes) n ∅
    [0; 0; 0; 7; 0; 8; 0; 5; 130; 0; 25; 1; 44; 0; 0; 0; 8; 128; 2; 0; 2; 129; 0] =
    Ok (ms.*1, ∅, p') /\ pending p' = [].
Proof.
  intros ms.
  apply (bearer_roundtrip (H2 := AnyMessage_laws (ML := rfc8949_laws)) ms []); [done| |by vm_compute].
  repeat apply Forall_cons_2; try apply Forall_nil_2; (split_and!; [by cbv|by unfold in_u|]); (by left) || (by right).
Defined.
