(* ===== verification/Unsent.v ===== *)
(** * Requests on their way to the interface

    [UnsentRequests] of [pallas-network2/src/behavior/unsent.rs]: the requests a
    behavior has pushed and whose [Sent] it has not seen, at most one per
    channel. *)
From S2P Require Import Prelude Cbor Protocol Network Chainsync Blockfetch Keepalive.
From S2P Require Import Txsubmission Peersharing Handshake LeiosProtocols AnyMessage.

Record UnsentRequests := { by_channel : gmap Z AnyMessage.t }.

Definition no_unsent : UnsentRequests := {| by_channel := ∅ |}.

(** [a == b] on payloads. *)
Definition same_bytes (a b : bytes) : bool := bool_decide (a = b).

Definition is_request (msg : AnyMessage.t) : bool :=
  match msg with
  | AnyMessage.KeepAlive (keepalive.Message.KeepAlive _)
  | AnyMessage.PeerSharing (peersharing.Message.ShareRequest _)
  | AnyMessage.BlockFetch (blockfetch.Message.RequestRange _)
  | AnyMessage.ChainSync chainsync.Message.RequestNext
  | AnyMessage.ChainSync (chainsync.Message.FindIntersect _)
  | AnyMessage.LeiosNotify leiosnotify.Message.RequestNext
  | AnyMessage.LeiosFetch (leiosfetch.Message.BlockRequest _)
  | AnyMessage.LeiosFetch (leiosfetch.Message.BlockTxsRequest _ _)
  | AnyMessage.TxSubmission (txsubmission.Message.RequestTxIds _ _ _) => true
  | _ => false
  end.

(** [None] where computing a payload panics. *)
Definition unsent_contains `{Minicbor} (u : UnsentRequests) (msg : AnyMessage.t) : option bool :=
  match by_channel u !! any_channel msg with
  | Some unsent =>
      a ← any_payload unsent;
      b ← any_payload msg;
      Some (same_bytes a b)
  | None => Some false
  end.

Definition unsent_insert (u : UnsentRequests) (msg : AnyMessage.t) : bool * UnsentRequests :=
  if negb (is_request msg) || bool_decide (is_Some (by_channel u !! any_channel msg)) then (false, u)
  else (true, {| by_channel := <[any_channel msg := msg]> (by_channel u) |}).

Definition unsent_remove (u : UnsentRequests) (channel : Z) : UnsentRequests :=
  {| by_channel := delete channel (by_channel u) |}.

(** Every entry is a request, filed under its own channel. *)
Definition unsent_wf (u : UnsentRequests) : Prop :=
  map_Forall (fun c m => any_channel m = c /\ is_request m = true) (by_channel u).

Lemma unsent_wf_empty : unsent_wf no_unsent.
Proof. apply map_Forall_empty. Qed.

Lemma unsent_insert_spec u m b u' :
  unsent_insert u m = (b, u') ->
  (b = true /\ is_request m = true /\ by_channel u !! any_channel m = None /\
   by_channel u' = <[any_channel m := m]> (by_channel u)) \/ (b = false /\ u' = u).
Proof.
  unfold unsent_insert. destruct (is_request m); simpl; [|naive_solver].
  case_bool_decide as Hc; [naive_solver|]. intros [= <- <-]. left. split_and!; try done.
  by apply eq_None_not_Some.
Qed.

Lemma unsent_insert_wf u m b u' : unsent_insert u m = (b, u') -> unsent_wf u -> unsent_wf u'.
Proof.
  intros [(_ & Hr & _ & Hu)|[_ ->]]%unsent_insert_spec Hw; [|done].
  unfold unsent_wf. rewrite Hu. by apply map_Forall_insert_2.
Qed.

Lemma unsent_remove_wf u c : unsent_wf u -> unsent_wf (unsent_remove u c).
Proof. apply map_Forall_delete. Qed.

(** Requests are always writable, so looking one up never panics unless the message
    looked for cannot be written. *)
Lemma is_request_writable m : is_request m = true -> writable m.
Proof. destruct m as [m|m|m|m|m|m|m|m]; destruct m; done. Qed.

Lemma unsent_contains_total `{Minicbor} u m : unsent_wf u -> writable m -> is_Some (unsent_contains u m).
Proof.
  intros Hu Hm. unfold unsent_contains. destruct (by_channel u !! any_channel m) as [x|] eqn:E; [|by eexists].
  destruct (Hu _ _ E) as [_ Hr]. apply is_request_writable, any_payload_writable in Hr as [a ->].
  apply any_payload_writable in Hm as [b ->]. by eexists.
Qed.

Lemma unsent_contains_self `{Minicbor} u m :
  by_channel u !! any_channel m = Some m -> is_request m = true -> unsent_contains u m = Some true.
Proof.
  intros Hu Hr. unfold unsent_contains. rewrite Hu.
  apply is_request_writable, any_payload_writable in Hr as [a ->]. simpl. unfold same_bytes.
  by rewrite bool_decide_eq_true_2.
Qed.
