(* ===== verification/InitiatorState.v ===== *)
(** * The state an initiator keeps for a peer

    [InitiatorState] of [pallas-network2/src/behavior/initiator/mod.rs] and its
    methods, among them the sending discipline of
    [pallas-network2/src/behavior/unsent.rs]. *)
From S2P Require Import Prelude Cbor Protocol Network Chainsync Blockfetch Keepalive.
From S2P Require Import Txsubmission Peersharing Handshake HandshakeVersions.
From S2P Require Import LeiosProtocols AnyMessage Unsent.

Module PromotionTag.
Inductive t := Cold | Warm | Hot | Banned.
End PromotionTag.

#[export] Instance PromotionTag_eq_dec : EqDecision PromotionTag.t.
Proof. solve_decision. Defined.

Record InitiatorState := {
  connection : ConnectionState.t;
  promotion : PromotionTag.t;
  handshake : handshake.State.t n2n.VersionData;
  keepalive : keepalive.State.t;
  peersharing : peersharing.State.t;
  blockfetch : blockfetch.State.t;
  chainsync : chainsync.State.t chainsync.HeaderContent;
  tx_submission : txsubmission.State.t;
  leios_notify : leiosnotify.State.t;
  leios_fetch : leiosfetch.State.t;
  violation : bool;
  error_count : Z;
  continue_sync : bool;
  sync_next_deferred : bool;
  unsent : UnsentRequests;
  in_flight : option BlockRange
}.

(** [InitiatorState::new], which is also its [Default]. *)
Definition new : InitiatorState := {|
  connection := ConnectionState.New;
  promotion := PromotionTag.Cold;
  handshake := handshake.default_state;
  keepalive := keepalive.default_state;
  peersharing := peersharing.default_state;
  blockfetch := blockfetch.default_state;
  chainsync := chainsync.default_state;
  tx_submission := txsubmission.default_state;
  leios_notify := leiosnotify.default_state;
  leios_fetch := leiosfetch.default_state;
  violation := false;
  error_count := 0;
  continue_sync := false;
  sync_next_deferred := false;
  unsent := no_unsent;
  in_flight := None
|}.

(** ** Assignments to one field *)
Definition set_connection (x : ConnectionState.t) (s : InitiatorState) : InitiatorState :=
  Build_InitiatorState x (promotion s) (handshake s) (keepalive s) (peersharing s)
    (blockfetch s) (chainsync s) (tx_submission s) (leios_notify s) (leios_fetch s) (violation
    s) (error_count s) (continue_sync s) (sync_next_deferred s) (unsent s) (in_flight s).
Definition set_promotion (x : PromotionTag.t) (s : InitiatorState) : InitiatorState :=
  Build_InitiatorState (connection s) x (handshake s) (keepalive s) (peersharing s)
    (blockfetch s) (chainsync s) (tx_submission s) (leios_notify s) (leios_fetch s) (violation
    s) (error_count s) (continue_sync s) (sync_next_deferred s) (unsent s) (in_flight s).
Definition set_handshake (x : handshake.State.t n2n.VersionData) (s : InitiatorState) : InitiatorState :=
  Build_InitiatorState (connection s) (promotion s) x (keepalive s) (peersharing s)
    (blockfetch s) (chainsync s) (tx_submission s) (leios_notify s) (leios_fetch s) (violation
    s) (error_count s) (continue_sync s) (sync_next_deferred s) (unsent s) (in_flight s).
Definition set_keepalive (x : keepalive.State.t) (s : InitiatorState) : InitiatorState :=
  Build_InitiatorState (connection s) (promotion s) (handshake s) x (peersharing s)
    (blockfetch s) (chainsync s) (tx_submission s) (leios_notify s) (leios_fetch s) (violation
    s) (error_count s) (continue_sync s) (sync_next_deferred s) (unsent s) (in_flight s).
Definition set_peersharing (x : peersharing.State.t) (s : InitiatorState) : InitiatorState :=
  Build_InitiatorState (connection s) (promotion s) (handshake s) (keepalive s) x
    (blockfetch s) (chainsync s) (tx_submission s) (leios_notify s) (leios_fetch s) (violation
    s) (error_count s) (continue_sync s) (sync_next_deferred s) (unsent s) (in_flight s).
Definition set_blockfetch (x : blockfetch.State.t) (s : InitiatorState) : InitiatorState :=
  Build_InitiatorState (connection s) (promotion s) (handshake s) (keepalive s) (peersharing
    s) x (chainsync s) (tx_submission s) (leios_notify s) (leios_fetch s) (violation s)
    (error_count s) (continue_sync s) (sync_next_deferred s) (unsent s) (in_flight s).
Definition set_chainsync (x : chainsync.State.t chainsync.HeaderContent) (s : InitiatorState) : InitiatorState :=
  Build_InitiatorState (connection s) (promotion s) (handshake s) (keepalive s) (peersharing
    s) (blockfetch s) x (tx_submission s) (leios_notify s) (leios_fetch s) (violation s)
    (error_count s) (continue_sync s) (sync_next_deferred s) (unsent s) (in_flight s).
Definition set_tx_submission (x : txsubmission.State.t) (s : InitiatorState) : InitiatorState :=
  Build_InitiatorState (connection s) (promotion s) (handshake s) (keepalive s) (peersharing
    s) (blockfetch s) (chainsync s) x (leios_notify s) (leios_fetch s) (violation s)
    (error_count s) (continue_sync s) (sync_next_deferred s) (unsent s) (in_flight s).
Definition set_leios_notify (x : leiosnotify.State.t) (s : InitiatorState) : InitiatorState :=
  Build_InitiatorState (connection s) (promotion s) (handshake s) (keepalive s) (peersharing
    s) (blockfetch s) (chainsync s) (tx_submission s) x (leios_fetch s) (violation s)
    (error_count s) (continue_sync s) (sync_next_deferred s) (unsent s) (in_flight s).
Definition set_leios_fetch (x : leiosfetch.State.t) (s : InitiatorState) : InitiatorState :=
  Build_InitiatorState (connection s) (promotion s) (handshake s) (keepalive s) (peersharing
    s) (blockfetch s) (chainsync s) (tx_submission s) (leios_notify s) x (violation s)
    (error_count s) (continue_sync s) (sync_next_deferred s) (unsent s) (in_flight s).
Definition set_violation (x : bool) (s : InitiatorState) : InitiatorState :=
  Build_InitiatorState (connection s) (promotion s) (handshake s) (keepalive s) (peersharing
    s) (blockfetch s) (chainsync s) (tx_submission s) (leios_notify s) (leios_fetch s) x
    (error_count s) (continue_sync s) (sync_next_deferred s) (unsent s) (in_flight s).
Definition set_error_count (x : Z) (s : InitiatorState) : InitiatorState :=
  Build_InitiatorState (connection s) (promotion s) (handshake s) (keepalive s) (peersharing
    s) (blockfetch s) (chainsync s) (tx_submission s) (leios_notify s) (leios_fetch s)
    (violation s) x (continue_sync s) (sync_next_deferred s) (unsent s) (in_flight s).
Definition set_continue_sync (x : bool) (s : InitiatorState) : InitiatorState :=
  Build_InitiatorState (connection s) (promotion s) (handshake s) (keepalive s) (peersharing
    s) (blockfetch s) (chainsync s) (tx_submission s) (leios_notify s) (leios_fetch s)
    (violation s) (error_count s) x (sync_next_deferred s) (unsent s) (in_flight s).
Definition set_sync_next_deferred (x : bool) (s : InitiatorState) : InitiatorState :=
  Build_InitiatorState (connection s) (promotion s) (handshake s) (keepalive s) (peersharing
    s) (blockfetch s) (chainsync s) (tx_submission s) (leios_notify s) (leios_fetch s)
    (violation s) (error_count s) (continue_sync s) x (unsent s) (in_flight s).
Definition set_unsent (x : UnsentRequests) (s : InitiatorState) : InitiatorState :=
  Build_InitiatorState (connection s) (promotion s) (handshake s) (keepalive s) (peersharing
    s) (blockfetch s) (chainsync s) (tx_submission s) (leios_notify s) (leios_fetch s)
    (violation s) (error_count s) (continue_sync s) (sync_next_deferred s) x (in_flight s).
Definition set_in_flight (x : option BlockRange) (s : InitiatorState) : InitiatorState :=
  Build_InitiatorState (connection s) (promotion s) (handshake s) (keepalive s) (peersharing
    s) (blockfetch s) (chainsync s) (tx_submission s) (leios_notify s) (leios_fetch s)
    (violation s) (error_count s) (continue_sync s) (sync_next_deferred s) (unsent s) x.

(** ** Events and the outbound queue *)
Inductive InitiatorEvent :=
| PeerInitialized (pid : PeerId) (version : AcceptedVersion)
| IntersectionFound (pid : PeerId) (point : Point.t) (tip : chainsync.Tip)
| BlockHeaderReceived (pid : PeerId) (header : chainsync.HeaderContent) (tip : chainsync.Tip)
| RollbackReceived (pid : PeerId) (point : Point.t) (tip : chainsync.Tip)
| BlockBodyReceived (pid : PeerId) (body : bytes)
| TxRequested (pid : PeerId) (tx_id : txsubmission.EraTxId)
| EbNotification (pid : PeerId) (notification : leiosnotify.Notification.t)
| EbFetched (pid : PeerId) (eb : Point.t) (response : leiosfetch.Response.t).

Abbreviation Output := (BehaviorOutput AnyMessage.t InitiatorEvent).

Abbreviation Outbound := (list Output).

(** ** Methods *)
Definition is_initialized (s : InitiatorState) : bool :=
  bool_decide (connection s = ConnectionState.Initialized).

Definition version (s : InitiatorState) : option n2n.VersionData :=
  match handshake s with
  | handshake.State.Done (handshake.DoneState.Accepted _ data) => Some data
  | _ => None
  end.

Definition supports_peer_sharing (s : InitiatorState) : bool :=
  let val := default 0 (v ← version s; n2n.peer_sharing v) in 0 <? val.

Definition state_supports_leios (s : InitiatorState) : bool := supports_leios (handshake s).

(** [self.x = new], or a violation when the machine refuses the message. *)
Definition store {S} (set : S -> InitiatorState -> InitiatorState) (r : result Error S)
    (s : InitiatorState) : InitiatorState :=
  match r with
  | Ok new => set new s
  | Err _ => set_violation true s
  end.

Definition apply_msg (s : InitiatorState) (msg : AnyMessage.t) : InitiatorState :=
  match msg with
  | AnyMessage.Handshake msg => store set_handshake (handshake.apply (handshake s) msg) s
  | AnyMessage.KeepAlive msg => store set_keepalive (keepalive.apply (keepalive s) msg) s
  | AnyMessage.PeerSharing msg => store set_peersharing (peersharing.apply (peersharing s) msg) s
  | AnyMessage.BlockFetch msg => store set_blockfetch (blockfetch.apply (blockfetch s) msg) s
  | AnyMessage.ChainSync msg => store set_chainsync (chainsync.apply (chainsync s) msg) s
  | AnyMessage.TxSubmission msg => store set_tx_submission (txsubmission.apply (tx_submission s) msg) s
  | AnyMessage.LeiosNotify msg => store set_leios_notify (leiosnotify.apply (leios_notify s) msg) s
  | AnyMessage.LeiosFetch msg => store set_leios_fetch (leiosfetch.apply (leios_fetch s) msg) s
  end.

Definition reset (s : InitiatorState) : InitiatorState :=
  let s := set_connection ConnectionState.New s in
  let s := set_promotion PromotionTag.Cold s in
  let s := set_handshake handshake.default_state s in
  let s := set_keepalive keepalive.default_state s in
  let s := set_peersharing peersharing.default_state s in
  let s := set_blockfetch blockfetch.default_state s in
  let s := set_chainsync chainsync.default_state s in
  let s := set_tx_submission txsubmission.default_state s in
  let s := set_leios_notify leiosnotify.default_state s in
  let s := set_leios_fetch leiosfetch.default_state s in
  let s := set_continue_sync false s in
  let s := set_sync_next_deferred false s in
  let s := set_violation false s in
  let s := set_unsent no_unsent s in
  set_in_flight None s.

(** *** The sending discipline *)
Definition can_apply (s : InitiatorState) (msg : AnyMessage.t) : bool :=
  match msg with
  | AnyMessage.KeepAlive m => is_ok (keepalive.apply (keepalive s) m)
  | AnyMessage.PeerSharing m => is_ok (peersharing.apply (peersharing s) m)
  | AnyMessage.BlockFetch m => is_ok (blockfetch.apply (blockfetch s) m)
  | AnyMessage.ChainSync m => is_ok (chainsync.apply (chainsync s) m)
  | AnyMessage.LeiosNotify m => is_ok (leiosnotify.apply (leios_notify s) m)
  | AnyMessage.LeiosFetch m => is_ok (leiosfetch.apply (leios_fetch s) m)
  | AnyMessage.Handshake _ | AnyMessage.TxSubmission _ => false
  end.

Definition try_send_request (pid : PeerId) (msg : AnyMessage.t) (s : InitiatorState) (outbound : Outbound) :
    bool * InitiatorState * Outbound :=
  if negb (can_apply s msg) then (false, s, outbound)
  else
    let (inserted, unsent') := unsent_insert (unsent s) msg in
    let s := set_unsent unsent' s in
    if negb inserted then (false, s, outbound)
    else (true, s, push_ready outbound (OutCommand (Send pid msg))).

Definition defer_sync_next (s : InitiatorState) : InitiatorState := set_sync_next_deferred true s.

Definition try_send_deferred_next (pid : PeerId) (s : InitiatorState) (outbound : Outbound) :
    bool * InitiatorState * Outbound :=
  let next := AnyMessage.ChainSync chainsync.Message.RequestNext in
  if negb (sync_next_deferred s) then (false, s, outbound)
  else
    let '(sent, s, outbound) := try_send_request pid next s outbound in
    if negb sent then (false, s, outbound)
    else (true, set_sync_next_deferred false s, outbound).

Definition take_unsent_range (s : InitiatorState) : option BlockRange * InitiatorState :=
  let removed := by_channel (unsent s) !! blockfetch.CHANNEL_ID in
  let s := set_unsent (unsent_remove (unsent s) blockfetch.CHANNEL_ID) s in
  match removed with
  | Some (AnyMessage.BlockFetch (blockfetch.Message.RequestRange range)) => (Some range, s)
  | _ => (None, s)
  end.

(** [None] where computing a payload panics. *)
Definition clear_unsent `{Minicbor} (s : InitiatorState) (msg : AnyMessage.t) : option InitiatorState :=
  contained ← unsent_contains (unsent s) msg;
  if contained && can_apply s msg
  then Some (set_unsent (unsent_remove (unsent s) (any_channel msg)) s)
  else Some s.

(** ** Lemmas *)
Lemma reset_spec s : reset s = set_error_count (error_count s) new.
Proof. by destruct s. Qed.

(** What a request that was pushed leaves behind, and a refused one. *)
Lemma try_send_request_spec pid msg s out b s' out' :
  try_send_request pid msg s out = (b, s', out') ->
  (b = true /\ can_apply s msg = true /\ is_request msg = true /\
   by_channel (unsent s) !! any_channel msg = None /\
   s' = set_unsent {| by_channel := <[any_channel msg := msg]> (by_channel (unsent s)) |} s /\
   out' = out ++ [OutCommand (Send pid msg)]) \/
  (b = false /\ s' = s /\ out' = out).
Proof.
  unfold try_send_request. destruct (can_apply s msg); simpl; [|naive_solver].
  destruct (unsent_insert (unsent s) msg) as [i u] eqn:E.
  apply unsent_insert_spec in E as [(-> & Hr & Hn & Hu)|[-> ->]]; simpl; intros [= <- <- <-].
  - left. destruct u; simpl in *; subst. done.
  - right. split_and!; [done| |done]. by destruct s.
Qed.

Lemma try_send_deferred_spec pid s out b s' out' :
  try_send_deferred_next pid s out = (b, s', out') ->
  (s' = s /\ out' = out) \/
  exists s1, s' = set_sync_next_deferred false s1 /\
    try_send_request pid (AnyMessage.ChainSync chainsync.Message.RequestNext) s out = (true, s1, out').
Proof.
  unfold try_send_deferred_next. destruct (sync_next_deferred s); simpl; [|naive_solver].
  destruct (try_send_request _ _ s out) as [[sent s1] out1] eqn:E.
  destruct sent; simpl; intros [= <- <- <-]; [eauto|].
  apply try_send_request_spec in E as [(? & _)|(_ & -> & ->)]; [done|]. by left.
Qed.

Lemma apply_msg_frame s m :
  promotion (apply_msg s m) = promotion s /\ error_count (apply_msg s m) = error_count s /\
  unsent (apply_msg s m) = unsent s /\ connection (apply_msg s m) = connection s /\
  in_flight (apply_msg s m) = in_flight s.
Proof. destruct m; cbn [apply_msg]; unfold store; by case_match. Qed.

Lemma clear_unsent_spec `{Minicbor} s m s' :
  clear_unsent s m = Some s' ->
  s' = s \/ (can_apply s m = true /\ unsent_contains (unsent s) m = Some true /\
             s' = set_unsent (unsent_remove (unsent s) (any_channel m)) s).
Proof.
  unfold clear_unsent. destruct (unsent_contains (unsent s) m) as [[]|]; simpl; [|naive_solver..].
  destruct (can_apply s m); naive_solver.
Qed.

(** ** Sub-behaviors as visitors of a peer's state

    The trait [PeerVisitor] of [pallas-network2/src/behavior/initiator/mod.rs]: a
    sub-behavior with its own state reacts to the events of a peer's life by
    changing that peer's state and pushing outputs. *)

(** The methods of the trait. *)
Inductive Hook :=
| visit_connected
| visit_disconnected
| visit_errored
| visit_discovered
| visit_inbound_msg
| visit_outbound_msg
| visit_tagged
| visit_housekeeping.

#[export] Instance Hook_eq_dec : EqDecision Hook.
Proof. solve_decision. Defined.

(** A method returns the sub-behavior, the peer's state and the queue it leaves,
    [None] when it panics. *)
Class PeerVisitor (V : Type) :=
  visit : Hook -> PeerId -> V -> InitiatorState -> Outbound -> option (V * InitiatorState * Outbound).

(** The default implementation does nothing. *)
Definition default_visit {V} (v : V) (state : InitiatorState) (outbound : Outbound) :
    option (V * InitiatorState * Outbound) := Some (v, state, outbound).

(** ** What visits preserve

    [Visits R V]: whatever a visit of [V] does, the peer's state and the queue
    before and after are related by [R]. *)
Definition step_relation : Type :=
  Hook -> PeerId -> InitiatorState -> Outbound -> InitiatorState -> Outbound -> Prop.

Class Visits (R : step_relation) (V : Type) `{PeerVisitor V} : Prop :=
  visits h pid v s out v' s' out' :
    visit h pid v s out = Some (v', s', out') -> R h pid s out s' out'.

(** [Total V]: no visit of [V] panics. *)
Class Total (V : Type) `{PeerVisitor V} : Prop :=
  visit_total h pid v s out : is_Some (visit h pid v s out).

Class Chains (R : step_relation) : Prop := {
  chain_refl h pid s out : R h pid s out s out;
  chain_trans h pid s1 out1 s2 out2 s3 out3 :
    R h pid s1 out1 s2 out2 -> R h pid s2 out2 s3 out3 -> R h pid s1 out1 s3 out3
}.
