(* ===== verification/Promotion.v ===== *)
(** * Peer promotion

    [pallas-network2/src/behavior/initiator/promotion.rs]: the sets of cold, warm,
    hot and banned peers, and the moves between them under the configured
    limits.  [usize] subtractions are checked; the metrics are not modelled. *)
From S2P Require Import Prelude Cbor Network AnyMessage InitiatorState.

Record PromotionConfig := {
  max_peers : Z;
  max_warm_peers : Z;
  max_hot_peers : Z;
  max_error_count : Z
}.

Definition default_promotion_config : PromotionConfig :=
  {| max_peers := 100; max_warm_peers := 50; max_hot_peers := 10; max_error_count := 1 |}.

Record PromotionBehavior := {
  promotion_config : PromotionConfig;
  cold_peers : gset PeerId;
  warm_peers : gset PeerId;
  hot_peers : gset PeerId;
  banned_peers : gset PeerId
}.

Definition promotion_new (config : PromotionConfig) : PromotionBehavior :=
  {| promotion_config := config; cold_peers := ∅; warm_peers := ∅; hot_peers := ∅; banned_peers := ∅ |}.

(** [HashSet::len] *)
Definition len {A} `{Countable A} (x : gset A) : Z := Z.of_nat (size x).

Section promotion.
Implicit Types b : PromotionBehavior.

Definition with_sets b cold warm hot banned : PromotionBehavior :=
  {| promotion_config := promotion_config b; cold_peers := cold; warm_peers := warm;
     hot_peers := hot; banned_peers := banned |}.

Definition total_peers b : Z := len (cold_peers b) + len (warm_peers b) + len (hot_peers b).

Definition peer_deficit b : option Z := checked_sub (max_peers (promotion_config b)) (total_peers b).
Definition required_cold_peers b : option Z :=
  checked_sub (max_peers (promotion_config b)) (total_peers b).
Definition required_warm_peers b : option Z :=
  checked_sub (max_warm_peers (promotion_config b)) (len (warm_peers b)).
Definition required_hot_peers b : option Z :=
  checked_sub (max_hot_peers (promotion_config b)) (len (hot_peers b)).

Definition promote_warm_peer (pid : PeerId) b (peer : InitiatorState) :
    PromotionBehavior * InitiatorState :=
  if bool_decide (pid ∈ warm_peers b) then
    (with_sets b (cold_peers b) (warm_peers b ∖ {[pid]}) ({[pid]} ∪ hot_peers b) (banned_peers b),
     set_promotion PromotionTag.Hot peer)
  else (b, peer).

Definition promote_cold_peer (pid : PeerId) b (peer : InitiatorState) :
    PromotionBehavior * InitiatorState :=
  if bool_decide (pid ∈ cold_peers b) then
    (with_sets b (cold_peers b ∖ {[pid]}) ({[pid]} ∪ warm_peers b) (hot_peers b) (banned_peers b),
     set_promotion PromotionTag.Warm peer)
  else (b, peer).

Definition ban_peer (pid : PeerId) b (peer : InitiatorState) : PromotionBehavior * InitiatorState :=
  (with_sets b (cold_peers b ∖ {[pid]}) (warm_peers b ∖ {[pid]}) (hot_peers b ∖ {[pid]})
     ({[pid]} ∪ banned_peers b),
   set_promotion PromotionTag.Banned peer).

Definition demote_peer (pid : PeerId) b (peer : InitiatorState) : PromotionBehavior * InitiatorState :=
  if bool_decide (pid ∈ banned_peers b) then (b, peer)
  else
    (with_sets b ({[pid]} ∪ cold_peers b) (warm_peers b ∖ {[pid]}) (hot_peers b ∖ {[pid]}) (banned_peers b),
     set_promotion PromotionTag.Cold peer).

Definition categorize_peer (pid : PeerId) b (peer : InitiatorState) :
    option (PromotionBehavior * InitiatorState) :=
  if violation peer && negb (bool_decide (pid ∈ banned_peers b)) then Some (ban_peer pid b peer)
  else if (max_error_count (promotion_config b) <? error_count peer) &&
          negb (bool_decide (pid ∈ banned_peers b)) then Some (ban_peer pid b peer)
  else
    warm ← required_warm_peers b;
    if (0 <? warm) && bool_decide (pid ∈ cold_peers b) then Some (promote_cold_peer pid b peer)
    else
      hot ← required_hot_peers b;
      if (0 <? hot) && bool_decide (pid ∈ warm_peers b) && is_initialized peer
      then Some (promote_warm_peer pid b peer)
      else Some (b, peer).

Definition on_peer_discovered (pid : PeerId) b (state : InitiatorState) :
    option (PromotionBehavior * InitiatorState) :=
  if bool_decide (pid ∈ banned_peers b) then Some (b, state)
  else
    cold ← required_cold_peers b;
    if 0 <? cold then
      Some (with_sets b ({[pid]} ∪ cold_peers b) (warm_peers b) (hot_peers b) (banned_peers b),
            set_promotion PromotionTag.Cold state)
    else Some (b, state).

#[export] Instance promotion_visitor : PeerVisitor PromotionBehavior :=
  fun h pid b state outbound =>
    match h with
    | visit_discovered =>
        '(b, state) ← on_peer_discovered pid b state; Some (b, state, outbound)
    | visit_housekeeping | visit_inbound_msg =>
        '(b, state) ← categorize_peer pid b state; Some (b, state, outbound)
    | _ => default_visit b state outbound
    end.

(** ** The invariant of the sets *)
Record promotion_inv b : Prop := {
  inv_total : total_peers b <= max_peers (promotion_config b);
  inv_warm : len (warm_peers b) <= max_warm_peers (promotion_config b);
  inv_hot : len (hot_peers b) <= max_hot_peers (promotion_config b);
  inv_banned : banned_peers b ## cold_peers b ∪ warm_peers b ∪ hot_peers b
}.

(** What the sets say of a peer's tag. *)
Record tag_inv (pid : PeerId) b (s : InitiatorState) : Prop := {
  inv_warm_tag : promotion s = PromotionTag.Warm -> pid ∈ warm_peers b;
  inv_hot_tag : promotion s = PromotionTag.Hot -> pid ∈ hot_peers b
}.

(** ** Lengths of sets *)
Lemma len_add (x : gset PeerId) pid :
  len ({[pid]} ∪ x) = len x + if bool_decide (pid ∈ x) then 0 else 1.
Proof.
  unfold len. case_bool_decide as Hin.
  - replace ({[pid]} ∪ x) with x by set_solver. lia.
  - rewrite size_union, size_singleton by set_solver. lia.
Qed.

Lemma len_remove (x : gset PeerId) pid :
  len (x ∖ {[pid]}) = len x - if bool_decide (pid ∈ x) then 1 else 0.
Proof.
  unfold len. case_bool_decide as Hin.
  - rewrite size_difference, size_singleton by set_solver.
    assert (size ({[pid]} : gset PeerId) <= size x)%nat as Hs by (apply subseteq_size; set_solver).
    rewrite size_singleton in Hs. lia.
  - replace (x ∖ {[pid]}) with x by set_solver. lia.
Qed.

Lemma len_nonneg (x : gset PeerId) : 0 <= len x.
Proof. unfold len. lia. Qed.

(** What one visit does to the sets: nothing to the other peers, and a banned
    peer stays banned. *)
Record moves (pid : PeerId) b b' : Prop := {
  moves_config : promotion_config b' = promotion_config b;
  moves_cold q : q <> pid -> q ∈ cold_peers b' <-> q ∈ cold_peers b;
  moves_warm q : q <> pid -> q ∈ warm_peers b' <-> q ∈ warm_peers b;
  moves_hot q : q <> pid -> q ∈ hot_peers b' <-> q ∈ hot_peers b;
  moves_banned q : q <> pid -> q ∈ banned_peers b' <-> q ∈ banned_peers b;
  moves_ban : pid ∈ banned_peers b -> pid ∈ banned_peers b'
}.

Lemma moves_refl pid b : moves pid b b.
Proof. by split. Qed.

(** The outcome of a visit: the new sets, and the tag it wrote, if any. *)
Record promoted (pid : PeerId) b (s : InitiatorState) b' (s' : InitiatorState) : Prop := {
  promoted_state : s' = s \/ exists t, s' = set_promotion t s;
  promoted_moves : moves pid b b';
  promoted_inv : promotion_inv b -> promotion_inv b';
  promoted_tag : promotion_inv b -> tag_inv pid b s -> tag_inv pid b' s'
}.

Ltac sets_done :=
  split; simpl; intros; set_solver.

Ltac len_done :=
  unfold total_peers in *; simpl in *; rewrite ?len_add, ?len_remove in *;
  repeat case_bool_decide; first [done | lia].

Lemma ban_peer_promoted pid b s : promoted pid b s (ban_peer pid b s).1 (ban_peer pid b s).2.
Proof.
  split; simpl.
  - right; eauto.
  - sets_done.
  - intros [Ht Hw Hh Hb]. split; [len_done..|simpl; set_solver].
  - intros _ _. by split.
Qed.

Lemma promote_cold_promoted pid b s w :
  required_warm_peers b = Some w -> 0 < w ->
  promoted pid b s (promote_cold_peer pid b s).1 (promote_cold_peer pid b s).2.
Proof.
  unfold required_warm_peers, promote_cold_peer. intros [_ ->]%checked_sub_Some Hw.
  case_bool_decide as Hc; simpl; [|split; eauto using moves_refl].
  split; simpl.
  - right; eauto.
  - sets_done.
  - intros [Ht Hwm Hh Hb]. split; [len_done..|simpl; set_solver].
  - intros _ _. split; simpl; [set_solver|done].
Qed.

Lemma promote_warm_promoted pid b s w :
  required_hot_peers b = Some w -> 0 < w ->
  promoted pid b s (promote_warm_peer pid b s).1 (promote_warm_peer pid b s).2.
Proof.
  unfold required_hot_peers, promote_warm_peer. intros [_ ->]%checked_sub_Some Hw.
  case_bool_decide as Hc; simpl; [|split; eauto using moves_refl].
  split; simpl.
  - right; eauto.
  - sets_done.
  - intros [Ht Hwm Hh Hb]. split; [len_done..|simpl; set_solver].
  - intros _ _. split; simpl; [done|set_solver].
Qed.

Lemma categorize_promoted pid b s b' s' :
  categorize_peer pid b s = Some (b', s') -> promoted pid b s b' s'.
Proof.
  unfold categorize_peer.
  destruct (violation s && _); [intros [= <- <-]; apply ban_peer_promoted|].
  destruct ((_ <? error_count s) && _); [intros [= <- <-]; apply ban_peer_promoted|].
  destruct (required_warm_peers b) as [w|] eqn:Ew; simpl; [|done].
  destruct ((0 <? w) && _) eqn:E.
  - apply andb_true_iff in E as [Hw%Z.ltb_lt _]. intros [= Heq].
    pose proof (promote_cold_promoted pid b s w Ew Hw) as Hp. by rewrite Heq in Hp.
  - destruct (required_hot_peers b) as [hot|] eqn:Eh; simpl; [|done].
    destruct (_ && is_initialized s) eqn:E'.
    + rewrite !andb_true_iff in E'. destruct E' as [[Hh%Z.ltb_lt _] _]. intros [= Heq].
      pose proof (promote_warm_promoted pid b s hot Eh Hh) as Hp. by rewrite Heq in Hp.
    + intros [= <- <-]. split; eauto using moves_refl.
Qed.

Lemma on_peer_discovered_promoted pid b s b' s' :
  promotion s = PromotionTag.Cold ->
  on_peer_discovered pid b s = Some (b', s') -> promoted pid b s b' s'.
Proof.
  unfold on_peer_discovered. intros Hs. case_bool_decide as Hb.
  - intros [= <- <-]. split; eauto using moves_refl.
  - unfold required_cold_peers. destruct (checked_sub _ _) as [c|] eqn:E; simpl; [|done].
    apply checked_sub_Some in E as [_ ->].
    destruct (0 <? _) eqn:E; intros [= <- <-]; [apply Z.ltb_lt in E|split; eauto using moves_refl].
    split; simpl; eauto.
    + sets_done.
    + intros [Ht Hw Hh Hbn]. split; [len_done..|simpl; set_solver].
    + intros _ _. by split.
Qed.

(** ** No underflow *)
Lemma required_total b : promotion_inv b ->
  is_Some (required_cold_peers b) /\ is_Some (required_warm_peers b) /\ is_Some (required_hot_peers b).
Proof.
  intros [Ht Hw Hh _]. unfold required_cold_peers, required_warm_peers, required_hot_peers.
  rewrite !checked_sub_le by done. split_and!; by eexists.
Qed.

Lemma categorize_total pid b s : promotion_inv b -> is_Some (categorize_peer pid b s).
Proof.
  intros (_ & [w Hw] & [h Hh])%required_total. unfold categorize_peer. rewrite Hw, Hh. simpl.
  repeat case_match; by eexists.
Qed.

Lemma on_peer_discovered_total pid b s : promotion_inv b -> is_Some (on_peer_discovered pid b s).
Proof.
  intros ([c Hc] & _)%required_total. unfold on_peer_discovered. rewrite Hc. simpl.
  repeat case_match; by eexists.
Qed.

Lemma promotion_new_inv config :
  0 <= max_peers config -> 0 <= max_warm_peers config -> 0 <= max_hot_peers config ->
  promotion_inv (promotion_new config).
Proof. intros. split; simpl; [done..|set_solver]. Qed.
End promotion.
