(* ===== verification/Connection.v ===== *)
(** * Connections, handshakes and keep-alives

    [pallas-network2/src/behavior/initiator/connection.rs], [handshake.rs] and
    [keepalive.rs].  The metrics are not modelled. *)
From S2P Require Import Prelude Cbor Protocol Network Keepalive Handshake.
From S2P Require Import HandshakeVersions AnyMessage Unsent InitiatorState.

(** ** Connections *)
Definition needs_connection (peer : InitiatorState) : bool :=
  match connection peer with
  | ConnectionState.Connected | ConnectionState.Connecting
  | ConnectionState.Initialized | ConnectionState.Errored => false
  | _ =>
      match promotion peer with
      | PromotionTag.Warm | PromotionTag.Hot => true
      | PromotionTag.Banned | PromotionTag.Cold => false
      end
  end.

Definition needs_disconnect (peer : InitiatorState) : bool :=
  match connection peer with
  | ConnectionState.Errored => true
  | ConnectionState.New | ConnectionState.Connecting | ConnectionState.Disconnected => false
  | ConnectionState.Connected | ConnectionState.Initialized =>
      match promotion peer with
      | PromotionTag.Cold | PromotionTag.Banned => true
      | PromotionTag.Warm | PromotionTag.Hot => false
      end
  end.

Inductive ConnectionBehavior := connection_behavior.

#[export] Instance connection_visitor : PeerVisitor ConnectionBehavior :=
  fun h pid v state outbound =>
    match h with
    | visit_housekeeping =>
        let (state, outbound) :=
          if needs_connection state then
            (set_connection ConnectionState.Connecting state, push_ready outbound (OutCommand (Connect pid)))
          else (state, outbound) in
        let outbound :=
          if needs_disconnect state then push_ready outbound (OutCommand (Disconnect pid)) else outbound in
        Some (v, state, outbound)
    | visit_errored =>
        let outbound :=
          if needs_disconnect state then push_ready outbound (OutCommand (Disconnect pid)) else outbound in
        Some (v, state, outbound)
    | _ => default_visit v state outbound
    end.

(** ** Handshakes *)
Record HandshakeBehavior := { supported_version : handshake.VersionTable n2n.VersionData }.

Definition default_handshake : HandshakeBehavior :=
  {| supported_version := {| handshake.values := collect_map [
       (13, {| n2n.network_magic := MAINNET_MAGIC; n2n.initiator_only_diffusion_mode := false;
               n2n.peer_sharing := Some 1; n2n.query := Some false |})] |} |}.

(** [None] is the panic of the assertion. *)
Definition propose_handshake (v : HandshakeBehavior) (pid : PeerId) (state : InitiatorState)
    (outbound : Outbound) : option Outbound :=
  match handshake state with
  | handshake.State.Propose =>
      let msg := handshake.Message.Propose (supported_version v) in
      Some (push_ready outbound (OutCommand (Send pid (AnyMessage.Handshake msg))))
  | _ => None
  end.

Definition check_confirmation (pid : PeerId) (state : InitiatorState) (outbound : Outbound) :
    InitiatorState * Outbound :=
  match handshake state with
  | handshake.State.Done (handshake.DoneState.Accepted num data) =>
      (set_connection ConnectionState.Initialized state,
       push_ready outbound (OutEvent (PeerInitialized pid (num, data))))
  | _ => (state, outbound)
  end.

Definition needs_handshake (peer : InitiatorState) : bool :=
  bool_decide (connection peer = ConnectionState.Connected).

#[export] Instance handshake_visitor : PeerVisitor HandshakeBehavior :=
  fun h pid v state outbound =>
    match h with
    | visit_connected =>
        outbound ← propose_handshake v pid state outbound;
        Some (v, state, outbound)
    | visit_inbound_msg =>
        let (state, outbound) :=
          if needs_handshake state then check_confirmation pid state outbound else (state, outbound) in
        Some (v, state, outbound)
    | _ => default_visit v state outbound
    end.

(** ** Keep-alives *)
Record KeepaliveBehavior := { token : Z }.

Definition default_keepalive : KeepaliveBehavior := {| token := 65535 |}.

(** [send_keepalive], the public method the visitor does not use. *)
Definition send_keepalive (v : KeepaliveBehavior) (pid : PeerId) (peer : InitiatorState)
    (outbound : Outbound) : Outbound :=
  if negb (is_initialized peer) then outbound
  else
    match keepalive peer with
    | keepalive.State.Client _ =>
        push_ready outbound (OutCommand (Send pid (AnyMessage.KeepAlive (keepalive.Message.KeepAlive (token v)))))
    | _ => outbound
    end.

#[export] Instance keepalive_visitor : PeerVisitor KeepaliveBehavior :=
  fun h pid v state outbound =>
    match h with
    | visit_housekeeping =>
        if is_initialized state then
          let msg := keepalive.Message.KeepAlive (token v) in
          let '(_, state, outbound) := try_send_request pid (AnyMessage.KeepAlive msg) state outbound in
          Some (v, state, outbound)
        else Some (v, state, outbound)
    | _ => default_visit v state outbound
    end.
