(* ===== verification/Discovery.v ===== *)
(** * Iteration over hash maps and sets

    The order in which Rust's [HashMap] and [HashSet] iterate is unspecified; all
    that is known is that every element comes once. *)
From Stdlib Require Import Ascii.
From S2P Require Import Prelude Network Cbor Protocol Peersharing Handshake.
From S2P Require Import HandshakeVersions AnyMessage Unsent InitiatorState.

Definition iteration : Type := gset PeerId -> list PeerId.

(** The orders met in one call: over the peers, over the discovered peers, and over
    the peers drained from them. *)
Class HashOrder := {
  peers_order : iteration;
  discovered_order : iteration;
  drained_order : iteration;
  peers_order_perm x : peers_order x ≡ₚ elements x;
  discovered_order_perm x : discovered_order x ≡ₚ elements x;
  drained_order_perm x : drained_order x ≡ₚ elements x
}.

#[refine] Instance elements_order : HashOrder := {
  peers_order := elements; discovered_order := elements; drained_order := elements
}.
Proof. all: done. Defined.

Section order.
Context `{HashOrder}.

Lemma elem_of_peers_order x pid : pid ∈ peers_order x <-> pid ∈ x.
Proof. by rewrite peers_order_perm, elem_of_elements. Qed.
Lemma NoDup_peers_order x : NoDup (peers_order x).
Proof. rewrite peers_order_perm. apply NoDup_elements. Qed.
Lemma elem_of_discovered_order x pid : pid ∈ discovered_order x <-> pid ∈ x.
Proof. by rewrite discovered_order_perm, elem_of_elements. Qed.
Lemma elem_of_drained_order x pid : pid ∈ drained_order x <-> pid ∈ x.
Proof. by rewrite drained_order_perm, elem_of_elements. Qed.
End order.

(** The order met over the keys of a version table. *)
Class VersionOrder := {
  versions_order : gset Z -> list Z;
  versions_order_perm x : versions_order x ≡ₚ elements x
}.

#[refine] Instance elements_versions : VersionOrder := { versions_order := elements }.
Proof. done. Defined.

Lemma elem_of_versions_order `{VersionOrder} x v : v ∈ versions_order x <-> v ∈ x.
Proof. by rewrite versions_order_perm, elem_of_elements. Qed.

(** ** Peer discovery

    [pallas-network2/src/behavior/initiator/discovery.rs], with the conversion of
    a shared address into a peer identifier ([promotion.rs]), which prints it the
    way the standard library does. *)

(** ** Printing addresses *)

(** The octets and the segments of an address, most significant first. *)
Definition octet (bits : Z) (i : Z) : Z := Z.land (Z.shiftr bits (24 - 8 * i)) 255.
Definition segment (bits : Z) (i : Z) : Z := Z.land (Z.shiftr bits (112 - 16 * i)) 65535.
Definition segments (bits : Z) : list Z := segment bits <$> [0; 1; 2; 3; 4; 5; 6; 7].

(** [Display for Ipv4Addr] *)
Definition show_ipv4 (bits : Z) : string :=
  show_u16 (octet bits 0) +:+ "." +:+ show_u16 (octet bits 1) +:+ "." +:+
  show_u16 (octet bits 2) +:+ "." +:+ show_u16 (octet bits 3).

(** [{:x}] of a [u16] *)
Definition hex_digit (n : Z) : ascii := ascii_of_nat (Z.to_nat (if n <? 10 then 48 + n else 87 + n)).

Fixpoint show_hex_digits (fuel : nat) (n : Z) (acc : string) : string :=
  match fuel with
  | O => acc
  | S fuel =>
      let acc := String (hex_digit (n mod 16)) acc in
      if n <? 16 then acc else show_hex_digits fuel (n / 16) acc
  end.
Definition show_hex (n : Z) : string := show_hex_digits 4 n EmptyString.

Fixpoint show_segments (l : list Z) : string :=
  match l with
  | [] => EmptyString
  | [x] => show_hex x
  | x :: l => show_hex x +:+ ":" +:+ show_segments l
  end.

(** The first longest run of zero segments: its start and length. *)
Fixpoint longest_run (l : list Z) (i : Z) (longest current : Z * Z) : Z * Z :=
  match l with
  | [] => longest
  | x :: l =>
      if x =? 0 then
        let current := (if current.2 =? 0 then i else current.1, current.2 + 1) in
        longest_run l (i + 1) (if longest.2 <? current.2 then current else longest) current
      else longest_run l (i + 1) longest (0, 0)
  end.

(** [Display for Ipv6Addr]: IPv4-mapped addresses in dotted form, otherwise the
    longest run of at least two zero segments is elided. *)
Definition show_ipv6 (bits : Z) : string :=
  if Z.shiftr bits 32 =? 0xFFFF then "::ffff:" +:+ show_ipv4 (Z.land bits 0xFFFFFFFF)
  else
    let segs := segments bits in
    let (start, len) := longest_run segs 0 (0, 0) (0, 0) in
    if 1 <? len then
      show_segments (take (Z.to_nat start) segs) +:+ "::" +:+
      show_segments (drop (Z.to_nat (start + len)) segs)
    else show_segments segs.

(** [From<PeerAddress> for PeerId] *)
Definition peer_id_from (addr : peersharing.PeerAddress.t) : PeerId :=
  match addr with
  | peersharing.PeerAddress.V4 addr port => {| host := show_ipv4 addr; port := port |}
  | peersharing.PeerAddress.V6 addr port => {| host := show_ipv6 addr; port := port |}
  end.

Example ipv6_elided : show_ipv6 (2 ^ 125 + 1) = "2000::1".
Proof. reflexivity. Qed.
Example ipv6_mapped : show_ipv6 (0xFFFF * 2 ^ 32 + 0x7F000001) = "::ffff:127.0.0.1".
Proof. reflexivity. Qed.

(** ** The behavior *)
Record DiscoveryBehavior := { high_water_mark : Z; discovered : gset PeerId }.

Definition default_discovery : DiscoveryBehavior := {| high_water_mark := 100; discovered := ∅ |}.

Definition set_discovered (x : gset PeerId) (v : DiscoveryBehavior) : DiscoveryBehavior :=
  {| high_water_mark := high_water_mark v; discovered := x |}.

Definition peer_supports_peer_sharing (peer : InitiatorState) : bool :=
  is_initialized peer && supports_peer_sharing peer.

Definition discovery_peer_is_available (peer : InitiatorState) : bool :=
  peer_supports_peer_sharing peer &&
  match peersharing peer with
  | peersharing.State.Idle peersharing.IdleState.Empty => true
  | _ => false
  end.

(** [None] when the subtraction underflows; the amount is cast to a [u8]. *)
Definition request_peers (v : DiscoveryBehavior) (pid : PeerId) (state : InitiatorState)
    (outbound : Outbound) : option (InitiatorState * Outbound) :=
  amount ← checked_sub (high_water_mark v) (Z.of_nat (size (discovered v)));
  let msg := peersharing.Message.ShareRequest (amount mod 2 ^ 8) in
  let '(_, state, outbound) := try_send_request pid (AnyMessage.PeerSharing msg) state outbound in
  Some (state, outbound).

Definition try_take_peers (v : DiscoveryBehavior) (peer : InitiatorState) :
    DiscoveryBehavior * InitiatorState :=
  match peersharing peer with
  | peersharing.State.Idle (peersharing.IdleState.Response peers) =>
      (set_discovered (foldl (fun d p => {[peer_id_from p]} ∪ d) (discovered v) peers) v,
       set_peersharing peersharing.State.Done peer)
  | _ => (v, peer)
  end.

Definition drain_new_peers `{HashOrder} (v : DiscoveryBehavior) (count : Z) :
    gset PeerId * DiscoveryBehavior :=
  let selected : gset PeerId := list_to_set (take (Z.to_nat count) (discovered_order (discovered v))) in
  (selected, set_discovered (discovered v ∖ selected) v).

Definition needs_more_peers (v : DiscoveryBehavior) : bool :=
  Z.of_nat (size (discovered v)) <? high_water_mark v.

#[export] Instance discovery_visitor : PeerVisitor DiscoveryBehavior :=
  fun h pid v state outbound =>
    match h with
    | visit_housekeeping =>
        if negb (needs_more_peers v) then Some (v, state, outbound)
        else if negb (discovery_peer_is_available state) then Some (v, state, outbound)
        else
          '(state, outbound) ← request_peers v pid state outbound;
          Some (v, state, outbound)
    | visit_inbound_msg =>
        let (v, state) :=
          if peer_supports_peer_sharing state then try_take_peers v state else (v, state) in
        Some (v, state, outbound)
    | _ => default_visit v state outbound
    end.
