(* ===== verification/Fetching.v ===== *)
(** * Block fetching

    [pallas-network2/src/behavior/initiator/blockfetch.rs]: the queue of block
    ranges and its distribution to the peers. *)
From S2P Require Import Prelude Cbor Protocol Network Blockfetch AnyMessage Unsent.
From S2P Require Import InitiatorState Connection Chainsync.

Record BlockFetchBehavior := { requests : list BlockRange }.

Definition blockfetch_new : BlockFetchBehavior := {| requests := [] |}.

Definition enqueue (v : BlockFetchBehavior) (request : BlockRange) : BlockFetchBehavior :=
  {| requests := requests v ++ [request] |}.

Definition push_front (v : BlockFetchBehavior) (request : BlockRange) : BlockFetchBehavior :=
  {| requests := request :: requests v |}.

Definition has_requests (v : BlockFetchBehavior) : bool :=
  match requests v with [] => false | _ => true end.

(** A public method the visitor does not use. *)
Definition request_block_batch (pid : PeerId) (range : BlockRange) (outbound : Outbound) : Outbound :=
  push_ready outbound (OutCommand (Send pid (AnyMessage.BlockFetch (blockfetch.Message.RequestRange range)))).

Definition blockfetch_peer_is_available (state : InitiatorState) : bool :=
  bool_decide (connection state = ConnectionState.Initialized) &&
  match blockfetch state with blockfetch.State.Idle => true | _ => false end &&
  negb (needs_disconnect state).

Definition serve_next (pid : PeerId) (v : BlockFetchBehavior) (state : InitiatorState)
    (outbound : Outbound) : BlockFetchBehavior * InitiatorState * Outbound :=
  if negb (blockfetch_peer_is_available state) then (v, state, outbound)
  else
    match requests v with
    | request :: rest =>
        let '(sent, state, outbound) :=
          try_send_request pid (AnyMessage.BlockFetch (blockfetch.Message.RequestRange request))
            state outbound in
        if sent then ({| requests := rest |}, state, outbound) else (v, state, outbound)
    | [] => (v, state, outbound)
    end.

Definition dispatch_block (pid : PeerId) (state : InitiatorState) (outbound : Outbound) : Outbound :=
  match blockfetch state with
  | blockfetch.State.Streaming (Some block) =>
      push_ready outbound (OutEvent (BlockBodyReceived pid block))
  | _ => outbound
  end.

Definition is_idle (state : InitiatorState) : bool :=
  match blockfetch state with blockfetch.State.Idle => true | _ => false end.

#[export] Instance blockfetch_visitor : PeerVisitor BlockFetchBehavior :=
  fun h pid v state outbound =>
    match h with
    | visit_inbound_msg =>
        let outbound := dispatch_block pid state outbound in
        let state := if is_idle state then set_in_flight None state else state in
        Some (serve_next pid v state outbound)
    | visit_outbound_msg =>
        match blockfetch state, in_flight state with
        | blockfetch.State.Busy range, None => Some (v, set_in_flight (Some range) state, outbound)
        | _, _ => Some (v, state, outbound)
        end
    | visit_housekeeping => Some (serve_next pid v state outbound)
    | visit_disconnected =>
        let v := match in_flight state with Some range => push_front v range | None => v end in
        let state := set_in_flight None state in
        let (taken, state) := take_unsent_range state in
        let v := match taken with Some range => push_front v range | None => v end in
        Some (v, state, outbound)
    | _ => default_visit v state outbound
    end.

(** ** Chain synchronisation

    [pallas-network2/src/behavior/initiator/chainsync.rs]. *)

Record ChainSyncBehavior := { intersection : option (list Point.t) }.

Definition chainsync_new : ChainSyncBehavior := {| intersection := None |}.

Definition start (points : list Point.t) (v : ChainSyncBehavior) : ChainSyncBehavior :=
  {| intersection := Some points |}.

(** Public methods the visitor does not use. *)
Definition request_intersection (pid : PeerId) (points : list Point.t) (outbound : Outbound) : Outbound :=
  push_ready outbound (OutCommand (Send pid (AnyMessage.ChainSync (chainsync.Message.FindIntersect points)))).
Definition request_next (pid : PeerId) (outbound : Outbound) : Outbound :=
  push_ready outbound (OutCommand (Send pid (AnyMessage.ChainSync chainsync.Message.RequestNext))).

Definition drain_data (pid : PeerId) (state : InitiatorState) (outbound : Outbound) :
    InitiatorState * Outbound :=
  let (data, drained) := chainsync.drain (chainsync state) in
  let state := set_chainsync drained state in
  match data with
  | None => (state, outbound)
  | Some (chainsync.Data.Content h tip) =>
      (state, push_ready outbound (OutEvent (BlockHeaderReceived pid h tip)))
  | Some (chainsync.Data.Rollback point tip) =>
      (state, push_ready outbound (OutEvent (RollbackReceived pid point tip)))
  | Some (chainsync.Data.Intersection point tip) =>
      (state, push_ready outbound (OutEvent (IntersectionFound pid point tip)))
  | Some (chainsync.Data.NoIntersection _) => (set_violation true state, outbound)
  | _ => (state, outbound)
  end.

Definition peer_is_syncing (state : InitiatorState) : bool := negb (chainsync.is_new (chainsync state)).

Definition peer_should_sync (state : InitiatorState) : bool :=
  bool_decide (connection state = ConnectionState.Initialized) &&
  bool_decide (promotion state = PromotionTag.Hot).

#[export] Instance chainsync_visitor : PeerVisitor ChainSyncBehavior :=
  fun h pid v state outbound =>
    match h with
    | visit_inbound_msg =>
        if negb (peer_is_syncing state) then Some (v, state, outbound)
        else
          let (state, outbound) := drain_data pid state outbound in
          let '(_, state, outbound) := try_send_deferred_next pid state outbound in
          Some (v, state, outbound)
    | visit_tagged =>
        if negb (peer_is_syncing state) then Some (v, state, outbound)
        else if negb (chainsync.is_idle (chainsync state)) then Some (v, state, outbound)
        else if continue_sync state then
          let next := AnyMessage.ChainSync chainsync.Message.RequestNext in
          let '(sent, state, outbound) := try_send_request pid next state outbound in
          if negb sent then Some (v, defer_sync_next state, outbound) else Some (v, state, outbound)
        else Some (v, state, outbound)
    | visit_housekeeping =>
        match intersection v with
        | None => Some (v, state, outbound)
        | Some intersection =>
            if negb (peer_should_sync state) then Some (v, state, outbound)
            else if peer_is_syncing state then Some (v, state, outbound)
            else
              let msg := AnyMessage.ChainSync (chainsync.Message.FindIntersect intersection) in
              let '(_, state, outbound) := try_send_request pid msg state outbound in
              Some (v, state, outbound)
        end
    | _ => default_visit v state outbound
    end.
