(* ===== verification/Leios.v ===== *)
(** * The Leios sub-behaviors

    [pallas-network2/src/behavior/initiator/leiosnotify.rs] and [leiosfetch.rs]. *)
From S2P Require Import Prelude Cbor Protocol Network LeiosProtocols AnyMessage Unsent.
From S2P Require Import InitiatorState Connection.

(** ** Notifications *)
Inductive LeiosNotifyBehavior := leiosnotify_behavior.

Definition notify_request_next (pid : PeerId) (state : InitiatorState) (outbound : Outbound) :
    InitiatorState * Outbound :=
  let msg := AnyMessage.LeiosNotify leiosnotify.Message.RequestNext in
  let '(_, state, outbound) := try_send_request pid msg state outbound in
  (state, outbound).

Definition notify_dispatch (pid : PeerId) (state : InitiatorState) (outbound : Outbound) :
    InitiatorState * Outbound :=
  let (notification, drained) := leiosnotify.drain (leios_notify state) in
  let state := set_leios_notify drained state in
  match notification with
  | Some notification => (state, push_ready outbound (OutEvent (EbNotification pid notification)))
  | None => (state, outbound)
  end.

Definition peer_ready (state : InitiatorState) : bool :=
  is_initialized state && state_supports_leios state.

#[export] Instance leiosnotify_visitor : PeerVisitor LeiosNotifyBehavior :=
  fun h pid v state outbound =>
    match h with
    | visit_inbound_msg =>
        let (state, outbound) := notify_dispatch pid state outbound in
        Some (v, state, outbound)
    | visit_housekeeping =>
        if negb (peer_ready state) then Some (v, state, outbound)
        else
          match leios_notify state with
          | leiosnotify.State.Idle None =>
              let (state, outbound) := notify_request_next pid state outbound in
              Some (v, state, outbound)
          | _ => Some (v, state, outbound)
          end
    | _ => default_visit v state outbound
    end.

(** ** Fetching *)
Module FetchRequest.
Inductive t :=
| Block (eb : Point.t)
| BlockTxs (eb : Point.t) (bitmaps : leiosfetch.Bitmaps).
End FetchRequest.

Record LeiosFetchBehavior := { fetch_requests : list (PeerId * FetchRequest.t) }.

Definition leiosfetch_default : LeiosFetchBehavior := {| fetch_requests := [] |}.

Definition fetch_enqueue (pid : PeerId) (request : FetchRequest.t) (v : LeiosFetchBehavior) :
    LeiosFetchBehavior := {| fetch_requests := fetch_requests v ++ [(pid, request)] |}.

Definition request_msg (request : FetchRequest.t) : AnyMessage.t :=
  AnyMessage.LeiosFetch
    match request with
    | FetchRequest.Block point => leiosfetch.Message.BlockRequest point
    | FetchRequest.BlockTxs point bitmaps => leiosfetch.Message.BlockTxsRequest point bitmaps
    end.

Definition fetch_peer_is_available (state : InitiatorState) : bool :=
  is_initialized state && state_supports_leios state &&
  match leios_fetch state with leiosfetch.State.Idle None => true | _ => false end &&
  negb (needs_disconnect state).

(** [iter().position(|(p, _)| p == pid)] with the request found there. *)
Fixpoint position (pid : PeerId) (l : list (PeerId * FetchRequest.t)) : option (nat * FetchRequest.t) :=
  match l with
  | [] => None
  | (p, request) :: l =>
      if bool_decide (p = pid) then Some (0%nat, request)
      else '(idx, request) ← position pid l; Some (S idx, request)
  end.

Definition fetch_serve_next (pid : PeerId) (v : LeiosFetchBehavior) (state : InitiatorState)
    (outbound : Outbound) : LeiosFetchBehavior * InitiatorState * Outbound :=
  if negb (fetch_peer_is_available state) then (v, state, outbound)
  else
    match position pid (fetch_requests v) with
    | Some (idx, request) =>
        let '(sent, state, outbound) := try_send_request pid (request_msg request) state outbound in
        if sent then ({| fetch_requests := delete idx (fetch_requests v) |}, state, outbound)
        else (v, state, outbound)
    | None => (v, state, outbound)
    end.

Definition purge (pid : PeerId) (v : LeiosFetchBehavior) : LeiosFetchBehavior :=
  {| fetch_requests := filter (fun r => r.1 <> pid) (fetch_requests v) |}.

Definition fetch_dispatch (pid : PeerId) (state : InitiatorState) (outbound : Outbound) :
    InitiatorState * Outbound :=
  let (response, drained) := leiosfetch.drain (leios_fetch state) in
  let state := set_leios_fetch drained state in
  match response with
  | Some (eb, response) => (state, push_ready outbound (OutEvent (EbFetched pid eb response)))
  | None => (state, outbound)
  end.

#[export] Instance leiosfetch_visitor : PeerVisitor LeiosFetchBehavior :=
  fun h pid v state outbound =>
    match h with
    | visit_inbound_msg =>
        let (state, outbound) := fetch_dispatch pid state outbound in
        Some (fetch_serve_next pid v state outbound)
    | visit_housekeeping => Some (fetch_serve_next pid v state outbound)
    | visit_disconnected | visit_errored => Some (purge pid v, state, outbound)
    | _ => default_visit v state outbound
    end.
