(* ===== verification/Initiator.v ===== *)
(** * The initiator behavior

    [InitiatorBehavior] of [pallas-network2/src/behavior/initiator/mod.rs]: the
    sub-behaviors, the peers and the outbound queue, and what the behavior does with
    every interface event and every command. *)
From S2P Require Import Prelude Cbor Protocol Network Chainsync Txsubmission.
From S2P Require Import LeiosProtocols AnyMessage Unsent InitiatorState Promotion.
From S2P Require Import Connection Discovery Fetching Leios.

(** ** The sub-behaviors, visited in the order of [all_visitors!] *)
Record SubBehaviors := {
  sub_promotion : PromotionBehavior;
  sub_connection : ConnectionBehavior;
  sub_handshake : HandshakeBehavior;
  sub_keepalive : KeepaliveBehavior;
  sub_discovery : DiscoveryBehavior;
  sub_blockfetch : BlockFetchBehavior;
  sub_chainsync : ChainSyncBehavior;
  sub_leiosnotify : LeiosNotifyBehavior;
  sub_leiosfetch : LeiosFetchBehavior
}.

#[export] Instance all_visitors : PeerVisitor SubBehaviors :=
  fun method pid self state outbound =>
    '(promotion, state, outbound) ← visit method pid (sub_promotion self) state outbound;
    '(connection, state, outbound) ← visit method pid (sub_connection self) state outbound;
    '(handshake, state, outbound) ← visit method pid (sub_handshake self) state outbound;
    '(keepalive, state, outbound) ← visit method pid (sub_keepalive self) state outbound;
    '(discovery, state, outbound) ← visit method pid (sub_discovery self) state outbound;
    '(blockfetch, state, outbound) ← visit method pid (sub_blockfetch self) state outbound;
    '(chainsync, state, outbound) ← visit method pid (sub_chainsync self) state outbound;
    '(leiosnotify, state, outbound) ← visit method pid (sub_leiosnotify self) state outbound;
    '(leiosfetch, state, outbound) ← visit method pid (sub_leiosfetch self) state outbound;
    Some ({| sub_promotion := promotion; sub_connection := connection; sub_handshake := handshake;
             sub_keepalive := keepalive; sub_discovery := discovery; sub_blockfetch := blockfetch;
             sub_chainsync := chainsync; sub_leiosnotify := leiosnotify;
             sub_leiosfetch := leiosfetch |}, state, outbound).

Definition set_promotion_sub (x : PromotionBehavior) (s : SubBehaviors) : SubBehaviors :=
  Build_SubBehaviors x (sub_connection s) (sub_handshake s) (sub_keepalive s) (sub_discovery s)
    (sub_blockfetch s) (sub_chainsync s) (sub_leiosnotify s) (sub_leiosfetch s).
Definition set_discovery_sub (x : DiscoveryBehavior) (s : SubBehaviors) : SubBehaviors :=
  Build_SubBehaviors (sub_promotion s) (sub_connection s) (sub_handshake s) (sub_keepalive s) x
    (sub_blockfetch s) (sub_chainsync s) (sub_leiosnotify s) (sub_leiosfetch s).
Definition set_blockfetch_sub (x : BlockFetchBehavior) (s : SubBehaviors) : SubBehaviors :=
  Build_SubBehaviors (sub_promotion s) (sub_connection s) (sub_handshake s) (sub_keepalive s)
    (sub_discovery s) x (sub_chainsync s) (sub_leiosnotify s) (sub_leiosfetch s).
Definition set_chainsync_sub (x : ChainSyncBehavior) (s : SubBehaviors) : SubBehaviors :=
  Build_SubBehaviors (sub_promotion s) (sub_connection s) (sub_handshake s) (sub_keepalive s)
    (sub_discovery s) (sub_blockfetch s) x (sub_leiosnotify s) (sub_leiosfetch s).
Definition set_leiosfetch_sub (x : LeiosFetchBehavior) (s : SubBehaviors) : SubBehaviors :=
  Build_SubBehaviors (sub_promotion s) (sub_connection s) (sub_handshake s) (sub_keepalive s)
    (sub_discovery s) (sub_blockfetch s) (sub_chainsync s) (sub_leiosnotify s) x.

(** ** The behavior *)
Record InitiatorBehavior := {
  subs : SubBehaviors;
  peers : gmap PeerId InitiatorState;
  outbound : Outbound
}.

Definition with_subs (x : SubBehaviors) (b : InitiatorBehavior) : InitiatorBehavior :=
  {| subs := x; peers := peers b; outbound := outbound b |}.

(** [InitiatorBehavior::default()], under a promotion configuration and a version
    table. *)
Definition initiator (config : PromotionConfig) (versions : HandshakeBehavior) : InitiatorBehavior := {|
  subs := {|
    sub_promotion := promotion_new config;
    sub_connection := connection_behavior;
    sub_handshake := versions;
    sub_keepalive := default_keepalive;
    sub_discovery := default_discovery;
    sub_blockfetch := blockfetch_new;
    sub_chainsync := chainsync_new;
    sub_leiosnotify := leiosnotify_behavior;
    sub_leiosfetch := leiosfetch_default |};
  peers := ∅;
  outbound := []
|}.

(** [self.peers.entry(pid).and_modify(..)]: runs the closure on the state of a known
    peer, and does nothing for an unknown one. *)
Definition and_modify (pid : PeerId)
    (f : SubBehaviors -> InitiatorState -> Outbound -> option (SubBehaviors * InitiatorState * Outbound))
    (b : InitiatorBehavior) : option InitiatorBehavior :=
  match peers b !! pid with
  | None => Some b
  | Some state =>
      '(s, state, out) ← f (subs b) state (outbound b);
      Some {| subs := s; peers := <[pid := state]> (peers b); outbound := out |}
  end.

Definition on_inbound_msg (pid : PeerId) (msg : AnyMessage.t) : InitiatorBehavior -> option InitiatorBehavior :=
  and_modify pid (fun s state out =>
    let state := apply_msg state msg in
    visit visit_inbound_msg pid s state out).

Definition on_outbound_msg `{Minicbor} (pid : PeerId) (msg : AnyMessage.t) :
    InitiatorBehavior -> option InitiatorBehavior :=
  and_modify pid (fun s state out =>
    state ← clear_unsent state msg;
    let state := apply_msg state msg in
    visit visit_outbound_msg pid s state out).

Definition on_connected (pid : PeerId) : InitiatorBehavior -> option InitiatorBehavior :=
  and_modify pid (fun s state out =>
    let state := set_connection ConnectionState.Connected state in
    visit visit_connected pid s state out).

(** [serve_block_fetch]: the loop over the peers, which stops when no range is left. *)
Fixpoint serve_block_fetch_loop (order : list PeerId) (b : InitiatorBehavior) : InitiatorBehavior :=
  match order with
  | [] => b
  | pid :: order =>
      if negb (has_requests (sub_blockfetch (subs b))) then b
      else
        match peers b !! pid with
        | None => serve_block_fetch_loop order b
        | Some state =>
            let '(blockfetch, state, out) :=
              serve_next pid (sub_blockfetch (subs b)) state (outbound b) in
            serve_block_fetch_loop order
              {| subs := set_blockfetch_sub blockfetch (subs b);
                 peers := <[pid := state]> (peers b); outbound := out |}
        end
  end.

Definition serve_block_fetch `{HashOrder} (b : InitiatorBehavior) : InitiatorBehavior :=
  serve_block_fetch_loop (peers_order (dom (peers b))) b.

Definition on_disconnected `{HashOrder} (pid : PeerId) (b : InitiatorBehavior) : option InitiatorBehavior :=
  b ← and_modify pid (fun s state out =>
    let state := set_connection ConnectionState.Disconnected state in
    '(s, state, out) ← visit visit_disconnected pid s state out;
    Some (s, reset state, out)) b;
  Some (serve_block_fetch b).

(** [error_count] is a [u32]; [None] is the overflow of a checked build. *)
Definition on_errored (pid : PeerId) : InitiatorBehavior -> option InitiatorBehavior :=
  and_modify pid (fun s state out =>
    let state := set_connection ConnectionState.Errored state in
    errors ← checked_add 32 (error_count state) 1;
    let state := set_error_count errors state in
    visit visit_errored pid s state out).

Definition on_tagged (pid : PeerId) (tagger : InitiatorState -> InitiatorState) :
    InitiatorBehavior -> option InitiatorBehavior :=
  and_modify pid (fun s state out => visit visit_tagged pid s (tagger state) out).

(** A fresh state replaces whatever was known of the peer. *)
Definition on_discovered (pid : PeerId) (b : InitiatorBehavior) : option InitiatorBehavior :=
  '(s, state, out) ← visit visit_discovered pid (subs b) new (outbound b);
  Some {| subs := s; peers := <[pid := state]> (peers b); outbound := out |}.

Fixpoint include_new (order : list PeerId) (b : InitiatorBehavior) : option InitiatorBehavior :=
  match order with
  | [] => Some b
  | pid :: order =>
      match peers b !! pid with
      | Some _ => include_new order b
      | None => b ← on_discovered pid b; include_new order b
      end
  end.

Definition move_discovered_into_promotion `{HashOrder} (b : InitiatorBehavior) : option InitiatorBehavior :=
  deficit ← peer_deficit (sub_promotion (subs b));
  if deficit =? 0 then Some b
  else
    let (fresh, discovery) := drain_new_peers (sub_discovery (subs b)) deficit in
    let b := with_subs (set_discovery_sub discovery (subs b)) b in
    include_new (drained_order fresh) b.

Fixpoint housekeep_peers (order : list PeerId) (b : InitiatorBehavior) : option InitiatorBehavior :=
  match order with
  | [] => Some b
  | pid :: order =>
      b ← and_modify pid (fun s state out => visit visit_housekeeping pid s state out) b;
      housekeep_peers order b
  end.

Definition housekeeping `{HashOrder} (b : InitiatorBehavior) : option InitiatorBehavior :=
  b ← housekeep_peers (peers_order (dom (peers b))) b;
  move_discovered_into_promotion b.

Definition serve_leios_fetch (pid : PeerId) (b : InitiatorBehavior) : InitiatorBehavior :=
  match peers b !! pid with
  | None => b
  | Some state =>
      let '(leiosfetch, state, out) :=
        fetch_serve_next pid (sub_leiosfetch (subs b)) state (outbound b) in
      {| subs := set_leiosfetch_sub leiosfetch (subs b);
         peers := <[pid := state]> (peers b); outbound := out |}
  end.

(** ** Interface events *)
Fixpoint on_inbound_msgs (pid : PeerId) (msgs : list AnyMessage.t) (b : InitiatorBehavior) :
    option InitiatorBehavior :=
  match msgs with
  | [] => Some b
  | msg :: msgs => b ← on_inbound_msg pid msg b; on_inbound_msgs pid msgs b
  end.

Definition handle_io `{Minicbor} `{HashOrder} (event : InterfaceEvent.t AnyMessage.t) (b : InitiatorBehavior) :
    option InitiatorBehavior :=
  match event with
  | InterfaceEvent.Connected pid => on_connected pid b
  | InterfaceEvent.Disconnected pid => on_disconnected pid b
  | InterfaceEvent.Recv pid msgs => on_inbound_msgs pid msgs b
  | InterfaceEvent.Sent pid msg => on_outbound_msg pid msg b
  | InterfaceEvent.Error pid _ => on_errored pid b
  | InterfaceEvent.Idle => housekeeping b
  end.

(** ** Commands *)
Module InitiatorCommand.
Inductive t :=
| IncludePeer (pid : PeerId)
| Housekeeping
| StartSync (points : list Point.t)
| ContinueSync (pid : PeerId)
| RequestBlocks (range : BlockRange)
| SendTx (pid : PeerId) (tx_id : txsubmission.EraTxId) (body : txsubmission.EraTxBody)
| FetchEb (pid : PeerId) (eb : Point.t)
| FetchEbTxs (pid : PeerId) (eb : Point.t) (bitmaps : leiosfetch.Bitmaps)
| BanPeer (pid : PeerId)
| DemotePeer (pid : PeerId).
End InitiatorCommand.

Definition enqueue_fetch (pid : PeerId) (request : FetchRequest.t) (b : InitiatorBehavior) : InitiatorBehavior :=
  with_subs (set_leiosfetch_sub (fetch_enqueue pid request (sub_leiosfetch (subs b))) (subs b)) b.

Definition execute `{HashOrder} (cmd : InitiatorCommand.t) (b : InitiatorBehavior) : option InitiatorBehavior :=
  match cmd with
  | InitiatorCommand.IncludePeer pid =>
      let fresh :=
        match peers b !! pid with
        | Some state => bool_decide (connection state = ConnectionState.New)
        | None => true
        end in
      if fresh then on_discovered pid b else Some b
  | InitiatorCommand.StartSync points =>
      Some (with_subs (set_chainsync_sub (start points (sub_chainsync (subs b))) (subs b)) b)
  | InitiatorCommand.ContinueSync pid => on_tagged pid (set_continue_sync true) b
  | InitiatorCommand.RequestBlocks range =>
      let b := with_subs (set_blockfetch_sub (enqueue (sub_blockfetch (subs b)) range) (subs b)) b in
      Some (serve_block_fetch b)
  | InitiatorCommand.Housekeeping => housekeeping b
  | InitiatorCommand.BanPeer pid => on_tagged pid (set_promotion PromotionTag.Banned) b
  | InitiatorCommand.DemotePeer pid => on_tagged pid (set_promotion PromotionTag.Cold) b
  | InitiatorCommand.SendTx _ _ _ => Some b
  | InitiatorCommand.FetchEb pid point =>
      Some (serve_leios_fetch pid (enqueue_fetch pid (FetchRequest.Block point) b))
  | InitiatorCommand.FetchEbTxs pid point bitmaps =>
      Some (serve_leios_fetch pid (enqueue_fetch pid (FetchRequest.BlockTxs point bitmaps) b))
  end.
