(* ===== verification/InitiatorInv.v ===== *)
(** * The invariant of the initiator

    What one visit of all sub-behaviors leaves alone: no panic, the tags and sets of
    the promotion, the conditions under which a command is pushed, and the fields
    only one sub-behavior changes.  From it follows the invariant: the sets of the
    promotion stay within their limits and the banned peers apart, every peer tagged
    warm or hot is in that set, and every unsent request is filed under its channel.
    It holds initially and after every event and command, whatever the order the
    hash maps iterate in. *)
From S2P Require Import Prelude Cbor Protocol Chainsync Blockfetch Keepalive.
From S2P Require Import Txsubmission Peersharing Handshake HandshakeVersions.
From S2P Require Import LeiosProtocols Network AnyMessage Unsent InitiatorState.
From S2P Require Import Promotion Connection Discovery Fetching Leios Initiator.
(** Splits the innermost matches of a hypothesis first. *)
Ltac split_inner :=
  match goal with
  | H : context [match ?x with _ => _ end] |- _ =>
      lazymatch x with
      | context [match _ with _ => _ end] => fail
      | _ => destruct x eqn:?
      end
  end.

(** Runs a visit that succeeded into its cases. *)
Ltac visit_cases :=
  intros h pid v s out v' s' out' H;
  destruct h; cbv [visit connection_visitor handshake_visitor keepalive_visitor discovery_visitor
    blockfetch_visitor chainsync_visitor leiosnotify_visitor leiosfetch_visitor default_visit
    request_peers try_take_peers serve_next fetch_serve_next notify_request_next notify_dispatch
    fetch_dispatch dispatch_block drain_data check_confirmation propose_handshake take_unsent_range
    defer_sync_next push_ready mbind option_bind] in H;
  repeat (split_inner; simplify_eq/=);
  repeat match goal with
  | E : try_send_request _ _ _ _ = _ |- _ =>
      apply try_send_request_spec in E as [(? & ? & ? & ? & ? & ?)|(? & ? & ?)]; simplify_eq/=
  | E : try_send_deferred_next _ _ _ = _ |- _ =>
      apply try_send_deferred_spec in E as [[? ?]|(? & ? & ?)]; simplify_eq/=
  end; simplify_eq/=;
  repeat match goal with |- context [match ?x with _ => _ end] => destruct x eqn:? end; simplify_eq/=.

(** The visits in their order, when none panics. *)
Lemma all_visitors_inv h pid (v v' : SubBehaviors) s out s' out' :
  visit h pid v s out = Some (v', s', out') ->
  exists s1 out1 s2 out2 s3 out3 s4 out4 s5 out5 s6 out6 s7 out7 s8 out8,
    visit h pid (sub_promotion v) s out = Some (sub_promotion v', s1, out1) /\
    visit h pid (sub_connection v) s1 out1 = Some (sub_connection v', s2, out2) /\
    visit h pid (sub_handshake v) s2 out2 = Some (sub_handshake v', s3, out3) /\
    visit h pid (sub_keepalive v) s3 out3 = Some (sub_keepalive v', s4, out4) /\
    visit h pid (sub_discovery v) s4 out4 = Some (sub_discovery v', s5, out5) /\
    visit h pid (sub_blockfetch v) s5 out5 = Some (sub_blockfetch v', s6, out6) /\
    visit h pid (sub_chainsync v) s6 out6 = Some (sub_chainsync v', s7, out7) /\
    visit h pid (sub_leiosnotify v) s7 out7 = Some (sub_leiosnotify v', s8, out8) /\
    visit h pid (sub_leiosfetch v) s8 out8 = Some (sub_leiosfetch v', s', out').
Proof.
  unfold visit at 1, all_visitors, mbind, option_bind.
  destruct (visit h pid (sub_promotion v) s out) as [[[v1 s1] out1]|] eqn:E1; [|done].
  destruct (visit h pid (sub_connection v) s1 out1) as [[[v2 s2] out2]|] eqn:E2; [|done].
  destruct (visit h pid (sub_handshake v) s2 out2) as [[[v3 s3] out3]|] eqn:E3; [|done].
  destruct (visit h pid (sub_keepalive v) s3 out3) as [[[v4 s4] out4]|] eqn:E4; [|done].
  destruct (visit h pid (sub_discovery v) s4 out4) as [[[v5 s5] out5]|] eqn:E5; [|done].
  destruct (visit h pid (sub_blockfetch v) s5 out5) as [[[v6 s6] out6]|] eqn:E6; [|done].
  destruct (visit h pid (sub_chainsync v) s6 out6) as [[[v7 s7] out7]|] eqn:E7; [|done].
  destruct (visit h pid (sub_leiosnotify v) s7 out7) as [[[v8 s8] out8]|] eqn:E8; [|done].
  destruct (visit h pid (sub_leiosfetch v) s8 out8) as [[[v9 s9] out9]|] eqn:E9; [|done].
  intros [= <- <- <-]. exists s1, out1, s2, out2, s3, out3, s4, out4, s5, out5, s6, out6, s7, out7, s8, out8.
  split_and!; done.
Qed.

Ltac split_visits H :=
  apply all_visitors_inv in H as (s1 & out1 & s2 & out2 & s3 & out3 & s4 & out4 & s5 & out5 & s6 & out6 &
    s7 & out7 & s8 & out8 & E1 & E2 & E3 & E4 & E5 & E6 & E7 & E8 & E9).

(** ** Chaining the sub-behaviors *)
Section chain.
Context (R : step_relation) `{!Chains R}.
Context `{!Visits R ConnectionBehavior, !Visits R HandshakeBehavior, !Visits R KeepaliveBehavior,
          !Visits R DiscoveryBehavior, !Visits R BlockFetchBehavior, !Visits R ChainSyncBehavior,
          !Visits R LeiosNotifyBehavior, !Visits R LeiosFetchBehavior}.

(** Behind the promotion visit the others are related by [R]. *)
Lemma all_visitors_rest h pid v s out v' s' out' :
  visit h pid v s out = Some (v', s', out') ->
  exists s1 out1, visit h pid (sub_promotion v) s out = Some (sub_promotion v', s1, out1) /\
    R h pid s1 out1 s' out'.
Proof.
  intros H. split_visits H. exists s1, out1. split; [done|].
  apply visits in E2, E3, E4, E5, E6, E7, E8, E9.
  repeat (eapply chain_trans; [eassumption|]). apply chain_refl.
Qed.
End chain.

(** The block-fetch visit between the others. *)
Lemma all_visitors_blockfetch (R : step_relation) `{!Chains R}
    `{!Visits R PromotionBehavior, !Visits R ConnectionBehavior, !Visits R HandshakeBehavior,
      !Visits R KeepaliveBehavior, !Visits R DiscoveryBehavior, !Visits R ChainSyncBehavior,
      !Visits R LeiosNotifyBehavior, !Visits R LeiosFetchBehavior} h pid v s out v' s' out' :
  visit h pid v s out = Some (v', s', out') ->
  exists s1 out1 s2 out2, R h pid s out s1 out1 /\
    visit h pid (sub_blockfetch v) s1 out1 = Some (sub_blockfetch v', s2, out2) /\
    R h pid s2 out2 s' out'.
Proof.
  intros H. split_visits H. exists s5, out5, s6, out6. split_and!; [|done|].
  - apply visits in E1, E2, E3, E4, E5. repeat (eapply chain_trans; [eassumption|]). apply chain_refl.
  - apply visits in E7, E8, E9. repeat (eapply chain_trans; [eassumption|]). apply chain_refl.
Qed.

(** The promotion visit writes the tag and nothing else. *)
Lemma promotion_visit_state h pid (v : PromotionBehavior) s out v' s' out' :
  visit h pid v s out = Some (v', s', out') ->
  out' = out /\ (s' = s \/ exists t, s' = set_promotion t s).
Proof.
  unfold visit, promotion_visitor, default_visit, mbind, option_bind.
  assert (forall b1 s1, on_peer_discovered pid v s = Some (b1, s1) -> s1 = s \/ exists t, s1 = set_promotion t s) as Hd.
  { intros b1 s1. unfold on_peer_discovered, mbind, option_bind. repeat case_match; intros; simplify_eq/=; eauto. }
  destruct h; try (intros; simplify_eq/=; by eauto).
  - destruct (on_peer_discovered pid v s) as [[b1 s1]|] eqn:E; [|done]. intros [= <- <- <-]. eauto.
  - destruct (categorize_peer pid v s) as [[b1 s1]|] eqn:E; [|done]. intros [= <- <- <-].
    split; [done|]. by eapply promoted_state, categorize_promoted.
  - destruct (categorize_peer pid v s) as [[b1 s1]|] eqn:E; [|done]. intros [= <- <- <-].
    split; [done|]. by eapply promoted_state, categorize_promoted.
Qed.

(** ** Tags and error counts are the promotion's *)
Definition keeps_tag : step_relation := fun _ _ s _ s' _ =>
  promotion s' = promotion s /\ error_count s' = error_count s.

#[export] Instance keeps_tag_chains : Chains keeps_tag.
Proof. split; unfold keeps_tag; naive_solver congruence. Qed.

Section tags.
#[export] Instance connection_tag : Visits keeps_tag ConnectionBehavior.
Proof. visit_cases; done. Qed.
#[export] Instance handshake_tag : Visits keeps_tag HandshakeBehavior.
Proof. visit_cases; done. Qed.
#[export] Instance keepalive_tag : Visits keeps_tag KeepaliveBehavior.
Proof. visit_cases; done. Qed.
#[export] Instance discovery_tag : Visits keeps_tag DiscoveryBehavior.
Proof. visit_cases; done. Qed.
#[export] Instance blockfetch_tag : Visits keeps_tag BlockFetchBehavior.
Proof. visit_cases; done. Qed.
#[export] Instance chainsync_tag : Visits keeps_tag ChainSyncBehavior.
Proof. visit_cases; done. Qed.
#[export] Instance leiosnotify_tag : Visits keeps_tag LeiosNotifyBehavior.
Proof. visit_cases; done. Qed.
#[export] Instance leiosfetch_tag : Visits keeps_tag LeiosFetchBehavior.
Proof. visit_cases; done. Qed.
End tags.

(** ** No visit panics but two *)
Section total.
Ltac total_cases :=
  intros h pid v s out; destruct h; unfold visit, default_visit; simpl;
  repeat case_match; simpl; try (by eexists).

#[export] Instance connection_total : Total ConnectionBehavior.
Proof. total_cases. Qed.
#[export] Instance keepalive_total_visit : Total KeepaliveBehavior.
Proof. unfold Total, keepalive_visitor. total_cases. Qed.
#[export] Instance blockfetch_total_visit : Total BlockFetchBehavior.
Proof.
  intros h pid v s out; destruct h; unfold visit, blockfetch_visitor, default_visit; simpl; try (by eexists).
  - destruct (take_unsent_range _). by eexists.
  - repeat case_match; by eexists.
Qed.
#[export] Instance chainsync_total : Total ChainSyncBehavior.
Proof.
  intros h pid v s out; destruct h; unfold visit, chainsync_visitor, default_visit; try (by eexists);
    repeat case_match; by eexists.
Qed.
#[export] Instance leiosnotify_total_visit : Total LeiosNotifyBehavior.
Proof.
  intros h pid v s out; destruct h; unfold visit, leiosnotify_visitor, default_visit; try (by eexists);
    repeat case_match; by eexists.
Qed.
#[export] Instance leiosfetch_total_visit : Total LeiosFetchBehavior.
Proof.
  intros h pid v s out; destruct h; unfold visit, leiosfetch_visitor, default_visit; try (by eexists);
    repeat case_match; by eexists.
Qed.

(** More peers are only asked for below the high-water mark. *)
#[export] Instance discovery_total : Total DiscoveryBehavior.
Proof.
  intros h pid v s out; destruct h; unfold visit, discovery_visitor, default_visit; try (by eexists).
  - repeat case_match; by eexists.
  - destruct (needs_more_peers v) eqn:E; simpl; [|by eexists].
    destruct (discovery_peer_is_available s); simpl; [|by eexists].
    unfold request_peers, needs_more_peers in *. apply Z.ltb_lt in E. rewrite checked_sub_le by lia.
    simpl. destruct (try_send_request _ _ _ _) as [[? ?] ?]. by eexists.
Qed.

Lemma handshake_visit_total h pid (v : HandshakeBehavior) s out :
  is_Some (visit h pid v s out) <->
  (h = visit_connected -> handshake s = handshake.State.Propose).
Proof.
  unfold visit, handshake_visitor, default_visit, propose_handshake.
  destruct h; try (split; [by intros|by eexists]).
  - split; [intros [x Hx] _|intros ->; [by eexists|done]].
    by destruct (handshake s).
  - split; [by intros|]. intros _. repeat case_match; by eexists.
Qed.
End total.

(** A visit of all sub-behaviors panics only when the promotion does, or when a
    connection is reported for a peer that has already shaken hands. *)
Lemma all_visitors_total h pid v s out :
  promotion_inv (sub_promotion v) ->
  is_Some (visit h pid v s out) <->
  (h = visit_connected -> handshake s = handshake.State.Propose).
Proof.
  intros Hinv.
  assert (is_Some (visit h pid (sub_promotion v) s out)) as [[[v1 s1] out1] E1].
  { unfold visit, promotion_visitor, default_visit. destruct h; try (by eexists).
    - destruct (on_peer_discovered_total pid (sub_promotion v) s Hinv) as [[? ?] ->]. by eexists.
    - destruct (categorize_total pid (sub_promotion v) s Hinv) as [[? ?] ->]. by eexists.
    - destruct (categorize_total pid (sub_promotion v) s Hinv) as [[? ?] ->]. by eexists. }
  destruct (visit_total h pid (sub_connection v) s1 out1) as [[[v2 s2] out2] E2].
  assert (h = visit_connected -> s2 = s) as Hs2.
  { intros ->. cbv [visit promotion_visitor connection_visitor default_visit] in E1, E2. congruence. }
  transitivity (is_Some (visit h pid (sub_handshake v) s2 out2)).
  2:{ rewrite handshake_visit_total. split; intros Hh Hc; specialize (Hh Hc); specialize (Hs2 Hc); congruence. }
  unfold visit at 1, all_visitors, mbind, option_bind. rewrite E1, E2.
  destruct (visit h pid (sub_handshake v) s2 out2) as [[[v3 s3] out3]|] eqn:E3;
    [|split; by intros [? [=]]].
  split; [by eexists|intros _].
  destruct (visit_total h pid (sub_keepalive v) s3 out3) as [[[v4 s4] out4] ->].
  destruct (visit_total h pid (sub_discovery v) s4 out4) as [[[v5 s5] out5] ->].
  destruct (visit_total h pid (sub_blockfetch v) s5 out5) as [[[v6 s6] out6] ->].
  destruct (visit_total h pid (sub_chainsync v) s6 out6) as [[[v7 s7] out7] ->].
  destruct (visit_total h pid (sub_leiosnotify v) s7 out7) as [[[v8 s8] out8] ->].
  destruct (visit_total h pid (sub_leiosfetch v) s8 out8) as [[[v9 s9] out9] ->].
  by eexists.
Qed.

(** ** When a command is pushed *)

(** Headers are being followed and the next one can be asked for. *)
Definition awaits_next (s : InitiatorState) : bool :=
  peer_is_syncing s && chainsync.is_idle (chainsync s).

(** The state in which a message may be sent to a peer. *)
Definition sendable_in (h : Hook) (s : InitiatorState) (m : AnyMessage.t) : Prop :=
  match m with
  | AnyMessage.Handshake (handshake.Message.Propose _) => h = visit_connected
  | AnyMessage.KeepAlive (keepalive.Message.KeepAlive _) => is_initialized s = true
  | AnyMessage.PeerSharing (peersharing.Message.ShareRequest _) =>
      is_initialized s = true /\ supports_peer_sharing s = true
  | AnyMessage.BlockFetch (blockfetch.Message.RequestRange _) =>
      is_initialized s = true /\ needs_disconnect s = false
  | AnyMessage.ChainSync (chainsync.Message.FindIntersect _) =>
      is_initialized s = true /\ promotion s = PromotionTag.Hot
  | AnyMessage.ChainSync chainsync.Message.RequestNext => awaits_next s = true
  | AnyMessage.LeiosNotify leiosnotify.Message.RequestNext =>
      is_initialized s = true /\ state_supports_leios s = true
  | AnyMessage.LeiosFetch (leiosfetch.Message.BlockRequest _)
  | AnyMessage.LeiosFetch (leiosfetch.Message.BlockTxsRequest _ _) =>
      is_initialized s = true /\ state_supports_leios s = true /\ needs_disconnect s = false
  | _ => False
  end.

Definition event_peer (e : InitiatorEvent) : PeerId :=
  match e with
  | PeerInitialized pid _ | IntersectionFound pid _ _ | BlockHeaderReceived pid _ _
  | RollbackReceived pid _ _ | BlockBodyReceived pid _ | TxRequested pid _
  | EbNotification pid _ | EbFetched pid _ _ => pid
  end.

Definition event_in (s : InitiatorState) (e : InitiatorEvent) : Prop :=
  match e with
  | PeerInitialized _ (num, data) =>
      connection s = ConnectionState.Initialized /\
      handshake s = handshake.State.Done (handshake.DoneState.Accepted num data)
  | _ => True
  end.

(** What is known of the peer's state when an output concerning it is pushed. *)
Definition gate (h : Hook) (pid : PeerId) (s : InitiatorState) (o : Output) : Prop :=
  match o with
  | OutCommand (Connect q) =>
      q = pid /\ connection s = ConnectionState.Connecting /\
      (promotion s = PromotionTag.Warm \/ promotion s = PromotionTag.Hot)
  | OutCommand (Disconnect q) => q = pid /\ needs_disconnect s = true
  | OutCommand (Send q m) => q = pid /\ sendable_in h s m
  | OutEvent e => event_peer e = pid /\ event_in s e
  end.

(** The fields the conditions read. *)
Definition same_standing (s s' : InitiatorState) : Prop :=
  connection s' = connection s /\ handshake s' = handshake s /\ promotion s' = promotion s /\
  (awaits_next s = true -> awaits_next s' = true).

Lemma gate_standing h pid s s' o : same_standing s s' -> gate h pid s o -> gate h pid s' o.
Proof.
  intros (Hc & Hh & Hp & Hn). unfold gate, sendable_in, event_in, needs_disconnect, is_initialized,
    supports_peer_sharing, version, state_supports_leios.
  rewrite Hc, Hh, Hp. repeat case_match; naive_solver.
Qed.

(** The outputs are added at the end, each under its condition, and the conditions
    of what had been pushed still hold. *)
Definition gated : step_relation := fun h pid s out s' out' =>
  promotion s' = promotion s /\
  (forall o, gate h pid s o -> gate h pid s' o) /\
  exists l, out' = out ++ l /\ Forall (gate h pid s') l.

#[export] Instance gated_chains : Chains gated.
Proof.
  split; unfold gated.
  - intros. split_and!; [done..|]. exists []. by rewrite app_nil_r.
  - intros h pid s1 o1 s2 o2 s3 o3 (Ht & Hg & l1 & -> & H1) (Ht' & Hg' & l2 & -> & H2).
    split_and!; [congruence|auto|]. exists (l1 ++ l2). rewrite app_assoc. split; [done|].
    apply Forall_app. split; [|done]. eapply Forall_impl; [exact H1|]. auto.
Qed.

Lemma gated_push h pid s out s' o :
  same_standing s s' -> gate h pid s' o -> gated h pid s out s' (out ++ [o]).
Proof.
  intros Hs Ho. split_and!; [by apply Hs|intros; by eapply gate_standing|].
  exists [o]. by repeat constructor.
Qed.

Lemma gated_quiet h pid s out s' : same_standing s s' -> gated h pid s out s' out.
Proof.
  intros Hs. split_and!; [by apply Hs|intros; by eapply gate_standing|]. exists []. by rewrite app_nil_r.
Qed.

Ltac gate_push :=
  apply gated_push; [done|];
  unfold gate, sendable_in, blockfetch_peer_is_available, fetch_peer_is_available, peer_ready,
    discovery_peer_is_available, peer_supports_peer_sharing, peer_should_sync, is_initialized,
    needs_handshake in *;
  repeat match goal with
  | H : negb _ = false |- _ => apply negb_false_iff in H
  | H : negb _ = true |- _ => apply negb_true_iff in H
  | H : _ && _ = true |- _ => apply andb_true_iff in H as [? ?]
  | H : bool_decide _ = true |- _ => apply bool_decide_eq_true in H
  | r : FetchRequest.t |- _ => destruct r
  end; simpl in *; rewrite ?bool_decide_eq_true; by split_and!.

Ltac gate_goal :=
  lazymatch goal with
  | |- gated _ _ _ ?o _ ?o => by apply gated_quiet
  | |- gated ?h ?p ?s ?o _ ((?x ++ [?a]) ++ [?b]) =>
      apply (chain_trans h p s o s (x ++ [a])); gate_push
  | |- _ => gate_push
  end.

Section gates.
#[export] Instance keepalive_gate : Visits gated KeepaliveBehavior.
Proof. visit_cases; gate_goal. Qed.
#[export] Instance discovery_gate : Visits gated DiscoveryBehavior.
Proof. visit_cases; gate_goal. Qed.
#[export] Instance blockfetch_gate : Visits gated BlockFetchBehavior.
Proof. visit_cases; gate_goal. Qed.
(** What was drained leaves a peer that headers are followed from. *)
Lemma drain_data_gated h pid s out s' out' :
  peer_is_syncing s = true -> drain_data pid s out = (s', out') ->
  gated h pid s out s' out' /\ peer_is_syncing s' = true.
Proof.
  unfold peer_is_syncing, drain_data, push_ready.
  destruct (chainsync s) as [[]| | | |] eqn:E; simpl; intros Hs H; simplify_eq/=; (split; [|done]).
  all: try (by apply gated_push).
  all: apply gated_quiet; split_and!; try done; unfold awaits_next, peer_is_syncing; simpl; by rewrite ?E.
Qed.

Lemma next_gated h pid s out b s' out' :
  peer_is_syncing s = true ->
  try_send_request pid (AnyMessage.ChainSync chainsync.Message.RequestNext) s out = (b, s', out') ->
  gated h pid s out s' out'.
Proof.
  intros Hs H%try_send_request_spec. destruct H as [(_ & Hc & _ & _ & -> & ->)|(_ & -> & ->)]; [|by apply chain_refl].
  apply gated_push; [done|]. split; [done|]. simpl in Hc |- *. unfold awaits_next, peer_is_syncing in *. simpl.
  rewrite Hs. by destruct (chainsync s).
Qed.

Lemma deferred_gated h pid s out b s' out' :
  peer_is_syncing s = true -> try_send_deferred_next pid s out = (b, s', out') -> gated h pid s out s' out'.
Proof.
  intros Hs H%try_send_deferred_spec. destruct H as [[-> ->]|(s1 & -> & H)]; [by apply chain_refl|].
  eapply chain_trans; [by eapply next_gated|]. by apply gated_quiet.
Qed.

#[export] Instance chainsync_gate : Visits gated ChainSyncBehavior.
Proof.
  intros h pid v s out v' s' out'. unfold visit, chainsync_visitor, default_visit.
  destruct h; try (intros [= <- <- <-]; by apply chain_refl).
  - destruct (peer_is_syncing s) eqn:Hs; [|intros [= <- <- <-]; by apply chain_refl]. cbn [negb].
    destruct (drain_data pid s out) as [s1 out1] eqn:E1. apply (drain_data_gated visit_inbound_msg) in E1 as [H1 Hs1]; [|done].
    destruct (try_send_deferred_next pid s1 out1) as [[b s2] out2] eqn:E2. intros [= <- <- <-].
    eapply chain_trans; [exact H1|]. by eapply deferred_gated.
  - destruct (peer_is_syncing s) eqn:Hs; [|intros [= <- <- <-]; by apply chain_refl]. cbn [negb].
    destruct (chainsync.is_idle _); [|intros [= <- <- <-]; by apply chain_refl]. cbn [negb].
    destruct (continue_sync s); [|intros [= <- <- <-]; by apply chain_refl].
    destruct (try_send_request _ _ s out) as [[b s2] out2] eqn:E2. apply (next_gated visit_tagged) in E2; [|done].
    destruct b; intros [= <- <- <-]; [done|]. eapply chain_trans; [exact E2|]. by apply gated_quiet.
  - destruct (intersection v) as [points|]; [|intros [= <- <- <-]; by apply chain_refl].
    destruct (peer_should_sync s) eqn:Hs; [|intros [= <- <- <-]; by apply chain_refl]. cbn [negb].
    destruct (peer_is_syncing s); [intros [= <- <- <-]; by apply chain_refl|].
    destruct (try_send_request _ _ s out) as [[b s2] out2] eqn:E2. intros [= <- <- <-].
    apply try_send_request_spec in E2 as [(_ & _ & _ & _ & -> & ->)|(_ & -> & ->)]; [gate_push|by apply chain_refl].
Qed.
#[export] Instance leiosnotify_gate : Visits gated LeiosNotifyBehavior.
Proof. visit_cases; gate_goal. Qed.
#[export] Instance leiosfetch_gate : Visits gated LeiosFetchBehavior.
Proof. visit_cases; gate_goal. Qed.
End gates.

(** A peer that is not connected has hardly anything to invalidate. *)
Lemma gate_unconnected h pid s s' o :
  connection s = ConnectionState.New \/ connection s = ConnectionState.Disconnected ->
  (awaits_next s = true -> awaits_next s' = true) -> gate h pid s o -> gate h pid s' o.
Proof.
  unfold gate, sendable_in, needs_disconnect, event_in, is_initialized.
  intros [-> | ->] Hn; destruct o as [[q|q m|q]|e]; try destruct e; repeat case_match; naive_solver.
Qed.

(** Completing the handshake invalidates nothing that was pushed before. *)
Lemma gate_initialized pid s o :
  connection s = ConnectionState.Connected ->
  gate visit_inbound_msg pid s o ->
  gate visit_inbound_msg pid (set_connection ConnectionState.Initialized s) o.
Proof.
  unfold gate, sendable_in, needs_disconnect, event_in, is_initialized, state_supports_leios. simpl.
  intros ->. destruct o as [[q|q m|q]|e]; try destruct e; repeat case_match; naive_solver.
Qed.

#[export] Instance connection_gate : Visits gated ConnectionBehavior.
Proof.
  intros h pid v s out v' s' out'. unfold visit, connection_visitor, default_visit.
  destruct h; try (intros ?; simplify_eq/=; by apply gated_quiet).
  - destruct (needs_disconnect s) eqn:E; intros ?; simplify_eq/=; [by apply gated_push|by apply gated_quiet].
  - destruct (needs_connection s) eqn:E.
    + assert (needs_disconnect (set_connection ConnectionState.Connecting s) = false) as -> by done.
      intros ?; simplify_eq/=. unfold needs_connection in E.
      split_and!; [done| |].
      * intros o. apply gate_unconnected; [|done]. destruct (connection s); done || by eauto.
      * eexists [_]. split; [done|]. constructor; [|constructor]. split_and!; [done..|]. simpl.
        destruct (connection s), (promotion s); done || by eauto.
    + destruct (needs_disconnect s) eqn:E'; intros ?; simplify_eq/=; [by apply gated_push|by apply gated_quiet].
Qed.

#[export] Instance handshake_gate : Visits gated HandshakeBehavior.
Proof.
  intros h pid v s out v' s' out'. unfold visit, handshake_visitor, default_visit.
  destruct h; try (intros ?; simplify_eq/=; by apply gated_quiet).
  - unfold propose_handshake. destruct (handshake s) eqn:E; intros ?; simplify_eq/=. by apply gated_push.
  - unfold needs_handshake. case_bool_decide as Hc; [|intros ?; simplify_eq/=; by apply gated_quiet].
    unfold check_confirmation. destruct (handshake s) as [| |[num data| |]] eqn:E; intros ?; simplify_eq/=;
      try by apply gated_quiet.
    split_and!; [done|by intros o; apply gate_initialized|].
    eexists [_]. split; [done|]. by repeat constructor.
Qed.

(** The connection of a peer that needs one is among the outputs. *)
Lemma all_visitors_connects pid (v v' : SubBehaviors) s out s' out' w t :
  visit visit_housekeeping pid v s out = Some (v', s', out') ->
  visit visit_housekeeping pid (sub_promotion v) s out = Some (w, t, out) ->
  needs_connection t = true -> OutCommand (Connect pid) ∈ out'.
Proof.
  intros H E1' Hn. split_visits H. rewrite E1 in E1'. injection E1' as _ -> ->.
  apply (visits (R := gated)) in E3 as (_ & _ & l3 & -> & _), E4 as (_ & _ & l4 & -> & _),
    E5 as (_ & _ & l5 & -> & _), E6 as (_ & _ & l6 & -> & _), E7 as (_ & _ & l7 & -> & _),
    E8 as (_ & _ & l8 & -> & _), E9 as (_ & _ & l9 & -> & _).
  unfold visit, connection_visitor in E2. rewrite Hn in E2. unfold push_ready in E2.
  assert (OutCommand (Connect pid) ∈ out2) as Hin by (repeat case_match; simplify_eq/=; set_solver).
  clear -Hin. set_solver.
Qed.

(** ** The invariant *)

(** ** Unsent requests stay well formed *)
Definition keeps_unsent_wf : step_relation := fun _ _ s _ s' _ =>
  unsent_wf (unsent s) -> unsent_wf (unsent s').

#[export] Instance keeps_unsent_wf_chains : Chains keeps_unsent_wf.
Proof. split; unfold keeps_unsent_wf; auto. Qed.

Section unsent.
Ltac unsent_goal :=
  intros Hwf; simpl in *;
  first [done | by apply map_Forall_insert_2 | by apply unsent_remove_wf].

#[export] Instance connection_unsent : Visits keeps_unsent_wf ConnectionBehavior.
Proof. visit_cases; unsent_goal. Qed.
#[export] Instance handshake_unsent : Visits keeps_unsent_wf HandshakeBehavior.
Proof. visit_cases; unsent_goal. Qed.
#[export] Instance keepalive_unsent : Visits keeps_unsent_wf KeepaliveBehavior.
Proof. visit_cases; unsent_goal. Qed.
#[export] Instance discovery_unsent : Visits keeps_unsent_wf DiscoveryBehavior.
Proof. visit_cases; unsent_goal. Qed.
#[export] Instance blockfetch_unsent : Visits keeps_unsent_wf BlockFetchBehavior.
Proof. visit_cases; unsent_goal. Qed.
#[export] Instance chainsync_unsent : Visits keeps_unsent_wf ChainSyncBehavior.
Proof. visit_cases; unsent_goal. Qed.
#[export] Instance leiosnotify_unsent : Visits keeps_unsent_wf LeiosNotifyBehavior.
Proof. visit_cases; unsent_goal. Qed.
#[export] Instance leiosfetch_unsent : Visits keeps_unsent_wf LeiosFetchBehavior.
Proof. visit_cases; unsent_goal. Qed.
End unsent.

(** ** The invariant *)
Record peer_inv (v : PromotionBehavior) (pid : PeerId) (s : InitiatorState) : Prop := {
  peer_tag : tag_inv pid v s;
  peer_unsent : unsent_wf (unsent s);
  peer_errors : in_u 32 (error_count s)
}.

Record initiator_inv (b : InitiatorBehavior) : Prop := {
  inv_promotion : promotion_inv (sub_promotion (subs b));
  inv_peers : map_Forall (peer_inv (sub_promotion (subs b))) (peers b)
}.

Lemma peer_inv_new v pid : peer_inv v pid new.
Proof. split; [by split|apply unsent_wf_empty|by unfold in_u]. Qed.

(** A visit preserves what concerns its peer. *)
Lemma visit_inv h pid (v : SubBehaviors) s out v' s' out' :
  visit h pid v s out = Some (v', s', out') ->
  (h = visit_discovered -> promotion s = PromotionTag.Cold) ->
  promotion_inv (sub_promotion v) ->
  promotion_inv (sub_promotion v') /\ moves pid (sub_promotion v) (sub_promotion v') /\
  (peer_inv (sub_promotion v) pid s -> peer_inv (sub_promotion v') pid s').
Proof.
  intros H Hh Hinv.
  destruct (all_visitors_rest keeps_unsent_wf _ _ _ _ _ _ _ _ H) as (s1 & out1 & H1 & Hu).
  destruct (all_visitors_rest keeps_tag _ _ _ _ _ _ _ _ H) as (s1' & out1' & H1' & Ht).
  rewrite H1 in H1'. injection H1' as <- <-.
  assert (promoted pid (sub_promotion v) s (sub_promotion v') s1) as [Hst Hm Hi Htag].
  { unfold visit, promotion_visitor, default_visit, mbind, option_bind in H1.
    destruct h; try (injection H1 as <- <- <-; split; eauto using moves_refl).
    - destruct (on_peer_discovered _ _ _) as [[b1 s2]|] eqn:E; [|done]. injection H1 as <- <- <-.
      eapply on_peer_discovered_promoted; eauto.
    - destruct (categorize_peer _ _ _) as [[b1 s2]|] eqn:E; [|done]. injection H1 as <- <- <-.
      by apply categorize_promoted.
    - destruct (categorize_peer _ _ _) as [[b1 s2]|] eqn:E; [|done]. injection H1 as <- <- <-.
      by apply categorize_promoted. }
  split_and!; [by apply Hi|done|]. intros [Hpt Hpu Hpe].
  destruct Ht as [Ht He]. destruct (Htag Hinv Hpt) as [Hw Hho]. split.
  - split; rewrite Ht; [apply Hw|apply Hho].
  - apply Hu. by destruct Hst as [->|[t ->]].
  - rewrite He. by destruct Hst as [->|[t ->]].
Qed.

(** What a visit does for one peer leaves the others' part of the invariant. *)
Lemma peer_inv_moves v v' pid q s : q <> pid -> moves pid v v' -> peer_inv v q s -> peer_inv v' q s.
Proof.
  intros Hq [_ _ Hw Hh _ _] [[Htw Hth] Hu He]. split; [|done..].
  split; intros Ht; [apply Hw|apply Hh]; auto.
Qed.

Lemma modify_inv b pid v' s' out' :
  initiator_inv b -> promotion_inv (sub_promotion v') ->
  moves pid (sub_promotion (subs b)) (sub_promotion v') -> peer_inv (sub_promotion v') pid s' ->
  initiator_inv {| subs := v'; peers := <[pid := s']> (peers b); outbound := out' |}.
Proof.
  intros [_ Hp] Hv Hm Hs. split; [done|]. simpl. intros q s Hq.
  apply lookup_insert_Some in Hq as [[<- <-]|[Hne Hq]]; [done|].
  eapply peer_inv_moves; [|done|by apply Hp]. done.
Qed.

(** [and_modify] with a closure that visits a changed state. *)
Lemma and_modify_inv b pid (f : InitiatorState -> option InitiatorState) h b' :
  initiator_inv b ->
  (forall s s1, peers b !! pid = Some s -> f s = Some s1 ->
     peer_inv (sub_promotion (subs b)) pid s -> peer_inv (sub_promotion (subs b)) pid s1) ->
  h <> visit_discovered ->
  and_modify pid (fun v s out => s ← f s; visit h pid v s out) b = Some b' ->
  initiator_inv b' /\ moves pid (sub_promotion (subs b)) (sub_promotion (subs b')).
Proof.
  intros Hb Hf Hh. unfold and_modify. destruct (peers b !! pid) as [s|] eqn:E.
  - destruct (f s) as [s1|] eqn:Ef; simpl; [|done].
    destruct (visit h pid (subs b) s1 (outbound b)) as [[[v' s'] out']|] eqn:Ev; simpl; [|done].
    intros [= <-]. destruct (visit_inv _ _ _ _ _ _ _ _ Ev) as (Hv & Hm & Hp); [done|by apply Hb|].
    split; [|done]. apply modify_inv; auto. apply Hp, (Hf s); [done..|]. by apply Hb.
  - intros [= <-]. auto using moves_refl.
Qed.

(** ** Every operation preserves the invariant

    [kept b b']: the invariant holds after, under the same configuration, and no
    peer left the banned set. *)
Record kept (b b' : InitiatorBehavior) : Prop := {
  kept_inv : initiator_inv b';
  kept_config : promotion_config (sub_promotion (subs b')) = promotion_config (sub_promotion (subs b));
  kept_banned : banned_peers (sub_promotion (subs b)) ⊆ banned_peers (sub_promotion (subs b'))
}.

Lemma kept_refl b : initiator_inv b -> kept b b.
Proof. by split. Qed.

Lemma kept_trans b1 b2 b3 : kept b1 b2 -> kept b2 b3 -> kept b1 b3.
Proof. intros [? ? ?] [? ? ?]. split; [done|congruence|set_solver]. Qed.

Lemma moves_kept pid b b' :
  initiator_inv b' -> moves pid (sub_promotion (subs b)) (sub_promotion (subs b')) -> kept b b'.
Proof.
  intros Hi [Hc _ _ _ Hb Hbp]. split; [done|done|]. intros q Hq.
  destruct (decide (q = pid)) as [->|]; [auto|by apply Hb].
Qed.

Lemma and_modify_kept b pid f h b' :
  initiator_inv b ->
  (forall s s1, peers b !! pid = Some s -> f s = Some s1 ->
     peer_inv (sub_promotion (subs b)) pid s -> peer_inv (sub_promotion (subs b)) pid s1) ->
  h <> visit_discovered ->
  and_modify pid (fun v s out => s ← f s; visit h pid v s out) b = Some b' -> kept b b'.
Proof. intros. edestruct and_modify_inv; eauto using moves_kept. Qed.

(** Changes to the peer's state that the invariant does not see. *)
Lemma peer_inv_same v pid s s' :
  promotion s' = promotion s -> error_count s' = error_count s -> unsent_wf (unsent s') ->
  peer_inv v pid s -> peer_inv v pid s'.
Proof. intros Hp He Hu [[Hw Hh] _ Herr]. split; [split; rewrite Hp|..|rewrite He]; done. Qed.

Lemma apply_msg_inv v pid s m : peer_inv v pid s -> peer_inv v pid (apply_msg s m).
Proof.
  intros Hs. destruct (apply_msg_frame s m) as (Hp & He & Hu & _).
  eapply peer_inv_same; eauto. rewrite Hu. apply Hs.
Qed.

Lemma clear_unsent_inv `{Minicbor} v pid s m s' :
  clear_unsent s m = Some s' -> peer_inv v pid s -> peer_inv v pid s'.
Proof.
  intros [->|(_ & _ & ->)]%clear_unsent_spec Hs; [done|].
  apply (peer_inv_same v pid s); [done|done|apply unsent_remove_wf, Hs|done].
Qed.

Section operations.
Context `{Minicbor} `{HashOrder}.
Implicit Types b : InitiatorBehavior.

Lemma on_inbound_msg_kept pid m b b' :
  initiator_inv b -> on_inbound_msg pid m b = Some b' -> kept b b'.
Proof.
  intros Hb. apply (and_modify_kept b pid (fun s => Some (apply_msg s m)) visit_inbound_msg); [done| |done].
  intros s s1 _ [= <-]. apply apply_msg_inv.
Qed.

Lemma on_inbound_msgs_kept pid ms b b' :
  initiator_inv b -> on_inbound_msgs pid ms b = Some b' -> kept b b'.
Proof.
  revert b; induction ms as [|m ms IH]; intros b Hb; simpl; [intros [= <-]; by apply kept_refl|].
  destruct (on_inbound_msg pid m b) as [b1|] eqn:E; simpl; [|done]. intros H1.
  apply on_inbound_msg_kept in E; [|done]. eapply kept_trans; [done|]. apply IH; [apply E|done].
Qed.

Lemma on_outbound_msg_kept pid m b b' :
  initiator_inv b -> on_outbound_msg pid m b = Some b' -> kept b b'.
Proof.
  intros Hb. set (f := fun s => s ← clear_unsent s m; Some (apply_msg s m)).
  intros H1. eapply (and_modify_kept b pid f visit_outbound_msg); [done| |done|].
  - intros s s1 _. unfold f. destruct (clear_unsent s m) as [s2|] eqn:E; simpl; [|done].
    intros [= <-] Hs. by eapply apply_msg_inv, clear_unsent_inv.
  - revert H1. unfold on_outbound_msg, and_modify, f. destruct (peers b !! pid); [|done].
    by destruct (clear_unsent _ m).
Qed.

Lemma on_connected_kept pid b b' : initiator_inv b -> on_connected pid b = Some b' -> kept b b'.
Proof.
  intros Hb. apply (and_modify_kept b pid (fun s => Some (set_connection ConnectionState.Connected s))
    visit_connected); [done| |done]. intros s s1 _ [= <-] Hs.
  apply (peer_inv_same _ _ s); [done|done|apply Hs|done].
Qed.

Lemma on_errored_kept pid e b b' :
  initiator_inv b -> handle_io (InterfaceEvent.Error pid e) b = Some b' -> kept b b'.
Proof.
  intros Hb. set (f := fun s => let s := set_connection ConnectionState.Errored s in
    errors ← checked_add 32 (error_count s) 1; Some (set_error_count errors s)).
  intros H1. eapply (and_modify_kept b pid f visit_errored); [done| |done|].
  - intros s s1 _. unfold f. cbn zeta. destruct (checked_add 32 _ 1) as [n|] eqn:E; simpl; [|done].
    intros [= <-] [[Hw Hh] Hu He]. apply checked_add_Some in E as [Hn ->]. simpl in *.
    split; [by split|done|]. unfold in_u in *. simpl. lia.
  - revert H1. unfold handle_io, on_errored, and_modify, f. destruct (peers b !! pid); [|done].
    cbn zeta. by destruct (checked_add 32 _ 1).
Qed.

Lemma on_tagged_kept pid tagger b b' :
  (forall s, peer_inv (sub_promotion (subs b)) pid s -> peer_inv (sub_promotion (subs b)) pid (tagger s)) ->
  initiator_inv b -> on_tagged pid tagger b = Some b' -> kept b b'.
Proof.
  intros Ht Hb. apply (and_modify_kept b pid (fun s => Some (tagger s)) visit_tagged); [done| |done].
  intros s s1 _ [= <-]. apply Ht.
Qed.

Lemma on_discovered_kept pid b b' : initiator_inv b -> on_discovered pid b = Some b' -> kept b b'.
Proof.
  intros Hb. unfold on_discovered.
  destruct (visit visit_discovered pid (subs b) new (outbound b)) as [[[v' s'] out']|] eqn:E; simpl; [|done].
  intros [= <-]. apply visit_inv in E as (Hv & Hm & Hp); [|done|by apply Hb].
  eapply moves_kept; [|done]. apply modify_inv; auto using peer_inv_new.
Qed.

Lemma include_new_kept order b b' : initiator_inv b -> include_new order b = Some b' -> kept b b'.
Proof.
  revert b; induction order as [|pid order IH]; intros b Hb; simpl; [intros [= <-]; by apply kept_refl|].
  destruct (peers b !! pid); [by apply IH|].
  destruct (on_discovered pid b) as [b1|] eqn:E; simpl; [|done]. intros H2.
  apply on_discovered_kept in E; [|done]. eapply kept_trans; [done|]. apply IH; [apply E|done].
Qed.

Lemma move_discovered_kept b b' :
  initiator_inv b -> move_discovered_into_promotion b = Some b' -> kept b b'.
Proof.
  intros Hb. unfold move_discovered_into_promotion.
  destruct (peer_deficit _) as [d|]; simpl; [|done].
  destruct (d =? 0); [intros [= <-]; by apply kept_refl|].
  destruct (drain_new_peers (sub_discovery (subs b)) d) as [fresh disc]. intros H2.
  apply include_new_kept in H2 as [Hi Hc Hbn]; [|by destruct Hb]. by split.
Qed.

Lemma housekeep_peers_kept order b b' :
  initiator_inv b -> housekeep_peers order b = Some b' -> kept b b'.
Proof.
  revert b; induction order as [|pid order IH]; intros b Hb; simpl; [intros [= <-]; by apply kept_refl|].
  destruct (and_modify pid _ b) as [b1|] eqn:E; simpl; [|done]. intros H2.
  apply (and_modify_kept b pid Some visit_housekeeping) in E; [|done|by intros ? ? _ [= <-]|done].
  eapply kept_trans; [done|]. apply IH; [apply E|done].
Qed.

Lemma housekeeping_kept b b' : initiator_inv b -> housekeeping b = Some b' -> kept b b'.
Proof.
  intros Hb. unfold housekeeping. destruct (housekeep_peers _ b) as [b1|] eqn:E; simpl; [|done].
  intros H2. apply housekeep_peers_kept in E; [|done].
  eapply kept_trans; [done|]. apply move_discovered_kept; [apply E|done].
Qed.
End operations.

(** ** The loops that serve requests change only the unsent requests *)
Lemma try_send_request_inv v pid q m s out b s' out' :
  try_send_request q m s out = (b, s', out') -> peer_inv v pid s -> peer_inv v pid s'.
Proof.
  intros [(_ & _ & Hr & Hn & -> & _)|(_ & -> & _)]%try_send_request_spec Hs; [|done].
  apply (peer_inv_same v pid s); [done|done| |done]. apply map_Forall_insert_2; [done|]. apply Hs.
Qed.

Lemma serve_next_inv v pid q x s out x' s' out' :
  serve_next q x s out = (x', s', out') -> peer_inv v pid s -> peer_inv v pid s'.
Proof.
  unfold serve_next. intros H Hs. repeat (split_inner; simplify_eq/=); eauto using try_send_request_inv.
Qed.

Lemma fetch_serve_next_inv v pid q x s out x' s' out' :
  fetch_serve_next q x s out = (x', s', out') -> peer_inv v pid s -> peer_inv v pid s'.
Proof.
  unfold fetch_serve_next. intros H Hs. repeat (split_inner; simplify_eq/=); eauto using try_send_request_inv.
Qed.

(** Replacing one peer's state and a sub-behavior other than the promotion. *)
Lemma replace_peer_kept b pid v' s' out' :
  initiator_inv b -> sub_promotion v' = sub_promotion (subs b) ->
  peer_inv (sub_promotion (subs b)) pid s' ->
  kept b {| subs := v'; peers := <[pid := s']> (peers b); outbound := out' |}.
Proof.
  intros Hb Hv Hs. apply (moves_kept pid); simpl; rewrite ?Hv; [|apply moves_refl].
  apply modify_inv; rewrite ?Hv; [done|by apply Hb|apply moves_refl|done].
Qed.

Lemma serve_block_fetch_loop_kept order b : initiator_inv b -> kept b (serve_block_fetch_loop order b).
Proof.
  revert b; induction order as [|pid order IH]; intros b Hb; simpl; [by apply kept_refl|].
  destruct (negb _); [by apply kept_refl|].
  destruct (peers b !! pid) as [s|] eqn:E; [|by apply IH].
  destruct (serve_next _ _ s _) as [[x s'] out'] eqn:Es.
  assert (kept b {| subs := set_blockfetch_sub x (subs b); peers := <[pid := s']> (peers b); outbound := out' |})
    as Hk.
  { apply replace_peer_kept; [done..|]. eapply serve_next_inv; [done|]. by apply Hb. }
  eapply kept_trans; [done|]. apply IH, Hk.
Qed.

Lemma serve_leios_fetch_kept pid b : initiator_inv b -> kept b (serve_leios_fetch pid b).
Proof.
  intros Hb. unfold serve_leios_fetch. destruct (peers b !! pid) as [s|] eqn:E; [|by apply kept_refl].
  destruct (fetch_serve_next _ _ s _) as [[x s'] out'] eqn:Es.
  apply replace_peer_kept; [done..|]. eapply fetch_serve_next_inv; [done|]. by apply Hb.
Qed.

Section all_operations.
Context `{Minicbor} `{HashOrder}.
Implicit Types b : InitiatorBehavior.

Lemma on_disconnected_kept pid b b' : initiator_inv b -> on_disconnected pid b = Some b' -> kept b b'.
Proof.
  intros Hb. unfold on_disconnected, and_modify. destruct (peers b !! pid) as [s|] eqn:E.
  - destruct (visit visit_disconnected pid (subs b) _ _) as [[[v' s'] out']|] eqn:Ev; simpl; [|done].
    intros [= <-]. apply visit_inv in Ev as (Hv & Hm & Hp); [|done|by apply Hb].
    set (b1 := {| subs := v'; peers := <[pid := reset s']> (peers b); outbound := out' |}).
    assert (kept b b1) as Hk.
    { apply (moves_kept pid); [|done]. apply modify_inv; [done..|]. rewrite reset_spec.
      pose proof (inv_peers _ Hb _ _ E) as Hs.
      assert (peer_inv (sub_promotion v') pid s') as [_ _ He].
      { apply Hp, (peer_inv_same _ _ s); [done|done|apply Hs|done]. }
      split; [by split|apply unsent_wf_empty|done]. }
    eapply kept_trans; [done|]. apply serve_block_fetch_loop_kept, Hk.
  - simpl. intros [= <-]. by apply serve_block_fetch_loop_kept.
Qed.

Lemma with_subs_inv v' b :
  initiator_inv b -> sub_promotion v' = sub_promotion (subs b) -> kept b (with_subs v' b).
Proof. intros [Hp Hs] Hv. split; [split|..]; simpl; rewrite Hv; done. Qed.

Lemma fetch_command_kept pid r b :
  initiator_inv b -> kept b (serve_leios_fetch pid (enqueue_fetch pid r b)).
Proof.
  intros Hb. assert (kept b (enqueue_fetch pid r b)) as Hk by by apply with_subs_inv.
  eapply kept_trans; [done|]. apply serve_leios_fetch_kept, Hk.
Qed.

Lemma handle_io_kept e b b' : initiator_inv b -> handle_io e b = Some b' -> kept b b'.
Proof.
  intros Hb. destruct e as [pid|pid|pid m|pid ms|pid err|]; cbn [handle_io].
  - by apply on_connected_kept.
  - by apply on_disconnected_kept.
  - by apply on_outbound_msg_kept.
  - by apply on_inbound_msgs_kept.
  - by apply (on_errored_kept pid err).
  - by apply housekeeping_kept.
Qed.

Lemma execute_kept c b b' : initiator_inv b -> execute c b = Some b' -> kept b b'.
Proof.
  intros Hb. destruct c as [pid| |points|pid|range|pid x y|pid eb|pid eb bm|pid|pid]; cbn [execute].
  - case_match; [by apply on_discovered_kept|]. intros [= <-]. by apply kept_refl.
  - by apply housekeeping_kept.
  - intros [= <-]. by apply with_subs_inv.
  - apply on_tagged_kept; [|done]. intros s Hs. apply (peer_inv_same _ _ s); [done|done|apply Hs|done].
  - intros [= <-].
    assert (kept b (with_subs (set_blockfetch_sub (enqueue (sub_blockfetch (subs b)) range) (subs b)) b))
      as Hk by by apply with_subs_inv.
    eapply kept_trans; [done|]. apply serve_block_fetch_loop_kept, Hk.
  - intros [= <-]. by apply kept_refl.
  - intros [= <-]. by apply fetch_command_kept.
  - intros [= <-]. by apply fetch_command_kept.
  - apply on_tagged_kept; [|done]. intros s [_ Hu He]. split; [by split|done..].
  - apply on_tagged_kept; [|done]. intros s [_ Hu He]. split; [by split|done..].
Qed.
End all_operations.

(** ** Where the behavior can panic *)
Section panics.
Context `{Minicbor} `{HashOrder}.
Implicit Types b : InitiatorBehavior.

(** The three events that make a checked build panic. *)
Definition io_panics (e : InterfaceEvent.t AnyMessage.t) b : Prop :=
  match e with
  | InterfaceEvent.Connected pid =>
      exists s, peers b !! pid = Some s /\ handshake s <> handshake.State.Propose
  | InterfaceEvent.Error pid _ => exists s, peers b !! pid = Some s /\ error_count s = 2 ^ 32 - 1
  | InterfaceEvent.Sent pid m =>
      exists s u, peers b !! pid = Some s /\ by_channel (unsent s) !! any_channel m = Some u /\ ~ writable m
  | _ => False
  end.

Lemma and_modify_total pid f b :
  (forall s, peers b !! pid = Some s -> is_Some (f (subs b) s (outbound b))) <->
  is_Some (and_modify pid f b).
Proof.
  unfold and_modify. destruct (peers b !! pid) as [s|] eqn:E.
  - split.
    + intros Hf. destruct (Hf s eq_refl) as [[[v' s'] out'] ->]. by eexists.
    + intros [b' Hb'] s1 [= <-]. destruct (f _ _ _); [by eexists|done].
  - split; [by eexists|done].
Qed.

Lemma visit_is_Some h pid b s :
  initiator_inv b -> h <> visit_connected -> is_Some (visit h pid (subs b) s (outbound b)).
Proof. intros Hb Hh. by apply all_visitors_total; [apply Hb|]. Qed.

Lemma on_inbound_msg_total pid m b : initiator_inv b -> is_Some (on_inbound_msg pid m b).
Proof. intros Hb. apply and_modify_total. intros s _. by apply visit_is_Some. Qed.

Lemma on_inbound_msgs_total pid ms b : initiator_inv b -> is_Some (on_inbound_msgs pid ms b).
Proof.
  revert b; induction ms as [|m ms IH]; intros b Hb; simpl; [by eexists|].
  destruct (on_inbound_msg_total pid m b Hb) as [b1 E]. rewrite E. simpl.
  apply IH. by eapply on_inbound_msg_kept.
Qed.

Lemma on_discovered_total pid b : initiator_inv b -> is_Some (on_discovered pid b).
Proof.
  intros Hb. unfold on_discovered.
  destruct (visit_is_Some visit_discovered pid b new Hb) as [[[v' s'] out'] ->]; [done|by eexists].
Qed.

Lemma include_new_total order b : initiator_inv b -> is_Some (include_new order b).
Proof.
  revert b; induction order as [|pid order IH]; intros b Hb; simpl; [by eexists|].
  destruct (peers b !! pid); [by apply IH|].
  destruct (on_discovered_total pid b Hb) as [b1 E]. rewrite E. simpl.
  apply IH. by eapply on_discovered_kept.
Qed.

Lemma housekeep_peers_total order b : initiator_inv b -> is_Some (housekeep_peers order b).
Proof.
  revert b; induction order as [|pid order IH]; intros b Hb; simpl; [by eexists|].
  destruct (and_modify pid _ b) as [b1|] eqn:E; simpl.
  - apply IH. apply (and_modify_kept b pid Some visit_housekeeping) in E; [apply E|done| |done].
    by intros ? ? _ [= <-].
  - exfalso. apply eq_None_not_Some in E. apply E, and_modify_total. intros s _. by apply visit_is_Some.
Qed.

Lemma housekeeping_total b : initiator_inv b -> is_Some (housekeeping b).
Proof.
  intros Hb. unfold housekeeping. destruct (housekeep_peers_total (peers_order (dom (peers b))) b Hb) as [b1 E].
  rewrite E. simpl. apply housekeep_peers_kept in E as [Hb1 _ _]; [|done].
  unfold move_discovered_into_promotion, peer_deficit.
  rewrite checked_sub_le by apply Hb1. simpl. case_match; [by eexists|].
  apply include_new_total. by destruct Hb1.
Qed.

Lemma execute_total c b : initiator_inv b -> is_Some (execute c b).
Proof.
  intros Hb. destruct c; cbn [execute]; try (by eexists).
  - case_match; [by apply on_discovered_total|by eexists].
  - by apply housekeeping_total.
  - apply and_modify_total. intros s _. by apply visit_is_Some.
  - apply and_modify_total. intros s _. by apply visit_is_Some.
  - apply and_modify_total. intros s _. by apply visit_is_Some.
Qed.

Lemma on_disconnected_total pid b : initiator_inv b -> is_Some (on_disconnected pid b).
Proof.
  intros Hb. unfold on_disconnected.
  match goal with |- context [and_modify pid ?f b] => destruct (proj1 (and_modify_total pid f b)) as [b1 ->] end;
    [|by eexists].
  intros s _. cbn zeta.
  destruct (visit_is_Some visit_disconnected pid b (set_connection ConnectionState.Disconnected s) Hb)
    as [[[v' s'] out'] ->]; [done|by eexists].
Qed.

(** A connection is proposed exactly to a peer that has not shaken hands yet. *)
Lemma on_connected_panics pid b :
  initiator_inv b -> on_connected pid b = None <-> io_panics (InterfaceEvent.Connected pid) b.
Proof.
  intros Hb. simpl. unfold on_connected, and_modify. destruct (peers b !! pid) as [s|]; [|naive_solver].
  pose proof (all_visitors_total visit_connected pid (subs b) (set_connection ConnectionState.Connected s)
    (outbound b) (inv_promotion _ Hb)) as Ht. cbn zeta.
  destruct (visit visit_connected pid (subs b) _ _) as [[[v' s'] out']|]; simpl.
  - split; [done|]. intros (s1 & [= <-] & Hne). destruct Hne. by apply (proj1 Ht ltac:(by eexists)).
  - split; [|done]. intros _. exists s. split; [done|]. intros Hs.
    by destruct (proj2 Ht (fun _ => Hs)).
Qed.

Lemma on_errored_panics pid err b :
  initiator_inv b -> on_errored pid b = None <-> io_panics (InterfaceEvent.Error pid err) b.
Proof.
  intros Hb. simpl. unfold on_errored, and_modify. destruct (peers b !! pid) as [s|] eqn:E; [|naive_solver].
  destruct (inv_peers _ Hb _ _ E) as [_ _ [Hl Hu]]. cbn zeta.
  change (error_count (set_connection ConnectionState.Errored s)) with (error_count s).
  destruct (checked_add 32 (error_count s) 1) as [n|] eqn:Ea; cbn [mbind option_bind].
  - apply checked_add_Some in Ea as [Hn ->].
    destruct (visit_is_Some visit_errored pid b
      (set_error_count (error_count s + 1) (set_connection ConnectionState.Errored s)) Hb) as [[[? ?] ?] ->]; [done|].
    split; [done|]. intros (s1 & [= <-] & Hs). lia.
  - split; [|done]. intros _. exists s. split; [done|].
    unfold checked_add in Ea. destruct (Z.ltb_spec (error_count s + 1) (2 ^ 32)); [done|]. lia.
Qed.

Lemma on_outbound_msg_panics pid m b :
  initiator_inv b -> on_outbound_msg pid m b = None <-> io_panics (InterfaceEvent.Sent pid m) b.
Proof.
  intros Hb. simpl. unfold on_outbound_msg, and_modify. destruct (peers b !! pid) as [s|] eqn:E; [|naive_solver].
  destruct (inv_peers _ Hb _ _ E) as [_ Hwf _]. unfold clear_unsent, unsent_contains.
  destruct (by_channel (unsent s) !! any_channel m) as [u|] eqn:Eu.
  - destruct (Hwf _ _ Eu) as [_ Hr]. apply is_request_writable, any_payload_writable in Hr as [a ->]. simpl.
    destruct (any_payload m) as [w|] eqn:Ew; cbn [mbind option_bind].
    + split.
      * match goal with |- context [if ?c then Some ?x else Some ?y] => replace (if c then Some x else Some y)
          with (Some (if c then x else y)) by (by destruct c) end. cbn [mbind option_bind].
        match goal with |- context [visit ?h pid ?v ?x ?o] =>
          destruct (visit_is_Some h pid b x Hb) as [[[? ?] ?] ->]; done end.
      * intros (s1 & u1 & [= <-] & Hu1 & Hw). destruct Hw. apply any_payload_writable. by eexists.
    + split; [|done]. intros _. exists s, u. split_and!; [done..|].
      intros [x Hx]%any_payload_writable. congruence.
  - cbn [mbind option_bind andb].
    match goal with |- context [visit ?h pid ?v ?x ?o] =>
      destruct (visit_is_Some h pid b x Hb) as [[[? ?] ?] ->]; [done|] end.
    split; [done|]. naive_solver.
Qed.

Lemma handle_io_panics e b : initiator_inv b -> handle_io e b = None <-> io_panics e b.
Proof.
  intros Hb. destruct e as [pid|pid|pid m|pid ms|pid err|]; cbn [handle_io].
  - by apply on_connected_panics.
  - destruct (on_disconnected_total pid b Hb) as [b' ->]. done.
  - by apply on_outbound_msg_panics.
  - destruct (on_inbound_msgs_total pid ms b Hb) as [b' ->]. done.
  - by apply on_errored_panics.
  - destruct (housekeeping_total b Hb) as [b' ->]. done.
Qed.
End panics.
