(* ===== verification/Ledger.v ===== *)
(** * The ledger of block ranges

    Where a block range handed to the initiator is: in the queue, on its way to a
    peer, or in flight at one.  The lemmas of this file follow the ranges through
    the visits and the loops of the behavior. *)
From S2P Require Import Prelude Cbor Protocol Network Chainsync Blockfetch Keepalive.
From S2P Require Import Txsubmission Peersharing Handshake HandshakeVersions.
From S2P Require Import LeiosProtocols AnyMessage Unsent InitiatorState Promotion.
From S2P Require Import Connection Discovery Fetching Leios Initiator InitiatorInv.

(** ** The ranges one peer holds *)
Definition unsent_ranges (s : InitiatorState) : list BlockRange :=
  match by_channel (unsent s) !! blockfetch.CHANNEL_ID with
  | Some (AnyMessage.BlockFetch (blockfetch.Message.RequestRange r)) => [r]
  | _ => []
  end.

Definition ranges (s : InitiatorState) : list BlockRange := option_list (in_flight s) ++ unsent_ranges s.

(** A peer waits for the range it was asked for and for no other, and holds nothing
    before it is connected. *)
Record block_ok (s : InitiatorState) : Prop := {
  ok_idle : is_idle s = true -> in_flight s = None;
  ok_busy r : blockfetch s = blockfetch.State.Busy r -> in_flight s = Some r;
  ok_new : connection s = ConnectionState.New -> ranges s = []
}.

(** Only the block-fetch sub-behavior touches any of this. *)
Definition keeps_blocks : step_relation := fun _ _ s _ s' _ =>
  blockfetch s' = blockfetch s /\ in_flight s' = in_flight s /\
  by_channel (unsent s') !! blockfetch.CHANNEL_ID = by_channel (unsent s) !! blockfetch.CHANNEL_ID /\
  (connection s' = ConnectionState.New -> connection s = ConnectionState.New).

#[export] Instance keeps_blocks_chains : Chains keeps_blocks.
Proof. split; unfold keeps_blocks; naive_solver congruence. Qed.

Section blocks.
#[export] Instance promotion_blocks : Visits keeps_blocks PromotionBehavior.
Proof. intros h pid v s out v' s' out' [-> [->|[t ->]]]%promotion_visit_state; by split_and!. Qed.

Ltac blocks_goal :=
  split_and!; simpl; rewrite ?lookup_insert_ne by done; done.

#[export] Instance connection_blocks : Visits keeps_blocks ConnectionBehavior.
Proof. visit_cases; blocks_goal. Qed.
#[export] Instance handshake_blocks : Visits keeps_blocks HandshakeBehavior.
Proof. visit_cases; blocks_goal. Qed.
#[export] Instance keepalive_blocks : Visits keeps_blocks KeepaliveBehavior.
Proof. visit_cases; blocks_goal. Qed.
#[export] Instance discovery_blocks : Visits keeps_blocks DiscoveryBehavior.
Proof. visit_cases; blocks_goal. Qed.
#[export] Instance chainsync_blocks : Visits keeps_blocks ChainSyncBehavior.
Proof. visit_cases; blocks_goal. Qed.
#[export] Instance leiosnotify_blocks : Visits keeps_blocks LeiosNotifyBehavior.
Proof. visit_cases; blocks_goal. Qed.
#[export] Instance leiosfetch_blocks : Visits keeps_blocks LeiosFetchBehavior.
Proof. visit_cases; blocks_goal. Qed.
End blocks.

Lemma keeps_blocks_ranges h pid s out s' out' :
  keeps_blocks h pid s out s' out' -> ranges s' = ranges s.
Proof. intros (Hb & Hi & Hu & _). unfold ranges, unsent_ranges. by rewrite Hi, Hu. Qed.

Lemma keeps_blocks_ok h pid s out s' out' :
  keeps_blocks h pid s out s' out' -> block_ok s -> block_ok s'.
Proof.
  intros Hk [Hi Hb Hn]. pose proof (keeps_blocks_ranges _ _ _ _ _ _ Hk) as Hr.
  destruct Hk as (Hbf & Hif & _ & Hc). split; unfold is_idle in *.
  - rewrite Hbf, Hif. done.
  - intros r. rewrite Hbf, Hif. apply Hb.
  - intros Hnew. rewrite Hr. auto.
Qed.

(** ** The block-fetch visits *)
Lemma serve_next_ledger pid v s out v' s' out' :
  serve_next pid v s out = (v', s', out') ->
  requests v' ++ ranges s' ≡ₚ requests v ++ ranges s /\
  connection s' = connection s /\ blockfetch s' = blockfetch s /\ in_flight s' = in_flight s /\
  (connection s = ConnectionState.New -> ranges s' = ranges s).
Proof.
  unfold serve_next, blockfetch_peer_is_available. intros H.
  destruct (negb _) eqn:Ha; [by simplify_eq|].
  destruct (requests v) as [|r rest] eqn:Hr; [simplify_eq; by rewrite Hr|].
  destruct (try_send_request _ _ s out) as [[sent s1] out1] eqn:E.
  apply try_send_request_spec in E as [(-> & _ & _ & Hn & -> & ->)|(-> & -> & ->)]; simplify_eq/=;
    [|by rewrite Hr].
  assert (connection s = ConnectionState.Initialized) as Hc.
  { apply negb_false_iff, andb_true_iff in Ha as [[Hc _]%andb_true_iff _]. by apply bool_decide_eq_true in Hc. }
  split_and!; try done; [|congruence].
  unfold ranges, unsent_ranges. simpl. cbn in Hn. rewrite Hn, lookup_insert_eq. simpl.
  rewrite app_nil_r, app_assoc. by rewrite <- Permutation_cons_append.
Qed.

Lemma serve_next_ok pid v s out v' s' out' :
  serve_next pid v s out = (v', s', out') -> block_ok s -> block_ok s'.
Proof.
  intros (_ & Hc & Hb & Hi & Hn)%serve_next_ledger [Hidle Hbusy Hnew]. split; unfold is_idle in *.
  - by rewrite Hb, Hi.
  - rewrite Hb, Hi. done.
  - rewrite Hc. intros Hc'. rewrite Hn by done. auto.
Qed.

(** The range a message of the peer has just completed, and the one whose request
    has just been sent. *)
Definition finished (h : Hook) (s : InitiatorState) : list BlockRange :=
  match h with
  | visit_inbound_msg => if is_idle s then option_list (in_flight s) else []
  | _ => []
  end.

Definition started (h : Hook) (s : InitiatorState) : list BlockRange :=
  match h with
  | visit_outbound_msg =>
      match blockfetch s, in_flight s with
      | blockfetch.State.Busy r, None => [r]
      | _, _ => []
      end
  | _ => []
  end.

(** What [block_ok] asks before a visit: the visits of messages restore the rest. *)
Record block_pre (h : Hook) (s : InitiatorState) : Prop := {
  pre_idle : h <> visit_inbound_msg -> is_idle s = true -> in_flight s = None;
  pre_busy r : blockfetch s = blockfetch.State.Busy r ->
    in_flight s = Some r \/ (h = visit_outbound_msg /\ in_flight s = None);
  pre_new : connection s = ConnectionState.New -> ranges s = [] /\ started h s = []
}.

Lemma block_ok_pre h s : block_ok s -> block_pre h s.
Proof.
  intros [Hi Hb Hn]. split; [auto|intros r Hr; left; auto|]. intros Hc. split; [auto|].
  unfold started. destruct h; try done. destruct (blockfetch s) eqn:E; try done. by rewrite (Hb _ eq_refl).
Qed.

Lemma ranges_in_flight s : ranges s = option_list (in_flight s) ++ unsent_ranges s.
Proof. done. Qed.

Lemma take_unsent_range_spec s r s' :
  take_unsent_range s = (r, s') ->
  option_list r = unsent_ranges s /\ s' = set_unsent (unsent_remove (unsent s) blockfetch.CHANNEL_ID) s.
Proof.
  unfold take_unsent_range, unsent_ranges. intros H. repeat (case_match; simplify_eq/=); done.
Qed.

Lemma ranges_cleared u s :
  by_channel u !! blockfetch.CHANNEL_ID = None -> ranges (set_unsent u (set_in_flight None s)) = [].
Proof. intros Hu. unfold ranges, unsent_ranges. simpl. by rewrite Hu. Qed.

Lemma blockfetch_visit_ledger h pid v s out v' s' out' :
  visit h pid v s out = Some (v', s', out') ->
  requests v' ++ ranges s' ++ finished h s ≡ₚ requests v ++ ranges s ++ started h s /\
  connection s' = connection s /\
  (h <> visit_disconnected -> block_pre h s -> block_ok s').
Proof.
  unfold visit, blockfetch_visitor, default_visit. destruct h.
  1,3,4,7: intros [= <- <- <-]; simpl; rewrite !app_nil_r; split_and!; try done;
    intros _ [Hi Hb Hn]; split; [by apply Hi|by intros r [|[? _]]%Hb|by intros [? _]%Hn].
  - destruct (take_unsent_range (set_in_flight None s)) as [r s1] eqn:E.
    apply take_unsent_range_spec in E as [Hr ->]. intros [= <- <- <-].
    split_and!; [|done..].
    rewrite ranges_cleared by apply lookup_delete_eq.
    change (unsent_ranges (set_in_flight None s)) with (unsent_ranges s) in Hr.
    rewrite (ranges_in_flight s), <- Hr. simpl. destruct (in_flight s), r; simpl; rewrite ?app_nil_r; solve_Permutation.
  - intros [= H]. destruct (is_idle s) eqn:Hidle.
    + pose proof (serve_next_ok _ _ _ _ _ _ _ H) as Hok.
      apply serve_next_ledger in H as (Hp & Hc & _). split_and!; [|done|].
      * simpl. rewrite Hidle, app_nil_r, app_assoc, Hp. unfold ranges. simpl.
        change (unsent_ranges (set_in_flight None s)) with (unsent_ranges s). solve_Permutation.
      * intros _ [_ Hb Hn]. apply Hok. split; simpl; [done| |].
        -- intros r Hr. unfold is_idle in Hidle. by rewrite Hr in Hidle.
        -- intros [Hr _]%Hn. unfold ranges in *. apply app_eq_nil in Hr as [_ Hr]. exact Hr.
    + pose proof (serve_next_ok _ _ _ _ _ _ _ H) as Hok.
      apply serve_next_ledger in H as (Hp & Hc & _). split_and!; [|done|].
      * simpl. by rewrite Hidle, !app_nil_r.
      * intros _ [_ Hb Hn]. apply Hok. split; [by rewrite Hidle|by intros r [|[? _]]%Hb|by intros [? _]%Hn].
  - destruct (blockfetch s) as [|r| |] eqn:Hb.
    2: destruct (in_flight s) eqn:Hi.
    all: intros [= <- <- <-]; simpl; rewrite ?Hb, ?Hi, ?app_nil_r; split_and!; try done; try intros _ [Hidle Hbusy Hnew].
    1,2,5,6: split; [by apply Hidle|intros ? Hr; destruct (Hbusy _ Hr) as [|[_ ?]]; congruence|by intros [? _]%Hnew].
    + unfold ranges. simpl. rewrite Hi. change (unsent_ranges (set_in_flight (Some r) s)) with (unsent_ranges s).
      simpl. by rewrite <- Permutation_cons_append.
    + split; simpl; [unfold is_idle; simpl; by rewrite Hb|congruence|].
      intros [_ Hs]%Hnew. unfold started in Hs. by rewrite Hb, Hi in Hs.
  - intros [= H]. pose proof (serve_next_ok _ _ _ _ _ _ _ H) as Hok.
    apply serve_next_ledger in H as (Hp & Hc & _). simpl. rewrite !app_nil_r. split_and!; [done..|].
    intros _ [Hi Hb Hn]. apply Hok. split; [by apply Hi|by intros r [|[? _]]%Hb|by intros [? _]%Hn].
Qed.

(** ** All visitors *)
Lemma keeps_blocks_marks h pid s out s' out' :
  keeps_blocks h pid s out s' out' -> finished h s' = finished h s /\ started h s' = started h s.
Proof. intros (Hb & Hi & _). unfold finished, started, is_idle. by rewrite Hb, Hi. Qed.

Lemma keeps_blocks_pre h pid s out s' out' :
  keeps_blocks h pid s out s' out' -> block_pre h s -> block_pre h s'.
Proof.
  intros Hk [Hi Hb Hn]. pose proof (keeps_blocks_ranges _ _ _ _ _ _ Hk) as Hr.
  destruct (keeps_blocks_marks _ _ _ _ _ _ Hk) as [_ Hs].
  destruct Hk as (Hbf & Hif & _ & Hc). split.
  - unfold is_idle in *. by rewrite Hbf, Hif.
  - intros r. rewrite Hbf, Hif. apply Hb.
  - rewrite Hr, Hs. auto.
Qed.

Lemma visit_ledger h pid (v : SubBehaviors) s out v' s' out' :
  visit h pid v s out = Some (v', s', out') ->
  requests (sub_blockfetch v') ++ ranges s' ++ finished h s ≡ₚ
    requests (sub_blockfetch v) ++ ranges s ++ started h s /\
  (h <> visit_disconnected -> block_pre h s -> block_ok s').
Proof.
  intros (s1 & out1 & s2 & out2 & H1 & Hv & H2)%(all_visitors_blockfetch keeps_blocks).
  apply blockfetch_visit_ledger in Hv as (Hp & _ & Hok).
  pose proof (keeps_blocks_ranges _ _ _ _ _ _ H1) as Hr1.
  pose proof (keeps_blocks_ranges _ _ _ _ _ _ H2) as Hr2.
  destruct (keeps_blocks_marks _ _ _ _ _ _ H1) as [Hf Hs].
  split; [by rewrite Hr2, <- Hr1, <- Hf, <- Hs|].
  intros Hh Hpre. eapply keeps_blocks_ok; [done|]. by eapply Hok, keeps_blocks_pre.
Qed.

(** ** The ranges of all peers *)
Definition held (m : gmap PeerId InitiatorState) : list BlockRange :=
  map_to_list m ≫= (fun kv => ranges kv.2).

Definition ledger (b : InitiatorBehavior) : list BlockRange :=
  requests (sub_blockfetch (subs b)) ++ held (peers b).

(** Every peer's bookkeeping is sound. *)
Definition blocks_sound (b : InitiatorBehavior) : Prop := map_Forall (fun _ s => block_ok s) (peers b).

Lemma held_insert_new m pid s : m !! pid = None -> held (<[pid := s]> m) ≡ₚ ranges s ++ held m.
Proof. intros Hm. unfold held. by rewrite map_to_list_insert. Qed.

Lemma held_insert m pid s s' :
  m !! pid = Some s -> held (<[pid := s']> m) ++ ranges s ≡ₚ held m ++ ranges s'.
Proof.
  intros Hm. rewrite <- (insert_delete_id m pid s Hm) at 2.
  rewrite <- insert_delete_eq. rewrite !held_insert_new by apply lookup_delete_eq. solve_Permutation.
Qed.

Lemma held_insert_any m pid s s' :
  (forall s, m !! pid = Some s -> ranges s = []) -> m !! pid = s ->
  held (<[pid := s']> m) ≡ₚ held m ++ ranges s'.
Proof.
  intros Hn Hs. destruct s as [s|].
  - rewrite <- held_insert by done. by rewrite (Hn _ Hs), app_nil_r.
  - rewrite held_insert_new by done. solve_Permutation.
Qed.

Lemma block_ok_new : block_ok new.
Proof. by split. Qed.

Lemma block_ok_reset s : block_ok (reset s) /\ ranges (reset s) = [].
Proof. rewrite reset_spec. by split. Qed.

(** ** Events and commands on the ledger *)
Section events.
Implicit Types b : InitiatorBehavior.

(** One peer visited in a changed state [s1]. *)
Lemma visit_peer_ledger h pid b s s1 v' s' out' :
  peers b !! pid = Some s -> blocks_sound b ->
  visit h pid (subs b) s1 (outbound b) = Some (v', s', out') ->
  h <> visit_disconnected -> block_pre h s1 ->
  let b' := {| subs := v'; peers := <[pid := s']> (peers b); outbound := out' |} in
  ledger b' ++ finished h s1 ++ ranges s ≡ₚ ledger b ++ ranges s1 ++ started h s1 /\ blocks_sound b'.
Proof.
  intros Hs Hb Hv Hh Hpre. apply visit_ledger in Hv as [Hp Hok]. unfold ledger; simpl. split.
  - pose proof (held_insert _ _ _ s' Hs) as Hheld.
    transitivity ((requests (sub_blockfetch v') ++ ranges s' ++ finished h s1) ++ held (peers b)).
    + transitivity (requests (sub_blockfetch v') ++ finished h s1 ++ held (<[pid:=s']> (peers b)) ++ ranges s);
        [solve_Permutation|]. rewrite Hheld. solve_Permutation.
    + rewrite Hp. solve_Permutation.
  - apply map_Forall_insert_2; auto.
Qed.

(** [and_modify] with a closure that leaves the ranges of the peer alone. *)
Lemma and_modify_ledger h pid (f : InitiatorState -> option InitiatorState) b b' :
  h <> visit_disconnected -> finished h = (fun _ => []) -> started h = (fun _ => []) -> blocks_sound b ->
  (forall s s1, peers b !! pid = Some s -> f s = Some s1 -> block_ok s -> block_ok s1 /\ ranges s1 = ranges s) ->
  and_modify pid (fun v s out => s ← f s; visit h pid v s out) b = Some b' ->
  ledger b' ≡ₚ ledger b /\ blocks_sound b'.
Proof.
  intros Hh Hfin Hst Hb Hf. unfold and_modify. destruct (peers b !! pid) as [s|] eqn:Es.
  - destruct (f s) as [s1|] eqn:Ef; simpl; [|done].
    destruct (visit h pid (subs b) s1 (outbound b)) as [[[v' s'] out']|] eqn:E; simpl; [|done].
    destruct (Hf _ _ eq_refl Ef (Hb _ _ Es)) as [Hok Hr].
    destruct (visit_peer_ledger _ _ _ _ _ _ _ _ Es Hb E Hh (block_ok_pre h s1 Hok)) as [Hl Hs].
    intros [= <-]. split; [|done]. rewrite Hfin, Hst, Hr, app_nil_r in Hl. simpl in Hl.
    by apply Permutation_app_inv_r in Hl.
  - by intros [= <-].
Qed.

Lemma block_ok_same s s' :
  blockfetch s' = blockfetch s -> in_flight s' = in_flight s -> unsent s' = unsent s ->
  (connection s' = ConnectionState.New -> connection s = ConnectionState.New) ->
  block_ok s -> block_ok s' /\ ranges s' = ranges s.
Proof.
  intros Hb Hi Hu Hc Hok.
  assert (keeps_blocks visit_tagged {| host := ""; port := 0 |} s [] s' []) as Hk by (split_and!; [done..|by rewrite Hu|done]).
  split; [by eapply keeps_blocks_ok|by eapply keeps_blocks_ranges].
Qed.

Lemma serve_block_fetch_loop_ledger order b :
  blocks_sound b ->
  ledger (serve_block_fetch_loop order b) ≡ₚ ledger b /\ blocks_sound (serve_block_fetch_loop order b).
Proof.
  revert b; induction order as [|pid order IH]; intros b Hb; cbn [serve_block_fetch_loop]; [done|].
  destruct (negb _); [done|]. destruct (peers b !! pid) as [s|] eqn:Es; [|by apply IH].
  destruct (serve_next _ _ s _) as [[x s'] out'] eqn:E.
  set (b1 := {| subs := _; peers := _; outbound := _ |}).
  assert (ledger b1 ≡ₚ ledger b /\ blocks_sound b1) as [Hl Hs].
  { pose proof (serve_next_ok _ _ _ _ _ _ _ E (Hb _ _ Es)) as Hok.
    apply serve_next_ledger in E as [Hp _]. pose proof (held_insert _ _ _ s' Es) as Hheld.
    split; [|by apply map_Forall_insert_2]. unfold ledger, b1; simpl.
    apply (Permutation_app_inv_r (ranges s)). rewrite <- app_assoc, Hheld.
    transitivity ((requests x ++ ranges s') ++ held (peers b)); [solve_Permutation|].
    rewrite Hp. solve_Permutation. }
  destruct (IH b1 Hs) as [Hl' Hs']. split; [by rewrite Hl'|done].
Qed.

Lemma on_discovered_ledger pid b b' :
  blocks_sound b -> (forall s, peers b !! pid = Some s -> connection s = ConnectionState.New) ->
  on_discovered pid b = Some b' -> ledger b' ≡ₚ ledger b /\ blocks_sound b'.
Proof.
  intros Hb Hnew. unfold on_discovered.
  destruct (visit visit_discovered pid (subs b) new (outbound b)) as [[[v' s'] out']|] eqn:E; simpl; [|done].
  intros [= <-]. apply visit_ledger in E as [Hp Hok]. simpl in Hp. rewrite !app_nil_r in Hp.
  split; [|apply map_Forall_insert_2; [|done]; apply Hok; [done|]; apply block_ok_pre, block_ok_new].
  unfold ledger; simpl. rewrite (held_insert_any _ _ (peers b !! pid)); [|intros s Hs; apply (Hb _ _ Hs); auto|done].
  rewrite <- Hp. solve_Permutation.
Qed.

Lemma include_new_ledger order b b' :
  blocks_sound b -> include_new order b = Some b' -> ledger b' ≡ₚ ledger b /\ blocks_sound b'.
Proof.
  revert b; induction order as [|pid order IH]; intros b Hb; cbn [include_new]; [by intros [= <-]|].
  destruct (peers b !! pid) eqn:Ep; [by apply IH|].
  destruct (on_discovered pid b) as [b1|] eqn:E; simpl; [|done].
  apply on_discovered_ledger in E as [Hl Hs]; [|done|congruence].
  intros [Hl' Hs']%IH; [|done]. split; [by rewrite Hl'|done].
Qed.

Lemma housekeep_peers_ledger order b b' :
  blocks_sound b -> housekeep_peers order b = Some b' -> ledger b' ≡ₚ ledger b /\ blocks_sound b'.
Proof.
  revert b; induction order as [|pid order IH]; intros b Hb; cbn [housekeep_peers]; [by intros [= <-]|].
  destruct (and_modify pid _ b) as [b1|] eqn:E; simpl; [|done].
  apply (and_modify_ledger visit_housekeeping pid Some) in E as [Hl Hs]; try done;
    [|by intros s s1 _ [= <-]].
  intros [Hl' Hs']%IH; [|done]. split; [by rewrite Hl'|done].
Qed.

Lemma housekeeping_ledger `{HashOrder} b b' :
  blocks_sound b -> housekeeping b = Some b' -> ledger b' ≡ₚ ledger b /\ blocks_sound b'.
Proof.
  intros Hb. unfold housekeeping. destruct (housekeep_peers _ b) as [b1|] eqn:E; simpl; [|done].
  apply housekeep_peers_ledger in E as [Hl Hs]; [|done].
  unfold move_discovered_into_promotion. destruct (peer_deficit _) as [d|]; simpl; [|done].
  destruct (d =? 0); [by intros [= <-]|].
  intros [Hl' Hs']%include_new_ledger; [|done]. split; [by rewrite Hl'|done].
Qed.
End events.

(** ** Disconnections and messages *)
Lemma visit_disconnected_ranges pid (v : SubBehaviors) s out v' s' out' :
  visit visit_disconnected pid v s out = Some (v', s', out') -> ranges s' = [].
Proof.
  intros (s1 & out1 & s2 & out2 & _ & Hv & H2)%(all_visitors_blockfetch keeps_blocks).
  rewrite (keeps_blocks_ranges _ _ _ _ _ _ H2). unfold visit, blockfetch_visitor in Hv.
  destruct (take_unsent_range (set_in_flight None s1)) as [r s3] eqn:E.
  apply take_unsent_range_spec in E as [_ ->]. injection Hv as _ <- _. by apply ranges_cleared, lookup_delete_eq.
Qed.

Lemma on_disconnected_ledger `{HashOrder} pid b b' :
  blocks_sound b -> on_disconnected pid b = Some b' -> ledger b' ≡ₚ ledger b /\ blocks_sound b'.
Proof.
  intros Hb. unfold on_disconnected, and_modify. destruct (peers b !! pid) as [s|] eqn:Es.
  - destruct (visit visit_disconnected pid _ _ _) as [[[v' s'] out']|] eqn:E; simpl; [|done].
    intros [= <-]. set (b1 := {| subs := v'; peers := <[pid := reset s']> (peers b); outbound := out' |}).
    assert (ledger b1 ≡ₚ ledger b /\ blocks_sound b1) as [Hl Hs].
    { pose proof (visit_disconnected_ranges _ _ _ _ _ _ _ E) as Hr.
      apply visit_ledger in E as [Hp _]. simpl in Hp. rewrite Hr, !app_nil_r in Hp. simpl in Hp.
      destruct (block_ok_reset s') as [Hok Hreset].
      pose proof (held_insert _ _ _ (reset s') Es) as Hheld. rewrite Hreset, app_nil_r in Hheld.
      split; [|by apply map_Forall_insert_2]. unfold ledger; simpl. rewrite Hp, <- Hheld.
      change (ranges (set_connection ConnectionState.Disconnected s)) with (ranges s). solve_Permutation. }
    destruct (serve_block_fetch_loop_ledger (peers_order (dom (peers b1))) b1 Hs) as [Hl' Hs'].
    split; [by rewrite <- Hl|done].
  - simpl. intros [= <-]. by apply serve_block_fetch_loop_ledger.
Qed.

(** A server does not request ranges. *)
Definition from_server (m : AnyMessage.t) : bool :=
  match m with AnyMessage.BlockFetch (blockfetch.Message.RequestRange _) => false | _ => true end.

(** The range a message from a peer completes: that message leaves the block-fetch
    protocol idle. *)
Definition completed (pid : PeerId) (m : AnyMessage.t) (b : InitiatorBehavior) : list BlockRange :=
  match peers b !! pid with
  | Some s => if is_idle (apply_msg s m) then option_list (in_flight s) else []
  | None => []
  end.

Lemma apply_msg_blockfetch s m :
  blockfetch (apply_msg s m) = blockfetch s \/
  exists x, m = AnyMessage.BlockFetch x /\ blockfetch.apply (blockfetch s) x = Ok (blockfetch (apply_msg s m)).
Proof.
  destruct m as [x|x|x|x|x|x|x|x]; cbn [apply_msg]; unfold store; case_match; simpl; eauto.
Qed.

Lemma apply_msg_ranges s m : ranges (apply_msg s m) = ranges s.
Proof.
  destruct (apply_msg_frame s m) as (_ & _ & Hu & _ & Hi). unfold ranges, unsent_ranges. by rewrite Hu, Hi.
Qed.

Lemma inbound_pre s m : from_server m = true -> block_ok s -> block_pre visit_inbound_msg (apply_msg s m).
Proof.
  intros Hm [Hi Hb Hn]. destruct (apply_msg_frame s m) as (_ & _ & _ & Hc & Hif). split; [done| |].
  - intros r Hr. left. rewrite Hif. destruct (apply_msg_blockfetch s m) as [Hbf|(x & -> & Hx)].
    + rewrite Hbf in Hr. by apply Hb.
    + rewrite Hr in Hx. destruct (blockfetch s), x; simplify_eq/=.
  - rewrite Hc, apply_msg_ranges. auto.
Qed.

Lemma on_inbound_msg_ledger pid m b b' :
  blocks_sound b -> from_server m = true -> on_inbound_msg pid m b = Some b' ->
  ledger b' ++ completed pid m b ≡ₚ ledger b /\ blocks_sound b'.
Proof.
  intros Hb Hm. unfold on_inbound_msg, and_modify, completed. destruct (peers b !! pid) as [s|] eqn:Es.
  - cbn zeta. destruct (visit visit_inbound_msg pid _ _ _) as [[[v' s'] out']|] eqn:E; simpl; [|done].
    intros [= <-].
    destruct (visit_peer_ledger _ _ _ _ _ _ _ _ Es Hb E ltac:(done) (inbound_pre s m Hm (Hb _ _ Es))) as [Hl Hs].
    split; [|done]. simpl in Hl. rewrite apply_msg_ranges, app_nil_r in Hl.
    destruct (apply_msg_frame s m) as (_ & _ & _ & _ & Hif). rewrite Hif in Hl.
    rewrite app_assoc in Hl. by apply Permutation_app_inv_r in Hl.
  - intros [= <-]. by rewrite app_nil_r.
Qed.

(** The interface reports as sent what it was given: on the block-fetch channel,
    the request that is unsent. *)
Definition faithful_sent (pid : PeerId) (m : AnyMessage.t) (b : InitiatorBehavior) : Prop :=
  forall s, peers b !! pid = Some s -> any_channel m = blockfetch.CHANNEL_ID ->
    by_channel (unsent s) !! blockfetch.CHANNEL_ID = Some m.

Section sent.
Context `{Minicbor}.

(** The state in which the visit of a sent message finds its peer. *)
Lemma outbound_pre s m s1 :
  block_ok s -> unsent_wf (unsent s) ->
  (any_channel m = blockfetch.CHANNEL_ID -> by_channel (unsent s) !! blockfetch.CHANNEL_ID = Some m) ->
  clear_unsent s m = Some s1 ->
  block_pre visit_outbound_msg (apply_msg s1 m) /\
  ranges (apply_msg s1 m) ++ started visit_outbound_msg (apply_msg s1 m) = ranges s.
Proof.
  intros Hok Hwf Hm Hs1. pose proof Hok as [Hi Hb Hn].
  assert (any_channel m <> blockfetch.CHANNEL_ID ->
    block_pre visit_outbound_msg (apply_msg s1 m) /\
    ranges (apply_msg s1 m) ++ started visit_outbound_msg (apply_msg s1 m) = ranges s) as Hother.
  { intros Hne. assert (keeps_blocks visit_tagged {| host := ""; port := 0 |} s [] (apply_msg s1 m) []) as Hk.
    { destruct (apply_msg_frame s1 m) as (_ & _ & Hu & Hc & Hif).
      destruct (apply_msg_blockfetch s1 m) as [Hbf|(x & -> & _)]; [|done].
      unfold keeps_blocks. rewrite Hbf, Hif, Hu, Hc.
      apply clear_unsent_spec in Hs1 as [->|(_ & _ & ->)]; [done|]. simpl.
      by rewrite lookup_delete_ne. }
    pose proof (keeps_blocks_ok _ _ _ _ _ _ Hk Hok) as Hok1.
    pose proof (block_ok_pre visit_outbound_msg _ Hok1) as Hpre. split; [done|].
    rewrite (keeps_blocks_ranges _ _ _ _ _ _ Hk). unfold started.
    destruct (blockfetch (apply_msg s1 m)) eqn:E; rewrite ?app_nil_r; try done.
    destruct Hok1 as [_ Hb1 _]. by rewrite (Hb1 _ E), app_nil_r. }
  destruct (decide (any_channel m = blockfetch.CHANNEL_ID)) as [Hc|]; [|by apply Hother].
  specialize (Hm Hc). destruct (Hwf _ _ Hm) as [_ Hr].
  destruct m as [x|x|x|x|x|x|x|x]; try done. destruct x as [r| | | | |]; try done.
  pose proof (unsent_contains_self (unsent s) (AnyMessage.BlockFetch (blockfetch.Message.RequestRange r)) Hm Hr) as Hself.
  destruct (is_idle s) eqn:Hidle.
  - assert (s1 = set_unsent (unsent_remove (unsent s) blockfetch.CHANNEL_ID) s) as ->.
    { revert Hs1. unfold clear_unsent. rewrite Hself. unfold is_idle in Hidle. simpl.
      destruct (blockfetch s); try done. by intros [= <-]. }
    assert (unsent_ranges s = [r]) as Hur by (unfold unsent_ranges; by rewrite Hm).
    specialize (Hi eq_refl). unfold is_idle in Hidle. destruct (blockfetch s) eqn:Hbf; try done.
    cbn [apply_msg blockfetch set_unsent]. rewrite Hbf. cbn [blockfetch.apply store].
    split.
    + split; [done| |].
      * intros r' [= <-]. right. done.
      * intros Hnew. specialize (Hn Hnew). unfold ranges in Hn. by rewrite Hur, Hi in Hn.
    + unfold ranges, started, unsent_ranges at 1. simpl. by rewrite lookup_delete_eq, Hi, Hur.
  - assert (s1 = s) as ->.
    { revert Hs1. unfold clear_unsent. rewrite Hself. unfold is_idle in Hidle. simpl.
      destruct (blockfetch s); try done; by intros [= <-]. }
    assert (apply_msg s (AnyMessage.BlockFetch (blockfetch.Message.RequestRange r)) = set_violation true s) as ->.
    { unfold is_idle in Hidle. simpl. by destruct (blockfetch s). }
    destruct (block_ok_same s (set_violation true s)) as [Hok1 Hr1]; try done.
    split; [by apply block_ok_pre|]. rewrite Hr1. unfold started. simpl.
    destruct (blockfetch s) eqn:Hbf; rewrite ?app_nil_r; try done.
    by rewrite (Hb _ eq_refl), app_nil_r.
Qed.

Lemma on_outbound_msg_ledger pid m b b' :
  blocks_sound b -> (forall s, peers b !! pid = Some s -> unsent_wf (unsent s)) ->
  faithful_sent pid m b -> on_outbound_msg pid m b = Some b' -> ledger b' ≡ₚ ledger b /\ blocks_sound b'.
Proof.
  intros Hb Hwf Hm. unfold on_outbound_msg, and_modify. destruct (peers b !! pid) as [s|] eqn:Es; [|by intros [= <-]].
  destruct (clear_unsent s m) as [s1|] eqn:E1; cbn [mbind option_bind]; [|done].
  destruct (visit visit_outbound_msg pid _ _ _) as [[[v' s'] out']|] eqn:E; simpl; [|done].
  intros [= <-].
  destruct (outbound_pre s m s1 (Hb _ _ Es) (Hwf _ eq_refl) (Hm _ Es) E1) as [Hpre Hr].
  destruct (visit_peer_ledger _ _ _ _ _ _ _ _ Es Hb E ltac:(done) Hpre) as [Hl Hs].
  split; [|done]. rewrite Hr in Hl. cbn [finished app] in Hl. by apply Permutation_app_inv_r in Hl.
Qed.
End sent.

(** ** All of them *)
Definition requested (c : InitiatorCommand.t) : list BlockRange :=
  match c with InitiatorCommand.RequestBlocks range => [range] | _ => [] end.

Section commands.
Context `{HashOrder}.

Lemma on_tagged_ledger pid tagger b b' :
  (forall s, block_ok s -> block_ok (tagger s) /\ ranges (tagger s) = ranges s) ->
  blocks_sound b -> on_tagged pid tagger b = Some b' -> ledger b' ≡ₚ ledger b /\ blocks_sound b'.
Proof.
  intros Ht Hb. apply (and_modify_ledger visit_tagged pid (fun s => Some (tagger s))); try done.
  intros s s1 _ [= <-]. apply Ht.
Qed.

Lemma serve_leios_fetch_ledger pid b :
  blocks_sound b -> ledger (serve_leios_fetch pid b) ≡ₚ ledger b /\ blocks_sound (serve_leios_fetch pid b).
Proof.
  intros Hb. unfold serve_leios_fetch. destruct (peers b !! pid) as [s|] eqn:Es; [|done].
  destruct (fetch_serve_next pid _ s _) as [[x s'] out'] eqn:E.
  assert (visit visit_housekeeping pid (sub_leiosfetch (subs b)) s (outbound b) = Some (x, s', out')) as Hv
    by (by rewrite <- E).
  apply (visits (R := keeps_blocks)) in Hv.
  pose proof (keeps_blocks_ok _ _ _ _ _ _ Hv (Hb _ _ Es)) as Hok.
  pose proof (held_insert _ _ _ s' Es) as Hheld. rewrite (keeps_blocks_ranges _ _ _ _ _ _ Hv) in Hheld.
  apply Permutation_app_inv_r in Hheld.
  split; [unfold ledger; simpl; by rewrite Hheld|by apply map_Forall_insert_2].
Qed.

Lemma execute_ledger c b b' :
  blocks_sound b -> execute c b = Some b' -> ledger b' ≡ₚ ledger b ++ requested c /\ blocks_sound b'.
Proof.
  intros Hb. destruct c as [pid| |points|pid|range|pid x y|pid eb|pid eb bm|pid|pid]; cbn [execute requested];
    rewrite ?app_nil_r.
  - destruct (peers b !! pid) as [s|] eqn:Es; [case_bool_decide as Hn|]; try (by intros [= <-]);
      intros Hd; eapply on_discovered_ledger; try exact Hd; [done|congruence|done|congruence].
  - by apply housekeeping_ledger.
  - by intros [= <-].
  - apply on_tagged_ledger; [|done]. intros s. by apply block_ok_same.
  - intros [= <-].
    set (b1 := with_subs (set_blockfetch_sub (enqueue (sub_blockfetch (subs b)) range) (subs b)) b).
    destruct (serve_block_fetch_loop_ledger (peers_order (dom (peers b1))) b1 Hb) as [Hl Hs].
    split; [|done]. unfold serve_block_fetch. rewrite Hl. unfold ledger, b1; simpl. solve_Permutation.
  - by intros [= <-].
  - intros [= <-]. by apply (serve_leios_fetch_ledger pid (enqueue_fetch pid (FetchRequest.Block eb) b)).
  - intros [= <-]. by apply (serve_leios_fetch_ledger pid (enqueue_fetch pid (FetchRequest.BlockTxs eb bm) b)).
  - apply on_tagged_ledger; [|done]. intros s. by apply block_ok_same.
  - apply on_tagged_ledger; [|done]. intros s. by apply block_ok_same.
Qed.
End commands.
