(* ===== verification/Steps.v ===== *)
(** * Runs of the initiator

    What each event and command pushes: every output is pushed under the condition
    [gate] of the peer it concerns, as that peer's state is when the event or command
    has been handled.  Then what the [Manager] of [pallas-network2/src/lib.rs] does
    with the behavior, as a step relation: it hands over an interface event, takes an
    output from the queue in any order, or executes a command.  Every step may meet
    the hash maps in another order of iteration. *)
From S2P Require Import Prelude Cbor Protocol Chainsync Blockfetch Keepalive.
From S2P Require Import Txsubmission Peersharing Handshake HandshakeVersions.
From S2P Require Import LeiosProtocols Network AnyMessage Unsent InitiatorState.
From S2P Require Import Promotion Connection Discovery Fetching Leios Initiator.
From S2P Require Import InitiatorInv.
(** ** Silent visits *)
Definition is_silent (h : Hook) : bool :=
  match h with
  | visit_disconnected | visit_discovered | visit_outbound_msg => true
  | _ => false
  end.

Definition silent : step_relation := fun h _ _ out _ out' => is_silent h = true -> out' = out.

#[export] Instance silent_chains : Chains silent.
Proof. split; unfold silent; naive_solver congruence. Qed.

Section silence.
#[export] Instance connection_silent : Visits silent ConnectionBehavior.
Proof. visit_cases; done. Qed.
#[export] Instance handshake_silent : Visits silent HandshakeBehavior.
Proof. visit_cases; done. Qed.
#[export] Instance keepalive_silent : Visits silent KeepaliveBehavior.
Proof. visit_cases; done. Qed.
#[export] Instance discovery_silent : Visits silent DiscoveryBehavior.
Proof. visit_cases; done. Qed.
#[export] Instance blockfetch_silent : Visits silent BlockFetchBehavior.
Proof. visit_cases; done. Qed.
#[export] Instance chainsync_silent : Visits silent ChainSyncBehavior.
Proof. visit_cases; done. Qed.
#[export] Instance leiosnotify_silent : Visits silent LeiosNotifyBehavior.
Proof. visit_cases; done. Qed.
#[export] Instance leiosfetch_silent : Visits silent LeiosFetchBehavior.
Proof. visit_cases; done. Qed.
End silence.

Lemma visit_silent h pid (v : SubBehaviors) s out v' s' out' :
  is_silent h = true -> visit h pid v s out = Some (v', s', out') -> out' = out.
Proof.
  intros Hh (s1 & out1 & H1 & H2)%(all_visitors_rest silent).
  apply promotion_visit_state in H1 as [-> _]. by apply H2.
Qed.

Lemma visit_gated h pid (v : SubBehaviors) s out v' s' out' :
  visit h pid v s out = Some (v', s', out') ->
  exists l, out' = out ++ l /\ Forall (gate h pid s') l.
Proof.
  intros (s1 & out1 & H1 & _ & _ & H2)%(all_visitors_rest gated).
  by apply promotion_visit_state in H1 as [-> _].
Qed.

(** ** Pushes that are justified by the state they leave

    Only the peers in [touched] change. *)
Record pushes (h : Hook) (touched : PeerId -> Prop) (b b' : InitiatorBehavior) : Prop := {
  pushed_outputs : exists l, outbound b' = outbound b ++ l /\
    Forall (fun o => exists pid s, touched pid /\ peers b' !! pid = Some s /\ gate h pid s o) l;
  pushed_others pid : ~ touched pid -> peers b' !! pid = peers b !! pid
}.

Lemma pushes_nothing h touched b b' :
  outbound b' = outbound b -> (forall pid, ~ touched pid -> peers b' !! pid = peers b !! pid) ->
  pushes h touched b b'.
Proof. intros Ho Hp. split; [|done]. exists []. by rewrite app_nil_r. Qed.

Lemma pushes_trans h (t1 t2 t : PeerId -> Prop) b1 b2 b3 :
  (forall pid, t1 pid -> ~ t2 pid) -> (forall pid, t1 pid -> t pid) -> (forall pid, t2 pid -> t pid) ->
  pushes h t1 b1 b2 -> pushes h t2 b2 b3 -> pushes h t b1 b3.
Proof.
  intros Hd H1t H2t [(l1 & E1 & H1) Ho1] [(l2 & E2 & H2) Ho2]. split.
  - exists (l1 ++ l2). rewrite E2, E1, app_assoc. split; [done|]. apply Forall_app. split.
    + eapply Forall_impl; [exact H1|]. intros o (pid & s & Ht & Hs & Hg).
      exists pid, s. rewrite Ho2 by auto. auto.
    + eapply Forall_impl; [exact H2|]. intros o (pid & s & Ht & Hs & Hg). eauto 7.
  - intros pid Hp. rewrite Ho2, Ho1 by auto. done.
Qed.

Lemma and_modify_pushes h pid f b b' :
  and_modify pid (fun v s out => s ← f s; visit h pid v s out) b = Some b' ->
  pushes h (fun q => q = pid) b b'.
Proof.
  unfold and_modify. destruct (peers b !! pid) as [s|].
  - destruct (f s) as [s1|]; simpl; [|done].
    destruct (visit h pid (subs b) s1 (outbound b)) as [[[v' s'] out']|] eqn:E; simpl; [|done].
    intros [= <-]. apply visit_gated in E as (l & -> & Hl). split; simpl.
    + exists l. split; [done|]. eapply Forall_impl; [exact Hl|]. intros o Ho. exists pid, s'.
      by rewrite lookup_insert_eq.
    + intros q Hq. by rewrite lookup_insert_ne.
  - intros [= <-]. by apply pushes_nothing.
Qed.

(** ** The loops *)
Lemma housekeep_peers_pushes order b b' :
  NoDup order -> housekeep_peers order b = Some b' ->
  pushes visit_housekeeping (fun q => q ∈ order) b b'.
Proof.
  revert b; induction order as [|pid order IH]; intros b Hnd; cbn [housekeep_peers].
  - intros [= <-]. by apply pushes_nothing.
  - apply NoDup_cons in Hnd as [Hnin Hnd].
    destruct (and_modify pid _ b) as [b1|] eqn:E; simpl; [|done]. intros H2.
    eapply pushes_trans; [..|apply (and_modify_pushes visit_housekeeping pid Some), E|by apply IH]; set_solver.
Qed.

Lemma on_discovered_quiet pid b b' :
  on_discovered pid b = Some b' ->
  outbound b' = outbound b /\ forall q, q <> pid -> peers b' !! q = peers b !! q.
Proof.
  unfold on_discovered. destruct (visit visit_discovered _ _ _ _) as [[[v' s'] out']|] eqn:E; simpl; [|done].
  intros [= <-]. apply visit_silent in E as ->; [|done]. split; [done|]. intros q Hq. simpl.
  by rewrite lookup_insert_ne.
Qed.

Lemma include_new_quiet order b b' :
  include_new order b = Some b' ->
  outbound b' = outbound b /\ forall q, is_Some (peers b !! q) -> peers b' !! q = peers b !! q.
Proof.
  revert b; induction order as [|pid order IH]; intros b; cbn [include_new]; [by intros [= <-]|].
  destruct (peers b !! pid) eqn:Ep; [apply IH|].
  destruct (on_discovered pid b) as [b1|] eqn:E; simpl; [|done]. intros [Ho Hp]%IH.
  apply on_discovered_quiet in E as [Ho1 Hp1]. split; [congruence|]. intros q [s Hq].
  assert (q <> pid) by congruence. rewrite Hp, Hp1; [done|done|]. rewrite Hp1 by done. by eexists.
Qed.

Lemma move_discovered_quiet `{HashOrder} b b' :
  move_discovered_into_promotion b = Some b' ->
  outbound b' = outbound b /\ forall q, is_Some (peers b !! q) -> peers b' !! q = peers b !! q.
Proof.
  unfold move_discovered_into_promotion. destruct (peer_deficit _) as [d|]; simpl; [|done].
  destruct (d =? 0); [by intros [= <-]|]. by intros [Ho Hp]%include_new_quiet.
Qed.

Lemma housekeeping_pushes `{HashOrder} b b' :
  housekeeping b = Some b' -> pushes visit_housekeeping (fun _ => True) b b'.
Proof.
  unfold housekeeping. destruct (housekeep_peers _ b) as [b1|] eqn:E; simpl; [|done]. intros H2.
  apply housekeep_peers_pushes in E as [(l & Hl & Hg) _]; [|apply NoDup_peers_order].
  apply move_discovered_quiet in H2 as [Ho Hp]. split; [|done].
  exists l. split; [congruence|]. eapply Forall_impl; [exact Hg|]. intros o (pid & s & _ & Hs & Ho').
  exists pid, s. rewrite Hp; [done|by eexists].
Qed.

(** Serving a request outside of a visit is what the housekeeping visit does. *)
Lemma serve_next_gate pid x s out x' s' out' :
  serve_next pid x s out = (x', s', out') ->
  exists l, out' = out ++ l /\ Forall (gate visit_housekeeping pid s') l.
Proof.
  intros H. assert (visit visit_housekeeping pid x s out = Some (x', s', out')) as Hv by (by rewrite <- H).
  by apply (visits (R := gated)) in Hv as (_ & _ & Hl).
Qed.

Lemma fetch_serve_next_gate pid x s out x' s' out' :
  fetch_serve_next pid x s out = (x', s', out') ->
  exists l, out' = out ++ l /\ Forall (gate visit_housekeeping pid s') l.
Proof.
  intros H. assert (visit visit_housekeeping pid x s out = Some (x', s', out')) as Hv by (by rewrite <- H).
  by apply (visits (R := gated)) in Hv as (_ & _ & Hl).
Qed.

Lemma replace_peer_pushes b pid v' s' l :
  Forall (gate visit_housekeeping pid s') l ->
  pushes visit_housekeeping (fun q => q = pid) b
    {| subs := v'; peers := <[pid := s']> (peers b); outbound := outbound b ++ l |}.
Proof.
  intros Hl. split; simpl.
  - exists l. split; [done|]. eapply Forall_impl; [exact Hl|]. intros o Ho. exists pid, s'.
    by rewrite lookup_insert_eq.
  - intros q Hq. by rewrite lookup_insert_ne.
Qed.

Lemma serve_block_fetch_loop_pushes order b :
  NoDup order -> pushes visit_housekeeping (fun q => q ∈ order) b (serve_block_fetch_loop order b).
Proof.
  revert b; induction order as [|pid order IH]; intros b Hnd; cbn [serve_block_fetch_loop]; [by apply pushes_nothing|].
  apply NoDup_cons in Hnd as [Hnin Hnd].
  destruct (negb _); [by apply pushes_nothing|].
  destruct (peers b !! pid) as [s|] eqn:E.
  - destruct (serve_next pid _ s _) as [[x s'] out'] eqn:Es.
    apply serve_next_gate in Es as (l & -> & Hl).
    eapply pushes_trans; [..|by apply replace_peer_pushes|by apply IH]; set_solver.
  - destruct (IH b Hnd) as [(l & Hl & Hg) Ho]. split; [|set_solver].
    exists l. split; [done|]. eapply Forall_impl; [exact Hg|]. intros o (q & s & Hq & ?). exists q, s. set_solver.
Qed.

Lemma serve_block_fetch_pushes `{HashOrder} b :
  pushes visit_housekeeping (fun q => q ∈ dom (peers b)) b (serve_block_fetch b).
Proof.
  destruct (serve_block_fetch_loop_pushes (peers_order (dom (peers b))) b (NoDup_peers_order _))
    as [(l & Hl & Hg) Ho]. split.
  - exists l. split; [done|]. eapply Forall_impl; [exact Hg|]. intros o (q & s & Hq & ?). exists q, s.
    by rewrite elem_of_peers_order in Hq.
  - intros q Hq. apply Ho. by rewrite elem_of_peers_order.
Qed.

Lemma serve_leios_fetch_pushes pid b :
  pushes visit_housekeeping (fun q => q = pid) b (serve_leios_fetch pid b).
Proof.
  unfold serve_leios_fetch. destruct (peers b !! pid) as [s|]; [|by apply pushes_nothing].
  destruct (fetch_serve_next pid _ s _) as [[x s'] out'] eqn:Es.
  apply fetch_serve_next_gate in Es as (l & -> & Hl). by apply replace_peer_pushes.
Qed.

(** ** Events and commands *)

(** Weakens the set of peers that may change. *)
Lemma pushes_any h t b b' : pushes h t b b' -> pushes h (fun _ => True) b b'.
Proof.
  intros [(l & Hl & Hg) _]. split; [|done]. exists l. split; [done|].
  eapply Forall_impl; [exact Hg|]. naive_solver.
Qed.

(** The hook whose conditions justify the outputs of an event. *)
Definition event_hook (e : InterfaceEvent.t AnyMessage.t) : Hook :=
  match e with
  | InterfaceEvent.Connected _ => visit_connected
  | InterfaceEvent.Disconnected _ | InterfaceEvent.Idle => visit_housekeeping
  | InterfaceEvent.Recv _ _ => visit_inbound_msg
  | InterfaceEvent.Sent _ _ => visit_outbound_msg
  | InterfaceEvent.Error _ _ => visit_errored
  end.

Definition command_hook (c : InitiatorCommand.t) : Hook :=
  match c with
  | InitiatorCommand.ContinueSync _ | InitiatorCommand.BanPeer _ | InitiatorCommand.DemotePeer _ => visit_tagged
  | _ => visit_housekeeping
  end.

Section events.
Context `{Minicbor} `{HashOrder}.

Lemma on_disconnected_pushes pid b b' :
  on_disconnected pid b = Some b' -> pushes visit_housekeeping (fun _ => True) b b'.
Proof.
  unfold on_disconnected, and_modify. destruct (peers b !! pid) as [s|].
  - destruct (visit visit_disconnected pid _ _ _) as [[[v' s'] out']|] eqn:E; simpl; [|done].
    intros [= <-]. apply visit_silent in E as ->; [|done].
    set (b1 := {| subs := v'; peers := <[pid := reset s']> (peers b); outbound := outbound b |}).
    destruct (serve_block_fetch_pushes b1) as [(l & Hl & Hg) _]. split; [|done].
    exists l. split; [done|]. eapply Forall_impl; [exact Hg|]. naive_solver.
  - simpl. intros [= <-]. eapply pushes_any, serve_block_fetch_pushes.
Qed.

(** The closures of [and_modify] that do not have the shape of the lemma. *)
Lemma on_outbound_msg_quiet pid m b b' :
  on_outbound_msg pid m b = Some b' -> outbound b' = outbound b.
Proof.
  unfold on_outbound_msg, and_modify. destruct (peers b !! pid) as [s|]; [|by intros [= <-]].
  destruct (clear_unsent s m) as [s1|]; simpl; [|done].
  destruct (visit visit_outbound_msg pid _ _ _) as [[[v' s'] out']|] eqn:E; simpl; [|done].
  intros [= <-]. by apply visit_silent in E as ->.
Qed.

Lemma on_errored_pushes pid b b' :
  on_errored pid b = Some b' -> pushes visit_errored (fun q => q = pid) b b'.
Proof.
  intros H1. apply (and_modify_pushes visit_errored pid (fun s =>
    let s := set_connection ConnectionState.Errored s in
    errors ← checked_add 32 (error_count s) 1; Some (set_error_count errors s))).
  revert H1. unfold on_errored, and_modify. destruct (peers b !! pid); [|done].
  cbn zeta. by destruct (checked_add 32 _ 1).
Qed.

Lemma on_inbound_msg_pushes pid m b b' :
  on_inbound_msg pid m b = Some b' -> pushes visit_inbound_msg (fun _ => True) b b'.
Proof.
  intros H1. by eapply pushes_any, (and_modify_pushes visit_inbound_msg pid (fun s => Some (apply_msg s m))).
Qed.

Lemma handle_io_pushes e b b' :
  (forall pid ms, e = InterfaceEvent.Recv pid ms -> (length ms <= 1)%nat) ->
  handle_io e b = Some b' -> pushes (event_hook e) (fun _ => True) b b'.
Proof.
  intros Hsingle. destruct e as [pid|pid|pid m|pid ms|pid err|]; cbn [handle_io event_hook].
  - intros H1. by eapply pushes_any, (and_modify_pushes visit_connected pid
      (fun s => Some (set_connection ConnectionState.Connected s))).
  - apply on_disconnected_pushes.
  - intros H1%on_outbound_msg_quiet. by apply pushes_nothing.
  - specialize (Hsingle _ _ eq_refl). destruct ms as [|m [|]]; cbn in *; [|clear Hsingle|lia].
    + intros [= <-]. by apply pushes_nothing.
    + destruct (on_inbound_msg pid m b) as [b1|] eqn:E; simpl; [|done]. intros [= <-].
      by eapply on_inbound_msg_pushes.
  - intros H1%on_errored_pushes. by eapply pushes_any.
  - apply housekeeping_pushes.
Qed.

Lemma on_tagged_pushes pid tagger b b' :
  on_tagged pid tagger b = Some b' -> pushes visit_tagged (fun _ => True) b b'.
Proof.
  intros H1. by eapply pushes_any, (and_modify_pushes visit_tagged pid (fun s => Some (tagger s))).
Qed.

Lemma execute_pushes c b b' :
  execute c b = Some b' -> pushes (command_hook c) (fun _ => True) b b'.
Proof.
  destruct c as [pid| |points|pid|range|pid x y|pid eb|pid eb bm|pid|pid]; cbn [execute command_hook].
  - case_match; [|by intros [= <-]; apply pushes_nothing].
    intros [Ho _]%on_discovered_quiet. by apply pushes_nothing.
  - apply housekeeping_pushes.
  - intros [= <-]. by apply pushes_nothing.
  - apply on_tagged_pushes.
  - intros [= <-]. destruct (serve_block_fetch_pushes
      (with_subs (set_blockfetch_sub (enqueue (sub_blockfetch (subs b)) range) (subs b)) b)) as [(l & Hl & Hg) _].
    split; [|done]. exists l. split; [done|]. eapply Forall_impl; [exact Hg|]. naive_solver.
  - intros [= <-]. by apply pushes_nothing.
  - intros [= <-]. destruct (serve_leios_fetch_pushes pid (enqueue_fetch pid (FetchRequest.Block eb) b)) as [(l & Hl & Hg) _].
    split; [|done]. exists l. split; [done|]. eapply Forall_impl; [exact Hg|]. naive_solver.
  - intros [= <-]. destruct (serve_leios_fetch_pushes pid (enqueue_fetch pid (FetchRequest.BlockTxs eb bm) b)) as [(l & Hl & Hg) _].
    split; [|done]. exists l. split; [done|]. eapply Forall_impl; [exact Hg|]. naive_solver.
  - apply on_tagged_pushes.
  - apply on_tagged_pushes.
Qed.
End events.

(** ** Steps *)

Inductive label :=
| Io (e : InterfaceEvent.t AnyMessage.t)
| Command (c : InitiatorCommand.t)
| Polled (o : Output).

Inductive step `{Minicbor} : InitiatorBehavior -> label -> InitiatorBehavior -> Prop :=
| step_io (order : HashOrder) e b b' :
    handle_io e b = Some b' -> step b (Io e) b'
| step_execute (order : HashOrder) c b b' :
    execute c b = Some b' -> step b (Command c) b'
| step_output l1 o l2 b :
    outbound b = l1 ++ o :: l2 ->
    step b (Polled o) {| subs := subs b; peers := peers b; outbound := l1 ++ l2 |}.

(** Limits that are lengths. *)
Definition config_ok (c : PromotionConfig) : Prop :=
  0 <= max_peers c /\ 0 <= max_warm_peers c /\ 0 <= max_hot_peers c.

Inductive reachable `{Minicbor} (config : PromotionConfig) (versions : HandshakeBehavior) :
    InitiatorBehavior -> Prop :=
| reachable_start : config_ok config -> reachable config versions (initiator config versions)
| reachable_step b l b' : reachable config versions b -> step b l b' -> reachable config versions b'.

Section steps.
Context `{Minicbor}.

Lemma initiator_start config versions : config_ok config -> initiator_inv (initiator config versions).
Proof. intros (? & ? & ?). split; [by apply promotion_new_inv|apply map_Forall_empty]. Qed.

Lemma step_kept b l b' : initiator_inv b -> step b l b' -> kept b b'.
Proof.
  intros Hb Hs. revert Hb. destruct Hs as [order e b1 b2 Hs|order c b1 b2 Hs|l1 o l2 b1 Hs]; intros Hb.
  - exact (handle_io_kept e b1 b2 Hb Hs).
  - exact (execute_kept c b1 b2 Hb Hs).
  - split; [by destruct Hb|done..].
Qed.

Lemma reachable_inv config versions b :
  reachable config versions b ->
  initiator_inv b /\ promotion_config (sub_promotion (subs b)) = config.
Proof.
  induction 1 as [|b l b' _ [Hb Hc] Hs]; [split; [by apply initiator_start|done]|].
  apply step_kept in Hs as [Hb' Hc' _]; [|done]. split; [done|congruence].
Qed.
End steps.

(** ** Peers that were dropped

    A peer whose tag was reset while it was not in the cold set: the lemmas that
    follow it through every event and command. *)

(** Not connected and not due for a connection. *)
Definition is_down (s : InitiatorState) : bool :=
  match connection s, promotion s with
  | ConnectionState.New, (PromotionTag.Cold | PromotionTag.Banned)
  | ConnectionState.Disconnected, (PromotionTag.Cold | PromotionTag.Banned)
  | ConnectionState.Errored, (PromotionTag.Cold | PromotionTag.Banned) => true
  | _, _ => false
  end.

Definition dropped (pid : PeerId) (b : InitiatorBehavior) : Prop :=
  pid ∉ cold_peers (sub_promotion (subs b)) /\
  exists s, peers b !! pid = Some s /\ is_down s = true.

Definition keeps_down : step_relation := fun _ _ s _ s' _ => is_down s = true -> is_down s' = true.

#[export] Instance keeps_down_chains : Chains keeps_down.
Proof. split; unfold keeps_down; auto. Qed.

Section down.
Ltac down_goal :=
  unfold keeps_down, is_down, needs_connection, needs_handshake, check_confirmation in *; simpl in *;
  repeat case_bool_decide; repeat case_match; try done; congruence.

#[export] Instance connection_down : Visits keeps_down ConnectionBehavior.
Proof. visit_cases; down_goal. Qed.
#[export] Instance handshake_down : Visits keeps_down HandshakeBehavior.
Proof. visit_cases; down_goal. Qed.
#[export] Instance keepalive_down : Visits keeps_down KeepaliveBehavior.
Proof. visit_cases; exact id. Qed.
#[export] Instance discovery_down : Visits keeps_down DiscoveryBehavior.
Proof. visit_cases; exact id. Qed.
#[export] Instance blockfetch_down : Visits keeps_down BlockFetchBehavior.
Proof. visit_cases; exact id. Qed.
#[export] Instance chainsync_down : Visits keeps_down ChainSyncBehavior.
Proof. visit_cases; exact id. Qed.
#[export] Instance leiosnotify_down : Visits keeps_down LeiosNotifyBehavior.
Proof. visit_cases; exact id. Qed.
#[export] Instance leiosfetch_down : Visits keeps_down LeiosFetchBehavior.
Proof. visit_cases; exact id. Qed.
End down.

(** The promotion leaves a peer that is down and not cold where it is, or bans it. *)
Lemma promotion_visit_down h pid (v : PromotionBehavior) s out v' s' out' :
  h <> visit_discovered -> pid ∉ cold_peers v -> is_down s = true ->
  visit h pid v s out = Some (v', s', out') -> pid ∉ cold_peers v' /\ is_down s' = true.
Proof.
  intros Hh Hc Hs. unfold visit, promotion_visitor, default_visit, mbind, option_bind.
  assert (forall v1 s1, categorize_peer pid v s = Some (v1, s1) -> pid ∉ cold_peers v1 /\ is_down s1 = true) as Hcat.
  { intros v1 s1. unfold categorize_peer, mbind, option_bind.
    assert (is_down (set_promotion PromotionTag.Banned s) = true) as Hb.
    { revert Hs. unfold is_down. simpl. by destruct (connection s), (promotion s). }
    assert (is_initialized s = false) as Hi.
    { revert Hs. unfold is_down, is_initialized. by destruct (connection s). }
    destruct (violation s && _); [intros [= <- <-]; simpl; split; [set_solver|done]|].
    destruct ((_ <? error_count s) && _); [intros [= <- <-]; simpl; split; [set_solver|done]|].
    destruct (required_warm_peers v) as [w|]; [|done].
    rewrite (bool_decide_eq_false_2 (pid ∈ cold_peers v)), andb_false_r by done.
    destruct (required_hot_peers v) as [hot|]; [|done].
    rewrite Hi, andb_false_r. by intros [= <- <-]. }
  destruct h; try done; try (intros; simplify_eq/=; done).
  - destruct (categorize_peer pid v s) as [[v1 s1]|] eqn:E; [|done]. intros [= <- <- <-]. by apply Hcat.
  - destruct (categorize_peer pid v s) as [[v1 s1]|] eqn:E; [|done]. intros [= <- <- <-]. by apply Hcat.
Qed.

Lemma visit_down h pid (v : SubBehaviors) s out v' s' out' :
  h <> visit_discovered -> pid ∉ cold_peers (sub_promotion v) -> is_down s = true ->
  visit h pid v s out = Some (v', s', out') ->
  pid ∉ cold_peers (sub_promotion v') /\ is_down s' = true.
Proof.
  intros Hh Hc Hs (s1 & out1 & H1 & H2)%(all_visitors_rest keeps_down).
  apply promotion_visit_down in H1 as [Hc' Hs1]; [|done..]. split; [done|]. by apply H2.
Qed.

(** A visit of one peer, seen by a peer that was dropped. *)
Lemma visit_dropped h q pid b s s1 v' s' out' s'' :
  initiator_inv b -> dropped pid b -> h <> visit_discovered ->
  peers b !! q = Some s -> visit h q (subs b) s1 (outbound b) = Some (v', s', out') ->
  (is_down s = true -> is_down s1 = true) -> (is_down s' = true -> is_down s'' = true) ->
  dropped pid {| subs := v'; peers := <[q := s'']> (peers b); outbound := out' |}.
Proof.
  intros Hb [Hc (sp & Hsp & Hd)] Hh Hs Hv H1 H2.
  destruct (visit_inv _ _ _ _ _ _ _ _ Hv) as (_ & [_ Hcold _ _ _ _] & _); [done|by apply Hb|].
  destruct (decide (q = pid)) as [->|Hq].
  - rewrite Hs in Hsp. injection Hsp as <-.
    apply visit_down in Hv as [Hc' Hd']; [|done|done|auto].
    split; [done|]. exists s''. simpl. rewrite lookup_insert_eq. auto.
  - split; [simpl; by rewrite Hcold|]. exists sp. simpl. by rewrite lookup_insert_ne.
Qed.

Lemma and_modify_dropped h q pid f b b' :
  initiator_inv b -> dropped pid b -> h <> visit_discovered ->
  (forall s s1, f s = Some s1 -> q = pid -> is_down s = true -> is_down s1 = true) ->
  and_modify q (fun v s out => s ← f s; visit h q v s out) b = Some b' -> dropped pid b'.
Proof.
  intros Hb Hp Hh Hf. unfold and_modify. destruct (peers b !! q) as [s|] eqn:Es; [|by intros [= <-]].
  destruct (f s) as [s1|] eqn:Ef; simpl; [|done].
  destruct (visit h q (subs b) s1 (outbound b)) as [[[v' s'] out']|] eqn:Ev; simpl; [|done].
  intros [= <-]. destruct (decide (q = pid)) as [->|Hq].
  - eapply visit_dropped; eauto.
  - destruct Hp as [Hc (sp & Hsp & Hd)].
    destruct (visit_inv _ _ _ _ _ _ _ _ Ev) as (_ & [_ Hcold _ _ _ _] & _); [done|by apply Hb|].
    split; [simpl; by rewrite Hcold|]. exists sp. simpl. by rewrite lookup_insert_ne.
Qed.

Section events.
Context `{Minicbor}.
Implicit Types b : InitiatorBehavior.

Lemma dropped_same pid b b' :
  sub_promotion (subs b') = sub_promotion (subs b) -> peers b' !! pid = peers b !! pid ->
  dropped pid b -> dropped pid b'.
Proof. intros Hp Hs. unfold dropped. by rewrite Hp, Hs. Qed.

(** Serving a request changes neither the tag nor the connection. *)
Lemma try_send_request_down q m s out x s' out' :
  try_send_request q m s out = (x, s', out') -> is_down s' = is_down s.
Proof. by intros [(_ & _ & _ & _ & -> & _)|(_ & -> & _)]%try_send_request_spec. Qed.

Lemma serve_next_down q x s out x' s' out' :
  serve_next q x s out = (x', s', out') -> is_down s' = is_down s.
Proof. unfold serve_next. intros H1. repeat (split_inner; simplify_eq/=); eauto using try_send_request_down. Qed.

Lemma fetch_serve_next_down q x s out x' s' out' :
  fetch_serve_next q x s out = (x', s', out') -> is_down s' = is_down s.
Proof. unfold fetch_serve_next. intros H1. repeat (split_inner; simplify_eq/=); eauto using try_send_request_down. Qed.

Lemma replace_peer_dropped pid q b s v' s' out' :
  dropped pid b -> peers b !! q = Some s -> is_down s' = is_down s ->
  sub_promotion v' = sub_promotion (subs b) ->
  dropped pid {| subs := v'; peers := <[q := s']> (peers b); outbound := out' |}.
Proof.
  intros [Hc (sp & Hsp & Hd)] Hs Hds Hv. split; simpl; [by rewrite Hv|].
  destruct (decide (q = pid)) as [->|Hq].
  - rewrite lookup_insert_eq. exists s'. rewrite Hs in Hsp. injection Hsp as <-. by rewrite Hds.
  - rewrite lookup_insert_ne by done. by exists sp.
Qed.

Lemma serve_block_fetch_loop_dropped order pid b :
  dropped pid b -> dropped pid (serve_block_fetch_loop order b).
Proof.
  revert b; induction order as [|q order IH]; intros b Hb; cbn [serve_block_fetch_loop]; [done|].
  destruct (negb _); [done|]. destruct (peers b !! q) as [s|] eqn:Es; [|by apply IH].
  destruct (serve_next q _ s _) as [[x s'] out'] eqn:E. apply IH.
  apply serve_next_down in E. by eapply replace_peer_dropped.
Qed.

Lemma serve_leios_fetch_dropped pid q b : dropped pid b -> dropped pid (serve_leios_fetch q b).
Proof.
  intros Hb. unfold serve_leios_fetch. destruct (peers b !! q) as [s|] eqn:Es; [|done].
  destruct (fetch_serve_next q _ s _) as [[x s'] out'] eqn:E.
  apply fetch_serve_next_down in E. by eapply replace_peer_dropped.
Qed.

Lemma on_discovered_dropped pid q b b' :
  initiator_inv b -> q <> pid -> dropped pid b -> on_discovered q b = Some b' -> dropped pid b'.
Proof.
  intros Hb Hq [Hc (sp & Hsp & Hd)]. unfold on_discovered.
  destruct (visit visit_discovered q _ _ _) as [[[v' s'] out']|] eqn:E; simpl; [|done]. intros [= <-].
  apply visit_inv in E as (_ & [_ Hcold _ _ _ _] & _); [|done|by apply Hb].
  split; [simpl; by rewrite Hcold|]. exists sp. simpl. by rewrite lookup_insert_ne.
Qed.

Lemma include_new_dropped order pid b b' :
  initiator_inv b -> dropped pid b -> include_new order b = Some b' -> dropped pid b'.
Proof.
  revert b; induction order as [|q order IH]; intros b Hb Hp; cbn [include_new]; [by intros [= <-]|].
  destruct (peers b !! q) eqn:Eq; [by apply IH|].
  destruct (on_discovered q b) as [b1|] eqn:E; simpl; [|done].
  pose proof (on_discovered_kept _ _ _ Hb E) as [Hb1 _ _].
  apply IH; [done|]. eapply on_discovered_dropped; [exact Hb| |exact Hp|exact E].
  destruct Hp as [_ (sp & Hsp & _)]. congruence.
Qed.

Lemma housekeep_peers_dropped order pid b b' :
  initiator_inv b -> dropped pid b -> housekeep_peers order b = Some b' -> dropped pid b'.
Proof.
  revert b; induction order as [|q order IH]; intros b Hb Hp; cbn [housekeep_peers]; [by intros [= <-]|].
  destruct (and_modify q _ b) as [b1|] eqn:E; simpl; [|done].
  pose proof E as E'.
  apply (and_modify_kept b q Some visit_housekeeping) in E' as [Hb1 _ _]; [|done|by intros ? ? _ [= <-]|done].
  apply IH; [done|]. apply (and_modify_dropped visit_housekeeping q pid Some b b1); [done..| |exact E].
  by intros ? ? [= <-].
Qed.

Context `{HashOrder}.

Lemma housekeeping_dropped pid b b' :
  initiator_inv b -> dropped pid b -> housekeeping b = Some b' -> dropped pid b'.
Proof.
  intros Hb Hp. unfold housekeeping. destruct (housekeep_peers _ b) as [b1|] eqn:E; simpl; [|done].
  pose proof (housekeep_peers_kept _ _ _ Hb E) as [Hb1 _ _].
  apply housekeep_peers_dropped with (pid := pid) in E; [|done..].
  unfold move_discovered_into_promotion. destruct (peer_deficit _) as [d|]; simpl; [|done].
  destruct (d =? 0); [by intros [= <-]|].
  apply include_new_dropped; [by destruct Hb1|done].
Qed.

Lemma on_inbound_msgs_dropped q ms pid b b' :
  initiator_inv b -> dropped pid b -> on_inbound_msgs q ms b = Some b' -> dropped pid b'.
Proof.
  revert b; induction ms as [|m ms IH]; intros b Hb Hp; cbn [on_inbound_msgs]; [by intros [= <-]|].
  destruct (on_inbound_msg q m b) as [b1|] eqn:E; simpl; [|done].
  pose proof (on_inbound_msg_kept _ _ _ _ Hb E) as [Hb1 _ _]. apply IH; [done|].
  apply (and_modify_dropped visit_inbound_msg q pid (fun s => Some (apply_msg s m)) b b1); [done..| |exact E].
  intros s s1 [= <-] _. destruct (apply_msg_frame s m) as (Ht & _ & _ & Hc & _).
  unfold is_down. by rewrite Ht, Hc.
Qed.

Lemma on_disconnected_dropped q pid b b' :
  initiator_inv b -> dropped pid b -> on_disconnected q b = Some b' -> dropped pid b'.
Proof.
  intros Hb Hp. unfold on_disconnected, and_modify. destruct (peers b !! q) as [s|] eqn:Es.
  - destruct (visit visit_disconnected q _ _ _) as [[[v' s'] out']|] eqn:E; simpl; [|done].
    intros [= <-]. apply serve_block_fetch_loop_dropped.
    eapply visit_dropped; try exact E; try done.
    unfold is_down. simpl. by destruct (connection s), (promotion s).
  - simpl. intros [= <-]. by apply serve_block_fetch_loop_dropped.
Qed.

Lemma on_outbound_msg_dropped q m pid b b' :
  initiator_inv b -> dropped pid b -> on_outbound_msg q m b = Some b' -> dropped pid b'.
Proof.
  intros Hb Hp H1.
  apply (and_modify_dropped visit_outbound_msg q pid
    (fun s => s ← clear_unsent s m; Some (apply_msg s m)) b b'); [done..| |].
  - intros s s1. destruct (clear_unsent s m) as [s2|] eqn:E; simpl; [|done]. intros [= <-] _.
    destruct (apply_msg_frame s2 m) as (Ht & _ & _ & Hc & _). unfold is_down. rewrite Ht, Hc.
    by apply clear_unsent_spec in E as [->|(_ & _ & ->)].
  - revert H1. unfold on_outbound_msg, and_modify. destruct (peers b !! q) as [s|]; [|done].
    by destruct (clear_unsent s m).
Qed.

Lemma handle_io_dropped e pid b b' :
  initiator_inv b -> e <> InterfaceEvent.Connected pid -> dropped pid b ->
  handle_io e b = Some b' -> dropped pid b'.
Proof.
  intros Hb He Hp. destruct e as [q|q|q m|q ms|q err|]; cbn [handle_io].
  - apply (and_modify_dropped visit_connected q pid (fun s => Some (set_connection ConnectionState.Connected s)));
      [done..|]. intros s s1 _ ->. done.
  - by apply on_disconnected_dropped.
  - by apply on_outbound_msg_dropped.
  - by apply on_inbound_msgs_dropped.
  - intros H1. apply (and_modify_dropped visit_errored q pid (fun s =>
      let s := set_connection ConnectionState.Errored s in
      errors ← checked_add 32 (error_count s) 1; Some (set_error_count errors s)) b b'); [done..| |].
    + intros s s1. cbn zeta. destruct (checked_add 32 _ 1); simpl; [|done]. intros [= <-] _.
      unfold is_down. simpl. by destruct (connection s), (promotion s).
    + revert H1. unfold on_errored, and_modify. destruct (peers b !! q); [|done].
      cbn zeta. by destruct (checked_add 32 _ 1).
  - by apply housekeeping_dropped.
Qed.

Lemma on_tagged_dropped q tagger pid b b' :
  (forall s, is_down s = true -> is_down (tagger s) = true) ->
  initiator_inv b -> dropped pid b -> on_tagged q tagger b = Some b' -> dropped pid b'.
Proof.
  intros Ht Hb Hp. apply (and_modify_dropped visit_tagged q pid (fun s => Some (tagger s))); [done..|].
  intros s s1 [= <-] _. apply Ht.
Qed.

Lemma execute_dropped c pid b b' :
  initiator_inv b -> c <> InitiatorCommand.IncludePeer pid -> dropped pid b ->
  execute c b = Some b' -> dropped pid b'.
Proof.
  intros Hb Hc Hp. destruct c as [q| |points|q|range|q x y|q eb|q eb bm|q|q]; cbn [execute].
  - case_match; [|by intros [= <-]]. apply on_discovered_dropped; [done|congruence|done].
  - by apply housekeeping_dropped.
  - by intros [= <-].
  - by apply on_tagged_dropped.
  - intros [= <-]. by apply serve_block_fetch_loop_dropped.
  - by intros [= <-].
  - intros [= <-]. by apply serve_leios_fetch_dropped.
  - intros [= <-]. by apply serve_leios_fetch_dropped.
  - apply on_tagged_dropped; [|done..]. intros s. unfold is_down. simpl. by destruct (connection s).
  - apply on_tagged_dropped; [|done..]. intros s. unfold is_down. simpl. by destruct (connection s).
Qed.
End events.
