(* ===== verification/InitiatorProps.v ===== *)
(** * Properties of the initiator *)
From S2P Require Import Prelude Cbor Rfc8949 Protocol Network Chainsync Blockfetch.
From S2P Require Import Keepalive Txsubmission Peersharing Handshake HandshakeVersions.
From S2P Require Import LeiosProtocols AnyMessage Unsent InitiatorState Promotion.
From S2P Require Import Connection Discovery Fetching Leios Initiator InitiatorInv.
From S2P Require Import Steps Ledger.

(** A configuration and two peers for the witnesses. *)
Definition small_config : PromotionConfig :=
  {| max_peers := 2; max_warm_peers := 1; max_hot_peers := 1; max_error_count := 1 |}.
Definition peer_a : PeerId := {| host := "a"; port := 3001 |}.
Definition peer_b : PeerId := {| host := "b"; port := 3001 |}.
Definition small : InitiatorBehavior := initiator small_config default_handshake.

Lemma small_config_ok : config_ok small_config.
Proof. done. Qed.

(** ** Limits and panics *)

(** The peers that carry a tag. *)
Definition tagged (t : PromotionTag.t) (b : InitiatorBehavior) : gmap PeerId InitiatorState :=
  filter (fun kv => promotion kv.2 = t) (peers b).

Lemma tagged_size t b (x : gset PeerId) :
  (forall pid s, peers b !! pid = Some s -> promotion s = t -> pid ∈ x) ->
  Z.of_nat (size (tagged t b)) <= len x.
Proof.
  intros Hx. unfold len. rewrite <- size_dom. apply Nat2Z.inj_le, subseteq_size.
  intros pid [s Hs]%elem_of_dom. apply map_lookup_filter_Some in Hs as [Hs Ht]. by eapply Hx.
Qed.

(** C30: In every reachable state, under any configuration, the tracked peers stay
    within [max_peers], no more peers are tagged warm or hot than configured, and
    a banned peer is in none of the other sets. *)
Theorem promotion_limits `{Minicbor} config versions b :
  reachable config versions b ->
  total_peers (sub_promotion (subs b)) <= max_peers config /\
  Z.of_nat (size (tagged PromotionTag.Warm b)) <= max_warm_peers config /\
  Z.of_nat (size (tagged PromotionTag.Hot b)) <= max_hot_peers config /\
  banned_peers (sub_promotion (subs b)) ##
    cold_peers (sub_promotion (subs b)) ∪ warm_peers (sub_promotion (subs b)) ∪
    hot_peers (sub_promotion (subs b)).
Proof.
  intros [[[Ht Hw Hh Hb] Hp] Hc]%reachable_inv. rewrite Hc in *.
  split_and!; [done| | |done].
  - transitivity (len (warm_peers (sub_promotion (subs b)))); [|done].
    apply tagged_size. intros pid s Hs Htag. destruct (Hp _ _ Hs) as [[Hwt _] _ _]. auto.
  - transitivity (len (hot_peers (sub_promotion (subs b)))); [|done].
    apply tagged_size. intros pid s Hs Htag. destruct (Hp _ _ Hs) as [[_ Hht] _ _]. auto.
Qed.

(** C2: In every reachable state and whatever the iteration order, no command ever
    panics, and an interface event panics exactly when it reports a connection of
    a peer that has already shaken hands, the 2^32th error of a peer, or the
    sending of a message that cannot be written while a request is pending on its
    channel; no arithmetic underflows anywhere. *)
Theorem panics_exactly `{Minicbor} `{HashOrder} config versions b :
  reachable config versions b ->
  (forall e, handle_io e b = None <-> io_panics e b) /\ (forall c, is_Some (execute c b)).
Proof.
  intros [Hb _]%reachable_inv. split; [intros e; by apply handle_io_panics|intros c; by apply execute_total].
Qed.

(** ** Banned peers *)

(** The outputs a step adds to the queue. *)
Definition added (b b' : InitiatorBehavior) (l : Outbound) : Prop := outbound b' = outbound b ++ l.

(** Batches are handled message by message, so the pushes of a batch are looked at
    one message at a time. *)
Definition single (lbl : label) : Prop :=
  match lbl with
  | Io (InterfaceEvent.Recv _ ms) => (length ms <= 1)%nat
  | Polled _ => False
  | _ => True
  end.

Definition label_hook (lbl : label) : Hook :=
  match lbl with
  | Io e => event_hook e
  | Command c => command_hook c
  | Polled _ => visit_housekeeping
  end.

Lemma step_pushes `{Minicbor} b lbl b' :
  step b lbl b' -> single lbl -> pushes (label_hook lbl) (fun _ => True) b b'.
Proof.
  intros [order e b1 b2 Hs|order c b1 b2 Hs|] Hl; [..|done].
  - apply handle_io_pushes in Hs; [done|]. intros pid ms ->. exact Hl.
  - by apply execute_pushes in Hs.
Qed.

(** Where the pushes of a step are looked at: before and after it, and, for a batch of
    messages, before and after each of them. *)
Definition moment (lbl : label) (b b' x y : InitiatorBehavior) : Prop :=
  match lbl with
  | Io (InterfaceEvent.Recv pid ms) =>
      exists ms1 m ms2, ms = ms1 ++ m :: ms2 /\
        on_inbound_msgs pid ms1 b = Some x /\ on_inbound_msg pid m x = Some y
  | _ => x = b /\ y = b'
  end.

(** The output was pushed between the two states, under the condition of its peer. *)
Definition justified (hook : Hook) (x y : InitiatorBehavior) (o : Output) : Prop :=
  exists l pid s, added x y l /\ o ∈ l /\ peers y !! pid = Some s /\ gate hook pid s o.

Lemma pushes_justified hook x y :
  pushes hook (fun _ => True) x y -> exists l, added x y l /\ Forall (justified hook x y) l.
Proof.
  intros [(l & Ho & Hg) _]. exists l. split; [done|]. rewrite list.Forall_forall in Hg |- *.
  intros o Ho'. destruct (Hg o Ho') as (pid & s & _ & Hs & Hgate). by exists l, pid, s.
Qed.

Lemma batch_justified pid ms b b' :
  on_inbound_msgs pid ms b = Some b' ->
  exists l, added b b' l /\
    Forall (fun o => exists x y,
      moment (Io (InterfaceEvent.Recv pid ms)) b b' x y /\ justified visit_inbound_msg x y o) l.
Proof.
  revert b; induction ms as [|m ms IH]; intros b; cbn [on_inbound_msgs].
  - intros [= <-]. exists []. split; [|done]. unfold added. by rewrite app_nil_r.
  - destruct (on_inbound_msg pid m b) as [b1|] eqn:E; simpl; [|done]. intros (l2 & H2 & Hl2)%IH.
    destruct (pushes_justified _ _ _ (on_inbound_msg_pushes _ _ _ _ E)) as (l1 & H1 & Hl1).
    exists (l1 ++ l2). split; [unfold added in *; by rewrite H2, H1, app_assoc|].
    apply Forall_app. split.
    + eapply Forall_impl; [exact Hl1|]. intros o Ho. exists b, b1. split; [|done]. by exists [], m, ms.
    + eapply Forall_impl; [exact Hl2|]. intros o (x & y & (ms1 & m' & ms2 & -> & Hx & Hy) & Ho).
      exists x, y. split; [|done]. exists (m :: ms1), m', ms2. split_and!; [done| |done].
      cbn [on_inbound_msgs]. by rewrite E.
Qed.

(** C3: Whatever event or command is handled, each output it pushes is justified by the
    state its peer is left in - of a batch of messages, by the message that pushes it:
    connections only to peers just promoted to warm or hot, disconnections only of
    peers that must go, handshakes only on a new connection, the next header only of
    peers whose chain-sync has begun and is idle, and every other request only to
    initialized peers - Leios messages only where the negotiated version carries the
    overlay, block ranges and Leios fetches not to peers about to be dropped,
    intersections only to hot peers, peer requests only to peers that share - and a
    peer is announced as initialized with the version it accepted. *)
Theorem outputs_justified `{Minicbor} b lbl b' :
  step b lbl b' -> (forall o, lbl <> Polled o) ->
  exists l, added b b' l /\
    Forall (fun o => exists x y, moment lbl b b' x y /\ justified (label_hook lbl) x y o) l.
Proof.
  intros Hs Hl.
  assert (single lbl -> (forall pid ms, lbl <> Io (InterfaceEvent.Recv pid ms)) ->
    exists l, added b b' l /\ Forall (fun o => exists x y, moment lbl b b' x y /\ justified (label_hook lbl) x y o) l)
    as Hone.
  { intros Hsingle Hr. destruct (pushes_justified _ _ _ (step_pushes _ _ _ Hs Hsingle)) as (l & Ho & Hg).
    exists l. split; [done|]. eapply Forall_impl; [exact Hg|]. intros o Hj. exists b, b'. split; [|done].
    destruct lbl as [[]| |]; by (split; done) || by destruct (Hr _ _ eq_refl). }
  destruct lbl as [[pid|pid|pid m|pid ms|pid err|]|c|o]; try (by apply Hone); [|by destruct (Hl o)].
  inversion Hs as [order e b1 b2 H1| |]; subst. by apply batch_justified.
Qed.

(** A peer in the banned set stays there, and no event or command ever again
    asks the interface to connect to it. *)
Theorem banned_peer_not_connected `{Minicbor} config versions b pid lbl b' :
  reachable config versions b -> pid ∈ banned_peers (sub_promotion (subs b)) ->
  step b lbl b' ->
  pid ∈ banned_peers (sub_promotion (subs b')) /\
  (single lbl -> exists l, added b b' l /\ OutCommand (Connect pid) ∉ l).
Proof.
  intros [Hb _]%reachable_inv Hpid Hs. pose proof (step_kept _ _ _ Hb Hs) as [Hb' _ Hban].
  split; [set_solver|]. intros Hl. destruct (step_pushes _ _ _ Hs Hl) as [(l & Ho & Hg) _].
  exists l. split; [done|]. intros Hin. rewrite list.Forall_forall in Hg.
  destruct (Hg _ Hin) as (q & s & _ & Hq & -> & _ & Htag).
  destruct (inv_peers _ Hb' _ _ Hq) as [[Hw Hh] _ _]. destruct (inv_promotion _ Hb') as [_ _ _ Hd].
  destruct Htag as [Ht|Ht]; [specialize (Hw Ht)|specialize (Hh Ht)]; set_solver.
Qed.

(** ** Block ranges *)

(** The events of an interface that reports what happened to peers that only
    serve: none of the messages received requests a block range, and what is reported
    as sent on the block-fetch channel is the request that was pushed. *)
Definition well_behaved (e : InterfaceEvent.t AnyMessage.t) (b : InitiatorBehavior) : Prop :=
  match e with
  | InterfaceEvent.Recv _ ms => Forall (fun m => from_server m = true) ms
  | InterfaceEvent.Sent pid m => faithful_sent pid m b
  | _ => True
  end.

(** The ranges the messages of a batch complete, one message after the other. *)
Fixpoint completed_batch (pid : PeerId) (ms : list AnyMessage.t) (b : InitiatorBehavior) : list BlockRange :=
  match ms with
  | [] => []
  | m :: ms =>
      completed pid m b ++
      match on_inbound_msg pid m b with Some b1 => completed_batch pid ms b1 | None => [] end
  end.

Definition completed_by (e : InterfaceEvent.t AnyMessage.t) (b : InitiatorBehavior) : list BlockRange :=
  match e with InterfaceEvent.Recv pid ms => completed_batch pid ms b | _ => [] end.

(** Runs with the ranges requested so far and those completed so far. *)
Inductive block_run `{Minicbor} (config : PromotionConfig) (versions : HandshakeBehavior) :
    list BlockRange -> list BlockRange -> InitiatorBehavior -> Prop :=
| block_run_start : config_ok config -> block_run config versions [] [] (initiator config versions)
| block_run_io (order : HashOrder) reqs done b e b' :
    block_run config versions reqs done b -> well_behaved e b -> handle_io e b = Some b' ->
    block_run config versions reqs (done ++ completed_by e b) b'
| block_run_execute (order : HashOrder) reqs done b c b' :
    block_run config versions reqs done b -> execute c b = Some b' ->
    block_run config versions (reqs ++ requested c) done b'
| block_run_output reqs done b o b' :
    block_run config versions reqs done b -> step b (Polled o) b' ->
    block_run config versions reqs done b'.

Lemma on_inbound_msgs_ledger pid ms b b' :
  blocks_sound b -> Forall (fun m => from_server m = true) ms -> on_inbound_msgs pid ms b = Some b' ->
  ledger b' ++ completed_batch pid ms b ≡ₚ ledger b /\ blocks_sound b'.
Proof.
  intros Hb Hms. revert b Hb. induction Hms as [|m ms Hm _ IH]; intros b Hb; cbn [on_inbound_msgs completed_batch].
  - intros [= <-]. by rewrite app_nil_r.
  - destruct (on_inbound_msg pid m b) as [b1|] eqn:E; simpl; [|done].
    apply on_inbound_msg_ledger in E as [Hl1 Hb1]; [|done..]. intros [Hl2 Hb2]%IH; [|done].
    split; [|done]. rewrite <- Hl1, <- Hl2. solve_Permutation.
Qed.

Lemma handle_io_ledger `{Minicbor} `{HashOrder} e b b' :
  initiator_inv b -> blocks_sound b -> well_behaved e b -> handle_io e b = Some b' ->
  ledger b' ++ completed_by e b ≡ₚ ledger b /\ blocks_sound b'.
Proof.
  intros Hi Hb Hw. destruct e as [pid|pid|pid m|pid ms|pid err|]; cbn [handle_io completed_by];
    rewrite ?app_nil_r.
  - apply (and_modify_ledger visit_connected pid (fun s => Some (set_connection ConnectionState.Connected s)));
      try done. intros s s1 _ [= <-]. by apply block_ok_same.
  - by apply on_disconnected_ledger.
  - apply on_outbound_msg_ledger; [done| |done]. intros s Hs. by apply (inv_peers _ Hi _ _ Hs).
  - by apply on_inbound_msgs_ledger.
  - intros H1. apply (and_modify_ledger visit_errored pid (fun s =>
      let s := set_connection ConnectionState.Errored s in
      errors ← checked_add 32 (error_count s) 1; Some (set_error_count errors s))); try done.
    + intros s s1 _. cbn zeta. destruct (checked_add 32 _ 1); simpl; [|done]. intros [= <-]. by apply block_ok_same.
    + revert H1. unfold on_errored, and_modify. destruct (peers b !! pid); [|done].
      cbn zeta. by destruct (checked_add 32 _ 1).
  - by apply housekeeping_ledger.
Qed.

Lemma block_run_inv `{Minicbor} config versions reqs don b :
  block_run config versions reqs don b ->
  initiator_inv b /\ blocks_sound b /\ ledger b ++ don ≡ₚ reqs.
Proof.
  induction 1 as [Hc|order reqs don b e b' _ (Hi & Hb & Hl) Hw Hs|order reqs don b c b' _ (Hi & Hb & Hl) Hs
    |reqs don b o b' _ (Hi & Hb & Hl) Hs].
  - split_and!; [by apply initiator_start|apply map_Forall_empty|done].
  - pose proof (handle_io_kept _ _ _ Hi Hs) as [Hi' _ _].
    destruct (handle_io_ledger _ _ _ Hi Hb Hw Hs) as [Hl' Hb']. split_and!; [done..|].
    rewrite <- Hl, <- Hl'. solve_Permutation.
  - pose proof (execute_kept _ _ _ Hi Hs) as [Hi' _ _].
    destruct (execute_ledger _ _ _ Hb Hs) as [Hl' Hb']. split_and!; [done..|].
    rewrite <- Hl, Hl'. solve_Permutation.
  - pose proof (step_kept _ _ _ Hi Hs) as [Hi' _ _]. inversion Hs; subst. done.
Qed.

(** C1: No block range is ever lost or duplicated: the ranges requested are, as a
    multiset, those in the queue, unsent or in flight at some peer, together with
    those a peer has completed - whatever peers are promoted, banned, fail or
    disconnect in between, and whatever the order of iteration.  The peers behave as
    servers, that is none of the messages received asks for a block range, and the
    interface is faithful: a message it reports as sent on the block-fetch channel is
    the one that was pushed and has not been reported yet. *)
Theorem block_ranges_conserved `{Minicbor} config versions reqs don b :
  block_run config versions reqs don b ->
  reqs ≡ₚ requests (sub_blockfetch (subs b)) ++ held (peers b) ++ don.
Proof. intros (_ & _ & Hl)%block_run_inv. rewrite <- Hl. unfold ledger. solve_Permutation. Qed.

(** ** Disconnections *)

(** A peer that was disconnected is not served by the block-fetch loop. *)
Lemma serve_block_fetch_loop_new order b pid s :
  peers b !! pid = Some s -> connection s = ConnectionState.New ->
  peers (serve_block_fetch_loop order b) !! pid = Some s.
Proof.
  revert b; induction order as [|q order IH]; intros b Hs Hn; cbn [serve_block_fetch_loop]; [done|].
  destruct (negb _); [done|]. destruct (peers b !! q) as [s1|] eqn:E; [|by apply IH].
  destruct (serve_next q _ s1 _) as [[x s'] out'] eqn:Es. apply IH; [|done]. simpl.
  destruct (decide (q = pid)) as [->|Hq]; [|by rewrite lookup_insert_ne].
  rewrite lookup_insert_eq. rewrite Hs in E. injection E as <-.
  revert Es. unfold serve_next, blockfetch_peer_is_available. rewrite Hn. by intros [= _ <- _].
Qed.

(** A disconnected peer starts over: everything known of it but its error count
    is forgotten, and nothing is served to it before it connects again. *)
Theorem disconnected_starts_over `{Minicbor} `{HashOrder} pid s b b' :
  peers b !! pid = Some s -> handle_io (InterfaceEvent.Disconnected pid) b = Some b' ->
  peers b' !! pid = Some (set_error_count (error_count s) new).
Proof.
  intros Hs. cbn [handle_io]. unfold on_disconnected, and_modify. rewrite Hs.
  destruct (visit visit_disconnected pid _ _ _) as [[[v' s'] out']|] eqn:E; simpl; [|done].
  intros [= <-]. unfold serve_block_fetch.
  apply serve_block_fetch_loop_new; [|done]. simpl. rewrite lookup_insert_eq, reset_spec.
  destruct (all_visitors_rest keeps_tag _ _ _ _ _ _ _ _ E) as (s1 & out1 & H1 & _ & He).
  apply promotion_visit_state in H1 as [_ [->|[t ->]]]; by rewrite He.
Qed.

(** The steps that may bring a peer back. *)
Definition brings_back (pid : PeerId) (lbl : label) : Prop :=
  lbl = Command (InitiatorCommand.IncludePeer pid) \/ lbl = Io (InterfaceEvent.Connected pid).

Inductive run_without `{Minicbor} (pid : PeerId) : InitiatorBehavior -> InitiatorBehavior -> Prop :=
| run_without_refl b : run_without pid b b
| run_without_step b1 lbl b2 b3 :
    run_without pid b1 b2 -> step b2 lbl b3 -> ~ brings_back pid lbl -> run_without pid b1 b3.

Lemma step_dropped `{Minicbor} pid b lbl b' :
  initiator_inv b -> dropped pid b -> step b lbl b' -> ~ brings_back pid lbl -> dropped pid b'.
Proof.
  intros Hb Hp Hs Hl. revert Hb Hp. destruct Hs as [order e b1 b2 Hs|order c b1 b2 Hs|]; intros Hb Hp.
  - eapply handle_io_dropped; [exact Hb| |exact Hp|exact Hs]. intros ->. apply Hl. by right.
  - eapply execute_dropped; [exact Hb| |exact Hp|exact Hs]. intros ->. apply Hl. by left.
  - by eapply dropped_same.
Qed.

Lemma run_without_dropped `{Minicbor} pid b b' :
  initiator_inv b -> dropped pid b -> run_without pid b b' -> initiator_inv b' /\ dropped pid b'.
Proof.
  intros Hb Hp. induction 1 as [|b1 lbl b2 b3 _ IH Hs Hl]; [done|].
  destruct (IH Hb Hp) as [Hb2 Hp2]. split; [by apply (step_kept _ _ _ Hb2 Hs)|]. by eapply step_dropped.
Qed.

Lemma disconnected_dropped `{Minicbor} `{HashOrder} pid b b' :
  is_Some (peers b !! pid) -> pid ∉ cold_peers (sub_promotion (subs b)) ->
  handle_io (InterfaceEvent.Disconnected pid) b = Some b' -> dropped pid b'.
Proof.
  intros [s Hs] Hc. cbn [handle_io]. unfold on_disconnected, and_modify. rewrite Hs.
  destruct (visit visit_disconnected pid _ _ _) as [[[v' s'] out']|] eqn:E; simpl; [|done].
  intros [= <-]. apply serve_block_fetch_loop_dropped.
  destruct (all_visitors_rest keeps_tag _ _ _ _ _ _ _ _ E) as (s1 & out1 & H1 & _).
  injection H1 as Hv _ _. split; [simpl; by rewrite <- Hv|].
  exists (reset s'). simpl. by rewrite lookup_insert_eq, reset_spec.
Qed.

(** A peer that disconnects while it is warm or hot is never connected to
    again: its tag is reset to cold but it is not put back among the cold peers, so
    unless it is included anew (or the interface reports a connection nobody asked
    for) no later event, command or housekeeping pushes a connection to it. *)
Theorem disconnected_peer_never_reconnects `{Minicbor} config versions b pid b1 b2 lbl b3 :
  reachable config versions b -> is_Some (peers b !! pid) ->
  pid ∉ cold_peers (sub_promotion (subs b)) ->
  step b (Io (InterfaceEvent.Disconnected pid)) b1 -> run_without pid b1 b2 ->
  step b2 lbl b3 -> ~ brings_back pid lbl -> single lbl ->
  exists l, added b2 b3 l /\ OutCommand (Connect pid) ∉ l.
Proof.
  intros [Hb _]%reachable_inv Hs Hc Hd Hrun Hstep Hl Hsingle.
  pose proof (step_kept _ _ _ Hb Hd) as [Hb1 _ _].
  assert (dropped pid b1) as Hp by (inversion Hd; subst; by eapply disconnected_dropped).
  destruct (run_without_dropped _ _ _ Hb1 Hp Hrun) as [Hb2 Hp2].
  destruct (step_dropped _ _ _ _ Hb2 Hp2 Hstep Hl) as [_ (s & Hs3 & Hdown)].
  destruct (step_pushes _ _ _ Hstep Hsingle) as [(l & Ho & Hg) _]. exists l. split; [done|].
  intros Hin. rewrite list.Forall_forall in Hg.
  destruct (Hg _ Hin) as (q & s' & _ & Hq & -> & Hcon & _). rewrite Hs3 in Hq. injection Hq as <-.
  unfold is_down in Hdown. by rewrite Hcon in Hdown.
Qed.

(** Banning a cold peer by command does not keep it out: the command changes
    the peer's tag but not the sets, so the next housekeeping promotes the peer to
    warm and connects to it. *)
Theorem banned_cold_peer_is_connected `{HashOrder} pid s b :
  initiator_inv b -> peers b = {[pid := s]} ->
  connection s = ConnectionState.New -> violation s = false -> chainsync.is_new (chainsync s) = true ->
  error_count s <= max_error_count (promotion_config (sub_promotion (subs b))) ->
  pid ∈ cold_peers (sub_promotion (subs b)) ->
  len (warm_peers (sub_promotion (subs b))) < max_warm_peers (promotion_config (sub_promotion (subs b))) ->
  exists b1 b2, execute (InitiatorCommand.BanPeer pid) b = Some b1 /\
    execute InitiatorCommand.Housekeeping b1 = Some b2 /\ OutCommand (Connect pid) ∈ outbound b2.
Proof.
  intros Hb Hp Hc Hv Hn He Hcold Hw.
  set (s1 := set_promotion PromotionTag.Banned s).
  set (b1 := {| subs := subs b; peers := <[pid := s1]> (peers b); outbound := outbound b |}).
  assert (execute (InitiatorCommand.BanPeer pid) b = Some b1) as H1.
  { cbn [execute]. unfold on_tagged, and_modify. rewrite Hp, lookup_singleton_eq.
    unfold visit, all_visitors, visit, chainsync_visitor, peer_is_syncing. simpl. rewrite Hn. simpl.
    unfold b1. rewrite Hp. by destruct (subs b). }
  pose proof (execute_kept _ _ _ Hb H1) as [Hb1 _ _].
  destruct (execute_total InitiatorCommand.Housekeeping b1 Hb1) as [b2 H2].
  exists b1, b2. split_and!; [done..|]. cbn [execute] in H2. unfold housekeeping in H2.
  destruct (housekeep_peers _ b1) as [b3|] eqn:E3; simpl in H2; [|done].
  apply move_discovered_quiet in H2 as [-> _].
  assert (peers_order (dom (peers b1)) = [pid]) as Horder.
  { unfold b1. simpl. rewrite Hp, insert_singleton_eq, dom_singleton_L.
    apply Permutation_singleton_r. by rewrite peers_order_perm, elements_singleton. }
  rewrite Horder in E3. cbn [housekeep_peers] in E3. unfold and_modify in E3. simpl in E3.
  rewrite lookup_insert_eq in E3.
  destruct (visit visit_housekeeping pid (subs b) s1 (outbound b)) as [[[v' s'] out']|] eqn:Ev; simpl in E3; [|done].
  injection E3 as <-. simpl.
  eapply all_visitors_connects; [exact Ev| |].
  - unfold visit, promotion_visitor, categorize_peer. unfold s1 at 1 2. simpl. rewrite Hv. simpl.
    destruct (Z.ltb_spec (max_error_count (promotion_config (sub_promotion (subs b)))) (error_count s)); [lia|]. simpl.
    unfold required_warm_peers. rewrite checked_sub_le by lia. simpl.
    rewrite (proj2 (Z.ltb_lt 0 _)) by lia. rewrite bool_decide_eq_true_2 by done. simpl.
    unfold promote_cold_peer. rewrite bool_decide_eq_true_2 by done. simpl. reflexivity.
  - unfold needs_connection. simpl. by rewrite Hc.
Qed.

(** ** Witnesses

    A run of a small configuration: peer a is included, promoted and asked to be
    connected; then it misbehaves and is banned, or disconnects. *)
Definition after (r : option InitiatorBehavior) : InitiatorBehavior := default small r.

Definition included : InitiatorBehavior :=
  after (execute (H := elements_order) (InitiatorCommand.IncludePeer peer_a) small).
Definition warmed : InitiatorBehavior :=
  after (execute (H := elements_order) InitiatorCommand.Housekeeping included).
Definition banned : InitiatorBehavior :=
  after (handle_io (H := rfc8949) (H0 := elements_order)
    (InterfaceEvent.Recv peer_a [AnyMessage.BlockFetch blockfetch.Message.BatchDone]) warmed).
Definition gone : InitiatorBehavior :=
  after (handle_io (H := rfc8949) (H0 := elements_order) (InterfaceEvent.Disconnected peer_a) warmed).
Definition idle_again : InitiatorBehavior :=
  after (execute (H := elements_order) InitiatorCommand.Housekeeping gone).

Lemma reachable_included : reachable (H := rfc8949) small_config default_handshake included.
Proof.
  apply (reachable_step _ _ small (Command (InitiatorCommand.IncludePeer peer_a))); [by apply reachable_start|].
  apply (step_execute elements_order). by vm_compute.
Qed.

Lemma reachable_warmed : reachable (H := rfc8949) small_config default_handshake warmed.
Proof.
  apply (reachable_step _ _ included (Command InitiatorCommand.Housekeeping)); [apply reachable_included|]. apply (step_execute elements_order). by vm_compute.
Qed.

Lemma reachable_banned : reachable (H := rfc8949) small_config default_handshake banned.
Proof.
  apply (reachable_step _ _ warmed (Io (InterfaceEvent.Recv peer_a
    [AnyMessage.BlockFetch blockfetch.Message.BatchDone]))); [apply reachable_warmed|].
  apply (step_io elements_order). by vm_compute.
Qed.

Lemma promotion_limits_witness : Z.of_nat (size (tagged PromotionTag.Warm warmed)) <= 1.
Proof. apply (promotion_limits small_config default_handshake warmed reachable_warmed). Defined.

Lemma panics_exactly_witness :
  is_Some (execute (H := elements_order) InitiatorCommand.Housekeeping banned).
Proof. apply (panics_exactly (H0 := elements_order) small_config default_handshake banned reachable_banned). Defined.

Lemma banned_peer_not_connected_witness :
  peer_a ∈ banned_peers (sub_promotion (subs (after (execute (H := elements_order) InitiatorCommand.Housekeeping banned)))).
Proof.
  apply (banned_peer_not_connected (H := rfc8949) small_config default_handshake banned peer_a
      (Command InitiatorCommand.Housekeeping));
    [apply reachable_banned|by apply (bool_decide_unpack _); vm_compute|].
  apply (step_execute elements_order). by vm_compute.
Defined.

Lemma disconnected_starts_over_witness : peers gone !! peer_a = Some new.
Proof.
  destruct (peers warmed !! peer_a) as [s|] eqn:E; [|by vm_compute in E].
  assert (error_count s = 0) as He by (vm_compute in E; injection E as <-; done).
  pose proof (disconnected_starts_over (H := rfc8949) (H0 := elements_order) peer_a s warmed gone E) as H.
  rewrite He in H. apply H. by vm_compute.
Defined.

Lemma disconnected_peer_never_reconnects_witness :
  exists l, added gone idle_again l /\ OutCommand (Connect peer_a) ∉ l.
Proof.
  apply (disconnected_peer_never_reconnects (H := rfc8949) small_config default_handshake warmed peer_a gone gone
    (Command InitiatorCommand.Housekeeping)).
  - apply reachable_warmed.
  - by eexists; vm_compute.
  - by apply (bool_decide_unpack _); vm_compute.
  - apply (step_io elements_order). by vm_compute.
  - apply run_without_refl.
  - apply (step_execute elements_order). by vm_compute.
  - by intros [[=]|[=]].
  - done.
Defined.

Lemma banned_cold_peer_is_connected_witness :
  exists b1 b2, execute (H := elements_order) (InitiatorCommand.BanPeer peer_a) included = Some b1 /\
    execute (H := elements_order) InitiatorCommand.Housekeeping b1 = Some b2 /\
    OutCommand (Connect peer_a) ∈ outbound b2.
Proof.
  apply (banned_cold_peer_is_connected (H := elements_order) peer_a new included).
  - apply (reachable_inv (H := rfc8949) small_config default_handshake), reachable_included.
  - by vm_compute.
  - reflexivity.
  - reflexivity.
  - reflexivity.
  - by vm_compute.
  - by apply (bool_decide_unpack _); vm_compute.
  - by vm_compute.
Defined.

(** A run with block ranges: peer a is connected and offered the versions; two ranges
    are requested; the peer accepts and is asked for the first one; it answers with a
    batch and is asked for the second one. *)
Definition event (e : InterfaceEvent.t AnyMessage.t) (b : InitiatorBehavior) : InitiatorBehavior :=
  after (handle_io (H := rfc8949) (H0 := elements_order) e b).
Definition command (c : InitiatorCommand.t) (b : InitiatorBehavior) : InitiatorBehavior :=
  after (execute (H := elements_order) c b).

Definition first_range : BlockRange := (Point.Origin, Point.Specific 7 [1]).
Definition second_range : BlockRange := (Point.Specific 7 [1], Point.Specific 9 [2]).
Definition offer : AnyMessage.t := AnyMessage.Handshake (handshake.Message.Propose (supported_version default_handshake)).
Definition ask (r : BlockRange) : AnyMessage.t := AnyMessage.BlockFetch (blockfetch.Message.RequestRange r).
Definition acceptance : AnyMessage.t :=
  AnyMessage.Handshake (handshake.Message.Accept 13
    {| n2n.network_magic := MAINNET_MAGIC; n2n.initiator_only_diffusion_mode := false;
       n2n.peer_sharing := Some 1; n2n.query := Some false |}).
Definition batch : list AnyMessage.t :=
  map AnyMessage.BlockFetch [blockfetch.Message.StartBatch; blockfetch.Message.Block [42]; blockfetch.Message.BatchDone].

Definition connected : InitiatorBehavior := event (InterfaceEvent.Connected peer_a) warmed.
Definition offered : InitiatorBehavior := event (InterfaceEvent.Sent peer_a offer) connected.
Definition requesting : InitiatorBehavior :=
  command (InitiatorCommand.RequestBlocks second_range) (command (InitiatorCommand.RequestBlocks first_range) offered).
Definition accepted : InitiatorBehavior := event (InterfaceEvent.Recv peer_a [acceptance]) requesting.
Definition asked : InitiatorBehavior := event (InterfaceEvent.Sent peer_a (ask first_range)) accepted.
Definition answered : InitiatorBehavior := event (InterfaceEvent.Recv peer_a batch) asked.

Lemma block_ranges_conserved_witness :
  in_flight <$> (peers asked !! peer_a) = Some (Some first_range) /\
  requests (sub_blockfetch (subs asked)) = [second_range] /\
  [first_range; second_range] ≡ₚ requests (sub_blockfetch (subs answered)) ++ held (peers answered) ++ [first_range].
Proof.
  split; [vm_compute; reflexivity|]. split; [vm_compute; reflexivity|].
  apply (block_ranges_conserved (H := rfc8949) small_config default_handshake _ _ answered).
  apply (block_run_io (H := rfc8949) small_config default_handshake elements_order
    _ [] asked (InterfaceEvent.Recv peer_a batch)); [|repeat constructor|by vm_compute].
  apply (block_run_io (H := rfc8949) small_config default_handshake elements_order
    _ [] accepted (InterfaceEvent.Sent peer_a (ask first_range))); [| |by vm_compute].
  2: { intros s Hs _. vm_compute in Hs. injection Hs as <-. by vm_compute. }
  apply (block_run_io (H := rfc8949) small_config default_handshake elements_order
    _ [] requesting (InterfaceEvent.Recv peer_a [acceptance])); [|repeat constructor|by vm_compute].
  apply (block_run_execute (H := rfc8949) small_config default_handshake elements_order
    [first_range] [] (command (InitiatorCommand.RequestBlocks first_range) offered)
    (InitiatorCommand.RequestBlocks second_range)); [|by vm_compute].
  apply (block_run_execute (H := rfc8949) small_config default_handshake elements_order
    [] [] offered (InitiatorCommand.RequestBlocks first_range)); [|by vm_compute].
  apply (block_run_io (H := rfc8949) small_config default_handshake elements_order
    [] [] connected (InterfaceEvent.Sent peer_a offer)); [|by intros s _|by vm_compute].
  apply (block_run_io (H := rfc8949) small_config default_handshake elements_order
    [] [] warmed (InterfaceEvent.Connected peer_a)); [|done|by vm_compute].
  apply (block_run_execute (H := rfc8949) small_config default_handshake elements_order
    [] [] included InitiatorCommand.Housekeeping); [|by vm_compute].
  apply (block_run_execute (H := rfc8949) small_config default_handshake elements_order
    [] [] small (InitiatorCommand.IncludePeer peer_a)); [by apply block_run_start|by vm_compute].
Defined.

Lemma outputs_justified_witness :
  let lbl := Io (InterfaceEvent.Recv peer_a batch) in
  exists l, added asked answered l /\
    Forall (fun o => exists x y, moment lbl asked answered x y /\ justified visit_inbound_msg x y o) l.
Proof.
  apply (outputs_justified (H := rfc8949) asked (Io (InterfaceEvent.Recv peer_a batch)) answered); [|done].
  apply (step_io elements_order). by vm_compute.
Defined.

(** A peer that asks for a block range itself is not refused: with the next message sent
    to it on any channel the range counts as in flight, and when it disconnects the range
    is in the queue, though nobody has requested it. *)
Lemma range_injected :
  let e := InterfaceEvent.Sent peer_a (AnyMessage.KeepAlive (keepalive.Message.KeepAlive 0)) in
  let b := event (InterfaceEvent.Recv peer_a [acceptance]) offered in
  let b := event e (event (InterfaceEvent.Recv peer_a [ask first_range]) b) in
  requests (sub_blockfetch (subs (event (InterfaceEvent.Disconnected peer_a) b))) = [first_range].
Proof. vm_compute. reflexivity. Qed.
