(* ===== verification/Discipline.v ===== *)
(** * The sending discipline

    Requests are pushed one per channel at a time: none while one is unsent, and
    none while the peer has one to answer. *)
From S2P Require Import Prelude Cbor Rfc8949 Protocol Network Chainsync Blockfetch.
From S2P Require Import Keepalive Txsubmission Peersharing Handshake HandshakeVersions.
From S2P Require Import LeiosProtocols AnyMessage Unsent InitiatorState Promotion.
From S2P Require Import Connection Discovery Fetching Leios Initiator InitiatorInv.

(** The requests on a channel among some outputs. *)
Definition requests_on (c : Z) (l : Outbound) : list AnyMessage.t :=
  omap (fun o =>
    match o with
    | OutCommand (Send _ m) => if is_request m && (any_channel m =? c) then Some m else None
    | _ => None
    end) l.

Lemma requests_on_app c l1 l2 : requests_on c (l1 ++ l2) = requests_on c l1 ++ requests_on c l2.
Proof. apply omap_app. Qed.

(** On every channel either no request is pushed and the unsent one is what it was,
    or exactly one is pushed where none was unsent, and it is unsent now. *)
Definition announced (s s' : InitiatorState) (l : Outbound) : Prop := forall c,
  (requests_on c l = [] /\ by_channel (unsent s') !! c = by_channel (unsent s) !! c) \/
  (exists m, requests_on c l = [m] /\ by_channel (unsent s) !! c = None /\
             by_channel (unsent s') !! c = Some m).

Definition announces : step_relation := fun h _ s out s' out' =>
  h <> visit_disconnected -> exists l, out' = out ++ l /\ announced s s' l.

#[export] Instance announces_chains : Chains announces.
Proof.
  split; unfold announces.
  - intros h pid s out _. exists []. rewrite app_nil_r. split; [done|]. intros c. by left.
  - intros h pid s1 o1 s2 o2 s3 o3 H1 H2 Hh.
    destruct (H1 Hh) as (l1 & -> & A1), (H2 Hh) as (l2 & -> & A2).
    exists (l1 ++ l2). rewrite app_assoc. split; [done|]. intros c. rewrite requests_on_app.
    destruct (A1 c) as [[-> E1]|(m1 & -> & E1 & E1')], (A2 c) as [[-> E2]|(m2 & -> & E2 & E2')]; simpl.
    + left. split; [done|congruence].
    + right. exists m2. split_and!; congruence.
    + right. exists m1. split_and!; congruence.
    + congruence.
Qed.

Lemma announces_quiet h pid s out s' : unsent s' = unsent s -> announces h pid s out s' out.
Proof. intros Hu _. exists []. rewrite app_nil_r. split; [done|]. intros c. left. by rewrite Hu. Qed.

(** An output that is no request. *)
Lemma announces_other h pid s out s' o :
  unsent s' = unsent s -> (forall c, requests_on c [o] = []) -> announces h pid s out s' (out ++ [o]).
Proof. intros Hu Ho _. exists [o]. split; [done|]. intros c. left. by rewrite Hu. Qed.

Lemma announces_request h pid s out s' q m :
  by_channel (unsent s') = <[any_channel m := m]> (by_channel (unsent s)) -> is_request m = true ->
  by_channel (unsent s) !! any_channel m = None ->
  announces h pid s out s' (out ++ [OutCommand (Send q m)]).
Proof.
  intros Hu Hr Hn _. eexists. split; [done|]. intros c. unfold requests_on. simpl. rewrite Hr. simpl.
  destruct (Z.eqb_spec (any_channel m) c) as [<-|Hc]; simpl.
  - right. exists m. by rewrite Hu, lookup_insert_eq.
  - left. by rewrite Hu, lookup_insert_ne.
Qed.

Ltac announce_push :=
  first [by apply announces_quiet | by apply announces_other | by apply announces_request].

Ltac announce_goal :=
  lazymatch goal with
  | |- announces _ _ _ ?o _ ?o => by apply announces_quiet
  | |- announces ?h ?p ?s ?o _ ((?x ++ [?a]) ++ [?b]) =>
      apply (chain_trans h p s o s (x ++ [a])); announce_push
  | |- _ => announce_push
  end.

Section announcements.
#[export] Instance connection_announces : Visits announces ConnectionBehavior.
Proof. visit_cases; announce_goal. Qed.
#[export] Instance handshake_announces : Visits announces HandshakeBehavior.
Proof. visit_cases; announce_goal. Qed.
#[export] Instance keepalive_announces : Visits announces KeepaliveBehavior.
Proof. visit_cases; announce_goal. Qed.
#[export] Instance discovery_announces : Visits announces DiscoveryBehavior.
Proof. visit_cases; announce_goal. Qed.
#[export] Instance blockfetch_announces : Visits announces BlockFetchBehavior.
Proof. visit_cases; first [by intros [] | announce_goal]. Qed.
#[export] Instance chainsync_announces : Visits announces ChainSyncBehavior.
Proof. visit_cases; announce_goal. Qed.
#[export] Instance leiosnotify_announces : Visits announces LeiosNotifyBehavior.
Proof. visit_cases; announce_goal. Qed.
#[export] Instance leiosfetch_announces : Visits announces LeiosFetchBehavior.
Proof. visit_cases; announce_goal. Qed.
End announcements.

(** ** Properties *)

(** C31: Whatever happens to a peer other than its disconnection, the sub-behaviors
    together push at most one request on each channel, only where no request was
    unsent, and the request pushed is then the unsent one of its channel. *)
Theorem one_request_per_channel h pid (v : SubBehaviors) s out v' s' out' :
  h <> visit_disconnected -> visit h pid v s out = Some (v', s', out') ->
  exists l, out' = out ++ l /\ announced s s' l.
Proof.
  intros Hh (s1 & out1 & H1 & H2)%(all_visitors_rest announces).
  apply promotion_visit_state in H1 as [-> Hs]. destruct (H2 Hh) as (l & Hl & Ha). exists l. split; [done|].
  by destruct Hs as [->|[t ->]].
Qed.

(** A request that was pushed and is reported as sent, while its protocol can
    apply it, leaves the unsent requests, raises no violation, and in the state it
    leaves the protocol in every further request on its channel is refused. *)
Theorem no_pipelining `{Minicbor} s m pid out :
  by_channel (unsent s) !! any_channel m = Some m -> is_request m = true -> can_apply s m = true ->
  exists s1, clear_unsent s m = Some s1 /\
    let s2 := apply_msg s1 m in
    by_channel (unsent s2) !! any_channel m = None /\ violation s2 = violation s /\
    forall r, is_request r = true -> any_channel r = any_channel m ->
      try_send_request pid r s2 out = (false, s2, out).
Proof.
  intros Hu Hr Ha. exists (set_unsent (unsent_remove (unsent s) (any_channel m)) s). split.
  - unfold clear_unsent. rewrite (unsent_contains_self _ _ Hu Hr). simpl. by rewrite Ha.
  - cbn zeta. split_and!.
    + destruct (apply_msg_frame (set_unsent (unsent_remove (unsent s) (any_channel m)) s) m) as (_ & _ & -> & _).
      apply lookup_delete_eq.
    + clear Hu. destruct m as [m|m|m|m|m|m|m|m]; try done; cbn [apply_msg]; simpl in Ha |- *;
        unfold store, is_ok in *; by case_match.
    + intros r Hr' Hc. unfold try_send_request.
      assert (can_apply (apply_msg (set_unsent (unsent_remove (unsent s) (any_channel m)) s) m) r = false) as ->; [|done].
      clear Hu. revert Ha.
      destruct m as [m|m|m|m|m|m|m|m], r as [r|r|r|r|r|r|r|r]; try done;
        destruct m, r; try done; simpl;
        solve [by destruct (keepalive s)|by destruct (chainsync s)|by destruct (peersharing s)
              |by destruct (blockfetch s)|by destruct (leios_notify s)|by destruct (leios_fetch s)].
Qed.

(** A warm, initialized peer at housekeeping: the keep-alive is the one request. *)
Definition sample_pid : PeerId := {| host := "a"; port := 3001 |}.
Definition sample_subs : SubBehaviors := subs (initiator default_promotion_config default_handshake).
Definition sample_state : InitiatorState :=
  set_connection ConnectionState.Initialized (set_promotion PromotionTag.Warm new).

Lemma one_request_per_channel_witness :
  exists r, visit visit_housekeeping sample_pid sample_subs sample_state [] = Some r /\
    exists l, r.2 = [] ++ l /\ announced sample_state r.1.2 l.
Proof.
  destruct (visit visit_housekeeping sample_pid sample_subs sample_state []) as [[[v' s'] out']|] eqn:E;
    [|by vm_compute in E].
  eexists; split; [reflexivity|].
  apply (one_request_per_channel visit_housekeeping sample_pid sample_subs sample_state [] v' s' out'); [done|exact E].
Defined.

Lemma no_pipelining_witness :
  let m := AnyMessage.KeepAlive (keepalive.Message.KeepAlive 7) in
  let s := set_unsent {| by_channel := {[8 := m]} |} new in
  exists s1, clear_unsent (H := rfc8949) s m = Some s1 /\
    forall r, is_request r = true -> any_channel r = any_channel m ->
      try_send_request sample_pid r (apply_msg s1 m) [] = (false, apply_msg s1 m, []).
Proof.
  intros m s.
  destruct (no_pipelining (H := rfc8949) s m sample_pid [] eq_refl eq_refl eq_refl) as (s1 & E & _ & _ & H).
  exists s1. split; [exact E|exact H].
Defined.
