(* ===== verification/ResponderState.v ===== *)
(** * The state a responder keeps for a peer

    [ResponderState] of [pallas-network2/src/behavior/responder/mod.rs] and its
    methods, with those of [pallas-network2/src/behavior/unsent.rs], the events a
    responder emits, and the trait of its sub-behaviors.  The counter of violations
    is a metric and is not modelled. *)
From S2P Require Import Prelude Cbor Protocol Network Chainsync Blockfetch Keepalive.
From S2P Require Import Txsubmission Peersharing Handshake HandshakeVersions.
From S2P Require Import LeiosProtocols AnyMessage Unsent.

Record ResponderState := {
  connection : ConnectionState.t;
  handshake : handshake.State.t n2n.VersionData;
  keepalive : keepalive.State.t;
  peersharing : peersharing.State.t;
  blockfetch : blockfetch.State.t;
  chainsync : chainsync.State.t chainsync.HeaderContent;
  tx_submission : txsubmission.State.t;
  leios_notify : leiosnotify.State.t;
  leios_fetch : leiosfetch.State.t;
  violation : bool;
  error_count : Z;
  unsent : UnsentRequests
}.

(** [ResponderState::new], which is also its [Default]. *)
Definition new : ResponderState := {|
  connection := ConnectionState.New;
  handshake := handshake.default_state;
  keepalive := keepalive.default_state;
  peersharing := peersharing.default_state;
  blockfetch := blockfetch.default_state;
  chainsync := chainsync.default_state;
  tx_submission := txsubmission.default_state;
  leios_notify := leiosnotify.default_state;
  leios_fetch := leiosfetch.default_state;
  violation := false;
  error_count := 0;
  unsent := no_unsent
|}.

(** ** Assignments to one field *)
Definition set_connection (x : ConnectionState.t) (s : ResponderState) : ResponderState :=
  Build_ResponderState x (handshake s) (keepalive s) (peersharing s) (blockfetch s) (chainsync s)
    (tx_submission s) (leios_notify s) (leios_fetch s) (violation s) (error_count s) (unsent s).
Definition set_handshake (x : handshake.State.t n2n.VersionData) (s : ResponderState) : ResponderState :=
  Build_ResponderState (connection s) x (keepalive s) (peersharing s) (blockfetch s) (chainsync s)
    (tx_submission s) (leios_notify s) (leios_fetch s) (violation s) (error_count s) (unsent s).
Definition set_keepalive (x : keepalive.State.t) (s : ResponderState) : ResponderState :=
  Build_ResponderState (connection s) (handshake s) x (peersharing s) (blockfetch s) (chainsync s)
    (tx_submission s) (leios_notify s) (leios_fetch s) (violation s) (error_count s) (unsent s).
Definition set_peersharing (x : peersharing.State.t) (s : ResponderState) : ResponderState :=
  Build_ResponderState (connection s) (handshake s) (keepalive s) x (blockfetch s) (chainsync s)
    (tx_submission s) (leios_notify s) (leios_fetch s) (violation s) (error_count s) (unsent s).
Definition set_blockfetch (x : blockfetch.State.t) (s : ResponderState) : ResponderState :=
  Build_ResponderState (connection s) (handshake s) (keepalive s) (peersharing s) x (chainsync s)
    (tx_submission s) (leios_notify s) (leios_fetch s) (violation s) (error_count s) (unsent s).
Definition set_chainsync (x : chainsync.State.t chainsync.HeaderContent) (s : ResponderState) : ResponderState :=
  Build_ResponderState (connection s) (handshake s) (keepalive s) (peersharing s) (blockfetch s) x
    (tx_submission s) (leios_notify s) (leios_fetch s) (violation s) (error_count s) (unsent s).
Definition set_tx_submission (x : txsubmission.State.t) (s : ResponderState) : ResponderState :=
  Build_ResponderState (connection s) (handshake s) (keepalive s) (peersharing s) (blockfetch s)
    (chainsync s) x (leios_notify s) (leios_fetch s) (violation s) (error_count s) (unsent s).
Definition set_leios_notify (x : leiosnotify.State.t) (s : ResponderState) : ResponderState :=
  Build_ResponderState (connection s) (handshake s) (keepalive s) (peersharing s) (blockfetch s)
    (chainsync s) (tx_submission s) x (leios_fetch s) (violation s) (error_count s) (unsent s).
Definition set_leios_fetch (x : leiosfetch.State.t) (s : ResponderState) : ResponderState :=
  Build_ResponderState (connection s) (handshake s) (keepalive s) (peersharing s) (blockfetch s)
    (chainsync s) (tx_submission s) (leios_notify s) x (violation s) (error_count s) (unsent s).
Definition set_violation (x : bool) (s : ResponderState) : ResponderState :=
  Build_ResponderState (connection s) (handshake s) (keepalive s) (peersharing s) (blockfetch s)
    (chainsync s) (tx_submission s) (leios_notify s) (leios_fetch s) x (error_count s) (unsent s).
Definition set_error_count (x : Z) (s : ResponderState) : ResponderState :=
  Build_ResponderState (connection s) (handshake s) (keepalive s) (peersharing s) (blockfetch s)
    (chainsync s) (tx_submission s) (leios_notify s) (leios_fetch s) (violation s) x (unsent s).
Definition set_unsent (x : UnsentRequests) (s : ResponderState) : ResponderState :=
  Build_ResponderState (connection s) (handshake s) (keepalive s) (peersharing s) (blockfetch s)
    (chainsync s) (tx_submission s) (leios_notify s) (leios_fetch s) (violation s) (error_count s)
    x.

(** ** Events *)
Inductive ResponderEvent :=
| PeerInitialized (pid : PeerId) (version : AcceptedVersion)
| PeerDisconnected (pid : PeerId)
| IntersectionRequested (pid : PeerId) (points : list Point.t)
| NextHeaderRequested (pid : PeerId)
| BlockRangeRequested (pid : PeerId) (range : BlockRange)
| PeersRequested (pid : PeerId) (amount : Z)
| TxReceived (pid : PeerId) (tx : txsubmission.EraTxBody)
| EbNotificationRequested (pid : PeerId)
| EbRequested (pid : PeerId) (eb : Point.t)
| EbTxsRequested (pid : PeerId) (eb : Point.t) (bitmaps : leiosfetch.Bitmaps).

Abbreviation Output := (BehaviorOutput AnyMessage.t ResponderEvent).
Abbreviation Outbound := (list Output).

(** ** Methods *)
Definition is_initialized (s : ResponderState) : bool :=
  bool_decide (connection s = ConnectionState.Initialized).

Definition version (s : ResponderState) : option n2n.VersionData :=
  match handshake s with
  | handshake.State.Done (handshake.DoneState.Accepted _ data) => Some data
  | _ => None
  end.

Definition state_supports_leios (s : ResponderState) : bool := supports_leios (handshake s).

(** [self.x = new], or a violation when the machine refuses the message. *)
Definition store {S} (set : S -> ResponderState -> ResponderState) (r : result Error S)
    (s : ResponderState) : ResponderState :=
  match r with
  | Ok new => set new s
  | Err _ => set_violation true s
  end.

Definition apply_msg (s : ResponderState) (msg : AnyMessage.t) : ResponderState :=
  match msg with
  | AnyMessage.Handshake msg => store set_handshake (handshake.apply (handshake s) msg) s
  | AnyMessage.KeepAlive msg => store set_keepalive (keepalive.apply (keepalive s) msg) s
  | AnyMessage.PeerSharing msg => store set_peersharing (peersharing.apply (peersharing s) msg) s
  | AnyMessage.BlockFetch msg => store set_blockfetch (blockfetch.apply (blockfetch s) msg) s
  | AnyMessage.ChainSync msg => store set_chainsync (chainsync.apply (chainsync s) msg) s
  | AnyMessage.TxSubmission msg => store set_tx_submission (txsubmission.apply (tx_submission s) msg) s
  | AnyMessage.LeiosNotify msg => store set_leios_notify (leiosnotify.apply (leios_notify s) msg) s
  | AnyMessage.LeiosFetch msg => store set_leios_fetch (leiosfetch.apply (leios_fetch s) msg) s
  end.

Definition reset (s : ResponderState) : ResponderState :=
  let s := set_connection ConnectionState.New s in
  let s := set_handshake handshake.default_state s in
  let s := set_keepalive keepalive.default_state s in
  let s := set_peersharing peersharing.default_state s in
  let s := set_blockfetch blockfetch.default_state s in
  let s := set_chainsync chainsync.default_state s in
  let s := set_tx_submission txsubmission.default_state s in
  let s := set_leios_notify leiosnotify.default_state s in
  let s := set_leios_fetch leiosfetch.default_state s in
  let s := set_violation false s in
  set_unsent no_unsent s.

(** *** The sending discipline: tx-submission is the one protocol in which the
    responder asks. *)
Definition can_apply (s : ResponderState) (msg : AnyMessage.t) : bool :=
  match msg with
  | AnyMessage.TxSubmission m => is_ok (txsubmission.apply (tx_submission s) m)
  | _ => false
  end.

Definition try_send_request (pid : PeerId) (msg : AnyMessage.t) (s : ResponderState) (outbound : Outbound) :
    bool * ResponderState * Outbound :=
  if negb (can_apply s msg) then (false, s, outbound)
  else
    let (inserted, unsent') := unsent_insert (unsent s) msg in
    let s := set_unsent unsent' s in
    if negb inserted then (false, s, outbound)
    else (true, s, push_ready outbound (OutCommand (Send pid msg))).

(** [None] where computing a payload panics. *)
Definition clear_unsent `{Minicbor} (s : ResponderState) (msg : AnyMessage.t) : option ResponderState :=
  contained ← unsent_contains (unsent s) msg;
  if contained && can_apply s msg
  then Some (set_unsent (unsent_remove (unsent s) (any_channel msg)) s)
  else Some s.

(** ** Sub-behaviors *)

(** The methods of the trait [ResponderPeerVisitor]. *)
Inductive Hook :=
| visit_connected
| visit_disconnected
| visit_errored
| visit_inbound_msg
| visit_outbound_msg
| visit_housekeeping.

(** A method returns the sub-behavior, the peer's state and the queue it leaves,
    [None] when it panics. *)
Class ResponderPeerVisitor (V : Type) :=
  visit : Hook -> PeerId -> V -> ResponderState -> Outbound -> option (V * ResponderState * Outbound).

(** The default implementation does nothing. *)
Definition default_visit {V} (v : V) (state : ResponderState) (outbound : Outbound) :
    option (V * ResponderState * Outbound) := Some (v, state, outbound).

(** ** Lemmas *)
Lemma responder_reset_spec s : reset s = set_error_count (error_count s) new.
Proof. by destruct s. Qed.

Lemma responder_apply_frame s m :
  connection (apply_msg s m) = connection s /\ error_count (apply_msg s m) = error_count s /\
  unsent (apply_msg s m) = unsent s.
Proof. destruct m; cbn [apply_msg]; unfold store; by case_match. Qed.
