(* ===== verification/Responders.v ===== *)
(** * The sub-behaviors of the responder

    [connection.rs], [handshake.rs], [keepalive.rs], [chainsync.rs],
    [blockfetch.rs], [peersharing.rs], [txsubmission.rs], [leiosnotify.rs] and
    [leiosfetch.rs] of [pallas-network2/src/behavior/responder].  The metrics are
    not modelled. *)
From S2P Require Import Prelude Cbor Protocol Network Chainsync Blockfetch Keepalive.
From S2P Require Import Txsubmission Peersharing Handshake HandshakeVersions.
From S2P Require Import LeiosProtocols AnyMessage Unsent Discovery ResponderState.

(** ** Connections: bans and the limit per host *)
Record ConnectionResponderConfig := {
  max_error_count : Z;
  max_connections_per_ip : Z
}.

Definition default_connection_config : ConnectionResponderConfig :=
  {| max_error_count := 1; max_connections_per_ip := 10 |}.

Record ConnectionResponder := {
  connection_config : ConnectionResponderConfig;
  banned_peers : gset PeerId;
  connections_per_ip : gmap string Z;
  accepted_peers : gset PeerId;
  active_peers : Z
}.

Definition connection_new (config : ConnectionResponderConfig) : ConnectionResponder := {|
  connection_config := config;
  banned_peers := ∅;
  connections_per_ip := ∅;
  accepted_peers := ∅;
  active_peers := 0
|}.

Definition set_banned (x : gset PeerId) (v : ConnectionResponder) : ConnectionResponder :=
  {| connection_config := connection_config v; banned_peers := x;
     connections_per_ip := connections_per_ip v; accepted_peers := accepted_peers v;
     active_peers := active_peers v |}.
Definition set_per_ip (x : gmap string Z) (v : ConnectionResponder) : ConnectionResponder :=
  {| connection_config := connection_config v; banned_peers := banned_peers v;
     connections_per_ip := x; accepted_peers := accepted_peers v;
     active_peers := active_peers v |}.
Definition set_accepted (x : gset PeerId) (n : Z) (v : ConnectionResponder) : ConnectionResponder :=
  {| connection_config := connection_config v; banned_peers := banned_peers v;
     connections_per_ip := connections_per_ip v; accepted_peers := x; active_peers := n |}.

Definition needs_disconnect (v : ConnectionResponder) (pid : PeerId) (state : ResponderState) : bool :=
  if bool_decide (pid ∈ banned_peers v) then true
  else bool_decide (connection state = ConnectionState.Errored).

Definition needs_ban (v : ConnectionResponder) (pid : PeerId) (state : ResponderState) : bool :=
  if bool_decide (pid ∈ banned_peers v) then false
  else violation state || (max_error_count (connection_config v) <? error_count state).

Definition push_disconnect (pid : PeerId) (outbound : Outbound) : Outbound :=
  push_ready outbound (OutCommand (Disconnect pid)).

(** [None] where a counter of [usize] overflows. *)
Definition connection_connected (pid : PeerId) (v : ConnectionResponder) (outbound : Outbound) :
    option (ConnectionResponder * Outbound) :=
  if bool_decide (pid ∈ banned_peers v) then Some (v, push_disconnect pid outbound)
  else
    count ← checked_add 64 (default 0 (connections_per_ip v !! host pid)) 1;
    let v := set_per_ip (<[host pid := count]> (connections_per_ip v)) v in
    if max_connections_per_ip (connection_config v) <? count then Some (v, push_disconnect pid outbound)
    else if bool_decide (pid ∈ accepted_peers v) then Some (v, outbound)
    else
      active ← checked_add 64 (active_peers v) 1;
      Some (set_accepted ({[pid]} ∪ accepted_peers v) active v, outbound).

(** [saturating_sub(1)] *)
Definition saturating_pred (n : Z) : Z := if n <=? 0 then 0 else n - 1.

Definition connection_disconnected (pid : PeerId) (v : ConnectionResponder) : ConnectionResponder :=
  let v :=
    match connections_per_ip v !! host pid with
    | Some count =>
        let count := saturating_pred count in
        let counts := <[host pid := count]> (connections_per_ip v) in
        set_per_ip (if count =? 0 then delete (host pid) counts else counts) v
    | None => v
    end in
  if bool_decide (pid ∈ accepted_peers v) then
    set_accepted (accepted_peers v ∖ {[pid]}) (saturating_pred (active_peers v)) v
  else v.

#[export] Instance connection_visitor : ResponderPeerVisitor ConnectionResponder :=
  fun h pid v state outbound =>
    match h with
    | visit_connected =>
        '(v, outbound) ← connection_connected pid v outbound;
        Some (v, state, outbound)
    | visit_disconnected => Some (connection_disconnected pid v, state, outbound)
    | visit_errored =>
        Some (v, state, if needs_disconnect v pid state then push_disconnect pid outbound else outbound)
    | visit_housekeeping =>
        if needs_ban v pid state then
          Some (set_banned ({[pid]} ∪ banned_peers v) v, state, push_disconnect pid outbound)
        else
          Some (v, state, if needs_disconnect v pid state then push_disconnect pid outbound else outbound)
    | _ => default_visit v state outbound
    end.

(** ** Handshakes: the highest common version *)
Record HandshakeResponder := { supported_version : handshake.VersionTable n2n.VersionData }.

Definition default_handshake : HandshakeResponder :=
  {| supported_version := {| handshake.values := collect_map [
       (13, {| n2n.network_magic := MAINNET_MAGIC; n2n.initiator_only_diffusion_mode := false;
               n2n.peer_sharing := Some 1; n2n.query := Some false |})] |} |}.

(** [max_by_key(|(num, _)| *num)]: the last of the greatest. *)
Definition max_by_key {A} (l : list (Z * A)) : option (Z * A) :=
  foldl (fun best x => match best with
                       | Some b => if b.1 <=? x.1 then Some x else Some b
                       | None => Some x
                       end) None l.

Section negotiation.
Context `{VersionOrder}.

(** Iteration over a version table. *)
Definition entries {A} (m : gmap Z A) : list (Z * A) :=
  omap (fun num => pair num <$> m !! num) (versions_order (dom m)).

Definition negotiate {A} (ours proposed : gmap Z A) : option (Z * A * A) :=
  '(num, peer_data) ← max_by_key (filter (fun e => is_Some (ours !! e.1)) (entries proposed));
  our_data ← ours !! num;
  Some (num, peer_data, our_data).

Definition try_accept_handshake (v : HandshakeResponder) (pid : PeerId) (state : ResponderState)
    (outbound : Outbound) : ResponderState * Outbound :=
  match handshake state with
  | handshake.State.Confirm proposed =>
      let ours := handshake.values (supported_version v) in
      match negotiate ours (handshake.values proposed) with
      | Some (version, peer_data, our_data) =>
          if negb (n2n.network_magic peer_data =? n2n.network_magic our_data) then
            let msg := handshake.Message.Refuse (handshake.RefuseReason.Refused version
              (text_bytes "network magic mismatch")) in
            (state, push_ready outbound (OutCommand (Send pid (AnyMessage.Handshake msg))))
          else
            let msg := handshake.Message.Accept version our_data in
            let outbound := push_ready outbound (OutCommand (Send pid (AnyMessage.Handshake msg))) in
            let state := set_connection ConnectionState.Initialized state in
            (state, push_ready outbound (OutEvent (PeerInitialized pid (version, our_data))))
      | None =>
          let our_versions := versions_order (dom ours) in
          let msg := handshake.Message.Refuse (handshake.RefuseReason.VersionMismatch our_versions) in
          (state, push_ready outbound (OutCommand (Send pid (AnyMessage.Handshake msg))))
      end
  | _ => (state, outbound)
  end.

#[export] Instance handshake_visitor : ResponderPeerVisitor HandshakeResponder :=
  fun h pid v state outbound =>
    match h with
    | visit_inbound_msg =>
        let (state, outbound) := try_accept_handshake v pid state outbound in
        Some (v, state, outbound)
    | _ => default_visit v state outbound
    end.
End negotiation.

(** ** Keep-alives: every request is answered *)
Inductive KeepaliveResponder := keepalive_responder.

Definition try_respond (pid : PeerId) (state : ResponderState) (outbound : Outbound) : Outbound :=
  if negb (is_initialized state) then outbound
  else
    match keepalive state with
    | keepalive.State.Server cookie =>
        let msg := keepalive.Message.ResponseKeepAlive cookie in
        push_ready outbound (OutCommand (Send pid (AnyMessage.KeepAlive msg)))
    | _ => outbound
    end.

#[export] Instance keepalive_visitor : ResponderPeerVisitor KeepaliveResponder :=
  fun h pid v state outbound =>
    match h with
    | visit_inbound_msg => Some (v, state, try_respond pid state outbound)
    | _ => default_visit v state outbound
    end.

(** ** Requests handed to the application *)
Inductive ChainSyncResponder := chainsync_responder.
Inductive BlockFetchResponder := blockfetch_responder.
Inductive PeerSharingResponder := peersharing_responder.
Inductive LeiosNotifyResponder := leiosnotify_responder.
Inductive LeiosFetchResponder := leiosfetch_responder.

Definition chainsync_check (pid : PeerId) (state : ResponderState) (outbound : Outbound) : Outbound :=
  if negb (is_initialized state) then outbound
  else
    match chainsync state with
    | chainsync.State.Intersect points =>
        push_ready outbound (OutEvent (IntersectionRequested pid points))
    | chainsync.State.CanAwait | chainsync.State.MustReply =>
        push_ready outbound (OutEvent (NextHeaderRequested pid))
    | _ => outbound
    end.

Definition blockfetch_check (pid : PeerId) (state : ResponderState) (outbound : Outbound) : Outbound :=
  if negb (is_initialized state) then outbound
  else
    match blockfetch state with
    | blockfetch.State.Busy range => push_ready outbound (OutEvent (BlockRangeRequested pid range))
    | _ => outbound
    end.

Definition peersharing_check (pid : PeerId) (state : ResponderState) (outbound : Outbound) : Outbound :=
  if negb (is_initialized state) then outbound
  else
    match peersharing state with
    | peersharing.State.Busy amount => push_ready outbound (OutEvent (PeersRequested pid amount))
    | _ => outbound
    end.

Definition leiosnotify_check (pid : PeerId) (state : ResponderState) (outbound : Outbound) : Outbound :=
  if negb (is_initialized state) then outbound
  else
    match leios_notify state with
    | leiosnotify.State.Busy => push_ready outbound (OutEvent (EbNotificationRequested pid))
    | leiosnotify.State.Quit =>
        push_ready outbound (OutCommand (Send pid (AnyMessage.LeiosNotify leiosnotify.Message.Done)))
    | _ => outbound
    end.

Definition leiosfetch_check (pid : PeerId) (state : ResponderState) (outbound : Outbound) : Outbound :=
  if negb (is_initialized state) then outbound
  else
    match leios_fetch state with
    | leiosfetch.State.AwaitingBlock point => push_ready outbound (OutEvent (EbRequested pid point))
    | leiosfetch.State.AwaitingBlockTxs point bitmaps =>
        push_ready outbound (OutEvent (EbTxsRequested pid point bitmaps))
    | _ => outbound
    end.

#[export] Instance chainsync_visitor : ResponderPeerVisitor ChainSyncResponder :=
  fun h pid v state outbound =>
    match h with
    | visit_inbound_msg => Some (v, state, chainsync_check pid state outbound)
    | _ => default_visit v state outbound
    end.

#[export] Instance blockfetch_visitor : ResponderPeerVisitor BlockFetchResponder :=
  fun h pid v state outbound =>
    match h with
    | visit_inbound_msg => Some (v, state, blockfetch_check pid state outbound)
    | _ => default_visit v state outbound
    end.

#[export] Instance peersharing_visitor : ResponderPeerVisitor PeerSharingResponder :=
  fun h pid v state outbound =>
    match h with
    | visit_inbound_msg => Some (v, state, peersharing_check pid state outbound)
    | _ => default_visit v state outbound
    end.

#[export] Instance leiosnotify_visitor : ResponderPeerVisitor LeiosNotifyResponder :=
  fun h pid v state outbound =>
    match h with
    | visit_inbound_msg => Some (v, state, leiosnotify_check pid state outbound)
    | _ => default_visit v state outbound
    end.

#[export] Instance leiosfetch_visitor : ResponderPeerVisitor LeiosFetchResponder :=
  fun h pid v state outbound =>
    match h with
    | visit_inbound_msg => Some (v, state, leiosfetch_check pid state outbound)
    | _ => default_visit v state outbound
    end.

(** ** Transactions *)
Record TxSubmissionResponder := { max_tx_request : Z }.

Definition default_txsubmission : TxSubmissionResponder := {| max_tx_request := 10 |}.

Definition request_tx_ids_msg (v : TxSubmissionResponder) : AnyMessage.t :=
  AnyMessage.TxSubmission (txsubmission.Message.RequestTxIds true 0 (max_tx_request v)).

Definition try_request_tx_ids (v : TxSubmissionResponder) (pid : PeerId) (state : ResponderState)
    (outbound : Outbound) : ResponderState * Outbound :=
  if negb (is_initialized state) then (state, outbound)
  else
    match tx_submission state with
    | txsubmission.State.Idle =>
        let '(_, state, outbound) := try_send_request pid (request_tx_ids_msg v) state outbound in
        (state, outbound)
    | _ => (state, outbound)
    end.

Definition try_extract_txs (pid : PeerId) (state : ResponderState) (outbound : Outbound) : Outbound :=
  match tx_submission state with
  | txsubmission.State.Txs txs => foldl (fun out tx => push_ready out (OutEvent (TxReceived pid tx))) outbound txs
  | _ => outbound
  end.

#[export] Instance txsubmission_visitor : ResponderPeerVisitor TxSubmissionResponder :=
  fun h pid v state outbound =>
    match h with
    | visit_housekeeping =>
        let (state, outbound) := try_request_tx_ids v pid state outbound in
        Some (v, state, outbound)
    | visit_inbound_msg => Some (v, state, try_extract_txs pid state outbound)
    | _ => default_visit v state outbound
    end.
