(* ===== verification/Responder.v ===== *)
(** * The responder behavior

    [ResponderBehavior] of [pallas-network2/src/behavior/responder/mod.rs]: the
    sub-behaviors, the peers and the outbound queue, and what the behavior does
    with every interface event and every command. *)
From S2P Require Import Prelude Cbor Protocol Network Chainsync Blockfetch Keepalive.
From S2P Require Import Txsubmission Peersharing Handshake HandshakeVersions.
From S2P Require Import LeiosProtocols AnyMessage Unsent Discovery ResponderState.
From S2P Require Import Responders.

(** ** The sub-behaviors, visited in the order of [all_visitors!] *)
Record SubResponders := {
  sub_connection : ConnectionResponder;
  sub_handshake : HandshakeResponder;
  sub_keepalive : KeepaliveResponder;
  sub_chainsync : ChainSyncResponder;
  sub_blockfetch : BlockFetchResponder;
  sub_peersharing : PeerSharingResponder;
  sub_txsubmission : TxSubmissionResponder;
  sub_leiosnotify : LeiosNotifyResponder;
  sub_leiosfetch : LeiosFetchResponder
}.

Section visitors.
Context `{VersionOrder}.

#[export] Instance all_visitors : ResponderPeerVisitor SubResponders :=
  fun method pid self state outbound =>
    '(connection, state, outbound) ← visit method pid (sub_connection self) state outbound;
    '(handshake, state, outbound) ← visit method pid (sub_handshake self) state outbound;
    '(keepalive, state, outbound) ← visit method pid (sub_keepalive self) state outbound;
    '(chainsync, state, outbound) ← visit method pid (sub_chainsync self) state outbound;
    '(blockfetch, state, outbound) ← visit method pid (sub_blockfetch self) state outbound;
    '(peersharing, state, outbound) ← visit method pid (sub_peersharing self) state outbound;
    '(txsubmission, state, outbound) ← visit method pid (sub_txsubmission self) state outbound;
    '(leiosnotify, state, outbound) ← visit method pid (sub_leiosnotify self) state outbound;
    '(leiosfetch, state, outbound) ← visit method pid (sub_leiosfetch self) state outbound;
    Some ({| sub_connection := connection; sub_handshake := handshake; sub_keepalive := keepalive;
             sub_chainsync := chainsync; sub_blockfetch := blockfetch;
             sub_peersharing := peersharing; sub_txsubmission := txsubmission;
             sub_leiosnotify := leiosnotify; sub_leiosfetch := leiosfetch |}, state, outbound).
End visitors.

Definition set_connection_sub (x : ConnectionResponder) (s : SubResponders) : SubResponders :=
  Build_SubResponders x (sub_handshake s) (sub_keepalive s) (sub_chainsync s) (sub_blockfetch s)
    (sub_peersharing s) (sub_txsubmission s) (sub_leiosnotify s) (sub_leiosfetch s).

(** ** The behavior *)
Record ResponderBehavior := {
  subs : SubResponders;
  peers : gmap PeerId ResponderState;
  outbound : Outbound
}.

(** [ResponderBehavior::default()], under given configurations. *)
Definition responder (config : ConnectionResponderConfig) (versions : HandshakeResponder)
    (txs : TxSubmissionResponder) : ResponderBehavior := {|
  subs := {|
    sub_connection := connection_new config;
    sub_handshake := versions;
    sub_keepalive := keepalive_responder;
    sub_chainsync := chainsync_responder;
    sub_blockfetch := blockfetch_responder;
    sub_peersharing := peersharing_responder;
    sub_txsubmission := txs;
    sub_leiosnotify := leiosnotify_responder;
    sub_leiosfetch := leiosfetch_responder |};
  peers := ∅;
  outbound := []
|}.

(** [self.peers.entry(pid).and_modify(..)]: runs the closure on the state of a known
    peer, and does nothing for an unknown one. *)
Definition and_modify (pid : PeerId)
    (f : SubResponders -> ResponderState -> Outbound -> option (SubResponders * ResponderState * Outbound))
    (b : ResponderBehavior) : option ResponderBehavior :=
  match peers b !! pid with
  | None => Some b
  | Some state =>
      '(s, state, out) ← f (subs b) state (outbound b);
      Some {| subs := s; peers := <[pid := state]> (peers b); outbound := out |}
  end.

Definition push (o : Output) (b : ResponderBehavior) : ResponderBehavior :=
  {| subs := subs b; peers := peers b; outbound := push_ready (outbound b) o |}.

Section behavior.
Context `{VersionOrder}.

(** The visitor that owns the protocol of the message. *)
Definition visit_owner (msg : AnyMessage.t) (pid : PeerId) (self : SubResponders) (state : ResponderState)
    (outbound : Outbound) : option (SubResponders * ResponderState * Outbound) :=
  '(connection, state, outbound) ← visit visit_inbound_msg pid (sub_connection self) state outbound;
  let self := set_connection_sub connection self in
  match msg with
  | AnyMessage.Handshake _ =>
      '(v, state, outbound) ← visit visit_inbound_msg pid (sub_handshake self) state outbound;
      Some (Build_SubResponders (sub_connection self) v (sub_keepalive self) (sub_chainsync self)
              (sub_blockfetch self) (sub_peersharing self) (sub_txsubmission self)
              (sub_leiosnotify self) (sub_leiosfetch self), state, outbound)
  | AnyMessage.KeepAlive _ =>
      '(v, state, outbound) ← visit visit_inbound_msg pid (sub_keepalive self) state outbound;
      Some (Build_SubResponders (sub_connection self) (sub_handshake self) v (sub_chainsync self)
              (sub_blockfetch self) (sub_peersharing self) (sub_txsubmission self)
              (sub_leiosnotify self) (sub_leiosfetch self), state, outbound)
  | AnyMessage.ChainSync _ =>
      '(v, state, outbound) ← visit visit_inbound_msg pid (sub_chainsync self) state outbound;
      Some (Build_SubResponders (sub_connection self) (sub_handshake self) (sub_keepalive self) v
              (sub_blockfetch self) (sub_peersharing self) (sub_txsubmission self)
              (sub_leiosnotify self) (sub_leiosfetch self), state, outbound)
  | AnyMessage.BlockFetch _ =>
      '(v, state, outbound) ← visit visit_inbound_msg pid (sub_blockfetch self) state outbound;
      Some (Build_SubResponders (sub_connection self) (sub_handshake self) (sub_keepalive self)
              (sub_chainsync self) v (sub_peersharing self) (sub_txsubmission self)
              (sub_leiosnotify self) (sub_leiosfetch self), state, outbound)
  | AnyMessage.PeerSharing _ =>
      '(v, state, outbound) ← visit visit_inbound_msg pid (sub_peersharing self) state outbound;
      Some (Build_SubResponders (sub_connection self) (sub_handshake self) (sub_keepalive self)
              (sub_chainsync self) (sub_blockfetch self) v (sub_txsubmission self)
              (sub_leiosnotify self) (sub_leiosfetch self), state, outbound)
  | AnyMessage.TxSubmission _ =>
      '(v, state, outbound) ← visit visit_inbound_msg pid (sub_txsubmission self) state outbound;
      Some (Build_SubResponders (sub_connection self) (sub_handshake self) (sub_keepalive self)
              (sub_chainsync self) (sub_blockfetch self) (sub_peersharing self) v
              (sub_leiosnotify self) (sub_leiosfetch self), state, outbound)
  | AnyMessage.LeiosNotify _ =>
      '(v, state, outbound) ← visit visit_inbound_msg pid (sub_leiosnotify self) state outbound;
      Some (Build_SubResponders (sub_connection self) (sub_handshake self) (sub_keepalive self)
              (sub_chainsync self) (sub_blockfetch self) (sub_peersharing self)
              (sub_txsubmission self) v (sub_leiosfetch self), state, outbound)
  | AnyMessage.LeiosFetch _ =>
      '(v, state, outbound) ← visit visit_inbound_msg pid (sub_leiosfetch self) state outbound;
      Some (Build_SubResponders (sub_connection self) (sub_handshake self) (sub_keepalive self)
              (sub_chainsync self) (sub_blockfetch self) (sub_peersharing self)
              (sub_txsubmission self) (sub_leiosnotify self) v, state, outbound)
  end.

Definition on_inbound_msg (pid : PeerId) (msg : AnyMessage.t) : ResponderBehavior -> option ResponderBehavior :=
  and_modify pid (fun s state out =>
    let state := apply_msg state msg in
    if violation state then Some (s, state, out)
    else visit_owner msg pid s state out).

Definition on_outbound_msg `{Minicbor} (pid : PeerId) (msg : AnyMessage.t) :
    ResponderBehavior -> option ResponderBehavior :=
  and_modify pid (fun s state out =>
    state ← clear_unsent state msg;
    let state := apply_msg state msg in
    if violation state then Some (s, state, out)
    else visit visit_outbound_msg pid s state out).

Definition on_connected (pid : PeerId) (b : ResponderBehavior) : option ResponderBehavior :=
  let state := set_connection ConnectionState.Connected new in
  '(s, state, out) ← visit visit_connected pid (subs b) state (outbound b);
  Some {| subs := s; peers := <[pid := state]> (peers b); outbound := out |}.

Definition on_disconnected (pid : PeerId) (b : ResponderBehavior) : option ResponderBehavior :=
  b ← and_modify pid (fun s state out =>
    let state := set_connection ConnectionState.Disconnected state in
    let state := reset state in
    visit visit_disconnected pid s state out) b;
  let b := {| subs := subs b; peers := delete pid (peers b); outbound := outbound b |} in
  Some (push (OutEvent (PeerDisconnected pid)) b).

(** [error_count += 1] panics when it overflows. *)
Definition on_errored (pid : PeerId) : ResponderBehavior -> option ResponderBehavior :=
  and_modify pid (fun s state out =>
    let state := set_connection ConnectionState.Errored state in
    count ← checked_add 32 (error_count state) 1;
    let state := set_error_count count state in
    visit visit_errored pid s state out).

Fixpoint housekeep_peers (order : list PeerId) (b : ResponderBehavior) : option ResponderBehavior :=
  match order with
  | [] => Some b
  | pid :: order =>
      b ← and_modify pid (fun s state out => visit visit_housekeeping pid s state out) b;
      housekeep_peers order b
  end.

Definition housekeeping `{HashOrder} (b : ResponderBehavior) : option ResponderBehavior :=
  housekeep_peers (peers_order (dom (peers b))) b.

(** ** Interface events *)
Fixpoint on_inbound_msgs (pid : PeerId) (msgs : list AnyMessage.t) (b : ResponderBehavior) :
    option ResponderBehavior :=
  match msgs with
  | [] => Some b
  | msg :: msgs => b ← on_inbound_msg pid msg b; on_inbound_msgs pid msgs b
  end.

Definition handle_io `{Minicbor} `{HashOrder} (event : InterfaceEvent.t AnyMessage.t) (b : ResponderBehavior) :
    option ResponderBehavior :=
  match event with
  | InterfaceEvent.Connected pid => on_connected pid b
  | InterfaceEvent.Disconnected pid => on_disconnected pid b
  | InterfaceEvent.Recv pid msgs => on_inbound_msgs pid msgs b
  | InterfaceEvent.Sent pid msg => on_outbound_msg pid msg b
  | InterfaceEvent.Error pid _ => on_errored pid b
  | InterfaceEvent.Idle => housekeeping b
  end.
End behavior.

(** ** Commands *)
Definition send_msg (pid : PeerId) (msg : AnyMessage.t) (b : ResponderBehavior) : ResponderBehavior :=
  push (OutCommand (Send pid msg)) b.

Definition provide_intersection (pid : PeerId) (point : Point.t) (tip : chainsync.Tip) :
    ResponderBehavior -> ResponderBehavior :=
  send_msg pid (AnyMessage.ChainSync (chainsync.Message.IntersectFound point tip)).

Definition provide_header (pid : PeerId) (header : chainsync.HeaderContent) (tip : chainsync.Tip) :
    ResponderBehavior -> ResponderBehavior :=
  send_msg pid (AnyMessage.ChainSync (chainsync.Message.RollForward header tip)).

Definition provide_rollback (pid : PeerId) (point : Point.t) (tip : chainsync.Tip) :
    ResponderBehavior -> ResponderBehavior :=
  send_msg pid (AnyMessage.ChainSync (chainsync.Message.RollBackward point tip)).

Definition provide_blocks (pid : PeerId) (blocks : list bytes) (b : ResponderBehavior) : ResponderBehavior :=
  let b := send_msg pid (AnyMessage.BlockFetch blockfetch.Message.StartBatch) b in
  let b := foldl (fun b block => send_msg pid (AnyMessage.BlockFetch (blockfetch.Message.Block block)) b) b blocks in
  send_msg pid (AnyMessage.BlockFetch blockfetch.Message.BatchDone) b.

Definition provide_peers (pid : PeerId) (ps : list peersharing.PeerAddress.t) :
    ResponderBehavior -> ResponderBehavior :=
  send_msg pid (AnyMessage.PeerSharing (peersharing.Message.SharePeers ps)).

Definition ban_peer (pid : PeerId) (b : ResponderBehavior) : ResponderBehavior :=
  let connection := sub_connection (subs b) in
  push (OutCommand (Disconnect pid))
    {| subs := set_connection_sub (set_banned ({[pid]} ∪ banned_peers connection) connection) (subs b);
       peers := peers b; outbound := outbound b |}.

Definition disconnect_peer (pid : PeerId) (b : ResponderBehavior) : ResponderBehavior :=
  push (OutCommand (Disconnect pid)) b.

Module ResponderCommand.
Inductive t :=
| Housekeeping
| ProvideIntersection (pid : PeerId) (point : Point.t) (tip : chainsync.Tip)
| ProvideHeader (pid : PeerId) (header : chainsync.HeaderContent) (tip : chainsync.Tip)
| ProvideRollback (pid : PeerId) (point : Point.t) (tip : chainsync.Tip)
| ProvideBlocks (pid : PeerId) (blocks : list bytes)
| ProvidePeers (pid : PeerId) (ps : list peersharing.PeerAddress.t)
| ProvideEbAnnouncement (pid : PeerId) (header : AnyCbor)
| ProvideEbOffer (pid : PeerId) (point : Point.t) (size : Z)
| ProvideEbTxsOffer (pid : PeerId) (point : Point.t)
| ProvideVotes (pid : PeerId) (votes : list AnyCbor)
| ProvideEb (pid : PeerId) (block : AnyCbor)
| ProvideEbTxs (pid : PeerId) (txs : list AnyCbor)
| BanPeer (pid : PeerId)
| DisconnectPeer (pid : PeerId).
End ResponderCommand.

Definition execute `{VersionOrder} `{HashOrder} (cmd : ResponderCommand.t) (b : ResponderBehavior) :
    option ResponderBehavior :=
  match cmd with
  | ResponderCommand.Housekeeping => housekeeping b
  | ResponderCommand.ProvideIntersection pid point tip => Some (provide_intersection pid point tip b)
  | ResponderCommand.ProvideHeader pid header tip => Some (provide_header pid header tip b)
  | ResponderCommand.ProvideRollback pid point tip => Some (provide_rollback pid point tip b)
  | ResponderCommand.ProvideBlocks pid blocks => Some (provide_blocks pid blocks b)
  | ResponderCommand.ProvidePeers pid ps => Some (provide_peers pid ps b)
  | ResponderCommand.ProvideEbAnnouncement pid header =>
      Some (send_msg pid (AnyMessage.LeiosNotify (leiosnotify.Message.BlockAnnouncement header)) b)
  | ResponderCommand.ProvideEbOffer pid point size =>
      Some (send_msg pid (AnyMessage.LeiosNotify (leiosnotify.Message.BlockOffer point size)) b)
  | ResponderCommand.ProvideEbTxsOffer pid point =>
      Some (send_msg pid (AnyMessage.LeiosNotify (leiosnotify.Message.BlockTxsOffer point)) b)
  | ResponderCommand.ProvideVotes pid votes =>
      Some (send_msg pid (AnyMessage.LeiosNotify (leiosnotify.Message.Votes votes)) b)
  | ResponderCommand.ProvideEb pid block =>
      Some (send_msg pid (AnyMessage.LeiosFetch (leiosfetch.Message.Block block)) b)
  | ResponderCommand.ProvideEbTxs pid txs =>
      Some (send_msg pid (AnyMessage.LeiosFetch (leiosfetch.Message.BlockTxs txs)) b)
  | ResponderCommand.BanPeer pid => Some (ban_peer pid b)
  | ResponderCommand.DisconnectPeer pid => Some (disconnect_peer pid b)
  end.
