(* ===== verification/ResponderInv.v ===== *)
(** * What the visits of the responder do

    Each event reaches few of the sub-behaviors: the equations of the visits, the
    runs of the responder, and the invariant of its peers. *)
From S2P Require Import Prelude Cbor Protocol Network Chainsync Blockfetch Keepalive.
From S2P Require Import Txsubmission Peersharing Handshake HandshakeVersions.
From S2P Require Import LeiosProtocols AnyMessage Unsent Discovery ResponderState.
From S2P Require Import Responders Responder.

(** ** Visits *)
Section visits.
Context `{VersionOrder}.

Lemma visit_connected_eq pid (v : SubResponders) s out :
  visit visit_connected pid v s out =
    '(c, out) ← connection_connected pid (sub_connection v) out; Some (set_connection_sub c v, s, out).
Proof.
  unfold visit at 1, all_visitors. destruct v.
  cbv [visit connection_visitor]. simpl. by destruct (connection_connected _ _ _) as [[??]|].
Qed.

Lemma visit_disconnected_eq pid (v : SubResponders) s out :
  visit visit_disconnected pid v s out =
    Some (set_connection_sub (connection_disconnected pid (sub_connection v)) v, s, out).
Proof. by destruct v. Qed.

Lemma visit_errored_eq pid (v : SubResponders) s out :
  visit visit_errored pid v s out =
    Some (v, s, if needs_disconnect (sub_connection v) pid s then push_disconnect pid out else out).
Proof. by destruct v. Qed.

Lemma visit_outbound_eq pid (v : SubResponders) s out : visit visit_outbound_msg pid v s out = Some (v, s, out).
Proof. by destruct v. Qed.

(** What housekeeping does to the connection sub-behavior and to the queue. *)
Definition keep_house (c : ConnectionResponder) (pid : PeerId) (s : ResponderState) (out : Outbound) :
    ConnectionResponder * Outbound :=
  if needs_ban c pid s then (set_banned ({[pid]} ∪ banned_peers c) c, push_disconnect pid out)
  else (c, if needs_disconnect c pid s then push_disconnect pid out else out).

Lemma visit_housekeeping_eq pid (v : SubResponders) s out :
  visit visit_housekeeping pid v s out =
    let (c, out) := keep_house (sub_connection v) pid s out in
    let (s, out) := try_request_tx_ids (sub_txsubmission v) pid s out in
    Some (set_connection_sub c v, s, out).
Proof.
  unfold visit at 1, all_visitors, keep_house. destruct v.
  cbv [visit connection_visitor handshake_visitor keepalive_visitor chainsync_visitor
    blockfetch_visitor peersharing_visitor txsubmission_visitor leiosnotify_visitor
    leiosfetch_visitor default_visit mbind option_bind]; simpl.
  destruct (needs_ban _ _ _); simpl; by destruct (try_request_tx_ids _ _ _ _).
Qed.

(** What one inbound message makes the responder push, given the state it leads
    to. *)
Definition owner_outputs (v : SubResponders) (msg : AnyMessage.t) (pid : PeerId) (s : ResponderState)
    (out : Outbound) : ResponderState * Outbound :=
  match msg with
  | AnyMessage.Handshake _ => try_accept_handshake (sub_handshake v) pid s out
  | AnyMessage.KeepAlive _ => (s, try_respond pid s out)
  | AnyMessage.ChainSync _ => (s, chainsync_check pid s out)
  | AnyMessage.BlockFetch _ => (s, blockfetch_check pid s out)
  | AnyMessage.PeerSharing _ => (s, peersharing_check pid s out)
  | AnyMessage.TxSubmission _ => (s, try_extract_txs pid s out)
  | AnyMessage.LeiosNotify _ => (s, leiosnotify_check pid s out)
  | AnyMessage.LeiosFetch _ => (s, leiosfetch_check pid s out)
  end.

Lemma visit_owner_eq msg pid (v : SubResponders) s out :
  visit_owner msg pid v s out = let (s, out) := owner_outputs v msg pid s out in Some (v, s, out).
Proof.
  destruct v, msg; cbv [visit_owner visit connection_visitor handshake_visitor keepalive_visitor
    chainsync_visitor blockfetch_visitor peersharing_visitor txsubmission_visitor
    leiosnotify_visitor leiosfetch_visitor default_visit mbind option_bind owner_outputs
    set_connection_sub]; simpl; try done.
  by destruct (try_accept_handshake _ _ _ _).
Qed.

Lemma try_request_tx_ids_frame v pid s out s' out' :
  try_request_tx_ids v pid s out = (s', out') ->
  (s' = s /\ out' = out) \/
  (is_initialized s = true /\ tx_submission s = txsubmission.State.Idle /\
   by_channel (unsent s) !! txsubmission.CHANNEL_ID = None /\
   s' = set_unsent {| by_channel := <[txsubmission.CHANNEL_ID := request_tx_ids_msg v]>
                                      (by_channel (unsent s)) |} s /\
   out' = out ++ [OutCommand (Send pid (request_tx_ids_msg v))]).
Proof.
  unfold try_request_tx_ids. destruct (is_initialized s) eqn:Hi; simpl; [|by intros [= <- <-]; left].
  destruct (tx_submission s) eqn:Ht; try (by intros [= <- <-]; left).
  unfold try_send_request. simpl. rewrite Ht. simpl.
  destruct (unsent_insert (unsent s) (request_tx_ids_msg v)) as [i u] eqn:E.
  apply unsent_insert_spec in E as [(-> & _ & Hn & Hu)|[-> ->]]; simpl; intros [= <- <-].
  - right. split_and!; try done. destruct u; simpl in *. by subst.
  - left. by destruct s.
Qed.
End visits.

(** ** Runs *)
Inductive label :=
| Io (e : InterfaceEvent.t AnyMessage.t)
| Command (c : ResponderCommand.t)
| Polled (o : Output).

Inductive step `{Minicbor} : ResponderBehavior -> label -> ResponderBehavior -> Prop :=
| step_io (order : HashOrder) (versions : VersionOrder) e b b' :
    handle_io e b = Some b' -> step b (Io e) b'
| step_execute (order : HashOrder) (versions : VersionOrder) c b b' :
    execute c b = Some b' -> step b (Command c) b'
| step_output l1 o l2 b :
    outbound b = l1 ++ o :: l2 ->
    step b (Polled o) {| subs := subs b; peers := peers b; outbound := l1 ++ l2 |}.

(** A run from the initial state, with the steps the predicate allows. *)
Inductive runs `{Minicbor} (ok : ResponderBehavior -> label -> Prop) (start : ResponderBehavior) :
    ResponderBehavior -> Prop :=
| runs_start : runs ok start start
| runs_step b l b' : runs ok start b -> ok b l -> step b l b' -> runs ok start b'.

(** ** What most steps leave alone: the peers that are tracked and the accounts of
    their connections. *)
Record same_accounts (b b' : ResponderBehavior) : Prop := {
  same_dom : dom (peers b') = dom (peers b);
  same_config : connection_config (sub_connection (subs b')) = connection_config (sub_connection (subs b));
  same_per_ip : connections_per_ip (sub_connection (subs b')) = connections_per_ip (sub_connection (subs b));
  same_accepted : accepted_peers (sub_connection (subs b')) = accepted_peers (sub_connection (subs b));
  same_active : active_peers (sub_connection (subs b')) = active_peers (sub_connection (subs b));
  same_bans : banned_peers (sub_connection (subs b)) ⊆ banned_peers (sub_connection (subs b'));
  same_txs : sub_txsubmission (subs b') = sub_txsubmission (subs b)
}.

Lemma same_accounts_refl b : same_accounts b b.
Proof. by split. Qed.

Lemma same_accounts_trans b1 b2 b3 : same_accounts b1 b2 -> same_accounts b2 b3 -> same_accounts b1 b3.
Proof. intros [] []. split; [congruence..|set_solver|congruence]. Qed.

Lemma and_modify_accounts pid f b b' :
  (forall s out v' s' out', f (subs b) s out = Some (v', s', out') ->
    same_accounts b {| subs := v'; peers := peers b; outbound := out' |}) ->
  and_modify pid f b = Some b' -> same_accounts b b'.
Proof.
  intros Hf. unfold and_modify. destruct (peers b !! pid) as [s|] eqn:Es;
    [|intros [= <-]; apply same_accounts_refl].
  destruct (f (subs b) s (outbound b)) as [[[v' s'] out']|] eqn:E; simpl; [|done].
  intros [= <-]. apply Hf in E as []. split; simpl in *; try done.
  rewrite dom_insert_L. apply elem_of_dom_2 in Es. set_solver.
Qed.

(** An account of [b] with another connection sub-behavior. *)
Lemma set_connection_accounts b c out :
  connection_config c = connection_config (sub_connection (subs b)) ->
  connections_per_ip c = connections_per_ip (sub_connection (subs b)) ->
  accepted_peers c = accepted_peers (sub_connection (subs b)) ->
  active_peers c = active_peers (sub_connection (subs b)) ->
  banned_peers (sub_connection (subs b)) ⊆ banned_peers c ->
  same_accounts b {| subs := set_connection_sub c (subs b); peers := peers b; outbound := out |}.
Proof. by split. Qed.

Section accounts.
Context `{VersionOrder}.

Lemma on_inbound_msg_accounts pid msg b b' : on_inbound_msg pid msg b = Some b' -> same_accounts b b'.
Proof.
  apply and_modify_accounts. intros s out v' s' out'; cbv beta zeta. destruct (violation (apply_msg s msg)); [by intros [= <- _ _]|].
  rewrite visit_owner_eq. destruct (owner_outputs _ _ _ _ _). by intros [= <- _ _].
Qed.

Lemma on_inbound_msgs_accounts pid msgs b b' : on_inbound_msgs pid msgs b = Some b' -> same_accounts b b'.
Proof.
  revert b; induction msgs as [|m msgs IH]; intros b; simpl; [intros [= <-]; apply same_accounts_refl|].
  destruct (on_inbound_msg pid m b) as [b1|] eqn:E; simpl; [|done]. intros Hb.
  eapply same_accounts_trans; [by eapply on_inbound_msg_accounts|by apply IH].
Qed.

Lemma on_outbound_msg_accounts `{Minicbor} pid msg b b' :
  on_outbound_msg pid msg b = Some b' -> same_accounts b b'.
Proof.
  apply and_modify_accounts. intros s out v' s' out'; cbv beta zeta. destruct (clear_unsent s msg) as [s1|]; simpl; [|done].
  destruct (violation (apply_msg s1 msg)); [by intros [= <- _ _]|]. rewrite visit_outbound_eq. by intros [= <- _ _].
Qed.

Lemma on_errored_accounts pid b b' : on_errored pid b = Some b' -> same_accounts b b'.
Proof.
  apply and_modify_accounts. intros s out v' s' out'; cbv beta zeta. destruct (checked_add _ _ _); simpl; [|done].
  rewrite visit_errored_eq. by intros [= <- _ _].
Qed.

Lemma keep_house_accounts b pid s out1 c out2 :
  keep_house (sub_connection (subs b)) pid s out1 = (c, out2) ->
  forall out, same_accounts b {| subs := set_connection_sub c (subs b); peers := peers b; outbound := out |}.
Proof.
  unfold keep_house. destruct (needs_ban _ _ _); intros [= <- _] out; apply set_connection_accounts; try done.
  set_solver.
Qed.

Lemma housekeep_peers_accounts order b b' : housekeep_peers order b = Some b' -> same_accounts b b'.
Proof.
  revert b; induction order as [|pid order IH]; intros b; simpl; [intros [= <-]; apply same_accounts_refl|].
  destruct (and_modify pid _ b) as [b1|] eqn:E; simpl; [|done]. intros Hb.
  eapply same_accounts_trans; [|by apply IH]. revert E. apply and_modify_accounts.
  intros s out v' s' out'; cbv beta zeta. rewrite visit_housekeeping_eq.
  destruct (keep_house _ pid s out) as [c out1] eqn:Ek. destruct (try_request_tx_ids _ _ _ _).
  intros [= <- _ <-]. by eapply keep_house_accounts.
Qed.

Lemma push_accounts o b : same_accounts b (push o b).
Proof. by split. Qed.

Lemma sends_accounts b l pid :
  same_accounts b (foldl (fun b m => send_msg pid (AnyMessage.BlockFetch (blockfetch.Message.Block m)) b) b l).
Proof.
  revert b; induction l as [|m l IH]; intros b; simpl; [apply same_accounts_refl|].
  eapply same_accounts_trans; [|apply IH]. apply push_accounts.
Qed.

Lemma execute_accounts `{HashOrder} c b b' : execute c b = Some b' -> same_accounts b b'.
Proof.
  destruct c; simpl; try (intros [= <-]; apply push_accounts).
  - apply housekeep_peers_accounts.
  - intros [= <-]. eapply same_accounts_trans; [apply push_accounts|].
    eapply same_accounts_trans; [apply sends_accounts|]. apply push_accounts.
  - intros [= <-]. eapply same_accounts_trans; [|apply push_accounts].
    apply set_connection_accounts; try done. simpl. set_solver.
Qed.
End accounts.

(** What connecting a peer that is not banned leaves. *)
Lemma connection_connected_spec pid c out c' out' :
  pid ∉ banned_peers c -> connection_connected pid c out = Some (c', out') ->
  let n := default 0 (connections_per_ip c !! host pid) + 1 in
  connection_config c' = connection_config c /\ banned_peers c' = banned_peers c /\
  connections_per_ip c' = <[host pid := n]> (connections_per_ip c) /\
  if decide (n <= max_connections_per_ip (connection_config c)) then
    accepted_peers c' = {[pid]} ∪ accepted_peers c /\ out' = out /\
    (pid ∉ accepted_peers c -> active_peers c' = active_peers c + 1)
  else accepted_peers c' = accepted_peers c /\ active_peers c' = active_peers c /\
       out' = push_disconnect pid out.
Proof.
  intros Hb. unfold connection_connected. rewrite bool_decide_eq_false_2 by done.
  destruct (checked_add 64 _ 1) as [n|] eqn:En; simpl; [|done].
  apply checked_add_Some in En as [_ ->]. destruct (Z.ltb_spec (max_connections_per_ip (connection_config c))
    (default 0 (connections_per_ip c !! host pid) + 1)).
  - intros [= <- <-]. rewrite decide_False by lia. done.
  - rewrite decide_True by lia. case_bool_decide as Ha.
    + intros [= <- <-]. simpl. split_and!; try done. set_solver.
    + destruct (checked_add 64 (active_peers c) 1) as [m|] eqn:Em; simpl; [|done].
      apply checked_add_Some in Em as [_ ->]. intros [= <- <-]. done.
Qed.
