(* ===== verification/ResponderProps.v ===== *)
(** * Properties of the responder *)
From S2P Require Import Prelude Cbor Rfc8949 Protocol Network Chainsync Blockfetch.
From S2P Require Import Keepalive Txsubmission Peersharing Handshake HandshakeVersions.
From S2P Require Import LeiosProtocols AnyMessage Unsent Discovery ResponderState.
From S2P Require Import Responders Responder ResponderInv.

(** ** Answering a peer *)

(** The messages of the side that opened the connection. *)
Definition client_message (m : AnyMessage.t) : bool :=
  match m with
  | AnyMessage.KeepAlive (keepalive.Message.KeepAlive _ | keepalive.Message.Done)
  | AnyMessage.ChainSync (chainsync.Message.RequestNext | chainsync.Message.FindIntersect _ | chainsync.Message.Done)
  | AnyMessage.BlockFetch (blockfetch.Message.RequestRange _ | blockfetch.Message.ClientDone)
  | AnyMessage.PeerSharing (peersharing.Message.ShareRequest _ | peersharing.Message.Done)
  | AnyMessage.TxSubmission (txsubmission.Message.Init | txsubmission.Message.ReplyTxIds _ |
                             txsubmission.Message.ReplyTxs _ | txsubmission.Message.Done)
  | AnyMessage.LeiosNotify (leiosnotify.Message.RequestNext | leiosnotify.Message.Quit)
  | AnyMessage.LeiosFetch (leiosfetch.Message.BlockRequest _ | leiosfetch.Message.BlockTxsRequest _ _ |
                           leiosfetch.Message.Done) => true
  | _ => false
  end.

(** What the responder owes for an accepted message of the client. *)
Definition answers (pid : PeerId) (m : AnyMessage.t) : Outbound :=
  match m with
  | AnyMessage.KeepAlive (keepalive.Message.KeepAlive cookie) =>
      [OutCommand (Send pid (AnyMessage.KeepAlive (keepalive.Message.ResponseKeepAlive cookie)))]
  | AnyMessage.ChainSync chainsync.Message.RequestNext => [OutEvent (NextHeaderRequested pid)]
  | AnyMessage.ChainSync (chainsync.Message.FindIntersect points) =>
      [OutEvent (IntersectionRequested pid points)]
  | AnyMessage.BlockFetch (blockfetch.Message.RequestRange range) =>
      [OutEvent (BlockRangeRequested pid range)]
  | AnyMessage.PeerSharing (peersharing.Message.ShareRequest amount) =>
      [OutEvent (PeersRequested pid amount)]
  | AnyMessage.TxSubmission (txsubmission.Message.ReplyTxs txs) =>
      (fun tx => OutEvent (TxReceived pid tx)) <$> txs
  | AnyMessage.LeiosNotify leiosnotify.Message.RequestNext => [OutEvent (EbNotificationRequested pid)]
  | AnyMessage.LeiosNotify leiosnotify.Message.Quit =>
      [OutCommand (Send pid (AnyMessage.LeiosNotify leiosnotify.Message.Done))]
  | AnyMessage.LeiosFetch (leiosfetch.Message.BlockRequest point) => [OutEvent (EbRequested pid point)]
  | AnyMessage.LeiosFetch (leiosfetch.Message.BlockTxsRequest point bitmaps) =>
      [OutEvent (EbTxsRequested pid point bitmaps)]
  | _ => []
  end.

(** A batch of messages: each is applied, and answered unless the peer has
    violated a protocol. *)
Fixpoint served (pid : PeerId) (s : ResponderState) (ms : list AnyMessage.t) : ResponderState * Outbound :=
  match ms with
  | [] => (s, [])
  | m :: ms =>
      let s := apply_msg s m in
      let (s', out) := served pid s ms in
      (s', (if violation s then [] else answers pid m) ++ out)
  end.

Lemma foldl_push {A} (f : A -> Output) (l : list A) out :
  foldl (fun out x => push_ready out (f x)) out l = out ++ (f <$> l).
Proof.
  revert out; induction l as [|x l IH]; intros out; simpl; [by rewrite app_nil_r|].
  rewrite IH. unfold push_ready. by rewrite <- app_assoc.
Qed.

Lemma owner_answers `{VersionOrder} v pid s m out :
  client_message m = true -> is_initialized s = true -> violation (apply_msg s m) = false ->
  owner_outputs v m pid (apply_msg s m) out = (apply_msg s m, out ++ answers pid m).
Proof.
  intros Hc Hi Hv. assert (is_initialized (apply_msg s m) = true) as Hi'.
  { unfold is_initialized in *. by destruct (responder_apply_frame s m) as (-> & _). }
  destruct m as [m|m|m|m|m|m|m|m]; simpl in *; [done|..]; unfold try_respond, chainsync_check,
    peersharing_check, blockfetch_check, try_extract_txs, leiosnotify_check, leiosfetch_check;
    rewrite ?Hi'; unfold store in *; f_equal.
  - destruct (keepalive s), m; simpl in *; try done; by rewrite app_nil_r.
  - destruct (chainsync s), m; simpl in *; try done; by rewrite app_nil_r.
  - destruct (peersharing s), m; simpl in *; try done; by rewrite app_nil_r.
  - destruct (blockfetch s), m; simpl in *; try done; by rewrite app_nil_r.
  - destruct (tx_submission s), m; simpl in *; try done; rewrite ?foldl_push, ?app_nil_r; done.
  - destruct (leios_notify s), m; simpl in *; try done; by rewrite app_nil_r.
  - destruct (leios_fetch s), m; simpl in *; try done; by rewrite app_nil_r.
Qed.

Lemma inbound_answered `{VersionOrder} pid s m b :
  peers b !! pid = Some s -> is_initialized s = true -> client_message m = true ->
  on_inbound_msg pid m b = Some {| subs := subs b; peers := <[pid := apply_msg s m]> (peers b);
    outbound := outbound b ++ (if violation (apply_msg s m) then [] else answers pid m) |}.
Proof.
  intros Hs Hi Hm. unfold on_inbound_msg, and_modify. rewrite Hs; cbv beta zeta.
  destruct (violation (apply_msg s m)) eqn:Hv; [by rewrite app_nil_r|].
  by rewrite visit_owner_eq, owner_answers.
Qed.

(** C19: Once a peer is initialized, the messages a client sends on the protocols behind
    the handshake ([client_message]: keep-alive, chain-sync, block-fetch, peer-sharing,
    tx-submission and the two of Leios) are answered one by one and exactly once, in the
    order they arrive and whatever protocols they interleave: a keep-alive with its own
    cookie, a closed notification stream with its closing message, every other request
    with the event that hands its content to the application, and nothing is pushed for
    a message the protocol refuses or that follows a violation.  Nothing else of the
    behavior changes.  What becomes of a proposal is [handshake_agreement]. *)
Theorem requests_answered `{Minicbor} `{HashOrder} `{VersionOrder} pid s ms b :
  peers b !! pid = Some s -> is_initialized s = true ->
  Forall (fun m => client_message m = true) ms ->
  exists b', handle_io (InterfaceEvent.Recv pid ms) b = Some b' /\ subs b' = subs b /\
    peers b' = <[pid := (served pid s ms).1]> (peers b) /\
    outbound b' = outbound b ++ (served pid s ms).2.
Proof.
  simpl. revert s b. induction ms as [|m ms IH]; intros s b Hs Hi Hms; simpl.
  - exists b. rewrite app_nil_r, insert_id by done. done.
  - apply Forall_cons in Hms as [Hm Hms]. rewrite (inbound_answered pid s m b Hs Hi Hm). simpl.
    edestruct (IH (apply_msg s m)) as (b' & -> & Hsub & Hp & Ho); [by apply lookup_insert_eq| |done|].
    { unfold is_initialized in *. by destruct (responder_apply_frame s m) as (-> & _). }
    exists b'. destruct (served pid (apply_msg s m) ms) as [s' out]; simpl in *.
    rewrite Hp, Ho, insert_insert_eq, <- app_assoc. done.
Qed.

(** ** Batches of blocks *)

(** The messages of a batch. *)
Definition batch (blocks : list bytes) : list blockfetch.Message.t :=
  blockfetch.Message.StartBatch :: (blockfetch.Message.Block <$> blocks) ++ [blockfetch.Message.BatchDone].

(** Reports the messages as sent, one after the other. *)
Fixpoint on_outbound_msgs `{VersionOrder} `{Minicbor} (pid : PeerId) (msgs : list AnyMessage.t)
    (b : ResponderBehavior) : option ResponderBehavior :=
  match msgs with
  | [] => Some b
  | msg :: msgs => b ← on_outbound_msg pid msg b; on_outbound_msgs pid msgs b
  end.

Lemma foldl_sends pid blocks b :
  foldl (fun b block => send_msg pid (AnyMessage.BlockFetch (blockfetch.Message.Block block)) b) b blocks =
  {| subs := subs b; peers := peers b; outbound := outbound b ++
     ((fun m => OutCommand (Send pid (AnyMessage.BlockFetch m))) <$> (blockfetch.Message.Block <$> blocks)) |}.
Proof.
  revert b; induction blocks as [|x l IH]; intros b; simpl; [rewrite app_nil_r; by destruct b|].
  rewrite IH. simpl. unfold push_ready. by rewrite <- app_assoc.
Qed.

Lemma sent_blockfetch `{VersionOrder} `{Minicbor} pid s m st b :
  peers b !! pid = Some s -> by_channel (unsent s) !! blockfetch.CHANNEL_ID = None ->
  violation s = false -> blockfetch.apply (blockfetch s) m = Ok st ->
  on_outbound_msg pid (AnyMessage.BlockFetch m) b =
    Some {| subs := subs b; peers := <[pid := set_blockfetch st s]> (peers b); outbound := outbound b |}.
Proof.
  intros Hs Hu Hv Ha. unfold on_outbound_msg, and_modify. rewrite Hs; cbv beta zeta.
  unfold clear_unsent, unsent_contains. simpl. rewrite Hu. simpl. rewrite Ha. simpl. rewrite Hv.
  by rewrite visit_outbound_eq.
Qed.

Lemma sent_run `{VersionOrder} `{Minicbor} pid s ms st b :
  peers b !! pid = Some s -> by_channel (unsent s) !! blockfetch.CHANNEL_ID = None ->
  violation s = false -> run blockfetch.apply (blockfetch s) ms = Ok st ->
  on_outbound_msgs pid (AnyMessage.BlockFetch <$> ms) b =
    Some {| subs := subs b; peers := <[pid := set_blockfetch st s]> (peers b); outbound := outbound b |}.
Proof.
  revert s b; induction ms as [|m ms IH]; intros s b Hs Hu Hv Hr.
  - injection Hr as <-. simpl. replace (set_blockfetch (blockfetch s) s) with s by (by destruct s).
    rewrite insert_id by done. by destruct b.
  - apply run_cons in Hr as (s1 & Ha & Hr). simpl. rewrite (sent_blockfetch pid s m s1 b) by done. simpl.
    rewrite (IH (set_blockfetch s1 s)); [|by apply lookup_insert_eq|done|done|done]. simpl.
    by rewrite insert_insert_eq.
Qed.

Lemma run_batch range blocks : run blockfetch.apply (blockfetch.State.Busy range) (batch blocks) = Ok blockfetch.State.Idle.
Proof.
  apply run_cons. exists (blockfetch.State.Streaming None). split; [done|]. generalize (None : option bytes).
  induction blocks as [|x l IH]; intros o; [done|]. simpl. apply IH.
Qed.

(** The answer to a block request is accepted whole: [ProvideBlocks] pushes one
    batch with the blocks in order, and when its messages are reported as sent
    the peer's block-fetch protocol is idle again, with no violation and nothing
    else changed. *)
Theorem blocks_provided `{Minicbor} `{HashOrder} `{VersionOrder} pid s range blocks b :
  peers b !! pid = Some s -> by_channel (unsent s) !! blockfetch.CHANNEL_ID = None ->
  violation s = false -> blockfetch s = blockfetch.State.Busy range ->
  exists b1, execute (ResponderCommand.ProvideBlocks pid blocks) b = Some b1 /\
    outbound b1 = outbound b ++
      ((fun m => OutCommand (Send pid (AnyMessage.BlockFetch m))) <$> batch blocks) /\
    on_outbound_msgs pid (AnyMessage.BlockFetch <$> batch blocks) b1 =
      Some {| subs := subs b; peers := <[pid := set_blockfetch blockfetch.State.Idle s]> (peers b);
              outbound := outbound b1 |}.
Proof.
  intros Hs Hu Hv Hb. eexists. split; [done|]. unfold provide_blocks. rewrite foldl_sends.
  simpl. unfold push_ready. split.
  - rewrite fmap_app. simpl. by rewrite <- !app_assoc.
  - match goal with |- context [on_outbound_msg _ _ ?x] => set (b1 := x) end.
    change (on_outbound_msgs pid (AnyMessage.BlockFetch <$> batch blocks) b1 = Some
      {| subs := subs b; peers := <[pid := set_blockfetch blockfetch.State.Idle s]> (peers b);
         outbound := outbound b1 |}).
    apply (sent_run pid s (batch blocks) blockfetch.State.Idle b1); [done..|]. rewrite Hb. apply run_batch.
Qed.

(** ** Housekeeping *)
Definition misbehaves (c : ConnectionResponder) (s : ResponderState) : bool :=
  violation s || (max_error_count (connection_config c) <? error_count s).

(** Whether a peer is to be asked for transactions, and what asking leaves. *)
Definition asks (s : ResponderState) : bool :=
  is_initialized s && bool_decide (tx_submission s = txsubmission.State.Idle) &&
  bool_decide (by_channel (unsent s) !! txsubmission.CHANNEL_ID = None).

Definition asked (v : TxSubmissionResponder) (s : ResponderState) : ResponderState :=
  if asks s then
    set_unsent {| by_channel := <[txsubmission.CHANNEL_ID := request_tx_ids_msg v]> (by_channel (unsent s)) |} s
  else s.

(** What housekeeping pushes for one peer. *)
Definition upkeep (v : SubResponders) (pid : PeerId) (s : ResponderState) : Outbound :=
  (if bool_decide (pid ∈ banned_peers (sub_connection v)) || misbehaves (sub_connection v) s ||
      bool_decide (connection s = ConnectionState.Errored)
   then [OutCommand (Disconnect pid)] else []) ++
  (if asks s then [OutCommand (Send pid (request_tx_ids_msg (sub_txsubmission v)))] else []).

Definition ban_if (x : bool) (pid : PeerId) (v : SubResponders) : SubResponders :=
  let c := sub_connection v in
  if x then set_connection_sub (set_banned ({[pid]} ∪ banned_peers c) c) v else v.

Lemma ban_if_banned x pid v : pid ∈ banned_peers (sub_connection v) -> ban_if x pid v = v.
Proof.
  intros Hp. unfold ban_if. destruct x; [|done]. destruct v as [c]; unfold set_connection_sub; simpl in *.
  f_equal. unfold set_banned. replace ({[pid]} ∪ banned_peers c) with (banned_peers c) by set_solver.
  by destruct c.
Qed.

Lemma try_request_asked v pid s out :
  try_request_tx_ids v pid s out =
    (asked v s, out ++ if asks s then [OutCommand (Send pid (request_tx_ids_msg v))] else []).
Proof.
  unfold try_request_tx_ids, asked, asks. destruct (is_initialized s) eqn:Hi; simpl; [|by rewrite app_nil_r].
  destruct (tx_submission s) eqn:Ht; simpl; try (by rewrite app_nil_r).
  unfold try_send_request. simpl. rewrite Ht. simpl. unfold unsent_insert. simpl.
  destruct (by_channel (unsent s) !! txsubmission.CHANNEL_ID) eqn:Hu.
  - rewrite bool_decide_eq_true_2 by done. simpl. rewrite app_nil_r. by destruct s.
  - rewrite bool_decide_eq_false_2 by (intros [? [=]]). done.
Qed.

Lemma visit_upkeep `{VersionOrder} pid (v : SubResponders) s out :
  visit visit_housekeeping pid v s out =
    Some (ban_if (misbehaves (sub_connection v) s) pid v, asked (sub_txsubmission v) s, out ++ upkeep v pid s).
Proof.
  rewrite visit_housekeeping_eq. unfold keep_house, needs_ban, needs_disconnect, upkeep.
  fold (misbehaves (sub_connection v) s). case_bool_decide as Hb; simpl.
  - rewrite try_request_asked. rewrite ban_if_banned by done. unfold push_disconnect, push_ready.
    rewrite <- app_assoc. by destruct v.
  - destruct (misbehaves (sub_connection v) s) eqn:Hm; rewrite try_request_asked; simpl.
    + unfold push_disconnect, push_ready. by rewrite <- app_assoc.
    + destruct v. case_bool_decide; unfold push_disconnect, push_ready; by rewrite <- ?app_assoc.
Qed.

(** What housekeeping pushes for the peer [pid] of [b]. *)
Definition upkeep_of (b : ResponderBehavior) (pid : PeerId) : Outbound :=
  match peers b !! pid with Some s => upkeep (subs b) pid s | None => [] end.

Definition misbehaving (b : ResponderBehavior) : gset PeerId :=
  dom (filter (fun p => misbehaves (sub_connection (subs b)) p.2 = true) (peers b)).

Lemma elem_of_misbehaving b pid :
  pid ∈ misbehaving b <-> exists s, peers b !! pid = Some s /\ misbehaves (sub_connection (subs b)) s = true.
Proof.
  unfold misbehaving. rewrite elem_of_dom. unfold is_Some. setoid_rewrite map_lookup_filter_Some. done.
Qed.

(** What one round does to the peers met later. *)
Definition met (pid : PeerId) (s : ResponderState) (b : ResponderBehavior) : ResponderBehavior := {|
  subs := ban_if (misbehaves (sub_connection (subs b)) s) pid (subs b);
  peers := <[pid := asked (sub_txsubmission (subs b)) s]> (peers b);
  outbound := outbound b ++ upkeep (subs b) pid s
|}.

Lemma set_banned_ban_if x pid v X :
  set_connection_sub (set_banned X (sub_connection (ban_if x pid v))) (ban_if x pid v) =
  set_connection_sub (set_banned X (sub_connection v)) v.
Proof. by destruct x, v. Qed.

Section met.
Context (pid : PeerId) (s : ResponderState) (b : ResponderBehavior) (Hs : peers b !! pid = Some s).

Lemma met_txs : sub_txsubmission (subs (met pid s b)) = sub_txsubmission (subs b).
Proof. simpl. unfold ban_if. by case_match. Qed.

Lemma met_config :
  connection_config (sub_connection (subs (met pid s b))) = connection_config (sub_connection (subs b)).
Proof. simpl. unfold ban_if. by case_match. Qed.

Lemma met_banned q :
  q ∈ banned_peers (sub_connection (subs (met pid s b))) <->
  q ∈ banned_peers (sub_connection (subs b)) \/ (q = pid /\ pid ∈ misbehaving b).
Proof.
  rewrite elem_of_misbehaving. simpl. unfold ban_if.
  destruct (misbehaves _ s) eqn:Hm; simpl; [|naive_solver congruence].
  rewrite elem_of_union, elem_of_singleton. naive_solver.
Qed.

Lemma met_misbehaving q : q <> pid -> q ∈ misbehaving (met pid s b) <-> q ∈ misbehaving b.
Proof.
  intros Hq. rewrite !elem_of_misbehaving. unfold misbehaves at 1. rewrite met_config.
  simpl. by rewrite lookup_insert_ne.
Qed.

Lemma met_upkeep q : q <> pid -> upkeep_of (met pid s b) q = upkeep_of b q.
Proof.
  intros Hq. unfold upkeep_of. simpl. rewrite lookup_insert_ne by done.
  destruct (peers b !! q) as [s'|]; [|done].
  change (ban_if _ pid (subs b)) with (subs (met pid s b)).
  unfold upkeep, misbehaves. rewrite met_txs, met_config.
  replace (bool_decide (q ∈ banned_peers (sub_connection (subs (met pid s b))))) with
    (bool_decide (q ∈ banned_peers (sub_connection (subs b)))); [done|].
  apply bool_decide_ext. rewrite met_banned. naive_solver.
Qed.

Lemma met_bans order :
  pid ∉ order ->
  banned_peers (sub_connection (subs (met pid s b))) ∪
    filter (fun p => p ∈ misbehaving (met pid s b)) (list_to_set order) =
  banned_peers (sub_connection (subs b)) ∪ filter (fun p => p ∈ misbehaving b) (list_to_set (pid :: order)).
Proof.
  intros Hp. apply set_eq. intros q.
  rewrite !elem_of_union, !elem_of_filter, !elem_of_list_to_set, elem_of_cons, met_banned.
  destruct (decide (q = pid)) as [->|Hq]; [naive_solver|]. rewrite met_misbehaving by done. naive_solver.
Qed.
End met.

(** The loop over any peers, each met once. *)
Lemma housekeep_peers_upkeep `{VersionOrder} order b :
  NoDup order ->
  exists b', housekeep_peers order b = Some b' /\
    (forall pid, peers b' !! pid =
       (if decide (pid ∈ order) then asked (sub_txsubmission (subs b)) else id) <$> peers b !! pid) /\
    subs b' = set_connection_sub (set_banned
      (banned_peers (sub_connection (subs b)) ∪ filter (fun p => p ∈ misbehaving b) (list_to_set order))
      (sub_connection (subs b))) (subs b) /\
    outbound b' = outbound b ++ concat (upkeep_of b <$> order).
Proof.
  intros Hnd. revert b; induction order as [|pid order IH]; intros b; cbn [housekeep_peers].
  - exists b. split_and!; [done| | |by rewrite app_nil_r].
    + intros pid. rewrite decide_False by set_solver. by destruct (_ !! _).
    + simpl. replace (filter _ _) with (∅ : gset PeerId) by set_solver. rewrite union_empty_r_L.
      by destruct (subs b) as [[]].
  - apply NoDup_cons in Hnd as [Hp Hnd]. unfold and_modify.
    destruct (peers b !! pid) as [s|] eqn:Es; cbv beta zeta.
    + rewrite visit_upkeep. simpl. fold (met pid s b).
      destruct (IH Hnd (met pid s b)) as (b' & -> & Hps & Hsub & Hout). exists b'. split; [done|]. split_and!.
      * intros q. rewrite Hps, met_txs. simpl. destruct (decide (q = pid)) as [->|Hne].
        -- by rewrite lookup_insert_eq, decide_False, decide_True, Es by set_solver.
        -- rewrite lookup_insert_ne by done. do 2 (case_decide; try set_solver).
      * rewrite Hsub. rewrite (met_bans pid s b Es) by done. apply set_banned_ban_if.
      * rewrite Hout. simpl. unfold upkeep_of at 2. rewrite Es, <- app_assoc. do 3 f_equal.
        apply list_fmap_ext. intros i q Hi%list_elem_of_lookup_2. apply (met_upkeep pid s b Es). set_solver.
    + simpl. destruct (IH Hnd b) as (b' & -> & Hps & Hsub & Hout). exists b'. split_and!; [done| | |].
      * intros q. rewrite Hps. destruct (decide (q = pid)) as [->|Hne]; [by rewrite Es|].
        do 2 (case_decide; try set_solver).
      * rewrite Hsub. apply (f_equal (fun X => set_connection_sub (set_banned X _) _)). apply set_eq. intros q.
        rewrite !elem_of_union, !elem_of_filter, ?elem_of_union, !elem_of_list_to_set, ?elem_of_singleton, elem_of_misbehaving.
        naive_solver congruence.
      * rewrite Hout. simpl. unfold upkeep_of at 2. by rewrite Es.
Qed.

Lemma elements_dom {A} (m : gmap PeerId A) : elements (dom m) ≡ₚ (map_to_list m).*1.
Proof.
  apply NoDup_Permutation; [apply NoDup_elements|apply NoDup_fst_map_to_list|]. intros p.
  rewrite elem_of_elements, elem_of_dom, list_elem_of_fmap. unfold is_Some. split.
  - intros [x Hx]. exists (p, x). split; [done|]. by apply elem_of_map_to_list.
  - intros ([q x] & -> & Hx%elem_of_map_to_list). by exists x.
Qed.

Lemma housekeeping_spec `{HashOrder} `{VersionOrder} b :
  exists b', housekeeping b = Some b' /\
    peers b' = asked (sub_txsubmission (subs b)) <$> peers b /\
    subs b' = set_connection_sub (set_banned
      (banned_peers (sub_connection (subs b)) ∪ misbehaving b) (sub_connection (subs b))) (subs b) /\
    outbound b' ≡ₚ outbound b ++ concat ((fun p => upkeep (subs b) p.1 p.2) <$> map_to_list (peers b)).
Proof.
  unfold housekeeping.
  destruct (housekeep_peers_upkeep (peers_order (dom (peers b))) b) as (b' & -> & Hp & Hs & Ho);
    [apply NoDup_peers_order|]. exists b'. split_and!; [done| | |].
  - apply map_eq. intros pid. rewrite Hp, lookup_fmap.
    destruct (peers b !! pid) eqn:E; [|by case_decide].
    rewrite decide_True; [done|]. rewrite elem_of_peers_order. by apply elem_of_dom_2 in E.
  - rewrite Hs. apply (f_equal (fun X => set_connection_sub (set_banned (_ ∪ X) _) _)). apply set_eq. intros q.
    rewrite elem_of_filter, elem_of_list_to_set, elem_of_peers_order, elem_of_misbehaving.
    split; [tauto|]. intros (s & Hq & ?). split; [by eauto|]. by apply elem_of_dom_2 in Hq.
  - rewrite Ho. f_equiv. rewrite peers_order_perm, elements_dom, <- list_fmap_compose. erewrite list_fmap_ext; [reflexivity|].
    intros i [pid s] Hi%list_elem_of_lookup_2%elem_of_map_to_list. simpl. unfold upkeep_of. by rewrite Hi.
Qed.

(** Housekeeping never panics and does the same whatever order the hash map
    iterates in, up to the order of its outputs: it bans exactly the tracked peers
    that violated a protocol or made too many errors, tells them, the banned and
    the failed ones to disconnect, asks for transactions exactly the initialized
    peers that are idle and have not been asked, and changes nothing else. *)
Theorem housekeeping_effect `{HashOrder} `{VersionOrder} b :
  exists b', housekeeping b = Some b' /\
    peers b' = asked (sub_txsubmission (subs b)) <$> peers b /\
    subs b' = set_connection_sub (set_banned
      (banned_peers (sub_connection (subs b)) ∪ misbehaving b) (sub_connection (subs b))) (subs b) /\
    outbound b' ≡ₚ outbound b ++ concat ((fun p => upkeep (subs b) p.1 p.2) <$> map_to_list (peers b)).
Proof. exact (housekeeping_spec b). Qed.

(** ** Panics *)

(** What no run of the responder breaks. *)
Record responder_inv (b : ResponderBehavior) : Prop := {
  inv_errors : map_Forall (fun _ s => in_u 32 (error_count s)) (peers b);
  inv_unsent : map_Forall (fun _ s => map_Forall (fun c m => c = txsubmission.CHANNEL_ID /\ writable m)
                                        (by_channel (unsent s))) (peers b)
}.

(** The interface events the code panics at. *)
Definition io_panics (e : InterfaceEvent.t AnyMessage.t) (b : ResponderBehavior) : Prop :=
  let c := sub_connection (subs b) in
  match e with
  | InterfaceEvent.Connected pid =>
      pid ∉ banned_peers c /\
      let count := default 0 (connections_per_ip c !! host pid) in
      (2 ^ 64 <= count + 1 \/
       count + 1 <= max_connections_per_ip (connection_config c) /\ pid ∉ accepted_peers c /\
       2 ^ 64 <= active_peers c + 1)
  | InterfaceEvent.Error pid _ => exists s, peers b !! pid = Some s /\ error_count s = 2 ^ 32 - 1
  | _ => False
  end.

Lemma responder_inv_start config versions txs : responder_inv (responder config versions txs).
Proof. split; apply map_Forall_empty. Qed.

(** The invariant looks at the peers only, and at no more than these fields. *)
Definition peer_ok (s : ResponderState) : Prop :=
  in_u 32 (error_count s) /\
  map_Forall (fun c m => c = txsubmission.CHANNEL_ID /\ writable m) (by_channel (unsent s)).

Lemma responder_inv_peers b : responder_inv b <-> map_Forall (fun _ s => peer_ok s) (peers b).
Proof.
  split; [intros [H1 H2] p s Hp; split; [by eapply H1|by eapply H2]|].
  intros Hok; split; intros p s Hp; by destruct (Hok p s Hp).
Qed.

Lemma and_modify_peers pid f b b' :
  (forall s out v' s' out', peer_ok s -> f (subs b) s out = Some (v', s', out') -> peer_ok s') ->
  and_modify pid f b = Some b' -> responder_inv b -> responder_inv b'.
Proof.
  intros Hf. rewrite !responder_inv_peers. unfold and_modify.
  destruct (peers b !! pid) as [s|] eqn:Es; [|by intros [= <-]].
  destruct (f (subs b) s (outbound b)) as [[[v' s'] out']|] eqn:E; simpl; [|done].
  intros [= <-] Hok. simpl. apply map_Forall_insert_2; [|done].
  eapply Hf; [|exact E]. by eapply Hok.
Qed.

Lemma peer_ok_asked v s : peer_ok s -> peer_ok (asked v s).
Proof.
  intros [He Hu]. unfold asked. destruct (asks s); [|done]. split; [done|]. simpl.
  by apply map_Forall_insert_2.
Qed.

Section inv.
Context `{VersionOrder}.

Lemma owner_frame v m pid s out :
  error_count (owner_outputs v m pid s out).1 = error_count s /\
  unsent (owner_outputs v m pid s out).1 = unsent s.
Proof.
  destruct m; simpl; try done. unfold try_accept_handshake. by repeat case_match.
Qed.

Lemma on_inbound_inv pid m b b' : on_inbound_msg pid m b = Some b' -> responder_inv b -> responder_inv b'.
Proof.
  apply and_modify_peers. intros s out v' s' out' [He Hu]. cbv beta zeta.
  destruct (responder_apply_frame s m) as (_ & Hc & Hn).
  destruct (violation (apply_msg s m)); [intros [= _ <- _]|rewrite visit_owner_eq].
  - split; by rewrite ?Hc, ?Hn.
  - pose proof (owner_frame (subs b) m pid (apply_msg s m) out) as [Hc' Hn'].
    destruct (owner_outputs _ _ _ _ _); simpl in *. intros [= _ <- _].
    split; by rewrite ?Hc', ?Hn', ?Hc, ?Hn.
Qed.

Lemma on_inbounds_inv pid ms b b' : on_inbound_msgs pid ms b = Some b' -> responder_inv b -> responder_inv b'.
Proof.
  revert b; induction ms as [|m ms IH]; intros b; simpl; [by intros [= <-]|].
  destruct (on_inbound_msg pid m b) as [b1|] eqn:E; simpl; [|done].
  intros Hb Hi. eapply IH; [done|]. by eapply on_inbound_inv.
Qed.

Lemma clear_unsent_ok `{Minicbor} s m s' : clear_unsent s m = Some s' -> peer_ok s -> peer_ok s'.
Proof.
  unfold clear_unsent. destruct (unsent_contains _ _) as [[]|]; simpl; [|by intros [= <-]..|done].
  destruct (can_apply s m); [|by intros [= <-]]. intros [= <-] [He Hu]. split; [done|]. simpl.
  by apply map_Forall_delete.
Qed.

Lemma on_outbound_inv `{Minicbor} pid m b b' :
  on_outbound_msg pid m b = Some b' -> responder_inv b -> responder_inv b'.
Proof.
  apply and_modify_peers. intros s out v' s' out' Hs. cbv beta zeta.
  destruct (clear_unsent s m) as [s1|] eqn:E; simpl; [|done]. apply clear_unsent_ok in E as [He Hu]; [|done].
  destruct (responder_apply_frame s1 m) as (_ & Hc & Hn).
  assert (peer_ok (apply_msg s1 m)) by (split; by rewrite ?Hc, ?Hn).
  destruct (violation _); [|rewrite visit_outbound_eq]; by intros [= _ <- _].
Qed.

Lemma on_connected_inv pid b b' : on_connected pid b = Some b' -> responder_inv b -> responder_inv b'.
Proof.
  unfold on_connected. rewrite visit_connected_eq.
  destruct (connection_connected _ _ _) as [[c out]|]; simpl; [|done].
  intros [= <-]. rewrite !responder_inv_peers. simpl. intros Hok. by apply map_Forall_insert_2.
Qed.

Lemma on_disconnected_inv pid b b' : on_disconnected pid b = Some b' -> responder_inv b -> responder_inv b'.
Proof.
  unfold on_disconnected. destruct (and_modify pid _ b) as [b1|] eqn:E; [|done].
  intros [= <-] Hi. apply and_modify_peers in E; [|clear -H; intros s out v' s' out' [He Hu]; cbv beta zeta|done].
  - rewrite !responder_inv_peers in *. simpl. by apply map_Forall_delete.
  - rewrite visit_disconnected_eq, responder_reset_spec. intros [= _ <- _]. split; [done|apply map_Forall_empty].
Qed.

Lemma on_errored_inv pid b b' : on_errored pid b = Some b' -> responder_inv b -> responder_inv b'.
Proof.
  apply and_modify_peers. intros s out v' s' out' [He Hu]. cbv beta zeta. simpl.
  destruct (checked_add _ _ _) as [n|] eqn:En; simpl; [|done]. apply checked_add_Some in En as [Hn ->].
  rewrite visit_errored_eq. intros [= _ <- _]. split; [|done]. simpl. unfold in_u in *. lia.
Qed.

Lemma housekeeping_inv `{HashOrder} b b' : housekeeping b = Some b' -> responder_inv b -> responder_inv b'.
Proof.
  unfold housekeeping. destruct (housekeep_peers_upkeep (peers_order (dom (peers b))) b) as (b1 & -> & Hp & _);
    [apply NoDup_peers_order|]. intros [= <-]. rewrite !responder_inv_peers. intros Hok p s.
  rewrite Hp. destruct (peers b !! p) eqn:E; simpl; [|done]. intros [= <-].
  apply Hok in E. case_decide; [by apply peer_ok_asked|done].
Qed.

Lemma execute_inv `{HashOrder} c b b' : execute c b = Some b' -> responder_inv b -> responder_inv b'.
Proof.
  destruct c; simpl; try (intros [= <-]; by rewrite !responder_inv_peers); [apply housekeeping_inv|].
  intros [= <-]. rewrite !responder_inv_peers. unfold provide_blocks. rewrite foldl_sends. done.
Qed.
End inv.

Lemma step_inv `{Minicbor} b l b' : step b l b' -> responder_inv b -> responder_inv b'.
Proof.
  destruct 1 as [order versions e b b' Hs|order versions c b b' Hs|l1 o l2 b Hq].
  - destruct e; simpl in Hs.
    + by eapply on_connected_inv.
    + by eapply on_disconnected_inv.
    + by eapply on_outbound_inv.
    + by eapply on_inbounds_inv.
    + by eapply on_errored_inv.
    + by eapply housekeeping_inv.
  - by eapply execute_inv.
  - by rewrite !responder_inv_peers.
Qed.

Section panics.
Context `{VersionOrder}.

Lemma on_inbound_is_Some pid m b : is_Some (on_inbound_msg pid m b).
Proof.
  unfold on_inbound_msg, and_modify. destruct (peers b !! pid) as [s|]; [cbv beta zeta|by eexists].
  destruct (violation _); [by eexists|]. rewrite visit_owner_eq.
  destruct (owner_outputs _ _ _ _ _). by eexists.
Qed.

Lemma on_inbounds_is_Some pid ms b : is_Some (on_inbound_msgs pid ms b).
Proof.
  revert b; induction ms as [|m ms IH]; intros b; simpl; [by eexists|].
  destruct (on_inbound_is_Some pid m b) as [b1 ->]. apply IH.
Qed.

Lemma on_outbound_is_Some `{Minicbor} pid m b : responder_inv b -> is_Some (on_outbound_msg pid m b).
Proof.
  intros [_ Hu]. unfold on_outbound_msg, and_modify.
  destruct (peers b !! pid) as [s|] eqn:Es; [cbv beta zeta|by eexists].
  assert (is_Some (clear_unsent s m)) as [s1 ->].
  { unfold clear_unsent, unsent_contains.
    destruct (by_channel (unsent s) !! any_channel m) as [u|] eqn:Eu; simpl; [|by eexists].
    destruct (Hu _ _ Es _ _ Eu) as [Hc Hw]. apply any_payload_writable in Hw as [x ->]. simpl.
    assert (writable m) as [y ->]%any_payload_writable by (destruct m; first [exact I | discriminate Hc]).
    simpl. case_match; by eexists. }
  simpl. destruct (violation _); [by eexists|]. rewrite visit_outbound_eq. by eexists.
Qed.

Lemma connection_connected_None pid c out :
  connection_connected pid c out = None <->
  pid ∉ banned_peers c /\
  let count := default 0 (connections_per_ip c !! host pid) in
  (2 ^ 64 <= count + 1 \/
   count + 1 <= max_connections_per_ip (connection_config c) /\ pid ∉ accepted_peers c /\
   2 ^ 64 <= active_peers c + 1).
Proof.
  unfold connection_connected. case_bool_decide as Hb; [split; [done|by intros [? _]]|].
  unfold checked_add. cbv zeta.
  set (n := default 0 _). destruct (Z.ltb_spec (n + 1) (2 ^ 64)); simpl.
  2:{ split; [|done]. intros _. split; [done|by left]. }
  destruct (Z.ltb_spec (max_connections_per_ip (connection_config c)) (n + 1)).
  { split; [done|]. intros [_ [?|[? _]]]; lia. }
  case_bool_decide as Ha; [split; [done|]; intros [_ [?|(_ & ? & _)]]; [lia|done]|].
  simpl. destruct (Z.ltb_spec (active_peers c + 1) (2 ^ 64)); simpl.
  - split; [done|]. intros [_ [?|(_ & _ & ?)]]; lia.
  - split; [|done]. intros _. split; [done|]. by right.
Qed.
End panics.

(** C32: In every reachable state no command panics, and an interface event panics
    exactly when a counter overflows: the 64-bit counts of the connections of a
    host and of the active peers when a peer that is not banned connects, and the
    32-bit count of a peer's errors. *)
Theorem responder_panics_exactly `{Minicbor} `{HashOrder} `{VersionOrder} config versions txs b :
  runs (fun _ _ => True) (responder config versions txs) b ->
  (forall e, handle_io e b = None <-> io_panics e b) /\ (forall c, is_Some (execute c b)).
Proof.
  intros Hr.
  assert (responder_inv b) as Hi
    by (induction Hr as [|? ? ? _ IH _ Hs]; [apply responder_inv_start|by eapply step_inv]).
  assert (is_Some (housekeeping b)) as Hk by (destruct (housekeeping_spec b) as (b' & -> & _); by eexists).
  split.
  - intros e. destruct e as [pid|pid|pid m|pid ms|pid err|]; simpl.
    + rewrite <- (connection_connected_None pid _ (outbound b)). unfold on_connected.
      rewrite visit_connected_eq. by destruct (connection_connected _ _ _) as [[??]|].
    + split; [|done]. unfold on_disconnected, and_modify.
      destruct (peers b !! pid); cbv beta zeta; [by rewrite visit_disconnected_eq|done].
    + split; [|done]. destruct (on_outbound_is_Some pid m b Hi) as [? ->]. done.
    + split; [|done]. destruct (on_inbounds_is_Some pid ms b) as [? ->]. done.
    + unfold on_errored, and_modify. destruct (peers b !! pid) as [s|] eqn:Es; cbv beta zeta; [|naive_solver].
      unfold checked_add. cbn [error_count set_connection]. destruct (inv_errors b Hi pid s Es) as [? Hlt].
      destruct (Z.ltb_spec (error_count s + 1) (2 ^ 32)); cbn [mbind option_bind].
      * rewrite visit_errored_eq. split; [done|]. intros (s' & ? & ?). simplify_eq. lia.
      * split; [|done]. intros _. exists s. split; [done|]. lia.
    + split; [|done]. by destruct Hk as [? ->].
  - intros c. destruct c; simpl; try by eexists. done.
Qed.

(** ** Banned peers *)
Lemma step_bans `{Minicbor} b l b' :
  step b l b' -> banned_peers (sub_connection (subs b)) ⊆ banned_peers (sub_connection (subs b')).
Proof.
  destruct 1 as [order versions e b b' Hs|order versions c b b' Hs|l1 o l2 b Hq]; [|by apply execute_accounts in Hs as []|done].
  destruct e; simpl in Hs.
  - revert Hs. unfold on_connected. rewrite visit_connected_eq.
    destruct (connection_connected _ _ _) as [[c out]|] eqn:E; simpl; [|done]. intros [= <-]. simpl.
    destruct (decide (pid ∈ banned_peers (sub_connection (subs b)))) as [Hb|Hb].
    + revert E. unfold connection_connected. rewrite bool_decide_eq_true_2 by done. by intros [= <- _].
    + apply connection_connected_spec in E as (_ & -> & _); done.
  - revert Hs. unfold on_disconnected, and_modify.
    destruct (peers b !! pid); cbv beta zeta; [rewrite visit_disconnected_eq|]; intros [= <-]; [|done].
    simpl. unfold connection_disconnected. by repeat case_match.
  - by apply on_outbound_msg_accounts in Hs as [].
  - by apply on_inbound_msgs_accounts in Hs as [].
  - by apply on_errored_accounts in Hs as [].
  - by apply housekeep_peers_accounts in Hs as [].
Qed.

(** A ban lasts: a banned peer stays banned whatever happens, its connection is
    answered with a disconnection and nothing else, and as long as it is tracked
    every housekeeping tells it to disconnect again. *)
Theorem banned_refused `{Minicbor} b l b' pid :
  step b l b' -> pid ∈ banned_peers (sub_connection (subs b)) ->
  pid ∈ banned_peers (sub_connection (subs b')) /\
  (l = Io (InterfaceEvent.Connected pid) ->
     subs b' = subs b /\ outbound b' = outbound b ++ [OutCommand (Disconnect pid)]) /\
  (l = Io InterfaceEvent.Idle \/ l = Command ResponderCommand.Housekeeping -> is_Some (peers b !! pid) ->
     exists out, outbound b' ≡ₚ outbound b ++ OutCommand (Disconnect pid) :: out).
Proof.
  intros Hs Hb. split; [by apply (step_bans b l b' Hs)|split].
  - intros ->. inversion Hs as [order versions e b1 b2 Hio| |]; subst. revert Hio. simpl. unfold on_connected.
    rewrite visit_connected_eq. unfold connection_connected. rewrite bool_decide_eq_true_2 by done. simpl.
    intros [= <-]. simpl. split; [|done]. by destruct (subs b).
  - intros Hl [s Hp].
    assert (exists (order : HashOrder) (versions : VersionOrder), housekeeping b = Some b') as (order & versions & Hk).
    { inversion Hs; subst; naive_solver. }
    destruct (housekeeping_spec b) as (b1 & Hk' & _ & _ & Ho). rewrite Hk in Hk'. injection Hk' as <-.
    assert ((pid, s) ∈ map_to_list (peers b)) as [l1 [l2 Hl2]]%list_elem_of_split by (by apply elem_of_map_to_list).
    rewrite Hl2, fmap_app, concat_app in Ho. cbn [fmap list_fmap concat fst snd] in Ho.
    unfold upkeep at 2 in Ho. rewrite bool_decide_eq_true_2 in Ho by done. simpl in Ho.
    eexists. rewrite Ho. f_equiv. symmetry. apply Permutation_middle.
Qed.

(** ** Witnesses

    A responder with one client, and the runs that lead to a client that is not
    banned and to one that is. *)
Definition client : PeerId := {| host := "relay"; port := 3001 |}.

Definition fresh : ResponderBehavior := responder default_connection_config default_handshake default_txsubmission.

Definition serving (s : ResponderState) : ResponderBehavior :=
  {| subs := subs fresh; peers := {[client := s]}; outbound := [] |}.

Definition shaken : ResponderState := set_connection ConnectionState.Initialized new.

Definition two_requests : list AnyMessage.t :=
  [AnyMessage.KeepAlive (keepalive.Message.KeepAlive 7); AnyMessage.PeerSharing (peersharing.Message.ShareRequest 3)].

Lemma requests_answered_witness :
  is_initialized shaken = true /\
  exists b', handle_io (H := elements_versions) (H0 := rfc8949) (H1 := elements_order)
    (InterfaceEvent.Recv client two_requests) (serving shaken) = Some b' /\
    outbound b' = [OutCommand (Send client (AnyMessage.KeepAlive (keepalive.Message.ResponseKeepAlive 7)));
                   OutEvent (PeersRequested client 3)].
Proof.
  split; [reflexivity|].
  destruct (requests_answered (H := rfc8949) (H0 := elements_order) (H1 := elements_versions)
    client shaken two_requests (serving shaken)) as (b' & E & _ & _ & Ho); [reflexivity|reflexivity|by repeat constructor|].
  exists b'. split; [exact E|exact Ho].
Defined.

Definition fetching : ResponderState :=
  set_blockfetch (blockfetch.State.Busy (Point.Origin, Point.Origin)) shaken.

Lemma blocks_provided_witness :
  exists b1, execute (H := elements_versions) (H0 := elements_order)
      (ResponderCommand.ProvideBlocks client [text_bytes "block"]) (serving fetching) = Some b1 /\
    length (outbound b1) = 3%nat.
Proof.
  destruct (blocks_provided (H := rfc8949) (H0 := elements_order) (H1 := elements_versions)
    client fetching (Point.Origin, Point.Origin) [text_bytes "block"] (serving fetching)) as (b1 & E & Ho & _);
    [reflexivity..|]. exists b1. split; [exact E|]. rewrite Ho. reflexivity.
Defined.

Lemma responder_panics_exactly_witness :
  runs (H := rfc8949) (fun _ _ => True) fresh fresh /\
  (forall e, handle_io (H := elements_versions) (H0 := rfc8949) (H1 := elements_order) e fresh = None <-> io_panics e fresh).
Proof.
  split; [apply runs_start|].
  apply (responder_panics_exactly (H := rfc8949) (H0 := elements_order) (H1 := elements_versions)
    default_connection_config default_handshake default_txsubmission fresh). apply runs_start.
Defined.

Definition closed : ResponderBehavior := Responder.ban_peer client fresh.

Lemma banned_refused_witness :
  exists b', step (H := rfc8949) closed (Io (InterfaceEvent.Connected client)) b' /\
    client ∈ banned_peers (sub_connection (subs b')) /\
    outbound b' = [OutCommand (Disconnect client); OutCommand (Disconnect client)].
Proof.
  assert (client ∈ banned_peers (sub_connection (subs closed))) as Hb by (simpl; set_solver).
  assert (exists b', step (H := rfc8949) closed (Io (InterfaceEvent.Connected client)) b') as [b' Hs].
  { eexists. apply (step_io elements_order elements_versions). reflexivity. }
  exists b'. destruct (banned_refused (H := rfc8949) closed (Io (InterfaceEvent.Connected client)) b' client Hs Hb)
    as (Hb' & Ho & _). split; [exact Hs|]. split; [exact Hb'|]. destruct (Ho eq_refl) as [_ ->]. reflexivity.
Defined.
