(* ===== verification/Accounts.v ===== *)
(** * Counting

    How often the responder asks for transactions, and the number of connections
    counted per host against the peers that are tracked. *)
From S2P Require Import Prelude Cbor Rfc8949 Protocol Chainsync Blockfetch.
From S2P Require Import Keepalive Txsubmission Peersharing Handshake.
From S2P Require Import HandshakeVersions LeiosProtocols Network AnyMessage Unsent.
From S2P Require Import Discovery ResponderState Responders Responder ResponderInv.
From S2P Require Import ResponderProps.
(** Whether an output sends a tx-submission message to [pid]. *)
Definition tx_send (pid : PeerId) (o : Output) : bool :=
  match o with
  | OutCommand (Send q (AnyMessage.TxSubmission _)) => bool_decide (q = pid)
  | _ => false
  end.

Definition tx_sends (pid : PeerId) (out : Outbound) : nat := length (filter (fun o => tx_send pid o = true) out).

Lemma tx_sends_app pid out1 out2 : tx_sends pid (out1 ++ out2) = (tx_sends pid out1 + tx_sends pid out2)%nat.
Proof. unfold tx_sends. by rewrite list.filter_app, length_app. Qed.

Lemma tx_sends_push pid out o :
  tx_sends pid (push_ready out o) = (tx_sends pid out + if tx_send pid o then 1 else 0)%nat.
Proof.
  unfold push_ready. rewrite tx_sends_app. unfold tx_sends at 2. rewrite filter_cons, filter_nil.
  by destruct (tx_send pid o).
Qed.

Lemma tx_sends_one pid o : tx_sends pid [o] = if tx_send pid o then 1%nat else 0%nat.
Proof. exact (tx_sends_push pid [] o). Qed.

(** Outputs that send no tx-submission message. *)
Definition no_tx (out : Outbound) : Prop := Forall (fun o => forall pid, tx_send pid o = false) out.

Lemma no_tx_sends out pid : no_tx out -> tx_sends pid out = 0%nat.
Proof.
  induction 1 as [|o out Ho _ IH]; [done|]. unfold tx_sends in *. by rewrite filter_cons, Ho.
Qed.

(** The protocol has been past the state in which the responder asks. *)
Definition past (st : txsubmission.State.t) : Prop :=
  st <> txsubmission.State.Init /\ st <> txsubmission.State.Idle.

Definition pending (s : ResponderState) : Prop := is_Some (by_channel (unsent s) !! txsubmission.CHANNEL_ID).

(** The state of a peer that was sent [n] requests since it connected. *)
Record tx_state (n : nat) (s : ResponderState) : Prop := {
  tx_pending : pending s -> tx_submission s <> txsubmission.State.Init;
  tx_once : n = 0%nat \/ n = 1%nat /\ (pending s \/ past (tx_submission s))
}.

Lemma apply_past st m st' : st <> txsubmission.State.Init -> txsubmission.apply st m = Ok st' -> past st'.
Proof. intros ?. unfold past. destruct st, m; intros [= <-]; done. Qed.

Lemma apply_not_init st m st' : txsubmission.apply st m = Ok st' -> st' <> txsubmission.State.Init.
Proof. destruct st, m; by intros [= <-]. Qed.

Lemma apply_tx s m :
  tx_submission (apply_msg s m) = tx_submission s \/
  exists m', m = AnyMessage.TxSubmission m' /\
    txsubmission.apply (tx_submission s) m' = Ok (tx_submission (apply_msg s m)).
Proof.
  destruct m as [m|m|m|m|m|m|m|m]; cbn [apply_msg]; unfold store;
    try (left; by case_match).
  destruct (txsubmission.apply (tx_submission s) m) eqn:E; [right; by exists m|by left].
Qed.

Lemma apply_tx_state n s m : tx_state n s -> tx_state n (apply_msg s m).
Proof.
  intros [Hp Ho]. destruct (responder_apply_frame s m) as (_ & _ & Hu).
  unfold pending in *. split; unfold pending; rewrite Hu.
  - intros Hs. destruct (apply_tx s m) as [->|(m' & _ & Ha)]; [auto|by eapply apply_not_init].
  - destruct Ho as [->|[-> [Hs|Hs]]]; [by left|right; auto..]. split; [done|]. right.
    destruct (apply_tx s m) as [->|(m' & _ & Ha)]; [done|]. destruct Hs. by eapply apply_past.
Qed.

(** Another field may change. *)
Lemma tx_state_same n s s' :
  tx_submission s' = tx_submission s -> unsent s' = unsent s -> tx_state n s -> tx_state n s'.
Proof. intros Ht Hu [Hp Ho]. split; unfold pending in *; by rewrite Ht, ?Hu. Qed.

(** A request that is reported as sent leaves the protocol past asking. *)
Lemma sent_tx_state `{Minicbor} n s m s1 :
  clear_unsent s m = Some s1 -> tx_state n s -> tx_state n (apply_msg s1 m).
Proof.
  unfold clear_unsent. destruct (unsent_contains (unsent s) m) as [c|]; simpl; [|done].
  destruct (c && can_apply s m) eqn:E; intros [= <-] Hs; [|by apply apply_tx_state].
  apply andb_true_iff in E as [_ Hc]. destruct m as [| | | | |m| |]; try done. simpl in Hc.
  destruct (txsubmission.apply (tx_submission s) m) as [st|] eqn:Ha; [|done].
  destruct Hs as [Hp Ho]. cbn [apply_msg set_unsent tx_submission]. rewrite Ha.
  split; unfold pending; simpl; rewrite lookup_delete_eq; [by intros [? [=]]|].
  destruct Ho as [->|[-> Ho]]; [by left|right]. split; [done|right].
  apply apply_past in Ha; [done|]. destruct Ho as [Ho|[? _]]; auto.
Qed.

Lemma asked_tx_state n v s :
  tx_state n s -> tx_state (n + if asks s then 1 else 0) (asked v s).
Proof.
  intros Hs. unfold asked. destruct (asks s) eqn:Ha; [|by rewrite Nat.add_0_r].
  unfold asks in Ha. apply andb_true_iff in Ha as [[_ Hi%bool_decide_eq_true_1]%andb_true_iff Hu%bool_decide_eq_true_1].
  destruct Hs as [Hp [->|[-> [Hs|[_ Hs]]]]].
  - split; unfold pending; simpl; [by rewrite Hi|]. right. split; [done|left]. by rewrite lookup_insert_eq.
  - unfold pending in Hs. rewrite Hu in Hs. by destruct Hs.
  - done.
Qed.

(** ** Runs, with the number of messages sent to a peer since it last connected *)
Definition connects (pid : PeerId) (l : label) : bool :=
  match l with Io (InterfaceEvent.Connected q) => bool_decide (q = pid) | _ => false end.

Inductive tx_run `{Minicbor} (pid : PeerId) (start : ResponderBehavior) : nat -> ResponderBehavior -> Prop :=
| tx_run_start : tx_run pid start 0 start
| tx_run_step n b l b' :
    tx_run pid start n b -> step b l b' -> (forall o, l <> Polled o) ->
    tx_run pid start ((if connects pid l then 0 else n) +
                      (tx_sends pid (outbound b') - tx_sends pid (outbound b))) b'
| tx_run_polled n b o b' :
    tx_run pid start n b -> step b (Polled o) b' -> tx_run pid start n b'.

(** What a step that pushes [out] makes of the count. *)
Definition tx_inv (pid : PeerId) (n : nat) (b : ResponderBehavior) : Prop :=
  (n <= 1)%nat /\ forall s, peers b !! pid = Some s -> tx_state n s.

(** [b'] is [b] after a step that leaves the count alone. *)
Record tx_quiet (pid : PeerId) (b b' : ResponderBehavior) : Prop := {
  quiet_out : exists out, outbound b' = outbound b ++ out /\ no_tx out;
  quiet_state n s' :
    peers b' !! pid = Some s' -> exists s, peers b !! pid = Some s /\ (tx_state n s -> tx_state n s')
}.

Lemma tx_quiet_refl pid b : tx_quiet pid b b.
Proof. split; [exists []; rewrite app_nil_r; by split; [|constructor]|eauto]. Qed.

Lemma tx_quiet_trans pid b1 b2 b3 : tx_quiet pid b1 b2 -> tx_quiet pid b2 b3 -> tx_quiet pid b1 b3.
Proof.
  intros [(o1 & E1 & H1) S1] [(o2 & E2 & H2) S2]. split.
  - exists (o1 ++ o2). rewrite E2, E1, app_assoc. split; [done|]. by apply Forall_app.
  - intros n s3 H3. destruct (S2 n s3 H3) as (s2 & Hs2 & ?). destruct (S1 n s2 Hs2) as (s1 & ? & ?). eauto.
Qed.

Lemma tx_quiet_sends pid b b' : tx_quiet pid b b' -> tx_sends pid (outbound b') = tx_sends pid (outbound b).
Proof. intros [(o & -> & Ho) _]. rewrite tx_sends_app, (no_tx_sends _ _ Ho). lia. Qed.

Lemma tx_quiet_inv pid n b b' : tx_quiet pid b b' -> tx_inv pid n b -> tx_inv pid n b'.
Proof.
  intros [_ Hq] [Hn Hs]. split; [done|]. intros s' Hs'. destruct (Hq n s' Hs') as (s & ? & ?). auto.
Qed.

Lemma and_modify_quiet q f pid b b' :
  (forall s v' s' out', f (subs b) s (outbound b) = Some (v', s', out') ->
    (exists out, out' = outbound b ++ out /\ no_tx out) /\ forall n, tx_state n s -> tx_state n s') ->
  and_modify q f b = Some b' -> tx_quiet pid b b'.
Proof.
  intros Hf. unfold and_modify. destruct (peers b !! q) as [s|] eqn:Es; [|intros [= <-]; apply tx_quiet_refl].
  destruct (f (subs b) s (outbound b)) as [[[v' s'] out']|] eqn:E; simpl; [|done].
  intros [= <-]. apply Hf in E as [Ho Hs]. split; simpl; [done|].
  intros n x. destruct (decide (pid = q)) as [->|Hne].
  - rewrite lookup_insert_eq. intros [= <-]. eauto.
  - rewrite lookup_insert_ne by done. eauto.
Qed.

Lemma push_no_tx out o : (forall pid, tx_send pid o = false) -> exists out', push_ready out o = out ++ out' /\ no_tx out'.
Proof. intros Ho. exists [o]. split; [done|]. by constructor. Qed.

Lemma nothing_no_tx (out : Outbound) : exists out', out = out ++ out' /\ no_tx out'.
Proof. exists []. rewrite app_nil_r. split; [done|constructor]. Qed.

Section events.
Context `{VersionOrder} (pid : PeerId).

(** Answering a message sends no tx-submission message. *)
Lemma owner_no_tx v m q s out :
  exists out', (owner_outputs v m q s out).2 = out ++ out' /\ no_tx out'.
Proof.
  destruct m; simpl; unfold try_accept_handshake, try_respond, chainsync_check, blockfetch_check,
    peersharing_check, leiosnotify_check, leiosfetch_check, try_extract_txs;
    repeat case_match; simpl; try apply nothing_no_tx; try (by apply push_no_tx).
  - eexists. unfold push_ready. rewrite <- app_assoc. split; [done|]. by repeat constructor.
  - rewrite (foldl_push (fun tx => OutEvent (TxReceived q tx))). eexists. split; [done|].
    apply Forall_fmap, Forall_true. done.
Qed.

Lemma on_inbound_quiet q m b b' : on_inbound_msg q m b = Some b' -> tx_quiet pid b b'.
Proof.
  apply and_modify_quiet. intros s v' s' out'. cbv beta zeta.
  destruct (violation (apply_msg s m)).
  - intros [= _ <- <-]. split; [apply nothing_no_tx|]. intros n. apply apply_tx_state.
  - rewrite visit_owner_eq. pose proof (owner_no_tx (subs b) m q (apply_msg s m) (outbound b)) as Ho.
    assert (tx_submission (owner_outputs (subs b) m q (apply_msg s m) (outbound b)).1 = tx_submission (apply_msg s m)) as Ht.
    { destruct m; simpl; try done. unfold try_accept_handshake. by repeat case_match. }
    destruct (owner_frame (subs b) m q (apply_msg s m) (outbound b)) as [_ Hu].
    destruct (owner_outputs _ _ _ _ _) as [s1 out1]; simpl in *. intros [= _ <- <-]. split; [done|].
    intros n Hs. apply (tx_state_same n (apply_msg s m)); [done|done|]. by apply apply_tx_state.
Qed.

Lemma on_inbounds_quiet q ms b b' : on_inbound_msgs q ms b = Some b' -> tx_quiet pid b b'.
Proof.
  revert b; induction ms as [|m ms IH]; intros b; simpl; [intros [= <-]; apply tx_quiet_refl|].
  destruct (on_inbound_msg q m b) as [b1|] eqn:E; simpl; [|done].
  intros Hb. eapply tx_quiet_trans; [by eapply on_inbound_quiet|by apply IH].
Qed.

Lemma on_outbound_quiet `{Minicbor} q m b b' : on_outbound_msg q m b = Some b' -> tx_quiet pid b b'.
Proof.
  apply and_modify_quiet. intros s v' s' out'. cbv beta zeta.
  destruct (clear_unsent s m) as [s1|] eqn:E; cbn [mbind option_bind]; [|done].
  rewrite visit_outbound_eq. intros Hs. replace s' with (apply_msg s1 m) by (case_match; congruence).
  replace out' with (outbound b) by (case_match; congruence). split; [apply nothing_no_tx|].
  intros n. by eapply sent_tx_state.
Qed.

Lemma on_errored_quiet q b b' : on_errored q b = Some b' -> tx_quiet pid b b'.
Proof.
  apply and_modify_quiet. intros s v' s' out'. cbv beta zeta.
  destruct (checked_add _ _ _); cbn [mbind option_bind]; [|done].
  rewrite visit_errored_eq. intros [= _ <- <-]. split; [|intros n; by apply tx_state_same].
  case_match; [by apply push_no_tx|apply nothing_no_tx].
Qed.

Lemma on_disconnected_quiet q b b' : on_disconnected q b = Some b' -> tx_quiet pid b b'.
Proof.
  unfold on_disconnected, and_modify. destruct (peers b !! q) as [s|] eqn:Es; cbv beta zeta;
    [rewrite visit_disconnected_eq|]; intros [= <-]; split; simpl; try by apply push_no_tx.
  - intros n s'. rewrite delete_insert_eq. intros [_ ?]%lookup_delete_Some. eauto.
  - intros n s' [_ ?]%lookup_delete_Some. eauto.
Qed.

(** Commands other than housekeeping. *)
Lemma execute_quiet `{HashOrder} c b b' :
  c <> ResponderCommand.Housekeeping -> execute c b = Some b' -> tx_quiet pid b b'.
Proof.
  intros Hc. destruct c; simpl; try done;
    try (intros [= <-]; split; simpl; [by apply push_no_tx|by eauto]).
  intros [= <-]. unfold provide_blocks. rewrite foldl_sends. split; simpl; [|by eauto].
  unfold push_ready. eexists. rewrite <- !app_assoc. split; [done|].
  apply Forall_app; split; [by repeat constructor|]. apply Forall_app; split; [|by repeat constructor].
  apply Forall_fmap, Forall_true. done.
Qed.
End events.

(** ** Housekeeping and new connections *)
Section counted.
Context `{VersionOrder} (pid : PeerId).

Lemma upkeep_sends v q s : tx_sends pid (upkeep v q s) = if decide (q = pid) then if asks s then 1%nat else 0%nat else 0%nat.
Proof.
  unfold upkeep. rewrite tx_sends_app.
  replace (tx_sends pid (if (_ : bool) then [OutCommand (Disconnect q)] else [])) with 0%nat by (by case_match).
  rewrite Nat.add_0_l. destruct (asks s); [|by case_decide]. rewrite tx_sends_one.
  simpl. by rewrite bool_decide_decide; destruct (decide (q = pid)).
Qed.

Lemma upkeeps_sends order b :
  NoDup order ->
  tx_sends pid (concat (upkeep_of b <$> order)) =
    if decide (pid ∈ order) then
      match peers b !! pid with Some s => if asks s then 1%nat else 0%nat | None => 0%nat end
    else 0%nat.
Proof.
  induction 1 as [|q order Hq Hnd IH]; [done|]. rewrite fmap_cons, concat_cons, tx_sends_app, IH.
  unfold upkeep_of. destruct (decide (pid = q)) as [<-|Hne].
  - rewrite decide_False, decide_True by set_solver. destruct (peers b !! pid); [|done].
    rewrite upkeep_sends, decide_True by done. lia.
  - replace (tx_sends pid (match peers b !! q with Some s => upkeep (subs b) q s | None => [] end)) with 0%nat;
      [do 2 (case_decide; try set_solver)|].
    destruct (peers b !! q); [|done]. by rewrite upkeep_sends, decide_False.
Qed.

Lemma housekeeping_counted `{HashOrder} n b b' :
  housekeeping b = Some b' -> tx_inv pid n b ->
  tx_inv pid (n + (tx_sends pid (outbound b') - tx_sends pid (outbound b))) b'.
Proof.
  unfold housekeeping. set (order := peers_order _).
  assert (NoDup order) as Hnd by apply NoDup_peers_order.
  destruct (housekeep_peers_upkeep order b Hnd) as (b1 & -> & Hp & _ & Ho).
  intros [= <-] [Hn Hs]. rewrite Ho, tx_sends_app, (upkeeps_sends order b Hnd).
  match goal with |- tx_inv _ (_ + (?a + ?x - ?a)) _ => replace (a + x - a)%nat with x by lia end.
  specialize (Hp pid).
  destruct (peers b !! pid) as [s|] eqn:Es; simpl in Hp.
  - assert (pid ∈ order) as Hin by (apply elem_of_peers_order; by eapply elem_of_dom_2).
    rewrite decide_True in Hp by done. rewrite decide_True by done.
    pose proof (asked_tx_state n (sub_txsubmission (subs b)) s (Hs s eq_refl)) as Ha.
    split; [|intros s' Hs'; rewrite Hp in Hs'; by injection Hs' as <-].
    destruct (tx_once _ _ Ha) as [|[? _]]; lia.
  - split; [case_decide; simpl; lia|]. intros s' Hs'. by rewrite Hp in Hs'.
Qed.

Lemma on_connected_counted q n b b' :
  on_connected q b = Some b' -> tx_inv pid n b ->
  tx_inv pid ((if bool_decide (q = pid) then 0 else n) +
              (tx_sends pid (outbound b') - tx_sends pid (outbound b))) b'.
Proof.
  unfold on_connected. rewrite visit_connected_eq.
  destruct (connection_connected q _ (outbound b)) as [[c out]|] eqn:E; simpl; [|done].
  intros [= <-] [Hn Hs]. simpl. replace (tx_sends pid out) with (tx_sends pid (outbound b)).
  - rewrite Nat.sub_diag, Nat.add_0_r. split; [case_bool_decide; lia|]. intros s'. simpl.
    case_bool_decide as Hq; [subst q; rewrite lookup_insert_eq|rewrite lookup_insert_ne by done; apply Hs].
    intros [= <-]. split; [by intros [? ?]|by left].
  - revert E. unfold connection_connected, push_disconnect. intros E.
    assert (out = outbound b \/ out = push_ready (outbound b) (OutCommand (Disconnect q))) as [-> | ->].
    { revert E. case_bool_decide; [intros [= _ <-]; by right|].
      destruct (checked_add _ _ _); simpl; [|done]. destruct (_ <? _); [intros [= _ <-]; by right|].
      case_bool_decide; [intros [= _ <-]; by left|].
      destruct (checked_add _ _ _); simpl; [intros [= _ <-]; by left|done]. }
    + done.
    + rewrite tx_sends_push. simpl. lia.
Qed.
End counted.

(** Whatever peers and application do, the responder sends a peer at most one
    tx-submission message per connection, the request for transaction ids: its
    state machine never returns to the state in which it would ask again or ask
    for a transaction. *)
Theorem one_tx_request_per_connection `{Minicbor} config versions txs pid n b :
  tx_run pid (responder config versions txs) n b -> (n <= 1)%nat.
Proof.
  intros Hr. assert (tx_inv pid n b) as [? _]; [|done].
  induction Hr as [|n b l b' _ IH Hs Hl|n b o b' _ IH Hs].
  - split; [lia|]. intros s. simpl. by rewrite lookup_empty.
  - destruct Hs as [order vs e b b' Hs|order vs c b b' Hs|]; [| |by destruct (Hl o)].
    + destruct e as [q|q|q m|q ms|q err|]; simpl in *;
        [by apply on_connected_counted| | | | |by eapply housekeeping_counted].
      all: assert (tx_quiet pid b b') as Hq by
        eauto using on_disconnected_quiet, on_outbound_quiet, on_inbounds_quiet, on_errored_quiet.
      all: rewrite (tx_quiet_sends _ _ _ Hq), Nat.sub_diag, Nat.add_0_r; by eapply tx_quiet_inv.
    + simpl. assert (c = ResponderCommand.Housekeeping \/ c <> ResponderCommand.Housekeeping) as [->|Hc]
        by (destruct c; auto); [by eapply housekeeping_counted|].
      pose proof (execute_quiet pid c b b' Hc Hs) as Hq.
      rewrite (tx_quiet_sends _ _ _ Hq), Nat.sub_diag, Nat.add_0_r; by eapply tx_quiet_inv.
  - inversion Hs; subst. exact IH.
Qed.

(** ** Witness: a client that shakes hands, starts the protocol and is asked once *)
Definition greetings : list AnyMessage.t :=
  [AnyMessage.Handshake (handshake.Message.Propose (supported_version default_handshake));
   AnyMessage.TxSubmission txsubmission.Message.Init].

Definition then_io (e : InterfaceEvent.t AnyMessage.t) (b : ResponderBehavior) : ResponderBehavior :=
  default b (handle_io (H := elements_versions) (H0 := rfc8949) (H1 := elements_order) e b).

Definition connected : ResponderBehavior := then_io (InterfaceEvent.Connected client) fresh.
Definition greeted : ResponderBehavior := then_io (InterfaceEvent.Recv client greetings) connected.
Definition asked_once : ResponderBehavior := then_io InterfaceEvent.Idle greeted.

Lemma one_tx_request_run : tx_run (H := rfc8949) client fresh 1 asked_once.
Proof.
  assert (tx_run (H := rfc8949) client fresh 0 connected) as H1.
  { refine (tx_run_step client fresh 0 fresh (Io (InterfaceEvent.Connected client)) connected _ _ _);
      [apply tx_run_start|apply (step_io elements_order elements_versions); by vm_compute|done]. }
  assert (tx_run (H := rfc8949) client fresh 0 greeted) as H2.
  { refine (tx_run_step client fresh 0 connected (Io (InterfaceEvent.Recv client greetings)) greeted H1 _ _);
      [apply (step_io elements_order elements_versions); by vm_compute|done]. }
  refine (tx_run_step client fresh 0 greeted (Io InterfaceEvent.Idle) asked_once H2 _ _);
    [apply (step_io elements_order elements_versions); by vm_compute|done].
Qed.

Lemma one_tx_request_per_connection_witness :
  tx_run (H := rfc8949) client fresh 1 asked_once /\ (1 <= 1)%nat.
Proof.
  split; [apply one_tx_request_run|].
  exact (one_tx_request_per_connection (H := rfc8949) default_connection_config default_handshake
    default_txsubmission client 1 asked_once one_tx_request_run).
Defined.

Definition at_host (h : string) (x : gset PeerId) : gset PeerId := filter (fun p => host p = h) x.

Definition count (h : string) (x : gset PeerId) : Z := Z.of_nat (size (at_host h x)).

Lemma count_add h x pid :
  pid ∉ x -> count h ({[pid]} ∪ x) = count h x + if decide (host pid = h) then 1 else 0.
Proof.
  intros Hp. unfold count, at_host. destruct (decide (host pid = h)) as [E|E].
  - replace (filter _ ({[pid]} ∪ x)) with ({[pid]} ∪ filter (fun p => host p = h) x) by set_solver.
    rewrite size_union, size_singleton by set_solver. lia.
  - replace (filter _ ({[pid]} ∪ x)) with (filter (fun p => host p = h) x) by set_solver. lia.
Qed.

Lemma count_remove h x pid :
  pid ∈ x -> count h (x ∖ {[pid]}) = count h x - if decide (host pid = h) then 1 else 0.
Proof.
  intros Hp. rewrite (union_difference_L {[pid]} x) at 2 by set_solver.
  rewrite count_add by set_solver. lia.
Qed.

Lemma count_empty h : count h ∅ = 0.
Proof. unfold count, at_host. by replace (filter _ ∅) with (∅ : gset PeerId) by set_solver. Qed.

Lemma count_nonneg h x : 0 <= count h x.
Proof. unfold count. lia. Qed.

Lemma count_pos h x pid : pid ∈ x -> host pid = h -> 0 < count h x.
Proof.
  intros Hp Hh. unfold count, at_host. assert (0 < size (filter (fun p => host p = h) x))%nat; [|lia].
  destruct (size _) eqn:E; [|lia]. apply size_empty_inv in E. set_solver.
Qed.

Lemma count_subset h x y : x ⊆ y -> count h x <= count h y.
Proof. intros Hs. unfold count, at_host. apply inj_le, subseteq_size. set_solver. Qed.

(** The number a host is counted with, and what [HashMap] keeps of it. *)
Definition as_entry (n : Z) : option Z := if n =? 0 then None else Some n.

(** The accounts agree with the peers that are tracked. *)
Record accounted (b : ResponderBehavior) : Prop := {
  acc_per_ip h :
    connections_per_ip (sub_connection (subs b)) !! h = as_entry (count h (dom (peers b)));
  acc_tracked : accepted_peers (sub_connection (subs b)) ⊆ dom (peers b);
  acc_active :
    active_peers (sub_connection (subs b)) = Z.of_nat (size (accepted_peers (sub_connection (subs b))));
  acc_limit h :
    count h (accepted_peers (sub_connection (subs b))) <=
    Z.max 0 (max_connections_per_ip (connection_config (sub_connection (subs b))))
}.

(** The interface connects a peer only when it is not connected, and the peer is not
    banned. *)
Definition orderly (b : ResponderBehavior) (l : label) : Prop :=
  match l with
  | Io (InterfaceEvent.Connected pid) =>
      pid ∉ dom (peers b) /\ pid ∉ banned_peers (sub_connection (subs b))
  | _ => True
  end.

Lemma same_accounts_accounted b b' : same_accounts b b' -> accounted b -> accounted b'.
Proof.
  intros [Hd Hc Hp Ha Hn _ _] [H1 H2 H3 H4]. split; rewrite ?Hd, ?Hc, ?Hp, ?Ha, ?Hn; auto.
Qed.

Lemma accounted_start config versions txs : accounted (responder config versions txs).
Proof.
  split; simpl; try done; intros h; rewrite ?dom_empty_L, count_empty; first [done | lia].
Qed.

Section steps.
Context `{VersionOrder}.

Lemma on_connected_accounted pid b b' :
  pid ∉ dom (peers b) -> pid ∉ banned_peers (sub_connection (subs b)) ->
  on_connected pid b = Some b' -> accounted b -> accounted b'.
Proof.
  intros Hd Hb. unfold on_connected. rewrite visit_connected_eq.
  destruct (connection_connected _ _ _) as [[c out]|] eqn:E; simpl; [|done].
  intros [= <-] [H1 H2 H3 H4]. apply connection_connected_spec in E as (Hcf & _ & Hp & Hif); [|done].
  assert (default 0 (connections_per_ip (sub_connection (subs b)) !! host pid) = count (host pid) (dom (peers b))) as Hn.
  { rewrite H1. unfold as_entry. destruct (Z.eqb_spec (count (host pid) (dom (peers b))) 0); simpl; lia. }
  rewrite Hn in *. split; simpl.
  - clear Hif. intros h. rewrite Hp, dom_insert_L, count_add by done. case_decide as E.
    + rewrite E, lookup_insert_eq. unfold as_entry. pose proof (count_nonneg h (dom (peers b))).
      by rewrite (proj2 (Z.eqb_neq _ 0)) by lia.
    + rewrite lookup_insert_ne, Z.add_0_r by done. apply H1.
  - rewrite dom_insert_L. case_decide; destruct Hif as [-> _]; set_solver.
  - case_decide; destruct Hif as (-> & Hif & Hact); [|by rewrite Hif].
    rewrite Hact, H3, size_union, size_singleton by set_solver. lia.
  - intros h. rewrite Hcf. case_decide as Hle; destruct Hif as [-> _]; [|by apply H4].
    rewrite count_add by set_solver. specialize (H4 h). case_decide as E; [|lia]. subst h.
    pose proof (count_subset (host pid) _ _ H2). lia.
Qed.

Lemma on_disconnected_accounted pid b b' :
  on_disconnected pid b = Some b' -> accounted b -> accounted b'.
Proof.
  unfold on_disconnected, and_modify. destruct (peers b !! pid) as [s|] eqn:Es; cbv beta zeta.
  2:{ simpl. intros [= <-] [H1 H2 H3 H4]. split; simpl; try done; rewrite ?delete_id by done; done. }
  rewrite visit_disconnected_eq. simpl. intros [= <-] [H1 H2 H3 H4].
  apply elem_of_dom_2 in Es as Hd.
  assert (dom (delete pid (<[pid:=reset (set_connection ConnectionState.Disconnected s)]> (peers b))) =
    dom (peers b) ∖ {[pid]}) as Hdom by (rewrite dom_delete_L, dom_insert_L; set_solver).
  pose proof (count_pos (host pid) _ pid Hd eq_refl) as Hpos.
  unfold connection_disconnected. rewrite H1. unfold as_entry.
  rewrite (proj2 (Z.eqb_neq (count (host pid) (dom (peers b))) 0)) by lia.
  set (c := set_per_ip _ _).
  assert (forall h, connections_per_ip c !! h = as_entry (count h (dom (peers b) ∖ {[pid]}))) as Hc.
  { intros h. unfold c, saturating_pred. simpl. rewrite (proj2 (Z.leb_gt _ 0)) by lia.
    rewrite count_remove by done. unfold as_entry. case_decide as E.
    - rewrite <- E. destruct (Z.eqb_spec (count (host pid) (dom (peers b)) - 1) 0).
      + apply lookup_delete_eq.
      + apply lookup_insert_eq.
    - rewrite Z.sub_0_r. destruct (Z.eqb_spec (count (host pid) (dom (peers b)) - 1) 0).
      + rewrite lookup_delete_ne, lookup_insert_ne by done. apply H1.
      + rewrite lookup_insert_ne by done. apply H1. }
  case_bool_decide as Ha; split; simpl; rewrite ?Hdom; try done.
  - set_solver.
  - rewrite H3. unfold saturating_pred.
    rewrite size_difference, size_singleton by set_solver.
    assert (size (accepted_peers (sub_connection (subs b))) <> 0%nat) by (intros ?%size_empty_inv; set_solver).
    destruct (Z.leb_spec (Z.of_nat (size (accepted_peers (sub_connection (subs b))))) 0); lia.
  - intros h. rewrite count_remove by done. specialize (H4 h). case_decide; lia.
  - set_solver.
Qed.
End steps.

Lemma step_accounted `{Minicbor} b l b' : orderly b l -> step b l b' -> accounted b -> accounted b'.
Proof.
  intros Ho Hs. destruct Hs as [order versions e b b' Hs|order versions c b b' Hs|l1 o l2 b Hq].
  - destruct e; simpl in *.
    + destruct Ho. by eapply on_connected_accounted.
    + by eapply on_disconnected_accounted.
    + by apply same_accounts_accounted, (on_outbound_msg_accounts _ _ _ _ Hs).
    + by apply same_accounts_accounted, (on_inbound_msgs_accounts _ _ _ _ Hs).
    + by apply same_accounts_accounted, (on_errored_accounts _ _ _ Hs).
    + by apply same_accounts_accounted, (housekeep_peers_accounts _ _ _ Hs).
  - by apply same_accounts_accounted, (execute_accounts _ _ _ Hs).
  - by apply same_accounts_accounted.
Qed.

(** C18: As long as no connected and no banned peer connects, the responder's
    accounts are exact: each host is counted with the number of its peers that
    are tracked (and forgotten when that is zero), the active peers are the
    accepted ones, and no host has more accepted peers than configured. *)
Theorem connections_accounted `{Minicbor} config versions txs b :
  runs orderly (responder config versions txs) b -> accounted b.
Proof.
  induction 1 as [|b l b' _ IH Ho Hs]; [apply accounted_start|]. by eapply step_accounted.
Qed.

(** ** A banned peer that keeps connecting *)
Section bypass.
Context `{VersionOrder} (h : string).

Definition guest (port : Z) : PeerId := {| host := h; port := port |}.

(** The peers with the ports 1 to [k]. *)
Definition guests (k : Z) : gset PeerId := list_to_set (guest <$> seqZ 1 k).

Lemma elem_of_guests k p : p ∈ guests k <-> exists i, p = guest i /\ 1 <= i <= k.
Proof.
  unfold guests. rewrite elem_of_list_to_set, list_elem_of_fmap.
  setoid_rewrite elem_of_seqZ. split; intros (i & -> & Hi); exists i; (split; [done|lia]).
Qed.

Lemma guests_succ k : 0 <= k -> guests (k + 1) = {[guest (k + 1)]} ∪ guests k.
Proof.
  intros Hk. apply set_eq. intros p. rewrite elem_of_union, elem_of_singleton, !elem_of_guests. split.
  - intros (i & -> & Hi). destruct (decide (i = k + 1)) as [->|]; [by left|right]. exists i. split; [done|lia].
  - intros [->|(i & -> & Hi)]; [exists (k + 1)|exists i]; (split; [done|lia]).
Qed.

Lemma guest_fresh k : guest (k + 1) ∉ guests k.
Proof. rewrite elem_of_guests. intros (i & [= Hi] & ?). lia. Qed.

Lemma count_guests k : 0 <= k -> count h (guests k) = k.
Proof.
  intros Hk. pattern k. revert k Hk. apply natlike_ind; [done|]. intros k Hk IH.
  unfold Z.succ. rewrite guests_succ, count_add, IH, decide_True by (done || apply guest_fresh). done.
Qed.

(** The peers [guests k] are accepted while the host is counted with nobody. *)
Record lifted (config : ConnectionResponderConfig) (k : Z) (b : ResponderBehavior) : Prop := {
  lift_config : connection_config (sub_connection (subs b)) = config;
  lift_count : connections_per_ip (sub_connection (subs b)) !! h = None;
  lift_banned : banned_peers (sub_connection (subs b)) = {[guest 0]};
  lift_accepted : accepted_peers (sub_connection (subs b)) = guests k;
  lift_active : active_peers (sub_connection (subs b)) = k;
  lift_tracked : guests k ⊆ dom (peers b)
}.

(** One more guest is accepted, and the banned peer's visit erases its count. *)
Lemma lift_one config k b :
  1 <= max_connections_per_ip config -> 0 <= k < 2 ^ 16 -> lifted config k b ->
  exists b1 b2 b3, on_connected (guest (k + 1)) b = Some b1 /\ on_connected (guest 0) b1 = Some b2 /\
    on_disconnected (guest 0) b2 = Some b3 /\ lifted config (k + 1) b3.
Proof.
  intros Hm Hk [H1 H2 H3 H4 H5 H6].
  assert (guest 0 <> guest (k + 1)) as Hne by (intros [= ?]; lia).
  assert (guest 0 ∉ guests (k + 1)) as H0 by (rewrite elem_of_guests; intros (i & [= <-] & ?); lia).
  pose proof (guest_fresh k) as Hfr.
  unfold on_connected at 1. rewrite visit_connected_eq.
  assert (forall out, connection_connected (guest (k + 1)) (sub_connection (subs b)) out =
    Some (set_accepted ({[guest (k + 1)]} ∪ guests k) (k + 1)
            (set_per_ip (<[h := 1]> (connections_per_ip (sub_connection (subs b)))) (sub_connection (subs b))), out)) as ->.
  { intros out. unfold connection_connected. rewrite bool_decide_eq_false_2 by (rewrite H3; set_solver).
    simpl. rewrite H2. simpl. rewrite H1, H4, H5. rewrite (proj2 (Z.ltb_ge _ _)) by lia.
    rewrite bool_decide_eq_false_2 by done.
    unfold checked_add. rewrite (proj2 (Z.ltb_lt (k + 1) (2 ^ 64))) by lia. done. }
  simpl. eexists _, _, _. split; [done|].
  unfold on_connected. rewrite visit_connected_eq. unfold connection_connected. simpl.
  rewrite bool_decide_eq_true_2 by (rewrite H3; set_solver). simpl. split; [done|].
  unfold on_disconnected, and_modify. cbn [peers]. rewrite lookup_insert_eq, visit_disconnected_eq. simpl.
  split; [done|].
  unfold connection_disconnected. simpl. rewrite lookup_insert_eq.
  rewrite bool_decide_eq_false_2 by (simpl; rewrite <- guests_succ by lia; done). simpl.
  split; simpl; try done.
  - by rewrite lookup_delete_eq.
  - by rewrite guests_succ by lia.
  - rewrite dom_delete_L, !dom_insert_L. intros p Hp. pose proof Hp as Hp'.
    rewrite guests_succ in Hp' by lia. set_solver.
Qed.
End bypass.

(** The limit per host does not survive a banned peer: its connection is refused
    without being counted, but its disconnection is, so a host with one banned
    peer can have any number of peers accepted at the same time, none of them
    banned, whatever the limit. *)
Theorem ban_lifts_host_limit `{Minicbor} config versions txs h n :
  1 <= max_connections_per_ip config -> 0 <= n < 2 ^ 16 ->
  exists b, runs (fun _ _ => True) (responder config versions txs) b /\
    count h (accepted_peers (sub_connection (subs b))) = n /\
    accepted_peers (sub_connection (subs b)) ⊆ dom (peers b) /\
    accepted_peers (sub_connection (subs b)) ## banned_peers (sub_connection (subs b)).
Proof.
  intros Hm Hn.
  assert (exists b, runs (fun _ _ => True) (responder config versions txs) b /\ lifted h config n b)
    as (b & Hr & [H1 H2 H3 H4 H5 H6]).
  { destruct Hn as [Hn0 Hn]. revert Hn. pattern n. revert n Hn0. apply natlike_ind.
    - intros _. eexists. split.
      + eapply runs_step; [apply runs_start|done|]. eapply (step_execute elements_order elements_versions
          (ResponderCommand.BanPeer (guest h 0))). reflexivity.
      + split; simpl; try done. set_solver.
    - intros k Hk IH Hn. destruct (IH ltac:(lia)) as (b & Hr & Hl).
      destruct (lift_one h config k b) as (b1 & b2 & b3 & E1 & E2 & E3 & Hl'); [lia..|done|].
      exists b3. split; [|done].
      eapply runs_step; [|done|apply (step_io elements_order elements_versions (InterfaceEvent.Disconnected _) _ _ E3)].
      eapply runs_step; [|done|apply (step_io elements_order elements_versions (InterfaceEvent.Connected _) _ _ E2)].
      eapply runs_step; [done|done|apply (step_io elements_order elements_versions (InterfaceEvent.Connected _) _ _ E1)]. }
  exists b. rewrite H3, H4. split_and!; [done|apply count_guests; lia|done|].
  intros p (i & -> & Hi)%elem_of_guests [= ?]%elem_of_singleton. lia.
Qed.

(** ** Witnesses *)
Definition host_config : ConnectionResponderConfig := {| max_error_count := 1; max_connections_per_ip := 1 |}.
Definition start : ResponderBehavior := responder host_config default_handshake default_txsubmission.

Lemma connections_accounted_witness :
  exists b, runs (H := rfc8949) orderly start b /\ accounted b /\
    connections_per_ip (sub_connection (subs b)) !! "relay" = Some 2 /\
    accepted_peers (sub_connection (subs b)) = {[guest "relay" 1]} /\ length (outbound b) = 1%nat.
Proof.
  assert (exists b, runs (H := rfc8949) orderly start b /\
    connections_per_ip (sub_connection (subs b)) !! "relay" = Some 2 /\
    accepted_peers (sub_connection (subs b)) = {[guest "relay" 1]} /\ length (outbound b) = 1%nat)
    as (b & Hr & Hb).
  { eexists. split.
    - eapply runs_step; [eapply runs_step; [apply runs_start| |]| |].
      + instantiate (1 := Io (InterfaceEvent.Connected (guest "relay" 1))). simpl. set_solver.
      + eapply (step_io elements_order elements_versions). reflexivity.
      + instantiate (1 := Io (InterfaceEvent.Connected (guest "relay" 2))). split; apply (bool_decide_unpack _); vm_compute; exact I.
      + eapply (step_io elements_order elements_versions). reflexivity.
    - vm_compute. split_and!; reflexivity. }
  exists b. split; [done|]. split; [exact (connections_accounted (H := rfc8949) _ _ _ b Hr)|done].
Defined.

Lemma ban_lifts_host_limit_witness :
  exists b, runs (H := rfc8949) (fun _ _ => True) start b /\
    count "relay" (accepted_peers (sub_connection (subs b))) = 25.
Proof.
  destruct (ban_lifts_host_limit (H := rfc8949) host_config default_handshake default_txsubmission "relay" 25)
    as (b & Hr & Hc & _); [done|done|]. by exists b.
Defined.
