(* ===== verification/Agreement.v ===== *)
(** * The handshake between an initiator and a responder

    The two behaviors put at the two ends of a connection: what the negotiation of
    the version leads to on both sides. *)
From S2P Require Import Prelude Cbor Rfc8949 Protocol Network Chainsync Blockfetch.
From S2P Require Import Keepalive Txsubmission Peersharing Handshake HandshakeVersions.
From S2P Require Import LeiosProtocols AnyMessage Unsent Discovery ResponderState.
From S2P Require Import Responders Responder ResponderInv ResponderProps InitiatorState.
From S2P Require Import Promotion Connection Fetching Leios Initiator InitiatorInv.
From S2P Require Import Steps.

(** ** What is to be negotiated *)
Section negotiation.
Context {A : Type} (offer ours : gmap Z A).

Definition common (v : Z) : Prop := is_Some (offer !! v) /\ is_Some (ours !! v).

Definition greatest_common (v : Z) : Prop := common v /\ forall w, common w -> w <= v.

Lemma max_by_key_spec (l : list (Z * A)) :
  match max_by_key l with
  | Some x => x ∈ l /\ Forall (fun y => y.1 <= x.1) l
  | None => l = []
  end.
Proof.
  unfold max_by_key. induction l as [|x l IH] using rev_ind; [done|]. rewrite foldl_snoc.
  destruct (foldl _ None l) as [b|]; [|subst l; split; [set_solver|by repeat constructor]].
  destruct IH as [Hin Hall]. destruct (Z.leb_spec b.1 x.1); (split; [set_solver|]); apply Forall_app; split.
  - eapply Forall_impl; [exact Hall|]. simpl. lia.
  - by repeat constructor.
  - done.
  - repeat constructor. lia.
Qed.

Context `{VersionOrder}.

Lemma elem_of_entries (m : gmap Z A) v x : (v, x) ∈ entries m <-> m !! v = Some x.
Proof.
  unfold entries. rewrite list_elem_of_omap. split.
  - intros (w & _ & Hw). destruct (m !! w) as [y|] eqn:E; simplify_eq/=. done.
  - intros Hv. exists v. rewrite Hv. split; [|done]. rewrite elem_of_versions_order. by eapply elem_of_dom_2.
Qed.

(** The negotiation finds the greatest common version, whatever the order in which
    the table is visited. *)
Lemma negotiate_spec :
  match negotiate ours offer with
  | Some (v, theirs, mine) => greatest_common v /\ offer !! v = Some theirs /\ ours !! v = Some mine
  | None => forall v, ~ common v
  end.
Proof.
  unfold negotiate. set (l := filter _ _).
  assert (forall v x, (v, x) ∈ l <-> is_Some (ours !! v) /\ offer !! v = Some x) as Hl.
  { intros v x. unfold l. by rewrite list_elem_of_filter, elem_of_entries. }
  pose proof (max_by_key_spec l) as Hm. destruct (max_by_key l) as [[v x]|]; simpl.
  - destruct Hm as [Hin Hall]. apply Hl in Hin as [[y Hy] Hx]. rewrite Hy. simpl. split_and!; [|done..].
    split; [by split; eexists|]. intros w [[z Hz] Hw]. rewrite Forall_forall in Hall.
    apply (Hall (w, z)), Hl. done.
  - intros v [[x Hx] Hv]. assert ((v, x) ∈ l) as Hin by by apply Hl. rewrite Hm in Hin. set_solver.
Qed.
End negotiation.

(** The version agreed upon, with the data of the responder's table. *)
Definition agreement (offer ours : gmap Z n2n.VersionData) (v : Z) (d : n2n.VersionData) : Prop :=
  greatest_common offer ours v /\ ours !! v = Some d /\
  exists d', offer !! v = Some d' /\ n2n.network_magic d' = n2n.network_magic d.

(** ** The initiator's visits, seen from the handshake *)

(** Outside housekeeping only the handshake sub-behavior touches the connection and
    the handshake of a peer, and outputs are only added. *)
Definition keeps_handshake : step_relation := fun h _ s out s' out' =>
  h <> visit_housekeeping ->
  connection s' = connection s /\ handshake s' = handshake s /\ exists l, out' = out ++ l.

#[export] Instance keeps_handshake_chains : Chains keeps_handshake.
Proof.
  split; unfold keeps_handshake.
  - intros. split_and!; [done..|]. exists []. by rewrite app_nil_r.
  - intros h pid s1 o1 s2 o2 s3 o3 H1 H2 Hh.
    destruct (H2 Hh) as (-> & -> & l2 & ->), (H1 Hh) as (-> & -> & l1 & ->).
    split_and!; [done..|]. exists (l1 ++ l2). by rewrite app_assoc.
Qed.

Section standing.
Ltac standing_goal :=
  intros Hh; simpl; first [done | split_and!; [done..|]];
  first [by exists []; rewrite app_nil_r | by eexists | eexists; rewrite <- app_assoc; reflexivity].

#[export] Instance promotion_standing : Visits keeps_handshake PromotionBehavior.
Proof.
  intros h pid v s out v' s' out' [-> [->|[t ->]]]%promotion_visit_state _;
    (split_and!; [done..|exists []; by rewrite app_nil_r]).
Qed.
#[export] Instance connection_standing : Visits keeps_handshake ConnectionBehavior.
Proof. visit_cases; standing_goal. Qed.
#[export] Instance keepalive_standing : Visits keeps_handshake KeepaliveBehavior.
Proof. visit_cases; standing_goal. Qed.
#[export] Instance discovery_standing : Visits keeps_handshake DiscoveryBehavior.
Proof. visit_cases; standing_goal. Qed.
#[export] Instance blockfetch_standing : Visits keeps_handshake BlockFetchBehavior.
Proof. visit_cases; standing_goal. Qed.
#[export] Instance chainsync_standing : Visits keeps_handshake ChainSyncBehavior.
Proof. visit_cases; standing_goal. Qed.
#[export] Instance leiosnotify_standing : Visits keeps_handshake LeiosNotifyBehavior.
Proof. visit_cases; standing_goal. Qed.
#[export] Instance leiosfetch_standing : Visits keeps_handshake LeiosFetchBehavior.
Proof. visit_cases; standing_goal. Qed.
End standing.

(** The handshake visit between the others. *)
Lemma all_visitors_handshake h pid (v v' : SubBehaviors) s out s' out' :
  h <> visit_housekeeping -> visit h pid v s out = Some (v', s', out') ->
  exists s1 out1 s2 l1 out2 l2,
    connection s1 = connection s /\ handshake s1 = handshake s /\ out1 = out ++ l1 /\
    visit h pid (sub_handshake v) s1 out1 = Some (sub_handshake v', s2, out2) /\
    connection s' = connection s2 /\ handshake s' = handshake s2 /\ out' = out2 ++ l2.
Proof.
  intros Hh H. split_visits H. apply (visits (R := keeps_handshake)) in E1, E2, E4, E5, E6, E7, E8, E9.
  assert (keeps_handshake h pid s out s2 out2) as (Hc & Hs & l1 & ->); [|done|].
  { repeat (eapply chain_trans; [eassumption|]). apply chain_refl. }
  assert (keeps_handshake h pid s3 out3 s' out') as (Hc' & Hs' & l2 & ->); [|done|].
  { repeat (eapply chain_trans; [eassumption|]). apply chain_refl. }
  by exists s2, (out ++ l1), s3, l1, out3, l2.
Qed.

(** ** The initiator's three steps *)

(** The state of the peer [r] and what was pushed since the queue was [out]. *)
Definition initiator_at (r : PeerId) (i : InitiatorBehavior) (c : ConnectionState.t)
    (h : handshake.State.t n2n.VersionData) : Prop :=
  exists s, Initiator.peers i !! r = Some s /\ InitiatorState.connection s = c /\ InitiatorState.handshake s = h.

Definition offered (i : InitiatorBehavior) : handshake.VersionTable n2n.VersionData :=
  Connection.supported_version (Initiator.sub_handshake (Initiator.subs i)).

Definition from_initiator (r : PeerId) (m : handshake.Message.t n2n.VersionData) : InitiatorState.Output :=
  OutCommand (Send r (AnyMessage.Handshake m)).

Section initiator.
Context `{Minicbor} `{HashOrder} (r : PeerId).
Implicit Types i : InitiatorBehavior.

(** The closure of an event on a known peer, with what it does to the handshake. *)
Lemma and_modify_handshake h i s s1 :
  initiator_inv i -> h <> visit_housekeeping -> Initiator.peers i !! r = Some s ->
  (h = visit_connected -> InitiatorState.handshake s1 = handshake.State.Propose) ->
  exists i' t t' l l1 out2 l2,
    Initiator.and_modify r (fun v _ out => visit h r v s1 out) i = Some i' /\
    Initiator.outbound i' = Initiator.outbound i ++ l /\
    InitiatorState.connection t = InitiatorState.connection s1 /\
    InitiatorState.handshake t = InitiatorState.handshake s1 /\
    visit h r (Initiator.sub_handshake (Initiator.subs i)) t (Initiator.outbound i ++ l1) =
      Some (Initiator.sub_handshake (Initiator.subs i'), t', out2) /\
    Initiator.outbound i ++ l = out2 ++ l2 /\
    initiator_at r i' (InitiatorState.connection t') (InitiatorState.handshake t').
Proof.
  intros Hi Hh Hs Hp. unfold Initiator.and_modify. rewrite Hs.
  destruct (proj2 (all_visitors_total h r (Initiator.subs i) s1 (Initiator.outbound i) (inv_promotion i Hi)) Hp)
    as [[[v' s'] out'] E]. rewrite E. simpl.
  apply all_visitors_handshake in E as (t & out1 & t' & l1 & out2 & l2 & Hc & Hn & -> & Hv & Hc' & Hn' & ->); [|done].
  assert (exists l, out2 = (Initiator.outbound i ++ l1) ++ l) as [l ->].
  { revert Hv. unfold visit, Connection.handshake_visitor, default_visit, Connection.propose_handshake,
      Connection.check_confirmation, push_ready.
    destruct h; repeat case_match; intros; simplify_eq/=; first [by eexists | exists []; by rewrite app_nil_r]. }
  eexists _, t, t', (l1 ++ l ++ l2), l1, _, l2. split_and!; try done; simpl; [by rewrite !app_assoc..|].
  exists s'. simpl. by rewrite lookup_insert_eq.
Qed.
End initiator.

Section initiator_steps.
Context `{Minicbor} `{HashOrder} (r : PeerId).
Implicit Types i : InitiatorBehavior.

(** The connection is reported: the versions are proposed. *)
Lemma initiator_connected i :
  initiator_inv i -> (exists c, initiator_at r i c handshake.State.Propose) ->
  exists i' l, Initiator.handle_io (InterfaceEvent.Connected r) i = Some i' /\ initiator_inv i' /\
    offered i' = offered i /\ Initiator.outbound i' = Initiator.outbound i ++ l /\
    from_initiator r (handshake.Message.Propose (offered i)) ∈ l /\
    initiator_at r i' ConnectionState.Connected handshake.State.Propose.
Proof.
  intros Hi (c & s & Hs & _ & Hp).
  destruct (and_modify_handshake r visit_connected i s (InitiatorState.set_connection ConnectionState.Connected s))
    as (i' & t & t' & l & l1 & out2 & l2 & E & Ho & Hc & Hn & Hv & Hl & Hat); [done..|].
  assert (Initiator.handle_io (InterfaceEvent.Connected r) i = Some i') as E'.
  { rewrite <- E. unfold Initiator.handle_io, Initiator.on_connected, Initiator.and_modify. by rewrite Hs. }
  simpl in Hc, Hn. unfold visit, Connection.handshake_visitor, Connection.propose_handshake in Hv.
  rewrite Hn, Hp in Hv. cbn in Hv. injection Hv as Hsub <- <-.
  unfold push_ready in Hl. rewrite <- ?app_assoc in Hl. apply app_inv_head in Hl. subst l.
  exists i', (l1 ++ [from_initiator r (handshake.Message.Propose (offered i))] ++ l2).
  split_and!; [done| | |done|set_solver|].
  - by apply on_connected_kept in E' as [].
  - unfold offered. by rewrite <- Hsub.
  - rewrite Hc, Hn, Hp in Hat. done.
Qed.

(** The proposal is reported as sent: the answer is awaited. *)
Lemma initiator_sent i c m st :
  initiator_inv i -> initiator_at r i c handshake.State.Propose ->
  handshake.apply (D := n2n.VersionData) handshake.State.Propose m = Ok st ->
  exists i' l, Initiator.handle_io (InterfaceEvent.Sent r (AnyMessage.Handshake m)) i = Some i' /\
    initiator_inv i' /\ Initiator.outbound i' = Initiator.outbound i ++ l /\ initiator_at r i' c st.
Proof.
  intros Hi (s & Hs & Hc & Hp) Ha.
  assert (InitiatorState.clear_unsent s (AnyMessage.Handshake m) = Some s) as Hu.
  { unfold InitiatorState.clear_unsent, unsent_contains.
    destruct (by_channel (InitiatorState.unsent s) !! any_channel (AnyMessage.Handshake m)) as [u|] eqn:E; [|done].
    destruct (peer_unsent _ _ _ (inv_peers i Hi r s Hs) _ _ E) as [Hch Hr]. by destruct u as [m'| | | | | | |]; try destruct m'. }
  destruct (and_modify_handshake r visit_outbound_msg i s (InitiatorState.apply_msg s (AnyMessage.Handshake m)))
    as (i' & t & t' & l & l1 & out2 & l2 & E & Ho & Hc' & Hn & Hv & Hl & Hat); [done..|].
  assert (Initiator.handle_io (InterfaceEvent.Sent r (AnyMessage.Handshake m)) i = Some i') as E'.
  { rewrite <- E. unfold Initiator.handle_io, Initiator.on_outbound_msg, Initiator.and_modify. by rewrite Hs, Hu. }
  unfold visit, Connection.handshake_visitor, default_visit in Hv. injection Hv as _ <- _.
  exists i', l. split_and!; [done| |done|]; [by apply on_outbound_msg_kept in E' as []|].
  rewrite Hc', Hn in Hat. cbn [InitiatorState.apply_msg] in Hat. rewrite Hp, Ha in Hat. simpl in Hat.
  by rewrite Hc in Hat.
Qed.

(** The answer arrives. *)
Lemma initiator_answered i T m st :
  initiator_inv i -> initiator_at r i ConnectionState.Connected (handshake.State.Confirm T) ->
  handshake.apply (handshake.State.Confirm T) m = Ok st ->
  exists i' l, Initiator.handle_io (InterfaceEvent.Recv r [AnyMessage.Handshake m]) i = Some i' /\
    Initiator.outbound i' = Initiator.outbound i ++ l /\
    match st with
    | handshake.State.Done (handshake.DoneState.Accepted v d) =>
        initiator_at r i' ConnectionState.Initialized st /\ OutEvent (PeerInitialized r (v, d)) ∈ l
    | _ => initiator_at r i' ConnectionState.Connected st
    end.
Proof.
  intros Hi (s & Hs & Hc & Hp) Ha.
  destruct (and_modify_handshake r visit_inbound_msg i s (InitiatorState.apply_msg s (AnyMessage.Handshake m)))
    as (i' & t & t' & l & l1 & out2 & l2 & E & Ho & Hc' & Hn & Hv & Hl & Hat); [done..|].
  cbn [InitiatorState.apply_msg] in Hc', Hn. rewrite Hp, Ha in Hc', Hn. simpl in Hc', Hn. rewrite Hc in Hc'.
  exists i', l. split_and!; [|done|].
  - unfold Initiator.handle_io, Initiator.on_inbound_msgs, Initiator.on_inbound_msg.
    unfold Initiator.and_modify in *. rewrite Hs in *. cbv beta zeta in *. by rewrite E.
  - unfold visit, Connection.handshake_visitor, Connection.needs_handshake, Connection.check_confirmation in Hv.
    rewrite Hc', Hn, bool_decide_eq_true_2 in Hv by done.
    destruct st as [|T'|[v d|x|T']]; injection Hv as _ <- Hout; rewrite ?Hc', ?Hn in Hat; simpl in Hat;
      rewrite ?Hn in Hat; try done.
    split; [done|]. unfold push_ready in Hout. rewrite <- Hout, <- !app_assoc in Hl.
    apply app_inv_head in Hl. rewrite Hl. set_solver.
Qed.
End initiator_steps.

(** ** The responder's steps *)
Definition responder_at (c : PeerId) (p : ResponderBehavior) (k : ConnectionState.t)
    (h : handshake.State.t n2n.VersionData) : Prop :=
  exists s, Responder.peers p !! c = Some s /\ ResponderState.connection s = k /\ ResponderState.handshake s = h.

Definition accepts (p : ResponderBehavior) : handshake.VersionTable n2n.VersionData :=
  Responders.supported_version (Responder.sub_handshake (Responder.subs p)).

Definition from_responder (c : PeerId) (m : handshake.Message.t n2n.VersionData) : ResponderState.Output :=
  OutCommand (Send c (AnyMessage.Handshake m)).

(** The answer to an offer. *)
Definition fair_answer (offer ours : handshake.VersionTable n2n.VersionData)
    (ans : handshake.Message.t n2n.VersionData) : Prop :=
  match ans with
  | handshake.Message.Accept v d => agreement (handshake.values offer) (handshake.values ours) v d
  | handshake.Message.Refuse _ => forall v d, ~ agreement (handshake.values offer) (handshake.values ours) v d
  | _ => False
  end.

Lemma greatest_common_unique {A} (offer ours : gmap Z A) v w :
  greatest_common offer ours v -> greatest_common offer ours w -> v = w.
Proof. intros [Hv Hv'] [Hw Hw']. apply Hv' in Hw. apply Hw' in Hv. lia. Qed.

Section responder.
Context `{Minicbor} `{HashOrder} `{VersionOrder} (c : PeerId).
Implicit Types p : ResponderBehavior.

Lemma try_accept_answers v s T out :
  ResponderState.handshake s = handshake.State.Confirm T ->
  exists ans l, fair_answer T (Responders.supported_version v) ans /\
    match ans with
    | handshake.Message.Accept n d =>
        try_accept_handshake v c s out = (ResponderState.set_connection ConnectionState.Initialized s, out ++ l) /\
        OutEvent (ResponderState.PeerInitialized c (n, d)) ∈ l
    | _ => try_accept_handshake v c s out = (s, out ++ l)
    end /\ from_responder c ans ∈ l.
Proof.
  intros Hs. unfold try_accept_handshake. rewrite Hs.
  pose proof (negotiate_spec (handshake.values T) (handshake.values (Responders.supported_version v))) as Hn.
  destruct (negotiate _ _) as [[[n theirs] mine]|].
  - destruct Hn as (Hg & Ht & Hm). destruct (Z.eqb_spec (n2n.network_magic theirs) (n2n.network_magic mine)) as [E|E].
    + exists (handshake.Message.Accept n mine).
      eexists [from_responder c _; OutEvent (ResponderState.PeerInitialized c (n, mine))].
      simpl. unfold push_ready, from_responder. rewrite <- app_assoc.
      split_and!; [split; [done|by eauto]|done|set_solver|set_solver].
    + eexists (handshake.Message.Refuse _), [from_responder c _]. split_and!; [|done|by constructor].
      intros w d (Hw & Hd & d' & Ht' & Hmag). rewrite (greatest_common_unique _ _ _ _ Hw Hg) in *. congruence.
  - eexists (handshake.Message.Refuse _), [from_responder c _]. split_and!; [|done|by constructor].
    intros w d ([Hc _] & _). by destruct (Hn w).
Qed.

Lemma responder_connected p :
  ~ ResponderProps.io_panics (InterfaceEvent.Connected c) p ->
  exists p' l, Responder.handle_io (InterfaceEvent.Connected c) p = Some p' /\ accepts p' = accepts p /\
    Responder.outbound p' = Responder.outbound p ++ l /\
    Responder.peers p' !! c = Some (ResponderState.set_connection ConnectionState.Connected ResponderState.new).
Proof.
  unfold ResponderProps.io_panics. rewrite <- (connection_connected_None c _ (Responder.outbound p)). intros Hc.
  unfold Responder.handle_io, Responder.on_connected. rewrite visit_connected_eq.
  destruct (connection_connected c _ (Responder.outbound p)) as [[x out]|] eqn:E; [|done]. simpl.
  assert (exists l, out = Responder.outbound p ++ l) as [l ->].
  { revert E. unfold connection_connected, push_disconnect, push_ready, mbind, option_bind.
    repeat case_match; intros; simplify_eq/=; first [by eexists | exists []; by rewrite app_nil_r]. }
  eexists _, l. split_and!; [done..|]. simpl. by rewrite lookup_insert_eq.
Qed.

(** The proposal arrives and the answer is reported as sent. *)
Lemma responder_answers p T :
  Responder.peers p !! c = Some (ResponderState.set_connection ConnectionState.Connected ResponderState.new) ->
  exists p1 p2 ans st l,
    Responder.handle_io (InterfaceEvent.Recv c [AnyMessage.Handshake (handshake.Message.Propose T)]) p = Some p1 /\
    Responder.handle_io (InterfaceEvent.Sent c (AnyMessage.Handshake ans)) p1 = Some p2 /\
    fair_answer T (accepts p) ans /\ handshake.apply (handshake.State.Confirm T) ans = Ok st /\
    Responder.outbound p1 = Responder.outbound p ++ l /\ Responder.outbound p2 = Responder.outbound p1 /\
    from_responder c ans ∈ l /\
    match st with
    | handshake.State.Done (handshake.DoneState.Accepted v d) =>
        responder_at c p2 ConnectionState.Initialized st /\
        OutEvent (ResponderState.PeerInitialized c (v, d)) ∈ l
    | _ => responder_at c p2 ConnectionState.Connected st
    end.
Proof.
  intros Hp. set (s := ResponderState.set_handshake (handshake.State.Confirm T)
    (ResponderState.set_connection ConnectionState.Connected ResponderState.new)).
  destruct (try_accept_answers (Responder.sub_handshake (Responder.subs p)) s T (Responder.outbound p))
    as (ans & l & Hf & Ht & Hl); [done|].
  unfold Responder.handle_io, Responder.on_inbound_msgs, Responder.on_inbound_msg, Responder.on_outbound_msg,
    Responder.and_modify.
  rewrite Hp. cbv beta zeta. rewrite visit_owner_eq. unfold owner_outputs. cbn [violation].
  change (ResponderState.apply_msg _ (AnyMessage.Handshake (handshake.Message.Propose T))) with s.
  destruct ans as [|v d|x|]; try done.
  - destruct Ht as [Ht Hev]. eexists _, _, (handshake.Message.Accept v d), _, l.
    rewrite Ht. split; [done|]. simpl. rewrite lookup_insert_eq. split_and!; try done. simpl.
    split; [eexists; simpl; by rewrite lookup_insert_eq|done].
  - eexists _, _, (handshake.Message.Refuse x), _, l.
    rewrite Ht. split; [done|]. simpl. rewrite lookup_insert_eq. split_and!; try done. simpl.
    eexists. simpl. by rewrite lookup_insert_eq.
Qed.
End responder.

(** ** Both ends *)

(** What the two ends hold once the answer [ans] has arrived: what they pushed since
    the connection, and the state of their peers. *)
Definition concluded (r c : PeerId) (ans : handshake.Message.t n2n.VersionData)
    (i : InitiatorBehavior) (p : ResponderBehavior) (li : InitiatorState.Outbound)
    (lp : ResponderState.Outbound) : Prop :=
  match ans with
  | handshake.Message.Accept v d =>
      let done := handshake.State.Done (handshake.DoneState.Accepted v d) in
      initiator_at r i ConnectionState.Initialized done /\ OutEvent (PeerInitialized r (v, d)) ∈ li /\
      responder_at c p ConnectionState.Initialized done /\
      OutEvent (ResponderState.PeerInitialized c (v, d)) ∈ lp
  | handshake.Message.Refuse x =>
      let done := handshake.State.Done (handshake.DoneState.Rejected x) in
      initiator_at r i ConnectionState.Connected done /\ responder_at c p ConnectionState.Connected done
  | _ => False
  end.

Section meeting.
Context `{Minicbor} `{HashOrder} `{VersionOrder}.

Fixpoint initiator_events (es : list (InterfaceEvent.t AnyMessage.t)) (i : InitiatorBehavior) :
    option InitiatorBehavior :=
  match es with
  | [] => Some i
  | e :: es => i ← Initiator.handle_io e i; initiator_events es i
  end.

Fixpoint responder_events (es : list (InterfaceEvent.t AnyMessage.t)) (p : ResponderBehavior) :
    option ResponderBehavior :=
  match es with
  | [] => Some p
  | e :: es => p ← Responder.handle_io e p; responder_events es p
  end.

(** C6: Two ends that are connected agree: when an initiator in any reachable state
    is connected to a responder in any state whose counters do not overflow, the
    initiator offers its versions, the responder answers once it has received the
    offer, and when the answer has arrived both ends have accepted the greatest
    version they have in common, with the responder's data, and reported the peer
    as initialized; or, when they have none or its network magic differs, both
    know the refusal. *)
Theorem handshake_agreement config versions i p r c s :
  reachable config versions i -> Initiator.peers i !! r = Some s ->
  InitiatorState.handshake s = handshake.State.Propose ->
  ~ ResponderProps.io_panics (InterfaceEvent.Connected c) p ->
  let offer := handshake.Message.Propose (offered i) in
  exists ans i1 i2 p1 p2 li1 li2 lp,
    initiator_events [InterfaceEvent.Connected r] i = Some i1 /\
    Initiator.outbound i1 = Initiator.outbound i ++ li1 /\ from_initiator r offer ∈ li1 /\
    responder_events [InterfaceEvent.Connected c; InterfaceEvent.Recv c [AnyMessage.Handshake offer]] p = Some p1 /\
    Responder.outbound p1 = Responder.outbound p ++ lp /\ from_responder c ans ∈ lp /\
    initiator_events [InterfaceEvent.Sent r (AnyMessage.Handshake offer);
                      InterfaceEvent.Recv r [AnyMessage.Handshake ans]] i1 = Some i2 /\
    Initiator.outbound i2 = Initiator.outbound i1 ++ li2 /\
    responder_events [InterfaceEvent.Sent c (AnyMessage.Handshake ans)] p1 = Some p2 /\
    fair_answer (offered i) (accepts p) ans /\ concluded r c ans i2 p2 li2 lp.
Proof.
  intros Hr Hs Hp Hc offer. apply reachable_inv in Hr as [Hi _].
  destruct (initiator_connected r i Hi) as (i1 & li1 & E1 & Hi1 & Hoff & Ho1 & Hin1 & Hat1); [by eexists _, s|].
  destruct (initiator_sent r i1 _ offer _ Hi1 Hat1 eq_refl) as (i1' & la & E2 & Hi1' & Hoa & Hat2).
  destruct (responder_connected c p Hc) as (p0 & l0 & F1 & Hacc & Hq0 & Hp0).
  destruct (responder_answers c p0 (offered i) Hp0) as (p1 & p2 & ans & st & lp & F2 & F3 & Hf & Ha & Hq1 & Hq2 & Hin2 & Hst).
  rewrite Hacc in Hf. destruct (initiator_answered r i1' _ ans st Hi1' Hat2 Ha) as (i2 & lb & E3 & Hob & Hst').
  exists ans, i1, i2, p1, p2, li1, (la ++ lb), (l0 ++ lp). cbn [initiator_events responder_events].
  subst offer. rewrite E1, F1. cbn [mbind option_bind]. rewrite E2, F2, F3. cbn [mbind option_bind]. rewrite E3.
  split_and!; try done.
  - by rewrite Hq1, Hq0, app_assoc.
  - apply elem_of_app. by right.
  - by rewrite Hob, Hoa, app_assoc.
  - destruct ans as [|v d|x|]; try done; injection Ha as <-; simpl.
    + destruct Hst' as [? ?], Hst as [? ?]. split_and!; try done; apply elem_of_app; by right.
    + done.
Qed.
End meeting.

(** ** Witness: two ends with the default versions *)
Definition here : PeerId := {| host := "here"; port := 3000 |}.
Definition there : PeerId := {| host := "there"; port := 3001 |}.

Definition caller : InitiatorBehavior :=
  default (initiator default_promotion_config Connection.default_handshake)
    (Initiator.execute (H := elements_order) (InitiatorCommand.IncludePeer there)
       (initiator default_promotion_config Connection.default_handshake)).

Lemma caller_reachable : reachable (H := rfc8949) default_promotion_config Connection.default_handshake caller.
Proof.
  apply (reachable_step _ _ (initiator default_promotion_config Connection.default_handshake)
    (Steps.Command (InitiatorCommand.IncludePeer there))); [by apply reachable_start|].
  apply (Steps.step_execute elements_order). by vm_compute.
Qed.

Definition version_13 : n2n.VersionData :=
  {| n2n.network_magic := MAINNET_MAGIC; n2n.initiator_only_diffusion_mode := false;
     n2n.peer_sharing := Some 1; n2n.query := Some false |}.

Lemma handshake_agreement_witness :
  exists i p,
    initiator_at there i ConnectionState.Initialized (handshake.State.Done (handshake.DoneState.Accepted 13 version_13)) /\
    responder_at here p ConnectionState.Initialized (handshake.State.Done (handshake.DoneState.Accepted 13 version_13)).
Proof.
  destruct (handshake_agreement (H := rfc8949) (H0 := elements_order) (H1 := elements_versions)
    default_promotion_config Connection.default_handshake caller fresh there here InitiatorState.new)
    as (ans & i1 & i2 & p1 & p2 & li1 & li2 & lp & _ & _ & _ & _ & _ & _ & _ & _ & _ & Hf & Hc);
    [exact caller_reachable|by vm_compute|done|by vm_compute; intros [_ [?|(_ & _ & ?)]]|].
  assert (forall w, common (handshake.values (offered caller)) (handshake.values (accepts fresh)) w <-> w = 13) as Hw.
  { intros w. unfold common. change (handshake.values (offered caller)) with ({[13 := version_13]} : gmap Z n2n.VersionData).
    change (handshake.values (accepts fresh)) with ({[13 := version_13]} : gmap Z n2n.VersionData).
    rewrite lookup_singleton_is_Some. naive_solver. }
  exists i2, p2. destruct ans as [|v d|x|]; try done.
  - destruct Hf as ([Hv _] & Hd & _). apply Hw in Hv as ->.
    change (Some version_13 = Some d) in Hd. injection Hd as <-. destruct Hc as (? & _ & ? & _). done.
  - destruct (Hf 13 version_13). split; [split; [by apply Hw|intros w ->%Hw; done]|].
    split; [by vm_compute|]. exists version_13. by split; vm_compute.
Defined.
