(* ===== verification/Effects.v ===== *)
(** * State, errors and panics

    A method of a mutable object as a computation: it returns a result, with the
    object as it leaves it, it panics, or it is still running when its fuel is used
    up. *)
From S2P Require Import Prelude.

Inductive outcome (E S A : Type) :=
| Returned (r : result E A) (s : S)
| Panicked
| Unfinished.
Arguments Returned {E S A} _ _.
Arguments Panicked {E S A}.
Arguments Unfinished {E S A}.

Definition comp (E S A : Type) : Type := S -> outcome E S A.

#[export] Instance comp_ret E S : MRet (comp E S) := fun A a s => Returned (Ok a) s.

(** The operator [?]: an error ends the method. *)
#[export] Instance comp_bind E S : MBind (comp E S) := fun A B f m s =>
  match m s with
  | Returned (Ok a) s => f a s
  | Returned (Err e) s => Returned (Err e) s
  | Panicked => Panicked
  | Unfinished => Unfinished
  end.

Section primitives.
Context {E S : Type}.

Definition throw {A} (e : E) : comp E S A := fun s => Returned (Err e) s.
Definition get : comp E S S := fun s => Returned (Ok s) s.
Definition put (s : S) : comp E S unit := fun _ => Returned (Ok ()) s.
Definition modify (f : S -> S) : comp E S unit := fun s => Returned (Ok ()) (f s).
Definition unfinished {A} : comp E S A := fun _ => Unfinished.

(** An expression that panics where it has no value. *)
Definition eval {A} (x : option A) : comp E S A := fun s =>
  match x with Some a => Returned (Ok a) s | None => Panicked end.
End primitives.

(** [map_err] on what a method returns. *)
Definition map_err {E F S A} (f : E -> F) (m : comp E S A) : comp F S A := fun s =>
  match m s with
  | Returned (Ok a) s => Returned (Ok a) s
  | Returned (Err e) s => Returned (Err (f e)) s
  | Panicked => Panicked
  | Unfinished => Unfinished
  end.

(** A computation on an object of its own, which is dropped at the end. *)
Definition locally {E S T A} (m : comp E S A) (s : S) : comp E T A := fun t =>
  match m s with
  | Returned r _ => Returned r t
  | Panicked => Panicked
  | Unfinished => Unfinished
  end.

(** The operator [?] on a value. *)
Definition returns {E S A} (r : result E A) : comp E S A := fun s => Returned r s.

(** A computation on the first component of the state. *)
Definition on_first {E S T A} (m : comp E S A) : comp E (S * T) A := fun s =>
  match m s.1 with
  | Returned r x => Returned r (x, s.2)
  | Panicked => Panicked
  | Unfinished => Unfinished
  end.

(** ** What computations do *)

(** From [s], the computation returns [a] and leaves [s']. *)
Definition yields {E S A} (m : comp E S A) (s : S) (a : A) (s' : S) : Prop := m s = Returned (Ok a) s'.

Section laws.
Context {E S : Type}.

Lemma yields_ret {A} (a : A) (s : S) : yields (mret a : comp E S A) s a s.
Proof. done. Qed.

Lemma yields_bind {A B} (m : comp E S A) (f : A -> comp E S B) s a s1 b s2 :
  yields m s a s1 -> yields (f a) s1 b s2 -> yields (m ≫= f) s b s2.
Proof. unfold yields, mbind, comp_bind. by intros ->. Qed.

Lemma bind_yields {A B} (m : comp E S A) (f : A -> comp E S B) s a s1 :
  yields m s a s1 -> (m ≫= f) s = f a s1.
Proof. unfold yields, mbind, comp_bind. by intros ->. Qed.

Lemma bind_fails {A B} (m : comp E S A) (f : A -> comp E S B) s e s1 :
  m s = Returned (Err e) s1 -> (m ≫= f) s = Returned (Err e) s1.
Proof. unfold mbind, comp_bind. by intros ->. Qed.

End laws.

(** ** Bits of machine integers

    The shifts of a byte, and the bits of a number, from the most significant
    one. *)

(** [x << n] and [x >> n] on [u8]: a shift by the width or more panics. *)
Definition u8_shl (x n : Z) : option Z :=
  if (0 <=? n) && (n <? 8) then Some (Z.land (Z.shiftl x n) 255) else None.
Definition u8_shr (x n : Z) : option Z :=
  if (0 <=? n) && (n <? 8) then Some (Z.shiftr x n) else None.

Lemma u8_shl_Some x n : 0 <= n < 8 -> u8_shl x n = Some (Z.land (Z.shiftl x n) 255).
Proof. intros Hn. unfold u8_shl. by rewrite (proj2 (Z.leb_le _ _)), (proj2 (Z.ltb_lt _ _)) by lia. Qed.
Lemma u8_shr_Some x n : 0 <= n < 8 -> u8_shr x n = Some (Z.shiftr x n).
Proof. intros Hn. unfold u8_shr. by rewrite (proj2 (Z.leb_le _ _)), (proj2 (Z.ltb_lt _ _)) by lia. Qed.

(** The [n] low bits of a number, the most significant one first. *)
Fixpoint low_bits (n : nat) (x : Z) : list bool :=
  match n with
  | O => []
  | S n => Z.testbit x (Z.of_nat n) :: low_bits n x
  end.

Definition byte_bits (x : Z) : list bool := low_bits 8 x.
Definition bytes_bits (bs : bytes) : list bool := concat (byte_bits <$> bs).

Lemma length_low_bits n x : length (low_bits n x) = n.
Proof. induction n; simpl; congruence. Qed.

Lemma low_bits_ext n x y :
  (forall i, 0 <= i < Z.of_nat n -> Z.testbit x i = Z.testbit y i) -> low_bits n x = low_bits n y.
Proof.
  induction n as [|n IH]; intros Hxy; simpl; [done|].
  rewrite (Hxy (Z.of_nat n)) by lia. f_equal. apply IH. intros i Hi. apply Hxy. lia.
Qed.

Lemma low_bits_inv n x y :
  low_bits n x = low_bits n y -> forall i, 0 <= i < Z.of_nat n -> Z.testbit x i = Z.testbit y i.
Proof.
  induction n as [|n IH]; intros Hxy i Hi; simpl in *; [lia|]. injection Hxy as Hn Hxy.
  destruct (decide (i = Z.of_nat n)) as [->|]; [done|]. apply IH; [done|lia].
Qed.

Lemma testbit_high w x i : in_u w x -> 0 <= w <= i -> Z.testbit x i = false.
Proof.
  intros [H0 H1] Hi. destruct (decide (x = 0)) as [->|]; [apply Z.bits_0|].
  apply Z.bits_above_log2; [done|]. apply (Z.lt_le_trans _ w); [|lia]. apply Z.log2_lt_pow2; lia.
Qed.

Lemma in_u_bits w x : 0 <= w -> 0 <= x -> (forall i, w <= i -> Z.testbit x i = false) -> in_u w x.
Proof.
  intros Hw Hx Hb. split; [done|]. replace x with (x mod 2 ^ w); [by apply Z.mod_pos_bound, Z.pow_pos_nonneg|].
  apply Z.bits_inj'. intros i Hi. destruct (decide (i < w)).
  - by rewrite Z.mod_pow2_bits_low.
  - rewrite Z.mod_pow2_bits_high by lia. symmetry. apply Hb. lia.
Qed.

(** A number in range is determined by its bits. *)
Lemma low_bits_inj n x y :
  in_u (Z.of_nat n) x -> in_u (Z.of_nat n) y -> low_bits n x = low_bits n y -> x = y.
Proof.
  intros Hx Hy Hb. apply Z.bits_inj'. intros i Hi. destruct (decide (i < Z.of_nat n)).
  - apply (low_bits_inv n); [done|lia].
  - rewrite !(testbit_high (Z.of_nat n)) by (done || lia). done.
Qed.

Lemma low_bits_app n m x : low_bits (n + m) x = low_bits n (Z.shiftr x (Z.of_nat m)) ++ low_bits m x.
Proof.
  induction n as [|n IH]; simpl; [done|]. rewrite IH, Z.shiftr_spec by lia.
  by rewrite Nat2Z.inj_add.
Qed.

Lemma take_low_bits n m x : take n (low_bits (n + m) x) = low_bits n (Z.shiftr x (Z.of_nat m)).
Proof. by rewrite low_bits_app, take_app_length' by (by rewrite length_low_bits). Qed.

Lemma drop_low_bits n m x : drop n (low_bits (n + m) x) = low_bits m x.
Proof. by rewrite low_bits_app, drop_app_length' by (by rewrite length_low_bits). Qed.

Lemma bytes_bits_app bs bs' : bytes_bits (bs ++ bs') = bytes_bits bs ++ bytes_bits bs'.
Proof. unfold bytes_bits. by rewrite fmap_app, concat_app. Qed.

Lemma bytes_bits_cons b bs : bytes_bits (b :: bs) = byte_bits b ++ bytes_bits bs.
Proof. done. Qed.

Lemma length_bytes_bits bs : length (bytes_bits bs) = (8 * length bs)%nat.
Proof.
  induction bs as [|b bs IH]; [done|].
  rewrite bytes_bits_cons, length_app, IH. unfold byte_bits. rewrite length_low_bits. simpl. lia.
Qed.

(** ** Bit by bit *)
Lemma testbit_255 i : 0 <= i -> Z.testbit 255 i = (i <? 8).
Proof. intros Hi. change 255 with (Z.ones 8). destruct (Z.ltb_spec i 8); [by apply Z.ones_spec_low|apply Z.ones_spec_high; lia]. Qed.

Lemma testbit_pow2 n i : 0 <= n -> Z.testbit (2 ^ n) i = (n =? i).
Proof. intros Hn. destruct (Z.eqb_spec n i) as [<-|]; [by apply Z.pow2_bits_true|by apply Z.pow2_bits_false]. Qed.

(** Rewrites the bits of an expression into those of its variables; the side
    conditions are linear. *)
Ltac bits_simpl :=
  repeat (rewrite ?Z.lor_spec, ?Z.land_spec, ?Z.lxor_spec;
          first [rewrite Z.shiftr_spec by lia | rewrite Z.shiftl_spec by lia | rewrite testbit_255 by lia]);
  rewrite ?Z.lor_spec, ?Z.land_spec, ?Z.lxor_spec.

(** Two numbers have the same low bits. *)
Ltac low_bits_ext :=
  apply low_bits_ext; let i := fresh "i" in intros i ?; bits_simpl.

(** Numbers with no bit in common are added. *)
Lemma lor_shiftl a b n : 0 <= n -> in_u n a -> Z.lor a (Z.shiftl b n) = a + b * 2 ^ n.
Proof.
  intros Hn Ha. rewrite <- Z.shiftl_mul_pow2 by done.
  assert (Z.land a (Z.shiftl b n) = 0) as Hand.
  { apply Z.bits_inj'. intros i Hi. rewrite Z.land_spec, Z.shiftl_spec, Z.bits_0 by done.
    destruct (decide (i < n)); [by rewrite (Z.testbit_neg_r b), andb_false_r by lia|].
    by rewrite (testbit_high n a) by (done || lia). }
  by rewrite <- Z.lxor_lor, <- Z.add_nocarry_lxor by done.
Qed.

(** The highest bit of a byte, and the others. *)
Lemma byte_split w :
  in_u 8 w -> Z.land w 127 = w mod 128 /\ Z.land w 128 = (if w <? 128 then 0 else 128).
Proof.
  intros [H0 H1]. split; [change 127 with (Z.ones 7); by rewrite Z.land_ones|].
  apply Z.bits_inj'. intros i Hi. rewrite Z.land_spec. change 128 with (2 ^ 7) at 1. rewrite testbit_pow2 by lia.
  destruct (Z.ltb_spec w 128); destruct (Z.eqb_spec 7 i) as [<-|Hne]; rewrite ?andb_true_r, ?andb_false_r, ?Z.bits_0; try done.
  - apply (testbit_high 7); [by split|lia].
  - change (Z.testbit 128 7) with true. rewrite Z.testbit_true by lia. change (2 ^ 7) with 128.
    change (2 ^ 8) with 256 in H1. Z.to_euclidean_division_equations; lia.
  - change 128 with (2 ^ 7). by rewrite Z.pow2_bits_false.
Qed.
