(* ===== verification/Tree.v ===== *)
(** * Trees without recursion

    [pallas-codec/src/tree.rs]: decoding and traversing recursive structures with an
    explicit stack.  Each driver is proved equal to the recursive definition it
    stands for, with a bound of its iterations.  A stack is a list whose head is the
    element that is popped next. *)
From S2P Require Import Prelude Effects Cbor.

(** ** Nodes *)

(** [child] panics at an index that is out of range. *)
Class IndexedNode (Node : Type) := {
  child_count : Node -> nat;
  child : Node -> nat -> option Node
}.

(** [children_mut] is the child list, if there is one; [with_children] replaces it. *)
Class TreeNode (Node : Type) := {
  children : Node -> list Node;
  children_mut : Node -> option (list Node);
  with_children : Node -> list Node -> Node
}.

#[export] Instance TreeNode_indexed `{TreeNode Node} : IndexedNode Node := {|
  child_count s := length (children s);
  child s i := children s !! i
|}.

(** ** The drivers *)
Module Visit.
Inductive t (Node : Type) :=
| Enter (node : Node)
| Between (node : Node)
| Exit (node : Node).
Arguments Enter {Node} _.
Arguments Between {Node} _.
Arguments Exit {Node} _.
End Visit.
Import Visit.

Record Frame (Node T : Type) := { node : Node; next : nat; results : list T }.
Arguments node {Node T} _.
Arguments next {Node T} _.
Arguments results {Node T} _.
Arguments Build_Frame {Node T} _ _ _.

Section drivers.
Context `{IndexedNode Node} {E St : Type}.

(** The loop over [(0..count).rev()]: [i] children are left to be pushed. *)
Fixpoint push_children (node : Node) (i : nat) (stack : list (Visit.t Node)) : option (list (Visit.t Node)) :=
  match i with
  | O => Some stack
  | S i =>
      c ← child node i;
      push_children node i (if (0 <? i)%nat then Between node :: Enter c :: stack else Enter c :: stack)
  end.

Fixpoint walk_loop (fuel : nat) (visit : Visit.t Node -> comp E St ()) (stack : list (Visit.t Node)) : comp E St () :=
  match fuel with
  | O => unfinished
  | S fuel =>
      match stack with
      | [] => mret ()
      | Enter node :: stack =>
          visit (Enter node);;
          stack ← eval (push_children node (child_count node) (Exit node :: stack));
          walk_loop fuel visit stack
      | step :: stack => visit step;; walk_loop fuel visit stack
      end
  end.

Definition walk_tree (fuel : nat) (root : Node) (visit : Visit.t Node -> comp E St ()) : comp E St () :=
  walk_loop fuel visit [Enter root].

Definition open {T} (n : Node) : Frame Node T := {| node := n; next := 0; results := [] |}.

Fixpoint fold_loop {T} (fuel : nat) (finish : Node -> list T -> comp E St T) (stack : list (Frame Node T)) : comp E St T :=
  match fuel, stack with
  | O, _ => unfinished
  | S fuel, [] => eval None
  | S fuel, top :: stack =>
      if (next top <? child_count (node top))%nat then
        c ← eval (child (node top) (next top));
        fold_loop fuel finish (open c :: {| node := node top; next := next top + 1; results := results top |} :: stack)
      else
        result ← finish (node top) (results top);
        match stack with
        | parent :: stack =>
            fold_loop fuel finish ({| node := node parent; next := next parent;
                                      results := results parent ++ [result] |} :: stack)
        | [] => mret result
        end
  end.

Definition fold_tree {T} (fuel : nat) (root : Node) (finish : Node -> list T -> comp E St T) : comp E St T :=
  fold_loop fuel finish [open root].

(** The pairs of the children with the indices [0..count], the last one on top. *)
Fixpoint push_pairs (l r : Node) (count : nat) : option (list (Node * Node)) :=
  match count with
  | O => Some []
  | S i => x ← child l i; y ← child r i; ps ← push_pairs l r i; Some ((x, y) :: ps)
  end.

Fixpoint eq_loop (fuel : nat) (same_node : Node -> Node -> bool) (pending : list (Node * Node)) : comp E St bool :=
  match fuel with
  | O => unfinished
  | S fuel =>
      match pending with
      | [] => mret true
      | (l, r) :: pending =>
          let count := child_count l in
          if negb (same_node l r) || negb (count =? child_count r)%nat then mret false
          else
            pairs ← eval (push_pairs l r count);
            eq_loop fuel same_node (pairs ++ pending)
      end
  end.

Definition eq_tree (fuel : nat) (l r : Node) (same_node : Node -> Node -> bool) : comp E St bool :=
  eq_loop fuel same_node [(l, r)].

Inductive Step :=
| Pair (l r : Node)
| Counts (l r : nat).

(** The pairs with the indices below [n] in reverse, so that the first one is on
    top; [i] of them are left to be pushed. *)
Fixpoint push_steps (l r : Node) (i : nat) (pending : list Step) : option (list Step) :=
  match i with
  | O => Some pending
  | S i => x ← child l i; y ← child r i; push_steps l r i (Pair x y :: pending)
  end.

(** The comparison of two nodes may panic. *)
Fixpoint cmp_loop (fuel : nat) (cmp_node : Node -> Node -> option comparison) (pending : list Step) : comp E St comparison :=
  match fuel with
  | O => unfinished
  | S fuel =>
      match pending with
      | [] => mret Eq
      | Counts l r :: pending =>
          match (l ?= r)%nat with
          | Eq => cmp_loop fuel cmp_node pending
          | ordering => mret ordering
          end
      | Pair l r :: pending =>
          ordering ← eval (cmp_node l r);
          match ordering with
          | Eq =>
              let counts := (child_count l, child_count r) in
              pending ← eval (push_steps l r (counts.1 `min` counts.2) (Counts counts.1 counts.2 :: pending));
              cmp_loop fuel cmp_node pending
          | ordering => mret ordering
          end
      end
  end.

Definition cmp_tree (fuel : nat) (l r : Node) (cmp_node : Node -> Node -> option comparison) : comp E St comparison :=
  cmp_loop fuel cmp_node [Pair l r].
End drivers.

(** The nodes that [drop_children] destroys, each without its children; the children
    of a node are appended to the pending ones. *)
Section drop.
Context `{TreeNode Node} {E St : Type}.

Fixpoint drop_loop (fuel : nat) (pending dropped : list Node) : comp E St (list Node) :=
  match fuel with
  | O => unfinished
  | S fuel =>
      match pending with
      | [] => mret dropped
      | c :: pending =>
          match children_mut c with
          | Some cs => drop_loop fuel (rev cs ++ pending) (dropped ++ [with_children c []])
          | None => drop_loop fuel pending (dropped ++ [c])
          end
      end
  end.

(** The node keeps no child; with the node come those that are destroyed. *)
Definition drop_children (fuel : nat) (n : Node) : comp E St (Node * list Node) :=
  match children_mut n with
  | None => mret (n, [])
  | Some cs => dropped ← drop_loop fuel (rev cs) []; mret (with_children n [], dropped)
  end.
End drop.

(** ** Decoding *)
Inductive Arity :=
| Leaf
| Fixed (n : Z)
| Indefinite.

Definition Arity_from (len : option Z) : Arity :=
  match len with Some n => Fixed n | None => Indefinite end.

(** A decoder as a computation on the input that is left. *)
Definition run_dec {A} (d : dec A) : comp decode_error bytes A := fun b =>
  match d b with
  | Ok (x, rest) => Returned (Ok x) rest
  | Err e => Returned (Err e) b
  end.

(** [add_child] panics where the builder takes no child. *)
Class TreeDecode (T : Type) := {
  Builder : Type;
  begin : comp decode_error bytes (Builder * Arity);
  add_child : Builder -> T -> option (result decode_error Builder);
  finish : Builder -> dec T
}.

Section decode.
Context `{Minicbor} `{TreeDecode T}.

Record DecodeFrame := { builder : Builder; arity : Arity }.

Definition Frame_begin : comp decode_error bytes DecodeFrame :=
  x ← begin; mret {| builder := x.1; arity := x.2 |}.

Definition expects_child (f : DecodeFrame) : comp decode_error bytes (bool * DecodeFrame) :=
  match arity f with
  | Leaf => mret (false, f)
  | Fixed n => mret (negb (n =? 0), f)
  | Indefinite =>
      ty ← run_dec d_datatype;
      if decide (ty = TBreak) then
        run_dec d_skip;; mret (false, {| builder := builder f; arity := Leaf |})
      else mret (true, f)
  end.

(** The parent with one child more; [remaining -= 1] follows a child that was
    expected. *)
Definition attach (parent : DecodeFrame) (node : T) : comp decode_error bytes DecodeFrame :=
  r ← eval (add_child (builder parent) node);
  b ← returns r;
  mret {| builder := b; arity := match arity parent with Fixed n => Fixed (n - 1) | a => a end |}.

Fixpoint decode_loop (fuel : nat) (parents : list DecodeFrame) (current : DecodeFrame) : comp decode_error bytes T :=
  match fuel with
  | O => unfinished
  | S fuel =>
      x ← expects_child current;
      let '(expected, current) := x in
      if expected : bool then
        next ← Frame_begin; decode_loop fuel (current :: parents) next
      else
        node ← run_dec (finish (builder current));
        match parents with
        | [] => mret node
        | parent :: parents => current ← attach parent node; decode_loop fuel parents current
        end
  end.

(** Every turn opens a node, which reads, or closes one. *)
Definition decode_tree : comp decode_error bytes T := fun b =>
  (current ← Frame_begin; decode_loop (S (2 * length b)) [] current) b.
End decode.

(** ** The recursive definitions *)

(** A tree is finite: its size counts its nodes. *)
Class FiniteTree (Node : Type) `{IndexedNode Node} := {
  kids : Node -> list Node;
  size : Node -> nat;
  kids_count s : length (kids s) = child_count s;
  kids_lookup s i : child s i = kids s !! i;
  size_kids s : size s = S (sum_list (size <$> kids s))
}.

Section recursive.
Context `{FiniteTree Node}.

Lemma sum_list_elem (c : Node) l : c ∈ l -> (size c <= sum_list (size <$> l))%nat.
Proof. induction 1; csimpl; lia. Qed.

Lemma size_kid c s : c ∈ kids s -> (size c < size s)%nat.
Proof. intros Hc. rewrite (size_kids s). apply sum_list_elem in Hc. lia. Qed.

(** Induction over trees. *)
Lemma tree_ind (P : Node -> Prop) : (forall s, (forall c, c ∈ kids s -> P c) -> P s) -> forall s, P s.
Proof.
  intros HP s. remember (size s) as n eqn:Hn. revert s Hn.
  induction n as [n IH] using lt_wf_ind. intros s ->. apply HP. intros c Hc.
  by apply (IH (size c)); [apply size_kid|].
Qed.

(** A function of a node and its values at the children, by recursion. *)
Fixpoint recur {V} (f : Node -> list V -> V) (default : V) (n : nat) (s : Node) : V :=
  match n with O => default | S n => f s (recur f default n <$> kids s) end.

Definition rec_tree {V} (f : Node -> list V -> V) (default : V) (s : Node) : V := recur f default (size s) s.

Lemma recur_enough {V} (f : Node -> list V -> V) default n s :
  (size s <= n)%nat -> recur f default n s = rec_tree f default s.
Proof.
  unfold rec_tree. revert n. induction s as [s IH] using tree_ind. intros n Hn.
  rewrite (size_kids s) in *. destruct n as [|n]; [lia|]. cbn [recur]. f_equal.
  apply list_fmap_ext. intros i c Hc%list_elem_of_lookup_2. pose proof (sum_list_elem c _ Hc).
  rewrite (IH c Hc n) by lia. symmetry. apply IH; [done|lia].
Qed.

Lemma rec_tree_eq {V} (f : Node -> list V -> V) default s :
  rec_tree f default s = f s (rec_tree f default <$> kids s).
Proof.
  unfold rec_tree at 1. rewrite (size_kids s). cbn [recur]. f_equal.
  apply list_fmap_ext. intros i c Hc%list_elem_of_lookup_2. pose proof (sum_list_elem c _ Hc).
  by apply recur_enough.
Qed.

Lemma child_lookup s i : (i < child_count s)%nat -> exists c, child s i = Some c /\ kids s !! i = Some c.
Proof.
  intros Hi. rewrite <- kids_count in Hi. destruct (lookup_lt_is_Some_2 _ _ Hi) as [c Hc].
  exists c. by rewrite kids_lookup.
Qed.

(** ** Walking *)

(** The visits of the children, with the parent between them. *)
Fixpoint interleave (s : Node) (ls : list (list (Visit.t Node))) : list (Visit.t Node) :=
  match ls with
  | [] => []
  | [l] => l
  | l :: ls => l ++ Between s :: interleave s ls
  end.

Definition events : Node -> list (Visit.t Node) :=
  rec_tree (fun s ls => Enter s :: interleave s ls ++ [Exit s]) [].

Lemma events_eq s : events s = Enter s :: interleave s (events <$> kids s) ++ [Exit s].
Proof. exact (rec_tree_eq (fun s ls => Enter s :: interleave s ls ++ [Exit s]) [] s). Qed.

(** What a step on the stack stands for. *)
Definition expand (v : Visit.t Node) : list (Visit.t Node) :=
  match v with Enter s => events s | v => [v] end.

Lemma interleave_snoc s ls l :
  interleave s (ls ++ [l]) = interleave s ls ++ match ls with [] => l | _ => Between s :: l end.
Proof.
  induction ls as [|k ls IH]; [done|]. destruct ls as [|k' ls]; [done|].
  cbn [app interleave] in *. rewrite IH, <- app_assoc. done.
Qed.

Definition steps_of (s : Node) (cs : list Node) : list (Visit.t Node) := interleave s ((fun c => [Enter c]) <$> cs).

Lemma expand_steps s cs : concat (expand <$> steps_of s cs) = interleave s (events <$> cs).
Proof.
  unfold steps_of. induction cs as [|c [|c' cs] IH]; [done|cbn; by rewrite app_nil_r|].
  cbn [fmap list_fmap interleave app concat expand] in *. by rewrite IH.
Qed.

Lemma push_children_steps s i stack :
  (i <= child_count s)%nat -> push_children s i stack = Some (steps_of s (take i (kids s)) ++ stack).
Proof.
  revert stack; induction i as [|i IH]; intros stack Hi; [done|].
  destruct (child_lookup s i Hi) as (c & Hc & Hk). cbn [push_children]. rewrite Hc. cbn [mbind option_bind].
  rewrite IH by lia. f_equal. rewrite (take_S_r _ _ _ Hk). unfold steps_of. rewrite fmap_app. cbn [fmap list_fmap].
  rewrite interleave_snoc, <- app_assoc. f_equal.
  destruct i as [|i]; [done|]. destruct (kids s); done.
Qed.

Context {E St : Type} (visit : Visit.t Node -> comp E St ()).

(** The visits one by one, up to the first error. *)
Fixpoint visit_all (vs : list (Visit.t Node)) : comp E St () :=
  match vs with [] => mret () | v :: vs => visit v;; visit_all vs end.

Lemma walk_loop_events fuel stack st :
  (length (concat (expand <$> stack)) < fuel)%nat ->
  walk_loop fuel visit stack st = visit_all (concat (expand <$> stack)) st.
Proof.
  revert stack st; induction fuel as [|fuel IH]; intros stack st Hf; [lia|].
  destruct stack as [|v stack]; [done|]. cbn [walk_loop].
  destruct v as [s|s|s]; cbn [fmap list_fmap concat expand app visit_all] in *.
  - rewrite events_eq in *. cbn [app visit_all length] in *. unfold mbind, comp_bind.
    destruct (visit (Enter s) st) as [[u|e] st'| |]; try done.
    unfold eval. rewrite push_children_steps, take_ge by (rewrite ?kids_count; lia).
    rewrite IH.
    + by rewrite fmap_app, concat_app, expand_steps, <- app_assoc.
    + rewrite fmap_app, concat_app, expand_steps. cbn [fmap list_fmap concat expand]. rewrite <- app_assoc in Hf. lia.
  - unfold mbind, comp_bind. destruct (visit (Between s) st) as [[u|e] st'| |]; try done.
    apply IH. simpl in Hf. lia.
  - unfold mbind, comp_bind. destruct (visit (Exit s) st) as [[u|e] st'| |]; try done.
    apply IH. simpl in Hf. lia.
Qed.

Lemma length_interleave s ls :
  (length (interleave s ls) <= sum_list (length <$> ls) + length ls)%nat.
Proof.
  induction ls as [|l [|l' ls] IH]; csimpl; [lia|lia|]. rewrite length_app. csimpl in *. lia.
Qed.

Lemma length_events s : (S (length (events s)) <= 3 * size s)%nat.
Proof.
  induction s as [s IH] using tree_ind. rewrite events_eq, (size_kids s). cbn [length]. rewrite length_app.
  pose proof (length_interleave s (events <$> kids s)) as Hl. rewrite length_fmap in Hl.
  enough (sum_list (length <$> (events <$> kids s)) + length (kids s) <= 3 * sum_list (size <$> kids s))%nat by (cbn [length]; lia).
  clear Hl. induction (kids s) as [|c cs IHcs]; [done|]. csimpl.
  pose proof (IH c ltac:(by left)). specialize (IHcs ltac:(intros d Hd; apply IH; by right)). lia.
Qed.

(** [walk_tree] visits in the order of the recursive definition. *)
Lemma walk_tree_events fuel root st :
  (3 * size root <= fuel)%nat -> walk_tree fuel root visit st = visit_all (events root) st.
Proof.
  intros Hf. unfold walk_tree. pose proof (length_events root).
  rewrite walk_loop_events; cbn [fmap list_fmap concat expand]; rewrite app_nil_r; [done|lia].
Qed.
End recursive.

(** ** Folding *)
Section fold.
Context `{FiniteTree Node} {E St T : Type} (finish : Node -> list T -> comp E St T).

(** The results of the children in order, and then that of the node. *)
Definition fold_rec : Node -> comp E St T :=
  rec_tree (fun s ms => rs ← mapM id ms; finish s rs) unfinished.

Lemma fold_rec_eq s : fold_rec s = (rs ← mapM id (fold_rec <$> kids s); finish s rs).
Proof. exact (rec_tree_eq (fun s ms => rs ← mapM id ms; finish s rs) unfinished s). Qed.

(** What becomes of a result below the stack. *)
Definition resume (fuel : nat) (stack : list (Frame Node T)) (r : T) : comp E St T :=
  match stack with
  | parent :: stack =>
      fold_loop fuel finish ({| node := node parent; next := next parent; results := results parent ++ [r] |} :: stack)
  | [] => mret r
  end.

(** The turns that a node takes, and those of children that are left. *)
Definition turns (s : Node) : nat := (2 * size s - 1)%nat.
Definition turns_left (cs : list Node) : nat := sum_list ((fun c => 2 * size c)%nat <$> cs).

Lemma turns_eq s : turns s = S (turns_left (kids s)).
Proof.
  unfold turns, turns_left. rewrite (size_kids s).
  induction (kids s) as [|c cs IH]; csimpl in *; lia.
Qed.

Lemma fold_loop_frame s i rs stack k st :
  (forall c, c ∈ kids s -> forall stack k st, fold_loop (turns c + k) finish (open c :: stack) st =
     (r ← fold_rec c; resume k stack r) st) ->
  (i <= length (kids s))%nat ->
  fold_loop (S (turns_left (drop i (kids s))) + k) finish ({| node := s; next := i; results := rs |} :: stack) st =
    (rs' ← mapM id (fold_rec <$> drop i (kids s)); r ← finish s (rs ++ rs'); resume k stack r) st.
Proof.
  intros IH. remember (length (kids s) - i)%nat as m eqn:Hm. revert i rs k st Hm.
  induction m as [|m IHm]; intros i rs k st Hm Hi.
  - rewrite drop_ge by lia. cbn [turns_left fmap list_fmap sum_list foldr mapM Nat.add fold_loop node next results].
    rewrite (proj2 (Nat.ltb_ge _ _)) by (rewrite <- kids_count; lia).
    unfold mbind, comp_bind, mret, comp_ret. cbn [mapM]. rewrite app_nil_r.
    destruct (finish s rs st) as [[r|e] st'| |]; done.
  - destruct (child_lookup s i) as (c & Hc & Hk); [rewrite <- kids_count; lia|].
    pose proof (drop_S _ _ _ Hk) as Hd. rewrite Hd.
    replace (S (turns_left (c :: drop (S i) (kids s))) + k)%nat
      with (S (turns c + (S (turns_left (drop (S i) (kids s))) + k)))%nat
      by (unfold turns, turns_left; csimpl; rewrite (size_kids c); lia).
    cbn [fold_loop node next results]. rewrite (proj2 (Nat.ltb_lt _ _)) by (rewrite <- kids_count; lia).
    rewrite Hc. unfold eval, mbind, comp_bind at 1. rewrite IH; [|by eapply list_elem_of_lookup_2].
    cbn [fmap list_fmap mapM]. unfold mbind, comp_bind at 1. cbn [id].
    unfold comp_bind. cbn [id]. destruct (fold_rec c st) as [[r|e] st'| |]; try done.
    cbn [resume node next results]. rewrite Nat.add_1_r.
    pose proof (IHm (S i) (rs ++ [r]) k st' ltac:(lia) ltac:(lia)) as IHi. unfold mbind, comp_bind in IHi. rewrite IHi.
    destruct (mapM id (fold_rec <$> drop (S i) (kids s)) st') as [[rs'|e] st''| |]; try done.
    unfold mret, comp_ret. by rewrite <- app_assoc.
Qed.

Lemma fold_loop_open s stack k st :
  fold_loop (turns s + k) finish (open s :: stack) st = (r ← fold_rec s; resume k stack r) st.
Proof.
  revert stack k st. induction s as [s IH] using tree_ind. intros stack k st.
  rewrite turns_eq. unfold open. rewrite <- (drop_0 (kids s)) at 1.
  rewrite (fold_loop_frame s 0 [] stack k st IH) by lia. rewrite drop_0, fold_rec_eq.
  unfold mbind, comp_bind. destruct (mapM (M:=comp E St) id _ st) as [[rs|e] st'| |]; try done.
Qed.

Lemma fold_tree_rec fuel root st :
  (2 * size root <= fuel)%nat -> fold_tree fuel root finish st = fold_rec root st.
Proof.
  intros Hf. unfold fold_tree. replace fuel with (turns root + (fuel - turns root))%nat
    by (unfold turns; lia).
  rewrite fold_loop_open. cbn [resume]. unfold mbind, comp_bind.
  by destruct (fold_rec root st) as [[r|e] st'| |].
Qed.
End fold.

(** ** Comparing *)
Section compare.
Context `{FiniteTree Node} {E St : Type}.

Definition same_tree (same_node : Node -> Node -> bool) : Node -> Node -> bool :=
  rec_tree (fun l fs r => same_node l r && (length fs =? child_count r)%nat && forallb id (zip_with (fun f c => f c) fs (kids r)))
    (fun _ => false).

Lemma same_tree_eq same_node l r :
  same_tree same_node l r = same_node l r && (child_count l =? child_count r)%nat
    && forallb (fun p => same_tree same_node p.1 p.2) (zip (kids l) (kids r)).
Proof.
  unfold same_tree at 1. rewrite rec_tree_eq, length_fmap, kids_count. f_equal.
  fold (same_tree same_node). generalize (kids r).
  induction (kids l) as [|c cs IH]; intros [|d ds]; [done..|]. csimpl. by rewrite IH.
Qed.

Lemma push_pairs_zip l r i :
  (i <= child_count l)%nat -> child_count l = child_count r ->
  push_pairs l r i = Some (rev (take i (zip (kids l) (kids r)))).
Proof.
  intros Hi Hlr. induction i as [|i IH]; [done|]. cbn [push_pairs].
  destruct (child_lookup l i Hi) as (c & -> & Hc). destruct (child_lookup r i ltac:(lia)) as (d & -> & Hd).
  cbn [mbind option_bind]. rewrite IH by lia. cbn [mbind option_bind]. f_equal.
  rewrite (take_S_r (zip (kids l) (kids r)) i (c, d)).
  - by rewrite rev_app_distr.
  - by rewrite lookup_zip_with, Hc, Hd.
Qed.

Lemma forallb_rev {A} (f : A -> bool) l : forallb f (rev l) = forallb f l.
Proof. induction l as [|x l IH]; [done|]. simpl. rewrite forallb_app, IH. simpl. destruct (f x), (forallb f l); done. Qed.

Lemma sum_list_app ns ms : (sum_list (ns ++ ms) = sum_list ns + sum_list ms)%nat.
Proof. induction ns; simpl; lia. Qed.

Lemma sum_list_rev {A} (f : A -> nat) l : sum_list (f <$> rev l) = sum_list (f <$> l).
Proof. induction l as [|x l IH]; [done|]. cbn [rev]. rewrite fmap_app, sum_list_app, IH. csimpl. lia. Qed.

Definition left_size (ps : list (Node * Node)) : nat := sum_list ((fun p => size p.1) <$> ps).

Lemma left_size_zip cs ds : (left_size (rev (zip cs ds)) <= sum_list (size <$> cs))%nat.
Proof.
  unfold left_size. rewrite sum_list_rev. revert ds; induction cs as [|c cs IH]; intros [|d ds]; csimpl; [lia..|]. specialize (IH ds). lia.
Qed.

Lemma eq_loop_same fuel same_node pending (st : St) :
  (left_size pending < fuel)%nat ->
  eq_loop (E := E) fuel same_node pending st = Returned (Ok (forallb (fun p => same_tree same_node p.1 p.2) pending)) st.
Proof.
  revert pending; induction fuel as [|fuel IH]; intros pending Hf; [lia|].
  destruct pending as [|[l r] pending]; [done|]. cbn [eq_loop forallb fst snd].
  rewrite same_tree_eq. destruct (same_node l r); [|done]. cbn [negb orb andb].
  destruct (Nat.eqb_spec (child_count l) (child_count r)) as [Hlr|]; [|done]. cbn [negb andb].
  rewrite push_pairs_zip, take_ge by (rewrite ?length_zip_with, ?kids_count; lia).
  unfold mbind, comp_bind, eval. rewrite IH; [by rewrite forallb_app, forallb_rev|].
  unfold left_size in *. rewrite fmap_app, sum_list_app. pose proof (left_size_zip (kids l) (kids r)) as Hz.
  unfold left_size in Hz. csimpl in *. cbn [fst] in *. rewrite (size_kids l) in Hf. lia.
Qed.

(** The first difference in lexicographic order; what follows it is not compared. *)
Definition first_difference (os : list (option comparison)) (o : option comparison) : option comparison :=
  foldr (fun o o' => match o with Some Eq => o' | o => o end) o os.

Definition order_tree (cmp_node : Node -> Node -> option comparison) : Node -> Node -> option comparison :=
  rec_tree (fun l fs r =>
    first_difference (cmp_node l r :: zip_with (fun f c => f c) fs (kids r)) (Some (length fs ?= child_count r)%nat))
    (fun _ => None).

Lemma order_tree_eq cmp_node l r :
  order_tree cmp_node l r =
    first_difference (cmp_node l r :: ((fun p => order_tree cmp_node p.1 p.2) <$> zip (kids l) (kids r)))
      (Some (child_count l ?= child_count r)%nat).
Proof.
  unfold order_tree at 1. rewrite rec_tree_eq, length_fmap, kids_count. do 2 f_equal.
  fold (order_tree cmp_node). generalize (kids r).
  induction (kids l) as [|c cs IH]; intros [|d ds]; [done..|]. csimpl. by rewrite IH.
Qed.

Definition step_order (cmp_node : Node -> Node -> option comparison) (s : Step) : option comparison :=
  match s with Pair l r => order_tree cmp_node l r | Counts l r => Some (l ?= r)%nat end.
Definition step_size (s : Step) : nat := match s with Pair l r => 2 * size l | Counts _ _ => 1 end%nat.

Lemma push_steps_zip l r i pending :
  (i <= child_count l)%nat -> (i <= child_count r)%nat ->
  push_steps l r i pending = Some (((fun p => Pair p.1 p.2) <$> take i (zip (kids l) (kids r))) ++ pending).
Proof.
  revert pending; induction i as [|i IH]; intros pending Hl Hr; [done|]. cbn [push_steps].
  destruct (child_lookup l i Hl) as (c & -> & Hc). destruct (child_lookup r i Hr) as (d & -> & Hd).
  cbn [mbind option_bind]. rewrite IH by lia. rewrite (take_S_r (zip (kids l) (kids r)) i (c, d)).
  - by rewrite fmap_app, <- app_assoc.
  - by rewrite lookup_zip_with, Hc, Hd.
Qed.

Lemma first_difference_app os os' o :
  first_difference (os ++ os') o = first_difference os (first_difference os' o).
Proof. apply foldr_app. Qed.

Lemma first_difference_end os c o :
  first_difference os (match c with Eq => o | c => Some c end)
    = match first_difference os (Some c) with Some Eq => o | _ => first_difference os (Some c) end.
Proof. induction os as [|[[]|] os IH]; simpl; [by destruct c|exact IH|done..]. Qed.

Lemma step_size_zip cs ds :
  (sum_list (step_size <$> ((fun p => Pair p.1 p.2) <$> zip cs ds)) <= 2 * sum_list (size <$> cs))%nat.
Proof. revert ds; induction cs as [|c cs IH]; intros [|d ds]; csimpl; [lia..|]. specialize (IH ds). lia. Qed.

Lemma cmp_loop_order fuel cmp_node pending (st : St) :
  (sum_list (step_size <$> pending) < fuel)%nat ->
  cmp_loop (E := E) fuel cmp_node pending st
    = eval (first_difference (step_order cmp_node <$> pending) (Some Eq)) st.
Proof.
  revert pending; induction fuel as [|fuel IH]; intros pending Hf; [lia|].
  destruct pending as [|[l r|l r] pending]; [done| |]; csimpl in *; cbn [cmp_loop step_order step_size first_difference foldr] in *.
  - rewrite order_tree_eq. cbn [first_difference foldr].
    destruct (cmp_node l r) as [[]|]; unfold mbind, comp_bind at 1, eval at 1; [|done..]. cbn [fst snd].
    rewrite push_steps_zip, take_ge by (rewrite ?length_zip_with, ?kids_count; lia).
    unfold mbind, comp_bind, eval at 1. rewrite IH.
    + rewrite fmap_app, first_difference_app. csimpl. cbn [step_order first_difference foldr].
      rewrite <- list_fmap_compose. unfold compose. cbn [step_order].
      f_equal. apply first_difference_end.
    + rewrite fmap_app, sum_list_app. pose proof (step_size_zip (kids l) (kids r)). csimpl.
      rewrite (size_kids l) in Hf. lia.
  - destruct (l ?= r)%nat; [|done..]. by apply IH; lia.
Qed.

Lemma eq_tree_same fuel same_node l r (st : St) :
  (size l < fuel)%nat -> eq_tree (E := E) fuel l r same_node st = Returned (Ok (same_tree same_node l r)) st.
Proof.
  intros Hf. unfold eq_tree. rewrite eq_loop_same by (unfold left_size; csimpl; lia). cbn [forallb fst snd].
  by rewrite andb_true_r.
Qed.

Lemma cmp_tree_order fuel cmp_node l r (st : St) :
  (2 * size l < fuel)%nat -> cmp_tree (E := E) fuel l r cmp_node st = eval (order_tree cmp_node l r) st.
Proof.
  intros Hf. unfold cmp_tree. rewrite cmp_loop_order by (csimpl; lia). csimpl. cbn [step_order first_difference foldr].
  by destruct (order_tree cmp_node l r) as [[]|].
Qed.
End compare.

(** ** Dropping *)
Class LawfulTree (Node : Type) {TN : TreeNode Node} {FT : FiniteTree Node (H := TreeNode_indexed)} : Prop := {
  kids_children s : kids s = children s;
  children_mut_some s cs : children_mut s = Some cs -> children s = cs;
  children_mut_none s : children_mut s = None -> children s = [];
  children_replaced s cs l : children_mut s = Some l -> children (with_children s cs) = cs
}.

Section dropped.
Context `{LawfulTree Node} {E St : Type}.

(** Without its children, a node is destroyed without recursion. *)
Lemma drop_loop_all fuel pending dropped (st : St) :
  (sum_list (size <$> pending) < fuel)%nat -> Forall (fun c => children c = []) dropped ->
  exists ds, drop_loop (E := E) fuel pending dropped st = Returned (Ok ds) st /\
    length ds = (length dropped + sum_list (size <$> pending))%nat /\
    Forall (fun c => children c = []) ds.
Proof.
  revert pending dropped; induction fuel as [|fuel IH]; intros pending dropped Hf Hd; [lia|].
  destruct pending as [|c pending]; [exists dropped; split_and!; csimpl; (done || lia)|].
  csimpl in *. pose proof (size_kids c) as Hc. rewrite kids_children in Hc. cbn [drop_loop].
  destruct (children_mut c) as [cs|] eqn:Hm.
  - rewrite (children_mut_some _ _ Hm) in Hc.
    destruct (IH (rev cs ++ pending) (dropped ++ [with_children c []])) as (ds & -> & Hl & Hds).
    + rewrite fmap_app, sum_list_app, sum_list_rev. lia.
    + apply Forall_app_2; [done|]. apply Forall_singleton. by eapply children_replaced.
    + exists ds. split_and!; [done| |done]. rewrite Hl, length_app, fmap_app, sum_list_app, sum_list_rev. simpl. lia.
  - rewrite (children_mut_none _ Hm) in Hc. csimpl in Hc.
    destruct (IH pending (dropped ++ [c])) as (ds & -> & Hl & Hds); [lia| |].
    + apply Forall_app_2; [done|]. apply Forall_singleton. by apply children_mut_none.
    + exists ds. split_and!; [done| |done]. rewrite Hl, length_app. simpl. lia.
Qed.

Lemma drop_children_all fuel n (st : St) :
  (size n <= fuel)%nat ->
  exists n' ds, drop_children (E := E) fuel n st = Returned (Ok (n', ds)) st /\
    children n' = [] /\ S (length ds) = size n /\ Forall (fun c => children c = []) ds.
Proof.
  intros Hf. unfold drop_children. rewrite (size_kids n), kids_children in *.
  destruct (children_mut n) as [cs|] eqn:Hm.
  - rewrite (children_mut_some _ _ Hm) in *.
    destruct (drop_loop_all fuel (rev cs) [] st) as (ds & Hd & Hl & Hds); [rewrite sum_list_rev; lia|done|].
    exists (with_children n []), ds. unfold mbind, comp_bind. rewrite Hd, Hl, sum_list_rev.
    split_and!; [done|by eapply children_replaced|done|done].
  - pose proof (children_mut_none _ Hm) as Hc. exists n, []. rewrite Hc. by split_and!.
Qed.
End dropped.

(** ** Decoding terminates *)

(** Beginning a node returns, and reads something; a node that expects children
    takes them. *)
Class TreeDecodeLaws (T : Type) `{TreeDecode T} := {
  takes : Builder (T := T) -> Prop;
  begin_returns b : exists r b', begin (T := T) b = Returned r b';
  begin_reads b x b' : begin (T := T) b = Returned (Ok x) b' -> (length b' < length b)%nat;
  begin_takes b x b' : begin (T := T) b = Returned (Ok x) b' -> x.2 = Leaf \/ takes x.1;
  add_child_returns bu t : takes bu -> exists r, add_child (T := T) bu t = Some r /\ forall bu', r = Ok bu' -> takes bu';
  finish_shrinks bu b t rest : finish (T := T) bu b = Ok (t, rest) -> (length rest <= length b)%nat
}.

Lemma stable_shrinks {A} (d : dec A) b x rest : Stable d -> d b = Ok (x, rest) -> (length rest <= length b)%nat.
Proof. intros Hs Hd. destruct (Hs _ _ _ Hd) as [[p ->] _]. rewrite length_app. lia. Qed.

(** A computation that returns, and does not put anything back. *)
Definition Total {A} (m : comp decode_error bytes A) : Prop :=
  forall b, exists r b', m b = Returned r b' /\ (length b' <= length b)%nat.

Lemma Total_ret {A} (x : A) : Total (mret x).
Proof. intros b. by exists (Ok x), b. Qed.

Lemma Total_throw {A} e : Total (throw (A := A) e).
Proof. intros b. by exists (Err e), b. Qed.

Lemma Total_run_dec {A} (d : dec A) : Stable d -> Total (run_dec d).
Proof.
  intros Hd b. unfold run_dec. destruct (d b) as [[x r]|e] eqn:Hb; eexists _, _; (split; [done|]); [|done].
  by apply stable_shrinks in Hb.
Qed.

Lemma Total_bind {A B} (m : comp decode_error bytes A) (k : A -> comp decode_error bytes B) :
  Total m -> (forall a, Total (k a)) -> Total (m ≫= k).
Proof.
  intros Hm Hk b. unfold mbind, comp_bind. destruct (Hm b) as ([a|e] & b1 & -> & Hl); [|by eauto].
  destruct (Hk a b1) as (r & b2 & -> & Hl2). exists r, b2. split; [done|lia].
Qed.

Lemma decodes_bind {A B} (d : dec A) (k : A -> comp decode_error bytes B) b x b' :
  Consumes d -> (forall a, Total (k a)) -> (run_dec d ≫= k) b = Returned (Ok x) b' -> (length b' < length b)%nat.
Proof.
  intros Hd Hk. unfold mbind, comp_bind, run_dec. destruct (d b) as [[a r]|e] eqn:Hb; [|done].
  apply Hd in Hb. destruct (Hk a r) as (r2 & b2 & -> & Hl). intros [= -> ->]. lia.
Qed.

(** A decoder that reads what an encoder wrote, as a computation. *)
Lemma run_dec_parses {A} (d : dec A) w x rest : Parses d (Some w) x -> run_dec d (w ++ rest) = Returned (Ok x) rest.
Proof. intros Hd. unfold run_dec. by rewrite (Hd w rest eq_refl). Qed.

Section decoded.
Context `{MinicborLaws} `{TreeDecodeLaws T}.

(** A node with its children, by recursion; [n] bounds the depth. *)
Fixpoint complete (n : nat) (f : DecodeFrame) : comp decode_error bytes T :=
  match n with
  | O => unfinished
  | S n =>
      x ← expects_child f;
      let '(expected, f) := x in
      if expected : bool then
        t ← (f' ← Frame_begin; complete n f');
        f ← attach f t;
        complete n f
      else run_dec (finish (builder f))
  end.

Definition decode_rec : comp decode_error bytes T := fun b =>
  (f ← Frame_begin; complete (S (length b)) f) b.

Lemma run_dec_shrinks {A} (d : dec A) b x b' :
  (forall y r, d b = Ok (y, r) -> (length r <= length b)%nat) -> run_dec d b = Returned (Ok x) b' ->
  (length b' <= length b)%nat.
Proof.
  intros Hd. unfold run_dec. destruct (d b) as [[y r]|e]; [|done]. intros [= <- <-]. by apply (Hd y r).
Qed.

Definition frame_ok (f : DecodeFrame) : Prop := arity f = Leaf \/ takes (builder f).

Lemma Frame_begin_reads b x b' :
  Frame_begin b = Returned (Ok x) b' -> (length b' < length b)%nat /\ frame_ok x.
Proof.
  unfold Frame_begin, mbind, comp_bind. destruct (begin b) as [[y|e] r| |] eqn:Hb; try done. intros [= <- <-].
  split; [by apply (begin_reads _ _ _ Hb)|]. by apply begin_takes in Hb.
Qed.

Lemma Frame_begin_outcome b : (exists x b', Frame_begin b = Returned (Ok x) b') \/ exists e b', Frame_begin b = Returned (Err e) b'.
Proof.
  unfold Frame_begin, mbind, comp_bind. destruct (begin_returns b) as ([y|e] & b' & ->); by eauto.
Qed.

Lemma expects_child_shrinks f b x b' : expects_child f b = Returned (Ok x) b' -> (length b' <= length b)%nat.
Proof.
  unfold expects_child. destruct (arity f) as [|n|]; [by intros [= <- <-]..|].
  unfold mbind, comp_bind, run_dec.
  destruct (d_datatype b) as [[ty r]|e] eqn:Ht; [|done]. apply stable_shrinks in Ht; [|apply datatype_stable].
  destruct (decide (ty = TBreak)); [|intros [= <- <-]; done].
  destruct (d_skip r) as [[u r']|es] eqn:Hs; [|done]. apply stable_shrinks in Hs; [|apply skip_stable].
  intros [= <- <-]. lia.
Qed.

Lemma expects_child_outcome f b :
  (exists x b', expects_child f b = Returned (Ok x) b') \/ exists e b', expects_child f b = Returned (Err e) b'.
Proof.
  unfold expects_child. destruct (arity f) as [|n|]; [by eauto..|].
  unfold mbind, comp_bind, run_dec. destruct (d_datatype b) as [[ty r]|e]; [|by eauto].
  destruct (decide (ty = TBreak)); [|by eauto]. destruct (d_skip r) as [[u r']|es]; by eauto.
Qed.

(** A child is expected by a node that is not a leaf. *)
Lemma expects_child_open f b f' b' :
  expects_child f b = Returned (Ok (true, f')) b' -> frame_ok f -> takes (builder f').
Proof.
  unfold expects_child. intros He Hok. destruct (arity f) as [|n|] eqn:Ha; [done| |].
  - destruct Hok as [Hok|Hok]; [congruence|]. by injection He as _ <- _.
  - destruct Hok as [Hok|Hok]; [congruence|]. unfold mbind, comp_bind, run_dec in He.
    destruct (d_datatype b) as [[ty r]|e]; [|done]. destruct (decide (ty = TBreak)).
    + by destruct (d_skip r) as [[u r']|].
    + by injection He as <- _.
Qed.

Lemma attach_state f t b b' x : attach f t b = Returned x b' -> b' = b.
Proof.
  unfold attach, mbind, comp_bind, eval, returns. destruct (add_child (builder f) t) as [[bu|e]|]; [..|done]; by intros [= _ <-].
Qed.

Lemma attach_outcome f t b :
  takes (builder f) -> exists r, attach f t b = Returned r b /\ forall f', r = Ok f' -> frame_ok f'.
Proof.
  intros Ht. unfold attach, mbind, comp_bind, eval, returns.
  destruct (add_child_returns _ t Ht) as ([bu|e] & -> & Hr); eexists; (split; [done|]); [|done].
  intros f' [= <-]. right. by apply Hr.
Qed.

Lemma complete_shrinks n f b t b' : complete n f b = Returned (Ok t) b' -> (length b' <= length b)%nat.
Proof.
  revert f b t b'; induction n as [|n IH]; intros f b t b'; [done|]. cbn [complete]. unfold mbind, comp_bind.
  destruct (expects_child f b) as [[[[] f1]|er] b1| |] eqn:He; try done; apply expects_child_shrinks in He.
  - destruct (Frame_begin b1) as [[f2|er] b2| |] eqn:Hb; try done. apply Frame_begin_reads in Hb as [Hb _].
    destruct (complete n f2 b2) as [[u|er] b3| |] eqn:Hc; try done. apply IH in Hc.
    destruct (attach f1 u b3) as [[f3|er] b4| |] eqn:Hat; try done. apply attach_state in Hat as ->. intros Hr%IH. lia.
  - intros Hr. apply run_dec_shrinks in Hr; [lia|]. intros y r. apply finish_shrinks.
Qed.

Lemma complete_enough n m f b :
  (length b < n)%nat -> (length b < m)%nat -> complete n f b = complete m f b.
Proof.
  revert m f b; induction n as [|n IH]; intros [|m] f b Hn Hm; [lia..|]. cbn [complete]. unfold mbind, comp_bind.
  destruct (expects_child f b) as [[[[] f1]|er] b1| |] eqn:He; try done; apply expects_child_shrinks in He.
  destruct (Frame_begin b1) as [[f2|er] b2| |] eqn:Hb; try done. apply Frame_begin_reads in Hb as [Hb _].
  rewrite (IH m) by lia. destruct (complete m f2 b2) as [[u|er] b3| |] eqn:Hc; try done.
  apply complete_shrinks in Hc. destruct (attach f1 u b3) as [[f3|er] b4| |] eqn:Hat; try done.
  apply attach_state in Hat as ->. apply IH; lia.
Qed.

Lemma complete_finishes n f b :
  (length b < n)%nat -> frame_ok f -> exists r b', complete n f b = Returned r b'.
Proof.
  revert f b; induction n as [|n IH]; intros f b Hn Hf; [lia|]. cbn [complete]. unfold mbind, comp_bind.
  destruct (expects_child_outcome f b) as [([[] f1] & b1 & He)|(e & b1 & He)]; rewrite He; [| |by eauto].
  - pose proof (expects_child_open _ _ _ _ He Hf) as Ho. apply expects_child_shrinks in He.
    destruct (Frame_begin_outcome b1) as [(f2 & b2 & Hb)|(e & b2 & Hb)]; rewrite Hb; [|by eauto].
    apply Frame_begin_reads in Hb as [Hb Hf2]. destruct (IH f2 b2 ltac:(lia) Hf2) as (r & b3 & Hc). rewrite Hc.
    destruct r as [u|]; [|by eauto]. apply complete_shrinks in Hc.
    destruct (attach_outcome f1 u b3 Ho) as ([f3|] & -> & Hf3); [|by eauto]. apply IH; [lia|by apply Hf3].
  - unfold run_dec. destruct (finish (builder f1) b1) as [[]|]; by eauto.
Qed.

(** A decoded node, and the open ones below it. *)
Fixpoint unwind (n : nat) (parents : list DecodeFrame) (t : T) : comp decode_error bytes T :=
  match parents with
  | [] => mret t
  | p :: parents => f ← attach p t; t ← complete n f; unwind n parents t
  end.

Lemma decode_loop_complete fuel n parents f b :
  (length b < n)%nat -> (2 * length b + length parents < fuel)%nat ->
  decode_loop fuel parents f b = (t ← complete n f; unwind n parents t) b.
Proof.
  intros Hn. destruct n as [|n]; [lia|].
  revert parents f b Hn; induction fuel as [|fuel IH]; intros parents f b Hn Hf; [lia|].
  cbn [decode_loop complete]. unfold mbind, comp_bind in *.
  destruct (expects_child f b) as [[[[] f1]|er] b1| |] eqn:He; try done; apply expects_child_shrinks in He.
  - destruct (Frame_begin b1) as [[f2|er] b2| |] eqn:Hb; try done. apply Frame_begin_reads in Hb as [Hb _].
    rewrite IH by (simpl; lia). rewrite (complete_enough (S n) n) by lia.
    destruct (complete n f2 b2) as [[u|er] b3| |] eqn:Hc; try done. apply complete_shrinks in Hc.
    cbn [unwind]. unfold mbind, comp_bind. destruct (attach f1 u b3) as [[f3|er] b4| |] eqn:Hat; try done.
    apply attach_state in Hat as ->. by rewrite (complete_enough (S n) n) by lia.
  - destruct (run_dec (finish (builder f1)) b1) as [[u|er] b2| |] eqn:Hc; try done.
    apply run_dec_shrinks in Hc; [|intros y r; apply finish_shrinks].
    destruct parents as [|p parents]; [done|]. cbn [unwind]. unfold mbind, comp_bind.
    destruct (attach p u b2) as [[f3|er] b4| |] eqn:Hat; try done. apply attach_state in Hat as ->.
    apply IH; [lia|]. simpl in Hf. lia.
Qed.

Lemma decode_tree_rec b : decode_tree b = decode_rec b.
Proof.
  unfold decode_tree, decode_rec, mbind, comp_bind.
  destruct (Frame_begin b) as [[f|e] b'| |] eqn:Hb; try done. apply Frame_begin_reads in Hb as [Hb _].
  rewrite (decode_loop_complete _ (S (length b))) by (simpl; lia). unfold mbind, comp_bind. cbn [unwind].
  by destruct (complete (S (length b)) f b') as [[t|er] b''| |].
Qed.

(** Whatever the input, a tree is decoded or refused. *)
Lemma decode_rec_finishes b : exists r b', decode_rec b = Returned r b'.
Proof.
  unfold decode_rec, mbind, comp_bind.
  destruct (Frame_begin_outcome b) as [(f & b' & Hb)|(e & b' & Hb)]; rewrite Hb; [|by eauto].
  apply Frame_begin_reads in Hb as [Hb Hf]. apply complete_finishes; [lia|done].
Qed.
End decoded.

(** ** Trees on the wire

    What precedes the children of a node, and what follows them. *)
Section wire.
Context `{FiniteTree Node} (header footer : Node -> bytes) (ok : Node -> Prop).
Hypothesis ok_kids : forall s c, ok s -> c ∈ kids s -> ok c.

Definition wire : Node -> bytes := rec_tree (fun s ws => header s ++ concat ws ++ footer s) [].

Lemma wire_eq s : wire s = header s ++ concat (wire <$> kids s) ++ footer s.
Proof. exact (rec_tree_eq (fun s ws => header s ++ concat ws ++ footer s) [] s). Qed.

Section write.
Context {E : Type} (visit : Visit.t Node -> comp E bytes ()).
Hypothesis visit_Enter : forall s out, ok s -> visit (Enter s) out = Returned (Ok ()) (out ++ header s).
Hypothesis visit_Between : forall s out, ok s -> visit (Between s) out = Returned (Ok ()) out.
Hypothesis visit_Exit : forall s out, ok s -> visit (Exit s) out = Returned (Ok ()) (out ++ footer s).

Lemma visit_all_app vs ws st : visit_all visit (vs ++ ws) st = (visit_all visit vs;; visit_all visit ws) st.
Proof.
  revert st; induction vs as [|v vs IH]; intros st; [done|]. cbn [app visit_all]. unfold mbind, comp_bind in *.
  destruct (visit v st) as [[[]|e] st'| |]; [apply IH|done..].
Qed.

Lemma events_written s out : ok s -> visit_all visit (events s) out = Returned (Ok ()) (out ++ wire s).
Proof.
  revert out; induction s as [s IH] using tree_ind. intros out Hs. rewrite events_eq, wire_eq. cbn [visit_all].
  unfold mbind, comp_bind at 1. rewrite visit_Enter by done. rewrite visit_all_app. unfold mbind, comp_bind.
  enough (visit_all visit (interleave s (events <$> kids s)) (out ++ header s)
    = Returned (Ok ()) ((out ++ header s) ++ concat (wire <$> kids s))) as ->.
  { cbn [visit_all]. unfold mbind, comp_bind. rewrite visit_Exit by done. by rewrite <- !app_assoc. }
  generalize (out ++ header s). pose proof (fun c Hc => ok_kids s c Hs Hc) as Hk. clear out.
  induction (kids s) as [|c cs IHcs]; intros out; [by rewrite app_nil_r|].
  assert (ok c) as Hc by (apply Hk; by left). destruct cs as [|d cs].
  - cbn [fmap list_fmap interleave concat]. rewrite app_nil_r. apply IH; [by left|done].
  - cbn [fmap list_fmap interleave concat] in *. rewrite visit_all_app. unfold mbind, comp_bind.
    rewrite IH by (by left || done). cbn [visit_all]. unfold mbind, comp_bind. rewrite visit_Between by done.
    rewrite IHcs; [by rewrite <- !app_assoc|intros; apply IH; [by right|done]|intros; apply Hk; by right].
Qed.

Lemma tree_written fuel s out :
  (3 * size s <= fuel)%nat -> ok s -> walk_tree fuel s visit out = Returned (Ok ()) (out ++ wire s).
Proof. intros Hf Hs. rewrite walk_tree_events by done. by apply events_written. Qed.
End write.

(** *** ... and read back *)
Section read.
Context `{MinicborLaws} `{TreeDecodeLaws T} (wrap : Node -> T).
(** the builder of a node with the first of its children *)
Context (grown : Node -> nat -> Builder (T := T)) (arity_of : Node -> Arity).
Hypothesis begin_header : forall s rest, ok s -> begin (header s ++ rest) = Returned (Ok (grown s 0, arity_of s)) rest.
Hypothesis add_kid : forall s i c, ok s -> kids s !! i = Some c -> add_child (grown s i) (wrap c) = Some (Ok (grown s (S i))).
Hypothesis arity_footer : forall s, ok s ->
  match arity_of s with
  | Leaf => kids s = [] /\ forall rest, finish (grown s 0) (footer s ++ rest) = Ok (wrap s, rest)
  | Fixed n => n = Z.of_nat (length (kids s)) /\
      forall rest, finish (grown s (length (kids s))) (footer s ++ rest) = Ok (wrap s, rest)
  | Indefinite => footer s = e_end /\ forall rest, finish (grown s (length (kids s))) rest = Ok (wrap s, rest)
  end.
(** what a node opens with does not end the list of an indefinite length *)
Hypothesis header_type : forall s rest, ok s ->
  exists ty, d_datatype (header s ++ rest) = Ok (ty, header s ++ rest) /\ ty <> TBreak.

Definition frame_at (s : Node) (i : nat) : DecodeFrame :=
  {| builder := grown s i;
     arity := match arity_of s with Fixed n => Fixed (n - Z.of_nat i) | a => a end |}.

Lemma wire_type s rest : ok s -> exists ty, d_datatype (wire s ++ rest) = Ok (ty, wire s ++ rest) /\ ty <> TBreak.
Proof. intros Hs. rewrite wire_eq, <- app_assoc. by apply header_type. Qed.

Definition read_back (s : Node) (n : nat) : Prop := forall rest, ok s -> (length (wire s ++ rest) <= n)%nat ->
  (f ← Frame_begin; complete n f) (wire s ++ rest) = Returned (Ok (wrap s)) rest.

Lemma attach_kid s i c rest :
  ok s -> kids s !! i = Some c -> attach (frame_at s i) (wrap c) rest = Returned (Ok (frame_at s (S i))) rest.
Proof.
  intros Hs Hc. unfold attach. unfold mbind, comp_bind, eval, returns, frame_at; cbn [builder arity].
  rewrite (add_kid _ _ _ Hs Hc). unfold mret, comp_ret. do 3 f_equal. destruct (arity_of s); try done. f_equal. lia.
Qed.

Lemma kid_expected s i c rest :
  ok s -> kids s !! i = Some c ->
  expects_child (frame_at s i) (wire c ++ rest) = Returned (Ok (true, frame_at s i)) (wire c ++ rest).
Proof.
  intros Hs Hc. pose proof (arity_footer s Hs) as Ha. pose proof (lookup_lt_Some _ _ _ Hc) as Hi.
  assert (ok c) as Hok by (apply (ok_kids s); [done|by eapply list_elem_of_lookup_2]).
  unfold expects_child, frame_at; cbn [arity builder]. destruct (arity_of s) as [|n|].
  - destruct Ha as [Hk _]. by rewrite Hk in Hc.
  - destruct Ha as [-> _]. rewrite (proj2 (Z.eqb_neq _ _)) by lia. done.
  - unfold mbind, comp_bind, run_dec. destruct (wire_type c rest Hok) as (ty & -> & Hty).
    by rewrite decide_False.
Qed.

Lemma complete_kids s i n rest :
  ok s -> (forall c, c ∈ kids s -> forall n, read_back c n) -> (i <= length (kids s))%nat ->
  (length (concat (wire <$> drop i (kids s)) ++ footer s ++ rest) < n)%nat ->
  complete n (frame_at s i) (concat (wire <$> drop i (kids s)) ++ footer s ++ rest) = Returned (Ok (wrap s)) rest.
Proof.
  intros Hs IH. remember (length (kids s) - i)%nat as m eqn:Hm. revert i n Hm.
  induction m as [|m IHm]; intros i n Hm Hi Hn; (destruct n as [|n]; [lia|]).
  - assert (i = length (kids s)) as -> by lia. rewrite drop_all. cbn [fmap list_fmap concat app complete] in *.
    pose proof (arity_footer s Hs) as Ha. unfold expects_child, frame_at, mbind, comp_bind; cbn [arity builder].
    destruct (arity_of s) as [|k|].
    + destruct Ha as [Hk Hf]. rewrite Hk. unfold mret, comp_ret, run_dec; cbn [builder length]. by rewrite Hf.
    + destruct Ha as [-> Hf]. rewrite Z.sub_diag. cbn [Z.eqb negb]. unfold mret, comp_ret, run_dec; cbn [builder]. by rewrite Hf.
    + destruct Ha as [Hfo Hf]. rewrite Hfo. unfold mret, comp_ret, run_dec; cbn [builder].
      rewrite datatype_break, decide_True by done. rewrite (break_skipped e_end rest eq_refl). by rewrite Hf.
  - destruct (lookup_lt_is_Some_2 (kids s) i ltac:(lia)) as [c Hc]. rewrite (drop_S _ _ _ Hc) in *.
    cbn [fmap list_fmap concat complete] in *. rewrite <- app_assoc in *.
    set (rest' := concat (wire <$> drop (S i) (kids s)) ++ footer s ++ rest) in *.
    unfold mbind, comp_bind at 1. rewrite (kid_expected s i c rest' Hs Hc).
    assert (c ∈ kids s) as Hck by by eapply list_elem_of_lookup_2.
    pose proof (IH c Hck n rest' (ok_kids s c Hs Hck) ltac:(lia)) as Hr.
    unfold comp_bind at 1. unfold mbind in Hr. rewrite Hr. unfold comp_bind. rewrite (attach_kid s i c rest' Hs Hc).
    apply IHm; [lia..|]. fold rest'. unfold mbind, comp_bind in Hr.
    destruct (Frame_begin (wire c ++ rest')) as [[f|e] b'| |] eqn:Hb; try done.
    apply Frame_begin_reads in Hb as [Hb _]. apply complete_shrinks in Hr. lia.
Qed.

Lemma decode_rec_wire s n : read_back s n.
Proof.
  revert n. induction s as [s IH] using tree_ind. intros n rest Hs Hn. rewrite wire_eq in *.
  unfold Frame_begin. rewrite <- !app_assoc in *. unfold mbind, comp_bind.
  rewrite begin_header by done. cbn [fst snd].
  assert ({| builder := grown s 0; arity := arity_of s |} = frame_at s 0) as Hf.
  { unfold frame_at. destruct (arity_of s); try done. by rewrite Z.sub_0_r. }
  unfold mret, comp_ret. rewrite Hf. rewrite <- (drop_0 (kids s)) at 1.
  pose proof (begin_reads _ _ _ (begin_header s (concat (wire <$> kids s) ++ footer s ++ rest) Hs)).
  apply complete_kids; [done| |lia|rewrite drop_0; lia].
  intros c Hc n' rest'. by apply IH.
Qed.

Lemma decode_tree_wire s rest : ok s -> decode_tree (wire s ++ rest) = Returned (Ok (wrap s)) rest.
Proof.
  intros Hs. rewrite decode_tree_rec. unfold decode_rec. apply decode_rec_wire; [done|lia].
Qed.
End read.
End wire.

(** C29: the traversals with an explicit stack compute what the recursive definitions
    do.  [walk_tree] makes the visits of a depth-first traversal, with the parent
    between two children, and stops at the first error; [fold_tree] combines the
    results of the children in order; [eq_tree] compares trees of the same shape node
    by node; [cmp_tree] is the lexicographic order that compares the nodes' own data,
    then the children pairwise, then their number.  The turns that their loops take
    are bounded by the number of nodes. *)
Theorem traversals_recursive {Node E St T} `{FiniteTree Node} (s t : Node) (k : nat) (st : St)
    (visit : Visit.t Node -> comp E St ()) (finish : Node -> list T -> comp E St T)
    (same : Node -> Node -> bool) (cmp : Node -> Node -> option comparison) :
  walk_tree (3 * size s + k) s visit st = visit_all visit (events s) st /\
  fold_tree (2 * size s + k) s finish st = fold_rec finish s st /\
  eq_tree (E := E) (S (size s) + k) s t same st = Returned (Ok (same_tree same s t)) st /\
  cmp_tree (E := E) (S (2 * size s) + k) s t cmp st = eval (order_tree cmp s t) st.
Proof.
  split_and!; [apply walk_tree_events|apply fold_tree_rec|apply eq_tree_same|apply cmp_tree_order]; lia.
Qed.
