(* ===== verification/NativeScript.v ===== *)
(** * Hashes and native scripts

    [pallas-crypto/src/hash/hash.rs] (the CBOR codec of a hash),
    [pallas-primitives/src/native_script.rs] and the native scripts of the eras that
    share it, in [alonzo] and [dijkstra].  A script is as deep as its transaction is
    long; the code decodes, encodes, copies, compares and destroys it with the
    drivers of [pallas-codec/src/tree.rs]. *)
From S2P Require Import Prelude Effects Cbor Rfc8949 Tree.
Import Visit.

(** ** Byte strings and hashes *)
Section hashes.
Context `{Minicbor}.

Definition decode_bytes_def_or_indef : dec bytes :=
  ty ← d_datatype;
  if decide (ty = TBytesIndef) then chunks ← d_bytes_iter; mret (concat chunks) else d_bytes.

(** [Hash<BYTES>], without the feature [relaxed]. *)
Definition Hash_encode (h : bytes) : enc := w_bytes h.
Definition Hash_decode (n : nat) : dec bytes :=
  b ← decode_bytes_def_or_indef;
  if (length b =? n)%nat then mret b else dec_fail (DecodeMessage "Invalid hash size").

Context `{!MinicborLaws _}.

Lemma decode_bytes_definite x : fits_len x -> Parses decode_bytes_def_or_indef (w_bytes x) x.
Proof.
  intros Hx b rest [= <-]. unfold decode_bytes_def_or_indef, mbind, dec_bind.
  rewrite datatype_bytes by done. by apply bytes_parses.
Qed.

Lemma decode_bytes_indefinite xs :
  Forall fits_len xs ->
  Parses decode_bytes_def_or_indef (w_begin_bytes ⊕ enc_all ((fun x => w_bytes x) <$> xs) ⊕ w_end) (concat xs).
Proof.
  intros Hxs b rest Hb. pose proof (bytes_iter_parses xs Hxs b rest Hb) as Hp.
  apply enc_app_Some in Hb as (b1 & b2 & [= <-] & _ & ->).
  unfold decode_bytes_def_or_indef, mbind, dec_bind. rewrite <- app_assoc in *.
  rewrite datatype_bytes_indef, decide_True by done. by rewrite Hp.
Qed.

Lemma decode_bytes_stable : Stable decode_bytes_def_or_indef.
Proof. unfold decode_bytes_def_or_indef. solve_stable. Qed.

Lemma Hash_parses n h : length h = n -> Z.of_nat n < 2 ^ 64 -> Parses (Hash_decode n) (Hash_encode h) h.
Proof.
  intros <- Hn. eapply Parses_bind_last; [apply decode_bytes_definite; split; lia|].
  rewrite Nat.eqb_refl. apply Parses_ret.
Qed.

Lemma Hash_stable n : Stable (Hash_decode n).
Proof. unfold Hash_decode. apply Stable_bind; [apply decode_bytes_stable|]. solve_stable. Qed.
End hashes.

(** ** The scripts of an era

    The leaves an era adds to the six variants of Shelley. *)
Class Era (L : Type) := {
  leaf_decode : Z -> option (dec L);
  leaf_index : L -> Z;
  leaf_encode : L -> enc
}.

Class EraLaws (L : Type) `{Era L} := {
  valid_leaf : L -> Prop;
  leaf_index_range l : valid_leaf l -> 6 <= leaf_index l < 256;
  leaf_parses l : valid_leaf l ->
    exists d b, leaf_decode (leaf_index l) = Some d /\ leaf_encode l = Some b /\ Parses d (Some b) l;
  leaf_stable v d : leaf_decode v = Some d -> Stable d
}.

Inductive NativeScript (L : Type) :=
| ScriptPubkey (h : bytes)
| ScriptAll (xs : list (NativeScript L))
| ScriptAny (xs : list (NativeScript L))
| ScriptNOfK (n : Z) (xs : list (NativeScript L))
| InvalidBefore (slot : Z)
| InvalidHereafter (slot : Z)
| EraLeaf (l : L).
Arguments ScriptPubkey {L} _.
Arguments ScriptAll {L} _.
Arguments ScriptAny {L} _.
Arguments ScriptNOfK {L} _ _.
Arguments InvalidBefore {L} _.
Arguments InvalidHereafter {L} _.
Arguments EraLeaf {L} _.

(** Alonzo to Conway: no further leaves. *)
#[export] Instance alonzo_era : Era Empty_set := {|
  leaf_decode _ := None;
  leaf_index := Empty_set_rect (fun _ => Z);
  leaf_encode := Empty_set_rect (fun _ => enc)
|}.

Inductive StakeCredential :=
| ScriptHash (h : bytes)
| AddrKeyhash (h : bytes).

(** Dijkstra: [6 => ScriptRequireGuard(StakeCredential)]; the codec of a credential is
    derived. *)
#[export] Instance dijkstra_era `{Encode StakeCredential, Decode StakeCredential} : Era StakeCredential := {|
  leaf_decode v := if v =? 6 then Some decode else None;
  leaf_index _ := 6;
  leaf_encode l := encode l
|}.

Definition children_of {L} (s : NativeScript L) : option (list (NativeScript L)) :=
  match s with
  | ScriptAll xs | ScriptAny xs | ScriptNOfK _ xs => Some xs
  | _ => None
  end.

(** The node rebuilt over the children; leaves ignore them. *)
Definition rebuild {L} (s : NativeScript L) (xs : list (NativeScript L)) : NativeScript L :=
  match s with
  | ScriptAll _ => ScriptAll xs
  | ScriptAny _ => ScriptAny xs
  | ScriptNOfK n _ => ScriptNOfK n xs
  | s => s
  end.

#[export] Instance NativeScript_node L : TreeNode (NativeScript L) := {|
  children s := default [] (children_of s);
  children_mut := children_of;
  with_children := rebuild
|}.

Fixpoint script_size {L} (s : NativeScript L) : nat :=
  S match s with
    | ScriptAll xs | ScriptAny xs | ScriptNOfK _ xs => sum_list (script_size <$> xs)
    | _ => 0
    end.

#[export] Instance NativeScript_tree L : FiniteTree (NativeScript L).
Proof. refine {| kids := children; size := script_size |}; [done|done|by intros []]. Defined.

Section script.
Context `{Minicbor} `{Era L} `{EqDecision L}.

Definition field_count (variant : Z) : option Z :=
  match variant with
  | 0 | 1 | 2 | 4 | 5 => Some 2
  | 3 => Some 3
  | _ => _ ← leaf_decode variant; Some 2
  end.

(** [unreachable!] for a variant that [field_count] does not know *)
Definition script_begin (variant : Z) : comp decode_error bytes (NativeScript L) :=
  match variant with
  | 0 => h ← run_dec (Hash_decode 28); mret (ScriptPubkey h)
  | 1 => mret (ScriptAll [])
  | 2 => mret (ScriptAny [])
  | 3 => n ← run_dec d_i64; mret (ScriptNOfK n [])
  | 4 => n ← run_dec d_u64; mret (InvalidBefore n)
  | 5 => n ← run_dec d_u64; mret (InvalidHereafter n)
  | _ => d ← eval (leaf_decode variant); l ← run_dec d; mret (EraLeaf l)
  end.

Definition write_header (s : NativeScript L) : enc :=
  match s with
  | ScriptPubkey x => w_array 2 ⊕ w_u8 0 ⊕ Hash_encode x
  | ScriptAll xs => w_array 2 ⊕ w_u8 1 ⊕ w_array (Z.of_nat (length xs))
  | ScriptAny xs => w_array 2 ⊕ w_u8 2 ⊕ w_array (Z.of_nat (length xs))
  | ScriptNOfK n xs => w_array 3 ⊕ w_u8 3 ⊕ w_i64 n ⊕ w_array (Z.of_nat (length xs))
  | InvalidBefore x => w_array 2 ⊕ w_u8 4 ⊕ w_u64 x
  | InvalidHereafter x => w_array 2 ⊕ w_u8 5 ⊕ w_u64 x
  | EraLeaf x => w_array 2 ⊕ w_u8 (leaf_index x) ⊕ leaf_encode x
  end.

Definition same_node (s t : NativeScript L) : bool :=
  match s, t with
  | ScriptPubkey a, ScriptPubkey b => bool_decide (a = b)
  | ScriptAll _, ScriptAll _ | ScriptAny _, ScriptAny _ => true
  | ScriptNOfK a _, ScriptNOfK b _ => a =? b
  | InvalidBefore a, InvalidBefore b | InvalidHereafter a, InvalidHereafter b => a =? b
  | EraLeaf a, EraLeaf b => bool_decide (a = b)
  | _, _ => false
  end.

Record ScriptBuilder := { script : NativeScript L; trailing_fields : Z }.

Definition Node_begin : comp decode_error bytes (ScriptBuilder * Arity) :=
  len ← run_dec d_array;
  len ← (match len with
         | Some len => mret len
         | None => throw (DecodeMessage "flat enum requires definite-length array")
         end : comp decode_error bytes Z);
  if len =? 0 then throw (DecodeMessage "flat enum requires non-empty array")
  else
    variant ← run_dec d_i64;
    required ← (match field_count variant with
                | Some required => mret required
                | None => throw (UnknownVariant variant)
                end : comp decode_error bytes Z);
    if len <? required then throw (MissingValue (len - 1))
    else
      script ← script_begin variant;
      arity ← (match children_mut script with
               | Some _ => len ← run_dec d_array; mret (Arity_from len)
               | None => mret Leaf
               end : comp decode_error bytes Arity);
      mret ({| script := script; trailing_fields := len - required |}, arity).

(** "only containers report children" *)
Definition Node_child (b : ScriptBuilder) (c : NativeScript L) : option (result decode_error ScriptBuilder) :=
  xs ← children_mut (script b);
  Some (Ok {| script := rebuild (script b) (xs ++ [c]); trailing_fields := trailing_fields b |}).

Fixpoint skip_fields (n : nat) : dec unit :=
  match n with O => mret tt | S n => d_skip;; skip_fields n end.

Definition Node_end (b : ScriptBuilder) : dec (NativeScript L) :=
  skip_fields (Z.to_nat (trailing_fields b));; mret (script b).

#[export] Instance Node_decode : TreeDecode (NativeScript L) := {|
  Builder := ScriptBuilder;
  begin := Node_begin;
  add_child := Node_child;
  finish := Node_end
|}.

Definition script_decode : comp decode_error bytes (NativeScript L) := decode_tree.

(** The state is what has been written; an encoder of a leaf may fail. *)
Definition script_visit (v : Visit.t (NativeScript L)) : comp unit bytes unit :=
  match v with
  | Enter s => match write_header s with Some b => modify (fun out => out ++ b) | None => throw tt end
  | Between _ | Exit _ => mret tt
  end.

Definition script_encode (s : NativeScript L) : comp unit bytes unit := walk_tree (3 * size s) s script_visit.

Definition script_clone {St} (s : NativeScript L) : comp unit St (NativeScript L) :=
  fold_tree (2 * size s) s (fun s xs => mret (rebuild s xs)).

Definition script_eq {St} (s t : NativeScript L) : comp unit St bool := eq_tree (S (size s)) s t same_node.

Definition script_drop {St} (s : NativeScript L) : comp unit St (NativeScript L * list (NativeScript L)) :=
  drop_children (size s) s.
End script.

(** ** Reading *)
Section reading.
Context `{MinicborLaws} `{EraLaws L} `{EqDecision L}.

Ltac total :=
  repeat first [apply Total_ret | apply Total_throw | apply Total_bind; [|intros ?]
    | apply Total_run_dec; eauto using Hash_stable with codec | case_match].

Lemma script_begin_total v r : field_count v = Some r -> Total (script_begin v).
Proof.
  unfold field_count, script_begin. intros Hf.
  assert (forall d, leaf_decode v = Some d -> Total (l ← run_dec d; mret (EraLeaf l))) as Hl.
  { intros d Hd. apply Total_bind; [apply Total_run_dec; by eapply leaf_stable|intros; apply Total_ret]. }
  repeat (case_match; try solve [total]);
  by (destruct (leaf_decode _) as [d|]; [|done]; apply Hl).
Qed.

Lemma bind_returned {A B} (m : comp decode_error bytes A) (k : A -> comp decode_error bytes B) b x b' :
  (m ≫= k) b = Returned (Ok x) b' -> exists a b1, m b = Returned (Ok a) b1 /\ k a b1 = Returned (Ok x) b'.
Proof. unfold mbind, comp_bind. destruct (m b) as [[a|e] b1| |]; naive_solver. Qed.

Lemma Node_begin_total : Total Node_begin.
Proof.
  unfold Node_begin. apply Total_bind; [total|]. intros len. apply Total_bind; [total|]. intros n. case_match; [total|].
  apply Total_bind; [total|]. intros v. destruct (field_count v) as [r|] eqn:Hf.
  - apply Total_bind; [total|]. intros r'. case_match; [total|].
    apply Total_bind; [by eapply script_begin_total|]. intros. total.
  - intros b. by exists (Err (UnknownVariant v)), b.
Qed.

Lemma Node_begin_takes b x b' :
  Node_begin b = Returned (Ok x) b' -> x.2 = Leaf \/ is_Some (children_mut (script x.1)).
Proof.
  unfold Node_begin. intros (l & b1 & _ & (n & b2 & _ & Hx)%bind_returned)%bind_returned.
  case_match; [done|]. apply bind_returned in Hx as (v & b3 & _ & (r & b4 & _ & Hx)%bind_returned).
  case_match; [done|]. apply bind_returned in Hx as (s & b5 & _ & (a & b6 & Ha & [= <- <-])%bind_returned).
  cbn [fst snd script]. destruct (children_mut s); [by right|]. injection Ha as <- _. by left.
Qed.

Lemma Node_begin_reads b x b' : Node_begin b = Returned (Ok x) b' -> (length b' < length b)%nat.
Proof.
  apply decodes_bind; [apply array_consumes|]. intros len.
  apply Total_bind; [total|]. intros n. case_match; [total|].
  apply Total_bind; [total|]. intros v. destruct (field_count v) as [r|] eqn:Hf.
  - apply Total_bind; [total|]. intros r'. case_match; [total|].
    apply Total_bind; [by eapply script_begin_total|]. intros. total.
  - intros b1. by exists (Err (UnknownVariant v)), b1.
Qed.

Lemma skip_fields_stable n : Stable (skip_fields n).
Proof. induction n as [|n IH]; cbn [skip_fields]; [solve_stable|]. apply Stable_bind; [eauto with codec|done]. Qed.

#[export] Instance Node_laws : TreeDecodeLaws (NativeScript L).
Proof.
  refine {| takes b := is_Some (children_mut (script b)) |}; cbn [begin add_child finish Node_decode].
  - intros b. destruct (Node_begin_total b) as (r & b' & Hb & _). by exists r, b'.
  - apply Node_begin_reads.
  - apply Node_begin_takes.
  - intros [s k] t [xs Hs]. unfold Node_child. cbn [script] in *. rewrite Hs. eexists; split; [done|].
    intros bu [= <-]. by destruct s.
  - intros b r t rest Ht. eapply stable_shrinks; [|exact Ht].
    apply Stable_bind; [apply skip_fields_stable|solve_stable].
Defined.

(** *** Scripts that the types allow *)
Definition valid_node (s : NativeScript L) : Prop :=
  match s with
  | ScriptPubkey h => length h = 28%nat
  | ScriptAll xs | ScriptAny xs => fits_len xs
  | ScriptNOfK n xs => - 2 ^ 63 <= n < 2 ^ 63 /\ fits_len xs
  | InvalidBefore n | InvalidHereafter n => in_u 64 n
  | EraLeaf l => valid_leaf l
  end.

Inductive valid_script (s : NativeScript L) : Prop :=
| valid_script_intro : valid_node s -> (forall c, c ∈ children s -> valid_script c) -> valid_script s.

Lemma valid_script_kids s c : valid_script s -> c ∈ kids s -> valid_script c.
Proof. intros [_ Hs]. apply Hs. Qed.

Definition script_header (s : NativeScript L) : bytes := default [] (write_header s).
Definition script_wire : NativeScript L -> bytes := wire script_header (fun _ => []).

Lemma write_header_Some s : valid_script s -> write_header s = Some (script_header s).
Proof.
  intros [Hv _]. unfold script_header. destruct s; try done. cbn in *.
  destruct (leaf_parses l Hv) as (d & b & _ & -> & _). done.
Qed.

(** The builder of a script with the first of its children. *)
Definition script_grown (s : NativeScript L) (i : nat) : ScriptBuilder :=
  {| script := rebuild s (take i (children s)); trailing_fields := 0 |}.

Definition script_arity (s : NativeScript L) : Arity :=
  match children_mut s with Some xs => Fixed (Z.of_nat (length xs)) | None => Leaf end.

Lemma bind_parses {A B} (d : dec A) (k : A -> comp decode_error bytes B) w x rest :
  Parses d (Some w) x -> (run_dec d ≫= k) (w ++ rest) = k x rest.
Proof. intros Hd. by apply bind_yields, run_dec_parses. Qed.

(** What the header of a variant says. *)
Lemma Node_begin_variant len v r w s rest rest' :
  in_u 64 len -> in_u 8 v -> field_count v = Some r -> len = r -> 0 < r ->
  script_begin v (w ++ rest) = Returned (Ok s) rest' ->
  Node_begin (e_array len ++ e_u8 v ++ w ++ rest) =
    (arity ← (match children_mut s with
              | Some _ => len ← run_dec d_array; mret (Arity_from len)
              | None => mret Leaf
              end : comp decode_error bytes Arity);
     mret ({| script := s; trailing_fields := 0 |}, arity)) rest'.
Proof.
  intros Hlen Hv Hf -> Hr Hs. unfold Node_begin.
  rewrite (bind_parses _ _ _ (Some r)) by eauto with codec.
  rewrite (bind_yields _ _ _ r (e_u8 v ++ w ++ rest)) by done.
  rewrite (proj2 (Z.eqb_neq _ _)) by lia.
  rewrite (bind_parses _ _ _ v) by eauto with codec. rewrite Hf.
  rewrite (bind_yields _ _ _ r (w ++ rest)) by done. rewrite Z.ltb_irrefl.
  rewrite (bind_yields _ _ _ s rest') by done. by rewrite Z.sub_diag.
Qed.

Ltac container len v :=
  unfold enc_app; cbn [from_option id]; rewrite <- !app_assoc;
  match goal with
  | |- Node_begin (_ ++ _ ++ e_array (Z.of_nat (length ?xs)) ++ ?rest) = _ =>
      rewrite <- (app_nil_l (e_array (Z.of_nat (length xs)) ++ rest));
      erewrite (Node_begin_variant len v len []); try done; cbn [children_mut children_of NativeScript_node app];
      by rewrite (bind_yields _ _ _ (Fixed (Z.of_nat (length xs))) rest)
        by (unfold yields; by rewrite (bind_parses _ _ _ (Some (Z.of_nat (length xs)))) by eauto with codec)
  end.

Ltac slot v s :=
  unfold enc_app; cbn [from_option id]; rewrite <- !app_assoc;
  match goal with
  | |- Node_begin (_ ++ _ ++ e_u64 ?n ++ ?rest) = _ =>
      rewrite (Node_begin_variant 2 v 2 _ s rest rest); try done;
      unfold script_begin; by rewrite (bind_parses _ _ _ n) by eauto with codec
  end.

Lemma Node_begin_header s rest :
  valid_script s -> Node_begin (script_header s ++ rest) = Returned (Ok (script_grown s 0, script_arity s)) rest.
Proof.
  intros Hs. destruct Hs as [Hv Hk]. unfold script_header, script_grown, script_arity.
  destruct s as [h|xs|xs|n xs|n|n|l]; cbn in Hv; cbn [write_header].
  - unfold enc_app, Hash_encode; cbn [from_option id]. rewrite <- !app_assoc.
    rewrite (Node_begin_variant 2 0 2 _ (ScriptPubkey h) rest rest); try done.
    unfold script_begin. rewrite (bind_parses _ _ _ h); [done|]. apply Hash_parses; [done|lia].
  - container 2 1.
  - container 2 2.
  - destruct Hv as [Hn Hv]. unfold enc_app; cbn [from_option id]. rewrite <- !app_assoc.
    rewrite (Node_begin_variant 3 3 3 _ (ScriptNOfK n []) (e_array (Z.of_nat (length xs)) ++ rest) (e_array (Z.of_nat (length xs)) ++ rest)); try done.
    + cbn [children_mut children_of NativeScript_node].
      by rewrite (bind_yields _ _ _ (Fixed (Z.of_nat (length xs))) rest)
        by (unfold yields; by rewrite (bind_parses _ _ _ (Some (Z.of_nat (length xs)))) by eauto with codec).
    + unfold script_begin. by rewrite (bind_parses _ _ _ n) by eauto with codec.
  - slot 4 (@InvalidBefore L n).
  - slot 5 (@InvalidHereafter L n).
  - destruct (leaf_parses l Hv) as (d & b & Hd & Hb & Hp). pose proof (leaf_index_range l Hv) as Hi.
    rewrite Hb. unfold enc_app; cbn [from_option id]. rewrite <- !app_assoc.
    rewrite (Node_begin_variant 2 (leaf_index l) 2 _ (EraLeaf l) rest rest); try done.
    + split; lia.
    + unfold field_count. rewrite Hd. repeat (case_match; try lia; try done).
    + unfold script_begin. repeat (case_match; try lia);
        rewrite ?Hd; unfold eval, mbind, comp_bind; by rewrite (run_dec_parses _ _ l).
Qed.

Lemma script_type s rest :
  valid_script s -> exists ty, d_datatype (script_header s ++ rest) = Ok (ty, script_header s ++ rest) /\ ty <> TBreak.
Proof.
  intros Hs. exists TArray. split; [|done].
  assert (exists n r, in_u 64 n /\ script_header s = e_array n ++ r) as (n & r & Hn & ->).
  { pose proof (write_header_Some s Hs) as Hw. revert Hw. generalize (script_header s). intros h.
    destruct s; cbn [write_header]; intros (x & y & [= <-] & _ & ->)%enc_app_Some; eexists _, y; (split; [|done]); done. }
  rewrite <- app_assoc. by apply datatype_array.
Qed.

(** ** Round trip *)
Lemma script_arity_footer s : valid_script s ->
  match script_arity s with
  | Leaf => kids s = [] /\ forall rest, Node_end (script_grown s 0) ([] ++ rest) = Ok (s, rest)
  | Fixed n => n = Z.of_nat (length (kids s)) /\
      forall rest, Node_end (script_grown s (length (kids s))) ([] ++ rest) = Ok (s, rest)
  | Indefinite => [] = e_end /\ forall rest, Node_end (script_grown s (length (kids s))) rest = Ok (s, rest)
  end.
Proof.
  intros _. unfold script_arity, Node_end, script_grown. cbn [kids children children_mut NativeScript_tree NativeScript_node].
  destruct s; cbn [children_of from_option id]; (split; [done|]); intros rest; cbn; unfold mret, dec_ret;
    rewrite ?firstn_all; done.
Qed.

Lemma script_decode_wire s rest : valid_script s -> script_decode (script_wire s ++ rest) = Returned (Ok s) rest.
Proof.
  intros Hs. unfold script_decode, script_wire.
  apply (decode_tree_wire script_header (fun _ => []) valid_script valid_script_kids (id : NativeScript L -> NativeScript L)
    (script_grown : NativeScript L -> nat -> @Builder (NativeScript L) Node_decode) script_arity).
  - intros t r Ht. by apply Node_begin_header.
  - intros t i c Ht Hc. cbn. unfold Node_child, script_grown; cbn [script trailing_fields id].
    cbn [kids NativeScript_tree children NativeScript_node] in Hc.
    destruct t; cbn in Hc |- *; try done; by rewrite <- (take_S_r _ _ _ Hc).
  - apply script_arity_footer.
  - apply script_type.
  - done.
Qed.

Lemma script_encode_wire s out : valid_script s -> script_encode s out = Returned (Ok ()) (out ++ script_wire s).
Proof.
  intros Hs. unfold script_encode, script_wire.
  apply (tree_written _ _ valid_script valid_script_kids); [..|lia|done].
  - intros t o Ht. cbn. by rewrite write_header_Some.
  - done.
  - intros t o _. cbn. by rewrite app_nil_r.
Qed.
End reading.

(** ** Copying, comparing, destroying *)
Section copying.
Context `{EqDecision L}.

Lemma rebuild_children (s : NativeScript L) : rebuild s (children s) = s.
Proof. by destruct s. Qed.

Lemma clone_rec {St} (s : NativeScript L) (st : St) :
  fold_rec (E := unit) (fun s xs => mret (rebuild s xs)) s st = Returned (Ok s) st.
Proof.
  induction s as [s IH] using tree_ind. rewrite fold_rec_eq.
  set (f := fold_rec _) in *.
  enough (mapM (M := comp unit St) id (f <$> kids s) st = Returned (Ok (kids s)) st) as Hm.
  { rewrite (bind_yields _ _ _ _ _ Hm). unfold mret, comp_ret. do 2 f_equal. apply rebuild_children. }
  induction (kids s) as [|c cs IHcs]; [done|]. csimpl.
  rewrite (bind_yields _ _ _ _ _ (IH c ltac:(by left))).
  rewrite (bind_yields _ _ _ _ _ (IHcs (fun d Hd => IH d ltac:(by right)))). done.
Qed.

Lemma same_tree_true (s t : NativeScript L) : same_tree same_node s t = true <-> s = t.
Proof.
  revert t; induction s as [s IH] using tree_ind. intros t. rewrite same_tree_eq.
  assert (Hkids : forall xs ys : list (NativeScript L), (forall c, c ∈ xs -> c ∈ kids s) ->
    (length xs =? length ys)%nat && forallb (fun p => same_tree same_node p.1 p.2) (zip xs ys) = true <-> xs = ys).
  { induction xs as [|x xs IHxs]; intros [|y ys] Hin; [done..|]. csimpl.
    specialize (IHxs ys ltac:(intros c Hc; apply Hin; by right)). specialize (IH x (Hin x ltac:(by left)) y).
    rewrite !andb_true_iff in *. split; [intros (Hl & Hx & Hxs)|intros [= <- <-]].
    - f_equal; [by apply IH|]. by apply IHxs.
    - destruct (proj2 IHxs eq_refl). split_and!; [done|by apply IH|done]. }
  specialize (Hkids (kids s) (kids t) ltac:(done)). rewrite <- andb_assoc, andb_true_iff.
  cbn [child_count TreeNode_indexed]. cbn [kids NativeScript_tree] in *. rewrite Hkids.
  destruct s, t; cbn; rewrite ?bool_decide_eq_true, ?Z.eqb_eq; naive_solver.
Qed.

#[export] Instance NativeScript_lawful : LawfulTree (NativeScript L).
Proof. split; [done|..]; intros []; naive_solver. Qed.
End copying.

(** A native script survives its codec, however deep it is: the encoder writes a
    script whose fields are values of their types, and the decoder reads the same
    script from what it wrote, and nothing of what follows it. *)
Theorem native_script_roundtrip `{MinicborLaws} `{EraLaws L} (s : NativeScript L) (rest : bytes) :
  valid_script s ->
  exists b, script_encode s [] = Returned (Ok ()) b /\ script_decode (b ++ rest) = Returned (Ok s) rest.
Proof.
  intros Hs. exists (script_wire s). split; [by rewrite script_encode_wire|by apply script_decode_wire].
Qed.

(** Whatever the input, decoding a native script terminates without a panic: the
    loop over the open nodes gives the value or the error of the recursive decoder,
    which opens a node only by reading from the input. *)
Theorem native_script_decode_total `{MinicborLaws} `{EraLaws L} (b : bytes) :
  script_decode (L := L) b = decode_rec b /\ exists r b', script_decode (L := L) b = Returned r b'.
Proof.
  unfold script_decode. rewrite decode_tree_rec. split; [done|apply decode_rec_finishes].
Qed.

(** A copy of a native script is the script, two scripts are equal for the code
    when they are the same tree, and destroying one hands each of its descendants to
    the allocator exactly once, none of them with a child left to recurse into. *)
Theorem native_script_lifecycle `{EqDecision L} {St} (s t : NativeScript L) (st : St) :
  script_clone s st = Returned (Ok s) st /\
  (exists b, script_eq s t st = Returned (Ok b) st /\ (b = true <-> s = t)) /\
  exists s' ds, script_drop s st = Returned (Ok (s', ds)) st /\ children s' = [] /\
    S (length ds) = size s /\ Forall (fun c => children c = []) ds.
Proof.
  unfold script_clone, script_eq, script_drop. split_and!.
  - rewrite fold_tree_rec by lia. apply clone_rec.
  - exists (same_tree same_node s t). rewrite eq_tree_same by lia. split; [done|apply same_tree_true].
  - by apply drop_children_all.
Qed.

#[export] Instance alonzo_laws : EraLaws Empty_set.
Proof. refine {| valid_leaf := fun _ => False |}; by intros. Defined.

Definition sample_script : NativeScript Empty_set :=
  ScriptAll [ScriptPubkey (replicate 28 0x7a); ScriptNOfK (-1) [InvalidBefore 1000; ScriptAny []]].

Lemma valid_script_Forall {L} `{EraLaws L} (s : NativeScript L) :
  valid_node s -> Forall valid_script (children s) -> valid_script s.
Proof. intros Hs Hk. split; [done|]. intros c. by apply Forall_forall. Qed.

Lemma sample_script_valid : valid_script sample_script.
Proof.
  unfold sample_script.
  repeat (apply valid_script_Forall;
    [cbn [valid_node]; unfold fits_len, in_u; rewrite ?length_replicate; cbn [length]; lia
    |cbn [children NativeScript_node children_of from_option id]; repeat (apply Forall_nil_2 || apply Forall_cons_2)]).
Qed.

Lemma native_script_roundtrip_witness :
  valid_script sample_script /\
  exists b, script_encode sample_script [] = Returned (Ok ()) b /\
    script_decode (b ++ [1; 2]) = Returned (Ok sample_script) [1; 2].
Proof. split; [exact sample_script_valid|exact (native_script_roundtrip sample_script [1; 2] sample_script_valid)]. Defined.

Lemma native_script_decode_total_witness :
  script_decode (L := Empty_set) [0x82; 1; 0x9b; 255; 255; 255; 255; 255; 255; 255; 255]
    = Returned (Err EndOfInput) [] /\
  exists r b', script_decode (L := Empty_set) [0x82; 1; 0x9b; 255; 255; 255; 255; 255; 255; 255; 255] = Returned r b'.
Proof.
  split; [vm_compute; reflexivity|].
  exact (proj2 (native_script_decode_total (L := Empty_set) [0x82; 1; 0x9b; 255; 255; 255; 255; 255; 255; 255; 255])).
Defined.

Lemma native_script_lifecycle_witness :
  exists b, script_eq sample_script (ScriptAny []) () = Returned (Ok b) () /\ (b = true <-> sample_script = ScriptAny []).
Proof. exact (proj1 (proj2 (native_script_lifecycle sample_script (ScriptAny []) ()))). Defined.
