(* ===== verification/PlutusData.v ===== *)
(** * Plutus data

    [pallas-primitives/src/plutus_data.rs]: data of any depth, with its codec, its
    order and its destructor on the drivers of [pallas-codec/src/tree.rs]; and the two
    containers of [pallas-codec/src/utils.rs] that remember how they were written. *)
From S2P Require Import Prelude Effects Cbor Rfc8949 Tree NativeScript.
Import Visit.

(** ** Containers of a definite or an indefinite length *)
Module MaybeIndefArray.
Inductive t (A : Type) :=
| Def (xs : list A)
| Indef (xs : list A).
Arguments Def {A} _.
Arguments Indef {A} _.

Definition deref {A} (x : t A) : list A := match x with Def xs | Indef xs => xs end.
End MaybeIndefArray.

Module KeyValuePairs.
Inductive t (K V : Type) :=
| Def (kvs : list (K * V))
| Indef (kvs : list (K * V)).
Arguments Def {K V} _.
Arguments Indef {K V} _.

Definition deref {K V} (x : t K V) : list (K * V) := match x with Def kvs | Indef kvs => kvs end.
End KeyValuePairs.

(** ** Data *)

(** A [BoundedBytes] is its bytes; an [Int] of minicbor its value. *)
Module BigInt.
Inductive t :=
| Int (i : Z)
| BigUInt (bs : bytes)
| BigNInt (bs : bytes).
End BigInt.

Record Constr (A : Type) := mkConstr {
  tag : Z;
  any_constructor : option Z;
  fields : MaybeIndefArray.t A
}.
Arguments mkConstr {A} _ _ _.
Arguments tag {A} _.
Arguments any_constructor {A} _.
Arguments fields {A} _.

Module PlutusData.
Inductive t :=
| Constr (c : Constr t)
| Map (kvs : KeyValuePairs.t t t)
| Array (xs : MaybeIndefArray.t t)
| BigInt (i : BigInt.t)
| BoundedBytes (bs : bytes).
End PlutusData.
Abbreviation PlutusData := PlutusData.t.

(** *** The consuming accessors: the payload, or the value as it was *)
Definition into_constr (d : PlutusData) : result PlutusData (Constr PlutusData) :=
  match d with PlutusData.Constr c => Ok c | d => Err d end.
Definition into_map (d : PlutusData) : result PlutusData (KeyValuePairs.t PlutusData PlutusData) :=
  match d with PlutusData.Map kvs => Ok kvs | d => Err d end.
Definition into_array (d : PlutusData) : result PlutusData (MaybeIndefArray.t PlutusData) :=
  match d with PlutusData.Array xs => Ok xs | d => Err d end.
Definition into_bigint (d : PlutusData) : result PlutusData BigInt.t :=
  match d with PlutusData.BigInt i => Ok i | d => Err d end.
Definition into_bounded_bytes (d : PlutusData) : result PlutusData bytes :=
  match d with PlutusData.BoundedBytes bs => Ok bs | d => Err d end.

(** *** Children *)
Definition data_child_count (d : PlutusData) : nat :=
  match d with
  | PlutusData.Constr x => length (MaybeIndefArray.deref (fields x))
  | PlutusData.Map kvs => length (KeyValuePairs.deref kvs) * 2
  | PlutusData.Array xs => length (MaybeIndefArray.deref xs)
  | PlutusData.BigInt _ | PlutusData.BoundedBytes _ => 0
  end.

(** "leaves have no children" *)
Definition data_child (d : PlutusData) (index : nat) : option PlutusData :=
  match d with
  | PlutusData.Constr x => MaybeIndefArray.deref (fields x) !! index
  | PlutusData.Map kvs =>
      kv ← KeyValuePairs.deref kvs !! (index / 2)%nat;
      Some (if (index mod 2 =? 0)%nat then kv.1 else kv.2)
  | PlutusData.Array xs => MaybeIndefArray.deref xs !! index
  | PlutusData.BigInt _ | PlutusData.BoundedBytes _ => None
  end.

#[export] Instance PlutusData_indexed : IndexedNode PlutusData := {|
  child_count := data_child_count;
  child := data_child
|}.

Definition flatten_pairs {A} (kvs : list (A * A)) : list A := concat ((fun kv => [kv.1; kv.2]) <$> kvs).

Definition data_kids (d : PlutusData) : list PlutusData :=
  match d with
  | PlutusData.Constr x => MaybeIndefArray.deref (fields x)
  | PlutusData.Map kvs => flatten_pairs (KeyValuePairs.deref kvs)
  | PlutusData.Array xs => MaybeIndefArray.deref xs
  | PlutusData.BigInt _ | PlutusData.BoundedBytes _ => []
  end.

Fixpoint data_size (d : PlutusData) : nat :=
  S match d with
    | PlutusData.Constr (mkConstr _ _ (MaybeIndefArray.Def xs | MaybeIndefArray.Indef xs))
    | PlutusData.Array (MaybeIndefArray.Def xs | MaybeIndefArray.Indef xs) => sum_list (data_size <$> xs)
    | PlutusData.Map (KeyValuePairs.Def kvs | KeyValuePairs.Indef kvs) =>
        sum_list ((fun kv => data_size kv.1 + data_size kv.2)%nat <$> kvs)
    | PlutusData.BigInt _ | PlutusData.BoundedBytes _ => 0
    end.

Lemma length_flatten_pairs {A} (kvs : list (A * A)) : length (flatten_pairs kvs) = (length kvs * 2)%nat.
Proof. unfold flatten_pairs. induction kvs as [|kv kvs IH]; [done|]. csimpl. lia. Qed.

Lemma flatten_pairs_lookup {A} (kvs : list (A * A)) i :
  flatten_pairs kvs !! i = kv ← kvs !! (i / 2)%nat; Some (if (i mod 2 =? 0)%nat then kv.1 else kv.2).
Proof.
  revert i; induction kvs as [|kv kvs IH]; intros i; [done|]. destruct i as [|[|i]]; [done..|].
  change (flatten_pairs (kv :: kvs)) with (kv.1 :: kv.2 :: flatten_pairs kvs). cbn [lookup list_lookup].
  replace (S (S i)) with (i + 1 * 2)%nat by lia. rewrite Nat.div_add, Nat.Div0.mod_add by lia. rewrite IH.
  by rewrite Nat.add_1_r.
Qed.

#[export] Instance PlutusData_tree : FiniteTree PlutusData.
Proof.
  refine {| kids := data_kids; size := data_size |}; cbn [child_count child PlutusData_indexed].
  - intros []; cbn; by rewrite ?length_flatten_pairs.
  - intros d j; destruct d; cbn; by rewrite ?flatten_pairs_lookup.
  - intros [[? ? []]|[kvs|kvs]|[]| |]; cbn; try done; f_equal; unfold flatten_pairs;
      (induction kvs as [|kv kvs IH]; [done|]; csimpl; lia).
Defined.

(** *** Copies *)
Definition array {A} (indefinite : bool) (items : list A) : MaybeIndefArray.t A :=
  if indefinite then MaybeIndefArray.Indef items else MaybeIndefArray.Def items.

(** Pairs up an alternating key, value list. *)
Fixpoint pairs {A} (items : list A) : list (A * A) :=
  match items with k :: v :: items => (k, v) :: pairs items | _ => [] end.

Definition map (indefinite : bool) (kvs : list (PlutusData * PlutusData)) : PlutusData :=
  PlutusData.Map (if indefinite then KeyValuePairs.Indef kvs else KeyValuePairs.Def kvs).

Definition is_indef {A} (x : MaybeIndefArray.t A) : bool :=
  match x with MaybeIndefArray.Indef _ => true | _ => false end.
Definition is_indef_map {K V} (x : KeyValuePairs.t K V) : bool :=
  match x with KeyValuePairs.Indef _ => true | _ => false end.

Definition clone_node (node : PlutusData) (children : list PlutusData) : PlutusData :=
  match node with
  | PlutusData.Constr x =>
      PlutusData.Constr {| tag := tag x; any_constructor := any_constructor x;
                           fields := array (is_indef (fields x)) children |}
  | PlutusData.Map kvs => map (is_indef_map kvs) (pairs children)
  | PlutusData.Array xs => PlutusData.Array (array (is_indef xs) children)
  | PlutusData.BigInt x => PlutusData.BigInt x
  | PlutusData.BoundedBytes x => PlutusData.BoundedBytes x
  end.

Definition data_clone {E St} (d : PlutusData) : comp E St PlutusData :=
  fold_tree (2 * size d) d (fun node children => mret (clone_node node children)).

(** *** Order *)

(** The magnitude without leading zeroes, and whether it is negative. *)
Fixpoint skip_zeros (bs : bytes) : bytes :=
  match bs with b :: rest => if b =? 0 then skip_zeros rest else bs | [] => [] end.

Definition to_bytes (i : BigInt.t) : bool * bytes :=
  match i with
  | BigInt.Int i => (i <? 0, skip_zeros (be_bytes 16 (Z.abs i)))
  | BigInt.BigUInt bs => (false, skip_zeros bs)
  | BigInt.BigNInt bs => (true, skip_zeros bs)
  end.

(** The lexicographic order of [Vec<u8>]. *)
Fixpoint bytes_cmp (l r : bytes) : comparison :=
  match l, r with
  | [], [] => Eq
  | [], _ => Lt
  | _, [] => Gt
  | x :: l, y :: r => match x ?= y with Eq => bytes_cmp l r | o => o end
  end.

Definition BigInt_cmp (l r : BigInt.t) : comparison :=
  let '(left_is_negative, l) := to_bytes l in
  let '(right_is_negative, r) := to_bytes r in
  match l, r with
  | [], [] => Eq
  | _, _ =>
      if left_is_negative && negb right_is_negative then Lt
      else if negb left_is_negative && right_is_negative then Gt
      else
        let when_positives :=
          match (length l ?= length r)%nat with Eq => bytes_cmp l r | ordering => ordering end in
        if left_is_negative && right_is_negative then CompOpp when_positives else when_positives
  end.

(** Panics on a tag that is none of a constructor. *)
Definition constr_index {A} (c : Constr A) : option Z :=
  if (121 <=? tag c) && (tag c <=? 127) then Some (tag c - 121)
  else if (1280 <=? tag c) && (tag c <=? 1400) then Some (tag c - 1280 + 7)
  else if tag c =? 102 then any_constructor c
  else None.

Definition rank (d : PlutusData) : Z :=
  match d with
  | PlutusData.Constr _ => 0
  | PlutusData.Map _ => 1
  | PlutusData.Array _ => 2
  | PlutusData.BigInt _ => 3
  | PlutusData.BoundedBytes _ => 4
  end.

Definition cmp_node (l r : PlutusData) : option comparison :=
  match l, r with
  | PlutusData.Constr a, PlutusData.Constr b => i ← constr_index a; j ← constr_index b; Some (i ?= j)
  | PlutusData.BigInt a, PlutusData.BigInt b => Some (BigInt_cmp a b)
  | PlutusData.BoundedBytes a, PlutusData.BoundedBytes b => Some (bytes_cmp a b)
  | _, _ => Some (rank l ?= rank r)
  end.

Definition data_cmp {E St} (l r : PlutusData) : comp E St comparison := cmp_tree (S (2 * size l)) l r cmp_node.

Definition data_eq {E St} (l r : PlutusData) : comp E St bool :=
  o ← data_cmp l r; mret (bool_decide (o = Eq)).

(** *** Destruction *)

(** What [detach_children] leaves of a node. *)
Definition detach_children (d : PlutusData) : PlutusData * list PlutusData :=
  match d with
  | PlutusData.Array (MaybeIndefArray.Def xs) => (PlutusData.Array (MaybeIndefArray.Def []), xs)
  | PlutusData.Array (MaybeIndefArray.Indef xs) => (PlutusData.Array (MaybeIndefArray.Indef []), xs)
  | PlutusData.Map (KeyValuePairs.Def kvs) => (PlutusData.Map (KeyValuePairs.Def []), flatten_pairs kvs)
  | PlutusData.Map (KeyValuePairs.Indef kvs) => (PlutusData.Map (KeyValuePairs.Indef []), flatten_pairs kvs)
  | PlutusData.Constr (mkConstr t a (MaybeIndefArray.Def xs)) => (PlutusData.Constr (mkConstr t a (MaybeIndefArray.Def [])), xs)
  | PlutusData.Constr (mkConstr t a (MaybeIndefArray.Indef xs)) => (PlutusData.Constr (mkConstr t a (MaybeIndefArray.Indef [])), xs)
  | d => (d, [])
  end.

(** The nodes that are destroyed, as their children have been detached. *)
Fixpoint drop_pending {E St} (fuel : nat) (pending dropped : list PlutusData) : comp E St (list PlutusData) :=
  match fuel, pending with
  | O, _ => unfinished
  | S fuel, [] => mret dropped
  | S fuel, child :: pending =>
      let '(child, cs) := detach_children child in
      drop_pending fuel (rev cs ++ pending) (dropped ++ [child])
  end.

Definition data_drop {E St} (d : PlutusData) : comp E St (list PlutusData) :=
  let '(d, cs) := detach_children d in drop_pending (S (sum_list (size <$> cs))) (rev cs) [d].

(** ** CBOR *)
Section codec.
Context `{Minicbor}.

(** Chunks of 64 bytes. *)
Fixpoint chunks_of (fuel n : nat) (bs : bytes) : list bytes :=
  match fuel, bs with
  | _, [] | O, _ => []
  | S fuel, _ => take n bs :: chunks_of fuel n (drop n bs)
  end.
Definition chunks (n : nat) (bs : bytes) : list bytes := chunks_of (length bs) n bs.

Definition BoundedBytes_encode (bs : bytes) : enc :=
  if (length bs <=? 64)%nat then w_bytes bs
  else w_begin_bytes ⊕ enc_all ((fun b => w_bytes b) <$> chunks 64 bs) ⊕ w_end.

Definition BoundedBytes_decode : dec bytes := decode_bytes_def_or_indef.

(** [IanaTag::PosBignum] and [IanaTag::NegBignum] *)
Definition PosBignum : Z := 2.
Definition NegBignum : Z := 3.

Definition BigInt_encode (i : BigInt.t) : enc :=
  match i with
  | BigInt.Int x => w_int x
  | BigInt.BigUInt x => w_tag PosBignum ⊕ BoundedBytes_encode x
  | BigInt.BigNInt x => w_tag NegBignum ⊕ BoundedBytes_encode x
  end.

Definition BigInt_decode : dec BigInt.t :=
  datatype ← d_datatype;
  match datatype with
  | TU8 | TU16 | TU32 | TU64 | TI8 | TI16 | TI32 | TI64 | TInt => i ← d_int; mret (BigInt.Int i)
  | TTag =>
      tag ← d_tag;
      if tag =? PosBignum then bs ← BoundedBytes_decode; mret (BigInt.BigUInt bs)
      else if tag =? NegBignum then bs ← BoundedBytes_decode; mret (BigInt.BigNInt bs)
      else dec_fail (DecodeMessage "invalid cbor tag for big int")
  | _ => dec_fail (DecodeMessage "invalid cbor data type for big int")
  end.

(** [Option] of the builder: it is taken only when the node ends. *)
Inductive Partial :=
| PLeaf (d : PlutusData)
| PArray (indefinite : bool) (items : list PlutusData)
| PMap (indefinite : bool) (items : list PlutusData)
| PConstr (tag : Z) (any_constructor : option Z) (indefinite : bool) (fields : list PlutusData).

(** [probe]: the decoder is left where it is. *)
Definition probe {A} (d : dec A) : dec A := fun b =>
  match d b with Ok (x, _) => Ok (x, b) | Err e => Err e end.

Definition indefinite (len : option Z) : bool := match len with None => true | Some _ => false end.

Definition leaf (d : dec PlutusData) : dec (Partial * Arity) := x ← d; mret (PLeaf x, Leaf).

Definition data_begin : dec (Partial * Arity) :=
  datatype ← d_datatype;
  match datatype with
  | TTag =>
      tag ← probe d_tag;
      if (tag =? PosBignum) || (tag =? NegBignum) then leaf (i ← BigInt_decode; mret (PlutusData.BigInt i))
      else
        tag ← d_tag;
        any_constructor ←
          (if (121 <=? tag) && (tag <=? 127) || (1280 <=? tag) && (tag <=? 1400) then mret None
           else if tag =? 102 then d_array;; n ← d_u64; mret (Some n)
           else dec_fail (DecodeMessage "unknown tag for plutus data tag"));
        len ← d_array;
        mret (PConstr tag any_constructor (indefinite len) [], Arity_from len)
  | TU8 | TU16 | TU32 | TU64 | TI8 | TI16 | TI32 | TI64 | TInt => leaf (i ← BigInt_decode; mret (PlutusData.BigInt i))
  | TMap | TMapIndef =>
      len ← d_map;
      arity ← match len with
              | Some n => if n * 2 <? 2 ^ 64 then mret (Fixed (n * 2)) else dec_fail (DecodeMessage "plutus data map too long")
              | None => mret Indefinite
              end;
      mret (PMap (indefinite len) [], arity)
  | TBytes | TBytesIndef => leaf (bs ← BoundedBytes_decode; mret (PlutusData.BoundedBytes bs))
  | TArray | TArrayIndef =>
      len ← d_array;
      mret (PArray (indefinite len) [], Arity_from len)
  | _ => dec_fail (DecodeMessage "bad cbor data type for plutus data")
  end.

(** "leaves report Arity::Leaf" *)
Definition partial_child (p : Partial) (c : PlutusData) : option (result decode_error Partial) :=
  match p with
  | PArray i items => Some (Ok (PArray i (items ++ [c])))
  | PMap i items => Some (Ok (PMap i (items ++ [c])))
  | PConstr t a i items => Some (Ok (PConstr t a i (items ++ [c])))
  | PLeaf _ => None
  end.

Definition partial_end (p : Partial) : dec PlutusData :=
  match p with
  | PLeaf x => mret x
  | PArray i items => mret (PlutusData.Array (array i items))
  | PMap i items =>
      if (length items mod 2 =? 0)%nat then mret (map i (pairs items))
      else dec_fail (DecodeMessage "plutus data map ended after a key")
  | PConstr t a i items => mret (PlutusData.Constr {| tag := t; any_constructor := a; fields := array i items |})
  end.

#[export] Instance PlutusData_decode : TreeDecode PlutusData := {|
  Builder := Partial;
  begin := run_dec data_begin;
  add_child := partial_child;
  finish := partial_end
|}.

Definition data_decode : comp decode_error bytes PlutusData := decode_tree.

Definition array_header (items : MaybeIndefArray.t PlutusData) : enc :=
  match items with
  | MaybeIndefArray.Def xs => w_array (Z.of_nat (length xs))
  | MaybeIndefArray.Indef _ => w_begin_array
  end.

(** What is written when a node is entered, and when it is left. *)
Definition data_enter (d : PlutusData) : enc :=
  match d with
  | PlutusData.Constr x =>
      w_tag (tag x) ⊕
      (if tag x =? 102 then w_array 2 ⊕ w_u64 (default 0 (any_constructor x)) else Some []) ⊕
      array_header (fields x)
  | PlutusData.Array xs => array_header xs
  | PlutusData.Map (KeyValuePairs.Def kvs) => w_map (Z.of_nat (length kvs))
  | PlutusData.Map (KeyValuePairs.Indef _) => w_begin_map
  | PlutusData.BigInt x => BigInt_encode x
  | PlutusData.BoundedBytes x => BoundedBytes_encode x
  end.

Definition data_exit (d : PlutusData) : enc :=
  match d with
  | PlutusData.Constr (mkConstr _ _ (MaybeIndefArray.Indef _))
  | PlutusData.Array (MaybeIndefArray.Indef _)
  | PlutusData.Map (KeyValuePairs.Indef _) => w_end
  | _ => Some []
  end.

Definition write (e : enc) : comp unit bytes unit :=
  match e with Some b => modify (fun out => out ++ b) | None => throw tt end.

Definition data_visit (v : Visit.t PlutusData) : comp unit bytes unit :=
  match v with
  | Enter d => write (data_enter d)
  | Exit d => write (data_exit d)
  | Between _ => mret tt
  end.

Definition data_encode (d : PlutusData) : comp unit bytes unit := walk_tree (3 * size d) d data_visit.
End codec.

(** ** Reading and writing *)
Section reading.
Context `{MinicborLaws}.

Lemma Consumes_fail {A} e : Consumes (@dec_fail A e).
Proof. by intros b x r. Qed.

Lemma Consumes_after {A B} (d : dec A) (k : A -> dec B) :
  Stable d -> (forall a, Consumes (k a)) -> Consumes (d ≫= k).
Proof.
  intros Hd Hk b y r. unfold mbind, dec_bind. destruct (d b) as [[a r1]|] eqn:E1; [|done]. intros E2%Hk.
  apply stable_shrinks in E1; [lia|done].
Qed.

(** What a successful decoder returns. *)
Definition Gives {A} (P : A -> Prop) (d : dec A) : Prop := forall b x r, d b = Ok (x, r) -> P x.

Lemma Gives_bind {A B} P (d : dec A) (k : A -> dec B) : (forall a, Gives P (k a)) -> Gives P (d ≫= k).
Proof. intros Hk b x r. unfold mbind, dec_bind. destruct (d b) as [[a r1]|]; [|done]. apply Hk. Qed.

Lemma Gives_ret {A} (P : A -> Prop) x : P x -> Gives P (mret x).
Proof. by intros Hx b y r [= <- _]. Qed.

Lemma Gives_fail {A} (P : A -> Prop) e : Gives P (dec_fail e).
Proof. by intros b y r. Qed.

Lemma probe_stable {A} (d : dec A) : Stable d -> Stable (probe d).
Proof.
  intros Hd b x r. unfold probe. destruct (d b) as [[y r1]|] eqn:E; [|done]. intros [= <- <-].
  split; [by exists []|]. intros s. destruct (Hd _ _ _ E) as [_ Hs]. by rewrite Hs.
Qed.

Lemma datatype_bind {B} (k : cbor_type -> dec B) b t : d_datatype b = Ok (t, b) -> (d_datatype ≫= k) b = k t b.
Proof. unfold mbind, dec_bind. by intros ->. Qed.

Lemma parses_bind {A B} (d : dec A) (k : A -> dec B) w x rest :
  Parses d (Some w) x -> (d ≫= k) (w ++ rest) = k x rest.
Proof. intros Hd. unfold mbind, dec_bind. by rewrite (Hd _ _ eq_refl). Qed.

(** *** Bytes and integers *)
Lemma concat_chunks_of fuel n bs :
  (0 < n)%nat -> (length bs <= fuel)%nat -> concat (chunks_of fuel n bs) = bs.
Proof.
  intros Hn. revert bs; induction fuel as [|fuel IH]; intros [|b bs] Hl; [done|simpl in Hl; lia|done|].
  cbn [chunks_of concat]. rewrite IH; [apply take_drop|]. rewrite length_drop. simpl in *. lia.
Qed.

Lemma BoundedBytes_parses bs : fits_len bs -> Parses BoundedBytes_decode (BoundedBytes_encode bs) bs.
Proof.
  intros Hbs. unfold BoundedBytes_encode. destruct (length bs <=? 64)%nat; [by apply decode_bytes_definite|].
  assert (concat (chunks 64 bs) = bs) as Hc by (apply concat_chunks_of; lia).
  pose proof (decode_bytes_indefinite (chunks 64 bs)) as Hp. rewrite Hc in Hp. apply Hp.
  clear. unfold chunks. generalize (length bs). intros fuel. revert bs.
  induction fuel as [|fuel IH]; intros [|b bs]; [constructor..|]. constructor; [|apply IH].
  unfold fits_len, in_u. pose proof (length_take (b :: bs) 64) as Hl. lia.
Qed.

Lemma BoundedBytes_type bs w rest :
  fits_len bs -> BoundedBytes_encode bs = Some w ->
  exists t, d_datatype (w ++ rest) = Ok (t, w ++ rest) /\ (t = TBytes \/ t = TBytesIndef).
Proof.
  intros Hbs. unfold BoundedBytes_encode. destruct (length bs <=? 64)%nat.
  - intros [= <-]. exists TBytes. split; [by apply datatype_bytes|by left].
  - intros (w1 & w2 & [= <-] & _ & ->)%enc_app_Some. exists TBytesIndef. rewrite <- app_assoc.
    split; [apply datatype_bytes_indef|by right].
Qed.

Lemma BigInt_decode_stable : Stable BigInt_decode.
Proof.
  unfold BigInt_decode. apply Stable_bind; [eauto with codec|]. pose proof decode_bytes_stable.
  intros t. destruct t; unfold BoundedBytes_decode; solve_stable.
Qed.

Lemma BigInt_decode_consumes : Consumes BigInt_decode.
Proof.
  unfold BigInt_decode. apply Consumes_after; [eauto with codec|]. pose proof decode_bytes_stable. intros t.
  destruct t; try apply Consumes_fail; (apply Consumes_bind; [eauto with codec|]); intros; unfold BoundedBytes_decode; solve_stable.
Qed.

Definition valid_BigInt (i : BigInt.t) : Prop :=
  match i with
  | BigInt.Int i => - 2 ^ 64 <= i < 2 ^ 64
  | BigInt.BigUInt bs | BigInt.BigNInt bs => fits_len bs /\ Forall (in_u 8) bs
  end.

Lemma BigInt_parses i : valid_BigInt i -> Parses BigInt_decode (BigInt_encode i) i.
Proof.
  intros Hi b rest Hb. unfold BigInt_decode. destruct i as [i|bs|bs]; cbn in Hi; cbn [BigInt_encode] in Hb.
  - injection Hb as <-. destruct (datatype_int i rest Hi) as (t & Ht & Hty). rewrite (datatype_bind _ _ _ Ht).
    assert ((i ← d_int; mret (BigInt.Int i)) (e_int i ++ rest) = Ok (BigInt.Int i, rest)) as Hd.
    { by rewrite (parses_bind _ _ _ i) by eauto with codec. }
    unfold int_type in Hty. destruct t; try exact Hd; set_solver.
  - apply enc_app_Some in Hb as (w1 & w2 & [= <-] & Hw & ->). rewrite <- app_assoc.
    rewrite (datatype_bind _ _ TTag) by (by apply datatype_tag).
    rewrite (parses_bind _ _ _ PosBignum) by (by apply tag_parses). cbn.
    pose proof (BoundedBytes_parses bs (proj1 Hi) w2 rest Hw) as Hp. unfold mbind, dec_bind. by rewrite Hp.
  - apply enc_app_Some in Hb as (w1 & w2 & [= <-] & Hw & ->). rewrite <- app_assoc.
    rewrite (datatype_bind _ _ TTag) by (by apply datatype_tag).
    rewrite (parses_bind _ _ _ NegBignum) by (by apply tag_parses). cbn.
    pose proof (BoundedBytes_parses bs (proj1 Hi) w2 rest Hw) as Hp. unfold mbind, dec_bind. by rewrite Hp.
Qed.

(** *** The laws of the decoder *)
Lemma leaf_stable d : Stable d -> Stable (leaf d).
Proof. intros Hd. unfold leaf. apply Stable_bind; [done|]. solve_stable. Qed.

Lemma leaf_consumes d : Consumes d -> Consumes (leaf d).
Proof. intros Hd. unfold leaf. apply Consumes_bind; [done|]. solve_stable. Qed.

Lemma leaf_stable_BigInt : Stable (leaf (i ← BigInt_decode; mret (PlutusData.BigInt i))).
Proof. apply leaf_stable, Stable_bind; [apply BigInt_decode_stable|solve_stable]. Qed.

Lemma leaf_stable_bytes : Stable (leaf (bs ← BoundedBytes_decode; mret (PlutusData.BoundedBytes bs))).
Proof. apply leaf_stable, Stable_bind; [apply decode_bytes_stable|solve_stable]. Qed.

Lemma data_begin_stable : Stable data_begin.
Proof.
  unfold data_begin. apply Stable_bind; [eauto with codec|]. pose proof leaf_stable_BigInt. pose proof leaf_stable_bytes.
  intros t. destruct t; try done; try solve [solve_stable].
  apply Stable_bind; [apply probe_stable; eauto with codec|]. intros n. case_match; [done|]. solve_stable.
Qed.

Lemma data_begin_consumes : Consumes data_begin.
Proof.
  unfold data_begin. apply Consumes_after; [eauto with codec|].
  assert (Consumes (leaf (i ← BigInt_decode; mret (PlutusData.BigInt i)))).
  { apply leaf_consumes, Consumes_bind; [apply BigInt_decode_consumes|solve_stable]. }
  assert (Consumes (leaf (bs ← BoundedBytes_decode; mret (PlutusData.BoundedBytes bs)))).
  { apply leaf_consumes, Consumes_bind; [|solve_stable]. unfold BoundedBytes_decode, decode_bytes_def_or_indef.
    apply Consumes_after; [eauto with codec|]. intros t. case_match; [|eauto with codec].
    apply Consumes_bind; [eauto with codec|solve_stable]. }
  intros t. destruct t; try done; try apply Consumes_fail; try solve [apply Consumes_bind; [eauto with codec|intros; solve_stable]].
  apply Consumes_after; [apply probe_stable; eauto with codec|]. intros n. case_match; [done|].
  apply Consumes_bind; [eauto with codec|]. intros; solve_stable.
Qed.

Lemma data_begin_takes b x r : data_begin b = Ok (x, r) -> x.2 = Leaf \/ (forall d, x.1 <> PLeaf d).
Proof.
  revert b x r. change (Gives (fun x => x.2 = Leaf \/ (forall d, x.1 <> PLeaf d)) data_begin).
  unfold data_begin, leaf. apply Gives_bind. intros t.
  destruct t; repeat first [apply Gives_fail | apply Gives_bind; intros ? | case_match
    | apply Gives_ret; first [by left | by right]].
Qed.

#[export] Instance PlutusData_laws : TreeDecodeLaws PlutusData.
Proof.
  refine {| takes (p : Builder (T := PlutusData)) := forall d, p <> PLeaf d |}; cbn [begin add_child finish PlutusData_decode].
  - intros b. destruct (Total_run_dec _ data_begin_stable b) as (r & b' & Hb & _). by exists r, b'.
  - intros b x b'. unfold run_dec. destruct (data_begin b) as [[y r]|e] eqn:Hb; [|done]. intros [= <- <-].
    by apply data_begin_consumes in Hb.
  - intros b x b'. unfold run_dec. destruct (data_begin b) as [[y r]|e] eqn:Hb; [|done]. intros [= <- <-].
    by apply data_begin_takes in Hb.
  - intros [d|i xs|i xs|t a i xs] c Hp; [by destruct (Hp d)|..]; (eexists; split; [done|]); by intros bu [= <-].
  - intros [d|i xs|i xs|t a i xs] b y rest; cbn; try case_match; try done; by intros [= <- <-].
Defined.
End reading.

(** ** Round trip *)
Section roundtrip.
Context `{MinicborLaws}.

Definition valid_constr (c : Constr PlutusData) : Prop :=
  (any_constructor c = None /\ (121 <= tag c <= 127 \/ 1280 <= tag c <= 1400)) \/
  (tag c = 102 /\ exists n, any_constructor c = Some n /\ in_u 64 n).

(** The length of a container that is written with its length. *)
Definition valid_items {A} (x : MaybeIndefArray.t A) : Prop :=
  match x with MaybeIndefArray.Def xs => fits_len xs | MaybeIndefArray.Indef _ => True end.

Definition valid_data_node (d : PlutusData) : Prop :=
  match d with
  | PlutusData.Constr c => valid_constr c /\ valid_items (fields c)
  | PlutusData.Map (KeyValuePairs.Def kvs) => Z.of_nat (length kvs) * 2 < 2 ^ 64
  | PlutusData.Map (KeyValuePairs.Indef _) => True
  | PlutusData.Array xs => valid_items xs
  | PlutusData.BigInt i => valid_BigInt i
  | PlutusData.BoundedBytes bs => fits_len bs
  end.

Inductive valid_data (d : PlutusData) : Prop :=
| valid_data_intro : valid_data_node d -> (forall c, c ∈ data_kids d -> valid_data c) -> valid_data d.

Lemma valid_data_kids d c : valid_data d -> c ∈ kids d -> valid_data c.
Proof. intros [_ Hd]. apply Hd. Qed.

Definition data_header (d : PlutusData) : bytes := default [] (data_enter d).
Definition data_footer (d : PlutusData) : bytes := default [] (data_exit d).
Definition data_wire : PlutusData -> bytes := wire data_header data_footer.

Definition data_grown (d : PlutusData) (i : nat) : Partial :=
  match d with
  | PlutusData.Constr c => PConstr (tag c) (any_constructor c) (is_indef (fields c)) (take i (data_kids d))
  | PlutusData.Map kvs => PMap (is_indef_map kvs) (take i (data_kids d))
  | PlutusData.Array xs => PArray (is_indef xs) (take i (data_kids d))
  | d => PLeaf d
  end.

Definition items_arity {A} (x : MaybeIndefArray.t A) : Arity :=
  match x with MaybeIndefArray.Def xs => Fixed (Z.of_nat (length xs)) | MaybeIndefArray.Indef _ => Indefinite end.

Definition data_arity (d : PlutusData) : Arity :=
  match d with
  | PlutusData.Constr c => items_arity (fields c)
  | PlutusData.Map (KeyValuePairs.Def kvs) => Fixed (Z.of_nat (length kvs) * 2)
  | PlutusData.Map (KeyValuePairs.Indef _) => Indefinite
  | PlutusData.Array xs => items_arity xs
  | PlutusData.BigInt _ | PlutusData.BoundedBytes _ => Leaf
  end.

Lemma BoundedBytes_written bs : is_Some (BoundedBytes_encode bs).
Proof.
  unfold BoundedBytes_encode. case_match; [done|]. apply enc_app_is_Some; [done|]. apply enc_app_is_Some; [|done].
  apply enc_all_is_Some, Forall_fmap, Forall_true. intros x. by exists (e_bytes x).
Qed.

Lemma BigInt_written i : is_Some (BigInt_encode i).
Proof. destruct i; cbn [BigInt_encode]; [done|..]; (apply enc_app_is_Some; [done|apply BoundedBytes_written]). Qed.

Lemma array_header_Some xs : is_Some (array_header xs).
Proof. by destruct xs. Qed.

Lemma data_enter_Some d : data_enter d = Some (data_header d).
Proof.
  unfold data_header. enough (is_Some (data_enter d)) as [b ->] by done.
  destruct d as [c|[]|xs|i|bs]; cbn [data_enter]; try done; auto using BoundedBytes_written, BigInt_written, array_header_Some.
  apply enc_app_is_Some; [done|]. apply enc_app_is_Some; [|apply array_header_Some]. case_match; [|done].
  by apply enc_app_is_Some.
Qed.

Lemma data_exit_Some d : data_exit d = Some (data_footer d).
Proof. unfold data_footer. destruct d as [[? ? []]|[]|[]| |]; done. Qed.

Lemma items_header_parses xs h :
  valid_items xs -> array_header xs = Some h ->
  exists len, Parses d_array (Some h) len /\ indefinite len = is_indef xs /\ Arity_from len = items_arity xs.
Proof.
  destruct xs as [xs|xs]; intros Hv [= <-].
  - exists (Some (Z.of_nat (length xs))). split; [by apply array_parses|done].
  - exists None. split; [apply array_parses_indef|done].
Qed.

Lemma data_begin_constr c rest :
  valid_constr c -> valid_items (fields c) ->
  data_begin (data_header (PlutusData.Constr c) ++ rest)
    = Ok ((PConstr (tag c) (any_constructor c) (is_indef (fields c)) [], items_arity (fields c)), rest).
Proof.
  intros Hc Hf. pose proof (data_enter_Some (PlutusData.Constr c)) as Hw. revert Hw.
  generalize (data_header (PlutusData.Constr c)). intros h. cbn [data_enter].
  intros (w1 & w2 & [= <-] & (w3 & w4 & Hw3 & Hw4 & ->)%enc_app_Some & ->)%enc_app_Some. rewrite <- !app_assoc.
  destruct (items_header_parses _ _ Hf Hw4) as (len & Hlen & Hi & Ha).
  assert (in_u 64 (tag c) /\ tag c <> 2 /\ tag c <> 3) as (Ht & Ht2 & Ht3).
  { unfold in_u. destruct Hc as [[_ [|]]|[-> _]]; lia. }
  unfold data_begin. rewrite (datatype_bind _ _ TTag) by by apply datatype_tag.
  unfold probe, mbind, dec_bind at 1. rewrite (tag_parses (tag c) Ht _ _ eq_refl). unfold PosBignum, NegBignum.
  rewrite (proj2 (Z.eqb_neq (tag c) 2)), (proj2 (Z.eqb_neq (tag c) 3)) by done. cbn [orb].
  unfold dec_bind at 1. rewrite (tag_parses (tag c) Ht _ _ eq_refl).
  destruct Hc as [[Hn Hr]|[H102 (n & Hn & Hu)]]; rewrite Hn.
  - assert (tag c =? 102 = false) as H102 by (apply Z.eqb_neq; lia). rewrite H102 in Hw3. injection Hw3 as <-.
    assert ((121 <=? tag c) && (tag c <=? 127) || (1280 <=? tag c) && (tag c <=? 1400) = true) as ->.
    { rewrite orb_true_iff, !andb_true_iff, !Z.leb_le. lia. }
    unfold dec_bind, mret, dec_ret. cbn [app]. rewrite (Hlen _ _ eq_refl). by rewrite Hi, Ha.
  - rewrite H102 in Hw3 |- *. rewrite Hn in Hw3. cbn in Hw3.
    apply enc_app_Some in Hw3 as (w5 & w6 & [= <-] & [= <-] & ->). rewrite <- app_assoc. cbn.
    unfold dec_bind, mret, dec_ret. rewrite (array_parses 2 ltac:(unfold in_u; lia) _ _ eq_refl).
    rewrite (u64_parses n Hu _ _ eq_refl), (Hlen _ _ eq_refl). by rewrite Hi, Ha.
Qed.

Lemma data_begin_header d rest :
  valid_data d -> run_dec data_begin (data_header d ++ rest) = Returned (Ok (data_grown d 0, data_arity d)) rest.
Proof.
  intros [Hd _]. unfold run_dec. enough (data_begin (data_header d ++ rest) = Ok ((data_grown d 0, data_arity d), rest)) as -> by done.
  destruct d as [c|[kvs|kvs]|[xs|xs]|i|bs]; cbn in Hd; cbn [data_grown data_arity items_arity].
  - destruct Hd. by apply data_begin_constr.
  - unfold data_begin, data_header; cbn [data_enter from_option id].
    assert (in_u 64 (Z.of_nat (length kvs))) as Hl by (unfold in_u; lia).
    rewrite (datatype_bind _ _ TMap) by by apply datatype_map.
    rewrite (parses_bind _ _ _ (Some (Z.of_nat (length kvs)))) by eauto with codec.
    unfold mbind, dec_bind. by rewrite (proj2 (Z.ltb_lt _ _)) by done.
  - unfold data_begin, data_header; cbn [data_enter from_option id].
    rewrite (datatype_bind _ _ TMapIndef) by apply datatype_map_indef.
    by rewrite (parses_bind _ _ _ None) by apply map_parses_indef.
  - unfold data_begin, data_header; cbn [data_enter array_header from_option id].
    rewrite (datatype_bind _ _ TArray) by by apply datatype_array.
    by rewrite (parses_bind _ _ _ (Some (Z.of_nat (length xs)))) by eauto with codec.
  - unfold data_begin, data_header; cbn [data_enter array_header from_option id].
    rewrite (datatype_bind _ _ TArrayIndef) by apply datatype_array_indef.
    by rewrite (parses_bind _ _ _ None) by apply array_parses_indef.
  - pose proof (data_enter_Some (PlutusData.BigInt i)) as Hw. cbn [data_enter] in Hw.
    assert ((leaf (i ← BigInt_decode; mret (PlutusData.BigInt i))) (data_header (PlutusData.BigInt i) ++ rest)
      = Ok ((PLeaf (PlutusData.BigInt i), Leaf), rest)) as Hl.
    { unfold leaf, mbind, dec_bind. by rewrite (BigInt_parses i Hd _ rest Hw). }
    unfold data_begin. destruct i as [i|bs|bs].
    + change (data_header (PlutusData.BigInt (BigInt.Int i))) with (e_int i) in *.
      destruct (datatype_int i rest Hd) as (t & Ht & Hty). rewrite (datatype_bind _ _ _ Ht).
      unfold int_type in Hty. destruct t; try exact Hl; set_solver.
    + revert Hw Hl. generalize (data_header (PlutusData.BigInt (BigInt.BigUInt bs))). intros h Hw Hl. cbn [BigInt_encode] in Hw.
      apply enc_app_Some in Hw as (w1 & w2 & [= <-] & Hw & ->). rewrite <- app_assoc in *.
      rewrite (datatype_bind _ _ TTag) by by apply datatype_tag. unfold probe, mbind at 1, dec_bind at 1.
      by rewrite (tag_parses PosBignum ltac:(done) _ _ eq_refl).
    + revert Hw Hl. generalize (data_header (PlutusData.BigInt (BigInt.BigNInt bs))). intros h Hw Hl. cbn [BigInt_encode] in Hw.
      apply enc_app_Some in Hw as (w1 & w2 & [= <-] & Hw & ->). rewrite <- app_assoc in *.
      rewrite (datatype_bind _ _ TTag) by by apply datatype_tag. unfold probe, mbind at 1, dec_bind at 1.
      by rewrite (tag_parses NegBignum ltac:(done) _ _ eq_refl).
  - pose proof (data_enter_Some (PlutusData.BoundedBytes bs)) as Hw. cbn [data_enter] in Hw.
    destruct (BoundedBytes_type bs _ rest Hd Hw) as (t & Ht & Hty). unfold data_begin. rewrite (datatype_bind _ _ _ Ht).
    assert ((leaf (bs ← BoundedBytes_decode; mret (PlutusData.BoundedBytes bs))) (data_header (PlutusData.BoundedBytes bs) ++ rest)
      = Ok ((PLeaf (PlutusData.BoundedBytes bs), Leaf), rest)) as Hl.
    { unfold leaf, mbind, dec_bind. by rewrite (BoundedBytes_parses bs Hd _ rest Hw). }
    by destruct Hty as [-> | ->].
Qed.

Lemma data_type d rest :
  valid_data d -> exists ty, d_datatype (data_header d ++ rest) = Ok (ty, data_header d ++ rest) /\ ty <> TBreak.
Proof.
  intros [Hd _]. destruct d as [c|[kvs|kvs]|[xs|xs]|i|bs]; cbn in Hd.
  - exists TTag. split; [|done]. pose proof (data_enter_Some (PlutusData.Constr c)) as Hw. revert Hw.
    generalize (data_header (PlutusData.Constr c)). intros h. cbn [data_enter].
    intros (w1 & w2 & [= <-] & _ & ->)%enc_app_Some. rewrite <- app_assoc. apply datatype_tag.
    unfold in_u. destruct Hd as [[[_ [|]]|[-> _]] _]; lia.
  - exists TMap. split; [|done]. apply datatype_map. unfold in_u; lia.
  - exists TMapIndef. split; [apply datatype_map_indef|done].
  - exists TArray. split; [|done]. by apply datatype_array.
  - exists TArrayIndef. split; [apply datatype_array_indef|done].
  - pose proof (data_enter_Some (PlutusData.BigInt i)) as Hw. cbn [data_enter] in Hw. destruct i as [i|bs|bs].
    + change (data_header (PlutusData.BigInt (BigInt.Int i))) with (e_int i).
      destruct (datatype_int i rest Hd) as (t & Ht & Hty). exists t. split; [done|]. intros ->.
      unfold int_type in Hty. set_solver.
    + exists TTag. split; [|done]. revert Hw. generalize (data_header (PlutusData.BigInt (BigInt.BigUInt bs))). intros h.
      cbn [BigInt_encode]. intros (w1 & w2 & [= <-] & _ & ->)%enc_app_Some. rewrite <- app_assoc. by apply datatype_tag.
    + exists TTag. split; [|done]. revert Hw. generalize (data_header (PlutusData.BigInt (BigInt.BigNInt bs))). intros h.
      cbn [BigInt_encode]. intros (w1 & w2 & [= <-] & _ & ->)%enc_app_Some. rewrite <- app_assoc. by apply datatype_tag.
  - pose proof (data_enter_Some (PlutusData.BoundedBytes bs)) as Hw. cbn [data_enter] in Hw.
    destruct (BoundedBytes_type bs _ rest Hd Hw) as (t & Ht & Hty). exists t. split; [done|]. by destruct Hty as [-> | ->].
Qed.

Lemma pairs_flatten {A} (kvs : list (A * A)) : pairs (flatten_pairs kvs) = kvs.
Proof.
  induction kvs as [|[k v] kvs IH]; [done|]. change (flatten_pairs ((k, v) :: kvs)) with (k :: v :: flatten_pairs kvs).
  cbn [pairs]. by rewrite IH.
Qed.

Lemma map_end i (kvs : list (PlutusData * PlutusData)) rest :
  partial_end (PMap i (flatten_pairs kvs)) rest = Ok (map i kvs, rest).
Proof.
  cbn [partial_end]. rewrite length_flatten_pairs, Nat.Div0.mod_mul. cbn. by rewrite pairs_flatten.
Qed.

Lemma data_arity_footer d : valid_data d ->
  match data_arity d with
  | Leaf => kids d = [] /\ forall rest, partial_end (data_grown d 0) (data_footer d ++ rest) = Ok (d, rest)
  | Fixed n => n = Z.of_nat (length (kids d)) /\
      forall rest, partial_end (data_grown d (length (kids d))) (data_footer d ++ rest) = Ok (d, rest)
  | Indefinite => data_footer d = e_end /\
      forall rest, partial_end (data_grown d (length (kids d))) rest = Ok (d, rest)
  end.
Proof.
  intros _. cbn [kids PlutusData_tree]. destruct d as [[t a [xs|xs]]|[kvs|kvs]|[xs|xs]|i|bs]; cbn [data_arity items_arity fields];
    (split; [first [done | cbn [data_kids KeyValuePairs.deref]; rewrite length_flatten_pairs; lia]|]); intros rest;
    cbn [data_grown data_kids fields tag any_constructor MaybeIndefArray.deref KeyValuePairs.deref];
    rewrite ?firstn_all; try reflexivity; apply map_end.
Qed.

Lemma data_add_kid d i c :
  kids d !! i = Some c -> partial_child (data_grown d i) c = Some (Ok (data_grown d (S i))).
Proof.
  cbn [kids PlutusData_tree]. destruct d as [x|kvs|xs|n|bs]; cbn [data_grown partial_child]; intros Hc; try done;
    by rewrite <- (take_S_r _ _ _ Hc).
Qed.

Lemma data_decode_wire d rest : valid_data d -> data_decode (data_wire d ++ rest) = Returned (Ok d) rest.
Proof.
  intros Hd. unfold data_decode, data_wire.
  apply (decode_tree_wire data_header data_footer valid_data valid_data_kids (id : PlutusData -> PlutusData)
    (data_grown : PlutusData -> nat -> @Builder PlutusData PlutusData_decode) data_arity); [| | | |done].
  - intros e r He. by apply data_begin_header.
  - intros e i c _ Hc. by apply data_add_kid.
  - apply data_arity_footer.
  - apply data_type.
Qed.

Lemma data_encode_wire d out : valid_data d -> data_encode d out = Returned (Ok ()) (out ++ data_wire d).
Proof.
  intros Hd. unfold data_encode, data_wire.
  apply (tree_written _ _ valid_data valid_data_kids); [..|lia|done].
  - intros e o He. cbn [data_visit]. by rewrite data_enter_Some.
  - done.
  - intros e o He. cbn [data_visit]. by rewrite data_exit_Some.
Qed.
End roundtrip.

(** ** Copies and destruction *)
Lemma clone_node_kids d : clone_node d (data_kids d) = d.
Proof.
  destruct d as [[t a [xs|xs]]|[kvs|kvs]|[xs|xs]|i|bs]; try done;
    cbn [clone_node data_kids KeyValuePairs.deref is_indef_map]; by rewrite pairs_flatten.
Qed.

Lemma data_clone_same {E St} d (st : St) : data_clone (E := E) d st = Returned (Ok d) st.
Proof.
  unfold data_clone. rewrite fold_tree_rec by lia.
  induction d as [d IH] using tree_ind. rewrite fold_rec_eq. set (f := fold_rec _) in *.
  enough (mapM (M := comp E St) id (f <$> kids d) st = Returned (Ok (kids d)) st) as Hm.
  { rewrite (bind_yields _ _ _ _ _ Hm). unfold mret, comp_ret. do 2 f_equal. apply clone_node_kids. }
  induction (kids d) as [|c cs IHcs]; [done|]. csimpl.
  rewrite (bind_yields _ _ _ _ _ (IH c ltac:(by left))).
  rewrite (bind_yields _ _ _ _ _ (IHcs (fun d Hd => IH d ltac:(by right)))). done.
Qed.

Lemma detach_children_kids d : (detach_children d).2 = data_kids d /\ data_kids (detach_children d).1 = [].
Proof. by destruct d as [[t a [xs|xs]]|[kvs|kvs]|[xs|xs]|i|bs]. Qed.

Lemma drop_pending_all {E St} fuel pending dropped (st : St) :
  (sum_list (size <$> pending) < fuel)%nat -> Forall (fun d => data_kids d = []) dropped ->
  exists ds, drop_pending (E := E) fuel pending dropped st = Returned (Ok ds) st /\
    length ds = (length dropped + sum_list (size <$> pending))%nat /\ Forall (fun d => data_kids d = []) ds.
Proof.
  revert pending dropped; induction fuel as [|fuel IH]; intros pending dropped Hf Hd; [lia|].
  destruct pending as [|c pending]; [exists dropped; split_and!; csimpl; (done || lia)|].
  cbn [drop_pending]. pose proof (detach_children_kids c) as [Hk He]. destruct (detach_children c) as [c' cs].
  cbn [fst snd] in *. change (sum_list (size <$> c :: pending)) with (size c + sum_list (size <$> pending))%nat in *.
  pose proof (size_kids c) as Hc. change (kids c) with (data_kids c) in Hc. rewrite <- Hk in Hc.
  destruct (IH (rev cs ++ pending) (dropped ++ [c'])) as (ds & -> & Hl & Hds).
  - rewrite fmap_app, sum_list_app, sum_list_rev. lia.
  - apply Forall_app_2; [done|]. by apply Forall_singleton.
  - exists ds. split_and!; [done| |done]. rewrite Hl, length_app, fmap_app, sum_list_app, sum_list_rev. cbn [length]. lia.
Qed.

Lemma data_drop_all {E St} d (st : St) :
  exists ds, data_drop (E := E) d st = Returned (Ok ds) st /\
    length ds = size d /\ Forall (fun d => data_kids d = []) ds.
Proof.
  unfold data_drop. pose proof (detach_children_kids d) as [Hk He]. destruct (detach_children d) as [d' cs].
  cbn [fst snd] in *. pose proof (size_kids d) as Hs. change (kids d) with (data_kids d) in Hs. rewrite <- Hk in Hs.
  destruct (drop_pending_all (E := E) (S (sum_list (size <$> cs))) (rev cs) [d'] st) as (ds & -> & Hl & Hds).
  - rewrite sum_list_rev. lia.
  - by apply Forall_singleton.
  - exists ds. split_and!; [done| |done]. rewrite Hl, sum_list_rev. cbn [length]. lia.
Qed.

(** ** The order

    The value by which the code orders an integer. *)
Definition magnitude (i : BigInt.t) : Z :=
  match i with
  | BigInt.Int i => i
  | BigInt.BigUInt bs => of_be bs
  | BigInt.BigNInt bs => - of_be bs
  end.

(** The value that RFC 8949 gives it. *)
Definition cbor_value (i : BigInt.t) : Z :=
  match i with
  | BigInt.Int i => i
  | BigInt.BigUInt bs => of_be bs
  | BigInt.BigNInt bs => - 1 - of_be bs
  end.

Lemma of_be_cons x bs : of_be (x :: bs) = x * 256 ^ Z.of_nat (length bs) + of_be bs.
Proof.
  revert x; induction bs as [|b bs IH] using rev_ind; intros x; [unfold of_be; simpl; lia|].
  rewrite app_comm_cons, !of_be_snoc, IH, length_app. cbn [length].
  rewrite Nat2Z.inj_add, Z.pow_add_r by lia. change (256 ^ Z.of_nat 1) with 256. lia.
Qed.

Lemma of_be_range bs : Forall (in_u 8) bs -> 0 <= of_be bs < 256 ^ Z.of_nat (length bs).
Proof.
  induction 1 as [|x bs [Hx0 Hx] Hbs IH]; [by unfold of_be|]. rewrite of_be_cons. cbn [length].
  rewrite Nat2Z.inj_succ, Z.pow_succ_r by lia. change (2 ^ 8) with 256 in Hx. nia.
Qed.

Lemma of_be_skip_zeros bs : of_be (skip_zeros bs) = of_be bs.
Proof.
  induction bs as [|b bs IH]; [done|]. cbn [skip_zeros]. destruct (Z.eqb_spec b 0) as [->|]; [|done].
  rewrite IH, of_be_cons. lia.
Qed.

Lemma skip_zeros_valid bs : Forall (in_u 8) bs -> Forall (in_u 8) (skip_zeros bs).
Proof. induction 1 as [|b bs Hb Hbs IH]; [done|]. cbn [skip_zeros]. case_match; [done|by constructor]. Qed.

Lemma skip_zeros_head bs x r : skip_zeros bs = x :: r -> x <> 0.
Proof. induction bs as [|b bs IH]; [done|]. cbn [skip_zeros]. destruct (Z.eqb_spec b 0); [done|]. by intros [= <- _]. Qed.

Lemma bytes_cmp_value l r :
  Forall (in_u 8) l -> Forall (in_u 8) r -> length l = length r -> bytes_cmp l r = (of_be l ?= of_be r).
Proof.
  intros Hl. revert r; induction Hl as [|x l [Hx0 Hx] Hl IH]; intros r Hr Hlen; [by destruct r|].
  destruct Hr as [|y r [Hy0 Hy] Hr]; [done|]. injection Hlen as Hlen. cbn [bytes_cmp]. rewrite !of_be_cons, <- Hlen.
  pose proof (of_be_range l Hl). pose proof (of_be_range r Hr) as Hr'. rewrite <- Hlen in Hr'.
  destruct (Z.compare_spec x y) as [->|Hxy|Hxy].
  - rewrite IH by done. destruct (Z.compare_spec (of_be l) (of_be r)); symmetry;
      [apply Z.compare_eq_iff|apply Z.compare_lt_iff|apply Z.compare_gt_iff]; lia.
  - symmetry. apply Z.compare_lt_iff. nia.
  - symmetry. apply Z.compare_gt_iff. nia.
Qed.

(** A number without leading zeroes is larger than one of fewer digits. *)
Lemma shorter_smaller l x r :
  Forall (in_u 8) l -> Forall (in_u 8) (x :: r) -> x <> 0 -> (length l < length (x :: r))%nat -> of_be l < of_be (x :: r).
Proof.
  intros Hl Hr Hx Hlen. apply Forall_cons_1 in Hr as [[Hx0 _] Hr]. rewrite of_be_cons.
  pose proof (of_be_range l Hl) as Hl'. pose proof (of_be_range r Hr). cbn [length] in Hlen.
  pose proof (Z.pow_le_mono_r 256 (Z.of_nat (length l)) (Z.of_nat (length r)) ltac:(lia) ltac:(lia)). nia.
Qed.

Definition unsigned_cmp (l r : bytes) : comparison :=
  match (length l ?= length r)%nat with Eq => bytes_cmp l r | ordering => ordering end.

Lemma unsigned_cmp_value l r :
  Forall (in_u 8) l -> Forall (in_u 8) r ->
  unsigned_cmp (skip_zeros l) (skip_zeros r) = (of_be l ?= of_be r).
Proof.
  intros Hl%skip_zeros_valid Hr%skip_zeros_valid. rewrite <- (of_be_skip_zeros l), <- (of_be_skip_zeros r).
  pose proof (skip_zeros_head l) as Hhl. pose proof (skip_zeros_head r) as Hhr.
  generalize dependent (skip_zeros l). generalize dependent (skip_zeros r). intros r' Hr Hhr l' Hl Hhl.
  unfold unsigned_cmp. destruct (Nat.compare_spec (length l') (length r')) as [Hlen|Hlen|Hlen].
  - by apply bytes_cmp_value.
  - symmetry. apply Z.compare_lt_iff. destruct r' as [|x r']; [simpl in Hlen; lia|].
    apply shorter_smaller; [done..|by eapply Hhr|done].
  - symmetry. apply Z.compare_gt_iff. destruct l' as [|x l']; [simpl in Hlen; lia|].
    apply shorter_smaller; [done..|by eapply Hhl|done].
Qed.

Lemma be_bytes_valid n z : Forall (in_u 8) (be_bytes n z).
Proof.
  revert z; induction n as [|n IH]; intros z; [constructor|]. cbn [be_bytes]. apply Forall_app_2; [apply IH|].
  apply Forall_singleton. split; [apply Z.mod_pos_bound; lia|]. change (2 ^ 8) with 256. apply Z.mod_pos_bound; lia.
Qed.

(** Sign and magnitude of an integer. *)
Lemma to_bytes_value i :
  valid_BigInt i -> exists neg bs, to_bytes i = (neg, skip_zeros bs) /\ Forall (in_u 8) bs /\
    magnitude i = (if neg : bool then - of_be bs else of_be bs).
Proof.
  destruct i as [i|bs|bs]; cbn [to_bytes valid_BigInt magnitude]; intros Hi.
  - exists (i <? 0), (be_bytes 16 (Z.abs i)). split_and!; [done|apply be_bytes_valid|].
    rewrite of_be_be_bytes; [destruct (Z.ltb_spec i 0); lia|]. change (256 ^ Z.of_nat 16) with (2 ^ 128). lia.
  - exists false, bs. by destruct Hi.
  - exists true, bs. by destruct Hi.
Qed.

Lemma BigInt_cmp_value a b :
  valid_BigInt a -> valid_BigInt b -> BigInt_cmp a b = (magnitude a ?= magnitude b).
Proof.
  intros (na & la & Ha & Hla & Hma)%to_bytes_value (nb & lb & Hb & Hlb & Hmb)%to_bytes_value.
  unfold BigInt_cmp. rewrite Ha, Hb, Hma, Hmb. pose proof (unsigned_cmp_value la lb Hla Hlb) as Hu.
  pose proof (of_be_range la Hla). pose proof (of_be_range lb Hlb). fold (unsigned_cmp (skip_zeros la) (skip_zeros lb)).
  assert (forall l, Forall (in_u 8) l -> skip_zeros l <> [] -> 0 < of_be l) as Hpos.
  { intros l Hl Hne. rewrite <- of_be_skip_zeros. destruct (skip_zeros l) as [|x r] eqn:Hs; [done|].
    apply (shorter_smaller [] x r); [constructor|rewrite <- Hs; by apply skip_zeros_valid|by eapply skip_zeros_head|simpl; lia]. }
  assert (forall l, skip_zeros l = [] -> of_be l = 0) as Hzero by (intros l Hl; by rewrite <- of_be_skip_zeros, Hl).
  destruct (skip_zeros la) as [|x ra] eqn:Hsa, (skip_zeros lb) as [|y rb] eqn:Hsb.
  - rewrite (Hzero la Hsa), (Hzero lb Hsb). by destruct na, nb.
  - rewrite Hu, (Hzero la Hsa) in *. pose proof (Hpos lb Hlb ltac:(by rewrite Hsb)).
    destruct na, nb; cbn [andb negb]; symmetry; try (apply Z.compare_lt_iff; lia); try (apply Z.compare_gt_iff; lia); try done.
    by rewrite Z.compare_opp, Z.compare_antisym.
  - rewrite Hu, (Hzero lb Hsb) in *. pose proof (Hpos la Hla ltac:(by rewrite Hsa)).
    destruct na, nb; cbn [andb negb]; symmetry; try (apply Z.compare_lt_iff; lia); try (apply Z.compare_gt_iff; lia); try done.
    by rewrite Z.compare_opp, Z.compare_antisym.
  - rewrite Hu. pose proof (Hpos la Hla ltac:(by rewrite Hsa)). pose proof (Hpos lb Hlb ltac:(by rewrite Hsb)).
    destruct na, nb; cbn [andb negb]; symmetry; try (apply Z.compare_lt_iff; lia); try (apply Z.compare_gt_iff; lia); try done.
    by rewrite Z.compare_opp, Z.compare_antisym.
Qed.

(** *** The form that decides the order

    A node's own data, without the way it was written, and its children. *)
Inductive label :=
| LConstr (index : Z)
| LMap
| LArray
| LInt (i : Z)
| LBytes (bs : bytes).

Inductive normal := Norm (l : label) (ns : list normal).

Definition label_of (d : PlutusData) : label :=
  match d with
  | PlutusData.Constr c => LConstr (default 0 (constr_index c))
  | PlutusData.Map _ => LMap
  | PlutusData.Array _ => LArray
  | PlutusData.BigInt i => LInt (magnitude i)
  | PlutusData.BoundedBytes bs => LBytes bs
  end.

Definition normal_of : PlutusData -> normal := rec_tree (fun d ns => Norm (label_of d) ns) (Norm LMap []).

Lemma normal_of_eq d : normal_of d = Norm (label_of d) (normal_of <$> data_kids d).
Proof. exact (rec_tree_eq (fun d ns => Norm (label_of d) ns) (Norm LMap []) d). Qed.

Definition label_rank (l : label) : Z :=
  match l with LConstr _ => 0 | LMap => 1 | LArray => 2 | LInt _ => 3 | LBytes _ => 4 end.

Definition label_cmp (l r : label) : comparison :=
  match l, r with
  | LConstr i, LConstr j | LInt i, LInt j => i ?= j
  | LBytes a, LBytes b => bytes_cmp a b
  | _, _ => label_rank l ?= label_rank r
  end.

Section list_cmp.
Context {A : Type} (cmp : A -> A -> comparison).

Fixpoint list_cmp (xs ys : list A) : comparison :=
  match xs, ys with
  | [], [] => Eq
  | [], _ => Lt
  | _, [] => Gt
  | x :: xs, y :: ys => match cmp x y with Eq => list_cmp xs ys | o => o end
  end.

Lemma list_cmp_eq xs : (forall x y, x ∈ xs -> cmp x y = Eq <-> x = y) -> forall ys, list_cmp xs ys = Eq <-> xs = ys.
Proof.
  induction xs as [|x xs IH]; intros Hc [|y ys]; [done..|]. cbn [list_cmp].
  specialize (IH ltac:(intros; apply Hc; by right) ys). pose proof (Hc x y ltac:(by left)) as Hxy.
  destruct (cmp x y); (split; [intros E|intros [= <- <-]]); try done.
  - f_equal; [by apply Hxy|by apply IH].
  - by apply IH.
  - by destruct (proj2 Hxy eq_refl).
  - by destruct (proj2 Hxy eq_refl).
Qed.

Lemma list_cmp_opp xs : (forall x y, x ∈ xs -> cmp y x = CompOpp (cmp x y)) -> forall ys, list_cmp ys xs = CompOpp (list_cmp xs ys).
Proof.
  induction xs as [|x xs IH]; intros Hc [|y ys]; [done..|]. cbn [list_cmp]. rewrite (Hc x y ltac:(by left)).
  rewrite (IH ltac:(intros; apply Hc; by right)). by destruct (cmp x y).
Qed.

Lemma list_cmp_lt xs :
  (forall x y, cmp x y = Eq -> x = y) ->
  (forall x y z, x ∈ xs -> cmp x y = Lt -> cmp y z = Lt -> cmp x z = Lt) ->
  forall ys zs, list_cmp xs ys = Lt -> list_cmp ys zs = Lt -> list_cmp xs zs = Lt.
Proof.
  intros He. induction xs as [|x xs IH]; intros Hc [|y ys] [|z zs]; try done. cbn [list_cmp].
  specialize (IH ltac:(intros; eapply Hc; [by right|done..]) ys zs). pose proof (Hc x y z ltac:(by left)) as Hxyz.
  destruct (cmp x y) eqn:Hxy; [apply He in Hxy as ->|intros _|done].
  - intros Hl. destruct (cmp y z); auto.
  - destruct (cmp y z) eqn:Hyz; [apply He in Hyz as ->; by rewrite Hxy|by rewrite Hxyz|done].
Qed.
End list_cmp.

Lemma bytes_cmp_list l r : bytes_cmp l r = list_cmp Z.compare l r.
Proof. revert r; induction l as [|x l IH]; intros [|y r]; try done. Qed.

Lemma label_cmp_eq l r : label_cmp l r = Eq <-> l = r.
Proof.
  destruct l as [i| | |i|a], r as [j| | |j|b]; cbn; rewrite ?Z.compare_eq_iff, ?bytes_cmp_list, ?list_cmp_eq by
    (intros; apply Z.compare_eq_iff); split; congruence.
Qed.

Lemma label_cmp_opp l r : label_cmp r l = CompOpp (label_cmp l r).
Proof.
  destruct l as [i| | |i|a], r as [j| | |j|b]; cbn; try done; try apply Z.compare_antisym.
  rewrite !bytes_cmp_list. apply list_cmp_opp. intros. apply Z.compare_antisym.
Qed.

Lemma label_cmp_lt l r s : label_cmp l r = Lt -> label_cmp r s = Lt -> label_cmp l s = Lt.
Proof.
  destruct l as [i| | |i|a], r as [j| | |j|b], s as [k| | |k|c]; cbn; try done; try (rewrite !Z.compare_lt_iff; lia).
  rewrite !bytes_cmp_list. apply list_cmp_lt; intros *; rewrite ?Z.compare_lt_iff, ?Z.compare_eq_iff; [done|lia].
Qed.

Fixpoint normal_cmp (a b : normal) : comparison :=
  match a, b with
  | Norm l xs, Norm m ys => match label_cmp l m with Eq => list_cmp normal_cmp xs ys | o => o end
  end.

Lemma normal_ind' (P : normal -> Prop) :
  (forall l ns, (forall n, n ∈ ns -> P n) -> P (Norm l ns)) -> forall n, P n.
Proof.
  intros HP. fix IH 1. intros [l ns]. apply HP. induction ns as [|n ns IHns]; intros m Hm.
  - clear IH. by apply not_elem_of_nil in Hm.
  - apply elem_of_cons in Hm as [->|Hm]; [apply IH|by apply IHns].
Qed.

Lemma normal_cmp_eq a b : normal_cmp a b = Eq <-> a = b.
Proof.
  revert b; induction a as [l xs IH] using normal_ind'; intros [m ys]. cbn [normal_cmp].
  pose proof (label_cmp_eq l m) as Hl. pose proof (list_cmp_eq normal_cmp xs ltac:(intros x y Hx; by apply IH) ys) as Hk.
  destruct (label_cmp l m); naive_solver.
Qed.

Lemma normal_cmp_opp a b : normal_cmp b a = CompOpp (normal_cmp a b).
Proof.
  revert b; induction a as [l xs IH] using normal_ind'; intros [m ys]. cbn [normal_cmp]. rewrite (label_cmp_opp l m).
  rewrite (list_cmp_opp normal_cmp xs) by (intros x y Hx; by apply IH). by destruct (label_cmp l m).
Qed.

Lemma normal_cmp_lt a b c : normal_cmp a b = Lt -> normal_cmp b c = Lt -> normal_cmp a c = Lt.
Proof.
  revert b c; induction a as [l xs IH] using normal_ind'; intros [m ys] [n zs]. cbn [normal_cmp].
  pose proof (label_cmp_lt l m n) as Hlt.
  destruct (label_cmp l m) eqn:Hlm; [apply label_cmp_eq in Hlm as ->|intros _|done].
  - intros Hxy. destruct (label_cmp m n); [|done..]. intros Hyz.
    apply (list_cmp_lt normal_cmp xs) with ys; [|intros x y z Hx; by apply IH|done..]. intros x y. apply normal_cmp_eq.
  - destruct (label_cmp m n) eqn:Hmn; [apply label_cmp_eq in Hmn as ->; by rewrite Hlm|by rewrite Hlt|done].
Qed.

(** [cmp] of the code is the order of the normal forms. *)
Lemma cmp_node_label l r :
  valid_data l -> valid_data r -> cmp_node l r = Some (label_cmp (label_of l) (label_of r)).
Proof.
  assert (forall c, valid_constr c -> is_Some (constr_index c)) as Hi.
  { intros c Hc. unfold constr_index. destruct Hc as [[_ Ht]|[-> (n & -> & _)]]; [|done].
    destruct (Z.leb_spec 121 (tag c)), (Z.leb_spec (tag c) 127), (Z.leb_spec 1280 (tag c)), (Z.leb_spec (tag c) 1400); cbn; try done; lia. }
  intros [Hl _] [Hr _]. destruct l as [a|a|a|a|a], r as [b|b|b|b|b]; cbn [cmp_node label_of label_cmp]; try done.
  - destruct Hl as [Ha _], Hr as [Hb _]. destruct (Hi a Ha) as [i ->], (Hi b Hb) as [j ->]. done.
  - f_equal. by apply BigInt_cmp_value.
Qed.

Lemma first_difference_list (f : PlutusData -> PlutusData -> option comparison) (xs ys : list PlutusData) :
  (forall x y, x ∈ xs -> y ∈ ys -> f x y = Some (normal_cmp (normal_of x) (normal_of y))) ->
  first_difference ((fun p => f p.1 p.2) <$> zip xs ys) (Some (length xs ?= length ys)%nat)
    = Some (list_cmp normal_cmp (normal_of <$> xs) (normal_of <$> ys)).
Proof.
  revert ys; induction xs as [|x xs IH]; intros [|y ys] Hf; try done. csimpl.
  rewrite (Hf x y ltac:(by left) ltac:(by left)). cbn [list_cmp].
  destruct (normal_cmp (normal_of x) (normal_of y)); [|done..].
  apply IH. intros. apply Hf; by right.
Qed.

Lemma order_normal l r :
  valid_data l -> valid_data r -> order_tree cmp_node l r = Some (normal_cmp (normal_of l) (normal_of r)).
Proof.
  revert r; induction l as [l IH] using tree_ind; intros r Hl Hr. rewrite order_tree_eq.
  rewrite (normal_of_eq l), (normal_of_eq r). cbn [first_difference foldr normal_cmp]. rewrite cmp_node_label by done.
  destruct (label_cmp (label_of l) (label_of r)); [|done..]. rewrite <- !kids_count.
  apply (first_difference_list (order_tree cmp_node)). intros x y Hx Hy.
  apply IH; [done|by apply (valid_data_kids l)|by apply (valid_data_kids r)].
Qed.

Lemma data_cmp_normal {E St} l r (st : St) :
  valid_data l -> valid_data r ->
  data_cmp (E := E) l r st = Returned (Ok (normal_cmp (normal_of l) (normal_of r))) st.
Proof. intros Hl Hr. unfold data_cmp. rewrite cmp_tree_order by lia. by rewrite order_normal. Qed.

(** ** Properties *)

(** C27: plutus data survives its codec, however deep it is: containers come back with
    the kind of length they were written with, integers in the variant they had, byte
    strings in one piece although longer ones are written in chunks of 64, and
    nothing of what follows is read. *)
Theorem plutus_data_roundtrip `{MinicborLaws} (d : PlutusData) (rest : bytes) :
  valid_data d ->
  exists b, data_encode d [] = Returned (Ok ()) b /\ data_decode (b ++ rest) = Returned (Ok d) rest.
Proof.
  intros Hd. exists (data_wire d). split; [by rewrite data_encode_wire|by apply data_decode_wire].
Qed.

(** C28: whatever the input, decoding plutus data ends, without a panic, with the value
    or the error of the recursive decoder; a copy of data is the data; and dropping
    data destroys each of its nodes exactly once, none of them with a child left. *)
Theorem plutus_data_lifecycle `{MinicborLaws} (b : bytes) (d : PlutusData) :
  data_decode b = decode_rec b /\ (exists r b', data_decode b = Returned r b') /\
  data_clone (E := unit) d b = Returned (Ok d) b /\
  exists ds, data_drop (E := unit) d b = Returned (Ok ds) b /\
    length ds = size d /\ Forall (fun d => data_kids d = []) ds.
Proof.
  unfold data_decode. rewrite decode_tree_rec. split_and!; [done|apply decode_rec_finishes|apply data_clone_same|].
  apply data_drop_all.
Qed.

(** C26: on data that the decoder produces, [cmp] never panics and is a total order of
    the normal forms, which forget how containers were written and which of its
    representations an integer or a constructor has: it is [Eq] exactly on equal normal
    forms, [eq] says the same, it is antisymmetric and transitive. *)
Theorem plutus_data_order {E St} (a b c : PlutusData) (st : St) :
  valid_data a -> valid_data b -> valid_data c ->
  exists ab bc, data_cmp (E := E) a b st = Returned (Ok ab) st /\ data_cmp (E := E) b c st = Returned (Ok bc) st /\
    (ab = Eq <-> normal_of a = normal_of b) /\
    data_eq (E := E) a b st = Returned (Ok (bool_decide (ab = Eq))) st /\
    data_cmp (E := E) b a st = Returned (Ok (CompOpp ab)) st /\
    (ab = Lt -> bc = Lt -> data_cmp (E := E) a c st = Returned (Ok Lt) st).
Proof.
  intros Ha Hb Hc. unfold data_eq. eexists _, _. split_and!; [by apply data_cmp_normal|by apply data_cmp_normal|..].
  - apply normal_cmp_eq.
  - unfold mbind, comp_bind. by rewrite data_cmp_normal.
  - rewrite data_cmp_normal by done. by rewrite (normal_cmp_opp (normal_of a)).
  - intros Hab Hbc. rewrite data_cmp_normal by done. by rewrite (normal_cmp_lt _ _ _ Hab Hbc).
Qed.

(** Integers are ordered by their sign and magnitude, whatever their
    representation; but the magnitude of a negative big number is one less than the
    value CBOR gives it, so that it is equal to the integer above its value. *)
Theorem negative_bignum_off_by_one (a : BigInt.t) (bs : bytes) :
  valid_BigInt a -> valid_BigInt (BigInt.BigNInt bs) ->
  BigInt_cmp (BigInt.BigNInt bs) a = (magnitude (BigInt.BigNInt bs) ?= magnitude a) /\
  (BigInt_cmp (BigInt.BigNInt bs) a = Eq <-> magnitude a = cbor_value (BigInt.BigNInt bs) + 1).
Proof.
  intros Ha Hb. rewrite BigInt_cmp_value by done. split; [done|]. rewrite Z.compare_eq_iff. cbn [magnitude cbor_value]. lia.
Qed.

Definition sample_data : PlutusData :=
  PlutusData.Constr (mkConstr 102 (Some 9) (MaybeIndefArray.Indef
    [PlutusData.Map (KeyValuePairs.Def [(PlutusData.BigInt (BigInt.Int (-5)), PlutusData.BoundedBytes (replicate 70 7))]);
     PlutusData.Constr (mkConstr 121 None (MaybeIndefArray.Def []));
     PlutusData.Map (KeyValuePairs.Indef []); PlutusData.BigInt (BigInt.BigNInt [1; 0])])).

Lemma valid_data_Forall (d : PlutusData) : valid_data_node d -> Forall valid_data (data_kids d) -> valid_data d.
Proof. intros Hd Hk. split; [done|]. intros c. by apply Forall_forall. Qed.

Ltac valid_data_tac :=
  repeat first [apply Forall_nil_2 | apply Forall_cons_2
    | apply valid_data_Forall; [cbn; unfold fits_len, in_u; cbn; auto with lia|cbn [data_kids MaybeIndefArray.deref fields]; unfold flatten_pairs; cbn [KeyValuePairs.deref fmap list_fmap concat app fst snd]]].

Lemma sample_data_valid : valid_data sample_data.
Proof.
  unfold sample_data. valid_data_tac.
  - split; [|done]. right. split; [done|]. by exists 9.
  - split; [|lia]. left. cbn. split; [done|lia].
Qed.

Definition sample_leaf (i : BigInt.t) : PlutusData := PlutusData.BigInt i.

Lemma sample_leaf_valid i : valid_BigInt i -> valid_data (sample_leaf i).
Proof. intros Hi. by apply valid_data_Forall. Qed.

Lemma small_bignum_valid : valid_BigInt (BigInt.BigNInt [0]) /\ valid_BigInt (BigInt.Int 0).
Proof. split; cbn; [|lia]. split; [done|]. by apply Forall_singleton. Qed.

Lemma plutus_data_roundtrip_witness :
  valid_data sample_data /\
  exists b, data_encode sample_data [] = Returned (Ok ()) b /\
    data_decode (b ++ [1; 2]) = Returned (Ok sample_data) [1; 2].
Proof. split; [exact sample_data_valid|exact (plutus_data_roundtrip sample_data [1; 2] sample_data_valid)]. Defined.

Lemma plutus_data_lifecycle_witness :
  exists r b', data_decode [0xd8; 0x66; 0x9f; 0; 0x80; 255] = Returned r b'.
Proof. exact (proj1 (proj2 (plutus_data_lifecycle [0xd8; 0x66; 0x9f; 0; 0x80; 255] sample_data))). Defined.

Lemma plutus_data_order_witness :
  valid_data sample_data /\ valid_data (sample_leaf (BigInt.Int 0)) /\ valid_data (sample_leaf (BigInt.BigNInt [0])) /\
  exists ab bc, data_cmp (E := unit) sample_data (sample_leaf (BigInt.Int 0)) () = Returned (Ok ab) () /\
    data_cmp (E := unit) (sample_leaf (BigInt.Int 0)) (sample_leaf (BigInt.BigNInt [0])) () = Returned (Ok bc) () /\
    ab = Lt /\ bc = Eq.
Proof.
  pose proof (sample_leaf_valid _ (proj2 small_bignum_valid)) as H0.
  pose proof (sample_leaf_valid _ (proj1 small_bignum_valid)) as H1.
  split; [exact sample_data_valid|]. split; [exact H0|]. split; [exact H1|].
  destruct (plutus_data_order (E := unit) _ _ _ () sample_data_valid H0 H1) as (ab & bc & Hab & Hbc & _).
  exists ab, bc. split; [exact Hab|]. split; [exact Hbc|].
  split; [by vm_compute in Hab; injection Hab|by vm_compute in Hbc; injection Hbc].
Defined.

Lemma negative_bignum_off_by_one_witness :
  cbor_value (BigInt.BigNInt [0]) = -1 /\ BigInt_cmp (BigInt.BigNInt [0]) (BigInt.Int 0) = Eq.
Proof.
  split; [reflexivity|].
  apply (proj2 (negative_bignum_off_by_one (BigInt.Int 0) [0] (proj2 small_bignum_valid) (proj1 small_bignum_valid))).
  reflexivity.
Defined.

(** The end of an indefinite-length array around the fields of a constructor 102 is
    not read: what follows starts with it. *)
Example constr_102_break_left :
  data_decode [0xd8; 0x66; 0x9f; 0; 0x80; 255; 1]
    = Returned (Ok (PlutusData.Constr (mkConstr 102 (Some 0) (MaybeIndefArray.Def [])))) [255; 1].
Proof. vm_compute. reflexivity. Qed.

(** ... and the length of that array is not checked. *)
Example constr_102_any_length :
  data_decode [0xd8; 0x66; 0x85; 0; 0x80]
    = Returned (Ok (PlutusData.Constr (mkConstr 102 (Some 0) (MaybeIndefArray.Def [])))) [].
Proof. vm_compute. reflexivity. Qed.
