(* ===== verification/FlatBase.v ===== *)
(** * Zigzag

    [pallas-codec/src/flat/zigzag.rs]: signed integers as unsigned ones, the sign in
    the lowest bit.  [isize] and [usize] have 64 bits. *)
From S2P Require Import Prelude.

(** The values of [isize]. *)
Definition in_i (w n : Z) : Prop := - 2 ^ (w - 1) <= n < 2 ^ (w - 1).

#[export] Instance in_i_dec w n : Decision (in_i w n).
Proof. unfold in_i. apply _. Defined.

(** Casts: [as usize] keeps the low bits, [as isize] reads them in two's
    complement. *)
Definition as_usize (n : Z) : Z := n mod 2 ^ 64.
Definition as_isize (n : Z) : Z :=
  let n := n mod 2 ^ 64 in if n <? 2 ^ 63 then n else n - 2 ^ 64.

(** The wider [i128] of the code holds every intermediate value. *)
Definition isize_zigzag (self : Z) : Z :=
  as_usize (Z.lxor (Z.shiftl self 1) (Z.shiftr self 63)).

Definition usize_zigzag (self : Z) : Z :=
  Z.lxor (as_isize (Z.shiftr self 1)) (- as_isize (Z.land self 1)).

(** ** What they compute *)
Lemma lxor_m1 n : Z.lxor n (-1) = - n - 1.
Proof. rewrite Z.lxor_m1_r. unfold Z.lnot. lia. Qed.

Lemma isize_zigzag_spec i : in_i 64 i -> isize_zigzag i = if i <? 0 then - 2 * i - 1 else 2 * i.
Proof.
  unfold in_i, isize_zigzag, as_usize. change (2 ^ (64 - 1)) with (2 ^ 63). intros Hi.
  rewrite Z.shiftl_mul_pow2, Z.shiftr_div_pow2 by lia. destruct (Z.ltb_spec i 0).
  - replace (i / 2 ^ 63) with (-1); [rewrite lxor_m1, Z.mod_small; lia|].
    apply (Z.div_unique_pos _ _ _ (i + 2 ^ 63)); lia.
  - rewrite Z.div_small by lia. rewrite Z.lxor_0_r, Z.mod_small; lia.
Qed.

Lemma usize_zigzag_spec u :
  in_u 64 u -> usize_zigzag u = if Z.odd u then - (u / 2) - 1 else u / 2.
Proof.
  unfold in_u, usize_zigzag, as_isize. intros Hu.
  rewrite Z.shiftr_div_pow2 by lia. change (2 ^ 1) with 2.
  change (Z.land u 1) with (Z.land u (Z.ones 1)). rewrite Z.land_ones by lia. change (2 ^ 1) with 2. rewrite Zmod_odd.
  rewrite (Z.mod_small (u / 2)) by (split; [apply Z.div_pos; lia|apply Z.div_lt_upper_bound; lia]).
  rewrite (proj2 (Z.ltb_lt (u / 2) _)) by (apply Z.div_lt_upper_bound; lia).
  destruct (Z.odd u).
  - change (Z.lxor (u / 2) (-1) = - (u / 2) - 1). apply lxor_m1.
  - change (Z.lxor (u / 2) 0 = u / 2). apply Z.lxor_0_r.
Qed.

Lemma isize_zigzag_range i : in_i 64 i -> in_u 64 (isize_zigzag i).
Proof.
  intros Hi. rewrite isize_zigzag_spec by done. unfold in_i, in_u in *.
  change (2 ^ (64 - 1)) with (2 ^ 63) in Hi. destruct (Z.ltb_spec i 0); lia.
Qed.

Lemma usize_zigzag_range u : in_u 64 u -> in_i 64 (usize_zigzag u).
Proof.
  intros Hu. rewrite usize_zigzag_spec by done. unfold in_i, in_u in *. change (2 ^ (64 - 1)) with (2 ^ 63).
  assert (0 <= u / 2 < 2 ^ 63) by (split; [apply Z.div_pos; lia|apply Z.div_lt_upper_bound; lia]).
  destruct (Z.odd u); lia.
Qed.

Lemma zigzag_isize i : in_i 64 i -> usize_zigzag (isize_zigzag i) = i.
Proof.
  intros Hi. rewrite usize_zigzag_spec by (by apply isize_zigzag_range).
  rewrite isize_zigzag_spec by done. destruct (Z.ltb_spec i 0).
  - replace (- 2 * i - 1) with (1 + 2 * (- i - 1)) by lia.
    rewrite Z.odd_add_mul_2. change (Z.odd 1) with true. cbn [negb].
    replace (1 + 2 * (- i - 1)) with ((- i - 1) * 2 + 1) by lia. rewrite Z.div_add_l by lia.
    change (1 / 2) with 0. lia.
  - rewrite Z.odd_mul. change (Z.odd 2) with false. simpl. rewrite Z.mul_comm, Z.div_mul; lia.
Qed.

Lemma zigzag_usize u : in_u 64 u -> isize_zigzag (usize_zigzag u) = u.
Proof.
  intros Hu. rewrite isize_zigzag_spec by (by apply usize_zigzag_range).
  rewrite usize_zigzag_spec by done. unfold in_u in Hu.
  pose proof (Z.div_mod u 2). rewrite Zmod_odd in H. assert (0 <= u / 2) by (apply Z.div_pos; lia).
  destruct (Z.odd u).
  - rewrite (proj2 (Z.ltb_lt _ _)) by lia. lia.
  - rewrite (proj2 (Z.ltb_ge _ _)) by lia. lia.
Qed.

(** ** UTF-8

    Rust's [char] is a Unicode scalar value and a [String] a sequence of them kept
    in UTF-8: [as_bytes] and [String::from_utf8] of the standard library. *)

Definition is_char (c : Z) : bool := (0 <=? c) && (c <? 0xD800) || (0xE000 <=? c) && (c <? 0x110000).

(** [char::from_u32] *)
Definition char_from_u32 (c : Z) : option Z := if is_char c then Some c else None.

Definition encode_char (c : Z) : bytes :=
  if c <? 0x80 then [c]
  else if c <? 0x800 then [0xC0 + c / 64; 0x80 + c mod 64]
  else if c <? 0x10000 then [0xE0 + c / 4096; 0x80 + c / 64 mod 64; 0x80 + c mod 64]
  else [0xF0 + c / 262144; 0x80 + c / 4096 mod 64; 0x80 + c / 64 mod 64; 0x80 + c mod 64].

Definition as_bytes (s : list Z) : bytes := s ≫= encode_char.

(** A continuation byte. *)
Definition continues (b : Z) : bool := (0x80 <=? b) && (b <? 0xC0).

Definition within (lo hi b : Z) : bool := (lo <=? b) && (b <? hi).

(** Overlong forms, surrogates and values above the last scalar are refused. *)
Fixpoint from_utf8 (bs : bytes) : option (list Z) :=
  match bs with
  | [] => Some []
  | b0 :: bs0 =>
      if b0 <? 0x80 then cons b0 <$> from_utf8 bs0
      else
        match bs0 with
        | [] => None
        | b1 :: bs1 =>
            if within 0xC0 0xE0 b0 then
              let c := (b0 - 0xC0) * 64 + (b1 - 0x80) in
              if continues b1 && (0x80 <=? c) then cons c <$> from_utf8 bs1 else None
            else
              match bs1 with
              | [] => None
              | b2 :: bs2 =>
                  if within 0xE0 0xF0 b0 then
                    let c := (b0 - 0xE0) * 4096 + (b1 - 0x80) * 64 + (b2 - 0x80) in
                    if continues b1 && continues b2 && (0x800 <=? c) && is_char c
                    then cons c <$> from_utf8 bs2 else None
                  else
                    match bs2 with
                    | [] => None
                    | b3 :: bs3 =>
                        let c := (b0 - 0xF0) * 262144 + (b1 - 0x80) * 4096 + (b2 - 0x80) * 64 + (b3 - 0x80) in
                        if within 0xF0 0xF8 b0 && continues b1 && continues b2 && continues b3 &&
                           (0x10000 <=? c) && is_char c
                        then cons c <$> from_utf8 bs3 else None
                    end
              end
        end
  end.

(** ** Round trip *)
Lemma is_char_range c : is_char c = true <-> 0 <= c < 0xD800 \/ 0xE000 <= c < 0x110000.
Proof. unfold is_char. rewrite orb_true_iff, !andb_true_iff, !Z.leb_le, !Z.ltb_lt. done. Qed.

Lemma is_char_in_u c : is_char c = true -> in_u 64 c.
Proof. intros Hc%is_char_range. unfold in_u. lia. Qed.

Lemma within_true lo hi b : lo <= b < hi -> within lo hi b = true.
Proof. unfold within. rewrite andb_true_iff, Z.leb_le, Z.ltb_lt. done. Qed.

Lemma within_false lo hi b : hi <= b -> within lo hi b = false.
Proof. unfold within. intros. apply andb_false_iff. right. by apply Z.ltb_ge. Qed.

Lemma continues_mod c : continues (0x80 + c mod 64) = true.
Proof. apply within_true. pose proof (Z.mod_pos_bound c 64). lia. Qed.

Ltac euclid := Z.to_euclidean_division_equations; lia.

Lemma from_utf8_cons c s : is_char c = true -> from_utf8 (encode_char c ++ s) = cons c <$> from_utf8 s.
Proof.
  intros Hc. pose proof Hc as Hr. apply is_char_range in Hr. unfold encode_char.
  destruct (Z.ltb_spec c 0x80); [simpl; by rewrite (proj2 (Z.ltb_lt c 128))|].
  destruct (Z.ltb_spec c 0x800); [|destruct (Z.ltb_spec c 0x10000)]; cbn [app from_utf8];
    rewrite (proj2 (Z.ltb_ge _ 128)) by euclid.
  - rewrite within_true by euclid. rewrite continues_mod.
    replace (_ * 64 + _) with c by euclid. by rewrite (proj2 (Z.leb_le 128 c)).
  - rewrite within_false, within_true by euclid. rewrite !continues_mod.
    replace (_ * 4096 + _ + _) with c by euclid. by rewrite (proj2 (Z.leb_le 2048 c)), Hc.
  - rewrite !within_false, within_true by euclid. rewrite !continues_mod.
    replace (_ * 262144 + _ + _ + _) with c by euclid. by rewrite (proj2 (Z.leb_le 65536 c)), Hc.
Qed.

Lemma from_utf8_as_bytes s : Forall (fun c => is_char c = true) s -> from_utf8 (as_bytes s) = Some s.
Proof.
  induction 1 as [|c s Hc _ IH]; [done|].
  change (as_bytes (c :: s)) with (encode_char c ++ as_bytes s). rewrite from_utf8_cons by done. by rewrite IH.
Qed.

Lemma encode_char_bytes c : is_char c = true -> Forall (in_u 8) (encode_char c).
Proof.
  intros Hr%is_char_range. unfold encode_char, in_u. change (2 ^ 8) with 256.
  repeat case_match; repeat constructor; rewrite ?Z.ltb_lt, ?Z.ltb_ge in *; euclid.
Qed.

Lemma as_bytes_bytes s : Forall (fun c => is_char c = true) s -> Forall (in_u 8) (as_bytes s).
Proof.
  induction 1 as [|c s Hc _ IH]; [constructor|].
  change (as_bytes (c :: s)) with (encode_char c ++ as_bytes s). apply Forall_app. split; [by apply encode_char_bytes|done].
Qed.

(** Whatever is read is made of scalar values. *)
Lemma from_utf8_chars bs s :
  from_utf8 bs = Some s -> Forall (in_u 8) bs -> Forall (fun c => is_char c = true) s.
Proof.
  remember (length bs) as n eqn:Hn. revert bs s Hn. induction (lt_wf n) as [n _ IH]; intros bs s -> Heq Hbs.
  assert (forall c t bs', (length bs' < length bs)%nat -> Forall (in_u 8) bs' -> is_char c = true ->
    cons c <$> from_utf8 bs' = Some t -> Forall (fun c => is_char c = true) t) as Hcons.
  { intros c t bs' Hlen Hbs' Hc (s' & Hs' & ->)%fmap_Some. constructor; [done|]. by eapply IH. }
  destruct Hbs as [|b0 bs0 Hb0 Hbs0]; [by simplify_eq/=|]. cbn [from_utf8] in Heq. unfold in_u in Hb0.
  destruct (Z.ltb_spec b0 0x80); [eapply Hcons; [..|exact Heq]; [simpl; lia|done|apply is_char_range; lia]|].
  destruct Hbs0 as [|b1 bs1 Hb1 Hbs1]; [done|]. unfold within, continues in Heq.
  repeat case_match; simplify_eq; rewrite ?andb_true_iff, ?Z.leb_le, ?Z.ltb_lt in *; destruct_and?;
    repeat match goal with H : Forall _ (_ :: _) |- _ => apply Forall_cons in H as [? ?] end;
    (eapply Hcons; [..|exact Heq]; [simpl; lia|done|first [done | apply is_char_range; lia]]).
Qed.
