(* ===== verification/FlatCodec.v ===== *)
(** * The flat encoder

    [pallas-codec/src/flat/encode/encoder.rs] and [encode/error.rs], with the filler
    of [filler.rs]: values are written bit by bit, the byte in progress is kept
    apart from the buffer. *)
From S2P Require Import Prelude Effects FlatBase.

Module Filler.
Inductive t := FillerStart (next : t) | FillerEnd.

(** The loop of [length], with the length of the nodes it has passed. *)
Fixpoint length_loop (length : Z) (node : t) : Z :=
  match node with
  | FillerStart next => length_loop (length + 1) next
  | FillerEnd => length
  end.
Definition length (self : t) : Z := length_loop 1 self.

Definition into_next (self : t) : result t t :=
  match self with
  | FillerStart x => Ok x
  | FillerEnd => Err FillerEnd
  end.

(** The node that is taken out leaves an end in its place. *)
Definition take_next (self : t) : option t * t :=
  match self with
  | FillerStart x => (Some x, FillerStart FillerEnd)
  | FillerEnd => (None, FillerEnd)
  end.

(** [drop], until no node is left: what it has taken out, one after the other. *)
Fixpoint drop_loop (node : t) : list t :=
  match node with
  | FillerStart next => (take_next node).2 :: drop_loop next
  | FillerEnd => [node]
  end.
End Filler.

Module en.
Inductive Error := BufferNotByteAligned | Message (m : bytes).
End en.

Module Encoder.
Record t := { buffer : bytes; used_bits : Z; current_byte : Z }.

Definition new : t := {| buffer := []; used_bits := 0; current_byte := 0 |}.

Abbreviation enc := (comp en.Error t).

Definition set_used_bits (n : Z) (e : t) : t :=
  {| buffer := buffer e; used_bits := n; current_byte := current_byte e |}.
Definition set_current_byte (b : Z) (e : t) : t :=
  {| buffer := buffer e; used_bits := used_bits e; current_byte := b |}.

(** ** Bits *)
Definition next_word : enc unit :=
  modify (fun e => {| buffer := buffer e ++ [current_byte e]; used_bits := 0; current_byte := 0 |}).

Definition zero : enc unit :=
  e ← get;
  if used_bits e =? 7 then next_word
  else put (set_used_bits (used_bits e + 1) e).

Definition one : enc unit :=
  e ← get;
  if used_bits e =? 7 then
    _ ← put (set_current_byte (Z.lor (current_byte e) 1) e);
    next_word
  else
    bit ← eval (u8_shr 128 (used_bits e));
    put (set_used_bits (used_bits e + 1) (set_current_byte (Z.lor (current_byte e) bit) e)).

Definition filler : enc unit :=
  _ ← modify (fun e => set_current_byte (Z.lor (current_byte e) 1) e);
  next_word.

Definition byte_unaligned (x : Z) : enc unit :=
  e ← get;
  high ← eval (u8_shr x (used_bits e));
  low ← eval (u8_shl x (8 - used_bits e));
  put {| buffer := buffer e ++ [Z.lor (current_byte e) high]; used_bits := used_bits e; current_byte := low |}.

(** The last case of [bits]: the byte in progress is filled, and what does not fit
    goes to the next one. *)
Definition wide_bits (num_bits val : Z) : enc unit :=
  _ ← modify (fun e => set_used_bits (used_bits e + num_bits) e);
  e ← get;
  let unused_bits := 8 - used_bits e in
  if unused_bits =? 0 then
    _ ← put (set_current_byte (Z.lor (current_byte e) val) e);
    next_word
  else if 0 <? unused_bits then
    x ← eval (u8_shl val unused_bits);
    put (set_current_byte (Z.lor (current_byte e) x) e)
  else
    let used := - unused_bits in
    x ← eval (u8_shr val used);
    _ ← put (set_current_byte (Z.lor (current_byte e) x) e);
    _ ← next_word;
    x ← eval (u8_shl val (8 - used));
    modify (fun e => set_used_bits used (set_current_byte x e)).

Definition bits (num_bits val : Z) : enc unit :=
  match num_bits, val with
  | 1, 0 => zero
  | 1, 1 => one
  | 2, 0 => _ ← zero; zero
  | 2, 1 => _ ← zero; one
  | 2, 2 => _ ← one; zero
  | 2, 3 => _ ← one; one
  | _, _ => wide_bits num_bits val
  end.

(** ** Values *)
Definition u8 (x : Z) : enc unit :=
  e ← get;
  if used_bits e =? 0 then
    _ ← put (set_current_byte x e);
    next_word
  else byte_unaligned x.

Definition bool (x : Datatypes.bool) : enc unit := if x then one else zero.

(** A [usize] has at most ten groups of seven bits. *)
Fixpoint word_loop (fuel : nat) (d : Z) : enc unit :=
  match fuel with
  | O => unfinished
  | S fuel =>
      let w := Z.land d 127 in
      let d := Z.shiftr d 7 in
      let w := if d =? 0 then w else Z.lor w 128 in
      _ ← bits 8 w;
      if d =? 0 then mret () else word_loop fuel d
  end.
Definition word (c : Z) : enc unit := word_loop 10 c.

Definition integer (i : Z) : enc unit := word (isize_zigzag i).

Definition char (c : Z) : enc unit := word c.

Fixpoint string (s : list Z) : enc unit :=
  match s with
  | [] => zero
  | i :: s =>
      _ ← one;
      _ ← char i;
      string s
  end.

Definition write_blk (arr : bytes) : enc unit :=
  modify (fun e =>
    let buffer := foldl (fun buffer chunk => buffer ++ [Z.of_nat (length chunk) mod 2 ^ 8] ++ chunk)
                    (buffer e) (chunks 255 arr) in
    {| buffer := buffer ++ [0]; used_bits := used_bits e; current_byte := current_byte e |}).

Definition byte_array (arr : bytes) : enc unit :=
  e ← get;
  if negb (used_bits e =? 0) then throw en.BufferNotByteAligned
  else write_blk arr.

Definition bytes (x : bytes) : enc unit :=
  _ ← filler;
  byte_array x.

Definition utf8 (s : list Z) : enc unit := bytes (as_bytes s).

Fixpoint encode_list_with {T} (encoder_func : T -> enc unit) (list : list T) : enc unit :=
  match list with
  | [] => zero
  | item :: list =>
      _ ← one;
      _ ← encoder_func item;
      encode_list_with encoder_func list
  end.
End Encoder.

(** ** The flat decoder

    [pallas-codec/src/flat/decode/decoder.rs] and [decode/error.rs].  A method that
    fails leaves the position it has reached, one that reads past the buffer
    without a check panics. *)

Module de.
Inductive Error :=
| EndOfBuffer
| BufferNotByteAligned
| IncorrectNumBits
| NotEnoughBytes (n : Z)
| NotEnoughBits (n : Z)
| DecodeUtf8 (bytes : bytes)
| DecodeChar (c : Z)
| Message (m : bytes)
| UnknownTermConstructor (tag : Z) (preceding : Z) (buffer : bytes) (pos len : Z).
End de.

Module Decoder.
Record t := { buffer : bytes; used_bits : Z; pos : Z }.

Definition new (bytes : bytes) : t := {| buffer := bytes; used_bits := 0; pos := 0 |}.

Abbreviation dec := (comp de.Error t).

Definition len (d : t) : Z := Z.of_nat (length (buffer d)).

(** [self.buffer[i]], which panics out of range. *)
Definition index (d : t) (i : Z) : dec Z :=
  eval (if i <? 0 then None else buffer d !! Z.to_nat i).

Definition advance (used pos : Z) (d : t) : t := {| buffer := buffer d; used_bits := used; pos := pos |}.

(** The bits that are left, and fuel for a loop that reads one at least in every
    turn. *)
Definition bits_left (d : t) : Z := (len d - pos d) * 8 - used_bits d.
Definition fuel (d : t) : nat := S (Z.to_nat (bits_left d)).

(** ** Bits *)
Definition increment_buffer_by_bit : dec unit :=
  modify (fun d => if used_bits d =? 7 then advance 0 (pos d + 1) d else advance (used_bits d + 1) (pos d) d).

Definition bit : dec Datatypes.bool :=
  d ← get;
  if len d <=? pos d then throw de.EndOfBuffer
  else
    current ← index d (pos d);
    mask ← eval (u8_shr 128 (used_bits d));
    _ ← increment_buffer_by_bit;
    mret (0 <? Z.land current mask).

Definition zero : dec Datatypes.bool := current_bit ← bit; mret (negb current_bit).

(** Unlike [bit], without a check for the end of the buffer. *)
Definition bool : dec Datatypes.bool :=
  d ← get;
  current_byte ← index d (pos d);
  mask ← eval (u8_shr 128 (used_bits d));
  _ ← increment_buffer_by_bit;
  mret (negb (Z.land current_byte mask =? 0)).

Definition ensure_bytes (required_bytes : Z) : dec unit :=
  d ← get;
  if len d - pos d <? required_bytes then throw (de.NotEnoughBytes required_bytes) else mret ().

Definition ensure_bits (required_bits : Z) : dec unit :=
  d ← get;
  if bits_left d <? required_bits then throw (de.NotEnoughBits required_bits) else mret ().

Definition drop_bits (num_bits : Z) : dec unit :=
  modify (fun d =>
    let all_used_bits := num_bits + used_bits d in
    advance (Z.rem all_used_bits 8) (pos d + Z.quot all_used_bits 8) d).

Definition bits8 (num_bits : Z) : dec Z :=
  if 8 <? num_bits then throw de.IncorrectNumBits
  else
    _ ← ensure_bits num_bits;
    d ← get;
    let unused_bits := 8 - used_bits d in
    let leading_zeroes := 8 - num_bits in
    b ← index d (pos d);
    b ← eval (u8_shl b (used_bits d));
    r ← eval (u8_shr b leading_zeroes);
    x ← (if unused_bits <? num_bits then
           b ← index d (pos d + 1);
           s ← eval (u8_shr b (unused_bits + leading_zeroes));
           mret (Z.lor r s)
         else mret r);
    _ ← drop_bits num_bits;
    mret x.

(** ** Values *)
Definition u8 : dec Z := bits8 8.

(** [(word7 as usize) << shl]: a shift by the width or more panics, the bits shifted
    out are lost. *)
Definition usize_shl (x n : Z) : option Z :=
  if (0 <=? n) && (n <? 64) then Some (Z.shiftl x n mod 2 ^ 64) else None.

(** The eleventh turn of the loop panics. *)
Fixpoint word_loop (fuel : nat) (final_word shl : Z) : dec Z :=
  match fuel with
  | O => unfinished
  | S fuel =>
      word8 ← bits8 8;
      let word7 := Z.land word8 127 in
      x ← eval (usize_shl word7 shl);
      let final_word := Z.lor final_word x in
      let leading_bit := Z.land word8 128 in
      if 0 <? leading_bit then word_loop fuel final_word (shl + 7) else mret final_word
  end.
Definition word : dec Z := word_loop 11 0 0.

Definition integer : dec Z := w ← word; mret (usize_zigzag w).

Definition char : dec Z :=
  w ← word;
  let character := w mod 2 ^ 32 in
  match char_from_u32 character with
  | Some c => mret c
  | None => throw (de.DecodeChar character)
  end.

Fixpoint string_loop (fuel : nat) (s : list Z) : dec (list Z) :=
  match fuel with
  | O => unfinished
  | S fuel =>
      more ← bit;
      if (more : Datatypes.bool) then
        c ← char;
        string_loop fuel (s ++ [c])
      else mret s
  end.
Definition string : dec (list Z) := d ← get; string_loop (fuel d) [].

Fixpoint filler_loop (fuel : nat) : dec unit :=
  match fuel with
  | O => unfinished
  | S fuel =>
      z ← zero;
      if (z : Datatypes.bool) then filler_loop fuel else mret ()
  end.
Definition filler : dec unit := d ← get; filler_loop (fuel d).

(** The turns of the loop are fewer than the bytes. *)
Fixpoint byte_array_loop (fuel : nat) (blk_len : Z) (blk_array : bytes) : dec bytes :=
  if blk_len =? 0 then mret blk_array
  else
    match fuel with
    | O => unfinished
    | S fuel =>
        _ ← ensure_bytes (blk_len + 1);
        d ← get;
        let decoded_array := take (Z.to_nat blk_len) (drop (Z.to_nat (pos d)) (buffer d)) in
        let blk_array := blk_array ++ decoded_array in
        _ ← put (advance (used_bits d) (pos d + blk_len) d);
        d ← get;
        blk_len ← index d (pos d);
        _ ← put (advance (used_bits d) (pos d + 1) d);
        byte_array_loop fuel blk_len blk_array
    end.

Definition byte_array : dec bytes :=
  d ← get;
  if negb (used_bits d =? 0) then throw de.BufferNotByteAligned
  else
    _ ← ensure_bytes 1;
    blk_len ← index d (pos d);
    _ ← put (advance (used_bits d) (pos d + 1) d);
    byte_array_loop (length (buffer d)) blk_len [].

Definition bytes : dec bytes :=
  _ ← filler;
  byte_array.

Definition utf8 : dec (list Z) :=
  b ← bytes;
  match from_utf8 b with
  | Some s => mret s
  | None => throw (de.DecodeUtf8 b)
  end.

Fixpoint list_loop {T} (decoder_func : dec T) (fuel : nat) (vec_array : list T) : dec (list T) :=
  match fuel with
  | O => unfinished
  | S fuel =>
      more ← bit;
      if (more : Datatypes.bool) then
        x ← decoder_func;
        list_loop decoder_func fuel (vec_array ++ [x])
      else mret vec_array
  end.
Definition decode_list_with {T} (decoder_func : dec T) : dec (list T) :=
  d ← get; list_loop decoder_func (fuel d) [].

(** The same with a log that the items' decoder extends. *)
Fixpoint list_debug_loop {T L} (decoder_func : comp de.Error (t * L) T) (fuel : nat) (vec_array : list T) :
    comp de.Error (t * L) (list T) :=
  match fuel with
  | O => unfinished
  | S fuel =>
      more ← on_first bit;
      if (more : Datatypes.bool) then
        x ← decoder_func;
        list_debug_loop decoder_func fuel (vec_array ++ [x])
      else mret vec_array
  end.
Definition decode_list_with_debug {T} (decoder_func : comp de.Error (t * list Prelude.bytes) T) :
    comp de.Error (t * list Prelude.bytes) (list T) :=
  d ← get; list_debug_loop decoder_func (fuel d.1) [].
End Decoder.

(** ** Flat encoding of values

    The traits [Encode] and [Decode] of [pallas-codec/src/flat/encode/mod.rs] and
    [decode/mod.rs] with their implementations, and the functions [encode] and
    [decode] of [flat/mod.rs], which end a value with a filler. *)

(** The types that are encoded, each with its values. *)
Class FlatEncode (A : Type) := flat_encode : A -> Encoder.enc unit.
Class FlatDecode (A : Type) := flat_decode : Decoder.dec A.

Record usize := { usize_value : Z }.
Record isize := { isize_value : Z }.
Record u8 := { u8_value : Z }.
Record char := { char_value : Z }.
(** [String] and [&str] *)
Record text := { chars : list Z }.
(** [Vec<u8>] and [&[u8]] *)
Record blob := { blob_bytes : bytes }.

#[export] Instance bool_encode : FlatEncode bool := fun x => Encoder.bool x.
#[export] Instance u8_encode : FlatEncode u8 := fun x => Encoder.u8 (u8_value x).
#[export] Instance isize_encode : FlatEncode isize := fun x => Encoder.integer (isize_value x).
#[export] Instance usize_encode : FlatEncode usize := fun x => Encoder.word (usize_value x).
#[export] Instance char_encode : FlatEncode char := fun x => Encoder.char (char_value x).
#[export] Instance text_encode : FlatEncode text := fun x => Encoder.utf8 (chars x).
#[export] Instance blob_encode : FlatEncode blob := fun x => Encoder.bytes (blob_bytes x).
#[export] Instance Filler_encode : FlatEncode Filler.t := fun _ => Encoder.filler.

#[export] Instance bool_decode : FlatDecode bool := Decoder.bool.
#[export] Instance u8_decode : FlatDecode u8 := x ← Decoder.u8; mret {| u8_value := x |}.
#[export] Instance isize_decode : FlatDecode isize := x ← Decoder.integer; mret {| isize_value := x |}.
#[export] Instance usize_decode : FlatDecode usize := x ← Decoder.word; mret {| usize_value := x |}.
#[export] Instance char_decode : FlatDecode char := x ← Decoder.char; mret {| char_value := x |}.
#[export] Instance text_decode : FlatDecode text := x ← Decoder.utf8; mret {| chars := x |}.
#[export] Instance blob_decode : FlatDecode blob := x ← Decoder.bytes; mret {| blob_bytes := x |}.
#[export] Instance Filler_decode : FlatDecode Filler.t := _ ← Decoder.filler; mret Filler.FillerEnd.

(** [flat::encode]: a value is written into a new encoder, whose buffer is returned
    after the filler. *)
Definition encode `{FlatEncode A} (value : A) : outcome en.Error Encoder.t bytes :=
  (_ ← flat_encode value;
   _ ← Encoder.filler;
   e ← get;
   mret (Encoder.buffer e)) Encoder.new.

(** [flat::decode]: what follows the filler is not looked at. *)
Definition decode `{FlatDecode A} (b : bytes) : outcome de.Error Decoder.t A :=
  (value ← flat_decode;
   _ ← Decoder.filler;
   mret value) (Decoder.new b).
