(* ===== verification/FlatLaws.v ===== *)
(** * What the flat encoder writes and the decoder reads

    An encoder stands for the bits it has been given: those of its buffer and the
    used ones of the byte in progress; each operation appends its bits to them.  A
    decoder stands for the bits that are left of its buffer; each operation reads
    some of them.  A value is read back from the bits the encoder writes for it, and
    a decoder never gets out of its buffer, however the bytes look. *)
From S2P Require Import Prelude Effects FlatBase FlatCodec.
Import Encoder(buffer, used_bits, current_byte, set_used_bits, set_current_byte, wide_bits).

(** ** The abstract encoder *)

(** [e] stands for [w]. *)
Record stands_for (e : Encoder.t) (w : list bool) : Prop := {
  std_used : 0 <= used_bits e < 8;
  std_current : in_u 8 (current_byte e);
  std_clear i : 0 <= i < 8 - used_bits e -> Z.testbit (current_byte e) i = false;
  std_buffer : Forall (in_u 8) (buffer e);
  std_bits : w = bytes_bits (buffer e) ++
                 low_bits (Z.to_nat (used_bits e)) (Z.shiftr (current_byte e) (8 - used_bits e))
}.

(** The bits of a value may depend on the position at which it is written. *)
Definition layout : Type := nat -> list bool.

Definition fixed (bs : list bool) : layout := fun _ => bs.
Definition followed (f g : layout) : layout := fun p => f p ++ g (p + length (f p))%nat.

(** Zeros up to a one at the end of the byte. *)
Definition padding : layout := fun p => replicate (7 - p mod 8) false ++ [true].

(** The computation appends the bits of [f], whatever has been written before. *)
Definition appends (m : Encoder.enc unit) (f : layout) : Prop :=
  forall e w, stands_for e w -> exists e', yields m e () e' /\ stands_for e' (w ++ f (length w)).

Lemma stands_for_new : stands_for Encoder.new [].
Proof. split; try done. intros i _. apply Z.bits_0. Qed.

Lemma stands_for_length e w :
  stands_for e w -> length w = (8 * length (buffer e) + Z.to_nat (used_bits e))%nat.
Proof. intros [_ _ _ _ ->]. by rewrite length_app, length_bytes_bits, length_low_bits. Qed.

Lemma appends_fixed m bs :
  (forall e w, stands_for e w -> exists e', yields m e () e' /\ stands_for e' (w ++ bs)) -> appends m (fixed bs).
Proof. done. Qed.

Lemma appends_followed m k f g :
  appends m f -> appends k g -> appends (_ ← m; k) (followed f g).
Proof.
  intros Hm Hk e w He. destruct (Hm e w He) as (e1 & H1 & He1). destruct (Hk e1 _ He1) as (e2 & H2 & He2).
  exists e2. split; [by eapply yields_bind|]. unfold followed. by rewrite length_app, <- app_assoc in He2.
Qed.

Lemma appends_ext m f g : (forall p, f p = g p) -> appends m f -> appends m g.
Proof. intros Hfg Hm e w He. destruct (Hm e w He) as (e' & ? & ?). exists e'. by rewrite <- Hfg. Qed.

(** ** The byte in progress *)

(** The byte in progress is replaced by one that continues it to its end. *)
Lemma push_byte e w b x :
  stands_for e w -> in_u 8 b ->
  byte_bits b = low_bits (Z.to_nat (used_bits e)) (Z.shiftr (current_byte e) (8 - used_bits e)) ++ x ->
  stands_for {| buffer := buffer e ++ [b]; used_bits := 0; current_byte := 0 |} (w ++ x).
Proof.
  intros [Hu Hc Hl Hb ->] Hin Hbits. split; simpl; try done.
  - intros i _. apply Z.bits_0.
  - apply Forall_app. split; [done|by constructor].
  - rewrite bytes_bits_app, bytes_bits_cons, Hbits, !app_nil_r, <- !app_assoc. done.
Qed.

(** Its used bits are extended. *)
Lemma extend_byte e w b n x :
  stands_for e w -> in_u 8 b -> used_bits e + Z.of_nat n < 8 ->
  (forall i, 0 <= i < 8 - (used_bits e + Z.of_nat n) -> Z.testbit b i = false) ->
  low_bits (Z.to_nat (used_bits e) + n) (Z.shiftr b (8 - (used_bits e + Z.of_nat n))) =
    low_bits (Z.to_nat (used_bits e)) (Z.shiftr (current_byte e) (8 - used_bits e)) ++ x ->
  stands_for {| buffer := buffer e; used_bits := used_bits e + Z.of_nat n; current_byte := b |} (w ++ x).
Proof.
  intros [Hu Hc Hl Hb ->] Hin Hn Hclear Hbits. split; simpl; try done; [lia|].
  rewrite <- app_assoc, <- Hbits. f_equal. f_equal. lia.
Qed.

Lemma in_u_lor w a b : 0 <= w -> in_u w a -> in_u w b -> in_u w (Z.lor a b).
Proof.
  intros Hw [Ha1 Ha2] [Hb1 Hb2]. apply in_u_bits; [done|by apply Z.lor_nonneg|].
  intros i Hi. by rewrite Z.lor_spec, !(testbit_high w) by done.
Qed.

Lemma in_u_shr w a n : 0 <= w -> 0 <= n -> in_u w a -> in_u w (Z.shiftr a n).
Proof.
  intros Hw Hn Ha. apply in_u_bits; [done|apply Z.shiftr_nonneg, Ha|].
  intros i Hi. rewrite Z.shiftr_spec by lia. apply (testbit_high w); [done|lia].
Qed.

Lemma in_u_byte a : in_u 8 (Z.land a 255).
Proof. change 255 with (Z.ones 8). rewrite Z.land_ones by lia. by apply Z.mod_pos_bound. Qed.

(** Rewrites away the bits outside the ranges in the context. *)
Ltac clear_bits :=
  repeat match goal with
  | H : in_u ?w ?x |- context [Z.testbit ?x ?i] => rewrite (testbit_high w x i H) by lia
  | H : forall i, _ -> Z.testbit ?x i = false |- context [Z.testbit ?x ?i] => rewrite (H i) by lia
  end; rewrite ?orb_false_r, ?andb_true_r, ?orb_false_l.

(** The same bits on both sides once those are gone. *)
Ltac same_bits :=
  low_bits_ext; clear_bits;
  try (rewrite (proj2 (Z.ltb_lt _ _)) by lia; rewrite andb_true_r);
  first [done | f_equal; lia].

(** ** Writing the bits of a number *)
Lemma wide_bits_appends n v :
  (1 <= n <= 8)%nat -> in_u (Z.of_nat n) v -> appends (wide_bits (Z.of_nat n) v) (fixed (low_bits n v)).
Proof.
  intros Hn Hv. apply appends_fixed. intros e w He. pose proof He as [Hu Hc Hl Hb _].
  unfold wide_bits, yields, mbind, comp_bind, modify, get, put, eval. cbn [used_bits set_used_bits].
  set (u := used_bits e) in *.
  destruct (Z.eqb_spec (8 - (u + Z.of_nat n)) 0) as [E|E];
    [|destruct (Z.ltb_spec 0 (8 - (u + Z.of_nat n)))].
  - eexists. split; [done|]. unfold set_current_byte, set_used_bits. cbn. apply push_byte; [done| |].
    + apply in_u_lor; [lia|done|]. unfold in_u in *. split; [lia|].
      apply (Z.lt_le_trans _ (2 ^ Z.of_nat n)); [lia|]. apply Z.pow_le_mono_r; lia.
    + unfold byte_bits. fold u. replace 8%nat with (Z.to_nat u + n)%nat by lia. rewrite low_bits_app.
      f_equal; same_bits.
  - rewrite u8_shl_Some by lia. eexists. split; [done|]. unfold set_current_byte, set_used_bits. cbn. fold u. apply extend_byte; [done| |fold u; lia| |].
    + apply in_u_lor; [lia|done|apply in_u_byte].
    + fold u. intros i Hi. bits_simpl. clear_bits. by rewrite Z.testbit_neg_r by lia.
    + fold u. rewrite low_bits_app. f_equal; same_bits.
  - set (k := - (8 - (u + Z.of_nat n))) in *. rewrite u8_shr_Some by lia. rewrite u8_shl_Some by lia.
    eexists. split; [done|]. unfold set_current_byte, set_used_bits. cbn.
    pose proof (push_byte e w (Z.lor (current_byte e) (Z.shiftr v k)) (low_bits (n - Z.to_nat k) (Z.shiftr v k)) He) as Hp.
    replace (low_bits n v) with (low_bits (n - Z.to_nat k) (Z.shiftr v k) ++ low_bits (Z.to_nat k) v).
    2:{ replace (low_bits n v) with (low_bits ((n - Z.to_nat k) + Z.to_nat k) v) by (f_equal; lia).
        rewrite low_bits_app. by rewrite Z2Nat.id by lia. }
    rewrite app_assoc.
    pose proof (extend_byte {| buffer := buffer e ++ [Z.lor (current_byte e) (Z.shiftr v k)]; used_bits := 0; current_byte := 0 |}
      (w ++ low_bits (n - Z.to_nat k) (Z.shiftr v k)) (Z.land (Z.shiftl v (8 - k)) 255) (Z.to_nat k) (low_bits (Z.to_nat k) v)) as Hx.
    cbn in Hx. rewrite Z2Nat.id in Hx by lia. apply Hx; clear Hx; [apply Hp; clear Hp|apply in_u_byte|lia| |].
    + apply in_u_lor; [lia|done|]. apply in_u_shr; [lia..|]. unfold in_u in *. split; [lia|].
      apply (Z.lt_le_trans _ (2 ^ Z.of_nat n)); [lia|]. apply Z.pow_le_mono_r; lia.
    + fold u. unfold byte_bits. replace 8%nat with (Z.to_nat u + (n - Z.to_nat k))%nat by lia. rewrite low_bits_app.
      f_equal; same_bits.
    + intros i Hi. bits_simpl. by rewrite Z.testbit_neg_r by lia.
    + same_bits.
Qed.

(** The other ways of writing bits are cases of this one. *)
Lemma zero_wide e : 0 <= used_bits e < 8 -> Encoder.zero e = wide_bits 1 0 e.
Proof.
  intros Hu. unfold Encoder.zero, wide_bits, mbind, comp_bind, modify, get, put, eval, Encoder.next_word.
  destruct e as [b u c]. cbn [used_bits set_used_bits current_byte buffer] in *.
  destruct (Z.eqb_spec u 7) as [->|Hne]; cbn [Z.add Z.sub]; [by rewrite Z.lor_0_r|].
  rewrite (proj2 (Z.eqb_neq _ 0)) by lia. rewrite (proj2 (Z.ltb_lt 0 _)) by lia.
  rewrite u8_shl_Some, Z.shiftl_0_l, Z.lor_0_r by lia. done.
Qed.

Lemma one_wide e : 0 <= used_bits e < 8 -> Encoder.one e = wide_bits 1 1 e.
Proof.
  intros Hu. unfold Encoder.one, wide_bits, mbind, comp_bind, modify, get, put, eval, Encoder.next_word.
  destruct e as [b u c]. cbn [used_bits set_used_bits current_byte buffer] in *.
  destruct (Z.eqb_spec u 7) as [->|Hne]; [done|].
  rewrite (proj2 (Z.eqb_neq _ 0)) by lia. rewrite (proj2 (Z.ltb_lt 0 _)) by lia.
  rewrite u8_shl_Some, u8_shr_Some by lia. cbn [set_current_byte set_used_bits].
  replace (Z.land (Z.shiftl 1 (8 - (u + 1))) 255) with (Z.shiftr 128 u); [done|].
  assert (u = 0 \/ u = 1 \/ u = 2 \/ u = 3 \/ u = 4 \/ u = 5 \/ u = 6) as Hcases by lia.
  by destruct Hcases as [->|[->|[->|[->|[->|[->| ->]]]]]].
Qed.

Lemma u8_wide e w x : stands_for e w -> Encoder.u8 x e = wide_bits 8 x e.
Proof.
  intros [Hu Hc Hl _ _]. unfold Encoder.u8, Encoder.byte_unaligned, wide_bits, mbind, comp_bind, modify, get, put, eval.
  destruct e as [b u c]. cbn [used_bits set_used_bits current_byte buffer set_current_byte] in *.
  destruct (Z.eqb_spec u 0) as [->|Hne]; cbn [Z.add Z.sub Z.eqb Z.opp Z.pos_sub].
  - replace c with 0; [done|]. apply (low_bits_inj 8); [done|done|]. apply low_bits_ext.
    intros i Hi. by rewrite Z.bits_0, Hl.
  - rewrite (proj2 (Z.eqb_neq _ 0)) by lia. rewrite (proj2 (Z.ltb_ge 0 _)) by lia.
    replace (- (8 - (u + 8))) with u by lia. cbn [used_bits]. rewrite u8_shr_Some, u8_shl_Some by lia. done.
Qed.

Lemma appends_as m k f :
  (forall e w, stands_for e w -> m e = k e) -> appends k f -> appends m f.
Proof. intros Hmk Hk e w He. unfold yields. rewrite (Hmk e w He). by apply Hk. Qed.

Lemma zero_appends : appends Encoder.zero (fixed [false]).
Proof.
  eapply appends_as; [intros e w He; apply zero_wide, He|]. apply (wide_bits_appends 1 0); [lia|done].
Qed.

Lemma one_appends : appends Encoder.one (fixed [true]).
Proof.
  eapply appends_as; [intros e w He; apply one_wide, He|]. apply (wide_bits_appends 1 1); [lia|done].
Qed.

Lemma u8_appends x : in_u 8 x -> appends (Encoder.u8 x) (fixed (byte_bits x)).
Proof.
  intros Hx. eapply appends_as; [intros e w He; by eapply u8_wide|]. apply (wide_bits_appends 8 x); [lia|done].
Qed.

Lemma bool_appends b : appends (Encoder.bool b) (fixed [b]).
Proof. destruct b; [apply one_appends|apply zero_appends]. Qed.

Lemma bits_appends n v :
  (1 <= n <= 8)%nat -> in_u (Z.of_nat n) v -> appends (Encoder.bits (Z.of_nat n) v) (fixed (low_bits n v)).
Proof.
  intros Hn Hv. destruct (decide (n = 1%nat)) as [->|]; [|destruct (decide (n = 2%nat)) as [->|]].
  - assert (v = 0 \/ v = 1) as [-> | ->] by (unfold in_u in *; lia); [apply zero_appends|apply one_appends].
  - assert (v = 0 \/ v = 1 \/ v = 2 \/ v = 3) as Hcases by (unfold in_u in *; lia).
    destruct Hcases as [->|[->|[->| ->]]];
      (eapply appends_ext; [|eapply appends_followed; first [apply zero_appends | apply one_appends]]; done).
  - replace (Encoder.bits (Z.of_nat n) v) with (wide_bits (Z.of_nat n) v); [by apply wide_bits_appends|].
    do 9 (destruct n as [|n]; [try lia; done|]). lia.
Qed.

(** ** Padding *)
Lemma low_bits_false n x :
  (forall i, 0 <= i < Z.of_nat n -> Z.testbit x i = false) -> low_bits n x = replicate n false.
Proof.
  induction n as [|n IH]; intros Hx; simpl; [done|]. rewrite Hx by lia. f_equal. apply IH. intros i Hi. apply Hx. lia.
Qed.

Lemma padding_at e w :
  stands_for e w -> padding (length w) = replicate (7 - Z.to_nat (used_bits e)) false ++ [true].
Proof.
  intros He. pose proof (std_used e w He). unfold padding. rewrite (stands_for_length e w He).
  rewrite Nat.mul_comm, Nat.add_comm, Nat.Div0.mod_add, Nat.mod_small by lia. done.
Qed.

Lemma filler_yields e w :
  stands_for e w -> exists e', yields Encoder.filler e () e' /\ used_bits e' = 0 /\
    stands_for e' (w ++ padding (length w)).
Proof.
  intros He. pose proof He as [Hu Hc Hl _ _]. eexists. split; [done|]. split; [done|].
  rewrite (padding_at e w He). apply (push_byte e w (Z.lor (current_byte e) 1)); [done| apply in_u_lor; [lia|done|done]|]. unfold byte_bits.
  set (u := Z.to_nat (used_bits e)).
  change (low_bits 8 ?x) with (low_bits (id 8%nat) x). replace (id 8%nat) with (u + ((7 - u) + 1))%nat by (unfold id; lia).
  rewrite !low_bits_app. f_equal; [|f_equal].
  - low_bits_ext. rewrite (testbit_high 1 1) by (done || lia). rewrite orb_false_r. f_equal. lia.
  - apply low_bits_false. intros i Hi. bits_simpl. rewrite Hl by lia. by apply (testbit_high 1); [|lia].
  - cbn [low_bits Z.of_nat]. rewrite Z.lor_spec. f_equal. apply orb_true_r.
Qed.

Lemma filler_appends : appends Encoder.filler padding.
Proof. intros e w He. destruct (filler_yields e w He) as (e' & ? & _ & ?). eauto. Qed.

(** ** Words: groups of seven bits, the low ones first, all but the last marked *)
Fixpoint groups (fuel : nat) (d : Z) : bytes :=
  match fuel with
  | O => []
  | S fuel => if d <? 128 then [d] else d mod 128 + 128 :: groups fuel (d / 128)
  end.

(** The groups of a [usize]. *)
Definition word_groups (c : Z) : bytes := groups 10 c.

Lemma lor_128 w : 0 <= w < 128 -> Z.lor w 128 = w + 128.
Proof. intros Hw. by apply (lor_shiftl w 1 7). Qed.

Lemma word_loop_appends fuel d :
  0 <= d < 128 ^ Z.of_nat fuel -> (0 < fuel)%nat ->
  appends (Encoder.word_loop fuel d) (fixed (bytes_bits (groups fuel d))).
Proof.
  revert d; induction fuel as [|fuel IH]; intros d Hd Hf; [lia|]. cbn [Encoder.word_loop groups].
  change 127 with (Z.ones 7). rewrite Z.land_ones, Z.shiftr_div_pow2 by lia. change (2 ^ 7) with 128.
  pose proof (Z.mod_pos_bound d 128). destruct (Z.ltb_spec d 128).
  - rewrite Z.div_small, Z.mod_small by lia. cbn [Z.eqb]. eapply appends_ext.
    2:{ eapply appends_followed; [apply (bits_appends 8); [lia|]|].
        - unfold in_u. simpl. lia.
        - intros e w He. exists e. split; [apply yields_ret|]. instantiate (1 := fixed []). by rewrite app_nil_r. }
    done.
  - rewrite (proj2 (Z.eqb_neq (d / 128) 0)) by (Z.to_euclidean_division_equations; lia).
    rewrite lor_128 by lia. eapply appends_ext.
    2:{ eapply appends_followed; [apply (bits_appends 8); [lia|]|apply (IH (d / 128))].
        - unfold in_u. simpl. lia.
        - rewrite Nat2Z.inj_succ, Z.pow_succ_r in Hd by lia.
          split; [apply Z.div_pos; lia|apply Z.div_lt_upper_bound; lia].
        - destruct fuel; [simpl in Hd; lia|lia]. }
    done.
Qed.

Lemma word_appends c : in_u 64 c -> appends (Encoder.word c) (fixed (bytes_bits (word_groups c))).
Proof. intros [H0 H1]. apply word_loop_appends; [|lia]. split; [done|]. eapply Z.lt_trans; [done|]. done. Qed.

(** ** Byte arrays: a length byte before each block, and a zero after the last *)
Definition blocks (arr : bytes) : bytes :=
  concat ((fun c => Z.of_nat (length c) :: c) <$> chunks 255 arr) ++ [0].

Definition bytes_layout (arr : bytes) : layout := followed padding (fixed (bytes_bits (blocks arr))).

Lemma foldl_blocks cs b :
  Forall (fun c => 0 < length c <= 255)%nat cs ->
  foldl (fun buffer chunk => buffer ++ [Z.of_nat (length chunk) mod 2 ^ 8] ++ chunk) b cs =
    b ++ concat ((fun c : bytes => Z.of_nat (length c) :: c) <$> cs).
Proof.
  intros Hcs. revert b; induction Hcs as [|c cs Hc _ IH]; intros b; simpl; [by rewrite app_nil_r|].
  rewrite IH, <- app_assoc. rewrite Z.mod_small by lia. done.
Qed.

Lemma Forall_blocks cs :
  Forall (fun c => 0 < length c <= 255)%nat cs -> Forall (in_u 8) (concat cs) ->
  Forall (in_u 8) (concat ((fun c : bytes => Z.of_nat (length c) :: c) <$> cs)).
Proof.
  induction 1 as [|c cs Hc _ IH]; simpl; [done|]. rewrite Forall_app. intros [Hb Hbs].
  constructor; [unfold in_u; lia|]. apply Forall_app. auto.
Qed.

(** After a filler the byte in progress is empty. *)
Lemma byte_array_yields e w arr :
  stands_for e w -> used_bits e = 0 -> Forall (in_u 8) arr ->
  exists e', yields (Encoder.byte_array arr) e () e' /\ stands_for e' (w ++ bytes_bits (blocks arr)).
Proof.
  intros [_ Hc Hl Hb ->] Hu Harr. destruct (chunks_spec 255 arr) as [Hcc Hcs]; [lia|].
  eexists. split; [unfold Encoder.byte_array, yields, mbind, comp_bind, get; by rewrite Hu|].
  rewrite Hu in *. cbn. rewrite foldl_blocks by done. split; simpl; try done.
  - rewrite <- app_assoc. apply Forall_app. split; [done|]. apply Forall_app. split; [|by constructor].
    apply Forall_blocks; [done|]. by rewrite Hcc.
  - unfold blocks. by rewrite !bytes_bits_app, !app_nil_r, <- !app_assoc.
Qed.

Lemma bytes_appends arr : Forall (in_u 8) arr -> appends (Encoder.bytes arr) (bytes_layout arr).
Proof.
  intros Harr e w He. destruct (filler_yields e w He) as (e1 & H1 & Hu & He1).
  destruct (byte_array_yields e1 _ arr He1 Hu Harr) as (e2 & H2 & He2).
  exists e2. split; [by eapply yields_bind|]. unfold bytes_layout, followed. by rewrite app_assoc.
Qed.

(** ** Sequences *)
Fixpoint list_layout {T} (f : T -> layout) (l : list T) : layout :=
  match l with
  | [] => fixed [false]
  | x :: l => followed (fixed [true]) (followed (f x) (list_layout f l))
  end.

Lemma list_appends {T} (m : T -> Encoder.enc unit) f l :
  Forall (fun x => appends (m x) (f x)) l -> appends (Encoder.encode_list_with m l) (list_layout f l).
Proof.
  induction 1 as [|x l Hx _ IH]; simpl; [apply zero_appends|].
  repeat (apply appends_followed; [first [apply one_appends | done]|]). done.
Qed.

Lemma string_list s : Encoder.string s = Encoder.encode_list_with Encoder.char s.
Proof. induction s as [|c s IH]; simpl; [done|]. by rewrite IH. Qed.

(** ** Chains of fillers *)

(** Every node is taken out once, and the nodes are as many as the length says. *)
Lemma filler_length_drop f : Filler.length f = Z.of_nat (length (Filler.drop_loop f)).
Proof.
  unfold Filler.length. assert (forall n, Filler.length_loop n f = n + Z.of_nat (length (Filler.drop_loop f)) - 1) as ->; [|lia].
  induction f as [f IH|]; intros n; simpl; [rewrite IH; lia|lia].
Qed.

(** ** Decoding *)

Import Decoder(buffer, used_bits, pos, bits_left, advance).

(** ** The abstract decoder *)

(** The decoder is within its buffer of bytes. *)
Record within_buffer (d : Decoder.t) : Prop := {
  wb_used : 0 <= used_bits d < 8;
  wb_pos : 0 <= pos d;
  wb_left : 0 <= bits_left d;
  wb_buffer : Forall (in_u 8) (buffer d)
}.

(** The bits read, and those that are left. *)
Definition position (d : Decoder.t) : nat := Z.to_nat (8 * pos d + used_bits d).
Definition rest (d : Decoder.t) : list bool := drop (position d) (bytes_bits (buffer d)).

Lemma length_rest d : within_buffer d -> Z.of_nat (length (rest d)) = bits_left d.
Proof.
  intros [Hu Hp Hl _]. unfold rest, position, bits_left, Decoder.len in *.
  rewrite length_drop, length_bytes_bits. lia.
Qed.

(** The computation reads the bits of [f] as the value [a]. *)
Definition reads {A} (m : Decoder.dec A) (f : layout) (a : A) : Prop :=
  forall d l, within_buffer d -> rest d = f (position d) ++ l ->
  exists d', yields m d a d' /\ within_buffer d' /\ buffer d' = buffer d /\
    position d' = (position d + length (f (position d)))%nat /\ rest d' = l.

Lemma reads_bind {A B} (m : Decoder.dec A) (k : A -> Decoder.dec B) f g a b :
  reads m f a -> reads (k a) g b -> reads (m ≫= k) (followed f g) b.
Proof.
  intros Hm Hk d l Hd Hr. unfold followed in Hr. rewrite <- app_assoc in Hr.
  destruct (Hm d _ Hd Hr) as (d1 & H1 & Hd1 & Hb1 & Hp1 & Hr1).
  rewrite <- Hp1 in Hr1. destruct (Hk d1 l Hd1 Hr1) as (d2 & H2 & Hd2 & Hb2 & Hp2 & Hr2).
  exists d2. split_and!; [by eapply yields_bind|done|congruence| |done].
  unfold followed. rewrite length_app, Hp2, Hp1. lia.
Qed.

Lemma reads_ret {A} (a : A) : reads (mret a) (fixed []) a.
Proof. intros d l Hd Hr. exists d. split_and!; [apply yields_ret|done|done|simpl; lia|done]. Qed.

Lemma reads_ext {A} (m : Decoder.dec A) f g a : (forall p, f p = g p) -> reads m f a -> reads m g a.
Proof. intros Hfg Hm d l Hd Hr. rewrite <- Hfg in *. by apply Hm. Qed.

Lemma reads_map {A B} (m : Decoder.dec A) (k : A -> B) f a :
  reads m f a -> reads (x ← m; mret (k x)) f (k a).
Proof.
  intros Hm. eapply reads_ext; [|eapply reads_bind; [exact Hm|apply reads_ret]].
  intros p. unfold followed, fixed. apply app_nil_r.
Qed.

(** A step that reads nothing. *)
Lemma reads_eval {A B} (x : option A) v (k : A -> Decoder.dec B) f b :
  x = Some v -> reads (k v) f b -> reads (y ← eval x; k y) f b.
Proof. by intros ->. Qed.

(** ** Bits *)

(** Advancing within the buffer. *)
Lemma advance_within d n :
  within_buffer d -> 0 <= n -> n <= bits_left d ->
  let all := used_bits d + n in
  let d' := advance (all mod 8) (pos d + all / 8) d in
  within_buffer d' /\ position d' = (position d + Z.to_nat n)%nat /\ rest d' = drop (Z.to_nat n) (rest d).
Proof.
  intros [Hu Hp Hl Hb] Hn Hle. cbv zeta.
  set (d' := advance ((used_bits d + n) mod 8) (pos d + (used_bits d + n) / 8) d).
  pose proof (Z.div_mod (used_bits d + n) 8). pose proof (Z.mod_pos_bound (used_bits d + n) 8).
  assert (0 <= (used_bits d + n) / 8) by (apply Z.div_pos; lia).
  assert (position d' = (position d + Z.to_nat n)%nat) as Hpos by (unfold position; simpl; lia).
  split_and!; [|done|].
  - split; simpl; [lia|lia| |done]. unfold bits_left, Decoder.len in *. simpl. lia.
  - unfold rest. rewrite Hpos, drop_drop. done.
Qed.

(** The byte at the position, when there is one, and the one behind. *)
Lemma current_byte d :
  within_buffer d -> 0 < bits_left d ->
  exists b bs, buffer d !! Z.to_nat (pos d) = Some b /\ in_u 8 b /\ drop (S (Z.to_nat (pos d))) (buffer d) = bs /\
    rest d = low_bits (8 - Z.to_nat (used_bits d)) b ++ bytes_bits bs.
Proof.
  intros [Hu Hp Hl Hb] Hpos.
  assert (Z.to_nat (pos d) < length (buffer d))%nat as Hlt by (unfold bits_left, Decoder.len in *; lia).
  apply lookup_lt_is_Some in Hlt as [b Hlk]. exists b, (drop (S (Z.to_nat (pos d))) (buffer d)).
  split_and!; [done|by eapply Forall_lookup_1|done|].
  unfold rest, position.
  replace (Z.to_nat (8 * pos d + used_bits d)) with (8 * Z.to_nat (pos d) + Z.to_nat (used_bits d))%nat by lia.
  rewrite <- drop_drop.
  assert (drop (8 * Z.to_nat (pos d)) (bytes_bits (buffer d)) =
    byte_bits b ++ bytes_bits (drop (S (Z.to_nat (pos d))) (buffer d))) as ->.
  { rewrite <- (take_drop_middle _ _ _ Hlk) at 1. rewrite bytes_bits_app, drop_app_length'; [done|].
    rewrite length_bytes_bits, length_take. apply lookup_lt_Some in Hlk. lia. }
  unfold byte_bits. set (u := Z.to_nat (used_bits d)).
  replace (low_bits 8 b) with (low_bits (u + (8 - u)) b) by (f_equal; lia).
  rewrite low_bits_app, <- app_assoc, drop_app_length' by (by rewrite length_low_bits). done.
Qed.

Lemma mask_bit b u :
  0 <= u < 8 -> 0 <= b -> Z.land b (Z.shiftr 128 u) = if Z.testbit b (7 - u) then Z.shiftr 128 u else 0.
Proof.
  intros Hu Hb. assert (Z.shiftr 128 u = 2 ^ (7 - u)) as ->.
  { change 128 with (2 ^ 7). rewrite Z.shiftr_div_pow2, <- Z.pow_sub_r by lia. done. }
  apply Z.bits_inj'. intros i Hi. rewrite Z.land_spec, testbit_pow2 by lia.
  destruct (Z.eqb_spec (7 - u) i) as [<-|Hne].
  - rewrite andb_true_r. destruct (Z.testbit b (7 - u)); [by rewrite Z.pow2_bits_true by lia|by rewrite Z.bits_0].
  - rewrite andb_false_r. destruct (Z.testbit b (7 - u)); [by rewrite Z.pow2_bits_false by lia|by rewrite Z.bits_0].
Qed.

(** One bit further. *)
Lemma increment_spec d :
  within_buffer d -> 0 < bits_left d ->
  exists d', yields Decoder.increment_buffer_by_bit d () d' /\ within_buffer d' /\ buffer d' = buffer d /\
    position d' = S (position d) /\ rest d' = drop 1 (rest d).
Proof.
  intros Hd Hl. destruct (advance_within d 1 Hd) as (Hw & Hp & Hr); [lia..|].
  pose proof (wb_used d Hd). eexists. split; [done|].
  assert ((if used_bits d =? 7 then advance 0 (pos d + 1) d else advance (used_bits d + 1) (pos d) d) =
    advance ((used_bits d + 1) mod 8) (pos d + (used_bits d + 1) / 8) d) as ->.
  { destruct (Z.eqb_spec (used_bits d) 7) as [->|]; [done|].
    rewrite Z.mod_small, Z.div_small by lia. by rewrite Z.add_0_r. }
  split_and!; [done|done|rewrite Hp; lia|done].
Qed.

(** Both ways of reading a bit, where there is one. *)
Lemma bit_reads b : reads Decoder.bit (fixed [b]) b /\ reads Decoder.bool (fixed [b]) b.
Proof.
  assert (forall d l, within_buffer d -> rest d = [b] ++ l -> exists d',
    yields Decoder.bit d b d' /\ yields Decoder.bool d b d' /\ within_buffer d' /\ buffer d' = buffer d /\
    position d' = S (position d) /\ rest d' = l) as Hboth.
  { intros d l Hd Hr. pose proof (length_rest d Hd) as Hlen. rewrite Hr in Hlen. simpl in Hlen.
    destruct (increment_spec d Hd) as (d' & Hi & Hw & Hb & Hp & Hr'); [lia|].
    destruct (current_byte d Hd) as (c & bs & Hc & [Hc0 _] & _ & Hrc); [lia|].
    pose proof (wb_used d Hd) as Hu. pose proof (wb_pos d Hd) as Hpos.
    assert (b = Z.testbit c (7 - used_bits d)) as ->.
    { rewrite Hr in Hrc. replace (8 - Z.to_nat (used_bits d))%nat with (S (7 - Z.to_nat (used_bits d))) in Hrc by lia.
      simpl in Hrc. injection Hrc as -> _. f_equal. lia. }
    assert (0 < Z.shiftr 128 (used_bits d)) as Hmask.
    { change 128 with (2 ^ 7). rewrite Z.shiftr_div_pow2, <- Z.pow_sub_r by lia. apply Z.pow_pos_nonneg; lia. }
    exists d'. unfold yields in *.
    unfold Decoder.bit, Decoder.bool, mbind, comp_bind, get, Decoder.index, eval, mret, comp_ret.
    rewrite (proj2 (Z.leb_gt _ _)) by (unfold bits_left in *; lia).
    rewrite (proj2 (Z.ltb_ge (pos d) 0)) by lia. rewrite Hc, u8_shr_Some, Hi, mask_bit by lia.
    split_and!; try done; [| |by rewrite Hr', Hr]; destruct (Z.testbit c (7 - used_bits d)); try done.
    - by rewrite (proj2 (Z.ltb_lt _ _)).
    - by rewrite (proj2 (Z.eqb_neq _ 0)) by lia. }
  split; intros d l Hd Hr; destruct (Hboth d l Hd Hr) as (d' & ? & ? & ? & ? & Hp & ?); exists d';
    (split_and!; try done; rewrite Hp; simpl; lia).
Qed.

(** ** Numbers of up to eight bits *)
Lemma drop_bits_spec d n :
  within_buffer d -> 0 <= n -> n <= bits_left d ->
  exists d', yields (Decoder.drop_bits n) d () d' /\ within_buffer d' /\ buffer d' = buffer d /\
    position d' = (position d + Z.to_nat n)%nat /\ rest d' = drop (Z.to_nat n) (rest d).
Proof.
  intros Hd Hn Hl. destruct (advance_within d n Hd Hn Hl) as (Hw & Hp & Hr). pose proof (wb_used d Hd).
  exists (advance (Z.rem (n + used_bits d) 8) (pos d + Z.quot (n + used_bits d) 8) d). split; [done|].
  rewrite Z.rem_mod_nonneg, Z.quot_div_nonneg, (Z.add_comm n) by lia. done.
Qed.

(** The number the two bytes at the position hold. *)
Lemma bits8_value b bs u n v l :
  0 <= u < 8 -> (1 <= n <= 8)%nat -> in_u 8 b -> Forall (in_u 8) bs -> in_u (Z.of_nat n) v ->
  low_bits (8 - Z.to_nat u) b ++ bytes_bits bs = low_bits n v ++ l ->
  let r := Z.shiftr (Z.land (Z.shiftl b u) 255) (8 - Z.of_nat n) in
  if 8 - u <? Z.of_nat n then
    exists b', head bs = Some b' /\ Z.lor r (Z.shiftr b' (8 - u + (8 - Z.of_nat n))) = v
  else r = v.
Proof.
  intros Hu Hn Hb Hbs Hv Hbits r.
  assert (0 <= r) as Hr0 by (apply Z.shiftr_nonneg, in_u_byte).
  assert (forall i, Z.of_nat n <= i -> Z.testbit r i = false) as Hrn.
  { intros i Hi. unfold r. bits_simpl. rewrite (proj2 (Z.ltb_ge _ _)) by lia. apply andb_false_r. }
  destruct (Z.ltb_spec (8 - u) (Z.of_nat n)) as [Hlt|Hle].
  - destruct bs as [|b' bs].
    { apply (f_equal length) in Hbits. rewrite !length_app, !length_low_bits in Hbits. simpl in Hbits. lia. }
    apply Forall_cons in Hbs as [Hb' _]. exists b'. split; [done|].
    set (k := (n - (8 - Z.to_nat u))%nat) in *.
    assert (low_bits n v = low_bits (8 - Z.to_nat u) b ++ low_bits k (Z.shiftr b' (8 - Z.of_nat k))) as Heq.
    { apply (f_equal (take n)) in Hbits. rewrite (take_app_length' (low_bits n v)) in Hbits by (by rewrite length_low_bits).
      rewrite <- Hbits. rewrite take_app, length_low_bits, take_ge by (rewrite length_low_bits; lia).
      f_equal. fold k. rewrite bytes_bits_cons. unfold byte_bits.
      replace (low_bits 8 b') with (low_bits (k + (8 - k)) b') by (f_equal; lia).
      rewrite take_app_le by (rewrite length_low_bits; lia). rewrite take_low_bits. do 2 f_equal. lia. }
    apply (low_bits_inj n); [|done|].
    + apply in_u_bits; [lia|apply Z.lor_nonneg; split; [done|apply Z.shiftr_nonneg, Hb']|].
      intros i Hi. rewrite Z.lor_spec, Hrn, Z.shiftr_spec by lia. apply (testbit_high 8); [done|lia].
    + rewrite Heq. replace (low_bits n (Z.lor _ _)) with
        (low_bits ((8 - Z.to_nat u) + k) (Z.lor r (Z.shiftr b' (8 - u + (8 - Z.of_nat n))))) by (f_equal; lia).
      rewrite low_bits_app. f_equal; low_bits_ext; unfold r; bits_simpl.
      * rewrite (testbit_high 8 b') by (done || lia). rewrite orb_false_r, (proj2 (Z.ltb_lt _ _)), andb_true_r by lia.
        f_equal. lia.
      * rewrite (Z.testbit_neg_r b) by lia. rewrite andb_false_l, orb_false_l. f_equal. lia.
  - apply (low_bits_inj n); [by apply in_u_bits; [lia|..]|done|].
    apply (f_equal (take n)) in Hbits. rewrite (take_app_length' (low_bits n v)) in Hbits by (by rewrite length_low_bits).
    rewrite take_app_le in Hbits by (rewrite length_low_bits; lia). rewrite <- Hbits.
    replace (8 - Z.to_nat u)%nat with (n + (8 - Z.to_nat u - n))%nat by lia. rewrite take_low_bits.
    low_bits_ext. unfold r. bits_simpl. rewrite (proj2 (Z.ltb_lt _ _)), andb_true_r by lia. f_equal. lia.
Qed.

Lemma bits8_reads n v :
  (1 <= n <= 8)%nat -> in_u (Z.of_nat n) v -> reads (Decoder.bits8 (Z.of_nat n)) (fixed (low_bits n v)) v.
Proof.
  intros Hn Hv d l Hd Hr. unfold fixed in *. rewrite length_low_bits.
  pose proof (length_rest d Hd) as Hlen. rewrite Hr, length_app, length_low_bits in Hlen.
  destruct (drop_bits_spec d (Z.of_nat n) Hd) as (d' & Hdrop & Hw & Hb & Hp & Hr'); [lia..|].
  destruct (current_byte d Hd) as (b & bs & Hlk & Hb8 & Hbs & Hrb); [lia|].
  pose proof (wb_used d Hd) as Hu. pose proof (wb_pos d Hd) as Hpos.
  assert (Forall (in_u 8) bs) as Hbs8 by (subst bs; apply Forall_drop, wb_buffer, Hd).
  rewrite Hrb in Hr. pose proof (bits8_value b bs (used_bits d) n v l Hu Hn Hb8 Hbs8 Hv Hr) as Hval.
  exists d'. split_and!; [|done|done|by rewrite Nat2Z.id in Hp|].
  2:{ rewrite Hr', Nat2Z.id, Hrb, Hr. by rewrite drop_app_length' by (by rewrite length_low_bits). }
  unfold yields in *. unfold Decoder.bits8, Decoder.ensure_bits, Decoder.index, mbind, comp_bind, get, eval, throw, mret, comp_ret.
  rewrite (proj2 (Z.ltb_ge 8 _)) by lia. rewrite (proj2 (Z.ltb_ge (bits_left d) _)) by lia.
  rewrite (proj2 (Z.ltb_ge (pos d) 0)) by lia. rewrite Hlk, u8_shl_Some, u8_shr_Some by lia.
  destruct (Z.ltb_spec (8 - used_bits d) (Z.of_nat n)).
  - destruct Hval as (b' & Hhead & <-). rewrite (proj2 (Z.ltb_ge (pos d + 1) 0)) by lia.
    assert (buffer d !! Z.to_nat (pos d + 1) = Some b') as ->.
    { rewrite <- Hbs in Hhead. rewrite head_lookup, lookup_drop in Hhead.
      rewrite <- Hhead. f_equal. lia. }
    rewrite u8_shr_Some by lia. by rewrite Hdrop.
  - rewrite Hval. by rewrite Hdrop.
Qed.

Lemma u8_reads x : in_u 8 x -> reads Decoder.u8 (fixed (byte_bits x)) x.
Proof. intros Hx. apply (bits8_reads 8); [lia|done]. Qed.

(** ** Fillers of any length *)
Lemma zero_reads b : reads Decoder.zero (fixed [b]) (negb b).
Proof. apply reads_map, bit_reads. Qed.

Lemma filler_loop_reads fuel n :
  (n < fuel)%nat -> reads (Decoder.filler_loop fuel) (fixed (replicate n false ++ [true])) ().
Proof.
  revert n; induction fuel as [|fuel IH]; intros n Hn; [lia|]. simpl. destruct n as [|n].
  - eapply reads_ext; [|eapply reads_bind; [apply (zero_reads true)|apply reads_ret]]. done.
  - eapply reads_ext; [|eapply reads_bind; [apply (zero_reads false)|apply (IH n); lia]]. done.
Qed.

Lemma filler_reads n : reads Decoder.filler (fixed (replicate n false ++ [true])) ().
Proof.
  intros d l Hd Hr. unfold Decoder.filler, yields, mbind, comp_bind, get.
  apply filler_loop_reads; [|done|done]. unfold Decoder.fuel. pose proof (length_rest d Hd) as Hlen.
  rewrite Hr in Hlen. unfold fixed in Hlen. rewrite !length_app, length_replicate in Hlen. simpl in Hlen. lia.
Qed.

Lemma padding_reads : reads Decoder.filler padding ().
Proof. intros d l Hd Hr. exact (filler_reads (7 - position d mod 8) d l Hd Hr). Qed.

(** ** Words *)

(** The groups of a word end with the first that is not marked. *)
Fixpoint terminated (gs : bytes) : Prop :=
  match gs with
  | [] => False
  | [g] => g < 128
  | g :: gs => 128 <= g /\ terminated gs
  end.

Fixpoint group_value (gs : bytes) : Z :=
  match gs with
  | [] => 0
  | g :: gs => g mod 128 + 128 * group_value gs
  end.

Lemma group_value_nonneg gs : 0 <= group_value gs.
Proof. induction gs as [|g gs IH]; simpl; [done|]. pose proof (Z.mod_pos_bound g 128). lia. Qed.

(** What a turn of the loop adds: the bits shifted out are lost. *)
Lemma usize_shl_add x acc shl :
  0 <= shl < 64 -> 0 <= x -> in_u shl acc ->
  exists y, Decoder.usize_shl x shl = Some y /\ Z.lor acc y = (acc + x * 2 ^ shl) mod 2 ^ 64.
Proof.
  intros Hs Hx Ha. unfold Decoder.usize_shl. rewrite (proj2 (Z.leb_le 0 shl)), (proj2 (Z.ltb_lt shl 64)) by lia.
  eexists. split; [done|]. rewrite Z.shiftl_mul_pow2 by lia.
  assert (0 < 2 ^ shl) as H2 by (apply Z.pow_pos_nonneg; lia).
  assert (2 ^ 64 = 2 ^ (64 - shl) * 2 ^ shl) as H64 by (rewrite <- Z.pow_add_r by lia; f_equal; lia).
  assert (0 < 2 ^ (64 - shl)) as H3 by (apply Z.pow_pos_nonneg; lia).
  rewrite H64 at 1. rewrite Z.mul_mod_distr_r, <- (Z.shiftl_mul_pow2 (x mod _)) by lia.
  rewrite lor_shiftl by (done || lia).
  apply (Z.mod_unique_pos _ _ (x / 2 ^ (64 - shl))).
  - pose proof (Z.mod_pos_bound x (2 ^ (64 - shl)) H3). unfold in_u in Ha. nia.
  - rewrite H64. pose proof (Z.div_mod x (2 ^ (64 - shl)) ltac:(lia)). nia.
Qed.

Lemma byte_group_reads {A} g gs (k : Z -> Decoder.dec A) a :
  in_u 8 g -> reads (k g) (fixed (bytes_bits gs)) a -> reads (b ← Decoder.bits8 8; k b) (fixed (bytes_bits (g :: gs))) a.
Proof.
  intros Hg Hk. apply (reads_ext _ (followed (fixed (byte_bits g)) (fixed (bytes_bits gs)))); [done|].
  eapply reads_bind; [apply (bits8_reads 8 g); [lia|done]|done].
Qed.

Lemma word_loop_reads fuel gs acc shl :
  terminated gs -> Forall (in_u 8) gs -> (length gs <= fuel)%nat -> 0 <= shl ->
  shl + 7 * (Z.of_nat (length gs) - 1) < 64 -> in_u shl acc ->
  reads (Decoder.word_loop fuel acc shl) (fixed (bytes_bits gs)) ((acc + group_value gs * 2 ^ shl) mod 2 ^ 64).
Proof.
  intros Ht Hgs. revert fuel acc shl; induction Hgs as [|g gs Hg Hgs IH]; intros fuel acc shl Hf Hs Hb Ha; [done|].
  destruct fuel as [|fuel]; [simpl in Hf; lia|]. cbn [Decoder.word_loop length group_value] in *.
  apply byte_group_reads; [done|]. destruct (byte_split g Hg) as [-> ->].
  pose proof (Z.mod_pos_bound g 128 ltac:(done)) as Hm.
  destruct (usize_shl_add (g mod 128) acc shl) as (y & Hy & Hor); [lia|lia|done|].
  eapply reads_eval; [exact Hy|]. cbv beta zeta. rewrite Hor.
  assert (0 < 2 ^ shl) by (apply Z.pow_pos_nonneg; lia).
  destruct gs as [|g' gs].
  - simpl in Ht. rewrite (proj2 (Z.ltb_lt g 128)) by done. simpl group_value. rewrite Z.add_0_r. apply reads_ret.
  - destruct Ht as [Hge Ht]. rewrite (proj2 (Z.ltb_ge g 128)) by done. change (0 <? 128) with true. cbv iota.
    cbn [length] in *. assert (shl + 7 <= 63) as Hsmall by lia.
    assert (2 ^ (shl + 7) = 128 * 2 ^ shl) as Hpow by (rewrite Z.pow_add_r by lia; lia).
    assert (2 ^ (shl + 7) <= 2 ^ 63) by (apply Z.pow_le_mono_r; lia).
    unfold in_u in Ha. rewrite (Z.mod_small (acc + g mod 128 * 2 ^ shl)) by nia.
    replace (acc + (g mod 128 + 128 * group_value (g' :: gs)) * 2 ^ shl)
      with ((acc + g mod 128 * 2 ^ shl) + group_value (g' :: gs) * 2 ^ (shl + 7)) by (rewrite Hpow; lia).
    apply IH; [done|lia|lia|lia|]. unfold in_u. nia.
Qed.

(** A word of up to ten groups is read modulo [2 ^ 64]. *)
Lemma word_groups_read gs :
  terminated gs -> Forall (in_u 8) gs -> (length gs <= 10)%nat ->
  reads Decoder.word (fixed (bytes_bits gs)) (group_value gs mod 2 ^ 64).
Proof.
  intros Ht Hgs Hl. pose proof (word_loop_reads 11 gs 0 0 Ht Hgs) as Hw. cbn [Z.add] in Hw.
  rewrite Z.mul_1_r in Hw. apply Hw; [lia|lia|lia|done].
Qed.

(** The groups of a number. *)
Lemma groups_spec n d :
  0 <= d < 128 ^ Z.of_nat n -> (0 < n)%nat ->
  terminated (groups n d) /\ Forall (in_u 8) (groups n d) /\ (length (groups n d) <= n)%nat /\
  group_value (groups n d) = d.
Proof.
  revert d; induction n as [|n IH]; intros d Hd Hn; [lia|]. cbn [groups]. destruct (Z.ltb_spec d 128).
  - simpl. split_and!; [done|constructor; [unfold in_u; simpl; lia|done]|lia|]. rewrite Z.mod_small; lia.
  - rewrite Nat2Z.inj_succ, Z.pow_succ_r in Hd by lia. pose proof (Z.mod_pos_bound d 128).
    destruct (IH (d / 128)) as (Ht & Hf & Hl & Hv);
      [split; [apply Z.div_pos; lia|apply Z.div_lt_upper_bound; lia]|destruct n; [simpl in Hd; lia|lia]|].
    cbn [length group_value]. split_and!; [|constructor; [unfold in_u; simpl; lia|done]|lia|].
    + destruct (groups n (d / 128)) as [|g gs]; [done|]. split; [lia|done].
    + rewrite Hv. replace ((d mod 128 + 128) mod 128) with (d mod 128) by (apply (Z.mod_unique_pos _ _ 1); lia).
      pose proof (Z.div_mod d 128). lia.
Qed.

Lemma word_reads c : in_u 64 c -> reads Decoder.word (fixed (bytes_bits (word_groups c))) c.
Proof.
  intros Hc. destruct (groups_spec 10 c) as (Ht & Hf & Hl & Hv); [|lia|].
  { destruct Hc as [H0 H1]. split; [done|]. by eapply Z.lt_trans. }
  pose proof (word_groups_read _ Ht Hf Hl) as Hw. rewrite Hv, Z.mod_small in Hw by apply Hc. exact Hw.
Qed.

Lemma integer_reads i :
  in_i 64 i -> reads Decoder.integer (fixed (bytes_bits (word_groups (isize_zigzag i)))) i.
Proof.
  intros Hi. rewrite <- (zigzag_isize i Hi) at 2. by apply reads_map, word_reads, isize_zigzag_range.
Qed.

Lemma char_reads c : is_char c = true -> reads Decoder.char (fixed (bytes_bits (word_groups c))) c.
Proof.
  intros Hc. pose proof Hc as Hr. apply is_char_range in Hr.
  apply (reads_ext _ (followed (fixed (bytes_bits (word_groups c))) (fixed []))).
  { intros p. unfold followed, fixed. apply app_nil_r. }
  eapply reads_bind; [apply (word_reads c); unfold in_u; lia|].
  cbv zeta. rewrite Z.mod_small by lia. unfold char_from_u32. rewrite Hc. apply reads_ret.
Qed.

(** ** Byte arrays *)
Lemma position_rest d :
  within_buffer d -> (position d + length (rest d))%nat = (8 * length (buffer d))%nat.
Proof.
  intros [Hu Hp Hl _]. unfold rest, position, bits_left, Decoder.len in *.
  rewrite length_drop, length_bytes_bits. lia.
Qed.

Lemma bytes_bits_inv bs xs l :
  Forall (in_u 8) bs -> Forall (in_u 8) xs -> bytes_bits xs = bytes_bits bs ++ l ->
  exists ys, xs = bs ++ ys /\ l = bytes_bits ys.
Proof.
  intros Hbs. revert xs; induction Hbs as [|b bs Hb _ IH]; intros xs Hxs Heq; [by exists xs|].
  rewrite bytes_bits_cons, <- app_assoc in Heq. destruct Hxs as [|x xs Hx Hxs].
  { apply (f_equal length) in Heq. rewrite length_app in Heq. unfold byte_bits in Heq. rewrite length_low_bits in Heq. simpl in Heq. lia. }
  rewrite bytes_bits_cons in Heq. apply app_inj_1 in Heq as [Hxb Heq]; [|unfold byte_bits; by rewrite !length_low_bits].
  apply (low_bits_inj 8) in Hxb as ->; [|done..]. destruct (IH xs Hxs Heq) as (ys & -> & ->). by exists ys.
Qed.

Lemma aligned_rest d :
  within_buffer d -> used_bits d = 0 -> rest d = bytes_bits (drop (Z.to_nat (pos d)) (buffer d)).
Proof.
  intros Hd Hu. unfold rest, position. rewrite Hu.
  replace (Z.to_nat (8 * pos d + 0)) with (8 * Z.to_nat (pos d))%nat by (pose proof (wb_pos d Hd); lia).
  generalize (Z.to_nat (pos d)); intros n. generalize (buffer d). clear.
  induction n as [|n IH]; intros bs; [done|]. destruct bs as [|b bs]; [by rewrite !drop_nil|].
  rewrite bytes_bits_cons. replace (8 * S n)%nat with (8 + 8 * n)%nat by lia.
  rewrite <- drop_drop, drop_app_length' by (unfold byte_bits; by rewrite length_low_bits). apply IH.
Qed.

Definition marked (cs : list bytes) : bytes := concat ((fun c => Z.of_nat (length c) :: c) <$> cs).

Lemma byte_array_loop_yields cs fuel acc blk_len d tail :
  Forall (fun c => 0 < length c <= 255)%nat cs -> (length cs <= fuel)%nat ->
  0 <= pos d -> used_bits d = 0 ->
  blk_len :: drop (Z.to_nat (pos d)) (buffer d) = marked cs ++ [0] ++ tail ->
  exists p, yields (Decoder.byte_array_loop fuel blk_len acc) d (acc ++ concat cs) (advance 0 p d) /\
    0 <= p <= Z.max (pos d) (Decoder.len d) /\ drop (Z.to_nat p) (buffer d) = tail.
Proof.
  intros Hcs. revert fuel acc blk_len d; induction Hcs as [|c cs Hc _ IH]; intros fuel acc blk_len d Hf Hp Hu Hbs.
  - injection Hbs as -> Htail. exists (pos d). rewrite app_nil_r. split_and!; [|lia|lia|done].
    unfold yields. destruct d as [b u p]; simpl in *. subst u. by destruct fuel.
  - destruct fuel as [|fuel]; [simpl in Hf; lia|]. change (marked (c :: cs)) with ((Z.of_nat (length c) :: c) ++ marked cs) in Hbs.
    rewrite <- app_assoc in Hbs. injection Hbs as -> Hbs.
    change (drop (Z.to_nat (pos d)) (buffer d) = c ++ (marked cs ++ [0] ++ tail)) in Hbs. destruct (marked cs ++ [0] ++ tail) as [|next rst] eqn:Hnext.
    { apply (f_equal length) in Hnext. rewrite !length_app in Hnext. simpl in Hnext. lia. }
    assert (length c + S (length rst) = length (buffer d) - Z.to_nat (pos d))%nat as Hlen.
    { apply (f_equal length) in Hbs. rewrite length_drop, length_app in Hbs. simpl in Hbs. lia. }
    set (d1 := advance 0 (pos d + Z.of_nat (length c) + 1) d).
    assert (drop (Z.to_nat (pos d1)) (buffer d1) = rst) as Hd1.
    { simpl. replace (Z.to_nat (pos d + Z.of_nat (length c) + 1)) with (Z.to_nat (pos d) + (length c + 1))%nat by lia.
      rewrite <- drop_drop, Hbs, <- drop_drop, drop_app_length. done. }
    destruct (IH fuel (acc ++ c) next d1) as (p & Hy & Hrange & Hdrop); [simpl in Hf; lia|simpl; lia|done|by rewrite Hd1|].
    exists p. split_and!; [|lia| |exact Hdrop].
    + cbn [concat]. rewrite app_assoc. unfold yields in *. cbn [Decoder.byte_array_loop].
      rewrite (proj2 (Z.eqb_neq _ 0)) by lia.
      unfold Decoder.ensure_bytes, Decoder.index, mbind, comp_bind, get, put, eval, throw, mret, comp_ret.
      rewrite (proj2 (Z.ltb_ge _ _)) by (unfold Decoder.len; lia). cbn [pos advance used_bits buffer].
      rewrite (proj2 (Z.ltb_ge _ 0)) by lia. rewrite Hbs.
      replace (buffer d !! Z.to_nat (pos d + Z.of_nat (length c))) with (Some next).
      2:{ replace (Z.to_nat (pos d + Z.of_nat (length c))) with (Z.to_nat (pos d) + length c)%nat by lia.
          rewrite <- lookup_drop, Hbs, lookup_app_r, Nat.sub_diag by lia. done. }
      rewrite Nat2Z.id, take_app_length, Hu. exact Hy.
    + unfold Decoder.len in *. simpl in Hrange. lia.
Qed.

Lemma marked_length cs : Forall (fun c => 0 < length c <= 255)%nat cs -> (length cs <= length (marked cs))%nat.
Proof.
  induction 1 as [|c cs Hc _ IH]; [done|]. change (marked (c :: cs)) with ((Z.of_nat (length c) :: c) ++ marked cs).
  rewrite length_app. simpl. lia.
Qed.

Lemma byte_array_reads d arr tail :
  within_buffer d -> used_bits d = 0 -> drop (Z.to_nat (pos d)) (buffer d) = blocks arr ++ tail ->
  exists d', yields Decoder.byte_array d arr d' /\ within_buffer d' /\ buffer d' = buffer d /\ rest d' = bytes_bits tail.
Proof.
  intros Hd Hu Hbs. destruct (chunks_spec 255 arr) as [Hcc Hcs]; [lia|].
  unfold blocks in Hbs. fold (marked (chunks 255 arr)) in Hbs. rewrite <- app_assoc in Hbs.
  pose proof (wb_pos d Hd) as Hp.
  destruct (drop (Z.to_nat (pos d)) (buffer d)) as [|first rst] eqn:Hdrop.
  { apply (f_equal length) in Hbs. rewrite !length_app in Hbs. simpl in Hbs. lia. }
  assert (S (length rst) = length (buffer d) - Z.to_nat (pos d))%nat as Hlen.
  { apply (f_equal length) in Hdrop. by rewrite length_drop in Hdrop. }
  set (d1 := advance 0 (pos d + 1) d).
  assert (drop (Z.to_nat (pos d1)) (buffer d1) = rst) as Hd1.
  { simpl. replace (Z.to_nat (pos d + 1)) with (Z.to_nat (pos d) + 1)%nat by lia. by rewrite <- drop_drop, Hdrop. }
  destruct (byte_array_loop_yields (chunks 255 arr) (length (buffer d)) [] first d1 tail Hcs)
    as (p & Hy & Hrange & Htail); [|simpl; lia|done|by rewrite Hd1|].
  { pose proof (marked_length _ Hcs) as Hm. apply (f_equal length) in Hbs. rewrite length_app in Hbs. simpl in Hbs.
    lia. }
  assert (within_buffer (advance 0 p d1)) as Hw.
  { split; simpl; [lia|lia| |apply Hd]. unfold bits_left, Decoder.len in *. simpl in *. lia. }
  exists (advance 0 p d1). split_and!; [|done|done|].
  - unfold yields in *. unfold Decoder.byte_array, Decoder.ensure_bytes, Decoder.index, mbind, comp_bind, get, put, eval, throw, mret, comp_ret.
    rewrite Hu. cbn [Z.eqb negb]. rewrite (proj2 (Z.ltb_ge _ _)) by (unfold Decoder.len; lia).
    rewrite (proj2 (Z.ltb_ge _ 0)) by lia.
    replace (buffer d !! Z.to_nat (pos d)) with (Some first).
    2:{ rewrite <- (Nat.add_0_r (Z.to_nat (pos d))), <- lookup_drop, Hdrop. done. }
    rewrite app_nil_l, Hcc in Hy. exact Hy.
  - rewrite aligned_rest by done. simpl. by rewrite <- Htail.
Qed.

Lemma bytes_reads arr : Forall (in_u 8) arr -> reads Decoder.bytes (bytes_layout arr) arr.
Proof.
  intros Harr d l Hd Hr. unfold bytes_layout, followed in Hr. rewrite <- app_assoc in Hr.
  destruct (padding_reads d _ Hd Hr) as (d1 & H1 & Hd1 & Hb1 & Hp1 & Hr1).
  assert (used_bits d1 = 0) as Hu1.
  { unfold padding in Hp1. rewrite length_app, length_replicate in Hp1. change (length [true]) with 1%nat in Hp1.
    pose proof (wb_used d1 Hd1). pose proof (wb_pos d1 Hd1). unfold position at 1 in Hp1.
    pose proof (Nat.mod_upper_bound (position d) 8 ltac:(done)). pose proof (Nat.div_mod_eq (position d) 8).
    assert (8 * pos d1 + used_bits d1 = 8 * (Z.of_nat (position d / 8) + 1)); lia. }
  destruct (chunks_spec 255 arr) as [Hcc Hcs]; [lia|].
  assert (Forall (in_u 8) (blocks arr)) as Hblk.
  { unfold blocks. apply Forall_app. split; [|by constructor]. apply Forall_blocks; [done|by rewrite Hcc]. }
  rewrite (aligned_rest d1 Hd1 Hu1) in Hr1. unfold fixed in Hr1.
  apply bytes_bits_inv in Hr1 as (tail & Htail & ->); [|done|apply Forall_drop, Hd1].
  destruct (byte_array_reads d1 arr tail Hd1 Hu1 Htail) as (d' & Hy & Hw & Hb & Hrest).
  exists d'. split_and!; [by eapply yields_bind|done|congruence| |done].
  pose proof (position_rest d Hd) as P. pose proof (position_rest d' Hw) as P'.
  rewrite Hr, !length_app in P. rewrite Hrest, Hb, Hb1 in P'. unfold bytes_layout, followed. rewrite length_app.
  unfold fixed in *. lia.
Qed.

Lemma utf8_reads s :
  Forall (fun c => is_char c = true) s -> reads Decoder.utf8 (bytes_layout (as_bytes s)) s.
Proof.
  intros Hs. apply (reads_ext _ (followed (bytes_layout (as_bytes s)) (fixed []))).
  { intros p. unfold followed, fixed. apply app_nil_r. }
  eapply reads_bind; [by apply bytes_reads, as_bytes_bytes|]. rewrite from_utf8_as_bytes by done. apply reads_ret.
Qed.

(** ** Sequences *)
Lemma list_loop_reads {T} (m : Decoder.dec T) f l fuel acc :
  Forall (fun x => reads m (f x) x) l -> (length l < fuel)%nat ->
  reads (Decoder.list_loop m fuel acc) (list_layout f l) (acc ++ l).
Proof.
  intros Hl. revert fuel acc; induction Hl as [|x l Hx _ IH]; intros fuel acc Hf;
    (destruct fuel as [|fuel]; [simpl in Hf; lia|]); cbn [Decoder.list_loop list_layout].
  - apply (reads_ext _ (followed (fixed [false]) (fixed []))); [done|].
    eapply reads_bind; [apply bit_reads|]. simpl. rewrite app_nil_r. apply reads_ret.
  - eapply reads_bind; [apply bit_reads|]. cbv iota. eapply reads_bind; [exact Hx|].
    replace (acc ++ x :: l) with ((acc ++ [x]) ++ l) by (by rewrite <- app_assoc). apply IH. simpl in Hf. lia.
Qed.

Lemma list_layout_length {T} (f : T -> layout) l p : (length l < length (list_layout f l p))%nat.
Proof.
  revert p; induction l as [|x l IH]; intros p; simpl; [lia|].
  unfold followed. rewrite !length_app. unfold fixed. simpl. specialize (IH (p + 1 + length (f x (p + 1)))%nat). lia.
Qed.

Lemma list_reads {T} (m : Decoder.dec T) f l :
  Forall (fun x => reads m (f x) x) l -> reads (Decoder.decode_list_with m) (list_layout f l) l.
Proof.
  intros Hl d r Hd Hr. unfold Decoder.decode_list_with, yields, mbind, comp_bind, get.
  apply (list_loop_reads m f l (Decoder.fuel d) [] Hl); [|done|done].
  unfold Decoder.fuel. pose proof (length_rest d Hd) as Hlen. rewrite Hr, length_app in Hlen.
  pose proof (list_layout_length f l (position d)). lia.
Qed.

Lemma string_loop_list fuel s d : Decoder.string_loop fuel s d = Decoder.list_loop Decoder.char fuel s d.
Proof.
  revert s d; induction fuel as [|fuel IH]; intros s d; [done|]. simpl. unfold mbind, comp_bind.
  destruct (Decoder.bit d) as [[[]|] d1| |]; try done.
  destruct (Decoder.char d1) as [[c|] d2| |]; try done.
Qed.

Lemma string_reads s :
  Forall (fun c => is_char c = true) s ->
  reads Decoder.string (list_layout (fun c => fixed (bytes_bits (word_groups c))) s) s.
Proof.
  intros Hs d l Hd Hr.
  destruct (list_reads Decoder.char (fun c => fixed (bytes_bits (word_groups c))) s) with d l as (d' & Hy & Hrest);
    [|done|done|].
  - eapply Forall_impl; [exact Hs|]. intros c. apply char_reads.
  - exists d'. split; [|exact Hrest]. unfold yields in *. rewrite <- Hy.
    unfold Decoder.string, Decoder.decode_list_with, mbind, comp_bind, get. apply string_loop_list.
Qed.

(** With a log that the items' decoder leaves alone, the list is the same. *)
Lemma list_debug_loop_same {T L} (m : Decoder.dec T) fuel acc (d : Decoder.t) (log : L) :
  Decoder.list_debug_loop (on_first m) fuel acc (d, log) = on_first (Decoder.list_loop m fuel acc) (d, log).
Proof.
  revert acc d; induction fuel as [|fuel IH]; intros acc d; [done|]. simpl. unfold on_first, mbind, comp_bind. simpl.
  destruct (Decoder.bit d) as [[[]|] d1| |]; try done. simpl.
  destruct (m d1) as [[x|] d2| |]; [apply IH|done..].
Qed.
