(* ===== verification/Flat.v ===== *)
(** * Properties of the flat codec

    Whatever the bytes, decoding stays within the buffer and comes to an end, and
    panics only where a bit is read without a check or a word goes on for too
    long.  The round trip is stated over [shape], a syntax of what a program writes
    with one encoder: the values the crate has implementations for, one after the
    other and in lists. *)
From S2P Require Import Prelude Effects FlatBase FlatCodec FlatLaws.

Import Decoder(buffer, used_bits, pos, bits_left, advance).

(** The decoder has gone on within its buffer. *)
Record further (d d' : Decoder.t) : Prop := {
  further_within : within_buffer d';
  further_buffer : buffer d' = buffer d;
  further_left : bits_left d' <= bits_left d
}.

Definition values {A} (P : A -> Prop) (r : result de.Error A) : Prop :=
  match r with Ok a => P a | Err _ => True end.

(** The outcome from a decoder: a panic only if [p], and a value only in [P]. *)
Definition outcome_in {A} (p : Prop) (P : A -> Prop) (d : Decoder.t) (o : outcome de.Error Decoder.t A) : Prop :=
  match o with
  | Returned r d' => further d d' /\ values P r
  | Panicked => p
  | Unfinished => False
  end.

(** That outcome, from any decoder within its buffer. *)
Definition tame {A} (p : Prop) (P : A -> Prop) (m : Decoder.dec A) : Prop :=
  forall d, within_buffer d -> outcome_in p P d (m d).

Lemma further_refl d : within_buffer d -> further d d.
Proof. by split. Qed.

Lemma further_trans d1 d2 d3 : further d1 d2 -> further d2 d3 -> further d1 d3.
Proof. intros [] []. split; [done|congruence|lia]. Qed.

Lemma outcome_further {A} p (P : A -> Prop) d d1 o :
  further d d1 -> outcome_in p P d1 o -> outcome_in p P d o.
Proof. intros Hd. destruct o; [|done..]. intros [? ?]. split; [by eapply further_trans|done]. Qed.

Lemma tame_bind {A B} p (P : A -> Prop) (Q : B -> Prop) (m : Decoder.dec A) (k : A -> Decoder.dec B) :
  tame p P m -> (forall a, P a -> tame p Q (k a)) -> tame p Q (m ≫= k).
Proof.
  intros Hm Hk d Hd. unfold mbind, comp_bind. specialize (Hm d Hd).
  destruct (m d) as [[a|e] d1| |]; [|by destruct Hm|done..]. destruct Hm as [Hd1 Ha].
  eapply outcome_further; [exact Hd1|]. apply Hk; [done|apply Hd1].
Qed.

Lemma tame_ret {A} p (P : A -> Prop) (a : A) : P a -> tame p P (mret a).
Proof. intros Ha d Hd. by split; [apply further_refl|]. Qed.

Lemma tame_throw {A} p (P : A -> Prop) (e : de.Error) : tame p P (throw e : Decoder.dec A).
Proof. intros d Hd. by split; [apply further_refl|]. Qed.

Lemma tame_weaken {A} (p q : Prop) (P Q : A -> Prop) (m : Decoder.dec A) :
  (p -> q) -> (forall a, P a -> Q a) -> tame p P m -> tame q Q m.
Proof.
  intros Hpq HPQ Hm d Hd. specialize (Hm d Hd). destruct (m d) as [r d'| |]; [|by apply Hpq|done].
  destruct Hm as [Hd' Hr]. split; [done|]. destruct r; [by apply HPQ|done].
Qed.

(** A read is further. *)
Lemma read_further d d' l l' :
  within_buffer d' -> buffer d' = buffer d -> within_buffer d -> rest d = l' ++ l -> rest d' = l -> further d d'.
Proof.
  intros Hd' Hb Hd Hr Hr'. split; [done|done|]. rewrite <- !length_rest, Hr, Hr', length_app by done. lia.
Qed.

(** Every list of bits is those of a number. *)
Lemma number_of_bits bs : exists v, in_u (Z.of_nat (length bs)) v /\ low_bits (length bs) v = bs.
Proof.
  induction bs as [|b bs (v & Hv & Hbits)]; [by exists 0|].
  exists (v + Z.b2z b * 2 ^ Z.of_nat (length bs)). pose proof Hv as [H0 H1].
  assert (0 < 2 ^ Z.of_nat (length bs)) by (apply Z.pow_pos_nonneg; lia).
  cbn [length low_bits]. rewrite Nat2Z.inj_succ. split.
  - unfold in_u. rewrite Z.pow_succ_r by lia. destruct b; simpl; lia.
  - rewrite <- lor_shiftl by (done || lia). f_equal.
    + rewrite Z.lor_spec, Z.shiftl_spec, Z.sub_diag by lia.
      rewrite (testbit_high (Z.of_nat (length bs)) v) by (done || lia). by destruct b.
    + etransitivity; [|exact Hbits]. low_bits_ext. rewrite (Z.testbit_neg_r (Z.b2z b)) by lia. apply orb_false_r.
Qed.

(** ** Bits *)
Lemma bit_cases d :
  within_buffer d ->
  (rest d = [] /\ Decoder.bit d = Returned (Err de.EndOfBuffer) d /\ Decoder.bool d = Panicked) \/
  exists b d', yields Decoder.bit d b d' /\ yields Decoder.bool d b d' /\ further d d' /\ bits_left d' = bits_left d - 1.
Proof.
  intros Hd. pose proof (length_rest d Hd) as Hlen. destruct (rest d) as [|b l] eqn:Hr; [left|right].
  - pose proof (wb_used d Hd). pose proof (wb_pos d Hd). simpl in Hlen. unfold bits_left in Hlen.
    split_and!; [done|..].
    + unfold Decoder.bit, mbind, comp_bind, get. by rewrite (proj2 (Z.leb_le _ _)) by lia.
    + unfold Decoder.bool, Decoder.index, mbind, comp_bind, get, eval.
      rewrite (proj2 (Z.ltb_ge _ 0)) by lia. rewrite lookup_ge_None_2; [done|]. unfold Decoder.len in Hlen. lia.
  - destruct (bit_reads b) as [Hbit Hbool].
    destruct (Hbit d l Hd Hr) as (d1 & H1 & Hd1 & Hb1 & _ & Hr1).
    destruct (Hbool d l Hd Hr) as (d2 & H2 & _ & Hb2 & Hp2 & _).
    assert (d2 = d1) as ->; [|exists b, d1].
    { unfold yields, Decoder.bit, Decoder.bool in H1, H2. revert H1 H2.
      unfold mbind, comp_bind, get, Decoder.index, eval, throw, Decoder.increment_buffer_by_bit, modify, mret, comp_ret.
      repeat case_match; intros; simplify_eq/=; done. }
    split_and!; [done|done|by eapply (read_further _ _ l [b])|].
    rewrite <- (length_rest d1), Hr1 by done. simpl in Hlen. lia.
Qed.

Lemma bit_tame p : tame p (fun _ => True) Decoder.bit.
Proof.
  intros d Hd. destruct (bit_cases d Hd) as [(_ & -> & _)|(b & d' & -> & _ & Hf & _)]; [|done].
  by split; [apply further_refl|].
Qed.

Lemma bool_tame : tame True (fun _ => True) Decoder.bool.
Proof. intros d Hd. by destruct (bit_cases d Hd) as [(_ & _ & ->)|(b & d' & _ & -> & Hf & _)]. Qed.

Lemma bits8_short n d :
  0 <= n <= 8 -> bits_left d < n -> Decoder.bits8 n d = Returned (Err (de.NotEnoughBits n)) d.
Proof.
  intros Hn Hl. unfold Decoder.bits8, Decoder.ensure_bits, mbind, comp_bind, get, throw.
  by rewrite (proj2 (Z.ltb_ge 8 _)), (proj2 (Z.ltb_lt (bits_left d) _)) by lia.
Qed.

Lemma bits8_tame p n : (1 <= n <= 8)%nat -> tame p (in_u (Z.of_nat n)) (Decoder.bits8 (Z.of_nat n)).
Proof.
  intros Hn d Hd. pose proof (length_rest d Hd) as Hlen. destruct (decide (Z.of_nat n <= bits_left d)) as [Hle|Hgt].
  - destruct (number_of_bits (take n (rest d))) as (v & Hv & Hbits).
    assert (length (take n (rest d)) = n) as Hl by (rewrite length_take; lia). rewrite Hl in Hv, Hbits.
    assert (rest d = low_bits n v ++ drop n (rest d)) as Hr by (by rewrite Hbits, take_drop).
    destruct (bits8_reads n v Hn Hv d _ Hd Hr) as (d' & -> & Hd' & Hb & _ & Hr').
    split; [by eapply read_further|done].
  - rewrite bits8_short by lia. by split; [apply further_refl|].
Qed.

Lemma u8_tame p : tame p (in_u 8) Decoder.u8.
Proof. by apply (bits8_tame p 8); [lia]. Qed.

(** ** Loops *)
Lemma filler_tame p : tame p (fun _ => True) Decoder.filler.
Proof.
  assert (forall fuel d, within_buffer d -> bits_left d < Z.of_nat fuel ->
    outcome_in p (fun _ => True) d (Decoder.filler_loop fuel d)) as Hloop.
  { induction fuel as [|fuel IH]; intros d Hd Hf; [pose proof (wb_left d Hd); lia|]. simpl.
    unfold Decoder.zero, mbind, comp_bind. destruct (bit_cases d Hd) as [(_ & -> & _)|(b & d' & -> & _ & Hd' & Hl)];
      [by split; [apply further_refl|]|]. simpl. destruct b; [done|]. cbn [negb]. cbv iota.
    eapply outcome_further; [exact Hd'|]. apply IH; [apply Hd'|lia]. }
  intros d Hd. apply Hloop; [done|]. unfold Decoder.fuel. pose proof (wb_left d Hd). lia.
Qed.

Lemma list_tame {T} p P (m : Decoder.dec T) : tame p P m -> tame p (Forall P) (Decoder.decode_list_with m).
Proof.
  intros Hm. assert (forall fuel acc d, within_buffer d -> bits_left d < Z.of_nat fuel -> Forall P acc ->
    outcome_in p (Forall P) d (Decoder.list_loop m fuel acc d)) as Hloop.
  { induction fuel as [|fuel IH]; intros acc d Hd Hf Hacc; [pose proof (wb_left d Hd); lia|]. simpl. unfold mbind, comp_bind.
    destruct (bit_cases d Hd) as [(_ & -> & _)|(b & d' & -> & _ & Hd' & Hl)]; [by split; [apply further_refl|]|].
    destruct b; [|done]. eapply outcome_further; [exact Hd'|]. specialize (Hm d' (further_within _ _ Hd')).
    destruct (m d') as [[x|e] d1| |]; [|by destruct Hm|done..]. destruct Hm as [Hd1 Hx].
    pose proof (further_left _ _ Hd1). eapply outcome_further; [exact Hd1|].
    apply IH; [apply Hd1|lia|apply Forall_app; split; [done|by constructor]]. }
  intros d Hd. apply Hloop; [done| |constructor]. unfold Decoder.fuel. pose proof (wb_left d Hd). lia.
Qed.

(** ** Words *)

(** The loop takes the groups that are marked, ten at most. *)
Lemma word_loop_marked fuel gs acc shl d l :
  Forall (fun g => in_u 8 g /\ 128 <= g) gs -> 0 <= shl -> shl + 7 * Z.of_nat (length gs) <= 70 ->
  within_buffer d -> rest d = bytes_bits gs ++ l ->
  exists acc' d', Decoder.word_loop (length gs + fuel) acc shl d =
      Decoder.word_loop fuel acc' (shl + 7 * Z.of_nat (length gs)) d' /\
    within_buffer d' /\ buffer d' = buffer d /\ rest d' = l.
Proof.
  intros Hgs. revert acc shl d; induction Hgs as [|g gs [Hg Hm] _ IH]; intros acc shl d Hs Hb Hd Hr.
  - exists acc, d. split_and!; [simpl; f_equal; lia|done..].
  - rewrite bytes_bits_cons, <- app_assoc in Hr. cbn [length] in *.
    destruct (bits8_reads 8 g ltac:(lia) Hg d _ Hd Hr) as (d1 & Hy & Hd1 & Hb1 & _ & Hr1).
    destruct (byte_split g Hg) as [Hlow Hhigh]. rewrite (proj2 (Z.ltb_ge g 128)) in Hhigh by done.
    set (y := Z.shiftl (g mod 128) shl mod 2 ^ 64).
    destruct (IH (Z.lor acc y) (shl + 7) d1) as (acc' & d' & Hl & Hd' & Hb' & Hr'); [lia|lia|done|done|].
    exists acc', d'. split_and!; [|done|congruence|done].
    replace (shl + 7 * Z.of_nat (S (length gs))) with (shl + 7 + 7 * Z.of_nat (length gs)) by lia.
    rewrite <- Hl. cbn [Nat.add Decoder.word_loop]. rewrite (bind_yields _ _ _ _ _ Hy), Hlow, Hhigh.
    unfold Decoder.usize_shl. rewrite (proj2 (Z.leb_le 0 shl)), (proj2 (Z.ltb_lt shl 64)) by lia. done.
Qed.

(** The marked groups, [n] at most, at the front of the bits, and what follows. *)
Lemma split_groups n bits :
  exists gs l, bits = bytes_bits gs ++ l /\ Forall (fun g => in_u 8 g /\ 128 <= g) gs /\ (length gs <= n)%nat /\
    ((length l < 8)%nat \/ exists g l', l = byte_bits g ++ l' /\ in_u 8 g /\ (g < 128 \/ length gs = n)).
Proof.
  revert bits; induction n as [|n IH]; intros bits;
    (destruct (decide (length bits < 8)%nat) as [Hs|Hl]; [exists [], bits; split_and!; [done..|simpl; lia|by left]|]);
    destruct (number_of_bits (take 8 bits)) as (g & Hg & Hbits); rewrite length_take, Nat.min_l in Hg, Hbits by lia;
    assert (bits = byte_bits g ++ drop 8 bits) as Hsplit by (unfold byte_bits; by rewrite Hbits, take_drop).
  - exists [], bits. split_and!; [done..|right; exists g, (drop 8 bits); auto].
  - destruct (Z.lt_ge_cases g 128) as [Hlt|Hge].
    + exists [], bits. split_and!; [done..|simpl; lia|right; exists g, (drop 8 bits); auto].
    + destruct (IH (drop 8 bits)) as (gs & l & Hr & Hgs & Hn & Hcases). exists (g :: gs), l.
      split_and!; [by rewrite bytes_bits_cons, <- app_assoc, <- Hr|by constructor|simpl; lia|].
      destruct Hcases as [|(g' & l' & ? & ? & Hg')]; [by left|right]. exists g', l'. split_and!; [done..|].
      destruct Hg' as [|Hlen]; [by left|right; simpl; by rewrite Hlen].
Qed.

Lemma terminated_app gs g : Forall (fun g => in_u 8 g /\ 128 <= g) gs -> g < 128 -> terminated (gs ++ [g]).
Proof.
  intros Hgs Hg. induction Hgs as [|x gs [_ Hx] _ IH]; [done|]. simpl. destruct gs; by split.
Qed.

(** What becomes of a word, for whatever bits there are. *)
Definition word_cases (d : Decoder.t) : Prop :=
  match Decoder.word d with
  | Returned (Ok v) d' => further d d' /\
      exists gs, terminated gs /\ Forall (in_u 8) gs /\ (length gs <= 10)%nat /\
        rest d = bytes_bits gs ++ rest d' /\ v = group_value gs mod 2 ^ 64
  | Returned (Err e) d' => further d d' /\ e = de.NotEnoughBits 8 /\ (length (rest d') < 8)%nat /\
      exists gs, Forall (fun g => in_u 8 g /\ 128 <= g) gs /\ (length gs <= 10)%nat /\
        rest d = bytes_bits gs ++ rest d'
  | Panicked =>
      exists gs l, Forall (fun g => in_u 8 g /\ 128 <= g) gs /\ length gs = 10%nat /\ (8 <= length l)%nat /\
        rest d = bytes_bits gs ++ l
  | Unfinished => False
  end.

Lemma word_analysis d : within_buffer d -> word_cases d.
Proof.
  intros Hd. unfold word_cases. destruct (split_groups 10 (rest d)) as (gs & l & Hr & Hgs & Hn & Hcases).
  assert (Hcases' : (exists g l', l = byte_bits g ++ l' /\ in_u 8 g /\ g < 128 /\ (length gs < 10)%nat) \/
    (length l < 8)%nat \/ length gs = 10%nat /\ exists g l', l = byte_bits g ++ l' /\ in_u 8 g).
  { destruct Hcases as [|(g & l' & ? & ? & [|])]; [auto| |eauto 10].
    destruct (decide (length gs = 10%nat)); [eauto 10|]. left. exists g, l'. split_and!; [done..|lia]. }
  destruct Hcases' as [(g & l' & -> & Hg & Hlt & Hlen)|Hcases'].
  - rewrite app_assoc in Hr.
    assert (bytes_bits gs ++ byte_bits g = bytes_bits (gs ++ [g])) as Hbb
      by (by rewrite bytes_bits_app, bytes_bits_cons, app_nil_r).
    rewrite Hbb in Hr.
    assert (Forall (in_u 8) (gs ++ [g])) as Hall.
    { apply Forall_app. split; [eapply Forall_impl; [exact Hgs|]; by intros ? []|by constructor]. }
    pose proof (terminated_app gs g Hgs Hlt) as Ht.
    assert (length (gs ++ [g]) <= 10)%nat as Hle by (rewrite length_app; simpl; lia).
    destruct (word_groups_read _ Ht Hall Hle d l' Hd Hr) as (d' & -> & Hd' & Hb & _ & Hr').
    split; [by eapply read_further|]. exists (gs ++ [g]). by rewrite Hr'.
  - destruct (word_loop_marked (11 - length gs) gs 0 0 d l Hgs) as (acc & d' & Hw & Hd' & Hb & Hr'); [lia|lia|done|done|].
    replace (length gs + (11 - length gs))%nat with 11%nat in Hw by lia. fold Decoder.word in Hw.
    assert (0 < 11 - length gs)%nat as Hpos by lia. destruct (11 - length gs)%nat as [|fuel] eqn:Hfuel; [lia|].
    cbn [Decoder.word_loop] in Hw.
    destruct Hcases' as [Hs|(Hten & g & l' & -> & Hg)].
    + assert (bits_left d' < 8) as Hlt by (pose proof (length_rest d' Hd'); rewrite Hr' in *; lia).
      rewrite (bind_fails _ _ _ _ _ (bits8_short 8 d' ltac:(lia) Hlt)) in Hw. rewrite Hw.
      split_and!; [by eapply read_further|done|by rewrite Hr'|]. exists gs. by rewrite Hr'.
    + destruct (bits8_reads 8 g ltac:(lia) Hg d' _ Hd' Hr') as (d2 & Hy & _).
      rewrite (bind_yields _ _ _ _ _ Hy), Hten in Hw. change (Decoder.word d = Panicked) in Hw. rewrite Hw. exists gs, (byte_bits g ++ l'). split_and!; [done..| |done].
      rewrite length_app. unfold byte_bits. rewrite length_low_bits. lia.
Qed.

Lemma word_tame : tame True (in_u 64) Decoder.word.
Proof.
  intros d Hd. pose proof (word_analysis d Hd) as Hw. unfold word_cases in Hw.
  destruct (Decoder.word d) as [[v|e] d'| |]; [|by destruct Hw|done..].
  destruct Hw as [Hd' (gs & _ & _ & _ & _ & ->)]. split; [done|by apply Z.mod_pos_bound].
Qed.

Lemma integer_tame : tame True (in_i 64) Decoder.integer.
Proof. eapply tame_bind; [apply word_tame|]. intros w Hw. by apply tame_ret, usize_zigzag_range. Qed.

Lemma char_tame : tame True (fun c => is_char c = true) Decoder.char.
Proof.
  eapply tame_bind; [apply word_tame|]. intros w _. cbv zeta. unfold char_from_u32.
  destruct (is_char _) eqn:Hc; [by apply tame_ret|apply tame_throw].
Qed.

Lemma string_tame : tame True (Forall (fun c => is_char c = true)) Decoder.string.
Proof.
  intros d Hd. unfold Decoder.string, mbind, comp_bind, get. rewrite string_loop_list. by apply (list_tame _ _ _ char_tame).
Qed.

(** ** Byte arrays *)

(** The next byte is a length, and the position goes behind it. *)
Lemma length_byte d n :
  within_buffer d -> 0 <= n -> n + 1 <= Decoder.len d - pos d -> used_bits d = 0 ->
  exists next, buffer d !! Z.to_nat (pos d + n) = Some next /\ in_u 8 next /\
    further d (advance 0 (pos d + n + 1) d).
Proof.
  intros Hd Hn Hl Hu. pose proof (wb_pos d Hd) as Hp.
  assert (Z.to_nat (pos d + n) < length (buffer d))%nat as Hlt by (unfold Decoder.len in *; lia).
  destruct (lookup_lt_is_Some_2 (buffer d) _ Hlt) as [next Hnext]. exists next.
  split_and!; [done|eapply Forall_lookup_1; [apply Hd|exact Hnext]|].
  split; [split|done|]; simpl; try apply Hd; try lia; unfold bits_left, Decoder.len in *; simpl; lia.
Qed.

Lemma byte_array_loop_tame p fuel blk_len acc d :
  within_buffer d -> used_bits d = 0 -> in_u 8 blk_len -> Forall (in_u 8) acc -> Decoder.len d - pos d < Z.of_nat fuel ->
  outcome_in p (Forall (in_u 8)) d (Decoder.byte_array_loop fuel blk_len acc d).
Proof.
  revert blk_len acc d; induction fuel as [|fuel IH]; intros blk_len acc d Hd Hu Hb Hacc Hf;
    pose proof (wb_left d Hd) as Hl; unfold bits_left in Hl; [lia|].
  cbn [Decoder.byte_array_loop]. destruct (Z.eqb_spec blk_len 0); [by split; [apply further_refl|]|].
  unfold Decoder.ensure_bytes, mbind, comp_bind, get, put, throw, mret, comp_ret, Decoder.index, eval.
  destruct (Z.ltb_spec (Decoder.len d - pos d) (blk_len + 1)); [by split; [apply further_refl|]|].
  destruct Hb as [Hb0 Hb8]. destruct (length_byte d blk_len) as (next & Hnext & Hin & Hd1); [done|lia|lia|done|].
  cbn [pos advance used_bits buffer]. rewrite (proj2 (Z.ltb_ge _ 0)) by (pose proof (wb_pos d Hd); lia).
  rewrite Hnext, Hu. cbn [pos advance used_bits buffer]. eapply outcome_further; [exact Hd1|].
  apply IH; [apply Hd1|done|done| |unfold Decoder.len in *; simpl; lia].
  apply Forall_app. split; [done|]. apply Forall_take, Forall_drop, Hd.
Qed.

Lemma bytes_tame p : tame p (Forall (in_u 8)) Decoder.bytes.
Proof.
  eapply tame_bind; [apply filler_tame|]. intros _ _ d Hd.
  unfold Decoder.byte_array, mbind at 1, comp_bind at 1, get. destruct (Z.eqb_spec (used_bits d) 0) as [Hu|]; simpl;
    [|by split; [apply further_refl|]].
  unfold Decoder.ensure_bytes, mbind, comp_bind, get, put, throw, mret, comp_ret, Decoder.index, eval.
  pose proof (wb_left d Hd) as Hl. unfold bits_left in Hl. pose proof (wb_pos d Hd) as Hp.
  destruct (Z.ltb_spec (Decoder.len d - pos d) 1); [by split; [apply further_refl|]|].
  destruct (length_byte d 0) as (next & Hnext & Hin & Hd1); [done|lia|lia|done|]. rewrite Z.add_0_r in Hnext, Hd1.
  rewrite (proj2 (Z.ltb_ge (pos d) 0)) by lia. rewrite Hnext, Hu. eapply outcome_further; [exact Hd1|].
  apply byte_array_loop_tame; [apply Hd1|done|done|constructor|unfold Decoder.len; simpl; lia].
Qed.

Lemma utf8_tame p : tame p (Forall (fun c => is_char c = true)) Decoder.utf8.
Proof.
  eapply tame_bind; [apply bytes_tame|]. intros b Hb. destruct (from_utf8 b) eqn:Hs; [|apply tame_throw].
  apply tame_ret. by eapply from_utf8_chars.
Qed.

(** ** Flat encoding and decoding

    The encoder against a list of bits, the decoder against the encoder, and the
    decoder on whatever bytes there are. *)

(** ** The abstract encoder *)

(** What a program writes. *)
Inductive write :=
| WriteBit (b : bool) | WriteBits (n : nat) (v : Z) | WriteU8 (x : Z) | WriteWord (c : Z) | WriteInteger (i : Z) | WriteChar (c : Z)
| WriteString (s : list Z) | WriteUtf8 (s : list Z) | WriteBytes (arr : bytes) | WriteByteArray (arr : bytes) | WriteFiller.

Definition write_ok (q : write) : Prop :=
  match q with
  | WriteBit _ | WriteFiller => True
  | WriteBits n v => (1 <= n <= 8)%nat /\ in_u (Z.of_nat n) v
  | WriteU8 x => in_u 8 x
  | WriteWord c => in_u 64 c
  | WriteInteger i => in_i 64 i
  | WriteChar c => is_char c = true
  | WriteString s | WriteUtf8 s => Forall (fun c => is_char c = true) s
  | WriteBytes arr | WriteByteArray arr => Forall (in_u 8) arr
  end.

Definition write_run (q : write) : Encoder.enc unit :=
  match q with
  | WriteBit b => Encoder.bool b
  | WriteBits n v => Encoder.bits (Z.of_nat n) v
  | WriteU8 x => Encoder.u8 x
  | WriteWord c => Encoder.word c
  | WriteInteger i => Encoder.integer i
  | WriteChar c => Encoder.char c
  | WriteString s => Encoder.string s
  | WriteUtf8 s => Encoder.utf8 s
  | WriteBytes arr => Encoder.bytes arr
  | WriteByteArray arr => Encoder.byte_array arr
  | WriteFiller => Encoder.filler
  end.

(** The bits that answer it, after those written before; only a byte array without
    its filler may be refused. *)
Definition char_layout (c : Z) : layout := fixed (bytes_bits (word_groups c)).

Definition write_bits (q : write) (w : list bool) : result en.Error (list bool) :=
  match q with
  | WriteBit b => Ok [b]
  | WriteBits n v => Ok (low_bits n v)
  | WriteU8 x => Ok (byte_bits x)
  | WriteWord c | WriteChar c => Ok (bytes_bits (word_groups c))
  | WriteInteger i => Ok (bytes_bits (word_groups (if i <? 0 then - 2 * i - 1 else 2 * i)))
  | WriteString s => Ok (list_layout char_layout s (length w))
  | WriteUtf8 s => Ok (bytes_layout (as_bytes s) (length w))
  | WriteBytes arr => Ok (bytes_layout arr (length w))
  | WriteByteArray arr =>
      if decide (length w mod 8 = 0)%nat then Ok (bytes_bits (blocks arr)) else Err en.BufferNotByteAligned
  | WriteFiller => Ok (padding (length w))
  end.

Fixpoint writes_run (qs : list write) : Encoder.enc unit :=
  match qs with
  | [] => mret ()
  | q :: qs => _ ← write_run q; writes_run qs
  end.

Fixpoint writes_bits (qs : list write) (w : list bool) : result en.Error (list bool) :=
  match qs with
  | [] => Ok w
  | q :: qs => x ← write_bits q w; writes_bits qs (w ++ x)
  end.

Lemma byte_array_refines arr e w :
  stands_for e w -> Forall (in_u 8) arr ->
  match write_bits (WriteByteArray arr) w with
  | Ok x => exists e', yields (Encoder.byte_array arr) e () e' /\ stands_for e' (w ++ x)
  | Err err => Encoder.byte_array arr e = Returned (Err err) e
  end.
Proof.
  intros He Harr. pose proof (stands_for_length e w He) as Hlen. pose proof (std_used e w He) as Hu. cbn [write_bits].
  rewrite Hlen, Nat.mul_comm, Nat.add_comm, Nat.Div0.mod_add, Nat.mod_small by lia.
  destruct (decide (Z.to_nat (Encoder.used_bits e) = 0%nat)) as [Hz|Hz].
  - apply byte_array_yields; [done|lia|done].
  - unfold Encoder.byte_array, mbind, comp_bind, get. by rewrite (proj2 (Z.eqb_neq _ 0)) by lia.
Qed.

Lemma write_refines q e w :
  stands_for e w -> write_ok q ->
  match write_bits q w with
  | Ok x => exists e', yields (write_run q) e () e' /\ stands_for e' (w ++ x)
  | Err err => write_run q e = Returned (Err err) e
  end.
Proof.
  intros He Hq. destruct q; cbn [write_ok write_run write_bits] in *.
  - by apply bool_appends.
  - destruct Hq. by apply bits_appends.
  - by apply u8_appends.
  - by apply word_appends.
  - rewrite <- isize_zigzag_spec by done. exact (word_appends _ (isize_zigzag_range i Hq) e w He).
  - by apply word_appends; [apply is_char_in_u|].
  - rewrite string_list. apply (list_appends Encoder.char char_layout); [|done].
    eapply Forall_impl; [exact Hq|]. intros c Hc. by apply word_appends, is_char_in_u.
  - apply bytes_appends; [by apply as_bytes_bytes|done].
  - by apply bytes_appends.
  - by apply byte_array_refines.
  - by apply filler_appends.
Qed.

(** ** The types that are encoded

    The crate implements its traits for single values.  What a program writes with one
    encoder and reads with one decoder is made of them: values, one thing after the
    other, and lists item by item with [encode_list_with] and [decode_list_with]. *)
Inductive shape :=
| OfBool | OfU8 | OfUsize | OfIsize | OfChar | OfText | OfBlob
| Then (first second : shape)
| Items (item : shape).

Fixpoint content (s : shape) : Type :=
  match s with
  | OfBool => bool
  | OfU8 => u8
  | OfUsize => usize
  | OfIsize => isize
  | OfChar => char
  | OfText => text
  | OfBlob => blob
  | Then first second => content first * content second
  | Items item => list (content item)
  end.

(** The values of the types in Rust. *)
Fixpoint in_range (s : shape) : content s -> Prop :=
  match s with
  | OfBool => fun _ => True
  | OfU8 => fun x => in_u 8 (u8_value x)
  | OfUsize => fun x => in_u 64 (usize_value x)
  | OfIsize => fun x => in_i 64 (isize_value x)
  | OfChar => fun x => is_char (char_value x) = true
  | OfText => fun x => Forall (fun c => is_char c = true) (chars x)
  | OfBlob => fun x => Forall (in_u 8) (blob_bytes x)
  | Then first second => fun x => in_range first x.1 /\ in_range second x.2
  | Items item => Forall (in_range item)
  end.

Fixpoint write_shape (s : shape) : FlatEncode (content s) :=
  match s with
  | OfBool => bool_encode
  | OfU8 => u8_encode
  | OfUsize => usize_encode
  | OfIsize => isize_encode
  | OfChar => char_encode
  | OfText => text_encode
  | OfBlob => blob_encode
  | Then first second => fun x => (_ ← (write_shape first x.1 : Encoder.enc unit); write_shape second x.2)
  | Items item => Encoder.encode_list_with (write_shape item)
  end.

Fixpoint read_shape (s : shape) : FlatDecode (content s) :=
  match s with
  | OfBool => bool_decode
  | OfU8 => u8_decode
  | OfUsize => usize_decode
  | OfIsize => isize_decode
  | OfChar => char_decode
  | OfText => text_decode
  | OfBlob => blob_decode
  | Then first second =>
      (x ← (read_shape first : Decoder.dec (content first)); y ← (read_shape second : Decoder.dec (content second)); mret (x, y)
        : Decoder.dec (content first * content second))
  | Items item => Decoder.decode_list_with (read_shape item)
  end.
#[local] Existing Instances write_shape read_shape.

(** Booleans read a bit, integers and characters a word; both may panic. *)
Fixpoint may_panic (s : shape) : Prop :=
  match s with
  | OfBool | OfUsize | OfIsize | OfChar => True
  | OfU8 | OfText | OfBlob => False
  | Then first second => may_panic first \/ may_panic second
  | Items item => may_panic item
  end.

Fixpoint shape_layout (s : shape) : content s -> layout :=
  match s with
  | OfBool => fun b => fixed [b]
  | OfU8 => fun x => fixed (byte_bits (u8_value x))
  | OfUsize => fun x => fixed (bytes_bits (word_groups (usize_value x)))
  | OfIsize => fun x => fixed (bytes_bits (word_groups (isize_zigzag (isize_value x))))
  | OfChar => fun x => char_layout (char_value x)
  | OfText => fun x => bytes_layout (as_bytes (chars x))
  | OfBlob => fun x => bytes_layout (blob_bytes x)
  | Then first second => fun x => followed (shape_layout first x.1) (shape_layout second x.2)
  | Items item => list_layout (shape_layout item)
  end.

Lemma shape_appends s x : in_range s x -> appends (write_shape s x) (shape_layout s x).
Proof.
  induction s as [| | | | | | |s1 IH1 s2 IH2|s IH]; cbn [content in_range write_shape shape_layout] in *; intros Hx.
  - apply bool_appends.
  - by apply u8_appends.
  - by apply word_appends.
  - by apply word_appends, isize_zigzag_range.
  - by apply word_appends, is_char_in_u.
  - by apply bytes_appends, as_bytes_bytes.
  - by apply bytes_appends.
  - destruct Hx. apply appends_followed; auto.
  - apply list_appends. eapply Forall_impl; [exact Hx|]. auto.
Qed.

Lemma shape_reads s x : in_range s x -> reads (read_shape s) (shape_layout s x) x.
Proof.
  induction s as [| | | | | | |s1 IH1 s2 IH2|s IH]; cbn [content in_range read_shape shape_layout] in *; intros Hx; [|destruct x as [x]..|].
  - apply bit_reads.
  - by apply (reads_map Decoder.u8 Build_u8), u8_reads.
  - by apply (reads_map Decoder.word Build_usize), word_reads.
  - by apply (reads_map Decoder.integer Build_isize), integer_reads.
  - by apply (reads_map Decoder.char Build_char), char_reads.
  - by apply (reads_map Decoder.utf8 Build_text), utf8_reads.
  - by apply (reads_map Decoder.bytes Build_blob), bytes_reads.
  - destruct Hx. eapply reads_bind; [by apply IH1|]. by apply (reads_map _ (pair x)), IH2.
  - apply list_reads. eapply Forall_impl; [exact Hx|]. auto.
Qed.

Lemma shape_tame s : tame (may_panic s) (in_range s) (read_shape s).
Proof.
  induction s as [| | | | | | |s1 IH1 s2 IH2|s IH]; cbn [content in_range read_shape may_panic].
  - apply bool_tame.
  - eapply tame_bind; [apply u8_tame|]. intros x Hx. by apply tame_ret.
  - eapply tame_bind; [apply word_tame|]. intros x Hx. by apply tame_ret.
  - eapply tame_bind; [apply integer_tame|]. intros x Hx. by apply tame_ret.
  - eapply tame_bind; [apply char_tame|]. intros x Hx. by apply tame_ret.
  - eapply tame_bind; [apply utf8_tame|]. intros x Hx. by apply tame_ret.
  - eapply tame_bind; [apply bytes_tame|]. intros x Hx. by apply tame_ret.
  - eapply tame_bind; [eapply tame_weaken; [|done|apply IH1]; by left|]. intros x Hx.
    eapply tame_bind; [eapply tame_weaken; [|done|apply IH2]; by right|]. intros y Hy. by apply tame_ret.
  - by apply list_tame.
Qed.

(** ** Properties *)

(** What is encoded, whatever comes behind it, is decoded from a new decoder. *)
Lemma encode_decodes s (x : content s) junk :
  in_range s x -> Forall (in_u 8) junk ->
  exists b e d, encode x = Returned (Ok b) e /\ Forall (in_u 8) b /\ decode (b ++ junk) = Returned (Ok x) d.
Proof.
  intros Hx Hj. destruct (shape_appends s x Hx Encoder.new [] stands_for_new) as (e1 & Hy1 & He1).
  destruct (filler_yields e1 _ He1) as (e2 & Hy2 & Hu & He2). pose proof He2 as [_ _ _ Hb Hbits].
  rewrite Hu, app_nil_r, <- app_assoc in Hbits. simpl in Hbits.
  exists (Encoder.buffer e2), e2.
  assert (within_buffer (Decoder.new (Encoder.buffer e2 ++ junk))) as Hd.
  { split; simpl; [lia|lia| |by apply Forall_app]. unfold Decoder.bits_left, Decoder.len. simpl. lia. }
  destruct (reads_bind _ (fun v => _ ← Decoder.filler; mret v) _ _ _ _ (shape_reads s x Hx)
              (reads_bind _ _ _ _ _ _ padding_reads (reads_ret x)) _ (bytes_bits junk) Hd) as (d & Hy & _).
  { unfold rest, position, followed, fixed. simpl. rewrite bytes_bits_app, <- Hbits, drop_0.
    by rewrite app_nil_r, <- !app_assoc. }
  exists d. split_and!; [|done|exact Hy].
  unfold encode. rewrite (bind_yields _ _ _ _ _ Hy1), (bind_yields _ _ _ _ _ Hy2). done.
Qed.

Lemma decode_tame s b :
  Forall (in_u 8) b -> outcome_in (may_panic s) (in_range s) (Decoder.new b) (decode (A := content s) b).
Proof.
  intros Hb. assert (tame (may_panic s) (in_range s) (v ← read_shape s; _ ← Decoder.filler; mret v)) as Ht.
  { eapply tame_bind; [apply shape_tame|]. intros a Ha. eapply tame_bind; [apply filler_tame|]. intros _ _. by apply tame_ret. }
  apply Ht. split; simpl; [lia|lia| |done]. unfold Decoder.bits_left, Decoder.len. simpl. lia.
Qed.

(** C33: (round trip) whatever is written with one encoder - booleans, bytes, 64-bit integers, characters,
    strings and byte vectors through their impls, one after the other or item by item as lists, at whatever
    bit each begins - is encoded, to bytes from which the decoder reads it back; bytes behind the encoding are
    not looked at.  The values are those of their types. *)
Theorem flat_roundtrip s (x : content s) junk :
  in_range s x -> Forall (in_u 8) junk ->
  exists b e d, encode x = Returned (Ok b) e /\ Forall (in_u 8) b /\ decode (b ++ junk) = Returned (Ok x) d.
Proof. apply encode_decodes. Qed.

Lemma flat_roundtrip_witness :
  let s := Items (Then OfIsize (Then OfText OfBool)) in
  let x : content s :=
    [({| isize_value := -3 |}, ({| chars := [955; 120] |}, true)); ({| isize_value := 2 ^ 62 |}, ({| chars := [] |}, false))] in
  exists b e d, encode x = Returned (Ok b) e /\ Forall (in_u 8) b /\ decode (b ++ [7]) = Returned (Ok x) d.
Proof.
  intros s x. apply (flat_roundtrip s x).
  - repeat constructor; done.
  - repeat constructor; done.
Defined.

(** C34: (refinement) the encoder implements the list of the bits written: whatever sequence of its operations
    is run, the buffer and the byte in progress stand for the bits that the operations append one after the
    other; only a byte array that does not start at a byte boundary is refused. *)
Theorem encoder_refines_bits ws e w :
  stands_for e w -> Forall write_ok ws ->
  match writes_bits ws w with
  | Ok w' => exists e', yields (writes_run ws) e () e' /\ stands_for e' w'
  | Err err => exists e', writes_run ws e = Returned (Err err) e'
  end.
Proof.
  intros He Hws. revert e w He. induction Hws as [|q ws Hq _ IH]; intros e w He; [by exists e|].
  cbn [writes_bits writes_run]. pose proof (write_refines q e w He Hq) as Hw.
  destruct (write_bits q w) as [x|err]; cbn [mbind result_bind].
  - destruct Hw as (e1 & H1 & He1). rewrite (bind_yields _ _ _ _ _ H1). specialize (IH e1 _ He1).
    destruct (writes_bits ws (w ++ x)); [|done].
    destruct IH as (e2 & H2 & He2). exists e2. split; [|done]. by eapply yields_bind.
  - exists e. by apply bind_fails.
Qed.

Lemma encoder_refines_bits_witness :
  let ws := [WriteBit true; WriteInteger (-1); WriteBytes [1; 2]; WriteBits 3 5] in
  exists e', yields (writes_run ws) Encoder.new () e' /\
    stands_for e' (bytes_bits [0x80; 0x81; 2; 1; 2; 0] ++ [true; false; true]).
Proof.
  intros ws. refine (encoder_refines_bits ws Encoder.new [] stands_for_new _).
  repeat constructor; done || (simpl; lia).
Defined.

(** C35: (termination) whatever the bytes, decoding comes to an end, with a decoder that is still within the
    same buffer; where only bytes, strings and byte vectors are read, also in lists, it never panics.  Booleans,
    integers and characters may panic ([bit_or_bool], [word_outcome]). *)
Theorem flat_decoding_ends s b :
  Forall (in_u 8) b ->
  match decode (A := content s) b with
  | Returned _ d => within_buffer d /\ Decoder.buffer d = b
  | Panicked => may_panic s
  | Unfinished => False
  end.
Proof.
  intros Hb. pose proof (decode_tame s b Hb) as Hd. unfold outcome_in in Hd.
  destruct (decode b) as [r d| |]; [|done..]. destruct Hd as [[Hw Hbuf _] _]. by split.
Qed.

Lemma flat_decoding_ends_witness :
  (exists d, decode (A := content (Items (Then OfU8 OfBlob))) [255; 129; 2; 7] = Returned (Err (de.NotEnoughBytes 3)) d /\ within_buffer d) /\
  decode (A := content (Then OfBool OfBool)) [] = Panicked /\ may_panic (Then OfBool OfBool).
Proof.
  pose proof (flat_decoding_ends (Items (Then OfU8 OfBlob)) [255; 129; 2; 7]) as H1.
  pose proof (flat_decoding_ends (Then OfBool OfBool) []) as H2. vm_compute in H1, H2.
  split; [|split; [reflexivity|apply H2; constructor]].
  eexists. split; [vm_compute; reflexivity|].
  apply H1. repeat constructor; done.
Defined.

(** C40: (types) whatever the bytes, a value that is decoded is one of its type - bytes of eight bits, integers in
    their 64-bit ranges, Unicode scalar values, in strings, byte vectors and lists as well - so that encoding it
    succeeds and decodes to it again. *)
Theorem decoded_values_valid s b (x : content s) d :
  Forall (in_u 8) b -> decode b = Returned (Ok x) d ->
  in_range s x /\ exists b' e d', encode x = Returned (Ok b') e /\ decode b' = Returned (Ok x) d'.
Proof.
  intros Hb Heq. pose proof (decode_tame s b Hb) as Hd. rewrite Heq in Hd. destruct Hd as [_ Hx].
  split; [exact Hx|]. destruct (encode_decodes s x [] Hx) as (b' & e & d' & ? & _ & ?); [constructor|].
  rewrite app_nil_r in *. eauto.
Qed.

Lemma decoded_values_valid_witness :
  let s := Then OfUsize OfIsize in
  let x : content s := ({| usize_value := 2 ^ 64 - 2 |}, {| isize_value := -1 |}) in
  in_range s x /\ exists b' e d', encode x = Returned (Ok b') e /\ decode b' = Returned (Ok x) d'.
Proof.
  intros s x. eapply (decoded_values_valid s [254; 255; 255; 255; 255; 255; 255; 255; 255; 127; 1; 1] x).
  - repeat constructor; done.
  - vm_compute. reflexivity.
Defined.

(** (errors and bounds) what becomes of a word for whatever bits are left.  Groups of eight bits are read up
    to the first that is not marked: there are ten of them at most and the value is theirs modulo [2 ^ 64], so
    the higher bits of the tenth group are lost; the buffer may end before, which is an error; and if ten marked
    groups are followed by an eleventh the method panics, because the shift overflows. *)
Theorem word_outcome d :
  within_buffer d ->
  match Decoder.word d with
  | Returned (Ok v) d' =>
      exists gs, terminated gs /\ Forall (in_u 8) gs /\ (length gs <= 10)%nat /\
        rest d = bytes_bits gs ++ rest d' /\ v = group_value gs mod 2 ^ 64
  | Returned (Err e) d' => e = de.NotEnoughBits 8 /\ (length (rest d') < 8)%nat /\
      exists gs, Forall (fun g => in_u 8 g /\ 128 <= g) gs /\ (length gs <= 10)%nat /\
        rest d = bytes_bits gs ++ rest d'
  | Panicked =>
      exists gs l, Forall (fun g => in_u 8 g /\ 128 <= g) gs /\ length gs = 10%nat /\ (8 <= length l)%nat /\
        rest d = bytes_bits gs ++ l
  | Unfinished => False
  end.
Proof.
  intros Hd. pose proof (word_analysis d Hd) as Hw. unfold word_cases in Hw.
  by destruct (Decoder.word d) as [[v|e] d'| |]; try apply Hw.
Qed.

Lemma word_outcome_witness :
  let lost := Decoder.new [128; 128; 128; 128; 128; 128; 128; 128; 128; 2] in
  within_buffer lost /\ Decoder.word lost = Returned (Ok 0) (Decoder.advance 0 10 lost) /\
  (exists gs, terminated gs /\ Forall (in_u 8) gs /\ (length gs <= 10)%nat /\ rest lost = bytes_bits gs /\
     0 = group_value gs mod 2 ^ 64).
Proof.
  intros lost. assert (within_buffer lost) as Hd by (split; [done..|repeat constructor; done]).
  split; [exact Hd|]. assert (Decoder.word lost = Returned (Ok 0) (Decoder.advance 0 10 lost)) as Heq by (vm_compute; reflexivity).
  split; [exact Heq|]. pose proof (word_outcome lost Hd) as Hw. rewrite Heq in Hw.
  destruct Hw as (gs & ? & ? & ? & Hr & Hv). exists gs. split; [assumption|]. split; [assumption|]. split; [assumption|].
  split; [|exact Hv]. rewrite Hr. vm_compute (rest (Decoder.advance 0 10 lost)). apply app_nil_r.
Defined.

(** (errors) both ways of reading a bit give the next bit of the buffer and go on by it; at the end of the
    buffer one is an error, and the other, which booleans are decoded with, panics. *)
Theorem bit_or_bool d :
  within_buffer d ->
  match rest d with
  | [] => Decoder.bit d = Returned (Err de.EndOfBuffer) d /\ Decoder.bool d = Panicked
  | b :: l => exists d', yields Decoder.bit d b d' /\ yields Decoder.bool d b d' /\ within_buffer d' /\ rest d' = l
  end.
Proof.
  intros Hd. destruct (bit_cases d Hd) as [(-> & Hbit & Hbool)|(b & d' & Hbit & Hbool & Hd' & Hl)]; [done|].
  destruct (rest d) as [|b' l] eqn:Hr.
  - pose proof (length_rest d Hd) as Hlen. rewrite Hr in Hlen. pose proof (wb_left _ (further_within _ _ Hd')). simpl in Hlen. lia.
  - destruct (proj1 (bit_reads b') d l Hd Hr) as (d1 & Hb1 & Hw & _ & _ & Hr1).
    unfold yields in *. assert (b' = b /\ d1 = d') as [-> ->] by (split; congruence). eauto 10.
Qed.

Lemma bit_or_bool_witness :
  Decoder.bit (Decoder.new []) = Returned (Err de.EndOfBuffer) (Decoder.new []) /\ Decoder.bool (Decoder.new []) = Panicked.
Proof. apply (bit_or_bool (Decoder.new [])). split; [done..|constructor]. Defined.

(** (equivalence) on the 64-bit ranges the shifts and casts of zigzag are the arithmetic definition - twice a
    number that is not negative, and one less than twice the absolute value of one that is - and the two
    directions map the ranges to each other and are inverse. *)
Theorem zigzag_inverse i u :
  in_i 64 i -> in_u 64 u ->
  (isize_zigzag i = (if i <? 0 then 2 * Z.abs i - 1 else 2 * i) /\ in_u 64 (isize_zigzag i) /\
     usize_zigzag (isize_zigzag i) = i) /\
  (in_i 64 (usize_zigzag u) /\ isize_zigzag (usize_zigzag u) = u).
Proof.
  intros Hi Hu. split_and!; [|by apply isize_zigzag_range|by apply zigzag_isize|by apply usize_zigzag_range|by apply zigzag_usize].
  rewrite isize_zigzag_spec by done. destruct (Z.ltb_spec i 0); lia.
Qed.

Lemma zigzag_inverse_witness :
  let i := - 2 ^ 63 in let u := 2 ^ 64 - 1 in
  (isize_zigzag i = 2 * Z.abs i - 1 /\ in_u 64 (isize_zigzag i) /\ usize_zigzag (isize_zigzag i) = i) /\
  (in_i 64 (usize_zigzag u) /\ isize_zigzag (usize_zigzag u) = u).
Proof. apply (zigzag_inverse (- 2 ^ 63) (2 ^ 64 - 1)); split; done. Defined.
