(* ===== verification/Varuint.v ===== *)
(** * Variable-length integers of addresses

    [pallas-addresses/src/varuint.rs]: groups of seven bits, the high ones first,
    all but the last marked. *)
From S2P Require Import Prelude Effects.

(** [std::io::Cursor] over bytes. *)
Record Cursor := { get_ref : bytes; position : Z }.

Definition Cursor_new (b : bytes) : Cursor := {| get_ref := b; position := 0 |}.

(** [read_exact] into a buffer of one byte. *)
Definition read_byte {E} (e : E) : comp E Cursor Z := fun c =>
  match get_ref c !! Z.to_nat (position c) with
  | Some byte => Returned (Ok byte) {| get_ref := get_ref c; position := position c + 1 |}
  | None => Returned (Err e) {| get_ref := get_ref c; position := Z.of_nat (length (get_ref c)) |}
  end.

(** [write_all]: what is behind the position is overwritten. *)
Definition write_all (out : bytes) (c : Cursor) : Cursor :=
  let p := Z.to_nat (position c) in
  {| get_ref := take p (get_ref c) ++ replicate (p - length (get_ref c)) 0 ++ out ++ drop (p + length out) (get_ref c);
     position := position c + Z.of_nat (length out) |}.

Module varuint.
Module Error.
Inductive t := VarUintOverflow | UnexpectedEof.
End Error.

Module StrictError.
Inductive t := VarUintOverflow | UnexpectedEof | NonCanonical.
End StrictError.

Inductive ReadModeError :=
| Legacy (e : Error.t)
| Strict (e : StrictError.t).

(** [while num > 0]: ten groups hold 64 bits. *)
Fixpoint write_loop (fuel : nat) (num : Z) (output : bytes) : bytes :=
  match fuel with
  | O => output
  | S fuel =>
      if 0 <? num then write_loop fuel (num / 128) (output ++ [Z.lor (Z.land num 0x7F mod 2 ^ 8) 0x80])
      else output
  end.
Definition write (cursor : Cursor) (num : Z) : Cursor :=
  let output := [Z.land (num mod 2 ^ 8) 0x7F] in
  let output := write_loop 10 (num / 128) output in
  write_all (reverse output) cursor.

Definition encode_to_vec (num : Z) : bytes := get_ref (write (Cursor_new []) num).

(** The bytes that are left, and fuel for a loop that reads one in every turn. *)
Definition bytes_left (c : Cursor) : bytes := drop (Z.to_nat (position c)) (get_ref c).
Definition fuel (c : Cursor) : nat := S (length (bytes_left c)).

Definition u64_MAX : Z := 2 ^ 64 - 1.

Fixpoint read_loop (fuel : nat) (strict : bool) (start : Z) (output : Z) : comp ReadModeError Cursor Z :=
  match fuel with
  | O => unfinished
  | S fuel =>
      byte ← read_byte (if strict then Strict StrictError.UnexpectedEof else Legacy Error.UnexpectedEof);
      let output := Z.lor (Z.shiftl output 7 mod 2 ^ 128) (Z.land byte 0x7F) in
      if u64_MAX <? output then
        if strict then throw (Strict StrictError.VarUintOverflow) else mret u64_MAX
      else if Z.land byte 0x80 =? 0 then
        let output := output mod 2 ^ 64 in
        if strict then
          cursor ← get;
          let consumed := take (Z.to_nat (position cursor - start)) (drop (Z.to_nat start) (get_ref cursor)) in
          let canonical := encode_to_vec output in
          if decide (consumed = canonical) then mret output else throw (Strict StrictError.NonCanonical)
        else mret output
      else read_loop fuel strict start output
  end.
Definition read_inner (strict : bool) : comp ReadModeError Cursor Z :=
  cursor ← get;
  let start := position cursor in
  read_loop (fuel cursor) strict start 0.

(** A legacy read reports no strict error [NonCanonical]: the code is unreachable. *)
Definition read : comp Error.t Cursor Z := fun cursor =>
  match read_inner false cursor with
  | Returned (Ok x) c => Returned (Ok x) c
  | Returned (Err (Legacy err)) c => Returned (Err err) c
  | Returned (Err (Strict StrictError.VarUintOverflow)) c => Returned (Err Error.VarUintOverflow) c
  | Returned (Err (Strict StrictError.UnexpectedEof)) c => Returned (Err Error.UnexpectedEof) c
  | Returned (Err (Strict StrictError.NonCanonical)) _ => Panicked
  | Panicked => Panicked
  | Unfinished => Unfinished
  end.

Definition read_strict : comp StrictError.t Cursor Z :=
  map_err (fun e =>
    match e with
    | Legacy Error.VarUintOverflow => StrictError.VarUintOverflow
    | Legacy Error.UnexpectedEof => StrictError.UnexpectedEof
    | Strict err => err
    end) (read_inner true).
End varuint.

(** ** What variable-length integers stand for

    A cursor stands for the bytes that are left; the groups of a number are read
    back as that number. *)

Import varuint.

(** The groups of seven bits, the high ones first. *)
Definition take_group (acc g : Z) : Z := acc * 128 + g mod 128.
Definition value_of (gs : bytes) : Z := foldl take_group 0 gs.

Definition marked (g : Z) : Prop := in_u 8 g /\ 128 <= g.

(** The cursor is within its buffer of bytes. *)
Record in_bounds (c : Cursor) : Prop := {
  ib_position : 0 <= position c <= Z.of_nat (length (get_ref c));
  ib_bytes : Forall (in_u 8) (get_ref c)
}.

(** [n] bytes further. *)
Definition skip (n : nat) (c : Cursor) : Cursor :=
  {| get_ref := get_ref c; position := position c + Z.of_nat n |}.

Lemma length_bytes_left c :
  in_bounds c -> Z.of_nat (length (bytes_left c)) = Z.of_nat (length (get_ref c)) - position c.
Proof. intros [Hp _]. unfold bytes_left. rewrite length_drop. lia. Qed.

Lemma skip_left n c : in_bounds c -> bytes_left (skip n c) = drop n (bytes_left c).
Proof.
  intros [Hp _]. unfold bytes_left. simpl. rewrite drop_drop. f_equal. lia.
Qed.

Lemma skip_in_bounds n c : in_bounds c -> (n <= length (bytes_left c))%nat -> in_bounds (skip n c).
Proof.
  intros Hc Hn. pose proof (length_bytes_left c Hc). destruct Hc as [Hp Hb]. split; [simpl; lia|done].
Qed.

Lemma skip_skip n m c : skip n (skip m c) = skip (m + n) c.
Proof. unfold skip. simpl. f_equal. lia. Qed.

Lemma skip_0 c : skip 0 c = c.
Proof. unfold skip. destruct c. simpl. f_equal. lia. Qed.

(** ** Writing *)

(** The groups but the last, the low ones first. *)
Fixpoint digits (fuel : nat) (num : Z) : bytes :=
  match fuel with
  | O => []
  | S fuel => if 0 <? num then num mod 128 + 128 :: digits fuel (num / 128) else []
  end.

Definition groups (num : Z) : bytes := reverse (digits 10 (num / 128)) ++ [num mod 128].

Lemma group_mask num : Z.land (num mod 2 ^ 8) 0x7F = num mod 128.
Proof.
  change 0x7F with (Z.ones 7). rewrite Z.land_ones by lia. change (2 ^ 7) with 128. change (2 ^ 8) with (128 * 2).
  rewrite Z.rem_mul_r, Z.mul_comm, Z.mod_add, Z.mod_mod by lia. done.
Qed.

Lemma write_loop_digits fuel num out : write_loop fuel num out = out ++ digits fuel num.
Proof.
  revert num out; induction fuel as [|fuel IH]; intros num out; cbn [write_loop digits]; [by rewrite app_nil_r|].
  destruct (0 <? num); [|by rewrite app_nil_r]. rewrite IH, <- app_assoc.
  change 0x7F with (Z.ones 7). rewrite Z.land_ones by lia. change (2 ^ 7) with 128.
  pose proof (Z.mod_pos_bound num 128). rewrite (Z.mod_small (num mod 128)) by lia.
  change 128 with (Z.shiftl 1 7) at 2. rewrite (lor_shiftl (num mod 128) 1 7) by (unfold in_u; lia). done.
Qed.

Lemma write_groups c num :
  position c = Z.of_nat (length (get_ref c)) ->
  write c num = {| get_ref := get_ref c ++ groups num; position := Z.of_nat (length (get_ref c ++ groups num)) |}.
Proof.
  intros Hp. unfold write. rewrite write_loop_digits. cbn [app]. rewrite reverse_cons, group_mask. fold (groups num).
  unfold write_all. rewrite Hp, Nat2Z.id, take_ge, Nat.sub_diag by lia. rewrite drop_ge by lia. simpl.
  rewrite app_nil_r, length_app. f_equal. lia.
Qed.

Lemma encode_to_vec_groups num : encode_to_vec num = groups num.
Proof. unfold encode_to_vec. by rewrite write_groups. Qed.

Lemma foldl_digits fuel num :
  0 <= num < 128 ^ Z.of_nat fuel -> foldl take_group 0 (reverse (digits fuel num)) = num.
Proof.
  revert num; induction fuel as [|fuel IH]; intros num Hn; cbn [digits]; [simpl in *; lia|].
  rewrite Nat2Z.inj_succ, Z.pow_succ_r in Hn by lia. destruct (Z.ltb_spec 0 num); [|simpl; lia].
  rewrite reverse_cons, foldl_app, IH.
  - cbn [foldl]. unfold take_group. replace ((num mod 128 + 128) mod 128) with (num mod 128).
    + pose proof (Z.div_mod num 128). lia.
    + apply (Z.mod_unique_pos _ _ 1); [apply Z.mod_pos_bound; lia|lia].
  - split; [apply Z.div_pos; lia|apply Z.div_lt_upper_bound; lia].
Qed.

Lemma digits_marked fuel num : Forall marked (digits fuel num).
Proof.
  revert num; induction fuel as [|fuel IH]; intros num; cbn [digits]; [done|]. destruct (0 <? num); [|done].
  constructor; [|done]. pose proof (Z.mod_pos_bound num 128). unfold marked, in_u. lia.
Qed.

Lemma groups_written num :
  in_u 64 num ->
  exists gs g, groups num = gs ++ [g] /\ Forall marked gs /\ in_u 8 g /\ g < 128 /\ value_of (gs ++ [g]) = num.
Proof.
  intros [H0 H1]. exists (reverse (digits 10 (num / 128))), (num mod 128). pose proof (Z.mod_pos_bound num 128).
  split_and!; [done|apply Forall_reverse, digits_marked|unfold in_u; lia|lia|].
  unfold value_of. rewrite foldl_app, foldl_digits.
  - cbn [foldl]. unfold take_group. rewrite Z.mod_mod by lia. pose proof (Z.div_mod num 128). lia.
  - split; [apply Z.div_pos; lia|]. apply Z.div_lt_upper_bound; [lia|]. eapply Z.lt_trans; [exact H1|done].
Qed.

Lemma groups_bytes num : in_u 64 num -> Forall (in_u 8) (groups num).
Proof.
  intros Hn. destruct (groups_written num Hn) as (gs & g & -> & Hgs & Hg & _). apply Forall_app. split; [|by constructor].
  eapply Forall_impl; [exact Hgs|]. by intros ? [].
Qed.

(** ** Reading *)
Lemma read_byte_cons {E} (e : E) c b l :
  in_bounds c -> bytes_left c = b :: l -> read_byte e c = Returned (Ok b) (skip 1 c).
Proof.
  intros [Hp _] Hl. unfold read_byte.
  replace (get_ref c !! Z.to_nat (position c)) with (Some b); [done|].
  rewrite <- (Nat.add_0_r (Z.to_nat (position c))), <- lookup_drop. unfold bytes_left in Hl. by rewrite Hl.
Qed.

Lemma read_byte_nil {E} (e : E) c : in_bounds c -> bytes_left c = [] -> read_byte e c = Returned (Err e) c.
Proof.
  intros Hc Hl. pose proof (length_bytes_left c Hc) as Hlen. rewrite Hl in Hlen. simpl in Hlen. destruct Hc as [Hp _].
  unfold read_byte. rewrite lookup_ge_None_2 by lia. destruct c; simpl in *. do 2 f_equal. lia.
Qed.

Lemma output_step output byte :
  in_u 64 output -> in_u 8 byte ->
  Z.lor (Z.shiftl output 7 mod 2 ^ 128) (Z.land byte 0x7F) = take_group output byte.
Proof.
  intros [Ho0 Ho1] _. change 0x7F with (Z.ones 7). rewrite Z.land_ones by lia. change (2 ^ 7) with 128.
  rewrite Z.mod_small by (rewrite Z.shiftl_mul_pow2 by lia; split; [lia|]; simpl in *; lia).
  rewrite Z.lor_comm, lor_shiftl; [unfold take_group; lia|lia|]. apply Z.mod_pos_bound. lia.
Qed.

Lemma byte_mark byte : in_u 8 byte -> (Z.land byte 0x80 =? 0) = (byte <? 128).
Proof. intros Hb. destruct (byte_split byte Hb) as [_ ->]. by destruct (byte <? 128). Qed.

(** What the loop does, group by group. *)
Inductive scan := Value (v : Z) (n : nat) | Overflow (n : nat) | Ended.

Definition scan_more (s : scan) : scan :=
  match s with Value v n => Value v (S n) | Overflow n => Overflow (S n) | Ended => Ended end.

Fixpoint scan_groups (output : Z) (bs : bytes) : scan :=
  match bs with
  | [] => Ended
  | b :: bs =>
      let output := take_group output b in
      if u64_MAX <? output then Overflow 1
      else if b <? 128 then Value output 1
      else scan_more (scan_groups output bs)
  end.

(** What [read_inner] makes of it. *)
Definition read_result (strict : bool) (c : Cursor) (s : scan) : outcome ReadModeError Cursor Z :=
  match s with
  | Ended =>
      Returned (Err (if strict then Strict StrictError.UnexpectedEof else Legacy Error.UnexpectedEof))
        (skip (length (bytes_left c)) c)
  | Overflow n =>
      Returned (if strict then Err (Strict StrictError.VarUintOverflow) else Ok u64_MAX) (skip n c)
  | Value v n =>
      Returned (if strict then
                  if decide (take n (bytes_left c) = groups v) then Ok v else Err (Strict StrictError.NonCanonical)
                else Ok v) (skip n c)
  end.

Lemma scan_length output bs n v :
  scan_groups output bs = Value v n \/ scan_groups output bs = Overflow n -> (n <= length bs)%nat.
Proof.
  revert output n; induction bs as [|b bs IH]; intros output n; cbn [scan_groups length]; [by intros [|]|].
  destruct (u64_MAX <? take_group output b); [intros [|]; simplify_eq; lia|].
  destruct (b <? 128); [intros [|]; simplify_eq; lia|].
  destruct (scan_groups (take_group output b) bs) as [v' n'|n'|] eqn:Hs; intros [|]; simplify_eq/=;
    specialize (IH (take_group output b) n'); rewrite Hs in IH; specialize (IH ltac:(eauto)); lia.
Qed.

Definition scan_shift (k : nat) (s : scan) : scan :=
  match s with Value v n => Value v (k + n) | Overflow n => Overflow (k + n) | Ended => Ended end.

Lemma scan_shift_more k s : scan_shift k (scan_more s) = scan_shift (k + 1) s.
Proof. destruct s; simpl; f_equal; lia. Qed.

Lemma scan_shift_0 s : scan_shift 0 s = s.
Proof. by destruct s. Qed.

Lemma scan_more_shift k s : scan_more (scan_shift k s) = scan_shift (S k) s.
Proof. by destruct s. Qed.

Lemma read_loop_scan fuel strict c k output :
  in_bounds c -> (k <= length (bytes_left c))%nat -> (length (bytes_left c) - k < fuel)%nat -> in_u 64 output ->
  read_loop fuel strict (position c) output (skip k c) =
    read_result strict c (scan_shift k (scan_groups output (bytes_left (skip k c)))).
Proof.
  intros Hc. revert k output; induction fuel as [|fuel IH]; intros k output Hk Hf Ho; [lia|].
  pose proof (skip_in_bounds k c Hc Hk) as Hck. rewrite skip_left by done. cbn [read_loop]. unfold mbind at 1, comp_bind at 1.
  destruct (drop k (bytes_left c)) as [|byte l] eqn:Hl.
  - rewrite read_byte_nil by (done || by rewrite skip_left). cbn [scan_groups scan_shift read_result].
    assert (length (bytes_left c) = k) as ->; [|done].
    apply (f_equal length) in Hl. rewrite length_drop in Hl. simpl in Hl. lia.
  - assert (k < length (bytes_left c))%nat as Hlt.
    { apply (f_equal length) in Hl. rewrite length_drop in Hl. simpl in Hl. lia. }
    assert (in_u 8 byte) as Hb.
    { assert (Forall (in_u 8) (drop k (bytes_left c))) as Hall by (by apply Forall_drop, Forall_drop, ib_bytes).
      rewrite Hl in Hall. by inversion Hall. }
    rewrite (read_byte_cons _ _ byte l) by (done || by rewrite skip_left). rewrite skip_skip.
    cbv zeta. rewrite output_step, byte_mark by done. cbn [scan_groups].
    destruct (Z.ltb_spec u64_MAX (take_group output byte)) as [Hov|Hok].
    { cbn [scan_shift read_result]. by destruct strict. }
    assert (in_u 64 (take_group output byte)) as Ho'.
    { unfold u64_MAX, take_group, in_u in *. pose proof (Z.mod_pos_bound byte 128). lia. }
    destruct (byte <? 128).
    + cbn [scan_shift read_result]. rewrite Z.mod_small by apply Ho'. destruct strict; [|done].
      unfold mbind, comp_bind, get, mret, comp_ret, throw. simpl.
      replace (Z.to_nat (position c + Z.of_nat (k + 1) - position c)) with (k + 1)%nat by lia.
      fold (bytes_left c). rewrite encode_to_vec_groups. by destruct (decide (_ = groups _)).
    + rewrite IH by (lia || done). rewrite skip_left, <- drop_drop, Hl by done. cbn [drop].
      by rewrite scan_shift_more.
Qed.

Lemma read_inner_scan strict c :
  in_bounds c -> read_inner strict c = read_result strict c (scan_groups 0 (bytes_left c)).
Proof.
  intros Hc. pose proof (read_loop_scan (fuel c) strict c 0 0 Hc) as Hr. rewrite skip_0 in Hr.
  unfold read_inner, mbind, comp_bind, get. rewrite Hr; [|lia|unfold fuel; lia|done].
  f_equal. by destruct (scan_groups 0 (bytes_left c)).
Qed.

(** ** What the scan finds *)
Lemma value_snoc gs g : value_of (gs ++ [g]) = take_group (value_of gs) g.
Proof. unfold value_of. by rewrite foldl_app. Qed.

Lemma take_group_mono a b g : a <= b -> take_group a g <= take_group b g.
Proof. unfold take_group. lia. Qed.

Lemma foldl_group_ge acc gs : 0 <= acc -> acc <= foldl take_group acc gs.
Proof.
  revert acc; induction gs as [|g gs IH]; intros acc Ha; simpl; [lia|].
  pose proof (Z.mod_pos_bound g 128 ltac:(lia)) as Hm.
  assert (acc <= take_group acc g) by (unfold take_group; lia). specialize (IH (take_group acc g) ltac:(lia)). lia.
Qed.

Lemma scan_marked output gs g l :
  0 <= output -> Forall marked gs -> foldl take_group output gs <= u64_MAX ->
  scan_groups output (gs ++ g :: l) = scan_shift (length gs)
    (let v := take_group (foldl take_group output gs) g in
     if u64_MAX <? v then Overflow 1 else if g <? 128 then Value v 1
     else scan_more (scan_groups v l)).
Proof.
  intros Ho Hgs. revert output Ho; induction Hgs as [|x gs [Hx Hm] _ IH]; intros output Ho Hv.
  - by rewrite scan_shift_0.
  - cbn [app scan_groups foldl length] in *.
    assert (0 <= take_group output x) as Ho' by (unfold take_group; pose proof (Z.mod_pos_bound x 128); lia).
    pose proof (foldl_group_ge (take_group output x) gs Ho').
    rewrite (proj2 (Z.ltb_ge u64_MAX _)), (proj2 (Z.ltb_ge x 128)) by lia. rewrite IH by done.
    apply scan_more_shift.
Qed.

Lemma value_of_nonneg gs : 0 <= value_of gs.
Proof. by apply foldl_group_ge. Qed.

(** Groups that are marked up to the last, and whose value fits, are a value. *)
Lemma scan_value gs g l :
  Forall marked gs -> g < 128 -> value_of (gs ++ [g]) <= u64_MAX ->
  scan_groups 0 (gs ++ g :: l) = Value (value_of (gs ++ [g])) (S (length gs)).
Proof.
  intros Hgs Hg Hv. rewrite value_snoc in *. fold (value_of gs) in *. pose proof (value_of_nonneg gs).
  rewrite scan_marked; [|done|done|].
  - fold (value_of gs). cbv zeta. rewrite (proj2 (Z.ltb_ge u64_MAX _)), (proj2 (Z.ltb_lt g 128)) by lia.
    simpl. f_equal. lia.
  - fold (value_of gs). unfold take_group in Hv. pose proof (Z.mod_pos_bound g 128). lia.
Qed.

(** Whatever the bytes, the scan is one of these. *)
Definition scan_means (bs : bytes) (s : scan) : Prop :=
  match s with
  | Value v n => exists gs g, take n bs = gs ++ [g] /\ Forall marked gs /\ g < 128 /\ v = value_of (gs ++ [g]) /\ v <= u64_MAX
  | Overflow n => exists gs g, take n bs = gs ++ [g] /\ Forall marked gs /\ value_of gs <= u64_MAX < value_of (gs ++ [g])
  | Ended => Forall marked bs /\ value_of bs <= u64_MAX
  end.

Lemma scan_groups_means bs : Forall (in_u 8) bs -> scan_means bs (scan_groups 0 bs).
Proof.
  intros Hbs.
  assert (forall pre l, bs = pre ++ l -> Forall marked pre -> value_of pre <= u64_MAX ->
    scan_means bs (scan_shift (length pre) (scan_groups (value_of pre) l))) as Hall.
  { intros pre l. revert pre; induction l as [|g l IH]; intros pre -> Hpre Hv; cbn [scan_groups].
    - rewrite app_nil_r in *. done.
    - assert (take (length pre + 1) (pre ++ g :: l) = pre ++ [g]) as Htake.
      { by rewrite take_app_add. }
      rewrite <- value_snoc. destruct (Z.ltb_spec u64_MAX (value_of (pre ++ [g]))).
      { cbn. rewrite Htake. eauto 10. }
      destruct (Z.ltb_spec g 128); [cbn; rewrite Htake; eauto 10|].
      rewrite scan_shift_more. replace (length pre + 1)%nat with (length (pre ++ [g])) by (rewrite length_app; done).
      apply IH; [by rewrite <- app_assoc| |done]. apply Forall_app. split; [done|]. constructor; [|done].
      apply Forall_app in Hbs as [_ Hgl]. inversion Hgl. by split. }
  specialize (Hall [] bs eq_refl ltac:(constructor) ltac:(done)).
  cbn [length] in Hall. by rewrite scan_shift_0 in Hall.
Qed.

(** ** Reading integers *)

(** A strict read gives exactly the canonical groups. *)
Lemma read_strict_iff c v c' :
  in_bounds c ->
  (read_strict c = Returned (Ok v) c' <->
   in_u 64 v /\ bytes_left c = groups v ++ bytes_left c' /\ c' = skip (length (groups v)) c).
Proof.
  intros Hc. unfold read_strict, map_err. rewrite read_inner_scan by done.
  assert (Forall (in_u 8) (bytes_left c)) as Hb by (by apply Forall_drop, ib_bytes).
  split.
  - pose proof (scan_groups_means _ Hb) as Hm. pose proof (scan_length 0 (bytes_left c)) as Hn.
    destruct (scan_groups 0 (bytes_left c)) as [w n|n|]; cbn [read_result]; try done.
    destruct (decide (take n (bytes_left c) = groups w)) as [Ht|]; [|done]. intros [= <- <-].
    destruct Hm as (gs & g & Hgs & _ & _ & -> & Hmax). specialize (Hn n _ (or_introl eq_refl)).
    pose proof (value_of_nonneg (gs ++ [g])). split_and!; [unfold in_u, u64_MAX in *; lia| |].
    + by rewrite <- Ht, skip_left, take_drop.
    + by rewrite <- Ht, length_take, Nat.min_l by done.
  - intros (Hv & Hl & ->). destruct (groups_written v Hv) as (gs & g & Hg & Hgs & _ & Hlt & Hval).
    assert (bytes_left c = gs ++ g :: bytes_left (skip (length (groups v)) c)) as Hl'
      by (by rewrite Hl at 1; rewrite Hg, <- app_assoc).
    rewrite Hl', scan_value by (done || (unfold in_u, u64_MAX in *; lia)). rewrite Hval. cbn [read_result].
    assert (S (length gs) = length (groups v)) as -> by (rewrite Hg, length_app; simpl; lia).
    rewrite decide_True; [done|]. rewrite Hl. apply take_app_length.
Qed.

(** A legacy read of them gives the same. *)
Lemma read_groups c v l :
  in_bounds c -> in_u 64 v -> bytes_left c = groups v ++ l ->
  read c = Returned (Ok v) (skip (length (groups v)) c).
Proof.
  intros Hc Hv Hl. unfold read. rewrite read_inner_scan by done.
  destruct (groups_written v Hv) as (gs & g & Hg & Hgs & _ & Hlt & Hval).
  rewrite Hl, Hg, <- app_assoc. cbn [app]. rewrite scan_value by (done || (unfold in_u, u64_MAX in *; lia)).
  rewrite Hval. cbn [read_result]. do 2 f_equal. rewrite length_app. simpl. lia.
Qed.

(** A legacy read of any bytes: the value of the groups up to the first that is not
    marked; the largest integer as soon as the value is larger; or an error at the
    end of the bytes. *)
Definition read_means (c : Cursor) (o : outcome Error.t Cursor Z) : Prop :=
  match o with
  | Returned (Ok v) c' => in_bounds c' /\ exists gs g,
      bytes_left c = (gs ++ [g]) ++ bytes_left c' /\ Forall marked gs /\ value_of gs <= u64_MAX /\
      v = Z.min (value_of (gs ++ [g])) u64_MAX /\ (g < 128 \/ u64_MAX < value_of (gs ++ [g]))
  | Returned (Err e) c' => e = Error.UnexpectedEof /\ Forall marked (bytes_left c) /\ value_of (bytes_left c) <= u64_MAX /\
      bytes_left c' = []
  | Panicked | Unfinished => False
  end.

Lemma read_any c : in_bounds c -> read_means c (read c).
Proof.
  intros Hc. assert (Forall (in_u 8) (bytes_left c)) as Hb by (by apply Forall_drop, ib_bytes).
  pose proof (scan_groups_means _ Hb) as Hm. pose proof (scan_length 0 (bytes_left c)) as Hn.
  unfold read. rewrite read_inner_scan by done.
  destruct (scan_groups 0 (bytes_left c)) as [w n|n|]; cbn [read_result read_means].
  - destruct Hm as (gs & g & Hgs & Hmk & Hlt & -> & Hmax). specialize (Hn n _ (or_introl eq_refl)).
    split; [by apply skip_in_bounds|]. exists gs, g.
    split_and!; [by rewrite <- Hgs, skip_left, take_drop|done| |lia|by left].
    rewrite value_snoc in Hmax. unfold take_group in Hmax. pose proof (Z.mod_pos_bound g 128). pose proof (value_of_nonneg gs). lia.
  - destruct Hm as (gs & g & Hgs & Hmk & Hle & Hgt). specialize (Hn n 0 (or_intror eq_refl)).
    split; [by apply skip_in_bounds|]. exists gs, g.
    split_and!; [by rewrite <- Hgs, skip_left, take_drop|done|done|lia|by right].
  - destruct Hm as [Hmk Hle]. split_and!; [done|done|done|]. by rewrite skip_left, drop_all.
Qed.
