(* ===== verification/Address.v ===== *)
(** * Addresses

    [pallas-addresses/src/lib.rs]: the parts of Shelley and stake addresses, parsing
    the bytes of an address and writing them, and the textual forms.  The crates
    bech32, base58 and hex and the codec that minicbor derives for Byron addresses
    ([byron.rs]) are parameters.  A hash is the list of its bytes. *)
From S2P Require Import Prelude Cbor Effects Varuint.

(** ** Parameters *)

(** The three text encodings; [None] is a failure. *)
Class TextCodecs := {
  bech32_encode : string -> bytes -> option string;
  bech32_decode : string -> result string (string * bytes);
  to_base58 : bytes -> string;
  from_base58_text : string -> result string bytes;
  hex_encode : bytes -> string;
  hex_decode : string -> option bytes
}.

(** [byron.rs]: the payload is the byte string under tag 24. *)
Record ByronAddress := { byron_payload : bytes; byron_crc : Z }.

(** The derived codec. *)
Class ByronCodec := {
  ByronAddress_encode :: Encode ByronAddress;
  ByronAddress_decode :: Decode ByronAddress
}.

(** The human-readable parts the code has. *)
Definition hrps : list string :=
  ["addr"; "addr_test"; "stake"; "stake_test"; "addr_vkh"; "addr_shared_vkh"; "stake_vkh"; "stake_shared_vkh"]%string.

(** What is relied on: the text of bytes is read back; bech32 has room for every
    address (62 bytes at most). *)
Class TextLaws `{TextCodecs} : Prop := {
  bech32_text hrp b : hrp ∈ hrps -> (length b <= 62)%nat -> Forall (in_u 8) b ->
    exists s, bech32_encode hrp b = Some s /\ bech32_decode s = Ok (hrp, b);
  base58_text b : Forall (in_u 8) b -> from_base58_text (to_base58 b) = Ok b;
  hex_text b : Forall (in_u 8) b -> hex_decode (hex_encode b) = Some b
}.

Definition byron_valid (a : ByronAddress) : Prop :=
  fits_len (byron_payload a) /\ Forall (in_u 8) (byron_payload a) /\ in_u 32 (byron_crc a).

(** The derived codec writes an array of the two fields, and reads it back. *)
Class ByronLaws `{ByronCodec} : Prop := {
  byron_parses a : byron_valid a -> Parses decode (encode a) a;
  byron_written a : byron_valid a -> exists r, encode a = Some (0x82 :: r) /\ Forall (in_u 8) r
}.

(** The errors of other crates are the messages they print. *)
Module Error.
Inductive t :=
| BadBech32 (e : string)
| BadBase58 (e : string)
| BadHex
| UnknownStringFormat (s : string)
| MissingHeader
| InvalidHeader (header : Z)
| InvalidForByron
| InvalidForContent
| InvalidByronCbor (e : decode_error)
| UnknownNetworkHrp (id : Z)
| InvalidHashSize (n : Z)
| InvalidAddressLength (n : Z)
| InvalidPointerData
| VarUintError (e : varuint.Error.t).
End Error.

Definition slice_to_hash (slice : bytes) : result Error.t bytes :=
  if (length slice =? 28)%nat then Ok slice else Err (Error.InvalidHashSize (Z.of_nat (length slice))).

(** ** Pointers *)
Module Pointer.
Record t := { slot : Z; tx_idx : Z; cert_idx : Z }.

Module StrictError.
Inductive t := VarUintError (e : varuint.StrictError.t) | TrailingBytes.
End StrictError.

Definition parse_parts : comp Error.t Cursor t :=
  a ← map_err Error.VarUintError varuint.read;
  b ← map_err Error.VarUintError varuint.read;
  c ← map_err Error.VarUintError varuint.read;
  mret {| slot := a; tx_idx := b; cert_idx := c |}.
Definition parse (bytes : bytes) : comp Error.t () t := locally parse_parts (Cursor_new bytes).

Definition parse_strict_parts (bytes : bytes) : comp StrictError.t Cursor t :=
  a ← map_err StrictError.VarUintError varuint.read_strict;
  b ← map_err StrictError.VarUintError varuint.read_strict;
  c ← map_err StrictError.VarUintError varuint.read_strict;
  cursor ← get;
  if negb (position cursor =? Z.of_nat (length bytes)) then throw StrictError.TrailingBytes
  else mret {| slot := a; tx_idx := b; cert_idx := c |}.
Definition parse_strict (bytes : bytes) : comp StrictError.t () t :=
  locally (parse_strict_parts bytes) (Cursor_new bytes).

Definition to_vec (p : t) : bytes :=
  let cursor := Cursor_new [] in
  let cursor := varuint.write cursor (slot p) in
  let cursor := varuint.write cursor (tx_idx p) in
  let cursor := varuint.write cursor (cert_idx p) in
  get_ref cursor.
End Pointer.

(** ** The parts of addresses *)
Module ShelleyPaymentPart.
Inductive t := Key (h : bytes) | Script (h : bytes).

Definition key_hash (hash : bytes) : t := Key hash.
Definition script_hash (hash : bytes) : t := Script hash.
Definition as_hash (p : t) : bytes := match p with Key x => x | Script x => x end.
Definition to_vec (p : t) : bytes := match p with Key x => x | Script x => x end.
Definition is_script (p : t) : bool := match p with Script _ => true | _ => false end.
End ShelleyPaymentPart.

Module ShelleyDelegationPart.
Inductive t := Key (h : bytes) | Script (h : bytes) | Pointer (p : Pointer.t) | Null.

Definition key_hash (hash : bytes) : t := Key hash.
Definition script_hash (hash : bytes) : t := Script hash.
Definition from_pointer (bytes : bytes) : comp Error.t () t :=
  pointer ← Pointer.parse bytes;
  mret (Pointer pointer).
Definition as_hash (p : t) : option bytes :=
  match p with Key x => Some x | Script x => Some x | Pointer _ => None | Null => None end.
Definition to_vec (p : t) : bytes :=
  match p with Key x => x | Script x => x | Pointer x => Pointer.to_vec x | Null => [] end.
Definition is_script (p : t) : bool := match p with Script _ => true | _ => false end.
End ShelleyDelegationPart.

Module StakePayload.
Inductive t := Stake (h : bytes) | Script (h : bytes).

Definition stake_key (bytes : bytes) : result Error.t t := Stake <$> slice_to_hash bytes.
Definition script (bytes : bytes) : result Error.t t := Script <$> slice_to_hash bytes.
Definition is_script (p : t) : bool := match p with Script _ => true | _ => false end.
Definition as_hash (p : t) : bytes := match p with Stake x => x | Script x => x end.
Definition as_ref (p : t) : bytes := match p with Stake x => x | Script x => x end.
End StakePayload.

Module Network.
Inductive t := Testnet | Mainnet | Other (id : Z).

Definition from (id : Z) : t := match id with 0 => Testnet | 1 => Mainnet | x => Other x end.
Definition is_mainnet (n : t) : bool := match n with Mainnet => true | _ => false end.
Definition value (n : t) : Z := match n with Testnet => 0 | Mainnet => 1 | Other x => x end.
End Network.

Definition parse_network (header : Z) : Network.t :=
  let masked := Z.land header 15 in
  match masked with
  | 0 => Network.Testnet
  | 1 => Network.Mainnet
  | _ => Network.Other masked
  end.

(** [type_id << 4 | network] on [u8]: the shift keeps the low bits. *)
Definition header_byte (typeid network : Z) : Z := Z.lor (Z.land (Z.shiftl typeid 4) 255) network.

Section text.
Context `{TextCodecs}.

(** The two [expect]s are one: [None] is the panic. *)
Definition encode_bech32 (addr : bytes) (hrp : string) : option string := bech32_encode hrp addr.

Definition decode_bech32 (bech32 : string) : result Error.t (string * bytes) :=
  match bech32_decode bech32 with
  | Ok (hrp, addr) => Ok (hrp, addr)
  | Err e => Err (Error.BadBech32 e)
  end.

Definition payment_to_hex (p : ShelleyPaymentPart.t) : string := hex_encode (ShelleyPaymentPart.to_vec p).
Definition payment_to_bech32 (p : ShelleyPaymentPart.t) : option string :=
  let hrp := match p with ShelleyPaymentPart.Key _ => "addr_vkh" | ShelleyPaymentPart.Script _ => "addr_shared_vkh" end%string in
  encode_bech32 (ShelleyPaymentPart.to_vec p) hrp.

Definition delegation_to_hex (p : ShelleyDelegationPart.t) : string := hex_encode (ShelleyDelegationPart.to_vec p).
Definition delegation_to_bech32 (p : ShelleyDelegationPart.t) : comp Error.t () string :=
  hrp ← match p with
        | ShelleyDelegationPart.Key _ => mret "stake_vkh"%string
        | ShelleyDelegationPart.Script _ => mret "stake_shared_vkh"%string
        | _ => throw Error.InvalidForContent
        end;
  eval (encode_bech32 (ShelleyDelegationPart.to_vec p) hrp).
End text.

(** ** Shelley and stake addresses *)
Module ShelleyAddress.
Record t := new { network : Network.t; payment : ShelleyPaymentPart.t; delegation : ShelleyDelegationPart.t }.

Definition typeid (a : t) : Z :=
  match payment a, delegation a with
  | ShelleyPaymentPart.Key _, ShelleyDelegationPart.Key _ => 0
  | ShelleyPaymentPart.Script _, ShelleyDelegationPart.Key _ => 1
  | ShelleyPaymentPart.Key _, ShelleyDelegationPart.Script _ => 2
  | ShelleyPaymentPart.Script _, ShelleyDelegationPart.Script _ => 3
  | ShelleyPaymentPart.Key _, ShelleyDelegationPart.Pointer _ => 4
  | ShelleyPaymentPart.Script _, ShelleyDelegationPart.Pointer _ => 5
  | ShelleyPaymentPart.Key _, ShelleyDelegationPart.Null => 6
  | ShelleyPaymentPart.Script _, ShelleyDelegationPart.Null => 7
  end.

Definition to_header (a : t) : Z := header_byte (typeid a) (Network.value (network a)).

Definition hrp (a : t) : result Error.t string :=
  match network a with
  | Network.Testnet => Ok "addr_test"%string
  | Network.Mainnet => Ok "addr"%string
  | Network.Other x => Err (Error.UnknownNetworkHrp x)
  end.

Definition to_vec (a : t) : bytes :=
  let header := to_header a in
  let payment := ShelleyPaymentPart.to_vec (payment a) in
  let delegation := ShelleyDelegationPart.to_vec (delegation a) in
  [header] ++ payment ++ delegation.

Definition has_script (a : t) : bool :=
  ShelleyPaymentPart.is_script (payment a) || ShelleyDelegationPart.is_script (delegation a).

Section text.
Context `{TextCodecs}.

Definition to_hex (a : t) : string := hex_encode (to_vec a).
Definition to_bech32 (a : t) : comp Error.t () string :=
  hrp ← returns (hrp a);
  eval (encode_bech32 (to_vec a) hrp).
End text.
End ShelleyAddress.

Module StakeAddress.
Record t := new { network : Network.t; payload : StakePayload.t }.

Definition try_from (value : ShelleyAddress.t) : result Error.t t :=
  payload ← match ShelleyAddress.delegation value with
            | ShelleyDelegationPart.Key h => Ok (StakePayload.Stake h)
            | ShelleyDelegationPart.Script h => Ok (StakePayload.Script h)
            | _ => Err Error.InvalidForContent
            end;
  Ok (new (ShelleyAddress.network value) payload).

Definition typeid (a : t) : Z :=
  match payload a with StakePayload.Stake _ => 14 | StakePayload.Script _ => 15 end.

Definition to_header (a : t) : Z := header_byte (typeid a) (Network.value (network a)).

Definition hrp (a : t) : result Error.t string :=
  match network a with
  | Network.Testnet => Ok "stake_test"%string
  | Network.Mainnet => Ok "stake"%string
  | Network.Other x => Err (Error.UnknownNetworkHrp x)
  end.

Definition to_vec (a : t) : bytes := [to_header a] ++ StakePayload.as_ref (payload a).
Definition is_script (a : t) : bool := StakePayload.is_script (payload a).

Section text.
Context `{TextCodecs}.

Definition to_hex (a : t) : string := hex_encode (to_vec a).
Definition to_bech32 (a : t) : comp Error.t () string :=
  hrp ← returns (hrp a);
  eval (encode_bech32 (to_vec a) hrp).
End text.
End StakeAddress.

(** ** Addresses of any kind *)
Module Address.
Inductive t :=
| Byron (a : ByronAddress)
| Shelley (a : ShelleyAddress.t)
| Stake (a : StakeAddress.t).
End Address.

(** [&payload[first..=last]], which panics out of range. *)
Definition slice (b : bytes) (first last : nat) : comp Error.t () bytes :=
  eval (if (last <? length b)%nat then Some (take (S last - first) (drop first b)) else None).

Definition too_short {A} (payload : bytes) : comp Error.t () A :=
  throw (Error.InvalidAddressLength (Z.of_nat (length payload))).

(** The three forms of the macro [parse_shelley_fn]. *)
Definition parse_shelley_pointer (payment : bytes -> ShelleyPaymentPart.t) (header : Z) (payload : bytes) :
    comp Error.t () Address.t :=
  if (length payload <? 29)%nat then too_short payload
  else
    let net := parse_network header in
    s ← slice payload 0 27;
    h1 ← returns (slice_to_hash s);
    let p1 := payment h1 in
    p2 ← ShelleyDelegationPart.from_pointer (drop 28 payload);
    mret (Address.Shelley (ShelleyAddress.new net p1 p2)).

Definition parse_shelley_base (payment : bytes -> ShelleyPaymentPart.t) (delegation : bytes -> ShelleyDelegationPart.t)
    (header : Z) (payload : bytes) : comp Error.t () Address.t :=
  if (length payload <? 56)%nat then too_short payload
  else
    let net := parse_network header in
    s ← slice payload 0 27;
    h1 ← returns (slice_to_hash s);
    let p1 := payment h1 in
    s ← slice payload 28 55;
    h2 ← returns (slice_to_hash s);
    let p2 := delegation h2 in
    mret (Address.Shelley (ShelleyAddress.new net p1 p2)).

Definition parse_shelley_enterprise (payment : bytes -> ShelleyPaymentPart.t) (header : Z) (payload : bytes) :
    comp Error.t () Address.t :=
  if (length payload <? 28)%nat then too_short payload
  else
    let net := parse_network header in
    s ← slice payload 0 27;
    h1 ← returns (slice_to_hash s);
    let p1 := payment h1 in
    mret (Address.Shelley (ShelleyAddress.new net p1 ShelleyDelegationPart.Null)).

(** The macro [parse_stake_fn]. *)
Definition parse_stake (type : bytes -> result Error.t StakePayload.t) (header : Z) (payload : bytes) :
    comp Error.t () Address.t :=
  if (length payload <? 28)%nat then too_short payload
  else
    let net := parse_network header in
    s ← slice payload 0 27;
    p1 ← returns (type s);
    mret (Address.Stake (StakeAddress.new net p1)).

Definition parse_type_0 := parse_shelley_base ShelleyPaymentPart.key_hash ShelleyDelegationPart.key_hash.
Definition parse_type_1 := parse_shelley_base ShelleyPaymentPart.script_hash ShelleyDelegationPart.key_hash.
Definition parse_type_2 := parse_shelley_base ShelleyPaymentPart.key_hash ShelleyDelegationPart.script_hash.
Definition parse_type_3 := parse_shelley_base ShelleyPaymentPart.script_hash ShelleyDelegationPart.script_hash.
Definition parse_type_4 := parse_shelley_pointer ShelleyPaymentPart.key_hash.
Definition parse_type_5 := parse_shelley_pointer ShelleyPaymentPart.script_hash.
Definition parse_type_6 := parse_shelley_enterprise ShelleyPaymentPart.key_hash.
Definition parse_type_7 := parse_shelley_enterprise ShelleyPaymentPart.script_hash.
Definition parse_type_14 := parse_stake StakePayload.stake_key.
Definition parse_type_15 := parse_stake StakePayload.script.

Section byron.
Context `{ByronCodec}.

Definition byron_from_bytes (value : bytes) : result Error.t ByronAddress :=
  match from_slice value with Ok a => Ok a | Err e => Err (Error.InvalidByronCbor e) end.

(** The [unwrap] is the panic. *)
Definition byron_to_vec (a : ByronAddress) : option bytes := Cbor.to_vec a.

Definition byron_typeid (a : ByronAddress) : Z := 8.

Definition parse_type_8 (header : Z) (payload : bytes) : comp Error.t () Address.t :=
  let vec := [header] ++ payload in
  inner ← returns (byron_from_bytes vec);
  mret (Address.Byron inner).

Definition bytes_to_address (bytes : bytes) : comp Error.t () Address.t :=
  match bytes with
  | [] => throw Error.MissingHeader
  | header :: payload =>
      match Z.land header 0xF0 with
      | 0x00 => parse_type_0 header payload
      | 0x10 => parse_type_1 header payload
      | 0x20 => parse_type_2 header payload
      | 0x30 => parse_type_3 header payload
      | 0x40 => parse_type_4 header payload
      | 0x50 => parse_type_5 header payload
      | 0x60 => parse_type_6 header payload
      | 0x70 => parse_type_7 header payload
      | 0x80 => parse_type_8 header payload
      | 0xE0 => parse_type_14 header payload
      | 0xF0 => parse_type_15 header payload
      | _ => throw (Error.InvalidHeader header)
      end
  end.

(** *** The methods of [Address] *)
Definition from_bytes (bytes : bytes) : comp Error.t () Address.t := bytes_to_address bytes.

Definition to_vec (a : Address.t) : option bytes :=
  match a with
  | Address.Byron x => byron_to_vec x
  | Address.Shelley x => Some (ShelleyAddress.to_vec x)
  | Address.Stake x => Some (StakeAddress.to_vec x)
  end.

Definition network (a : Address.t) : option Network.t :=
  match a with
  | Address.Byron _ => None
  | Address.Shelley x => Some (ShelleyAddress.network x)
  | Address.Stake x => Some (StakeAddress.network x)
  end.

Definition typeid (a : Address.t) : Z :=
  match a with
  | Address.Byron x => byron_typeid x
  | Address.Shelley x => ShelleyAddress.typeid x
  | Address.Stake x => StakeAddress.typeid x
  end.

Definition hrp (a : Address.t) : result Error.t string :=
  match a with
  | Address.Byron _ => Err Error.InvalidForByron
  | Address.Shelley x => ShelleyAddress.hrp x
  | Address.Stake x => StakeAddress.hrp x
  end.

Definition has_script (a : Address.t) : bool :=
  match a with
  | Address.Byron _ => false
  | Address.Shelley x => ShelleyAddress.has_script x
  | Address.Stake x => StakeAddress.is_script x
  end.

Definition is_enterprise (a : Address.t) : bool :=
  match a with
  | Address.Shelley x => match ShelleyAddress.delegation x with ShelleyDelegationPart.Null => true | _ => false end
  | _ => false
  end.

Context `{TextCodecs}.

Definition byron_to_base58 (a : ByronAddress) : option string := to_base58 <$> byron_to_vec a.
Definition byron_to_hex (a : ByronAddress) : option string := hex_encode <$> byron_to_vec a.
Definition byron_from_base58 (value : string) : result Error.t ByronAddress :=
  bytes ← match from_base58_text value with Ok b => Ok b | Err e => Err (Error.BadBase58 e) end;
  byron_from_bytes bytes.

Definition bech32_to_address (bech32 : string) : comp Error.t () Address.t :=
  x ← returns (decode_bech32 bech32);
  bytes_to_address x.2.
Definition from_bech32 (bech32 : string) : comp Error.t () Address.t := bech32_to_address bech32.

Definition to_bech32 (a : Address.t) : comp Error.t () string :=
  match a with
  | Address.Byron _ => throw Error.InvalidForByron
  | Address.Shelley x => ShelleyAddress.to_bech32 x
  | Address.Stake x => StakeAddress.to_bech32 x
  end.

Definition from_hex (text : string) : comp Error.t () Address.t :=
  bytes ← returns (match hex_decode text with Some b => Ok b | None => Err Error.BadHex end);
  bytes_to_address bytes.

Definition to_hex (a : Address.t) : option string :=
  match a with
  | Address.Byron x => byron_to_hex x
  | Address.Shelley x => Some (ShelleyAddress.to_hex x)
  | Address.Stake x => Some (StakeAddress.to_hex x)
  end.

(** [unwrap_or_else] and [if let Ok(x)]: an error leads to another computation. *)
Definition or_else {E F A} (m : comp E () A) (k : comp F () A) : comp F () A := fun s =>
  match m s with
  | Returned (Ok a) s => Returned (Ok a) s
  | Returned (Err _) s => k s
  | Panicked => Panicked
  | Unfinished => Unfinished
  end.

(** [Display] *)
Definition fmt (a : Address.t) : comp Error.t () string :=
  match a with
  | Address.Byron x => eval (byron_to_base58 x)
  | Address.Shelley x => or_else (ShelleyAddress.to_bech32 x) (mret (ShelleyAddress.to_hex x))
  | Address.Stake x => or_else (StakeAddress.to_bech32 x) (mret (StakeAddress.to_hex x))
  end.

Definition from_str (s : string) : comp Error.t () Address.t :=
  or_else (from_bech32 s)
    (or_else (x ← returns (byron_from_base58 s); mret (Address.Byron x))
       (or_else (from_hex s) (throw (Error.UnknownStringFormat s)))).
End byron.
