(* ===== verification/AddressProps.v ===== *)
(** * Properties of addresses

    Pointers, headers and parts against their bytes, and what becomes of any bytes
    that are parsed as an address.  Then an implementation of the interfaces
    [TextCodecs] and [ByronCodec] with which the witnesses are evaluated; it models
    no code of the repository: hexadecimal digits stand in for the other two
    alphabets, and the derived codec of Byron addresses is the array of the two
    fields. *)
From S2P Require Import Prelude Cbor Rfc8949 Effects Varuint Address.
Import varuint(bytes_left).

(** ** Pointers *)
Definition pointer_valid (p : Pointer.t) : Prop :=
  in_u 64 (Pointer.slot p) /\ in_u 64 (Pointer.tx_idx p) /\ in_u 64 (Pointer.cert_idx p).

Lemma pointer_to_vec p :
  Pointer.to_vec p = groups (Pointer.slot p) ++ groups (Pointer.tx_idx p) ++ groups (Pointer.cert_idx p).
Proof.
  unfold Pointer.to_vec. rewrite (write_groups (Cursor_new [])) by done.
  rewrite (write_groups (Build_Cursor _ _)) by done. rewrite (write_groups (Build_Cursor _ _)) by done. simpl. by rewrite <- app_assoc.
Qed.

Lemma pointer_length p : (3 <= length (Pointer.to_vec p))%nat.
Proof. rewrite pointer_to_vec. unfold groups. rewrite !length_app. simpl. lia. Qed.

Lemma pointer_bytes p : pointer_valid p -> Forall (in_u 8) (Pointer.to_vec p).
Proof. intros (? & ? & ?). rewrite pointer_to_vec, !Forall_app. auto using groups_bytes. Qed.

Lemma Cursor_new_in_bounds b : Forall (in_u 8) b -> in_bounds (Cursor_new b).
Proof. intros Hb. split; [simpl; lia|done]. Qed.

Lemma map_err_yields {E F S A} (f : E -> F) (m : comp E S A) s a s' :
  m s = Returned (Ok a) s' -> yields (map_err f m) s a s'.
Proof. unfold yields, map_err. by intros ->. Qed.

(** Three groups one after the other. *)
Lemma skip_groups c v l :
  in_bounds c -> bytes_left c = groups v ++ l ->
  in_bounds (skip (length (groups v)) c) /\ bytes_left (skip (length (groups v)) c) = l.
Proof.
  intros Hc Hl. split; [apply skip_in_bounds; [done|rewrite Hl, length_app; lia]|].
  by rewrite skip_left, Hl, drop_app_length.
Qed.

Lemma pointer_parses p junk :
  pointer_valid p -> Forall (in_u 8) junk -> Pointer.parse (Pointer.to_vec p ++ junk) () = Returned (Ok p) ().
Proof.
  intros Hp Hj. assert (in_bounds (Cursor_new (Pointer.to_vec p ++ junk))) as Hc.
  { apply Cursor_new_in_bounds, Forall_app. split; [by apply pointer_bytes|done]. }
  assert (bytes_left (Cursor_new (Pointer.to_vec p ++ junk)) = Pointer.to_vec p ++ junk) as Hl by done.
  unfold Pointer.parse, locally, Pointer.parse_parts. set (c := Cursor_new (Pointer.to_vec p ++ junk)) in *.
  rewrite pointer_to_vec, <- !app_assoc in Hl. destruct Hp as (Ha & Hb & Hd).
  rewrite (bind_yields _ _ _ _ _ (map_err_yields Error.VarUintError _ _ _ _ (read_groups c _ _ Hc Ha Hl))).
  destruct (skip_groups c _ _ Hc Hl) as [Hc1 Hl1].
  rewrite (bind_yields _ _ _ _ _ (map_err_yields Error.VarUintError _ _ _ _ (read_groups _ _ _ Hc1 Hb Hl1))).
  destruct (skip_groups _ _ _ Hc1 Hl1) as [Hc2 Hl2].
  rewrite (bind_yields _ _ _ _ _ (map_err_yields Error.VarUintError _ _ _ _ (read_groups _ _ _ Hc2 Hd Hl2))).
  by destruct p.
Qed.

(** A step of a computation that returns a value. *)
Lemma bind_value {E S A B} (m : comp E S A) (k : A -> comp E S B) s b s' :
  (m ≫= k) s = Returned (Ok b) s' -> exists a s1, m s = Returned (Ok a) s1 /\ k a s1 = Returned (Ok b) s'.
Proof. unfold mbind, comp_bind. destruct (m s) as [[a|e] s1| |]; naive_solver. Qed.

Lemma map_err_value {E F S A} (f : E -> F) (m : comp E S A) s a s' :
  map_err f m s = Returned (Ok a) s' <-> m s = Returned (Ok a) s'.
Proof. unfold map_err. destruct (m s) as [[x|e] s1| |]; naive_solver. Qed.

Lemma locally_value {E S T A} (m : comp E S A) (s : S) (t t' : T) a :
  locally m s t = Returned (Ok a) t' <-> t' = t /\ exists s', m s = Returned (Ok a) s'.
Proof. unfold locally. destruct (m s) as [r s1| |]; naive_solver. Qed.

Lemma pointer_strict_iff b p :
  Forall (in_u 8) b ->
  Pointer.parse_strict b () = Returned (Ok p) () <-> pointer_valid p /\ b = Pointer.to_vec p.
Proof.
  intros Hb. pose proof (Cursor_new_in_bounds b Hb) as Hc. rewrite pointer_to_vec.
  unfold Pointer.parse_strict. rewrite locally_value. unfold Pointer.parse_strict_parts. split.
  - intros (_ & c' & Hrun).
    apply bind_value in Hrun as (x & c1 & H1%map_err_value & Hrun).
    apply read_strict_iff in H1 as (Hx & Hl1 & ->); [|done].
    destruct (skip_groups _ _ _ Hc Hl1) as [Hc1 _].
    apply bind_value in Hrun as (y & c2 & H2%map_err_value & Hrun).
    apply read_strict_iff in H2 as (Hy & Hl2 & ->); [|done].
    destruct (skip_groups _ _ _ Hc1 Hl2) as [Hc2 _].
    apply bind_value in Hrun as (z & c3 & H3%map_err_value & Hrun).
    apply read_strict_iff in H3 as (Hz & Hl3 & ->); [|done].
    destruct (skip_groups _ _ _ Hc2 Hl3) as [Hc3 _]. set (c3 := skip (length (groups z)) _) in *.
    unfold mbind, comp_bind, get in Hrun. destruct (Z.eqb_spec (position c3) (Z.of_nat (length b))) as [Hend|]; [|done].
    injection Hrun as <- <-. split; [done|]. cbn [Pointer.slot Pointer.tx_idx Pointer.cert_idx].
    change b with (bytes_left (Cursor_new b)) at 1. rewrite Hl1, Hl2, Hl3.
    pose proof (length_bytes_left c3 Hc3) as Hlen. simpl in Hlen. destruct (bytes_left c3); [by rewrite app_nil_r|].
    simpl in Hlen, Hend. lia.
  - intros ((Hx & Hy & Hz) & Heq). split; [done|]. eexists. assert (bytes_left (Cursor_new b) = b) as Hl by done. rewrite Heq in Hl at 2.
    pose proof (skip_groups _ _ _ Hc Hl) as [Hc1 Hl1]. pose proof (skip_groups _ _ _ Hc1 Hl1) as [Hc2 Hl2].
    rewrite <- (app_nil_r (groups (Pointer.cert_idx p))) in Hl2. pose proof (skip_groups _ _ _ Hc2 Hl2) as [Hc3 Hl3].
    assert (forall c v l, in_bounds c -> in_u 64 v -> bytes_left c = groups v ++ l ->
      varuint.read_strict c = Returned (Ok v) (skip (length (groups v)) c)) as Hread.
    { intros c v l Hcc Hv Hll. apply read_strict_iff; [done|]. destruct (skip_groups _ _ _ Hcc Hll) as [_ Hr]. by rewrite Hr. }
    rewrite (bind_yields _ _ _ _ _ (map_err_yields Pointer.StrictError.VarUintError _ _ _ _ (Hread _ _ _ Hc Hx Hl))).
    rewrite (bind_yields _ _ _ _ _ (map_err_yields Pointer.StrictError.VarUintError _ _ _ _ (Hread _ _ _ Hc1 Hy Hl1))).
    rewrite (bind_yields _ _ _ _ _ (map_err_yields Pointer.StrictError.VarUintError _ _ _ _ (Hread _ _ _ Hc2 Hz Hl2))).
    unfold mbind, comp_bind, get. pose proof (length_bytes_left _ Hc3) as Hlen. rewrite Hl3 in Hlen.
    cbn [get_ref skip Cursor_new length] in Hlen. rewrite (proj2 (Z.eqb_eq _ _)) by lia. by destruct p.
Qed.

(** ** Headers *)
Definition network_valid (n : Network.t) : Prop :=
  match n with Network.Other x => 2 <= x < 16 | _ => True end.

Lemma header_split t n :
  0 <= t < 16 -> 0 <= n < 16 ->
  header_byte t n = 16 * t + n /\ Z.land (header_byte t n) 0xF0 = 16 * t /\ Z.land (header_byte t n) 15 = n.
Proof.
  intros Ht Hn.
  assert (forallb (fun t => forallb (fun n => (header_byte t n =? 16 * t + n) &&
    (Z.land (header_byte t n) 0xF0 =? 16 * t) && (Z.land (header_byte t n) 15 =? n)) (seqZ 0 16)) (seqZ 0 16) = true) as Hall
    by reflexivity.
  rewrite forallb_forall in Hall. specialize (Hall t). rewrite <- list_elem_of_In, elem_of_seqZ in Hall. specialize (Hall Ht).
  rewrite forallb_forall in Hall. specialize (Hall n). rewrite <- list_elem_of_In, elem_of_seqZ in Hall. specialize (Hall Hn).
  rewrite !andb_true_iff, !Z.eqb_eq in Hall. tauto.
Qed.

Lemma network_value_range n : network_valid n -> 0 <= Network.value n < 16.
Proof. destruct n; simpl; lia. Qed.

Lemma parse_network_value n : network_valid n -> forall h, Z.land h 15 = Network.value n -> parse_network h = n.
Proof.
  intros Hn h Hh. unfold parse_network. rewrite Hh. destruct n as [| |x]; [done..|]. simpl in *.
  destruct x as [|[p|p|]|]; (done || lia).
Qed.

Lemma parse_network_valid h : network_valid (parse_network h).
Proof.
  unfold parse_network. change 15 with (Z.ones 4). rewrite Z.land_ones by lia. change (2 ^ 4) with 16.
  pose proof (Z.mod_pos_bound h 16). destruct (h mod 16) as [|[p|p|]|]; simpl; (done || lia).
Qed.

(** ** Parts *)
Definition hash_valid (h : bytes) : Prop := length h = 28%nat /\ Forall (in_u 8) h.

Definition payment_valid (p : ShelleyPaymentPart.t) : Prop := hash_valid (ShelleyPaymentPart.as_hash p).

Definition delegation_valid (p : ShelleyDelegationPart.t) : Prop :=
  match p with
  | ShelleyDelegationPart.Key h | ShelleyDelegationPart.Script h => hash_valid h
  | ShelleyDelegationPart.Pointer p => pointer_valid p
  | ShelleyDelegationPart.Null => True
  end.

Definition shelley_valid (a : ShelleyAddress.t) : Prop :=
  network_valid (ShelleyAddress.network a) /\ payment_valid (ShelleyAddress.payment a) /\
  delegation_valid (ShelleyAddress.delegation a).

Definition stake_valid (a : StakeAddress.t) : Prop :=
  network_valid (StakeAddress.network a) /\ hash_valid (StakePayload.as_hash (StakeAddress.payload a)).

Lemma slice_to_hash_ok h : length h = 28%nat -> slice_to_hash h = Ok h.
Proof. intros Hh. unfold slice_to_hash. by rewrite Hh. Qed.

(** The two hashes of a payload. *)
Lemma hash_slice n b :
  (n + 28 <= length b)%nat ->
  slice b n (n + 27) () = Returned (Ok (take 28 (drop n b))) () /\ slice_to_hash (take 28 (drop n b)) = Ok (take 28 (drop n b)).
Proof.
  intros Hl. split.
  - unfold slice, eval. rewrite (proj2 (Nat.ltb_lt _ _)) by lia. by replace (S (n + 27) - n)%nat with 28%nat by lia.
  - apply slice_to_hash_ok. rewrite length_take_le; [done|]. rewrite length_drop. lia.
Qed.

Lemma parse_base_ok payment delegation header payload :
  (56 <= length payload)%nat ->
  parse_shelley_base payment delegation header payload () =
    Returned (Ok (Address.Shelley (ShelleyAddress.new (parse_network header) (payment (take 28 payload))
                                     (delegation (take 28 (drop 28 payload)))))) ().
Proof.
  intros Hl. unfold parse_shelley_base. rewrite (proj2 (Nat.ltb_ge _ _)) by done. cbv zeta.
  destruct (hash_slice 0 payload) as [H1 Hh1]; [lia|]. destruct (hash_slice 28 payload) as [H2 Hh2]; [lia|].
  cbn [Nat.add] in H1, H2. rewrite drop_0 in H1, Hh1.
  unfold mbind, comp_bind, returns. by rewrite H1, Hh1, H2, Hh2.
Qed.

Lemma parse_enterprise_ok payment header payload :
  (28 <= length payload)%nat ->
  parse_shelley_enterprise payment header payload () =
    Returned (Ok (Address.Shelley (ShelleyAddress.new (parse_network header) (payment (take 28 payload))
                                     ShelleyDelegationPart.Null))) ().
Proof.
  intros Hl. unfold parse_shelley_enterprise. rewrite (proj2 (Nat.ltb_ge _ _)) by done. cbv zeta.
  destruct (hash_slice 0 payload) as [H1 Hh1]; [lia|]. cbn [Nat.add] in H1. rewrite drop_0 in H1, Hh1.
  unfold mbind, comp_bind, returns. by rewrite H1, Hh1.
Qed.

Lemma parse_stake_ok type header payload p :
  (28 <= length payload)%nat -> type (take 28 payload) = Ok p ->
  parse_stake type header payload () =
    Returned (Ok (Address.Stake (StakeAddress.new (parse_network header) p))) ().
Proof.
  intros Hl Hp. unfold parse_stake. rewrite (proj2 (Nat.ltb_ge _ _)) by done. cbv zeta.
  destruct (hash_slice 0 payload) as [H1 _]; [lia|]. cbn [Nat.add] in H1. rewrite drop_0 in H1.
  unfold mbind, comp_bind, returns. by rewrite H1, Hp.
Qed.

Lemma parse_pointer_eq payment header payload :
  (29 <= length payload)%nat ->
  parse_shelley_pointer payment header payload () =
    match Pointer.parse (drop 28 payload) () with
    | Returned (Ok p) _ => Returned (Ok (Address.Shelley (ShelleyAddress.new (parse_network header)
        (payment (take 28 payload)) (ShelleyDelegationPart.Pointer p)))) ()
    | Returned (Err e) _ => Returned (Err e) ()
    | Panicked => Panicked
    | Unfinished => Unfinished
    end.
Proof.
  intros Hl. unfold parse_shelley_pointer. rewrite (proj2 (Nat.ltb_ge _ _)) by done. cbv zeta.
  destruct (hash_slice 0 payload) as [H1 Hh1]; [lia|]. cbn [Nat.add] in H1. rewrite drop_0 in H1, Hh1.
  unfold mbind, comp_bind, returns. rewrite H1, Hh1.
  unfold ShelleyDelegationPart.from_pointer, mbind, comp_bind.
  by destruct (Pointer.parse (drop 28 payload) ()) as [[p|e] []| |].
Qed.

(** The same for the parts one after the other. *)
Lemma parse_base_app payment delegation h h1 h2 junk :
  length h1 = 28%nat -> length h2 = 28%nat ->
  parse_shelley_base payment delegation h (h1 ++ h2 ++ junk) () =
    Returned (Ok (Address.Shelley (ShelleyAddress.new (parse_network h) (payment h1) (delegation h2)))) ().
Proof.
  intros H1 H2. rewrite parse_base_ok by (rewrite !length_app; lia).
  by rewrite take_app_length', drop_app_length', take_app_length' by done.
Qed.

Lemma parse_enterprise_app payment h h1 junk :
  length h1 = 28%nat ->
  parse_shelley_enterprise payment h (h1 ++ junk) () =
    Returned (Ok (Address.Shelley (ShelleyAddress.new (parse_network h) (payment h1) ShelleyDelegationPart.Null))) ().
Proof. intros H1. rewrite parse_enterprise_ok by (rewrite length_app; lia). by rewrite take_app_length'. Qed.

Lemma parse_pointer_app payment h h1 p junk :
  length h1 = 28%nat -> pointer_valid p -> Forall (in_u 8) junk ->
  parse_shelley_pointer payment h (h1 ++ Pointer.to_vec p ++ junk) () =
    Returned (Ok (Address.Shelley (ShelleyAddress.new (parse_network h) (payment h1) (ShelleyDelegationPart.Pointer p)))) ().
Proof.
  intros H1 Hp Hj. pose proof (pointer_length p).
  rewrite parse_pointer_eq by (rewrite !length_app; lia).
  by rewrite drop_app_length', take_app_length', pointer_parses by done.
Qed.

Lemma parse_stake_app type mk h h1 junk :
  length h1 = 28%nat -> (forall x, type x = mk <$> slice_to_hash x) ->
  parse_stake type h (h1 ++ junk) () =
    Returned (Ok (Address.Stake (StakeAddress.new (parse_network h) (mk h1)))) ().
Proof.
  intros H1 Ht. apply parse_stake_ok; [rewrite length_app; lia|]. by rewrite take_app_length', Ht, slice_to_hash_ok.
Qed.

(** ** Parsing any bytes *)
Lemma header_of h : in_u 8 h -> h = header_byte (h / 16) (h mod 16) /\ 0 <= h / 16 < 16 /\ 0 <= h mod 16 < 16.
Proof.
  intros [H0 H1]. change (2 ^ 8) with 256 in H1.
  assert (0 <= h / 16 < 16) as Ht by (split; [apply Z.div_pos; lia|apply Z.div_lt_upper_bound; lia]).
  pose proof (Z.mod_pos_bound h 16 ltac:(lia)) as Hn. split; [|done].
  destruct (header_split _ _ Ht Hn) as [-> _]. apply Z.div_mod. lia.
Qed.

Lemma network_of_header h : in_u 8 h -> Network.value (parse_network h) = h mod 16.
Proof.
  intros Hh. destruct (header_of h Hh) as (_ & _ & Hn). unfold parse_network. change 15 with (Z.ones 4).
  rewrite Z.land_ones by lia. change (2 ^ 4) with 16. by destruct (h mod 16) as [|[p|p|]|].
Qed.

Section dispatch.
Context `{ByronCodec}.

Lemma bytes_to_address_eq h payload :
  in_u 8 h ->
  bytes_to_address (h :: payload) =
    match h / 16 with
    | 0 => parse_type_0 h payload
    | 1 => parse_type_1 h payload
    | 2 => parse_type_2 h payload
    | 3 => parse_type_3 h payload
    | 4 => parse_type_4 h payload
    | 5 => parse_type_5 h payload
    | 6 => parse_type_6 h payload
    | 7 => parse_type_7 h payload
    | 8 => parse_type_8 h payload
    | 14 => parse_type_14 h payload
    | 15 => parse_type_15 h payload
    | _ => throw (Error.InvalidHeader h)
    end.
Proof.
  intros Hh. destruct (header_of h Hh) as (Heq & Ht & Hn). unfold bytes_to_address.
  assert (Z.land h 0xF0 = 16 * (h / 16)) as ->.
  { rewrite Heq at 1. by destruct (header_split _ _ Ht Hn) as (_ & ? & _). }
  clear Heq Hn. revert Ht. generalize (h / 16). intros t Ht.
  assert (t = 0 \/ t = 1 \/ t = 2 \/ t = 3 \/ t = 4 \/ t = 5 \/ t = 6 \/ t = 7 \/ t = 8 \/ t = 9 \/ t = 10 \/ t = 11 \/
    t = 12 \/ t = 13 \/ t = 14 \/ t = 15) as Hcases by lia.
  by repeat destruct Hcases as [->|Hcases]; [..|subst t].
Qed.

(** The shortest payload of a type. *)
Definition minimum (typeid : Z) : Z :=
  match typeid with 0 | 1 | 2 | 3 => 56 | 4 | 5 => 29 | _ => 28 end.

Definition parts_valid (a : Address.t) : Prop :=
  match a with
  | Address.Byron _ => True
  | Address.Shelley a => shelley_valid a
  | Address.Stake a => stake_valid a
  end.

(** What an address says of the bytes it comes from. *)
Definition read_from (a : Address.t) (b : bytes) : Prop :=
  match a with
  | Address.Byron x => from_slice b = Ok x
  | Address.Shelley x =>
      match ShelleyAddress.delegation x with
      | ShelleyDelegationPart.Pointer p =>
          take 29 (ShelleyAddress.to_vec x) = take 29 b /\ Pointer.parse (drop 29 b) () = Returned (Ok p) ()
      | _ => ShelleyAddress.to_vec x `prefix_of` b
      end
  | Address.Stake x => StakeAddress.to_vec x `prefix_of` b
  end.

Definition outcome_explained (h : Z) (payload : bytes) (o : outcome Error.t () Address.t) : Prop :=
  match o with
  | Returned (Ok a) _ => typeid a = h / 16 /\ parts_valid a /\ read_from a (h :: payload)
  | Returned (Err e) _ =>
      e = Error.InvalidHeader h /\ 9 <= h / 16 <= 13 \/
      e = Error.InvalidAddressLength (Z.of_nat (length payload)) /\ h / 16 <> 8 /\
        Z.of_nat (length payload) < minimum (h / 16) \/
      e = Error.VarUintError varuint.Error.UnexpectedEof /\ (h / 16 = 4 \/ h / 16 = 5) \/
      exists ce, e = Error.InvalidByronCbor ce /\ h / 16 = 8 /\ from_slice (A := ByronAddress) (h :: payload) = Err ce
  | Panicked | Unfinished => False
  end.

Lemma header_again t h : in_u 8 h -> h / 16 = t -> header_byte t (Network.value (parse_network h)) = h.
Proof. intros Hh <-. rewrite network_of_header by done. by destruct (header_of h Hh) as [<- _]. Qed.

Lemma hash_part n payload : (n + 28 <= length payload)%nat -> Forall (in_u 8) payload -> hash_valid (take 28 (drop n payload)).
Proof.
  intros Hl Hp. split; [rewrite length_take_le; [done|]; rewrite length_drop; lia|]. by apply Forall_take, Forall_drop.
Qed.

Lemma base_explained payment delegation t h payload :
  in_u 8 h -> Forall (in_u 8) payload -> h / 16 = t -> minimum t = 56 ->
  (forall n x y, ShelleyAddress.typeid (ShelleyAddress.new n (payment x) (delegation y)) = t) ->
  (forall x, ShelleyPaymentPart.to_vec (payment x) = x) -> (forall x, hash_valid x -> payment_valid (payment x)) ->
  (forall x, ShelleyDelegationPart.to_vec (delegation x) = x) -> (forall x, hash_valid x -> delegation_valid (delegation x)) ->
  (forall x p, delegation x <> ShelleyDelegationPart.Pointer p) ->
  t <> 8 -> outcome_explained h payload (parse_shelley_base payment delegation h payload ()).
Proof.
  intros Hh Hp Ht Hmin Hid Hpv Hpp Hdv Hdd Hnp H8. destruct (decide (56 <= length payload)%nat) as [Hl|Hl].
  - rewrite parse_base_ok by done. pose proof (hash_part 0 payload ltac:(lia) Hp) as H1. rewrite drop_0 in H1.
    pose proof (hash_part 28 payload ltac:(lia) Hp) as H2.
    split_and!; [by rewrite Ht; apply Hid|split_and!; [apply parse_network_valid|by apply Hpp|by apply Hdd]|].
    cbn [read_from ShelleyAddress.delegation]. destruct (delegation _) eqn:Hd; try (by apply Hnp in Hd);
      (exists (drop 56 payload); unfold ShelleyAddress.to_vec, ShelleyAddress.to_header;
       rewrite <- Hd; cbn [ShelleyAddress.network ShelleyAddress.payment ShelleyAddress.delegation]; rewrite Hid, Hpv, Hdv, header_again by done;
       cbn [app]; f_equal; rewrite <- app_assoc; change 56%nat with (28 + 28)%nat; by rewrite <- drop_drop, !take_drop).
  - unfold parse_shelley_base. rewrite (proj2 (Nat.ltb_lt _ _)) by lia. right; left. rewrite Ht, Hmin. split_and!; [done|done|lia].
Qed.

Lemma enterprise_explained payment t h payload :
  in_u 8 h -> Forall (in_u 8) payload -> h / 16 = t -> minimum t = 28 ->
  (forall n x, ShelleyAddress.typeid (ShelleyAddress.new n (payment x) ShelleyDelegationPart.Null) = t) ->
  (forall x, ShelleyPaymentPart.to_vec (payment x) = x) -> (forall x, hash_valid x -> payment_valid (payment x)) ->
  t <> 8 -> outcome_explained h payload (parse_shelley_enterprise payment h payload ()).
Proof.
  intros Hh Hp Ht Hmin Hid Hpv Hpp H8. destruct (decide (28 <= length payload)%nat) as [Hl|Hl].
  - rewrite parse_enterprise_ok by done. pose proof (hash_part 0 payload ltac:(lia) Hp) as H1. rewrite drop_0 in H1.
    split_and!; [by rewrite Ht; apply Hid|split_and!; [apply parse_network_valid|by apply Hpp|done]|].
    exists (drop 28 payload). unfold ShelleyAddress.to_vec, ShelleyAddress.to_header.
    rewrite Hid. cbn [ShelleyAddress.network ShelleyAddress.payment ShelleyAddress.delegation].
    rewrite Hpv, header_again by done. cbn. by rewrite app_nil_r, take_drop.
  - unfold parse_shelley_enterprise. rewrite (proj2 (Nat.ltb_lt _ _)) by lia. right; left. rewrite Ht, Hmin.
    split_and!; [done|done|lia].
Qed.

Lemma stake_explained type mk t h payload :
  in_u 8 h -> Forall (in_u 8) payload -> h / 16 = t -> minimum t = 28 ->
  (forall x, type x = mk <$> slice_to_hash x) -> (forall x, StakePayload.as_hash (mk x) = x) ->
  (forall n x, StakeAddress.typeid (StakeAddress.new n (mk x)) = t) ->
  t <> 8 -> outcome_explained h payload (parse_stake type h payload ()).
Proof.
  intros Hh Hp Ht Hmin Htype Hmk Hid H8. destruct (decide (28 <= length payload)%nat) as [Hl|Hl].
  - pose proof (hash_part 0 payload ltac:(lia) Hp) as H1. rewrite drop_0 in H1.
    rewrite (parse_stake_ok _ _ _ (mk (take 28 payload))) by (done || (rewrite Htype, slice_to_hash_ok; [done|apply H1])).
    split_and!; [by rewrite Ht; apply Hid|split; [apply parse_network_valid|by cbn; rewrite Hmk]|].
    exists (drop 28 payload). unfold StakeAddress.to_vec, StakeAddress.to_header. rewrite Hid.
    cbn [StakeAddress.network StakeAddress.payload]. rewrite header_again by done.
    change (StakePayload.as_ref ?x) with (StakePayload.as_hash x). rewrite Hmk. cbn. by rewrite take_drop.
  - unfold parse_stake. rewrite (proj2 (Nat.ltb_lt _ _)) by lia. right; left. rewrite Ht, Hmin.
    split_and!; [done|done|lia].
Qed.

(** A read of a pointer's part gives a 64-bit value or the end of the bytes. *)
Lemma read_bounded c :
  in_bounds c ->
  (exists v c', varuint.read c = Returned (Ok v) c' /\ in_u 64 v /\ in_bounds c') \/
  exists c', varuint.read c = Returned (Err varuint.Error.UnexpectedEof) c'.
Proof.
  intros Hc. pose proof (read_any c Hc) as Hr. unfold read_means in Hr.
  destruct (varuint.read c) as [[v|e] c'| |]; [left|right|done..].
  - destruct Hr as (Hc' & gs & g & _ & _ & _ & -> & _). pose proof (value_of_nonneg (gs ++ [g])).
    exists (Z.min (value_of (gs ++ [g])) varuint.u64_MAX), c'. split; [done|]. split; [unfold in_u, varuint.u64_MAX; lia|done].
  - destruct Hr as (-> & _). by exists c'.
Qed.

Lemma pointer_outcome b :
  Forall (in_u 8) b ->
  (exists p, Pointer.parse b () = Returned (Ok p) () /\ pointer_valid p) \/
  Pointer.parse b () = Returned (Err (Error.VarUintError varuint.Error.UnexpectedEof)) ().
Proof.
  intros Hb. pose proof (Cursor_new_in_bounds b Hb) as Hc. unfold Pointer.parse, locally, Pointer.parse_parts, map_err, mbind, comp_bind.
  destruct (read_bounded _ Hc) as [(x & c1 & -> & Hx & Hc1)|[c1 ->]]; [|by right].
  destruct (read_bounded _ Hc1) as [(y & c2 & -> & Hy & Hc2)|[c2 ->]]; [|by right].
  destruct (read_bounded _ Hc2) as [(z & c3 & -> & Hz & Hc3)|[c3 ->]]; [|by right].
  left. by eexists.
Qed.

Lemma pointer_explained payment t h payload :
  in_u 8 h -> Forall (in_u 8) payload -> h / 16 = t -> t = 4 \/ t = 5 ->
  (forall n x p, ShelleyAddress.typeid (ShelleyAddress.new n (payment x) (ShelleyDelegationPart.Pointer p)) = t) ->
  (forall x, ShelleyPaymentPart.to_vec (payment x) = x) -> (forall x, hash_valid x -> payment_valid (payment x)) ->
  outcome_explained h payload (parse_shelley_pointer payment h payload ()).
Proof.
  intros Hh Hp Ht H45 Hid Hpv Hpp. destruct (decide (29 <= length payload)%nat) as [Hl|Hl].
  - rewrite parse_pointer_eq by done. pose proof (hash_part 0 payload ltac:(lia) Hp) as H1. rewrite drop_0 in H1.
    destruct (pointer_outcome (drop 28 payload)) as [(p & Hparse & Hv)| ->]; [by apply Forall_drop| |].
    + rewrite Hparse. split_and!; [by rewrite Ht; apply Hid|split_and!; [apply parse_network_valid|by apply Hpp|done]|].
      split; [|exact Hparse]. unfold ShelleyAddress.to_vec, ShelleyAddress.to_header. rewrite Hid.
      cbn [ShelleyAddress.network ShelleyAddress.payment ShelleyAddress.delegation]. rewrite Hpv, header_again by done.
      cbn [app firstn]. f_equal. rewrite take_app_le by (by rewrite length_take_le; [|lia]). rewrite take_take. done.
    + right; right; left. by rewrite Ht.
  - unfold parse_shelley_pointer. rewrite (proj2 (Nat.ltb_lt _ _)) by lia. right; left. rewrite Ht.
    split_and!; [done|lia|destruct H45 as [-> | ->]; simpl; lia].
Qed.

Lemma from_bytes_explained h payload :
  in_u 8 h -> Forall (in_u 8) payload -> outcome_explained h payload (from_bytes (h :: payload) ()).
Proof.
  intros Hh Hp. unfold from_bytes. rewrite bytes_to_address_eq by done.
  destruct (header_of h Hh) as (_ & Ht & _).
  assert (h / 16 = 8 \/ (h / 16 = 9 \/ h / 16 = 10 \/ h / 16 = 11 \/ h / 16 = 12 \/ h / 16 = 13) \/
    h / 16 = 0 \/ h / 16 = 1 \/ h / 16 = 2 \/ h / 16 = 3 \/ h / 16 = 4 \/
    h / 16 = 5 \/ h / 16 = 6 \/ h / 16 = 7 \/ h / 16 = 14 \/ h / 16 = 15) as Hcases by lia.
  destruct Hcases as [E|[Hbad|Hcases]];
    [|destruct_or! Hbad; rewrite Hbad; left; (split; [done|lia])|
      destruct_or! Hcases; rewrite Hcases;
      first [by eapply base_explained | by eapply enterprise_explained | by eapply pointer_explained; eauto | by eapply stake_explained]].
  rewrite E.
  unfold parse_type_8, mbind, comp_bind, returns, byron_from_bytes. cbn [app].
  destruct (from_slice (h :: payload)) as [a|e] eqn:Hd.
  - hnf. split_and!; [by rewrite E|done|exact Hd].
  - hnf. right; right; right. eauto.
Qed.
End dispatch.

Definition hex_digit (n : Z) : Ascii.ascii :=
  Ascii.ascii_of_nat (Z.to_nat (if n <? 10 then 48 + n else 87 + n)).

Definition hex_value (a : Ascii.ascii) : option Z :=
  let n := Z.of_nat (Ascii.nat_of_ascii a) in
  if (48 <=? n) && (n <? 58) then Some (n - 48)
  else if (97 <=? n) && (n <? 103) then Some (n - 87) else None.

Fixpoint to_hex_text (b : bytes) : string :=
  match b with
  | [] => EmptyString
  | x :: b => String (hex_digit (x / 16)) (String (hex_digit (x mod 16)) (to_hex_text b))
  end.

Fixpoint of_hex_text (s : string) : option bytes :=
  match s with
  | EmptyString => Some []
  | String _ EmptyString => None
  | String h (String l s) =>
      match hex_value h, hex_value l, of_hex_text s with
      | Some h, Some l, Some b => Some (16 * h + l :: b)
      | _, _, _ => None
      end
  end.

Lemma hex_digit_value n : 0 <= n < 16 -> hex_value (hex_digit n) = Some n.
Proof.
  intros Hn.
  assert (forallb (fun n => match hex_value (hex_digit n) with Some m => m =? n | None => false end) (seqZ 0 16) = true) as Hall
    by reflexivity.
  rewrite forallb_forall in Hall. specialize (Hall n). rewrite <- list_elem_of_In, elem_of_seqZ in Hall.
  specialize (Hall Hn). destruct (hex_value _) as [m|]; [|done]. by apply Z.eqb_eq in Hall as ->.
Qed.

Lemma hex_text_inverse b : Forall (in_u 8) b -> of_hex_text (to_hex_text b) = Some b.
Proof.
  induction 1 as [|x b [H0 H1] _ IH]; [done|]. change (2 ^ 8) with 256 in H1. cbn [to_hex_text of_hex_text].
  rewrite !hex_digit_value, IH.
  - do 2 f_equal. pose proof (Z.div_mod x 16). lia.
  - apply Z.mod_pos_bound. lia.
  - split; [apply Z.div_pos; lia|apply Z.div_lt_upper_bound; lia].
Qed.

Definition separator : Ascii.ascii := Ascii.ascii_of_nat 49.

(** The part before the first separator, and what follows it. *)
Fixpoint split_one (s : string) : option (string * string) :=
  match s with
  | EmptyString => None
  | String a s =>
      if Ascii.eqb a separator then Some (EmptyString, s) else (fun x => (String a x.1, x.2)) <$> split_one s
  end.

#[export] Instance hex_codecs : TextCodecs := {
  bech32_encode hrp b := Some (String.append hrp (String separator (to_hex_text b)));
  bech32_decode s :=
    match split_one s with
    | Some (hrp, s) => match of_hex_text s with Some b => Ok (hrp, b) | None => Err "data"%string end
    | None => Err "separator"%string
    end;
  to_base58 := to_hex_text;
  from_base58_text s := match of_hex_text s with Some b => Ok b | None => Err "digit"%string end;
  hex_encode := to_hex_text;
  hex_decode := of_hex_text
}.

#[export] Instance array_byron : ByronCodec := {
  ByronAddress_encode a :=
    Some (e_array 2 (Minicbor := rfc8949)) ⊕ Some (e_tag 24 (Minicbor := rfc8949)) ⊕
    Some (e_bytes (byron_payload a) (Minicbor := rfc8949)) ⊕ Some (e_u32 (byron_crc a) (Minicbor := rfc8949));
  ByronAddress_decode :=
    _ ← d_array (Minicbor := rfc8949);
    _ ← d_tag (Minicbor := rfc8949);
    payload ← d_bytes (Minicbor := rfc8949);
    crc ← d_u32 (Minicbor := rfc8949);
    mret {| byron_payload := payload; byron_crc := crc |}
}.

Lemma split_one_hrp hrp s : hrp ∈ hrps -> split_one (String.append hrp (String separator s)) = Some (hrp, s).
Proof. unfold hrps. intros Hin. repeat (apply elem_of_cons in Hin as [->|Hin]; [done|]). by apply not_elem_of_nil in Hin. Qed.

#[export] Instance hex_laws : TextLaws.
Proof.
  split.
  - intros hrp b Hh _ Hb. eexists. split; [done|]. cbn [bech32_decode hex_codecs].
    by rewrite split_one_hrp, hex_text_inverse.
  - intros b Hb. cbn. by rewrite hex_text_inverse.
  - intros b Hb. by apply hex_text_inverse.
Qed.

Lemma e_head_bytes mt n : 0 <= mt < 8 -> in_u 64 n -> Forall (in_u 8) (e_head mt n).
Proof.
  intros Hmt [H0 H1].
  assert (forall k z, Forall (in_u 8) (be_bytes k z)) as Hbe.
  { induction k as [|k IH]; intros z; simpl; [done|]. apply Forall_app. split; [done|]. constructor; [|done].
    by apply Z.mod_pos_bound. }
  unfold e_head. repeat case_match; repeat (constructor; [unfold in_u; change (2 ^ 8) with 256; rewrite ?Z.ltb_lt in *; lia|]); done.
Qed.

#[export] Instance array_byron_laws : ByronLaws.
Proof.
  split.
  - intros a (Hl & _ & Hc) b rest. unfold encode, decode. cbn [ByronAddress_encode ByronAddress_decode array_byron].
    revert b rest. fold (Parses (A := ByronAddress)).
    apply (Parses_bind _ _ _ _ (Some 2)); [by apply (array_parses (MinicborLaws := rfc8949_laws))|].
    eapply Parses_bind; [by apply (tag_parses (MinicborLaws := rfc8949_laws))|].
    eapply Parses_bind; [by apply (bytes_parses (MinicborLaws := rfc8949_laws))|].
    eapply Parses_bind_last; [by apply (u32_parses (MinicborLaws := rfc8949_laws))|]. by destruct a; apply Parses_ret.
  - intros a (Hl & Hb & Hc). eexists. split; [reflexivity|]. rewrite !Forall_app. split_and!.
    + repeat constructor; done.
    + apply (Forall_app (in_u 8) (e_head 2 _)). split; [by apply e_head_bytes|done].
    + apply e_head_bytes; [lia|]. unfold in_u in *. lia.
Qed.

(** ** Properties of addresses *)

Import varuint(bytes_left).

(** ** Round trips *)
Section roundtrip.
Context `{ByronLaws}.

Definition address_valid (a : Address.t) : Prop :=
  match a with
  | Address.Byron x => byron_valid x
  | Address.Shelley x => shelley_valid x
  | Address.Stake x => stake_valid x
  end.

Lemma shelley_typeid_range x : 0 <= ShelleyAddress.typeid x < 8.
Proof. destruct x as [n [] []]; cbn; lia. Qed.

(** The parsers find the type and the network of a header. *)
Lemma header_found t n :
  0 <= t < 16 -> network_valid n ->
  in_u 8 (header_byte t (Network.value n)) /\ header_byte t (Network.value n) / 16 = t /\
  parse_network (header_byte t (Network.value n)) = n.
Proof.
  intros Ht Hn. pose proof (network_value_range n Hn) as Hv.
  destruct (header_split t (Network.value n) Ht Hv) as (Heq & _ & Hlow).
  split_and!; [rewrite Heq; unfold in_u; change (2 ^ 8) with 256; lia..| |by apply parse_network_value].
  rewrite Heq, Z.mul_comm, Z.div_add_l, Z.div_small by lia. lia.
Qed.

Lemma shelley_parsed x junk :
  shelley_valid x -> Forall (in_u 8) junk ->
  from_bytes (ShelleyAddress.to_vec x ++ junk) () = Returned (Ok (Address.Shelley x)) ().
Proof.
  intros (Hn & [Hl1 Hb1] & Hd) Hj. pose proof (shelley_typeid_range x) as Hid.
  destruct (header_found (ShelleyAddress.typeid x) (ShelleyAddress.network x)) as (Hh & Ht & Hnet); [lia|done|].
  unfold ShelleyAddress.to_vec, from_bytes, ShelleyAddress.to_header. cbn [app].
  rewrite bytes_to_address_eq, Ht, <- app_assoc by done.
  set (h := header_byte _ _) in *. clearbody h. clear Ht Hid.
  destruct x as [n p d]. cbn [ShelleyAddress.network ShelleyAddress.payment ShelleyAddress.delegation] in *. subst n.
  destruct p, d; cbn [ShelleyAddress.typeid ShelleyAddress.payment ShelleyAddress.delegation ShelleyPaymentPart.to_vec
    ShelleyPaymentPart.as_hash ShelleyDelegationPart.to_vec delegation_valid] in *;
    first [ destruct Hd as [Hl2 _]; by apply parse_base_app
          | by apply parse_pointer_app | rewrite app_nil_l; by apply parse_enterprise_app ].
Qed.

Lemma stake_parsed x junk :
  stake_valid x -> Forall (in_u 8) junk ->
  from_bytes (StakeAddress.to_vec x ++ junk) () = Returned (Ok (Address.Stake x)) ().
Proof.
  intros (Hn & [Hl Hb]) Hj. assert (0 <= StakeAddress.typeid x < 16) as Hid by (by destruct x as [n []]).
  destruct (header_found (StakeAddress.typeid x) (StakeAddress.network x)) as (Hh & Ht & Hnet); [done..|].
  unfold StakeAddress.to_vec, from_bytes, StakeAddress.to_header. cbn [app].
  rewrite bytes_to_address_eq, Ht by done. set (h := header_byte _ _) in *. clearbody h. clear Ht Hid.
  destruct x as [n p]. cbn [StakeAddress.network StakeAddress.payload] in *. subst n.
  destruct p; cbn [StakeAddress.typeid StakeAddress.payload StakePayload.as_ref StakePayload.as_hash] in *;
    by apply parse_stake_app.
Qed.

(** Bytes that are written for an address, and read again. *)
Lemma address_parsed a junk :
  address_valid a -> Forall (in_u 8) junk ->
  exists b, to_vec a = Some b /\ from_bytes (b ++ junk) () = Returned (Ok a) ().
Proof.
  intros Ha Hj. destruct a as [x|x|x]; cbn [to_vec address_valid] in *.
  - destruct (byron_written x Ha) as (r & Hr & _). unfold byron_to_vec, Cbor.to_vec. exists (0x82 :: r). split; [done|].
    unfold from_bytes. cbn [app]. rewrite bytes_to_address_eq by done. change (0x82 / 16) with 8. cbv iota.
    pose proof (byron_parses x Ha _ junk Hr) as Hp. unfold parse_type_8, byron_from_bytes, from_slice, mbind, comp_bind, returns.
    cbn [app] in *. by rewrite Hp.
  - eexists. split; [done|]. by apply shelley_parsed.
  - eexists. split; [done|]. by apply stake_parsed.
Qed.
End roundtrip.

(** C36: (round trip) every address whose parts are valid - 28-byte hashes, 64-bit pointers, a network of four bits -
    is written to bytes from which it is parsed again, whatever bytes follow them; its kind is in the high half
    of the first byte. *)
Theorem address_roundtrip `{ByronLaws} a junk :
  address_valid a -> Forall (in_u 8) junk ->
  exists b, to_vec a = Some b /\ from_bytes (b ++ junk) () = Returned (Ok a) () /\
    exists h l, b = h :: l /\ h / 16 = typeid a.
Proof.
  intros Ha Hj. destruct (address_parsed a junk Ha Hj) as (b & Hb & Hp). exists b. split_and!; [done|done|].
  destruct a as [x|x|x]; cbn in Hb, Ha.
  - destruct (byron_written x Ha) as (r & Hr & _). unfold byron_to_vec, Cbor.to_vec in Hb. rewrite Hr in Hb. simplify_eq. eauto.
  - simplify_eq. eexists _, _. split; [done|]. destruct Ha as (Hn & _). pose proof (shelley_typeid_range x).
    by destruct (header_found (ShelleyAddress.typeid x) (ShelleyAddress.network x)) as (_ & ? & _); [lia|done|].
  - simplify_eq. eexists _, _. split; [done|]. destruct Ha as (Hn & _).
    assert (0 <= StakeAddress.typeid x < 16) by (by destruct x as [n []]).
    by destruct (header_found (StakeAddress.typeid x) (StakeAddress.network x)) as (_ & ? & _).
Qed.

Definition sample_hash : bytes := (fun n => Z.of_nat n) <$> seq 1 28.

Definition sample_address : Address.t :=
  Address.Shelley (ShelleyAddress.new Network.Mainnet (ShelleyPaymentPart.Key sample_hash)
    (ShelleyDelegationPart.Pointer {| Pointer.slot := 2498243; Pointer.tx_idx := 27; Pointer.cert_idx := 3 |})).

Lemma sample_address_valid : address_valid sample_address.
Proof. repeat constructor; done. Defined.

Lemma address_roundtrip_witness :
  from_bytes ([0x41] ++ sample_hash ++ [0x81; 0x98; 0xBD; 0x43; 27; 3] ++ [9; 9]) () = Returned (Ok sample_address) ().
Proof.
  destruct (address_roundtrip sample_address [9; 9] sample_address_valid) as (b & Hb & Hp & _); [repeat constructor; done|].
  vm_compute in Hb. injection Hb as <-. exact Hp.
Defined.

(** C37: (functional, on every branch) what becomes of any bytes that are parsed as an address.  Without a first byte
    the header is missing; kinds 9 to 13 are refused; a payload that is too short for its kind is refused; the parts
    of a pointer may end before they are complete; a Byron address is what the CBOR decoder says.  Otherwise the
    address has the kind of the header and valid parts, and the bytes begin with those that are written for it, but
    for a pointer, which may have been written in more groups than are needed.  It never panics. *)
Theorem from_bytes_outcome `{ByronCodec} b :
  Forall (in_u 8) b ->
  match b with
  | [] => from_bytes b () = Returned (Err Error.MissingHeader) ()
  | h :: payload => outcome_explained h payload (from_bytes b ())
  end.
Proof. intros [|h payload Hh Hp]; [done|]. by apply from_bytes_explained. Qed.

Lemma from_bytes_outcome_witness :
  outcome_explained 0x91 [1] (from_bytes [0x91; 1] ()) /\
  outcome_explained 0x01 [1] (Returned (Err (Error.InvalidAddressLength 1)) ()).
Proof.
  split.
  - apply (from_bytes_outcome [0x91; 1]). repeat constructor; done.
  - apply (from_bytes_outcome [0x01; 1]). repeat constructor; done.
Defined.

(** C38: (exactness) strict parsing of a pointer accepts exactly the bytes that are written for a pointer of three
    64-bit parts, and gives that pointer: no other encoding, nothing before or behind it. *)
Theorem pointer_strict_exact b p :
  Forall (in_u 8) b ->
  (Pointer.parse_strict b () = Returned (Ok p) () <-> pointer_valid p /\ b = Pointer.to_vec p).
Proof. apply pointer_strict_iff. Qed.

Lemma pointer_strict_exact_witness :
  Pointer.parse_strict [0x81; 0x00; 27; 3] () = Returned (Ok {| Pointer.slot := 128; Pointer.tx_idx := 27; Pointer.cert_idx := 3 |}) () /\
  Pointer.parse_strict [0x80; 0x00; 27; 3] () <> Returned (Ok {| Pointer.slot := 0; Pointer.tx_idx := 27; Pointer.cert_idx := 3 |}) ().
Proof.
  split.
  - apply (pointer_strict_exact [0x81; 0x00; 27; 3]); [repeat constructor; done|]. split; [repeat split; done|reflexivity].
  - intros [_ Heq]%pointer_strict_exact; [discriminate Heq|repeat constructor; done].
Defined.

(** (bounds and errors) reading a variable-length integer from any bytes, outside of strict mode.  The value is that
    of the groups up to the first that is not marked, if it fits in 64 bits; as soon as the value of the groups read
    does not fit the largest 64-bit integer is returned, and the rest of the groups is left in the cursor, to be
    taken for the next integer; the only error is the end of the bytes. *)
Theorem varuint_read_outcome c :
  in_bounds c ->
  match varuint.read c with
  | Returned (Ok v) c' => in_bounds c' /\ exists gs g,
      bytes_left c = (gs ++ [g]) ++ bytes_left c' /\ Forall marked gs /\ value_of gs <= varuint.u64_MAX /\
      v = Z.min (value_of (gs ++ [g])) varuint.u64_MAX /\ (g < 128 \/ varuint.u64_MAX < value_of (gs ++ [g]))
  | Returned (Err e) c' => e = varuint.Error.UnexpectedEof /\ Forall marked (bytes_left c) /\
      value_of (bytes_left c) <= varuint.u64_MAX /\ bytes_left c' = []
  | Panicked | Unfinished => False
  end.
Proof. intros Hc. exact (read_any c Hc). Qed.

Lemma varuint_read_outcome_witness :
  let c := Cursor_new (replicate 11 0xFF ++ [0x7F]) in
  exists gs g, bytes_left c = (gs ++ [g]) ++ [0xFF; 0x7F] /\ Forall marked gs /\ varuint.u64_MAX < value_of (gs ++ [g]).
Proof.
  intros c. assert (in_bounds c) as Hc by (split; [simpl; lia|repeat constructor; done]).
  pose proof (varuint_read_outcome c Hc) as Hr.
  assert (varuint.read c = Returned (Ok varuint.u64_MAX) (skip 10 c)) as Heq by (vm_compute; reflexivity).
  rewrite Heq in Hr. destruct Hr as (_ & gs & g & Hl & Hm & _ & Hv & Hor). exists gs, g.
  split; [exact Hl|]. split; [exact Hm|]. destruct Hor as [Hg|]; [|assumption].
  assert (gs ++ [g] = replicate 10 0xFF) as Hgs.
  { change (bytes_left (skip 10 c)) with [0xFF; 0x7F] in Hl.
    change (bytes_left c) with (replicate 10 0xFF ++ [0xFF; 0x7F]) in Hl. by apply app_inv_tail in Hl. }
  rewrite Hgs. reflexivity.
Defined.

Lemma length_groups v : (length (groups v) <= 11)%nat.
Proof.
  unfold groups. rewrite length_app, length_reverse.
  assert (forall n z, (length (digits n z) <= n)%nat) as Hd.
  { induction n as [|n IH]; intros z; simpl; [lia|]. destruct (0 <? z); simpl; [specialize (IH (z / 128)); lia|lia]. }
  specialize (Hd 10%nat (v / 128)). simpl length at 2. lia.
Qed.

(** The bytes of an address are short enough for bech32. *)
Lemma delegation_bytes d :
  delegation_valid d -> Forall (in_u 8) (ShelleyDelegationPart.to_vec d) /\ (length (ShelleyDelegationPart.to_vec d) <= 33)%nat.
Proof.
  destruct d as [h|h|p|]; cbn [ShelleyDelegationPart.to_vec delegation_valid]; [intros [-> ?]; split; [done|lia]..| |intros _; split; [constructor|simpl; lia]].
  intros Hp. split; [by apply pointer_bytes|]. rewrite pointer_to_vec, !length_app.
  pose proof (length_groups (Pointer.slot p)). pose proof (length_groups (Pointer.tx_idx p)).
  pose proof (length_groups (Pointer.cert_idx p)). lia.
Qed.

Lemma shelley_bytes x :
  shelley_valid x -> Forall (in_u 8) (ShelleyAddress.to_vec x) /\ (length (ShelleyAddress.to_vec x) <= 62)%nat.
Proof.
  intros (Hn & [Hl Hb] & Hd). pose proof (shelley_typeid_range x).
  destruct (header_found (ShelleyAddress.typeid x) (ShelleyAddress.network x)) as (Hh & _); [lia|done|].
  destruct (delegation_bytes _ Hd) as [Hd1 Hd2].
  assert (ShelleyPaymentPart.to_vec (ShelleyAddress.payment x) = ShelleyPaymentPart.as_hash (ShelleyAddress.payment x)) as Hp
    by (by destruct (ShelleyAddress.payment x)).
  unfold ShelleyAddress.to_vec. rewrite Hp. split.
  - constructor; [exact Hh|]. by apply Forall_app.
  - cbn [app length]. rewrite length_app, Hl. lia.
Qed.

Lemma stake_bytes x :
  stake_valid x -> Forall (in_u 8) (StakeAddress.to_vec x) /\ (length (StakeAddress.to_vec x) <= 62)%nat.
Proof.
  intros (Hn & [Hl Hb]). assert (0 <= StakeAddress.typeid x < 16) as Hid by (by destruct x as [n []]).
  destruct (header_found (StakeAddress.typeid x) (StakeAddress.network x)) as (Hh & _); [done..|].
  unfold StakeAddress.to_vec. change (StakePayload.as_ref ?p) with (StakePayload.as_hash p). split; [by constructor|].
  cbn [app length]. rewrite Hl. lia.
Qed.

(** An address of a known network has a bech32 text. *)
Lemma known_network_text `{ByronLaws} `{TextLaws} a :
  address_valid a -> network a = Some Network.Mainnet \/ network a = Some Network.Testnet ->
  exists s b, fmt a () = Returned (Ok s) () /\ to_vec a = Some b /\ to_bech32 a () = Returned (Ok s) () /\
    exists hrp, bech32_decode s = Ok (hrp, b).
Proof.
  intros Ha Hnet. destruct a as [x|x|x]; cbn [network fmt to_vec to_bech32 address_valid] in *; [by destruct Hnet| |].
  - destruct (shelley_bytes x Ha) as [Hb Hl].
    assert (exists hrp, ShelleyAddress.hrp x = Ok hrp /\ hrp ∈ hrps) as (hrp & Hhrp & Hin)
      by (unfold ShelleyAddress.hrp; destruct Hnet as [[= ->]|[= ->]]; eexists; (split; [done|]); set_solver).
    destruct (bech32_text hrp _ Hin Hl Hb) as (s & Hs & Hdec). exists s. eexists.
    unfold or_else, ShelleyAddress.to_bech32, encode_bech32, mbind, comp_bind, returns, eval. rewrite Hhrp, Hs. by eauto.
  - destruct (stake_bytes x Ha) as [Hb Hl].
    assert (exists hrp, StakeAddress.hrp x = Ok hrp /\ hrp ∈ hrps) as (hrp & Hhrp & Hin)
      by (unfold StakeAddress.hrp; destruct Hnet as [[= ->]|[= ->]]; eexists; (split; [done|]); set_solver).
    destruct (bech32_text hrp _ Hin Hl Hb) as (s & Hs & Hdec). exists s. eexists.
    unfold or_else, StakeAddress.to_bech32, encode_bech32, mbind, comp_bind, returns, eval. rewrite Hhrp, Hs. by eauto.
Qed.

(** (round trip) a Shelley or stake address of the mainnet or the testnet is printed in bech32, without a panic, and
    the text is parsed to the address again. *)
Theorem address_text_roundtrip `{ByronLaws} `{TextLaws} a :
  address_valid a -> network a = Some Network.Mainnet \/ network a = Some Network.Testnet ->
  exists s, fmt a () = Returned (Ok s) () /\ to_bech32 a () = Returned (Ok s) () /\
    from_str s () = Returned (Ok a) () /\ from_bech32 s () = Returned (Ok a) ().
Proof.
  intros Ha Hnet. destruct (known_network_text a Ha Hnet) as (s & b & Hs & Hb & Ht & hrp & Hdec).
  exists s. destruct (address_parsed a [] Ha) as (b' & Hb' & Hp); [constructor|]. rewrite app_nil_r in Hp.
  rewrite Hb in Hb'. injection Hb' as <-.
  assert (from_bech32 s () = Returned (Ok a) ()) as Hfrom.
  { unfold from_bech32, bech32_to_address, decode_bech32, mbind, comp_bind, returns. rewrite Hdec. exact Hp. }
  split_and!; [done|done| |done]. unfold from_str, or_else at 1. by rewrite Hfrom.
Qed.

Lemma address_text_roundtrip_witness :
  exists s, fmt sample_address () = Returned (Ok s) () /\ from_str s () = Returned (Ok sample_address) () /\
    String.prefix "addr1" s = true.
Proof.
  destruct (address_text_roundtrip sample_address sample_address_valid (or_introl eq_refl)) as (s & Hs & _ & Hf & _).
  exists s. split; [exact Hs|]. split; [exact Hf|]. vm_compute in Hs. injection Hs as <-. reflexivity.
Defined.

(** A network that does not fit the low half of the header changes the kind of the address: nothing checks it. *)
Lemma wide_network_changes_kind `{ByronCodec} :
  let a := ShelleyAddress.new (Network.from 16) (ShelleyPaymentPart.Key sample_hash) ShelleyDelegationPart.Null in
  ShelleyAddress.typeid a = 6 /\
  exists a', from_bytes (ShelleyAddress.to_vec a) () = Returned (Ok (Address.Shelley a')) () /\ ShelleyAddress.typeid a' = 7.
Proof. split; [done|]. eexists. split; [vm_compute; reflexivity|done]. Qed.
