(* ===== verification/SlotTime.v ===== *)
(** * Slots, epochs and time

    [pallas-traverse/src/time.rs] and [wellknown.rs]: from slots to wall-clock time
    and to epochs and back, for the parameters of a network.  The arithmetic is that
    of [u64] with overflow checks; [None] is a panic. *)
From S2P Require Import Prelude.

(** ** Parameters of networks *)
Definition TESTNET_MAGIC : Z := 1097911063.
Definition TESTNET_NETWORK_ID : Z := 0.
Definition MAINNET_MAGIC : Z := 764824073.
Definition MAINNET_NETWORK_ID : Z := 1.
Definition PREVIEW_MAGIC : Z := 2.
Definition PREVIEW_NETWORK_ID : Z := 0.
Definition PRE_PRODUCTION_MAGIC : Z := 1.
Definition PRE_PRODUCTION_NETWORK_ID : Z := 0.

Record GenesisValues := {
  magic : Z;
  network_id : Z;
  byron_epoch_length : Z;
  byron_slot_length : Z;
  byron_known_slot : Z;
  byron_known_hash : string;
  byron_known_time : Z;
  shelley_epoch_length : Z;
  shelley_slot_length : Z;
  shelley_known_slot : Z;
  shelley_known_hash : string;
  shelley_known_time : Z
}.

Definition mainnet : GenesisValues := {|
  magic := MAINNET_MAGIC;
  network_id := MAINNET_NETWORK_ID;
  byron_epoch_length := 432000;
  byron_slot_length := 20;
  byron_known_slot := 0;
  byron_known_time := 1506203091;
  byron_known_hash := "f0f7892b5c333cffc4b3c4344de48af4cc63f55e44936196f365a9ef2244134f";
  shelley_epoch_length := 432000;
  shelley_slot_length := 1;
  shelley_known_slot := 4492800;
  shelley_known_hash := "aa83acbf5904c0edfe4d79b3689d3d00fcfc553cf360fd2229b98d464c28e9de";
  shelley_known_time := 1596059091
|}.

Definition testnet : GenesisValues := {|
  magic := TESTNET_MAGIC;
  network_id := TESTNET_NETWORK_ID;
  byron_epoch_length := 432000;
  byron_slot_length := 20;
  byron_known_slot := 0;
  byron_known_time := 1564010416;
  byron_known_hash := "8f8602837f7c6f8b8867dd1cbc1842cf51a27eaed2c70ef48325d00f8efb320f";
  shelley_epoch_length := 432000;
  shelley_slot_length := 1;
  shelley_known_slot := 1598400;
  shelley_known_hash := "02b1c561715da9e540411123a6135ee319b02f60b9a11a603d3305556c04329f";
  shelley_known_time := 1595967616
|}.

Definition preview : GenesisValues := {|
  magic := PREVIEW_MAGIC;
  network_id := PREVIEW_NETWORK_ID;
  byron_epoch_length := 86400;
  byron_slot_length := 20;
  byron_known_slot := 0;
  byron_known_hash := "";
  byron_known_time := 1666656000;
  shelley_epoch_length := 86400;
  shelley_slot_length := 1;
  shelley_known_slot := 0;
  shelley_known_hash := "268ae601af8f9214804735910a3301881fbe0eec9936db7d1fb9fc39e93d1e37";
  shelley_known_time := 1666656000
|}.

Definition preprod : GenesisValues := {|
  magic := PRE_PRODUCTION_MAGIC;
  network_id := PRE_PRODUCTION_NETWORK_ID;
  byron_epoch_length := 432000;
  byron_slot_length := 20;
  byron_known_slot := 0;
  byron_known_hash := "9ad7ff320c9cf74e0f5ee78d22a85ce42bb0a487d0506bf60cfb5a91ea4497d2";
  byron_known_time := 1654041600;
  shelley_epoch_length := 432000;
  shelley_slot_length := 1;
  shelley_known_slot := 86400;
  shelley_known_hash := "c971bfb21d2732457f9febf79d9b02b20b9a3bef12c561a78b818bcb8b35a574";
  shelley_known_time := 1655769600
|}.

Definition from_magic (magic : Z) : option GenesisValues :=
  if magic =? MAINNET_MAGIC then Some mainnet
  else if magic =? TESTNET_MAGIC then Some testnet
  else if magic =? PREVIEW_MAGIC then Some preview
  else if magic =? PRE_PRODUCTION_MAGIC then Some preprod
  else None.

(** ** Arithmetic *)
Definition checked_mul (w a b : Z) : option Z := if a * b <? 2 ^ w then Some (a * b) else None.
Definition checked_div (a b : Z) : option Z := if b =? 0 then None else Some (a / b).

Definition compute_linear_timestamp (known_slot known_time slot_length query_slot : Z) : option Z :=
  slots ← checked_sub query_slot known_slot;
  time ← checked_mul 64 slots slot_length;
  checked_add 64 known_time time.

(** The [assert!] comes first. *)
Definition compute_era_epoch (era_slot era_slot_length era_epoch_length : Z) : option (Z * Z) :=
  if 0 <? era_epoch_length then
    time ← checked_mul 64 era_slot era_slot_length;
    let epoch := time / era_epoch_length in
    let reminder := era_slot mod era_epoch_length in
    Some (epoch, reminder)
  else None.

Definition compute_absolute_slot_within_era (sub_era_epoch sub_epoch_slot era_epoch_length era_slot_length : Z) :
    option Z :=
  time ← checked_mul 64 sub_era_epoch era_epoch_length;
  slots ← checked_div time era_slot_length;
  checked_add 64 slots sub_epoch_slot.

(** ** [GenesisValues] *)
Section genesis.
Variable self : GenesisValues.

Definition shelley_start_epoch : option Z :=
  '(epoch, _) ← compute_era_epoch (shelley_known_slot self) (byron_slot_length self) (byron_epoch_length self);
  Some epoch.

Definition slot_to_wallclock (slot : Z) : option Z :=
  if slot <? shelley_known_slot self then
    compute_linear_timestamp (byron_known_slot self) (byron_known_time self) (byron_slot_length self) slot
  else
    compute_linear_timestamp (shelley_known_slot self) (shelley_known_time self) (shelley_slot_length self) slot.

Definition absolute_slot_to_relative (slot : Z) : option (Z * Z) :=
  if slot <? shelley_known_slot self then
    compute_era_epoch slot (byron_slot_length self) (byron_epoch_length self)
  else
    era_slot ← checked_sub slot (shelley_known_slot self);
    '(era_epoch, reminder) ← compute_era_epoch era_slot (shelley_slot_length self) (shelley_epoch_length self);
    start ← shelley_start_epoch;
    epoch ← checked_add 64 start era_epoch;
    Some (epoch, reminder).

Definition relative_slot_to_absolute (epoch slot : Z) : option Z :=
  start ← shelley_start_epoch;
  if epoch <? start then
    compute_absolute_slot_within_era epoch slot (byron_epoch_length self) (byron_slot_length self)
  else
    byron_slots ← compute_absolute_slot_within_era start 0 (byron_epoch_length self) (byron_slot_length self);
    era_epoch ← checked_sub epoch start;
    shelley_slots ← compute_absolute_slot_within_era era_epoch slot (shelley_epoch_length self) (shelley_slot_length self);
    checked_add 64 byron_slots shelley_slots.
End genesis.

(** ** What they compute *)
Lemma checked_mul_lt w a b : a * b < 2 ^ w -> checked_mul w a b = Some (a * b).
Proof. intros. unfold checked_mul. by rewrite (proj2 (Z.ltb_lt _ _)). Qed.

Lemma checked_mul_Some w a b c : checked_mul w a b = Some c <-> a * b < 2 ^ w /\ c = a * b.
Proof. unfold checked_mul. destruct (Z.ltb_spec (a * b) (2 ^ w)); split; intros; simplify_eq; lia || (f_equal; lia). Qed.

Lemma checked_add_lt w a b : a + b < 2 ^ w -> checked_add w a b = Some (a + b).
Proof. intros. unfold checked_add. by rewrite (proj2 (Z.ltb_lt _ _)). Qed.

Lemma checked_div_pos a b : 0 < b -> checked_div a b = Some (a / b).
Proof. intros. unfold checked_div. by rewrite (proj2 (Z.eqb_neq _ 0)) by lia. Qed.

(** The parameters are those of a chain: the Byron era ends with an epoch, and a slot
    of the Shelley era has one second. *)
Record sound (g : GenesisValues) : Prop := {
  sound_lengths : 0 < byron_slot_length g /\ 0 < byron_epoch_length g < 2 ^ 32 /\ 0 < shelley_epoch_length g < 2 ^ 32;
  sound_byron : byron_epoch_length g mod byron_slot_length g = 0;
  sound_second : shelley_slot_length g = 1;
  sound_known : 0 <= shelley_known_slot g;
  sound_small : shelley_known_slot g * byron_slot_length g < 2 ^ 64;
  sound_boundary : (shelley_known_slot g * byron_slot_length g) mod byron_epoch_length g = 0
}.

(** The slots of a Byron epoch. *)
Definition byron_epoch_slots (g : GenesisValues) : Z := byron_epoch_length g / byron_slot_length g.

Section sound.
Context (g : GenesisValues) (Hg : sound g).

Lemma byron_epoch_product : byron_epoch_length g = byron_epoch_slots g * byron_slot_length g.
Proof.
  destruct Hg as [(H1 & H2 & H3) Hb _ _ _ _]. unfold byron_epoch_slots.
  pose proof (Z.div_mod (byron_epoch_length g) (byron_slot_length g)). lia.
Qed.

Lemma byron_epoch_slots_pos : 0 < byron_epoch_slots g.
Proof. pose proof byron_epoch_product. destruct Hg as [(H1 & H2 & H3) _ _ _ _ _]. nia. Qed.

Lemma start_epoch :
  exists e, shelley_start_epoch g = Some e /\ 0 <= e /\ shelley_known_slot g = e * byron_epoch_slots g /\
    e * byron_epoch_length g = shelley_known_slot g * byron_slot_length g.
Proof.
  pose proof byron_epoch_product as Hp. pose proof byron_epoch_slots_pos.
  destruct Hg as [(H1 & H2 & H3) _ _ Hk Hs Hb].
  unfold shelley_start_epoch, compute_era_epoch. rewrite (proj2 (Z.ltb_lt 0 _)), checked_mul_lt by lia. simpl.
  eexists. split; [done|]. pose proof (Z.div_mod (shelley_known_slot g * byron_slot_length g) (byron_epoch_length g)).
  assert (0 <= shelley_known_slot g * byron_slot_length g / byron_epoch_length g) by (apply Z.div_pos; nia).
  split_and!; [done|nia|lia].
Qed.

(** In the Shelley era. *)
Lemma shelley_relative slot :
  shelley_known_slot g <= slot -> in_u 64 slot ->
  exists e, shelley_start_epoch g = Some e /\
    absolute_slot_to_relative g slot =
      Some (e + (slot - shelley_known_slot g) / shelley_epoch_length g, (slot - shelley_known_slot g) mod shelley_epoch_length g).
Proof.
  intros Hs [H0 H64]. destruct start_epoch as (e & He & He0 & Hk & _). exists e. split; [done|].
  pose proof (byron_epoch_slots_pos) as Hpos. destruct Hg as [(H1 & H2 & H3) _ Hsec Hk0 _ _].
  unfold absolute_slot_to_relative. rewrite (proj2 (Z.ltb_ge _ _)), checked_sub_le by done. cbn [mbind option_bind].
  unfold compute_era_epoch. rewrite (proj2 (Z.ltb_lt 0 (shelley_epoch_length g))), Hsec, checked_mul_lt by lia.
  cbn [mbind option_bind]. rewrite He. cbn [mbind option_bind]. rewrite Z.mul_1_r, checked_add_lt; [done|].
  assert ((slot - shelley_known_slot g) / shelley_epoch_length g <= slot - shelley_known_slot g) by (apply Z.div_le_upper_bound; nia).
  nia.
Qed.

Lemma shelley_absolute e epoch s :
  shelley_start_epoch g = Some e -> e <= epoch -> 0 <= s ->
  shelley_known_slot g + (epoch - e) * shelley_epoch_length g + s < 2 ^ 64 ->
  relative_slot_to_absolute g epoch s = Some (shelley_known_slot g + (epoch - e) * shelley_epoch_length g + s).
Proof.
  intros He Hepoch Hs Hlt. destruct start_epoch as (e' & He' & He0 & Hk & Hke). rewrite He in He'. injection He' as <-.
  pose proof (byron_epoch_slots_pos) as Hpos. destruct Hg as [(H1 & H2 & H3) _ Hsec Hk0 Hsm _].
  unfold relative_slot_to_absolute. rewrite He. cbn [mbind option_bind]. rewrite (proj2 (Z.ltb_ge _ _)) by done.
  unfold compute_absolute_slot_within_era. rewrite checked_mul_lt by lia. cbn [mbind option_bind].
  rewrite checked_div_pos, Hke, Z.div_mul by lia. cbn [mbind option_bind]. rewrite checked_add_lt by nia.
  cbn [mbind option_bind]. rewrite checked_sub_le by done. cbn [mbind option_bind].
  rewrite checked_mul_lt by nia. cbn [mbind option_bind]. rewrite Hsec, checked_div_pos, Z.div_1_r by lia.
  cbn [mbind option_bind]. rewrite checked_add_lt by nia. cbn [mbind option_bind]. rewrite checked_add_lt by nia.
  f_equal. lia.
Qed.

(** In the Byron era. *)
Lemma byron_relative slot :
  0 <= slot < shelley_known_slot g ->
  absolute_slot_to_relative g slot = Some (slot / byron_epoch_slots g, slot mod byron_epoch_length g).
Proof.
  intros Hs. pose proof byron_epoch_product as Hp. pose proof byron_epoch_slots_pos as Hpos.
  destruct Hg as [(H1 & H2 & H3) _ _ Hk0 Hsm _].
  unfold absolute_slot_to_relative, compute_era_epoch.
  rewrite (proj2 (Z.ltb_lt slot _)), (proj2 (Z.ltb_lt 0 _)), checked_mul_lt by nia. cbn [mbind option_bind].
  do 2 f_equal. rewrite Hp at 1. rewrite Z.div_mul_cancel_r by lia. done.
Qed.

Lemma byron_absolute e epoch s :
  shelley_start_epoch g = Some e -> 0 <= epoch < e -> 0 <= s -> epoch * byron_epoch_slots g + s < 2 ^ 64 ->
  relative_slot_to_absolute g epoch s = Some (epoch * byron_epoch_slots g + s).
Proof.
  intros He Hepoch Hs Hlt. destruct start_epoch as (e' & He' & He0 & Hk & Hke). rewrite He in He'. injection He' as <-.
  pose proof byron_epoch_product as Hp. pose proof byron_epoch_slots_pos as Hpos.
  destruct Hg as [(H1 & H2 & H3) _ _ Hk0 Hsm _].
  unfold relative_slot_to_absolute. rewrite He. cbn [mbind option_bind]. rewrite (proj2 (Z.ltb_lt _ _)) by lia.
  unfold compute_absolute_slot_within_era.
  assert (epoch * byron_epoch_length g < 2 ^ 64) by nia.
  rewrite checked_mul_lt by done. cbn [mbind option_bind]. rewrite checked_div_pos by lia. cbn [mbind option_bind].
  assert (epoch * byron_epoch_length g / byron_slot_length g = epoch * byron_epoch_slots g) as ->.
  { rewrite Hp, Z.mul_assoc, Z.div_mul by lia. done. }
  by rewrite checked_add_lt.
Qed.
End sound.

(** ** The networks *)
Definition well_known : list GenesisValues := [mainnet; testnet; preview; preprod].

Lemma well_known_sound g : g ∈ well_known -> sound g.
Proof.
  unfold well_known. intros Hg. repeat (apply elem_of_cons in Hg as [->|Hg]; [by repeat split|]). by apply not_elem_of_nil in Hg.
Qed.

Lemma linear_timestamp known_slot known_time slot_length slot :
  0 <= known_time -> 0 <= slot_length -> known_slot <= slot ->
  compute_linear_timestamp known_slot known_time slot_length slot =
    let t := known_time + (slot - known_slot) * slot_length in if t <? 2 ^ 64 then Some t else None.
Proof.
  intros Ht Hl Hs. unfold compute_linear_timestamp. rewrite checked_sub_le by done. cbn [mbind option_bind].
  unfold checked_mul, checked_add. destruct (Z.ltb_spec ((slot - known_slot) * slot_length) (2 ^ 64)); cbn [mbind option_bind]; [done|].
  by rewrite (proj2 (Z.ltb_ge _ _)) by lia.
Qed.

Lemma wallclock_linear g slot :
  g ∈ well_known -> 0 <= slot ->
  slot_to_wallclock g slot =
    let t := if slot <? shelley_known_slot g then byron_known_time g + slot * byron_slot_length g
             else shelley_known_time g + (slot - shelley_known_slot g) in
    if t <? 2 ^ 64 then Some t else None.
Proof.
  intros Hg Hs. unfold slot_to_wallclock.
  assert (byron_known_slot g = 0 /\ 0 <= byron_known_time g /\ 0 <= byron_slot_length g /\ 0 <= shelley_known_time g /\
    shelley_slot_length g = 1) as (Hk & Hb & Hl & Ht & Hsec).
  { unfold well_known in Hg. repeat (apply elem_of_cons in Hg as [->|Hg]; [done|]). by apply not_elem_of_nil in Hg. }
  destruct (Z.ltb_spec slot (shelley_known_slot g)).
  - rewrite linear_timestamp by lia. by rewrite Hk, Z.sub_0_r.
  - rewrite linear_timestamp by lia. by rewrite Hsec, Z.mul_1_r.
Qed.

(** A slot of the Shelley era, there and back. *)
Lemma shelley_slot_roundtrip g slot :
  g ∈ well_known -> shelley_known_slot g <= slot -> in_u 64 slot ->
  exists epoch s, absolute_slot_to_relative g slot = Some (epoch, s) /\ 0 <= s < shelley_epoch_length g /\
    relative_slot_to_absolute g epoch s = Some slot.
Proof.
  intros Hg%well_known_sound Hs Hu. destruct (shelley_relative g Hg slot Hs Hu) as (e & He & ->).
  pose proof (sound_lengths g Hg) as (_ & _ & Hl). set (d := slot - shelley_known_slot g).
  assert (0 <= d / shelley_epoch_length g) by (apply Z.div_pos; lia).
  pose proof (Z.div_mod d (shelley_epoch_length g)) as Hd. pose proof (Z.mod_pos_bound d (shelley_epoch_length g)) as Hm.
  eexists _, _. split_and!; [done|lia|lia|]. destruct Hu as [Hu0 Hu1].
  rewrite (shelley_absolute g Hg e) by (done || lia). f_equal. lia.
Qed.

(** A slot of the Byron era, there and back. *)
Lemma byron_slot_relation g slot :
  g ∈ well_known -> 0 <= slot < shelley_known_slot g ->
  let slots := byron_epoch_slots g in
  relative_slot_to_absolute g (slot / slots) (slot mod slots) = Some slot /\
  exists epoch s, absolute_slot_to_relative g slot = Some (epoch, s) /\ epoch = slot / slots /\
    (relative_slot_to_absolute g epoch s = Some slot <-> slot mod byron_epoch_length g < slots).
Proof.
  intros Hg%well_known_sound Hs slots. pose proof (byron_epoch_slots_pos g Hg) as Hpos. fold slots in Hpos.
  destruct (start_epoch g Hg) as (e & He & He0 & Hk & Hke). pose proof (byron_epoch_product g Hg) as Hp. fold slots in Hp, Hk.
  pose proof (sound_lengths g Hg) as (Hb1 & Hb2 & _). pose proof (sound_small g Hg) as Hsm.
  assert (0 <= slot / slots < e) as Hepoch.
  { split; [apply Z.div_pos; lia|]. apply Z.div_lt_upper_bound; lia. }
  pose proof (Z.div_mod slot slots ltac:(lia)) as Hd. pose proof (Z.mod_pos_bound slot slots Hpos) as Hm.
  split; [rewrite (byron_absolute g Hg e) by (done || fold slots; nia); f_equal; fold slots; lia|].
  eexists _, _. rewrite (byron_relative g Hg slot Hs). split_and!; [done|done|]. fold slots.
  pose proof (Z.mod_pos_bound slot (byron_epoch_length g) ltac:(lia)) as Hr.
  rewrite (byron_absolute g Hg e); [|done|done|lia|fold slots; nia]. fold slots.
  assert ((slot mod byron_epoch_length g) mod slots = slot mod slots) as Hmm.
  { rewrite Hp, Z.rem_mul_r, (Z.mul_comm slots (_ mod _)), Z.mod_add, Z.mod_mod by lia. done. }
  split.
  - intros [= Heq]. lia.
  - intros Hlt. f_equal. rewrite Z.mod_small in Hmm by lia. lia.
Qed.

(** C39: (round trip) on every well-known network a slot of the Shelley era is turned into its epoch and its slot within the
    epoch, and these into the slot again, over the whole range of 64 bits.  In the Byron era the true epoch and
    slot give the slot, and the epoch that is computed from a slot is the true one; but the slot within it is
    computed as the remainder by the seconds of an epoch instead of its slots, so that going there and back gives
    the slot only where the two remainders are the same. *)
Theorem slot_epoch_relation g slot :
  g ∈ well_known -> in_u 64 slot ->
  exists epoch s, absolute_slot_to_relative g slot = Some (epoch, s) /\
    if slot <? shelley_known_slot g then
      let slots := byron_epoch_slots g in
      relative_slot_to_absolute g (slot / slots) (slot mod slots) = Some slot /\ epoch = slot / slots /\
      (relative_slot_to_absolute g epoch s = Some slot <-> slot mod byron_epoch_length g < slots)
    else 0 <= s < shelley_epoch_length g /\ relative_slot_to_absolute g epoch s = Some slot.
Proof.
  intros Hg Hu. destruct (Z.ltb_spec slot (shelley_known_slot g)) as [Hlt|Hge].
  - destruct Hu as [H0 _]. destruct (byron_slot_relation g slot Hg) as (Hr & epoch & s & Ha & He & Hiff); [lia|]. eauto 10.
  - by apply shelley_slot_roundtrip.
Qed.

Lemma slot_epoch_relation_witness :
  (exists epoch s, absolute_slot_to_relative mainnet 51580240 = Some (epoch, s) /\
    0 <= s < 432000 /\ relative_slot_to_absolute mainnet epoch s = Some 51580240) /\
  absolute_slot_to_relative mainnet 21600 = Some (1, 21600) /\ relative_slot_to_absolute mainnet 1 21600 = Some 43200 /\
  relative_slot_to_absolute mainnet 1 0 = Some 21600.
Proof.
  split; [exact (slot_epoch_relation mainnet 51580240 ltac:(constructor) ltac:(split; [discriminate|reflexivity]))|].
  split; [vm_compute; reflexivity|]. split; [vm_compute; reflexivity|].
  destruct (slot_epoch_relation mainnet 21600 ltac:(constructor) ltac:(split; [discriminate|reflexivity])) as (epoch & s & _ & H & _).
  exact H.
Defined.

(** (monotonicity and bounds) on every well-known network time goes on with the slots within an era, and from one era
    to the next, except on the testnet, where the first slots of the Shelley era are given an earlier time than the
    last ones of the Byron era; the conversion panics exactly where the time does not fit in 64 bits. *)
Theorem wallclock_monotone g slot1 slot2 :
  g ∈ well_known -> 0 <= slot1 < slot2 ->
  match slot_to_wallclock g slot1, slot_to_wallclock g slot2 with
  | Some t1, Some t2 =>
      t1 < t2 \/ g = testnet /\ slot1 < shelley_known_slot g <= slot2
  | Some t1, None => 2 ^ 64 - 2 ^ 32 <= slot2
  | None, Some _ => False
  | None, None => 2 ^ 64 - 2 ^ 32 <= slot1
  end.
Proof.
  intros Hg Hs. rewrite !wallclock_linear by (done || lia). cbv zeta.
  unfold well_known in Hg.
  repeat (apply elem_of_cons in Hg as [->|Hg];
    [cbn [shelley_known_slot byron_known_time byron_slot_length shelley_known_time mainnet testnet preview preprod];
     repeat case_match; rewrite ?Z.ltb_lt, ?Z.ltb_ge in *; simplify_eq; first [lia | right; split; [done|lia]]|]).
  by apply not_elem_of_nil in Hg.
Qed.

Lemma wallclock_monotone_witness :
  slot_to_wallclock testnet 1598399 = Some 1595978396 /\ slot_to_wallclock testnet 1598400 = Some 1595967616 /\
  match slot_to_wallclock mainnet 4492799, slot_to_wallclock mainnet 4492800 with
  | Some t1, Some t2 => t1 < t2 \/ mainnet = testnet /\ 4492799 < shelley_known_slot mainnet <= 4492800
  | _, _ => False
  end.
Proof.
  split; [vm_compute; reflexivity|]. split; [vm_compute; reflexivity|].
  apply (wallclock_monotone mainnet 4492799 4492800); [constructor|split; [discriminate|reflexivity]].
Defined.
