(* ===== verification/Truncation.v ===== *)
(** * Truncated input

    minicbor tells input that ends too early ([EndOfInput]) from input that is
    wrong: more bytes never mend the latter.  This file states that behaviour of the
    decoders ([Robust]), the laws of the primitives ([MinicborErrors], with the
    implementation of [Rfc8949] as an instance), and what a reader of segments relies
    on: a beginning of a message is reported as such ([Framed]). *)
From S2P Require Import Prelude Cbor Rfc8949.

#[export] Instance decode_error_eq_dec : EqDecision decode_error.
Proof. solve_decision. Defined.

(** An error other than the end of the input is not mended by more input. *)
Definition Robust {A} (d : dec A) : Prop :=
  forall b e, d b = Err e -> e <> EndOfInput -> forall s, d (b ++ s) = Err e.

Class MinicborErrors (M : Minicbor) : Prop := {
  array_robust : Robust d_array;
  map_robust : Robust d_map;
  u8_robust : Robust d_u8;
  u16_robust : Robust d_u16;
  u32_robust : Robust d_u32;
  u64_robust : Robust d_u64;
  bool_robust : Robust d_bool;
  bytes_robust : Robust d_bytes;
  str_robust : Robust d_str;
  tag_robust : Robust d_tag;
  skip_robust : Robust d_skip;
  datatype_robust : Robust d_datatype;
  seq_robust A (d : dec A) : Stable d -> Robust d -> Robust (d_seq d);
  datatype_empty : d_datatype [] = Err EndOfInput;
  (** The header of a short array is one byte. *)
  array_short n w : 0 <= n < 24 -> w_array n = Some w -> length w = 1%nat;
  tuple2_robust A B (da : dec A) (db : dec B) :
    Stable da -> Robust da -> Stable db -> Robust db -> Robust (d_tuple2 da db);
  option_robust A (d : dec A) : Stable d -> Robust d -> Robust (d_option d)
}.
#[export] Hint Resolve array_robust map_robust u8_robust u16_robust u32_robust u64_robust bool_robust
  bytes_robust str_robust tag_robust skip_robust datatype_robust seq_robust tuple2_robust option_robust : codec.

(** ** The calculus *)
Lemma Robust_ret {A} (x : A) : Robust (mret x).
Proof. by intros b e. Qed.

Lemma Robust_fail {A} e : Robust (@dec_fail A e).
Proof. by intros b e' [= <-] _ s. Qed.

Lemma Robust_bind {A B} (d : dec A) (k : A -> dec B) :
  Stable d -> Robust d -> (forall a, Robust (k a)) -> Robust (d ≫= k).
Proof.
  intros Hs Hd Hk b e. unfold mbind, dec_bind. destruct (d b) as [[a r]|e'] eqn:E.
  - intros He Hne s. destruct (Hs _ _ _ E) as [_ ->]. by apply Hk.
  - intros [= ->] Hne s. by rewrite (Hd _ _ E Hne).
Qed.
#[export] Hint Resolve Robust_ret Robust_fail : codec.

(** [solve_robust] is [solve_stable] for errors. *)
Ltac solve_robust :=
  repeat first
    [ progress intros
    | solve [eauto with codec]
    | apply tuple2_robust; solve [eauto with codec]
    | apply Robust_bind; [solve [solve_stable]|..]
    | match goal with
      | |- Robust (match ?x with _ => _ end) => destruct x
      | |- Robust (if ?x then _ else _) => destruct x
      end ].

(** A codec whose messages can be read as they arrive. *)
Class Fragment (A : Type) `{Codec A} : Prop := {
  fragment_robust : Robust (decode (A := A));
  fragment_consumes : Consumes (decode (A := A))
}.

(** ... and one that is only part of a message. *)
Class ErrorStable (A : Type) `{Decode A} : Prop := error_stable : Robust (decode (A := A)).
#[export] Instance fragment_error_stable `{Fragment A} : ErrorStable A.
Proof. apply fragment_robust. Qed.
#[export] Hint Extern 2 (Robust decode) => (apply error_stable) : codec.

(** [solve_fragment d] for a decoder [d] that opens with an array header. *)
Tactic Notation "solve_fragment" reference(d) :=
  split; unfold decode; unfold d;
    [solve_robust|apply Consumes_bind; [apply array_consumes|intros; solve_stable]].

(** What a reader of segments relies on: a message is read as it was written, and the
    beginning of one, if there is any, is reported as such. *)
Class Framed (A : Type) `{Encode A, Decode A, Valid A} : Prop := {
  framed_parses (x : A) : valid x -> Parses decode (encode x) x;
  framed_part (x : A) p s : valid x -> encode x = Some (p ++ s) -> p <> [] -> s <> [] ->
    decode (A := A) p = Err EndOfInput;
  framed_nonempty (x : A) w : valid x -> encode x = Some w -> w <> []
}.

Lemma truncated_input {A} (d : dec A) (x : A) p s :
  Stable d -> Robust d -> Parses d (Some (p ++ s)) x -> s <> [] -> d p = Err EndOfInput.
Proof.
  intros Hst Hr Hp Hs. pose proof (Hp _ [] eq_refl) as Hd. rewrite app_nil_r in Hd.
  pose proof (Stable_prefix_fails _ p s x Hst Hd Hs) as Hf.
  destruct (d p) as [|e] eqn:E; [done|]. destruct (decide (e = EndOfInput)) as [->|Hne]; [done|].
  by rewrite (Hr p e E Hne) in Hd.
Qed.

Section truncated.
Context `{Fragment A}.

#[export] Instance fragment_framed : Framed A.
Proof.
  split.
  - exact codec_parses.
  - intros x p s Hx He _ Hs. apply (truncated_input decode x p s); [apply codec_stable|apply fragment_robust| |done].
    rewrite <- He. by apply codec_parses.
  - intros x w Hx He ->. pose proof (codec_parses x Hx _ [] He) as Hd. apply fragment_consumes in Hd. simpl in Hd. lia.
Qed.
End truncated.

#[export] Instance AnyCbor_error_stable `{ML : MinicborLaws} `{!MinicborErrors M} : ErrorStable AnyCbor.
Proof.
  intros b e. unfold decode, AnyCbor_decode. destruct (d_skip b) as [[[] r]|e'] eqn:E; [done|].
  intros [= ->] Hne s. by rewrite (skip_robust _ _ E Hne).
Qed.

(** ** The laws hold of [Rfc8949] *)
Lemma d_take_robust n : Robust (d_take n).
Proof. intros b e. unfold d_take. destruct (_ <=? _)%nat; [done|]. by intros [= <-]. Qed.
#[local] Hint Resolve d_take_robust d_take_stable d_head_stable d_len_stable skip_head_stable : codec.

Lemma d_head_robust : Robust d_head.
Proof.
  intros [|h b] e; [by intros [= <-]|]. rewrite d_head_cons. intros He Hne s.
  change ((h :: b) ++ s) with (h :: b ++ s). rewrite d_head_cons.
  destruct (h mod 32 <? 24); [done|]. destruct (h mod 32 =? 31); [done|].
  destruct (h mod 32 <? 28); [|done].
  assert (Robust (v ← d_take (arg_len (h mod 32)); mret (h / 32, Some (of_be v)))) as Hr by solve_robust.
  by apply Hr.
Qed.
#[local] Hint Resolve d_head_robust : codec.

Lemma d_len_robust mt : Robust (d_len mt).
Proof. unfold d_len. solve_robust. Qed.
#[local] Hint Resolve d_len_robust : codec.

Lemma d_uint_robust w : Robust (d_uint w).
Proof. unfold d_uint. solve_robust. Qed.

Lemma d_blob_robust mt : Robust (d_blob mt).
Proof. unfold d_blob. solve_robust. Qed.

Lemma rep_robust {A} n (d : dec A) : Stable d -> Robust d -> Robust (rep n d).
Proof.
  intros Hs Hd. induction n as [|n IH]; cbn; [solve_robust|].
  apply Robust_bind; [done..|]. intros x. apply Robust_bind; [by apply rep_stable|done|solve_robust].
Qed.

Lemma until_break_robust {A} fuel fuel' (d : dec A) b e s :
  Stable d -> Robust d -> (fuel <= fuel')%nat ->
  until_break fuel d b = Err e -> e <> EndOfInput -> until_break fuel' d (b ++ s) = Err e.
Proof.
  intros Hs Hd. revert fuel' b; induction fuel as [|fuel IH]; intros [|fuel'] b Hf; try (by intros [= <-]); [lia|].
  destruct b as [|h b]; [by intros [= <-]|]. cbn [until_break app]. destruct (h =? 255); [done|].
  unfold mbind, dec_bind. change (h :: b ++ s) with ((h :: b) ++ s).
  destruct (d (h :: b)) as [[x r]|e'] eqn:E.
  - intros He Hne. destruct (Hs _ _ _ E) as [_ ->]. destruct (until_break fuel d r) as [[xs r']|e'] eqn:Er; [done|].
    injection He as ->. by rewrite (IH fuel' r ltac:(lia) Er Hne).
  - intros [= ->] Hne. by rewrite (Hd _ _ E Hne).
Qed.

Lemma d_items_robust {A} mt (d : dec A) : Stable d -> Robust d -> Robust (d_items mt d).
Proof.
  intros Hs Hd. unfold d_items. apply Robust_bind; [apply d_len_stable|apply d_len_robust|].
  intros [n|]; [by apply rep_robust|]. intros b e He Hne s.
  eapply until_break_robust; [done..| |exact He|done]. rewrite length_app. lia.
Qed.

Lemma skip_head_robust st h : Robust (skip_head st h).
Proof. unfold skip_head. destruct h as [mt n]. repeat case_match; solve_robust. Qed.
#[local] Hint Resolve skip_head_robust : codec.

Lemma skip_run_robust fuel fuel' st b e s :
  (fuel <= fuel')%nat ->
  skip_run fuel st b = Err e -> e <> EndOfInput -> skip_run fuel' st (b ++ s) = Err e.
Proof.
  revert fuel' st b; induction fuel as [|fuel IH]; intros [|fuel'] st b Hf; try (by intros [= <-]); [lia|].
  assert (forall st1 b, (h ← d_head; st' ← skip_head st1 h; skip_run fuel st') b = Err e -> e <> EndOfInput ->
    (h ← d_head; st' ← skip_head st1 h; skip_run fuel' st') (b ++ s) = Err e) as Hb.
  { intros st1 b1. unfold mbind, dec_bind. destruct (d_head b1) as [[h r]|e'] eqn:Eh.
    - destruct (d_head_stable _ _ _ Eh) as [_ ->]. destruct (skip_head st1 h r) as [[st' r']|e'] eqn:Es.
      + destruct (skip_head_stable _ _ _ _ _ Es) as [_ ->]. apply IH. lia.
      + intros [= ->] Hne. by rewrite (skip_head_robust _ _ _ _ Es Hne).
    - intros [= ->] Hne. by rewrite (d_head_robust _ _ Eh Hne). }
  cbn [skip_run]. destruct st as [|[n|] st]; [done|..].
  - destruct (n <=? 0); [apply IH; lia|apply Hb].
  - destruct b as [|x b]; [by intros [= <-]|]. cbn [app]. destruct (x =? 255); [apply IH; lia|].
    apply (Hb _ (x :: b)).
Qed.

Lemma d_skip_item_robust : Robust d_skip_item.
Proof. intros b e He Hne s. eapply skip_run_robust; [|exact He|done]. rewrite length_app. lia. Qed.

Lemma d_skip_any_robust : Robust d_skip_any.
Proof.
  intros b e He Hne s. destruct b as [|h b]; [by injection He as <-|].
  destruct (decide (h = 255)) as [->|Hh]; [done|].
  assert (forall t, d_skip_any (h :: t) = d_skip_item (h :: t)) as Hs.
  { intros t. unfold d_skip_any. repeat (case_match; try done; try lia). }
  rewrite Hs in He. cbn [app]. rewrite Hs. by apply (d_skip_item_robust (h :: b) e He Hne s).
Qed.

Lemma d_peek_robust : Robust d_peek.
Proof. intros [|h b] e; [by intros [= <-]|done]. Qed.

#[export] Instance rfc8949_errors : MinicborErrors rfc8949.
Proof.
  split; try (apply d_len_robust || apply d_uint_robust || apply d_blob_robust); cbn.
  - unfold d_simple_bool. solve_robust.
  - unfold d_tag_num. solve_robust.
  - apply d_skip_any_robust.
  - apply d_peek_robust.
  - intros A d. apply d_items_robust.
  - done.
  - intros n w Hn [= <-]. unfold e_head. by rewrite (proj2 (Z.ltb_lt n 24)) by lia.
  - intros A B da db Hs Ha Hsb Hb. unfold d_tuple, d_both. apply Robust_bind; [apply d_len_stable|apply d_len_robust|].
    intros [n|]; [|solve_robust]. repeat (case_match; try apply Robust_fail).
    all: apply Robust_bind; [done..|]; intros; apply Robust_bind; [solve_stable|done|solve_robust].
  - intros A d Hs Hd. unfold d_opt. apply Robust_bind; [apply d_peek_stable|apply d_peek_robust|].
    assert (Robust (x ← d; mret (Some x))) by solve_robust. intros []; try done.
    apply Robust_bind; [apply d_skip_item_stable|apply d_skip_item_robust|solve_robust].
Qed.
