(* ===== verification/Multiplexer.v ===== *)
(** * The multiplexer of the first generation

    [pallas-network/src/multiplexer.rs]: segments, the tasks that write and read them
    ([Muxer], [Demuxer]), the channel a mini-protocol agent is given ([AgentChannel])
    and the buffer that turns its chunks into messages ([ChannelBuffer]).  The byte
    orders and the socket are the interfaces of [Bearer]; a queue of tokio is an
    [mpsc].  A computation that waits on a queue is [Unfinished]. *)
From S2P Require Import Prelude Cbor Effects Network Bearer.

Definition HEADER_LEN : nat := 8.

Record Header := { protocol : Z; timestamp : Z; payload_len : Z }.
Record Segment := { header : Header; payload : bytes }.

Module Error.
Inductive t :=
| EmptyBearer
| BearerIo (e : io_error)
| Decoding (e : decode_error)
| Encoding
| AgentEnqueue (protocol : Z) (payload : bytes)
| AgentDequeue
| PlexerDemux (protocol : Z) (payload : bytes)
| PlexerMux
| AbortFailure.
End Error.

(** ** [tokio::sync::mpsc]

    What was sent and not yet received, and whether the ends still exist.  Its
    capacity only makes a sender wait, and is not modelled. *)
Record mpsc (A : Type) := { queue : list A; has_senders : bool; has_receiver : bool }.
Arguments queue {A} _.
Arguments has_senders {A} _.
Arguments has_receiver {A} _.
Arguments Build_mpsc {A} _ _ _.

Definition channel_new {A} : mpsc A := {| queue := []; has_senders := true; has_receiver := true |}.
Definition set_queue {A} (q : list A) (c : mpsc A) : mpsc A :=
  {| queue := q; has_senders := has_senders c; has_receiver := has_receiver c |}.

(** [None]: the value is given back. *)
Definition mpsc_send {A} (x : A) (c : mpsc A) : option (mpsc A) :=
  if has_receiver c then Some (set_queue (queue c ++ [x]) c) else None.

(** [None] for a channel without senders. *)
Definition mpsc_recv {E A} : comp E (mpsc A) (option A) := fun c =>
  match queue c with
  | x :: q => Returned (Ok (Some x)) (set_queue q c)
  | [] => if has_senders c then Unfinished else Returned (Ok None) c
  end.

Section plexer.
Context `{NetworkEndian} `{Connection P}.

(** ** Headers *)
Definition Header_from (value : bytes) : Header :=
  let timestamp := read_u32 (slice 0 4 value) in
  let protocol := read_u16 (slice 4 6 value) in
  let payload_len := read_u16 (slice 6 8 value) in
  {| timestamp := timestamp; protocol := protocol; payload_len := payload_len |}.

Definition Header_into (value : Header) : bytes :=
  write_u32 (timestamp value) ++ write_u16 (protocol value) ++ write_u16 (payload_len value).

(** ** The demuxer: the read half of the bearer and the egress channels *)
Record Demuxer := { read_half : P; egress : gmap Z (mpsc bytes) }.

Definition Demuxer_new (bearer : P) : Demuxer := {| read_half := bearer; egress := ∅ |}.

Definition bearer_read (n : nat) : comp Error.t Demuxer bytes := fun self =>
  match read_exact n (read_half self) with
  | Ok (buf, p) => Returned (Ok buf) {| read_half := p; egress := egress self |}
  | Err e => Returned (Err (Error.BearerIo e)) self
  end.

Definition demuxer_read_segment : comp Error.t Demuxer (Z * bytes) :=
  buf ← bearer_read HEADER_LEN;
  let header := Header_from buf in
  let segment_size := Z.to_nat (payload_len header) in
  buf ← bearer_read segment_size;
  mret (protocol header, buf).

(** The segment of a protocol nobody subscribed to is dropped. *)
Definition demux (protocol : Z) (payload : bytes) : comp Error.t Demuxer unit := fun self =>
  match egress self !! protocol with
  | Some sender =>
      match mpsc_send payload sender with
      | Some sender => Returned (Ok ()) {| read_half := read_half self; egress := <[protocol := sender]> (egress self) |}
      | None => Returned (Err (Error.PlexerDemux protocol payload)) self
      end
  | None => Returned (Ok ()) self
  end.

Definition demuxer_subscribe (protocol : Z) (self : Demuxer) : mpsc bytes * Demuxer :=
  (channel_new, {| read_half := read_half self; egress := <[protocol := channel_new]> (egress self) |}).

Definition demuxer_tick : comp Error.t Demuxer unit :=
  '(protocol, payload) ← demuxer_read_segment;
  demux protocol payload.

Fixpoint demuxer_run (fuel : nat) : comp Error.t Demuxer unit :=
  match fuel with
  | O => unfinished
  | S fuel => _ ← demuxer_tick; demuxer_run fuel
  end.

(** ** The muxer: the write half and the ingress queue all agents share *)
Record Muxer := { write_half : P; ingress : mpsc (Z * bytes) }.

Definition Muxer_new (bearer : P) : Muxer := {| write_half := bearer; ingress := channel_new |}.

(** [elapsed]: the microseconds the clock gives. *)
Definition muxer_write_segment (elapsed protocol : Z) (payload : bytes) (p : P) : result io_error P :=
  let header := {| protocol := protocol; timestamp := elapsed mod 2 ^ 32;
                   payload_len := Z.of_nat (length payload) mod 2 ^ 16 |} in
  let buf := Header_into header in
  p ← write_all buf p;
  p ← write_all payload p;
  p ← flush p;
  Ok p.

Definition mux (elapsed : Z) (msg : Z * bytes) : comp Error.t Muxer unit := fun self =>
  match muxer_write_segment elapsed msg.1 msg.2 (write_half self) with
  | Ok p => Returned (Ok ()) {| write_half := p; ingress := ingress self |}
  | Err _ => Returned (Err Error.PlexerMux) self
  end.

Definition muxer_recv : comp Error.t Muxer (option (Z * bytes)) := fun self =>
  match mpsc_recv (E := Error.t) (ingress self) with
  | Returned r q => Returned r {| write_half := write_half self; ingress := q |}
  | Panicked => Panicked
  | Unfinished => Unfinished
  end.

Definition muxer_tick (elapsed : Z) : comp Error.t Muxer unit :=
  msg ← muxer_recv;
  match msg with
  | Some x => mux elapsed x
  | None => mret ()
  end.

(** One reading of the clock for each turn. *)
Fixpoint muxer_run (clock : list Z) : comp Error.t Muxer unit :=
  match clock with
  | [] => unfinished
  | elapsed :: clock => _ ← muxer_tick elapsed; muxer_run clock
  end.
End plexer.
Arguments Demuxer P : clear implicits.
Arguments Muxer P : clear implicits.

(** ** Agents *)
Record AgentChannel := { agent_protocol : Z; to_plexer : mpsc (Z * bytes); from_plexer : mpsc bytes }.

Definition for_client (protocol : Z) (to_plexer : mpsc (Z * bytes)) (from_plexer : mpsc bytes) : AgentChannel :=
  {| agent_protocol := protocol; from_plexer := from_plexer; to_plexer := to_plexer |}.
Definition for_server (protocol : Z) (to_plexer : mpsc (Z * bytes)) (from_plexer : mpsc bytes) : AgentChannel :=
  {| agent_protocol := protocol; from_plexer := from_plexer; to_plexer := to_plexer |}.

Definition enqueue_chunk (chunk : bytes) : comp Error.t AgentChannel unit := fun self =>
  match mpsc_send (agent_protocol self, chunk) (to_plexer self) with
  | Some q => Returned (Ok ()) {| agent_protocol := agent_protocol self; to_plexer := q; from_plexer := from_plexer self |}
  | None => Returned (Err (Error.AgentEnqueue (agent_protocol self) chunk)) self
  end.

Definition dequeue_chunk : comp Error.t AgentChannel bytes := fun self =>
  match mpsc_recv (E := Error.t) (from_plexer self) with
  | Returned (Ok (Some chunk)) q =>
      Returned (Ok chunk) {| agent_protocol := agent_protocol self; to_plexer := to_plexer self; from_plexer := q |}
  | Returned (Ok None) _ => Returned (Err Error.AgentDequeue) self
  | Returned (Err e) _ => Returned (Err e) self
  | Panicked => Panicked
  | Unfinished => Unfinished
  end.

(** The two halves of a bearer; the queues of the channels are shared with the agents. *)
Record Plexer (P : Type) := { demuxer : Demuxer P; muxer : Muxer P }.
Arguments demuxer {P} _.
Arguments muxer {P} _.

Definition Plexer_new {P} (r w : P) : Plexer P := {| demuxer := Demuxer_new r; muxer := Muxer_new w |}.

Definition subscribe_client {P} (protocol : Z) (self : Plexer P) : AgentChannel * Plexer P :=
  let to_plexer := ingress (muxer self) in
  let (from_plexer, d) := demuxer_subscribe (Z.lxor protocol 0x8000) (demuxer self) in
  (for_client protocol to_plexer from_plexer, {| demuxer := d; muxer := muxer self |}).

Definition subscribe_server {P} (protocol : Z) (self : Plexer P) : AgentChannel * Plexer P :=
  let to_plexer := ingress (muxer self) in
  let (from_plexer, d) := demuxer_subscribe protocol (demuxer self) in
  (for_server (Z.lxor protocol 0x8000) to_plexer from_plexer, {| demuxer := d; muxer := muxer self |}).

(** ** Messages *)
Definition MAX_SEGMENT_PAYLOAD_LENGTH : nat := Z.to_nat 65535.

(** On success the bytes that were read are drained from the buffer. *)
Definition try_decode_message {M} `{Decode M} : comp Error.t bytes (option M) := fun buffer =>
  match decode buffer with
  | Ok (msg, rest) => Returned (Ok (Some msg)) rest
  | Err EndOfInput => Returned (Ok None) buffer
  | Err err => Returned (Err (Error.Decoding err)) buffer
  end.

Record ChannelBuffer := { channel : AgentChannel; temp : bytes }.

Definition ChannelBuffer_new (channel : AgentChannel) : ChannelBuffer := {| channel := channel; temp := [] |}.
Definition ChannelBuffer_unwrap (self : ChannelBuffer) : AgentChannel := channel self.

Definition on_channel {A} (m : comp Error.t AgentChannel A) : comp Error.t ChannelBuffer A := fun self =>
  match m (channel self) with
  | Returned r c => Returned r {| channel := c; temp := temp self |}
  | Panicked => Panicked
  | Unfinished => Unfinished
  end.

Definition on_temp {A} (m : comp Error.t bytes A) : comp Error.t ChannelBuffer A := fun self =>
  match m (temp self) with
  | Returned r t => Returned r {| channel := channel self; temp := t |}
  | Panicked => Panicked
  | Unfinished => Unfinished
  end.

Fixpoint enqueue_chunks (chunks : list bytes) : comp Error.t ChannelBuffer unit :=
  match chunks with
  | [] => mret ()
  | chunk :: chunks => _ ← on_channel (enqueue_chunk chunk); enqueue_chunks chunks
  end.

Definition send_msg_chunks {M} `{Encode M} (msg : M) : comp Error.t ChannelBuffer unit :=
  match encode msg with
  | None => throw Error.Encoding
  | Some payload => enqueue_chunks (chunks MAX_SEGMENT_PAYLOAD_LENGTH payload)
  end.

(** Each turn takes a chunk, so the fuel is one more than the chunks there are. *)
Fixpoint recv_loop {M} `{Decode M} (fuel : nat) : comp Error.t ChannelBuffer M :=
  match fuel with
  | O => unfinished
  | S fuel =>
      chunk ← on_channel dequeue_chunk;
      _ ← on_temp (modify (fun temp => temp ++ chunk));
      msg ← on_temp try_decode_message;
      match msg with
      | Some msg => mret msg
      | None => recv_loop fuel
      end
  end.

Definition recv_full_msg {M} `{Decode M} : comp Error.t ChannelBuffer M :=
  self ← get;
  let fuel := S (length (queue (from_plexer (channel self)))) in
  match temp self with
  | [] => recv_loop fuel
  | _ =>
      msg ← on_temp try_decode_message;
      match msg with
      | Some msg => mret msg
      | None => recv_loop fuel
      end
  end.
