(* ===== verification/Channels.v ===== *)
(** * Messages through the multiplexer

    What [send_msg_chunks] and [recv_full_msg] of [Multiplexer] do to the bytes in
    transit, and that two multiplexers at the ends of a connection form one FIFO queue
    for every protocol. *)
From S2P Require Import Prelude Cbor Truncation Effects Network Bearer Multiplexer.

(** ** Sending and receiving messages *)

(** The bytes that have arrived and are not read yet. *)
Definition inbound (b : ChannelBuffer) : bytes := temp b ++ concat (queue (from_plexer (channel b))).

(** The channel is in use at its other ends. *)
Definition connected (b : ChannelBuffer) : Prop :=
  has_receiver (to_plexer (channel b)) = true /\ has_senders (from_plexer (channel b)) = true.

(** The buffer after chunks were handed to the multiplexer. *)
Definition with_sent (cs : list bytes) (b : ChannelBuffer) : ChannelBuffer :=
  let c := channel b in
  {| channel := {| agent_protocol := agent_protocol c;
                   to_plexer := set_queue (queue (to_plexer c) ++ (pair (agent_protocol c) <$> cs)) (to_plexer c);
                   from_plexer := from_plexer c |};
     temp := temp b |}.

(** The buffer with other bytes arrived. *)
Definition with_inbound (t : bytes) (q : list bytes) (b : ChannelBuffer) : ChannelBuffer :=
  let c := channel b in
  {| channel := {| agent_protocol := agent_protocol c; to_plexer := to_plexer c;
                   from_plexer := set_queue q (from_plexer c) |};
     temp := t |}.

Lemma inbound_with t q b : inbound (with_inbound t q b) = t ++ concat q.
Proof. done. Qed.

Lemma with_inbound_twice t q t' q' b : with_inbound t q (with_inbound t' q' b) = with_inbound t q b.
Proof. done. Qed.

Lemma with_inbound_same b : with_inbound (temp b) (queue (from_plexer (channel b))) b = b.
Proof. by destruct b as [[p s [q ? ?]] t]. Qed.

Lemma buffer_same b : {| channel := channel b; temp := temp b |} = b.
Proof. by destruct b. Qed.

Lemma with_sent_nil b : with_sent [] b = b.
Proof. destruct b as [[p [q ? ?] r] t]. unfold with_sent, set_queue. cbn. by rewrite app_nil_r. Qed.

Lemma enqueue_chunks_sent cs b :
  connected b -> enqueue_chunks cs b = Returned (Ok ()) (with_sent cs b).
Proof.
  revert b; induction cs as [|c cs IH]; intros b Hb; [by rewrite with_sent_nil|].
  cbn [enqueue_chunks]. unfold mbind, comp_bind, on_channel, enqueue_chunk, mpsc_send. destruct Hb as [Hr Hs]. rewrite Hr.
  rewrite IH by (split; [by destruct b as [[? [? ? []] ?] ?]|done]). unfold with_sent, set_queue. cbn. by rewrite <- app_assoc.
Qed.

Section fragments.
Context {M : Type} `{Framed M}.

Lemma send_msg_sent (m : M) w b :
  connected b -> encode m = Some w ->
  send_msg_chunks m b = Returned (Ok ()) (with_sent (chunks MAX_SEGMENT_PAYLOAD_LENGTH w) b).
Proof. intros Hb Hw. unfold send_msg_chunks. rewrite Hw. by apply enqueue_chunks_sent. Qed.

(** A message that cannot be written is not sent in part either. *)
Lemma send_msg_fails (m : M) b : encode m = None -> send_msg_chunks m b = Returned (Err Error.Encoding) b.
Proof. intros Hw. unfold send_msg_chunks. by rewrite Hw. Qed.

Lemma chunks_max w : concat (chunks MAX_SEGMENT_PAYLOAD_LENGTH w) = w /\
  Forall (fun c => c <> [] /\ Z.of_nat (length c) < 65536) (chunks MAX_SEGMENT_PAYLOAD_LENGTH w).
Proof.
  destruct (chunks_spec MAX_SEGMENT_PAYLOAD_LENGTH w) as [Hc Hl]; [unfold MAX_SEGMENT_PAYLOAD_LENGTH; lia|].
  split; [done|]. eapply Forall_impl; [exact Hl|]. unfold MAX_SEGMENT_PAYLOAD_LENGTH. intros [|x c]; simpl; [lia|].
  intros [_ Hm]. split; [done|lia].
Qed.

(** A buffer that holds the message, or the beginning of it. *)
Lemma try_decode_whole (m : M) w tl :
  valid m -> encode m = Some w -> try_decode_message (w ++ tl) = Returned (Ok (Some m)) tl.
Proof. intros Hm Hw. unfold try_decode_message. by rewrite (framed_parses m Hm w tl Hw). Qed.

Lemma try_decode_part (m : M) t s :
  valid m -> encode m = Some (t ++ s) -> t <> [] -> s <> [] -> try_decode_message (M := M) t = Returned (Ok None) t.
Proof. intros Hm Hw Ht Hs. unfold try_decode_message. by rewrite (framed_part m t s). Qed.

(** One turn of the loop. *)
Lemma recv_loop_turn fuel c q b :
  queue (from_plexer (channel b)) = c :: q ->
  recv_loop (M := M) (S fuel) b =
    match try_decode_message (temp b ++ c) with
    | Returned (Ok (Some msg)) t => Returned (Ok msg) (with_inbound t q b)
    | Returned (Ok None) t => recv_loop fuel (with_inbound t q b)
    | Returned (Err e) t => Returned (Err e) (with_inbound t q b)
    | Panicked => Panicked
    | Unfinished => Unfinished
    end.
Proof.
  intros Hq. cbn [recv_loop]. unfold mbind, comp_bind, on_channel, dequeue_chunk, mpsc_recv. rewrite Hq.
  unfold on_temp, modify. cbn [temp channel]. destruct (try_decode_message _) as [[[msg|]|e] t| |]; done.
Qed.

Lemma recv_loop_whole fuel (m : M) t s q tl b :
  (length q < fuel)%nat -> valid m -> encode m = Some (t ++ s) -> s <> [] -> Forall (.≠ []) q ->
  temp b = t -> queue (from_plexer (channel b)) = q -> concat q = s ++ tl ->
  exists t' q', recv_loop fuel b = Returned (Ok m) (with_inbound t' q' b) /\ t' ++ concat q' = tl /\ Forall (.≠ []) q'.
Proof.
  revert t s q b; induction fuel as [|fuel IH]; intros t s q b Hf Hm Hw Hs Hn Ht Hq Hc; [lia|].
  destruct q as [|c q]; [by destruct s|]. rewrite (recv_loop_turn _ c q) by done. rewrite Ht.
  apply Forall_cons in Hn as [Hnc Hn].
  simpl in Hf. cbn in Hc. destruct (prefix_split _ _ _ _ Hc) as [(e & -> & ->)|(e & -> & He & Hne)].
  - rewrite app_assoc, (try_decode_whole m (t ++ s)) by done. by exists e, q.
  - rewrite app_assoc in Hw. rewrite (try_decode_part m _ e); [|done..|by intros [_ ?]%app_eq_nil|done].
    destruct (IH (t ++ c) e q (with_inbound (t ++ c) q b)) as (t' & q' & Hr & Htl & Hn'); [lia|try done..|].
    exists t', q'. rewrite Hr. by rewrite with_inbound_twice.
Qed.

Lemma recv_loop_waits fuel (m : M) t s q b :
  (length q < fuel)%nat -> valid m -> encode m = Some (t ++ concat q ++ s) -> s <> [] -> Forall (.≠ []) q ->
  has_senders (from_plexer (channel b)) = true ->
  temp b = t -> queue (from_plexer (channel b)) = q -> recv_loop (M := M) fuel b = Unfinished.
Proof.
  revert t q b; induction fuel as [|fuel IH]; intros t q b Hf Hm Hw Hs Hn Ho Ht Hq; [lia|].
  destruct q as [|c q].
  - cbn [recv_loop]. unfold mbind, comp_bind, on_channel, dequeue_chunk, mpsc_recv. by rewrite Hq, Ho.
  - apply Forall_cons in Hn as [Hnc Hn].
    rewrite (recv_loop_turn _ c q) by done. rewrite Ht. simpl in Hf. cbn in Hw.
    rewrite <- app_assoc, app_assoc in Hw.
    rewrite (try_decode_part m _ (concat q ++ s)); [|done..|by intros [_ ?]%app_eq_nil|by destruct (concat q)].
    by apply (IH (t ++ c) q); [lia|..].
Qed.

(** No empty chunk is waiting: [send_msg_chunks] makes none. *)
Definition filled (b : ChannelBuffer) : Prop := Forall (.≠ []) (queue (from_plexer (channel b))).

(** A message all of whose bytes have arrived is returned, and only its bytes are
    taken. *)
Lemma recv_whole (m : M) w tl b :
  valid m -> encode m = Some w -> inbound b = w ++ tl -> filled b ->
  exists t q, recv_full_msg b = Returned (Ok m) (with_inbound t q b) /\ t ++ concat q = tl /\ Forall (.≠ []) q.
Proof.
  intros Hm Hw Hb Hn. unfold recv_full_msg, mbind, comp_bind, get. set (q := queue _).
  unfold inbound in Hb. fold q in Hb. destruct (temp b) as [|x t] eqn:Ht.
  - by apply (recv_loop_whole _ m [] w q); [lia|..|eapply framed_nonempty| | | |].
  - unfold on_temp. rewrite Ht. destruct (prefix_split _ _ _ _ Hb) as [(e & He & ->)|(e & -> & He & Hne)].
    + rewrite He, (try_decode_whole m w) by done. exists e, q. split; [|done].
      unfold q, with_inbound. by destruct b as [[? ? [? ? ?]] ?].
    + rewrite (try_decode_part m (x :: t) e), <- Ht, buffer_same by done.
      apply (recv_loop_whole _ m (x :: t) e q); [lia|done..].
Qed.

Lemma drained t (q : list bytes) : t ++ concat q = [] -> Forall (.≠ []) q -> t = [] /\ q = [].
Proof. intros [-> Hq]%app_eq_nil Hf. split; [done|]. by destruct Hf as [|[] q Hc Hf]. Qed.

(** ... and nothing is left when there was nothing else. *)
Lemma recv_all (m : M) w b :
  valid m -> encode m = Some w -> inbound b = w -> filled b -> recv_full_msg b = Returned (Ok m) (with_inbound [] [] b).
Proof.
  intros Hm Hw Hb Hn. rewrite <- (app_nil_r w) in Hb. destruct (recv_whole m w [] b Hm Hw Hb Hn) as (t & q & -> & Ht & Hq).
  by destruct (drained t q Ht Hq) as [-> ->].
Qed.

(** A message that has not arrived completely is waited for. *)
Lemma recv_waits (m : M) w s b :
  valid m -> encode m = Some w -> inbound b ++ s = w -> s <> [] -> filled b ->
  has_senders (from_plexer (channel b)) = true -> recv_full_msg (M := M) b = Unfinished.
Proof.
  intros Hm Hw Hb Hs Hn Ho. unfold recv_full_msg, mbind, comp_bind, get. set (q := queue _).
  unfold inbound in Hb. fold q in Hb. subst w. rewrite <- app_assoc in Hw. destruct (temp b) as [|x t] eqn:Ht.
  - by apply (recv_loop_waits _ m [] s q); [lia|..].
  - unfold on_temp. rewrite Ht. rewrite (try_decode_part m _ (concat q ++ s)); [|done..|by destruct (concat q)].
    rewrite <- Ht, buffer_same. by apply (recv_loop_waits _ m (x :: t) s q); [lia|..].
Qed.
End fragments.

(** ** Two multiplexers

    One direction of a connection: the queue the agents of one end share, the bytes
    under way, and the channels of the agents of the other end.  Both directions, and
    the multiplexers at both ends, are the same code. *)
Section link.
Context `{NetworkEndian} `{Connection P}.

Record link := { sending : mpsc (Z * bytes); wire : P; receiving : gmap Z (mpsc bytes) }.

Inductive label :=
| Enqueued (protocol : Z) (chunk : bytes)
| Muxed (elapsed : Z)
| Demuxed
| Dequeued (protocol : Z) (chunk : bytes).

(** An agent hands over a chunk or takes one, and the tasks take their turns.  The
    demuxer waits while nothing has arrived. *)
Inductive link_step : link -> label -> link -> Prop :=
| agent_enqueues l p chunk q c :
    enqueue_chunk chunk {| agent_protocol := p; to_plexer := sending l; from_plexer := q |} = Returned (Ok ()) c ->
    link_step l (Enqueued p chunk) {| sending := to_plexer c; wire := wire l; receiving := receiving l |}
| muxer_ticks l elapsed m :
    muxer_tick elapsed {| write_half := wire l; ingress := sending l |} = Returned (Ok ()) m ->
    link_step l (Muxed elapsed) {| sending := ingress m; wire := write_half m; receiving := receiving l |}
| demuxer_ticks l d :
    pending (wire l) <> [] ->
    demuxer_tick {| read_half := wire l; egress := receiving l |} = Returned (Ok ()) d ->
    link_step l Demuxed {| sending := sending l; wire := read_half d; receiving := egress d |}
| agent_dequeues l p q s chunk c :
    receiving l !! p = Some q ->
    dequeue_chunk {| agent_protocol := Z.lxor p 0x8000; to_plexer := s; from_plexer := q |} = Returned (Ok chunk) c ->
    link_step l (Dequeued p chunk)
      {| sending := sending l; wire := wire l; receiving := <[p := from_plexer c]> (receiving l) |}.

Inductive link_run (l : link) : list label -> link -> Prop :=
| run_nil : link_run l [] l
| run_snoc tr l1 lab l2 : link_run l tr l1 -> link_step l1 lab l2 -> link_run l (tr ++ [lab]) l2.

(** The channels of the protocols that were subscribed to, with nothing sent yet. *)
Definition fresh (l : link) : Prop :=
  sending l = channel_new /\ pending (wire l) = [] /\ map_Forall (fun _ q => q = channel_new) (receiving l).

Definition well_sized (lab : label) : Prop :=
  match lab with
  | Enqueued p chunk => in_u 16 p /\ Z.of_nat (length chunk) < 65536
  | _ => True
  end.

Definition enqueued (p : Z) (tr : list label) : list bytes :=
  omap (fun lab => match lab with Enqueued p' c => if decide (p' = p) then Some c else None | _ => None end) tr.
Definition dequeued (p : Z) (tr : list label) : list bytes :=
  omap (fun lab => match lab with Dequeued p' c => if decide (p' = p) then Some c else None | _ => None end) tr.

Lemma enqueued_snoc p tr lab : enqueued p (tr ++ [lab]) = enqueued p tr ++ enqueued p [lab].
Proof. apply omap_app. Qed.
Lemma dequeued_snoc p tr lab : dequeued p (tr ++ [lab]) = dequeued p tr ++ dequeued p [lab].
Proof. apply omap_app. Qed.

(** The chunks of a protocol. *)
Definition chunks_on (p : Z) (segs : list (Z * bytes)) : list bytes :=
  omap (fun s => if decide (s.1 = p) then Some s.2 else None) segs.

Lemma chunks_on_app p segs segs' : chunks_on p (segs ++ segs') = chunks_on p segs ++ chunks_on p segs'.
Proof. apply omap_app. Qed.

Lemma chunks_on_cons p s segs : chunks_on p (s :: segs) = chunks_on p [s] ++ chunks_on p segs.
Proof. apply (chunks_on_app p [s]). Qed.

Lemma dequeued_one p q c : dequeued p [Dequeued q c] = chunks_on p [(q, c)].
Proof. done. Qed.

(** The segments under way, each with its timestamp. *)
Definition wire_bytes (segs : list (Z * (Z * bytes))) : bytes := concat ((fun s => segment_bytes s.1 s.2) <$> segs).

Definition segment_ok (s : Z * (Z * bytes)) : Prop :=
  in_u 32 s.1 /\ in_u 16 s.2.1 /\ Z.of_nat (length s.2.2) < 65536.

(** Every chunk of a protocol is with its reader, in its channel, under way or in
    the shared queue, in this order. *)
Definition in_order (tr : list label) (l : link) (segs : list (Z * (Z * bytes))) : Prop :=
  pending (wire l) = wire_bytes segs /\ Forall segment_ok segs /\
  has_receiver (sending l) = true /\
  Forall (fun s => in_u 16 s.1 /\ Z.of_nat (length s.2) < 65536) (queue (sending l)) /\
  forall p q, receiving l !! p = Some q ->
    has_receiver q = true /\
    enqueued p tr = dequeued p tr ++ queue q ++ chunks_on p (segs.*2) ++ chunks_on p (queue (sending l)).

Lemma mux_bearer elapsed p c (x : P) :
  muxer_write_segment elapsed p c x = Bearer.write_segment p (elapsed mod 2 ^ 32) c x.
Proof. done. Qed.

(** The demuxer reads the segment that comes first. *)
Lemma demuxer_reads ts p c rest d :
  in_u 32 ts -> in_u 16 p -> Z.of_nat (length c) < 65536 ->
  pending (read_half d) = segment_bytes ts (p, c) ++ rest ->
  exists x, demuxer_read_segment d = Returned (Ok (p, c)) {| read_half := x; egress := egress d |} /\ pending x = rest.
Proof.
  intros Ht Hp Hc Hpend. destruct (read_segment_pending p ts c rest _ Hp Ht Hc Hpend) as (x & Hr & Hx).
  exists x. split; [|done]. revert Hr. unfold Bearer.read_segment, demuxer_read_segment, bearer_read.
  unfold mbind, result_bind, comp_bind. change Bearer.HEADER_LEN with HEADER_LEN.
  destruct (read_exact HEADER_LEN (read_half d)) as [[buf x1]|]; [|done]. cbn [read_half egress].
  change (Bearer.payload_len (Bearer.Header_from buf)) with (payload_len (Header_from buf)).
  destruct (read_exact _ x1) as [[buf2 x2]|]; [|done].
  change (Bearer.protocol (Bearer.Header_from buf)) with (protocol (Header_from buf)). by intros [= <- <- <-].
Qed.

Lemma step_mux tr l segs elapsed m :
  in_order tr l segs ->
  muxer_tick elapsed {| write_half := wire l; ingress := sending l |} = Returned (Ok ()) m ->
  exists segs', in_order (tr ++ [Muxed elapsed]) {| sending := ingress m; wire := write_half m; receiving := receiving l |} segs'.
Proof.
  intros (Hw & Hs & Hr & Hq & Ho). unfold muxer_tick, mbind, comp_bind, muxer_recv, mpsc_recv. cbn [ingress write_half].
  destruct (queue (sending l)) as [|[p c] qs] eqn:Eq.
  - destruct (has_senders (sending l)); [done|]. intros [= <-]. exists segs. cbn.
    unfold in_order. cbn [sending wire receiving to_plexer set_queue queue has_receiver ingress write_half read_half egress from_plexer]. rewrite Eq. split_and!; [done..|]. intros p q Hpq. rewrite enqueued_snoc, dequeued_snoc. cbn.
    rewrite !app_nil_r. destruct (Ho p q Hpq) as [? ->]. cbn. by rewrite app_nil_r.
  - unfold mux. cbn [fst snd write_half ingress]. rewrite mux_bearer.
    destruct (Bearer.write_segment _ _ _ _) as [x|] eqn:Ew; [|done]. intros [= <-].
    apply Forall_cons in Hq as [[Hp Hc] Hq]. apply write_segment_pending in Ew.
    exists (segs ++ [(elapsed mod 2 ^ 32, (p, c))]). unfold in_order. cbn [sending wire receiving to_plexer set_queue queue has_receiver ingress write_half read_half egress from_plexer].
    split_and!; [|apply Forall_app; split; [done|]|done|done|].
    + unfold wire_bytes. rewrite Ew, Hw, fmap_app, concat_app. cbn. by rewrite app_nil_r.
    + constructor; [|done]. split; [apply Z.mod_pos_bound; lia|done].
    + intros r q Hrq. destruct (Ho r q Hrq) as [Hrec He]. split; [done|].
      rewrite enqueued_snoc, dequeued_snoc, fmap_app, chunks_on_app. cbn [enqueued dequeued omap list_omap].
      rewrite !app_nil_r, <- app_assoc. rewrite He. by rewrite (chunks_on_cons r (p, c) qs).
Qed.

Lemma step_demux tr l segs :
  in_order tr l segs -> pending (wire l) <> [] ->
  exists d, demuxer_tick {| read_half := wire l; egress := receiving l |} = Returned (Ok ()) d /\
    exists segs', in_order (tr ++ [Demuxed]) {| sending := sending l; wire := read_half d; receiving := egress d |} segs'.
Proof.
  intros (Hw & Hs & Hr & Hq & Ho) Hne. rewrite Hw in Hne.
  destruct segs as [|[ts [p c]] segs]; [done|]. apply Forall_cons in Hs as [(Ht & Hp & Hc) Hs].
  destruct (demuxer_reads ts p c (wire_bytes segs) {| read_half := wire l; egress := receiving l |}) as (x & Hx & Hpend);
    [done..|].
  unfold demuxer_tick, mbind, comp_bind. rewrite Hx. unfold demux. cbn [read_half egress].
  assert (forall r q, receiving l !! r = Some q -> has_receiver q = true /\
    enqueued r (tr ++ [Demuxed]) = dequeued r (tr ++ [Demuxed]) ++ queue q ++ chunks_on r [(p, c)] ++
      chunks_on r (segs.*2) ++ chunks_on r (queue (sending l))) as Ho'.
  { intros r q Hrq. destruct (Ho r q Hrq) as [Hrec He]. split; [done|].
    rewrite enqueued_snoc, dequeued_snoc. cbn [enqueued dequeued omap list_omap]. rewrite !app_nil_r, He.
    rewrite fmap_cons, chunks_on_cons, <- app_assoc. done. }
  destruct (receiving l !! p) as [q|] eqn:Eq.
  - unfold mpsc_send. destruct (Ho' p q Eq) as [Hrec _]. rewrite Hrec. eexists. split; [done|]. exists segs.
    unfold in_order. cbn [sending wire receiving to_plexer set_queue queue has_receiver ingress write_half read_half egress from_plexer]. split_and!; [done..|]. intros r q'. destruct (decide (r = p)) as [->|Hrp].
    + rewrite lookup_insert_eq. intros [= <-]. destruct (Ho' p q Eq) as [_ ->]. cbn. split; [done|].
      rewrite decide_True by done. by rewrite <- !app_assoc.
    + rewrite lookup_insert_ne by done. intros Hrq. destruct (Ho' r q' Hrq) as [Hr' ->]. split; [done|].
      cbn. by rewrite decide_False by done.
  - eexists. split; [done|]. exists segs. unfold in_order. cbn [sending wire receiving to_plexer set_queue queue has_receiver ingress write_half read_half egress from_plexer]. split_and!; [done..|].
    intros r q Hrq. destruct (Ho' r q Hrq) as [Hr' ->]. split; [done|].
    assert (p <> r) by congruence. cbn. by rewrite decide_False by done.
Qed.

Lemma step_in_order tr l segs lab l' :
  in_order tr l segs -> well_sized lab -> link_step l lab l' -> exists segs', in_order (tr ++ [lab]) l' segs'.
Proof.
  intros Hl Hlab Hstep. destruct Hstep as [l p chunk q c He|l elapsed m Hm|l d Hne Hd|l p q s chunk c Hp Hc].
  - exists segs. destruct Hl as (Hw & Hs & Hr & Hq & Ho). revert He. unfold enqueue_chunk, mpsc_send. cbn [to_plexer].
    rewrite Hr. intros [= <-]. unfold in_order. cbn [sending wire receiving to_plexer set_queue queue has_receiver ingress write_half read_half egress from_plexer]. split_and!; [done..|apply Forall_app; split; [done|by constructor]|].
    intros r q' Hrq. destruct (Ho r q' Hrq) as [Hrec Hen]. split; [done|].
    rewrite enqueued_snoc, dequeued_snoc, chunks_on_app, Hen. cbn. rewrite !app_nil_r, <- !app_assoc. done.
  - by eapply step_mux.
  - destruct (step_demux tr l segs Hl Hne) as (d' & Hd' & H'). rewrite Hd in Hd'. by injection Hd' as <-.
  - exists segs. destruct Hl as (Hw & Hs & Hr & Hq & Ho). revert Hc. unfold dequeue_chunk, mpsc_recv. cbn [from_plexer].
    destruct (queue q) as [|x qs] eqn:Eq; [by destruct (has_senders q)|]. intros [= -> <-].
    unfold in_order. cbn [sending wire receiving to_plexer set_queue queue has_receiver ingress write_half read_half egress from_plexer]. split_and!; [done..|]. intros r q'. destruct (decide (r = p)) as [->|Hrp].
    + rewrite lookup_insert_eq. intros [= <-]. destruct (Ho p q Hp) as [Hrec Hen]. split; [done|].
      rewrite enqueued_snoc, dequeued_snoc, Hen, Eq. cbn. rewrite decide_True by done. rewrite app_nil_r, <- !app_assoc. done.
    + rewrite lookup_insert_ne by done. intros Hrq. destruct (Ho r q' Hrq) as [Hrec Hen]. split; [done|].
      rewrite enqueued_snoc, dequeued_snoc, Hen. cbn. rewrite decide_False by done. by rewrite !app_nil_r.
Qed.

Lemma run_in_order l tr l' :
  fresh l -> link_run l tr l' -> Forall well_sized tr -> exists segs, in_order tr l' segs.
Proof.
  intros (Hs & Hw & Hr) Hrun. induction Hrun as [|tr l1 lab l2 _ IH Hstep]; intros Htr.
  - exists []. unfold in_order. rewrite Hs, Hw. split_and!; [done..|]. intros p q Hq. by rewrite (Hr p q Hq).
  - apply Forall_app in Htr as [Htr Hlab]. destruct (IH Htr) as [segs Hl].
    apply Forall_cons in Hlab as [Hlab _]. by eapply step_in_order.
Qed.
End link.
Arguments link P : clear implicits.

(** C21: (safety and progress) the multiplexers at the two ends of a connection make one FIFO queue for every
    protocol: in any interleaving of agents and tasks the chunks that were taken on a protocol are, in order, the
    first of those handed over on it, and all of them once nothing is left under way; and the demuxer never fails
    while something has arrived.  The chunks are below 65536 bytes and protocol numbers have 16 bits, as agents
    hand them over ([send_msg_chunks] cuts at 65535); [enqueue_chunk] as such takes longer ones, which are not
    kept together.  Protocols are subscribed at the start, and their receivers are not dropped. *)
Theorem plexer_routes `{NetworkEndian} `{Connection P} (l l' : link P) tr :
  fresh l -> link_run l tr l' -> Forall well_sized tr ->
  (forall p q, receiving l' !! p = Some q ->
    exists rest, enqueued p tr = dequeued p tr ++ rest /\
      (queue (sending l') = [] -> pending (wire l') = [] -> queue q = [] -> rest = [])) /\
  (pending (wire l') <> [] ->
    exists d, demuxer_tick {| read_half := wire l'; egress := receiving l' |} = Returned (Ok ()) d).
Proof.
  intros Hl Hrun Htr. destruct (run_in_order l tr l' Hl Hrun Htr) as [segs Hin]. split.
  - intros p q Hq. destruct Hin as (Hw & Hs & _ & _ & Ho). destruct (Ho p q Hq) as [_ He]. eexists. split; [exact He|].
    intros -> Hp ->. rewrite Hw in Hp. destruct segs as [|[ts [p' c]] segs]; [done|].
    exfalso. apply Forall_cons in Hs as [(Ht & Hp' & Hc) _]. unfold wire_bytes, segment_bytes in Hp. cbn in Hp.
    apply (f_equal length) in Hp. revert Hp. unfold Bearer.Header_into.
    rewrite !length_app, length_write_u32. simpl. lia.
  - intros Hne. destruct (step_demux tr l' segs Hin Hne) as (d & Hd & _). by exists d.
Qed.

(** Chunks of two protocols handed over one after the other. *)
Lemma plexer_routes_witness :
  let l := {| sending := channel_new; wire := []; receiving := {[2 := channel_new; 8 := channel_new]} |} : link bytes in
  let tr := [Enqueued 8 [1; 2]; Enqueued 2 [3]; Muxed 5; Demuxed; Dequeued 8 [1; 2]; Muxed 6] in
  exists l', link_run l tr l' /\ enqueued 8 tr = [[1; 2]] /\ pending (wire l') = [0; 0; 0; 6; 0; 2; 0; 1; 3] /\
    exists d, demuxer_tick {| read_half := wire l'; egress := receiving l' |} = Returned (Ok ()) d.
Proof.
  intros l tr.
  assert (exists l', link_run l tr l' /\ pending (wire l') = [0; 0; 0; 6; 0; 2; 0; 1; 3]) as (l' & Hrun & Hp).
  { eexists. split; [|shelve]. unfold tr. change [Enqueued 8 [1; 2]; Enqueued 2 [3]; Muxed 5; Demuxed; Dequeued 8 [1; 2]; Muxed 6] with
      ((((((([] ++ [Enqueued 8 [1; 2]]) ++ [Enqueued 2 [3]]) ++ [Muxed 5]) ++ [Demuxed]) ++ [Dequeued 8 [1; 2]]) ++ [Muxed 6])).
    repeat eapply run_snoc; [apply run_nil|eapply agent_enqueues with (q := channel_new); vm_compute; reflexivity
      |eapply agent_enqueues with (q := channel_new); vm_compute; reflexivity
      |eapply muxer_ticks; vm_compute; reflexivity|eapply demuxer_ticks; [discriminate|vm_compute; reflexivity]
      |eapply agent_dequeues with (s := channel_new); vm_compute; reflexivity|eapply muxer_ticks; vm_compute; reflexivity].
    Unshelve. vm_compute; reflexivity. }
  exists l'.
  split; [exact Hrun|]. split; [vm_compute; reflexivity|]. split; [exact Hp|].
  refine (proj2 (plexer_routes l l' tr _ Hrun _) _).
  - split; [reflexivity|]. split; [reflexivity|]. intros p q. unfold l. cbn [receiving].
    rewrite lookup_insert_Some, lookup_singleton_Some. intros [[_ <-]|[_ [_ <-]]]; reflexivity.
  - repeat apply Forall_cons_2; try apply Forall_nil_2; cbn; unfold in_u; try exact I; split; lia.
  - rewrite Hp. discriminate.
Defined.
