(* ===== verification/Agents.v ===== *)
(** * Agents of the first generation

    Every mini-protocol of [pallas-network/src/miniprotocols] has a client and a
    server that keep a state and a channel buffer, with the same private methods in
    each.  This file holds these methods, the interface [Side] (how every public
    method moves the abstract protocol), and the proof that a client and a server that
    implement it at the two ends of a connection never disagree ([sides_sound]). *)
From S2P Require Import Prelude Cbor Truncation Effects Protocol ProtocolProps Bearer.
From S2P Require Import Multiplexer Channels.

(** ** The methods every agent has *)

(** The variants every error type has. *)
Class AgentError (E : Type) := {
  agency_is_ours : E;
  agency_is_theirs : E;
  plexer_error : Error.t -> E
}.

Section agent.
Context {S M E : Type} `{AgentError E} `{Encode M} `{Decode M}.
Variable has_agency : S -> bool.

(** [self.1]: the channel buffer. *)
Definition on_buffer {A} (m : comp Error.t ChannelBuffer A) : comp Error.t (S * ChannelBuffer) A := fun self =>
  match m self.2 with
  | Returned r b => Returned r (self.1, b)
  | Panicked => Panicked
  | Unfinished => Unfinished
  end.

(** [self.0 = s] *)
Definition set_state (s : S) : comp E (S * ChannelBuffer) unit := modify (fun self => (s, self.2)).

Definition assert_agency_is_ours : comp E (S * ChannelBuffer) unit :=
  self ← get;
  if negb (has_agency self.1) then throw agency_is_theirs else mret ().

Definition assert_agency_is_theirs : comp E (S * ChannelBuffer) unit :=
  self ← get;
  if has_agency self.1 then throw agency_is_ours else mret ().

Variable assert_outbound_state assert_inbound_state : S -> M -> result E unit.

Definition send_message (msg : M) : comp E (S * ChannelBuffer) unit :=
  _ ← assert_agency_is_ours;
  self ← get;
  _ ← returns (assert_outbound_state self.1 msg);
  _ ← map_err plexer_error (on_buffer (send_msg_chunks msg));
  mret ().

Definition recv_message : comp E (S * ChannelBuffer) M :=
  _ ← assert_agency_is_theirs;
  msg ← map_err plexer_error (on_buffer recv_full_msg);
  self ← get;
  _ ← returns (assert_inbound_state self.1 msg);
  mret msg.
End agent.

(** ** What a method does to the protocol

    [Unsuited]: the documentation gives the method for other states. *)
Inductive action (M : Type) := Refuses | Skips | Sends (m : M) | Receives | Unsuited.
Arguments Refuses {M}.
Arguments Skips {M}.
Arguments Sends {M} _.
Arguments Receives {M}.
Arguments Unsuited {M}.

Section side.
Context {S M : Type} `{Encode M, Decode M, Valid M} (next : S -> M -> result Protocol.Error S) (may other : S -> M -> bool).
Context {E : Type} `{AgentError E}.

Abbreviation method := (comp E (S * ChannelBuffer) unit).

(** The message is handed over and the state changed; when it cannot be written
    nothing happens. *)
Definition does_send (s : S) (m : M) (f : method) : Prop :=
  may s m = true /\ exists s', next s m = Ok s' /\ forall b,
    f (s, b) = match send_msg_chunks m b with
               | Returned (Ok _) b => Returned (Ok ()) (s', b)
               | Returned (Err e) b => Returned (Err (plexer_error e)) (s, b)
               | Panicked => Panicked
               | Unfinished => Unfinished
               end.

(** A message the other end may send is accepted, and one that is not there yet is
    waited for. *)
Definition does_receive (s : S) (f : method) : Prop :=
  (forall b b' m s', other s m = true -> next s m = Ok s' ->
    recv_full_msg b = Returned (Ok m) b' -> f (s, b) = Returned (Ok ()) (s', b')) /\
  (forall b, recv_full_msg (M := M) b = Unfinished -> f (s, b) = Unfinished).

Definition does (s : S) (a : action M) (f : method) : Prop :=
  match a with
  | Refuses => forall b, exists e, f (s, b) = Returned (Err e) (s, b)
  | Skips => forall b, f (s, b) = Returned (Ok ()) (s, b)
  | Sends m => valid m -> does_send s m f
  | Receives => does_receive s f
  | Unsuited => True
  end.

(** The public methods of one end, as calls with their arguments. *)
Record Side := {
  call : Type;
  run : call -> method;
  action_of : S -> call -> action M;
  follows s c : does s (action_of s c) (run c)
}.
End side.
Arguments Side {S M H H0 H1} next may other E {H2}.
Arguments call {S M H H0 H1 next may other E H2} s0.
Arguments run {S M H H0 H1 next may other E H2} s0 _ _.
Arguments action_of {S M H H0 H1 next may other E H2} s0 _ _.
Arguments follows {S M H H0 H1 next may other E H2} s0 _ _.

(** ** A client and a server

    Each end keeps its state and its channel; the multiplexers move the chunks one has
    handed over to the other, in order ([plexer_routes]). *)
Section session.
Context {S M : Type} `{Framed M} (next : S -> M -> result Protocol.Error S) `{!Agency next}.
Context {Ec Es : Type} `{AgentError Ec} `{AgentError Es}.
Context (cl : Side next (client_may next) (server_may next) Ec).
Context (sv : Side next (server_may next) (client_may next) Es).

Record session := { at_client : S * ChannelBuffer; at_server : S * ChannelBuffer }.

(** The chunks one end has handed over. *)
Definition outbound (b : ChannelBuffer) : list (Z * bytes) := queue (to_plexer (channel b)).

Definition with_outbound (q : list (Z * bytes)) (b : ChannelBuffer) : ChannelBuffer :=
  let c := channel b in
  {| channel := {| agent_protocol := agent_protocol c; to_plexer := set_queue q (to_plexer c);
                   from_plexer := from_plexer c |};
     temp := temp b |}.

Definition arrive (chunk : bytes) (b : ChannelBuffer) : ChannelBuffer :=
  with_inbound (temp b) (queue (from_plexer (channel b)) ++ [chunk]) b.

(** The values a call sends are values of their types. *)
Definition sound_action (a : action M) : Prop :=
  match a with Sends m => valid m | Unsuited => False | _ => True end.

Inductive session_step (x : session) : session -> Prop :=
| client_calls c r y :
    sound_action (action_of cl (at_client x).1 c) -> run cl c (at_client x) = Returned r y ->
    session_step x {| at_client := y; at_server := at_server x |}
| server_calls c r y :
    sound_action (action_of sv (at_server x).1 c) -> run sv c (at_server x) = Returned r y ->
    session_step x {| at_client := at_client x; at_server := y |}
| reaches_server p chunk q :
    outbound (at_client x).2 = (p, chunk) :: q ->
    session_step x {| at_client := ((at_client x).1, with_outbound q (at_client x).2);
                      at_server := ((at_server x).1, arrive chunk (at_server x).2) |}
| reaches_client p chunk q :
    outbound (at_server x).2 = (p, chunk) :: q ->
    session_step x {| at_client := ((at_client x).1, arrive chunk (at_client x).2);
                      at_server := ((at_server x).1, with_outbound q (at_server x).2) |}.

(** Subscribed, with nothing sent or received yet. *)
Definition idle (b : ChannelBuffer) : Prop :=
  connected b /\ outbound b = [] /\ temp b = [] /\ queue (from_plexer (channel b)) = [].

Definition opened (s : S) (x : session) : Prop :=
  (at_client x).1 = s /\ (at_server x).1 = s /\ idle (at_client x).2 /\ idle (at_server x).2.

(** What an end relies on: a call that is suited to its state succeeds, waits, or is
    refused and leaves everything as it was; one that receives is not refused, and does
    not wait once everything that was sent has arrived. *)
Definition served {E} (s : S) (b : ChannelBuffer) (sent : list (Z * bytes)) (a : action M)
    (o : outcome E (S * ChannelBuffer) unit) : Prop :=
  match o with
  | Returned (Ok _) _ => True
  | Returned (Err _) y => y = (s, b) /\ a <> Receives
  | Panicked => False
  | Unfinished => a = Receives /\ (sent = [] -> inbound b = [])
  end.

Definition consistent (x : session) : Prop :=
  let '(cs, cb) := at_client x in let '(ss, sb) := at_server x in
  (forall c, sound_action (action_of cl cs c) -> served cs cb (outbound sb) (action_of cl cs c) (run cl c (cs, cb))) /\
  (forall c, sound_action (action_of sv ss c) -> served ss sb (outbound cb) (action_of sv ss c) (run sv c (ss, sb))) /\
  (outbound cb = [] -> outbound sb = [] -> inbound cb = [] -> inbound sb = [] -> cs = ss).

Definition sound_session (s : S) : Prop :=
  forall x y, opened s x -> rtc session_step x y -> consistent y.

(** *** The proof: both ends follow the abstract protocol *)

(** The messages that are under way to an end, some of their bytes in its buffer. *)
Definition written (ms : list M) : bytes := concat ((fun m => default [] (encode m)) <$> ms).

Definition carries (ms : list M) (sender receiver : ChannelBuffer) : Prop :=
  Forall (fun m => valid m /\ is_Some (encode m)) ms /\
  inbound receiver ++ concat (snd <$> outbound sender) = written ms /\
  filled receiver /\ Forall (.≠ []) (snd <$> outbound sender).

Definition matched (x : session) : Prop :=
  exists to_sv to_cl,
    connected (at_client x).2 /\ connected (at_server x).2 /\
    carries to_sv (at_client x).2 (at_server x).2 /\ carries to_cl (at_server x).2 (at_client x).2 /\
    in_step next {| client := (at_client x).1; server := (at_server x).1; to_server := to_sv; to_client := to_cl |}.

Lemma written_snoc ms m w : encode m = Some w -> written (ms ++ [m]) = written ms ++ w.
Proof. intros Hw. unfold written. rewrite fmap_app, concat_app. cbn. by rewrite Hw, app_nil_r. Qed.

Lemma snd_pair (p : Z) (cs : list bytes) : snd <$> (pair p <$> cs) = cs.
Proof. rewrite <- list_fmap_compose. change (snd ∘ pair p) with (@id bytes). apply list_fmap_id. Qed.

Lemma carries_sent ms m w a b :
  carries ms a b -> valid m -> encode m = Some w ->
  carries (ms ++ [m]) (with_sent (chunks MAX_SEGMENT_PAYLOAD_LENGTH w) a) b.
Proof.
  intros (Hv & Hc & Hb & Ha) Hm Hw. destruct (chunks_max w) as [Hcw Hl].
  split; [apply Forall_app; split; [done|constructor; [by rewrite Hw|done]]|]. unfold outbound in *. cbn.
  rewrite (written_snoc _ _ w Hw), <- Hc, fmap_app, concat_app, snd_pair, Hcw, app_assoc. split_and!; [done..|].
  apply Forall_app. split; [done|]. eapply Forall_impl; [exact Hl|]. by intros c [? _].
Qed.

(** What an end that receives finds. *)
Lemma carries_first m ms a b :
  carries (m :: ms) a b ->
  (exists t q, recv_full_msg b = Returned (Ok m) (with_inbound t q b) /\ carries ms a (with_inbound t q b)) \/
  (outbound a <> [] /\ (has_senders (from_plexer (channel b)) = true -> recv_full_msg (M := M) b = Unfinished)).
Proof.
  intros (Hv & Hc & Hb & Ha). apply Forall_cons in Hv as [[Hm [w Hw]] Hv]. unfold written in Hc. cbn in Hc.
  rewrite Hw in Hc. cbn in Hc.
  destruct (prefix_split _ _ _ _ Hc) as [(e & He & Hrest)|(e & He & Hrest & Hne)].
  - left. destruct (recv_whole m w e b Hm Hw He Hb) as (t & q & Hr & Ht & Hq). exists t, q. split; [done|]. split; [done|].
    rewrite inbound_with, Ht. by rewrite <- Hrest.
  - right. split; [|by apply (recv_waits m w e)]. intros Hn. rewrite Hn in Hrest. by destruct e.
Qed.

Lemma carries_nothing a b :
  carries [] a b -> has_senders (from_plexer (channel b)) = true ->
  inbound b = [] /\ recv_full_msg (M := M) b = Unfinished.
Proof.
  intros (_ & Hc & Hf & _) Ho. apply app_eq_nil in Hc as [Hb _]. split; [done|].
  unfold inbound in Hb. apply app_eq_nil in Hb as [Ht Hq]. unfold recv_full_msg, mbind, comp_bind, get. rewrite Ht.
  unfold filled in Hf. destruct (queue (from_plexer (channel b))) as [|c q] eqn:Eq.
  - cbn. unfold mbind, comp_bind, on_channel, dequeue_chunk, mpsc_recv. by rewrite Eq, Ho.
  - cbn in Hq. apply app_eq_nil in Hq as [-> _]. by apply Forall_cons in Hf as [? _].
Qed.

(** What a call of one end did, from what was under way to it. *)
Inductive moved (may : S -> M -> bool) (ms : list M) (s : S) (a b : ChannelBuffer) : S * ChannelBuffer -> Prop :=
| stays : moved may ms s a b (s, b)
| sent m w s' :
    may s m = true -> next s m = Ok s' -> valid m -> encode m = Some w ->
    moved may ms s a b (s', with_sent (chunks MAX_SEGMENT_PAYLOAD_LENGTH w) b)
| received m rest s' t q :
    ms = m :: rest -> next s m = Ok s' -> carries rest a (with_inbound t q b) ->
    moved may ms s a b (s', with_inbound t q b).

Lemma does_outcome {E} `{AgentError E} (may other : S -> M -> bool) s act (f : comp E (S * ChannelBuffer) unit) ms a b :
  does next may other s act f -> sound_action act -> connected b -> carries ms a b ->
  (forall m rest, ms = m :: rest -> other s m = true /\ exists s', next s m = Ok s') ->
  served s b (outbound a) act (f (s, b)) /\ forall r y, f (s, b) = Returned r y -> moved may ms s a b y.
Proof.
  intros Hf Hact Hb Hc Hms. destruct act as [| |m| |]; cbn in Hf, Hact; [..|done].
  - destruct (Hf b) as [e ->]. split; [done|]. intros r y [= _ <-]. constructor.
  - rewrite Hf. split; [done|]. intros r y [= _ <-]. constructor.
  - destruct (Hf Hact) as (Hmay & s' & Hn & Hrun). rewrite Hrun. destruct (encode m) as [w|] eqn:Hw.
    + rewrite (send_msg_sent m w b Hb Hw). split; [done|]. intros r y [= _ <-]. by eapply sent.
    + rewrite (send_msg_fails m b Hw). split; [done|]. intros r y [= _ <-]. constructor.
  - destruct Hf as [Hok Hwait]. destruct Hb as [_ Ho]. destruct ms as [|m ms].
    + destruct (carries_nothing a b Hc Ho) as [Hin Hr]. rewrite (Hwait b Hr). split; [by split|done].
    + destruct (Hms m ms eq_refl) as (Hother & s' & Hn).
      destruct (carries_first m ms a b Hc) as [(t & q & Hr & Hc')|[Ha Hr]].
      * rewrite (Hok b _ m s' Hother Hn Hr). split; [done|]. intros r y [= _ <-]. by eapply received.
      * rewrite (Hwait b (Hr Ho)). split; [by split|done].
Qed.

(** What is under way is acceptable to the end that will read it. *)
Lemma in_step_to_client cs ss to_sv m rest :
  in_step next {| client := cs; server := ss; to_server := to_sv; to_client := m :: rest |} ->
  server_may next cs m = true /\ exists s', next cs m = Ok s'.
Proof. intros [[_ (Hm & s' & Hn & _)]|[? _]]; [by eauto|done]. Qed.

Lemma in_step_to_server cs ss to_cl m rest :
  in_step next {| client := cs; server := ss; to_server := m :: rest; to_client := to_cl |} ->
  client_may next ss m = true /\ exists s', next ss m = Ok s'.
Proof. intros [[? _]|[_ (Hm & s' & Hn & _)]]; [done|by eauto]. Qed.

Lemma carries_deliver ms a b p chunk q :
  carries ms a b -> outbound a = (p, chunk) :: q -> carries ms (with_outbound q a) (arrive chunk b).
Proof.
  intros (Hv & Hc & Hb & Hn) Ha. rewrite Ha in Hc, Hn. apply Forall_cons in Hn as [Hch Hn]. split; [done|].
  rewrite <- Hc. unfold arrive, outbound, inbound, filled. cbn. split_and!; [|by apply Forall_app; repeat constructor|done].
  by rewrite concat_app, <- !app_assoc; cbn; rewrite app_nil_r.
Qed.

Lemma client_moved x to_sv to_cl y :
  connected (at_client x).2 -> connected (at_server x).2 ->
  carries to_sv (at_client x).2 (at_server x).2 -> carries to_cl (at_server x).2 (at_client x).2 ->
  in_step next {| client := (at_client x).1; server := (at_server x).1; to_server := to_sv; to_client := to_cl |} ->
  moved (client_may next) to_cl (at_client x).1 (at_server x).2 (at_client x).2 y ->
  matched {| at_client := y; at_server := at_server x |}.
Proof.
  intros Hcc Hcs Hsv Hcl Hin Hy. destruct Hy as [|m w s' Hmay Hn Hm Hw|m rest s' t q Hms Hn Hcl'].
  - by exists to_sv, to_cl.
  - exists (to_sv ++ [m]), to_cl. split_and!; [done|done|by apply carries_sent|done|].
    eapply exchange_in_step; [exact Hin|]. exact (client_sends next (Build_ends _ _ _ _) m s' Hmay Hn).
  - subst to_cl. exists to_sv, rest. split_and!; [done..|].
    eapply exchange_in_step; [exact Hin|]. exact (client_receives next (Build_ends _ _ _ _) m rest s' eq_refl Hn).
Qed.

Lemma server_moved x to_sv to_cl y :
  connected (at_client x).2 -> connected (at_server x).2 ->
  carries to_sv (at_client x).2 (at_server x).2 -> carries to_cl (at_server x).2 (at_client x).2 ->
  in_step next {| client := (at_client x).1; server := (at_server x).1; to_server := to_sv; to_client := to_cl |} ->
  moved (server_may next) to_sv (at_server x).1 (at_client x).2 (at_server x).2 y ->
  matched {| at_client := at_client x; at_server := y |}.
Proof.
  intros Hcc Hcs Hsv Hcl Hin Hy. destruct Hy as [|m w s' Hmay Hn Hm Hw|m rest s' t q Hms Hn Hsv'].
  - by exists to_sv, to_cl.
  - exists to_sv, (to_cl ++ [m]). split_and!; [done..|by apply carries_sent|].
    eapply exchange_in_step; [exact Hin|]. exact (server_sends next (Build_ends _ _ _ _) m s' Hmay Hn).
  - subst to_sv. exists rest, to_cl. split_and!; [done..|].
    eapply exchange_in_step; [exact Hin|]. exact (server_receives next (Build_ends _ _ _ _) m rest s' eq_refl Hn).
Qed.

Lemma client_outcome x to_sv to_cl c :
  connected (at_client x).2 -> carries to_cl (at_server x).2 (at_client x).2 ->
  in_step next {| client := (at_client x).1; server := (at_server x).1; to_server := to_sv; to_client := to_cl |} ->
  sound_action (action_of cl (at_client x).1 c) ->
  served (at_client x).1 (at_client x).2 (outbound (at_server x).2) (action_of cl (at_client x).1 c) (run cl c (at_client x)) /\
  forall r y, run cl c (at_client x) = Returned r y ->
    moved (client_may next) to_cl (at_client x).1 (at_server x).2 (at_client x).2 y.
Proof.
  intros Hb Hc Hin Ha. destruct (at_client x) as [cs cb]. eapply does_outcome; [apply follows|done..|].
  intros m rest ->. by eapply in_step_to_client.
Qed.

Lemma server_outcome x to_sv to_cl c :
  connected (at_server x).2 -> carries to_sv (at_client x).2 (at_server x).2 ->
  in_step next {| client := (at_client x).1; server := (at_server x).1; to_server := to_sv; to_client := to_cl |} ->
  sound_action (action_of sv (at_server x).1 c) ->
  served (at_server x).1 (at_server x).2 (outbound (at_client x).2) (action_of sv (at_server x).1 c) (run sv c (at_server x)) /\
  forall r y, run sv c (at_server x) = Returned r y ->
    moved (server_may next) to_sv (at_server x).1 (at_client x).2 (at_server x).2 y.
Proof.
  intros Hb Hc Hin Ha. destruct (at_server x) as [ss sb]. eapply does_outcome; [apply follows|done..|].
  intros m rest ->. by eapply in_step_to_server.
Qed.

Lemma step_matched x y : matched x -> session_step x y -> matched y.
Proof.
  intros (to_sv & to_cl & Hcc & Hcs & Hsv & Hcl & Hin) Hstep.
  destruct Hstep as [c r y Ha Hr|c r y Ha Hr|p chunk q Hq|p chunk q Hq].
  - eapply client_moved; [done..|]. by eapply (client_outcome x to_sv to_cl c).
  - eapply server_moved; [done..|]. by eapply (server_outcome x to_sv to_cl c).
  - exists to_sv, to_cl. by split_and!; [done|done|eapply carries_deliver|done|].
  - exists to_sv, to_cl. by split_and!; [done|done|done|eapply carries_deliver|].
Qed.

Lemma opened_matched s x : opened s x -> matched x.
Proof.
  destruct x as [[cs cb] [ss sb]]. intros (Hcs & Hss & (Hcc & Hco & Hct & Hcq) & (Hsc & Hso & Hst & Hsq)). cbn in *. subst.
  exists [], []. split_and!; cbn; [done|done|..].
  - unfold carries, inbound, filled. by rewrite Hco, Hst, Hsq.
  - unfold carries, inbound, filled. by rewrite Hso, Hct, Hcq.
  - by left.
Qed.

Lemma written_nothing ms : Forall (fun m => valid m /\ is_Some (encode m)) ms -> written ms = [] -> ms = [].
Proof.
  intros [|m ms' [Hm [w Hw]] _]; [done|]. unfold written. cbn. rewrite Hw. cbn. intros [-> _]%app_eq_nil.
  by destruct (framed_nonempty m [] Hm Hw).
Qed.

Lemma matched_consistent x : matched x -> consistent x.
Proof.
  intros (to_sv & to_cl & Hcc & Hcs & Hsv & Hcl & Hin). unfold consistent.
  pose proof (client_outcome x to_sv to_cl) as Hc. pose proof (server_outcome x to_sv to_cl) as Hs.
  destruct x as [[cs cb] [ss sb]]. cbn in *. split_and!.
  - intros c Ha. by apply Hc.
  - intros c Ha. by apply Hs.
  - intros Hco Hso Hci Hsi. destruct Hsv as (Hv1 & Hw1 & _), Hcl as (Hv2 & Hw2 & _). rewrite Hco, Hsi in Hw1. rewrite Hso, Hci in Hw2.
    symmetry in Hw1, Hw2. apply written_nothing in Hw1 as ->; [|done]. apply written_nothing in Hw2 as ->; [|done].
    by apply (in_step_well_matched next _ Hin).
Qed.

(** Two ends that implement the protocol are sound whatever the interleaving. *)
Lemma sides_sound s : sound_session s.
Proof.
  intros x y Hx%opened_matched Hxy. apply matched_consistent. revert Hx.
  induction Hxy as [|x1 x2 x3 Hstep _ IH]; [done|]. intros Hx. eapply IH, step_matched; done.
Qed.
End session.

(** ** Automation *)
#[global] Arguments send_msg_chunks : simpl never.
#[global] Arguments recv_full_msg : simpl never.

(** A call of a method whose result is not used. *)
Definition discard {E S A} (m : comp E S A) : comp E S unit := _ ← m; mret ().

(** [solve_side] proves [follows]: it evaluates every method, which the database
    [agents] lists, in every state. *)
Create HintDb agents.
Ltac evaluate := autounfold with agents; cbv [discard send_message recv_message assert_agency_is_ours assert_agency_is_theirs on_buffer set_state
  get throw modify returns map_err mbind comp_bind mret comp_ret fst snd negb];
  repeat match goal with
  | |- context [bool_decide ?P] =>
      let v := eval vm_compute in (bool_decide P) in change (bool_decide P) with v
  end.
Ltac solve_sends :=
  let b := fresh in intros _; split; [done|]; eexists; split; [cbn; rewrite ?Z.eqb_refl; reflexivity|]; intros b; evaluate; cbn;
  destruct (send_msg_chunks _ b) as [[[]|]| |]; repeat case_match; reflexivity.
Ltac solve_receives :=
  split;
    [let b := fresh in let b' := fresh in let m := fresh in let s' := fresh in
     let Ho := fresh in let Hn := fresh in let Hr := fresh in
     intros b b' m s' Ho Hn Hr; destruct m; cbn in Ho, Hn; try discriminate; simplify_eq;
     evaluate; cbn; rewrite Hr; cbn; repeat case_match; simplify_eq; try reflexivity
    |let b := fresh in let Hr := fresh in intros b Hr; evaluate; cbn; rewrite Hr; reflexivity].
Ltac solve_side :=
  let s := fresh in let c := fresh in
  intros s c; destruct s, c; cbn;
  first [done | solve_sends | solve_receives | intros ?; evaluate; cbn; eauto].
