(* ===== verification/MiniCommon.v ===== *)
(** * Vocabulary of the first generation

    [pallas-network/src/miniprotocols/common.rs]: magics, channel numbers and chain
    points with their codec. *)
From S2P Require Import Prelude Cbor Truncation.

Definition TESTNET_MAGIC : Z := 1097911063.
Definition MAINNET_MAGIC : Z := 764824073.
Definition PREVIEW_MAGIC : Z := 2.
Definition PREPROD_MAGIC : Z := 1.
Definition PRE_PRODUCTION_MAGIC : Z := 1.
Definition SANCHONET_MAGIC : Z := 4.
Definition PROTOCOL_CLIENT : Z := 0x0.
Definition PROTOCOL_SERVER : Z := 0x8000.
Definition PROTOCOL_N2N_HANDSHAKE : Z := 0.
Definition PROTOCOL_N2N_CHAIN_SYNC : Z := 2.
Definition PROTOCOL_N2N_BLOCK_FETCH : Z := 3.
Definition PROTOCOL_N2N_TX_SUBMISSION : Z := 4.
Definition PROTOCOL_N2N_KEEP_ALIVE : Z := 8.
Definition PROTOCOL_N2N_PEER_SHARING : Z := 10.
Definition PROTOCOL_N2C_HANDSHAKE : Z := 0.
Definition PROTOCOL_N2C_CHAIN_SYNC : Z := 5.
Definition PROTOCOL_N2C_TX_SUBMISSION : Z := 6.
Definition PROTOCOL_N2C_STATE_QUERY : Z := 7.
Definition PROTOCOL_N2C_TX_MONITOR : Z := 9.
Definition PROTOCOL_N2C_MSG_SUBMISSION : Z := 14.
Definition PROTOCOL_N2C_MSG_NOTIFICATION : Z := 15.

Module Point.
Inductive t :=
| Origin
| Specific (slot : Z) (hash : bytes).
Definition slot_or_default (self : t) : Z :=
  match self with Origin => 0 | Specific slot _ => slot end.
Definition new (slot : Z) (hash : bytes) : t := Specific slot hash.
End Point.

#[export] Instance Point_eq_dec : EqDecision Point.t.
Proof. solve_decision. Defined.

Section codec.
Context `{Minicbor}.

#[export] Instance Point_encode : Encode Point.t := fun p =>
  match p with
  | Point.Origin => w_array 0
  | Point.Specific slot hash => w_array 2 ⊕ w_u64 slot ⊕ w_bytes hash
  end.

#[export] Instance Point_decode : Decode Point.t :=
  size ← d_array;
  match size with
  | Some 0 => mret Point.Origin
  | Some 2 =>
      slot ← d_u64;
      hash ← d_bytes;
      mret (Point.Specific slot hash)
  | _ => dec_fail (DecodeMessage "can't decode Point from array of size")
  end.

#[export] Instance Point_valid : Valid Point.t := fun p =>
  match p with
  | Point.Origin => True
  | Point.Specific slot hash => in_u 64 slot /\ fits_len hash
  end.
End codec.

Section laws.
Context `{ML : MinicborLaws} `{!MinicborErrors M}.

#[export] Instance Point_codec : Codec Point.t.
Proof.
  split.
  - intros [|slot hash] Hv; unfold_codec Point_encode Point_decode; [solve_parses|]. destruct Hv. solve_parses.
  - unfold decode, Point_decode. solve_stable.
Qed.

#[export] Instance Point_fragment : Fragment Point.t.
Proof. solve_fragment Point_decode. Qed.
End laws.
