(* ===== verification/MiniChainsync.v ===== *)
(** * Chain-sync of the first generation

    [pallas-network/src/miniprotocols/chainsync]: messages and codec (protocol.rs,
    codec.rs), the client (client.rs) and the server (server.rs), and their abstract
    protocol. *)
From S2P Require Import Prelude Cbor Truncation Effects Protocol ProtocolProps.
From S2P Require Import Multiplexer Channels Agents MiniCommon.

Record Tip := { tip_point : Point.t; tip_block : Z }.

Module State.
Inductive t := Idle | CanAwait | MustReply | Intersect | Done.
End State.

#[export] Instance State_eq_dec : EqDecision State.t.
Proof. solve_decision. Defined.

Module Message.
Inductive t (C : Type) :=
| RequestNext
| AwaitReply
| RollForward (content : C) (tip : Tip)
| RollBackward (point : Point.t) (tip : Tip)
| FindIntersect (points : list Point.t)
| IntersectFound (point : Point.t) (tip : Tip)
| IntersectNotFound (tip : Tip)
| Done.
#[global] Arguments RequestNext {C}.
#[global] Arguments AwaitReply {C}.
#[global] Arguments RollForward {C} _ _.
#[global] Arguments RollBackward {C} _ _.
#[global] Arguments FindIntersect {C} _.
#[global] Arguments IntersectFound {C} _ _.
#[global] Arguments IntersectNotFound {C} _.
#[global] Arguments Done {C}.
End Message.

Record HeaderContent := { variant : Z; byron_prefix : option (Z * Z); cbor : bytes }.
Record BlockContent := { block_bytes : bytes }.
Inductive SkippedContent := Skipped.

(** ** Codec *)
Section codec.
Context `{Minicbor}.

#[export] Instance Tip_encode : Encode Tip := fun t =>
  w_array 2 ⊕ encode (tip_point t) ⊕ w_u64 (tip_block t).
#[export] Instance Tip_decode : Decode Tip :=
  _ ← d_array;
  point ← decode;
  block_num ← d_u64;
  mret {| tip_point := point; tip_block := block_num |}.
#[export] Instance Tip_valid : Valid Tip := fun t => valid (tip_point t) /\ in_u 64 (tip_block t).

#[export] Instance Message_encode {C} `{Encode C} : Encode (Message.t C) := fun m =>
  match m with
  | Message.RequestNext => w_array 1 ⊕ w_u16 0
  | Message.AwaitReply => w_array 1 ⊕ w_u16 1
  | Message.RollForward content tip => w_array 3 ⊕ w_u16 2 ⊕ encode content ⊕ encode tip
  | Message.RollBackward point tip => w_array 3 ⊕ w_u16 3 ⊕ encode point ⊕ encode tip
  | Message.FindIntersect points =>
      w_array 2 ⊕ w_u16 4 ⊕ w_array (Z.of_nat (length points)) ⊕ enc_all (encode <$> points)
  | Message.IntersectFound point tip => w_array 3 ⊕ w_u16 5 ⊕ encode point ⊕ encode tip
  | Message.IntersectNotFound tip => w_array 2 ⊕ w_u16 6 ⊕ encode tip
  | Message.Done => w_array 1 ⊕ w_u16 7
  end.

#[export] Instance Message_decode {C} `{Decode C} : Decode (Message.t C) :=
  _ ← d_array;
  label ← d_u16;
  match label with
  | 0 => mret Message.RequestNext
  | 1 => mret Message.AwaitReply
  | 2 => content ← decode; tip ← decode; mret (Message.RollForward content tip)
  | 3 => point ← decode; tip ← decode; mret (Message.RollBackward point tip)
  | 4 => points ← d_seq decode; mret (Message.FindIntersect points)
  | 5 => point ← decode; tip ← decode; mret (Message.IntersectFound point tip)
  | 6 => tip ← decode; mret (Message.IntersectNotFound tip)
  | 7 => mret Message.Done
  | _ => dec_fail (DecodeMessage "unknown variant for chainsync message")
  end.

#[export] Instance Message_valid {C} `{Valid C} : Valid (Message.t C) := fun m =>
  match m with
  | Message.RollForward content tip => valid content /\ valid tip
  | Message.RollBackward point tip | Message.IntersectFound point tip => valid point /\ valid tip
  | Message.FindIntersect points => fits_len points /\ Forall valid points
  | Message.IntersectNotFound tip => valid tip
  | _ => True
  end.

#[export] Instance HeaderContent_decode : Decode HeaderContent :=
  _ ← d_array;
  variant ← d_u8;
  match variant with
  | 0 =>
      _ ← d_array;
      ab ← d_tuple2 d_u8 d_u64;
      _ ← d_tag;
      bytes ← d_bytes;
      mret {| variant := variant; byron_prefix := Some ab; cbor := bytes |}
  | _ =>
      _ ← d_tag;
      bytes ← d_bytes;
      mret {| variant := variant; byron_prefix := None; cbor := bytes |}
  end.

#[export] Instance HeaderContent_encode : Encode HeaderContent := fun h =>
  w_array 2 ⊕ w_u8 (variant h) ⊕
  if variant h =? 0 then
    w_array 2 ⊕
    match byron_prefix h with
    | Some (a, b) => w_array 2 ⊕ w_u8 a ⊕ w_u64 b
    | None => None (* "header variant 0 but no byron prefix" *)
    end ⊕
    w_tag CBOR_TAG ⊕ w_bytes (cbor h)
  else w_tag CBOR_TAG ⊕ w_bytes (cbor h).

(** The prefix is written for Byron headers only. *)
#[export] Instance HeaderContent_valid : Valid HeaderContent := fun h =>
  in_u 8 (variant h) /\ fits_len (cbor h) /\
  match byron_prefix h with
  | Some (a, b) => variant h = 0 /\ in_u 8 a /\ in_u 64 b
  | None => True
  end.

#[export] Instance BlockContent_decode : Decode BlockContent :=
  _ ← d_tag; bytes ← d_bytes; mret {| block_bytes := bytes |}.
#[export] Instance BlockContent_encode : Encode BlockContent := fun b =>
  w_tag CBOR_TAG ⊕ w_bytes (block_bytes b).
#[export] Instance BlockContent_valid : Valid BlockContent := fun b => fits_len (block_bytes b).

#[export] Instance SkippedContent_decode : Decode SkippedContent := _ ← d_skip; mret Skipped.
#[export] Instance SkippedContent_encode : Encode SkippedContent := fun _ => Some e_null.
End codec.

Section laws.
Context `{ML : MinicborLaws} `{!MinicborErrors M}.

#[export] Instance Tip_codec : Codec Tip.
Proof.
  split.
  - intros [p n] [Hp Hn]. unfold_codec Tip_encode Tip_decode. solve_parses.
  - unfold decode; unfold Tip_decode. solve_stable.
Qed.

#[export] Instance Tip_fragment : Fragment Tip.
Proof. solve_fragment Tip_decode. Qed.

#[export] Instance HeaderContent_codec : Codec HeaderContent.
Proof.
  split.
  - intros [v p b] (Hv & Hb & Hp).
    unfold_codec HeaderContent_encode HeaderContent_decode; cbn.
    do 2 (eapply Parses_bind; [solve [eauto with codec]|]).
    destruct p as [[x y]|].
    + destruct Hp as (-> & Hx & Hy). cbn.
      eapply Parses_bind; [solve [eauto with codec]|].
      eapply Parses_bind; [eapply tuple2_parses; solve [eauto with codec]|]. solve_parses.
    + destruct v; cbn; [apply Parses_fail_app|solve_parses..].
  - unfold decode; unfold HeaderContent_decode. solve_stable.
Qed.

#[export] Instance HeaderContent_fragment : Fragment HeaderContent.
Proof. solve_fragment HeaderContent_decode. Qed.

#[export] Instance BlockContent_codec : Codec BlockContent.
Proof.
  split.
  - intros [b] Hb. unfold_codec BlockContent_encode BlockContent_decode. solve_parses.
  - unfold decode; unfold BlockContent_decode. solve_stable.
Qed.

#[export] Instance BlockContent_error_stable : ErrorStable BlockContent.
Proof. unfold ErrorStable, decode; unfold BlockContent_decode. solve_robust. Qed.

#[export] Instance Message_codec {C} `{Codec C} : Codec (Message.t C).
Proof.
  split.
  - intros m Hm. unfold_codec Message_encode Message_decode.
    destruct m; unfold valid in Hm; cbn in Hm; destruct_and?; solve_parses.
  - unfold decode; unfold Message_decode. solve_stable.
Qed.

(** The content of a message stands behind its header, so it may be empty. *)
#[export] Instance Message_fragment {C} `{Codec C} `{!ErrorStable C} : Fragment (Message.t C).
Proof. solve_fragment Message_decode. Qed.
End laws.

(** ** The abstract protocol *)
Section machine.
Context {C : Type}.

Definition next (s : State.t) (m : Message.t C) : result Protocol.Error State.t :=
  match s, m with
  | State.Idle, Message.RequestNext => Ok State.CanAwait
  | State.Idle, Message.FindIntersect _ => Ok State.Intersect
  | State.Idle, Message.Done => Ok State.Done
  | State.CanAwait, Message.AwaitReply => Ok State.MustReply
  | (State.CanAwait | State.MustReply), (Message.RollForward _ _ | Message.RollBackward _ _) => Ok State.Idle
  | State.Intersect, (Message.IntersectFound _ _ | Message.IntersectNotFound _) => Ok State.Idle
  | _, _ => Err Protocol.InvalidInbound
  end.

#[export, refine] Instance agency : Agency next := {
  client_may s _ := match s with State.Idle => true | _ => false end;
  server_may s _ := match s with State.CanAwait | State.MustReply | State.Intersect => true | _ => false end
}.
Proof. by intros []. Defined.
End machine.

(** ** The client *)
Module ClientError.
Inductive t := AgencyIsOurs | AgencyIsTheirs | InvalidInbound | InvalidOutbound | IntersectionNotFound
  | Plexer (e : Error.t).
End ClientError.

#[export] Instance ClientError_agent : AgentError ClientError.t := {|
  agency_is_ours := ClientError.AgencyIsOurs; agency_is_theirs := ClientError.AgencyIsTheirs;
  plexer_error := ClientError.Plexer |}.

Definition IntersectResponse : Type := option Point.t * Tip.

Module NextResponse.
Inductive t (CONTENT : Type) :=
| RollForward (content : CONTENT) (tip : Tip)
| RollBackward (point : Point.t) (tip : Tip)
| Await.
#[global] Arguments RollForward {CONTENT} _ _.
#[global] Arguments RollBackward {CONTENT} _ _.
#[global] Arguments Await {CONTENT}.
End NextResponse.

Module Client.
Section client.
Context `{Minicbor} {O : Type} `{Encode O, Decode O}.
Abbreviation method := (comp ClientError.t (State.t * ChannelBuffer)).

Definition new (channel : AgentChannel) : State.t * ChannelBuffer := (State.Idle, ChannelBuffer_new channel).
Definition is_done (self : State.t) : bool := bool_decide (self = State.Done).

Definition has_agency (self : State.t) : bool :=
  match self with
  | State.Idle => true
  | State.CanAwait => false
  | State.MustReply => false
  | State.Intersect => false
  | State.Done => false
  end.

Definition assert_agency_is_ours : method unit := Agents.assert_agency_is_ours has_agency.
Definition assert_agency_is_theirs : method unit := Agents.assert_agency_is_theirs has_agency.

Definition assert_outbound_state (self : State.t) (msg : Message.t O) : result ClientError.t unit :=
  match self, msg with
  | State.Idle, Message.RequestNext => Ok ()
  | State.Idle, Message.FindIntersect _ => Ok ()
  | State.Idle, Message.Done => Ok ()
  | _, _ => Err ClientError.InvalidOutbound
  end.

Definition assert_inbound_state (self : State.t) (msg : Message.t O) : result ClientError.t unit :=
  match self, msg with
  | State.CanAwait, Message.RollForward _ _ => Ok ()
  | State.CanAwait, Message.RollBackward _ _ => Ok ()
  | State.CanAwait, Message.AwaitReply => Ok ()
  | State.MustReply, Message.RollForward _ _ => Ok ()
  | State.MustReply, Message.RollBackward _ _ => Ok ()
  | State.Intersect, Message.IntersectFound _ _ => Ok ()
  | State.Intersect, Message.IntersectNotFound _ => Ok ()
  | _, _ => Err ClientError.InvalidInbound
  end.

Definition send_message (msg : Message.t O) : method unit :=
  Agents.send_message has_agency assert_outbound_state msg.
Definition recv_message : method (Message.t O) := Agents.recv_message has_agency assert_inbound_state.

Definition send_find_intersect (points : list Point.t) : method unit :=
  let msg := Message.FindIntersect points in
  _ ← send_message msg;
  set_state State.Intersect.

Definition recv_intersect_response : method IntersectResponse :=
  msg ← recv_message;
  match msg with
  | Message.IntersectFound point tip => _ ← set_state State.Idle; mret (Some point, tip)
  | Message.IntersectNotFound tip => _ ← set_state State.Idle; mret (None, tip)
  | _ => throw ClientError.InvalidInbound
  end.

Definition find_intersect (points : list Point.t) : method IntersectResponse :=
  _ ← send_find_intersect points;
  recv_intersect_response.

Definition send_request_next : method unit :=
  let msg := Message.RequestNext in
  _ ← send_message msg;
  set_state State.CanAwait.

Definition recv_while_can_await : method (NextResponse.t O) :=
  msg ← recv_message;
  match msg with
  | Message.AwaitReply => _ ← set_state State.MustReply; mret NextResponse.Await
  | Message.RollForward a b => _ ← set_state State.Idle; mret (NextResponse.RollForward a b)
  | Message.RollBackward a b => _ ← set_state State.Idle; mret (NextResponse.RollBackward a b)
  | _ => throw ClientError.InvalidInbound
  end.

Definition recv_while_must_reply : method (NextResponse.t O) :=
  msg ← recv_message;
  match msg with
  | Message.RollForward a b => _ ← set_state State.Idle; mret (NextResponse.RollForward a b)
  | Message.RollBackward a b => _ ← set_state State.Idle; mret (NextResponse.RollBackward a b)
  | _ => throw ClientError.InvalidInbound
  end.

Definition request_next : method (NextResponse.t O) :=
  _ ← send_request_next;
  recv_while_can_await.

Definition request_or_await_next : method (NextResponse.t O) :=
  self ← get;
  if has_agency self.1 then request_next else recv_while_must_reply.

Definition ok_or {A} (x : option A) (e : ClientError.t) : method A :=
  match x with Some a => mret a | None => throw e end.

Definition intersect_origin : method Point.t :=
  '(point, _) ← find_intersect [Point.Origin];
  ok_or point ClientError.IntersectionNotFound.

Definition intersect_tip : method Point.t :=
  '(_, tip) ← find_intersect [Point.Origin];
  '(point, _) ← find_intersect [tip_point tip];
  ok_or point ClientError.IntersectionNotFound.

Definition send_done : method unit :=
  let msg := Message.Done in
  _ ← send_message msg;
  set_state State.Done.
End client.
End Client.

(** ** The server *)
Module ServerError.
Inductive t := AgencyIsOurs | AgencyIsTheirs | InvalidInbound | InvalidOutbound | Plexer (e : Error.t).
End ServerError.

#[export] Instance ServerError_agent : AgentError ServerError.t := {|
  agency_is_ours := ServerError.AgencyIsOurs; agency_is_theirs := ServerError.AgencyIsTheirs;
  plexer_error := ServerError.Plexer |}.

Module ClientRequest.
Inductive t := Intersect (points : list Point.t) | RequestNext.
End ClientRequest.

Module Server.
Section server.
Context `{Minicbor} {O : Type} `{Encode O, Decode O}.
Abbreviation method := (comp ServerError.t (State.t * ChannelBuffer)).

Definition new (channel : AgentChannel) : State.t * ChannelBuffer := (State.Idle, ChannelBuffer_new channel).
Definition is_done (self : State.t) : bool := bool_decide (self = State.Done).

Definition has_agency (self : State.t) : bool :=
  match self with
  | State.Idle => false
  | State.CanAwait => true
  | State.MustReply => true
  | State.Intersect => true
  | State.Done => false
  end.

Definition assert_agency_is_ours : method unit := Agents.assert_agency_is_ours has_agency.
Definition assert_agency_is_theirs : method unit := Agents.assert_agency_is_theirs has_agency.

Definition assert_outbound_state (self : State.t) (msg : Message.t O) : result ServerError.t unit :=
  match self, msg with
  | State.CanAwait, Message.RollForward _ _ => Ok ()
  | State.CanAwait, Message.RollBackward _ _ => Ok ()
  | State.CanAwait, Message.AwaitReply => Ok ()
  | State.MustReply, Message.RollForward _ _ => Ok ()
  | State.MustReply, Message.RollBackward _ _ => Ok ()
  | State.Intersect, Message.IntersectFound _ _ => Ok ()
  | State.Intersect, Message.IntersectNotFound _ => Ok ()
  | _, _ => Err ServerError.InvalidOutbound
  end.

Definition assert_inbound_state (self : State.t) (msg : Message.t O) : result ServerError.t unit :=
  match self, msg with
  | State.Idle, Message.RequestNext => Ok ()
  | State.Idle, Message.FindIntersect _ => Ok ()
  | State.Idle, Message.Done => Ok ()
  | _, _ => Err ServerError.InvalidInbound
  end.

Definition send_message (msg : Message.t O) : method unit :=
  Agents.send_message has_agency assert_outbound_state msg.
Definition recv_message : method (Message.t O) := Agents.recv_message has_agency assert_inbound_state.

Definition recv_while_idle : method (option ClientRequest.t) :=
  msg ← recv_message;
  match msg with
  | Message.FindIntersect points => _ ← set_state State.Intersect; mret (Some (ClientRequest.Intersect points))
  | Message.RequestNext => _ ← set_state State.CanAwait; mret (Some ClientRequest.RequestNext)
  | Message.Done => _ ← set_state State.Done; mret None
  | _ => throw ServerError.InvalidInbound
  end.

Definition send_intersect_not_found (tip : Tip) : method unit :=
  let msg := Message.IntersectNotFound tip in
  _ ← send_message msg;
  set_state State.Idle.

Definition send_intersect_found (point : Point.t) (tip : Tip) : method unit :=
  let msg := Message.IntersectFound point tip in
  _ ← send_message msg;
  set_state State.Idle.

Definition send_roll_forward (content : O) (tip : Tip) : method unit :=
  let msg := Message.RollForward content tip in
  _ ← send_message msg;
  set_state State.Idle.

Definition send_roll_backward (point : Point.t) (tip : Tip) : method unit :=
  let msg := Message.RollBackward point tip in
  _ ← send_message msg;
  set_state State.Idle.

Definition send_await_reply : method unit :=
  let msg := Message.AwaitReply in
  _ ← send_message msg;
  set_state State.MustReply.
End server.
End Server.

(** ** Both follow the protocol *)
#[export] Hint Unfold Client.assert_agency_is_ours Client.assert_agency_is_theirs Client.assert_outbound_state
  Client.assert_inbound_state Client.send_message Client.recv_message Client.send_find_intersect
  Client.recv_intersect_response Client.send_request_next Client.recv_while_can_await
  Client.recv_while_must_reply Client.send_done : agents.
#[export] Hint Unfold Server.assert_agency_is_ours Server.assert_agency_is_theirs Server.assert_outbound_state
  Server.assert_inbound_state Server.send_message Server.recv_message Server.recv_while_idle
  Server.send_intersect_not_found Server.send_intersect_found Server.send_roll_forward
  Server.send_roll_backward Server.send_await_reply : agents.

Section sides.
Context `{Minicbor} {O : Type} `{Encode O, Decode O, Valid O}.

Inductive client_call :=
| SendFindIntersect (points : list Point.t)
| RecvIntersectResponse
| SendRequestNext
| RecvWhileCanAwait
| RecvWhileMustReply
| SendDone.

#[refine] Definition client_side : Side (M := Message.t O) next (client_may next) (server_may next) ClientError.t := {|
  call := client_call;
  run c :=
    match c with
    | SendFindIntersect points => Client.send_find_intersect (O := O) points
    | RecvIntersectResponse => discard (Client.recv_intersect_response (O := O))
    | SendRequestNext => Client.send_request_next (O := O)
    | RecvWhileCanAwait => discard (Client.recv_while_can_await (O := O))
    | RecvWhileMustReply => discard (Client.recv_while_must_reply (O := O))
    | SendDone => Client.send_done (O := O)
    end;
  action_of s c :=
    match c, s with
    | SendFindIntersect points, State.Idle => Sends (Message.FindIntersect points)
    | SendRequestNext, State.Idle => Sends Message.RequestNext
    | SendDone, State.Idle => Sends Message.Done
    | (SendFindIntersect _ | SendRequestNext | SendDone), _ => Refuses
    | _, State.Idle => Refuses
    | RecvIntersectResponse, State.Intersect => Receives
    | RecvWhileCanAwait, State.CanAwait => Receives
    | RecvWhileMustReply, State.MustReply => Receives
    | _, _ => Unsuited
    end
|}.
Proof. abstract solve_side. Defined.

Inductive server_call :=
| RecvWhileIdle
| SendIntersectNotFound (tip : Tip)
| SendIntersectFound (point : Point.t) (tip : Tip)
| SendRollForward (content : O) (tip : Tip)
| SendRollBackward (point : Point.t) (tip : Tip)
| SendAwaitReply.

#[refine] Definition server_side : Side (M := Message.t O) next (server_may next) (client_may next) ServerError.t := {|
  call := server_call;
  run c :=
    match c with
    | RecvWhileIdle => discard (Server.recv_while_idle (O := O))
    | SendIntersectNotFound tip => Server.send_intersect_not_found (O := O) tip
    | SendIntersectFound point tip => Server.send_intersect_found (O := O) point tip
    | SendRollForward content tip => Server.send_roll_forward content tip
    | SendRollBackward point tip => Server.send_roll_backward (O := O) point tip
    | SendAwaitReply => Server.send_await_reply (O := O)
    end;
  action_of s c :=
    match s, c with
    | State.Idle, RecvWhileIdle => Receives
    | State.Done, RecvWhileIdle => Unsuited
    | State.Intersect, SendIntersectNotFound tip => Sends (Message.IntersectNotFound tip)
    | State.Intersect, SendIntersectFound point tip => Sends (Message.IntersectFound point tip)
    | (State.CanAwait | State.MustReply), SendRollForward content tip => Sends (Message.RollForward content tip)
    | (State.CanAwait | State.MustReply), SendRollBackward point tip => Sends (Message.RollBackward point tip)
    | State.CanAwait, SendAwaitReply => Sends Message.AwaitReply
    | _, _ => Refuses
    end
|}.
Proof. abstract solve_side. Defined.
End sides.
