(* ===== verification/MiniBlockfetch.v ===== *)
(** * Block-fetch of the first generation

    [pallas-network/src/miniprotocols/blockfetch]: messages and codec, the client and
    the server with their methods for whole ranges, and the abstract protocol. *)
From S2P Require Import Prelude Cbor Truncation Effects Protocol ProtocolProps.
From S2P Require Import Multiplexer Channels Agents MiniCommon.

Module State.
Inductive t := Idle | Busy | Streaming | Done.
End State.

#[export] Instance State_eq_dec : EqDecision State.t.
Proof. solve_decision. Defined.

Definition Range : Type := Point.t * Point.t.
Definition Body : Type := bytes.
Definition HasBlocks : Type := option unit.

Module Message.
Inductive t :=
| RequestRange (range : Point.t * Point.t)
| ClientDone
| StartBatch
| NoBlocks
| Block (body : bytes)
| BatchDone.
End Message.

(** ** Codec *)
Section codec.
Context `{Minicbor}.

#[export] Instance Message_encode : Encode Message.t := fun m =>
  match m with
  | Message.RequestRange range => w_array 3 ⊕ w_u16 0 ⊕ encode range.1 ⊕ encode range.2
  | Message.ClientDone => w_array 1 ⊕ w_u16 1
  | Message.StartBatch => w_array 1 ⊕ w_u16 2
  | Message.NoBlocks => w_array 1 ⊕ w_u16 3
  | Message.Block body => w_array 2 ⊕ w_u16 4 ⊕ w_tag CBOR_TAG ⊕ w_bytes body
  | Message.BatchDone => w_array 1 ⊕ w_u16 5
  end.

#[export] Instance Message_decode : Decode Message.t :=
  _ ← d_array;
  label ← d_u16;
  match label with
  | 0 => point1 ← decode; point2 ← decode; mret (Message.RequestRange (point1, point2))
  | 1 => mret Message.ClientDone
  | 2 => mret Message.StartBatch
  | 3 => mret Message.NoBlocks
  | 4 => _ ← d_tag; body ← d_bytes; mret (Message.Block body)
  | 5 => mret Message.BatchDone
  | _ => dec_fail (DecodeMessage "unknown variant for blockfetch message")
  end.

#[export] Instance Message_valid : Valid Message.t := fun m =>
  match m with
  | Message.RequestRange range => valid range.1 /\ valid range.2
  | Message.Block body => fits_len body
  | _ => True
  end.
End codec.

Section laws.
Context `{ML : MinicborLaws} `{!MinicborErrors M}.

#[export] Instance Message_codec : Codec Message.t.
Proof.
  split.
  - intros m Hm. unfold_codec Message_encode Message_decode.
    destruct m as [[]| | | | |]; unfold valid in Hm; cbn in Hm; destruct_and?; solve_parses.
  - unfold decode; unfold Message_decode. solve_stable.
Qed.

#[export] Instance Message_fragment : Fragment Message.t.
Proof. solve_fragment Message_decode. Qed.
End laws.

(** ** The abstract protocol *)
Definition next (s : State.t) (m : Message.t) : result Protocol.Error State.t :=
  match s, m with
  | State.Idle, Message.RequestRange _ => Ok State.Busy
  | State.Idle, Message.ClientDone => Ok State.Done
  | State.Busy, Message.StartBatch => Ok State.Streaming
  | State.Busy, Message.NoBlocks => Ok State.Idle
  | State.Streaming, Message.Block _ => Ok State.Streaming
  | State.Streaming, Message.BatchDone => Ok State.Idle
  | _, _ => Err Protocol.InvalidInbound
  end.

#[export, refine] Instance agency : Agency next := {
  client_may s _ := match s with State.Idle => true | _ => false end;
  server_may s _ := match s with State.Busy | State.Streaming => true | _ => false end
}.
Proof. by intros []. Defined.

(** ** The client *)
Module ClientError.
Inductive t := AgencyIsOurs | AgencyIsTheirs | InvalidInbound | InvalidOutbound | NoBlocks | Plexer (e : Error.t).
End ClientError.

#[export] Instance ClientError_agent : AgentError ClientError.t := {|
  agency_is_ours := ClientError.AgencyIsOurs; agency_is_theirs := ClientError.AgencyIsTheirs;
  plexer_error := ClientError.Plexer |}.

Module Client.
Section client.
Context `{Minicbor}.
Abbreviation method := (comp ClientError.t (State.t * ChannelBuffer)).

Definition new (channel : AgentChannel) : State.t * ChannelBuffer := (State.Idle, ChannelBuffer_new channel).
Definition is_done (self : State.t) : bool := bool_decide (self = State.Done).

Definition has_agency (self : State.t) : bool :=
  match self with
  | State.Idle => true
  | State.Busy => false
  | State.Streaming => false
  | State.Done => false
  end.

Definition assert_agency_is_ours : method unit := Agents.assert_agency_is_ours has_agency.
Definition assert_agency_is_theirs : method unit := Agents.assert_agency_is_theirs has_agency.

Definition assert_outbound_state (self : State.t) (msg : Message.t) : result ClientError.t unit :=
  match self, msg with
  | State.Idle, Message.RequestRange _ => Ok ()
  | State.Idle, Message.ClientDone => Ok ()
  | _, _ => Err ClientError.InvalidOutbound
  end.

Definition assert_inbound_state (self : State.t) (msg : Message.t) : result ClientError.t unit :=
  match self, msg with
  | State.Busy, Message.StartBatch => Ok ()
  | State.Busy, Message.NoBlocks => Ok ()
  | State.Streaming, Message.Block _ => Ok ()
  | State.Streaming, Message.BatchDone => Ok ()
  | _, _ => Err ClientError.InvalidInbound
  end.

Definition send_message (msg : Message.t) : method unit :=
  Agents.send_message has_agency assert_outbound_state msg.
Definition recv_message : method Message.t := Agents.recv_message has_agency assert_inbound_state.

Definition send_request_range (range : Point.t * Point.t) : method unit :=
  let msg := Message.RequestRange range in
  _ ← send_message msg;
  set_state State.Busy.

Definition recv_while_busy : method HasBlocks :=
  msg ← recv_message;
  match msg with
  | Message.StartBatch => _ ← set_state State.Streaming; mret (Some ())
  | Message.NoBlocks => _ ← set_state State.Idle; mret None
  | _ => throw ClientError.InvalidInbound
  end.

Definition request_range (range : Range) : method HasBlocks :=
  _ ← send_request_range range;
  recv_while_busy.

Definition recv_while_streaming : method (option Body) :=
  msg ← recv_message;
  match msg with
  | Message.Block body => mret (Some body)
  | Message.BatchDone => _ ← set_state State.Idle; mret None
  | _ => throw ClientError.InvalidInbound
  end.

Definition ok_or {A} (x : option A) (e : ClientError.t) : method A :=
  match x with Some a => mret a | None => throw e end.

Definition fetch_single (point : Point.t) : method Body :=
  has ← request_range (point, point);
  _ ← ok_or has ClientError.NoBlocks;
  block ← recv_while_streaming;
  body ← ok_or block ClientError.InvalidInbound;
  block ← recv_while_streaming;
  match block with
  | Some _ => throw ClientError.InvalidInbound
  | None => mret body
  end.

(** Each turn takes a message, so the bytes there are bound the number of turns. *)
Fixpoint collect_blocks (fuel : nat) (all : list Body) : method (list Body) :=
  match fuel with
  | O => unfinished
  | S fuel =>
      block ← recv_while_streaming;
      match block with
      | Some block => collect_blocks fuel (all ++ [block])
      | None => mret all
      end
  end.

Definition fetch_range (range : Range) : method (list Body) :=
  self ← get;
  let fuel := S (length (inbound self.2)) in
  has ← request_range range;
  _ ← ok_or has ClientError.NoBlocks;
  collect_blocks fuel [].

Definition send_done : method unit :=
  let msg := Message.ClientDone in
  _ ← send_message msg;
  set_state State.Done.
End client.
End Client.

(** ** The server *)
Module ServerError.
Inductive t := AgencyIsOurs | AgencyIsTheirs | InvalidInbound | InvalidOutbound | Plexer (e : Error.t).
End ServerError.

#[export] Instance ServerError_agent : AgentError ServerError.t := {|
  agency_is_ours := ServerError.AgencyIsOurs; agency_is_theirs := ServerError.AgencyIsTheirs;
  plexer_error := ServerError.Plexer |}.

Record BlockRequest := { requested : Range }.

Module Server.
Section server.
Context `{Minicbor}.
Abbreviation method := (comp ServerError.t (State.t * ChannelBuffer)).

Definition new (channel : AgentChannel) : State.t * ChannelBuffer := (State.Idle, ChannelBuffer_new channel).
Definition is_done (self : State.t) : bool := bool_decide (self = State.Done).

Definition has_agency (self : State.t) : bool :=
  match self with
  | State.Idle => false
  | State.Busy => true
  | State.Streaming => true
  | State.Done => false
  end.

Definition assert_agency_is_ours : method unit := Agents.assert_agency_is_ours has_agency.
Definition assert_agency_is_theirs : method unit := Agents.assert_agency_is_theirs has_agency.

Definition assert_outbound_state (self : State.t) (msg : Message.t) : result ServerError.t unit :=
  match self, msg with
  | State.Busy, Message.NoBlocks => Ok ()
  | State.Busy, Message.StartBatch => Ok ()
  | State.Streaming, Message.Block _ => Ok ()
  | State.Streaming, Message.BatchDone => Ok ()
  | _, _ => Err ServerError.InvalidOutbound
  end.

Definition assert_inbound_state (self : State.t) (msg : Message.t) : result ServerError.t unit :=
  match self, msg with
  | State.Idle, Message.RequestRange _ => Ok ()
  | State.Idle, Message.ClientDone => Ok ()
  | _, _ => Err ServerError.InvalidInbound
  end.

Definition send_message (msg : Message.t) : method unit :=
  Agents.send_message has_agency assert_outbound_state msg.
Definition recv_message : method Message.t := Agents.recv_message has_agency assert_inbound_state.

Definition send_start_batch : method unit :=
  let msg := Message.StartBatch in
  _ ← send_message msg;
  set_state State.Streaming.

Definition send_no_blocks : method unit :=
  let msg := Message.NoBlocks in
  _ ← send_message msg;
  set_state State.Idle.

Definition send_block (body : Body) : method unit :=
  let msg := Message.Block body in
  send_message msg.

Definition send_batch_done : method unit :=
  let msg := Message.BatchDone in
  _ ← send_message msg;
  set_state State.Idle.

Definition recv_while_idle : method (option BlockRequest) :=
  msg ← recv_message;
  match msg with
  | Message.RequestRange range => _ ← set_state State.Busy; mret (Some {| requested := range |})
  | Message.ClientDone => _ ← set_state State.Done; mret None
  | _ => throw ServerError.InvalidInbound
  end.

Fixpoint send_blocks (blocks : list Body) : method unit :=
  match blocks with
  | [] => mret ()
  | block :: blocks => _ ← send_block block; send_blocks blocks
  end.

Definition send_block_range (blocks : list Body) : method unit :=
  match blocks with
  | [] => send_no_blocks
  | _ =>
      _ ← send_start_batch;
      _ ← send_blocks blocks;
      send_batch_done
  end.
End server.
End Server.

(** ** Both follow the protocol *)
#[export] Hint Unfold Client.assert_agency_is_ours Client.assert_agency_is_theirs Client.assert_outbound_state
  Client.assert_inbound_state Client.send_message Client.recv_message Client.send_request_range
  Client.recv_while_busy Client.recv_while_streaming Client.send_done : agents.
#[export] Hint Unfold Server.assert_agency_is_ours Server.assert_agency_is_theirs Server.assert_outbound_state
  Server.assert_inbound_state Server.send_message Server.recv_message Server.send_start_batch
  Server.send_no_blocks Server.send_block Server.send_batch_done Server.recv_while_idle : agents.

Section sides.
Context `{Minicbor}.

Inductive client_call :=
| SendRequestRange (range : Range)
| RecvWhileBusy
| RecvWhileStreaming
| SendDone.

#[refine] Definition client_side : Side next (client_may next) (server_may next) ClientError.t := {|
  call := client_call;
  run c :=
    match c with
    | SendRequestRange range => Client.send_request_range range
    | RecvWhileBusy => discard Client.recv_while_busy
    | RecvWhileStreaming => discard Client.recv_while_streaming
    | SendDone => Client.send_done
    end;
  action_of s c :=
    match c, s with
    | SendRequestRange range, State.Idle => Sends (Message.RequestRange range)
    | SendDone, State.Idle => Sends Message.ClientDone
    | (SendRequestRange _ | SendDone), _ => Refuses
    | _, State.Idle => Refuses
    | RecvWhileBusy, State.Busy => Receives
    | RecvWhileStreaming, State.Streaming => Receives
    | _, _ => Unsuited
    end
|}.
Proof. abstract solve_side. Defined.

Inductive server_call :=
| RecvWhileIdle
| SendStartBatch
| SendNoBlocks
| SendBlock (body : Body)
| SendBatchDone.

#[refine] Definition server_side : Side next (server_may next) (client_may next) ServerError.t := {|
  call := server_call;
  run c :=
    match c with
    | RecvWhileIdle => discard Server.recv_while_idle
    | SendStartBatch => Server.send_start_batch
    | SendNoBlocks => Server.send_no_blocks
    | SendBlock body => Server.send_block body
    | SendBatchDone => Server.send_batch_done
    end;
  action_of s c :=
    match s, c with
    | State.Idle, RecvWhileIdle => Receives
    | State.Done, RecvWhileIdle => Unsuited
    | State.Busy, SendStartBatch => Sends Message.StartBatch
    | State.Busy, SendNoBlocks => Sends Message.NoBlocks
    | State.Streaming, SendBlock body => Sends (Message.Block body)
    | State.Streaming, SendBatchDone => Sends Message.BatchDone
    | _, _ => Refuses
    end
|}.
Proof. abstract solve_side. Defined.
End sides.
