(* ===== verification/MiniKeepalive.v ===== *)
(** * Keep-alive of the first generation

    [pallas-network/src/miniprotocols/keepalive].  The cookie the client draws from
    the crate rand is an argument. *)
From S2P Require Import Prelude Cbor Truncation Effects Protocol ProtocolProps.
From S2P Require Import Multiplexer Channels Agents.

Module State.
Inductive t := Client | Server (cookie : Z) | Done.
End State.

#[export] Instance State_eq_dec : EqDecision State.t.
Proof. solve_decision. Defined.

Module Message.
Inductive t :=
| KeepAlive (cookie : Z)
| ResponseKeepAlive (cookie : Z)
| Done.
End Message.

(** ** Codec *)
Section codec.
Context `{Minicbor}.

#[export] Instance Message_encode : Encode Message.t := fun m =>
  match m with
  | Message.KeepAlive cookie => w_array 2 ⊕ w_u16 0 ⊕ w_u16 cookie
  | Message.ResponseKeepAlive cookie => w_array 2 ⊕ w_u16 1 ⊕ w_u16 cookie
  | Message.Done => w_array 1 ⊕ w_u16 2
  end.

#[export] Instance Message_decode : Decode Message.t :=
  _ ← d_array;
  label ← d_u16;
  match label with
  | 0 => cookie ← d_u16; mret (Message.KeepAlive cookie)
  | 1 => cookie ← d_u16; mret (Message.ResponseKeepAlive cookie)
  | 2 => mret Message.Done
  | _ => dec_fail (DecodeMessage "can't decode Message")
  end.

#[export] Instance Message_valid : Valid Message.t := fun m =>
  match m with
  | Message.KeepAlive cookie | Message.ResponseKeepAlive cookie => in_u 16 cookie
  | Message.Done => True
  end.
End codec.

Section laws.
Context `{ML : MinicborLaws} `{!MinicborErrors M}.

#[export] Instance Message_codec : Codec Message.t.
Proof.
  split.
  - intros m Hm. unfold_codec Message_encode Message_decode.
    destruct m; unfold valid in Hm; cbn in Hm; solve_parses.
  - unfold decode; unfold Message_decode. solve_stable.
Qed.

#[export] Instance Message_fragment : Fragment Message.t.
Proof. solve_fragment Message_decode. Qed.
End laws.

(** ** The abstract protocol: a reply carries the cookie of the request *)
Definition next (s : State.t) (m : Message.t) : result Protocol.Error State.t :=
  match s, m with
  | State.Client, Message.KeepAlive cookie => Ok (State.Server cookie)
  | State.Client, Message.Done => Ok State.Done
  | State.Server expected, Message.ResponseKeepAlive cookie =>
      if expected =? cookie then Ok State.Client else Err Protocol.InvalidInbound
  | _, _ => Err Protocol.InvalidInbound
  end.

#[export, refine] Instance agency : Agency next := {
  client_may s _ := match s with State.Client => true | _ => false end;
  server_may s _ := match s with State.Server _ => true | _ => false end
}.
Proof. by intros []. Defined.

(** ** The client *)
Module ClientError.
Inductive t := AgencyIsOurs | AgencyIsTheirs | InvalidInbound | InvalidOutbound | KeepAliveCookieMismatch
  | Plexer (e : Error.t).
End ClientError.

#[export] Instance ClientError_agent : AgentError ClientError.t := {|
  agency_is_ours := ClientError.AgencyIsOurs; agency_is_theirs := ClientError.AgencyIsTheirs;
  plexer_error := ClientError.Plexer |}.

Module Client.
Section client.
Context `{Minicbor}.
Abbreviation method := (comp ClientError.t (State.t * ChannelBuffer)).

Definition new (channel : AgentChannel) : State.t * ChannelBuffer := (State.Client, ChannelBuffer_new channel).
Definition is_done (self : State.t) : bool := bool_decide (self = State.Done).

Definition has_agency (self : State.t) : bool :=
  match self with
  | State.Client => true
  | State.Server _ => false
  | State.Done => false
  end.

Definition assert_agency_is_ours : method unit := Agents.assert_agency_is_ours has_agency.
Definition assert_agency_is_theirs : method unit := Agents.assert_agency_is_theirs has_agency.

Definition assert_outbound_state (self : State.t) (msg : Message.t) : result ClientError.t unit :=
  match self, msg with
  | State.Client, Message.KeepAlive _ => Ok ()
  | State.Client, Message.Done => Ok ()
  | _, _ => Err ClientError.InvalidOutbound
  end.

Definition assert_inbound_state (self : State.t) (msg : Message.t) : result ClientError.t unit :=
  match self, msg with
  | State.Server _, Message.ResponseKeepAlive _ => Ok ()
  | _, _ => Err ClientError.InvalidInbound
  end.

Definition send_message (msg : Message.t) : method unit :=
  Agents.send_message has_agency assert_outbound_state msg.
Definition recv_message : method Message.t := Agents.recv_message has_agency assert_inbound_state.

Definition send_keepalive_request (cookie : Z) : method unit :=
  let msg := Message.KeepAlive cookie in
  _ ← send_message msg;
  set_state (State.Server cookie).

(** The last branch is [unreachable!()]. *)
Definition recv_keepalive_response : method unit :=
  msg ← recv_message;
  match msg with
  | Message.ResponseKeepAlive cookie =>
      self ← get;
      match self.1 with
      | State.Server expected =>
          if expected =? cookie then set_state State.Client
          else throw ClientError.KeepAliveCookieMismatch
      | _ => eval None
      end
  | _ => throw ClientError.InvalidInbound
  end.

Definition keepalive_roundtrip (cookie : Z) : method unit :=
  _ ← send_keepalive_request cookie;
  _ ← recv_keepalive_response;
  mret ().
End client.
End Client.

(** ** The server *)
Module ServerError.
Inductive t := AgencyIsOurs | AgencyIsTheirs | InvalidInbound | InvalidOutbound | Plexer (e : Error.t).
End ServerError.

#[export] Instance ServerError_agent : AgentError ServerError.t := {|
  agency_is_ours := ServerError.AgencyIsOurs; agency_is_theirs := ServerError.AgencyIsTheirs;
  plexer_error := ServerError.Plexer |}.

Module Server.
Section server.
Context `{Minicbor}.
Abbreviation method := (comp ServerError.t (State.t * ChannelBuffer)).

Definition new (channel : AgentChannel) : State.t * ChannelBuffer := (State.Client, ChannelBuffer_new channel).
Definition is_done (self : State.t) : bool := bool_decide (self = State.Done).

Definition has_agency (self : State.t) : bool :=
  match self with
  | State.Client => false
  | State.Server _ => true
  | State.Done => false
  end.

Definition assert_agency_is_ours : method unit := Agents.assert_agency_is_ours has_agency.
Definition assert_agency_is_theirs : method unit := Agents.assert_agency_is_theirs has_agency.

Definition assert_outbound_state (self : State.t) (msg : Message.t) : result ServerError.t unit :=
  match self, msg with
  | State.Server _, Message.ResponseKeepAlive _ => Ok ()
  | _, _ => Err ServerError.InvalidOutbound
  end.

Definition assert_inbound_state (self : State.t) (msg : Message.t) : result ServerError.t unit :=
  match self, msg with
  | State.Client, Message.KeepAlive _ => Ok ()
  | State.Client, Message.Done => Ok ()
  | _, _ => Err ServerError.InvalidInbound
  end.

Definition send_message (msg : Message.t) : method unit :=
  Agents.send_message has_agency assert_outbound_state msg.
Definition recv_message : method Message.t := Agents.recv_message has_agency assert_inbound_state.

Definition recv_keepalive_request : method unit :=
  msg ← recv_message;
  match msg with
  | Message.KeepAlive cookie => set_state (State.Server cookie)
  | Message.Done => set_state State.Done
  | _ => throw ServerError.InvalidInbound
  end.

Definition send_keepalive_response : method unit :=
  self ← get;
  match self.1 with
  | State.Server cookie =>
      let msg := Message.ResponseKeepAlive cookie in
      _ ← send_message msg;
      set_state State.Client
  | _ => mret ()
  end.

Definition keepalive_roundtrip : method unit :=
  _ ← recv_keepalive_request;
  _ ← send_keepalive_response;
  mret ().
End server.
End Server.

(** ** Both follow the protocol *)
#[export] Hint Unfold Client.assert_agency_is_ours Client.assert_agency_is_theirs Client.assert_outbound_state
  Client.assert_inbound_state Client.send_message Client.recv_message Client.send_keepalive_request
  Client.recv_keepalive_response : agents.
#[export] Hint Unfold Server.assert_agency_is_ours Server.assert_agency_is_theirs Server.assert_outbound_state
  Server.assert_inbound_state Server.send_message Server.recv_message Server.recv_keepalive_request
  Server.send_keepalive_response : agents.

Section sides.
Context `{Minicbor}.

Inductive client_call := SendKeepaliveRequest (cookie : Z) | RecvKeepaliveResponse.

#[refine] Definition client_side : Side next (client_may next) (server_may next) ClientError.t := {|
  call := client_call;
  run c :=
    match c with
    | SendKeepaliveRequest cookie => Client.send_keepalive_request cookie
    | RecvKeepaliveResponse => Client.recv_keepalive_response
    end;
  action_of s c :=
    match c, s with
    | SendKeepaliveRequest cookie, State.Client => Sends (Message.KeepAlive cookie)
    | SendKeepaliveRequest _, _ => Refuses
    | RecvKeepaliveResponse, State.Client => Refuses
    | RecvKeepaliveResponse, State.Server _ => Receives
    | RecvKeepaliveResponse, State.Done => Unsuited
    end
|}.
Proof. abstract solve_side. Defined.

Inductive server_call := RecvKeepaliveRequest | SendKeepaliveResponse.

#[refine] Definition server_side : Side next (server_may next) (client_may next) ServerError.t := {|
  call := server_call;
  run c :=
    match c with
    | RecvKeepaliveRequest => Server.recv_keepalive_request
    | SendKeepaliveResponse => Server.send_keepalive_response
    end;
  action_of s c :=
    match c, s with
    | RecvKeepaliveRequest, State.Client => Receives
    | RecvKeepaliveRequest, State.Server _ => Refuses
    | RecvKeepaliveRequest, State.Done => Unsuited
    | SendKeepaliveResponse, State.Server cookie => Sends (Message.ResponseKeepAlive cookie)
    | SendKeepaliveResponse, _ => Skips
    end
|}.
Proof. abstract solve_side. Defined.
End sides.
