(* ===== verification/MiniPeersharing.v ===== *)
(** * Peer-sharing of the first generation

    [pallas-network/src/miniprotocols/peersharing].  An IP address of the standard
    library is the integer [to_bits] gives; a port has 32 bits here. *)
From S2P Require Import Prelude Cbor Truncation Effects Protocol ProtocolProps.
From S2P Require Import Peersharing Multiplexer Channels Agents.

Module State.
Inductive t := Idle | Busy (amount : Z) | Done.
End State.

#[export] Instance State_eq_dec : EqDecision State.t.
Proof. solve_decision. Defined.

Module PeerAddress.
Inductive t :=
| V4 (address port : Z)
| V6 (address port : Z).
End PeerAddress.

Module Message.
Inductive t :=
| ShareRequest (amount : Z)
| SharePeers (addresses : list PeerAddress.t)
| Done.
End Message.

(** ** Codec *)

(** The four 32-bit words of an IPv6 address, most significant first. *)
Definition word1 (bits : Z) : Z := Z.shiftr bits 96 mod 2 ^ 32.
Definition word2 (bits : Z) : Z := Z.land (Z.shiftr bits 64) 0xFFFFFFFF mod 2 ^ 32.
Definition word3 (bits : Z) : Z := Z.land (Z.shiftr bits 32) 0xFFFFFFFF mod 2 ^ 32.
Definition word4 (bits : Z) : Z := Z.land bits 0xFFFFFFFF mod 2 ^ 32.

Definition from_words (w1 w2 w3 w4 : Z) : Z :=
  Z.lor (Z.lor (Z.lor (Z.shiftl w1 96) (Z.shiftl w2 64)) (Z.shiftl w3 32)) w4.

Section codec.
Context `{Minicbor}.

#[export] Instance PeerAddress_encode : Encode PeerAddress.t := fun a =>
  match a with
  | PeerAddress.V4 address port => w_array 3 ⊕ w_u16 0 ⊕ w_u32 address ⊕ w_u32 port
  | PeerAddress.V6 address port =>
      w_array 8 ⊕ w_u16 1 ⊕
      w_u32 (word1 address) ⊕ w_u32 (word2 address) ⊕ w_u32 (word3 address) ⊕
      w_u32 (word4 address) ⊕ w_u32 port
  end.

#[export] Instance PeerAddress_decode : Decode PeerAddress.t :=
  _ ← d_array;
  label ← d_u16;
  match label with
  | 0 => ip ← d_u32; port ← d_u32; mret (PeerAddress.V4 ip port)
  | 1 =>
      word1 ← d_u32;
      word2 ← d_u32;
      word3 ← d_u32;
      word4 ← d_u32;
      port ← d_u32;
      mret (PeerAddress.V6 (from_words word1 word2 word3 word4) port)
  | _ => dec_fail (DecodeMessage "can't decode PeerAddress")
  end.

#[export] Instance PeerAddress_valid : Valid PeerAddress.t := fun a =>
  match a with
  | PeerAddress.V4 address port => in_u 32 address /\ in_u 32 port
  | PeerAddress.V6 address port => in_u 128 address /\ in_u 32 port
  end.

#[export] Instance Message_encode : Encode Message.t := fun m =>
  match m with
  | Message.ShareRequest amount => w_array 2 ⊕ w_u16 0 ⊕ w_u8 amount
  | Message.SharePeers addresses =>
      w_array 2 ⊕ w_u16 1 ⊕ w_begin_array ⊕ enc_all (encode <$> addresses) ⊕ w_end
  | Message.Done => w_array 1 ⊕ w_u16 2
  end.

#[export] Instance Message_decode : Decode Message.t :=
  _ ← d_array;
  label ← d_u16;
  match label with
  | 0 => amount ← d_u8; mret (Message.ShareRequest amount)
  | 1 => addresses ← d_seq decode; mret (Message.SharePeers addresses)
  | 2 => mret Message.Done
  | _ => dec_fail (DecodeMessage "can't decode Message")
  end.

#[export] Instance Message_valid : Valid Message.t := fun m =>
  match m with
  | Message.ShareRequest amount => in_u 8 amount
  | Message.SharePeers addresses => Forall valid addresses
  | Message.Done => True
  end.
End codec.

Section laws.
Context `{ML : MinicborLaws} `{!MinicborErrors M}.

Lemma words_give_address bits :
  in_u 128 bits -> from_words (word1 bits) (word2 bits) (word3 bits) (word4 bits) = bits.
Proof. exact (peersharing.from_words_words bits). Qed.
#[local] Hint Extern 1 (in_u 32 (word1 _)) => (apply peersharing.in_u_word) : codec.
#[local] Hint Extern 1 (in_u 32 (word2 _)) => (apply peersharing.in_u_word) : codec.
#[local] Hint Extern 1 (in_u 32 (word3 _)) => (apply peersharing.in_u_word) : codec.
#[local] Hint Extern 1 (in_u 32 (word4 _)) => (apply peersharing.in_u_word) : codec.

#[export] Instance PeerAddress_codec : Codec PeerAddress.t.
Proof.
  split.
  - intros a Ha. unfold_codec PeerAddress_encode PeerAddress_decode.
    destruct a as [ip port|ip port]; destruct Ha as [Hip Hp]; [solve_parses|].
    rewrite <- (words_give_address ip Hip) at 5. solve_parses.
  - unfold decode; unfold PeerAddress_decode. solve_stable.
Qed.

#[export] Instance PeerAddress_fragment : Fragment PeerAddress.t.
Proof. solve_fragment PeerAddress_decode. Qed.

Lemma address_head (a : PeerAddress.t) b :
  encode a = Some b -> exists n r, in_u 64 n /\ b = e_array n ++ r.
Proof. destruct a; apply enc_array_head; by unfold in_u. Qed.
#[local] Hint Resolve address_head : codec.

#[export] Instance Message_codec : Codec Message.t.
Proof.
  split.
  - intros m Hm. unfold_codec Message_encode Message_decode.
    destruct m; unfold valid in Hm; cbn in Hm; destruct_and?; solve_parses.
  - unfold decode; unfold Message_decode. solve_stable.
Qed.

#[export] Instance Message_fragment : Fragment Message.t.
Proof. solve_fragment Message_decode. Qed.
End laws.

(** ** The abstract protocol *)
Definition next (s : State.t) (m : Message.t) : result Protocol.Error State.t :=
  match s, m with
  | State.Idle, Message.ShareRequest amount => Ok (State.Busy amount)
  | State.Idle, Message.Done => Ok State.Done
  | State.Busy _, Message.SharePeers _ => Ok State.Idle
  | _, _ => Err Protocol.InvalidInbound
  end.

#[export, refine] Instance agency : Agency next := {
  client_may s _ := match s with State.Idle => true | _ => false end;
  server_may s _ := match s with State.Busy _ => true | _ => false end
}.
Proof. by intros []. Defined.

(** ** The client *)
Module ClientError.
Inductive t := AgencyIsOurs | AgencyIsTheirs | InvalidInbound | InvalidOutbound | RequestedAmountMismatch
  | Plexer (e : Error.t).
End ClientError.

#[export] Instance ClientError_agent : AgentError ClientError.t := {|
  agency_is_ours := ClientError.AgencyIsOurs; agency_is_theirs := ClientError.AgencyIsTheirs;
  plexer_error := ClientError.Plexer |}.

Module Client.
Section client.
Context `{Minicbor}.
Abbreviation method := (comp ClientError.t (State.t * ChannelBuffer)).

Definition new (channel : AgentChannel) : State.t * ChannelBuffer := (State.Idle, ChannelBuffer_new channel).
Definition is_done (self : State.t) : bool := bool_decide (self = State.Done).

Definition has_agency (self : State.t) : bool :=
  match self with
  | State.Idle => true
  | State.Busy _ => false
  | State.Done => false
  end.

Definition assert_agency_is_ours : method unit := Agents.assert_agency_is_ours has_agency.
Definition assert_agency_is_theirs : method unit := Agents.assert_agency_is_theirs has_agency.

Definition assert_outbound_state (self : State.t) (msg : Message.t) : result ClientError.t unit :=
  match self, msg with
  | State.Idle, Message.ShareRequest _ => Ok ()
  | State.Idle, Message.Done => Ok ()
  | _, _ => Err ClientError.InvalidOutbound
  end.

Definition assert_inbound_state (self : State.t) (msg : Message.t) : result ClientError.t unit :=
  match self, msg with
  | State.Busy _, Message.SharePeers _ => Ok ()
  | _, _ => Err ClientError.InvalidInbound
  end.

Definition send_message (msg : Message.t) : method unit :=
  Agents.send_message has_agency assert_outbound_state msg.
Definition recv_message : method Message.t := Agents.recv_message has_agency assert_inbound_state.

Definition send_share_request (amount : Z) : method unit :=
  let msg := Message.ShareRequest amount in
  _ ← send_message msg;
  set_state (State.Busy amount).

Definition recv_peer_addresses : method (list PeerAddress.t) :=
  msg ← recv_message;
  match msg with
  | Message.SharePeers addresses => _ ← set_state State.Idle; mret addresses
  | _ => throw ClientError.InvalidInbound
  end.

Definition send_done : method unit :=
  let msg := Message.Done in
  _ ← send_message msg;
  set_state State.Done.
End client.
End Client.

(** ** The server *)
Module ServerError.
Inductive t := AgencyIsOurs | AgencyIsTheirs | InvalidInbound | InvalidOutbound | Plexer (e : Error.t).
End ServerError.

#[export] Instance ServerError_agent : AgentError ServerError.t := {|
  agency_is_ours := ServerError.AgencyIsOurs; agency_is_theirs := ServerError.AgencyIsTheirs;
  plexer_error := ServerError.Plexer |}.

Module Server.
Section server.
Context `{Minicbor}.
Abbreviation method := (comp ServerError.t (State.t * ChannelBuffer)).

Definition new (channel : AgentChannel) : State.t * ChannelBuffer := (State.Idle, ChannelBuffer_new channel).
Definition is_done (self : State.t) : bool := bool_decide (self = State.Done).

Definition has_agency (self : State.t) : bool :=
  match self with
  | State.Idle => false
  | State.Busy _ => true
  | State.Done => false
  end.

Definition assert_agency_is_ours : method unit := Agents.assert_agency_is_ours has_agency.
Definition assert_agency_is_theirs : method unit := Agents.assert_agency_is_theirs has_agency.

Definition assert_outbound_state (self : State.t) (msg : Message.t) : result ServerError.t unit :=
  match self, msg with
  | State.Busy _, Message.SharePeers _ => Ok ()
  | _, _ => Err ServerError.InvalidOutbound
  end.

Definition assert_inbound_state (self : State.t) (msg : Message.t) : result ServerError.t unit :=
  match self, msg with
  | State.Idle, Message.ShareRequest _ => Ok ()
  | State.Idle, Message.Done => Ok ()
  | _, _ => Err ServerError.InvalidInbound
  end.

Definition send_message (msg : Message.t) : method unit :=
  Agents.send_message has_agency assert_outbound_state msg.
Definition recv_message : method Message.t := Agents.recv_message has_agency assert_inbound_state.

Definition recv_share_request : method (option Z) :=
  msg ← recv_message;
  match msg with
  | Message.ShareRequest amount => _ ← set_state (State.Busy amount); mret (Some amount)
  | Message.Done => _ ← set_state State.Done; mret None
  | _ => throw ServerError.InvalidInbound
  end.

Definition send_peer_addresses (response : list PeerAddress.t) : method unit :=
  let msg := Message.SharePeers response in
  _ ← send_message msg;
  set_state State.Idle.
End server.
End Server.

(** ** Both follow the protocol *)
#[export] Hint Unfold Client.assert_agency_is_ours Client.assert_agency_is_theirs Client.assert_outbound_state
  Client.assert_inbound_state Client.send_message Client.recv_message Client.send_share_request
  Client.recv_peer_addresses Client.send_done : agents.
#[export] Hint Unfold Server.assert_agency_is_ours Server.assert_agency_is_theirs Server.assert_outbound_state
  Server.assert_inbound_state Server.send_message Server.recv_message Server.recv_share_request
  Server.send_peer_addresses : agents.

Section sides.
Context `{Minicbor}.

Inductive client_call := SendShareRequest (amount : Z) | RecvPeerAddresses | SendDone.

#[refine] Definition client_side : Side next (client_may next) (server_may next) ClientError.t := {|
  call := client_call;
  run c :=
    match c with
    | SendShareRequest amount => Client.send_share_request amount
    | RecvPeerAddresses => discard Client.recv_peer_addresses
    | SendDone => Client.send_done
    end;
  action_of s c :=
    match s, c with
    | State.Idle, SendShareRequest amount => Sends (Message.ShareRequest amount)
    | State.Idle, SendDone => Sends Message.Done
    | State.Busy _, RecvPeerAddresses => Receives
    | State.Done, RecvPeerAddresses => Unsuited
    | _, _ => Refuses
    end
|}.
Proof. abstract solve_side. Defined.

Inductive server_call := RecvShareRequest | SendPeerAddresses (response : list PeerAddress.t).

#[refine] Definition server_side : Side next (server_may next) (client_may next) ServerError.t := {|
  call := server_call;
  run c :=
    match c with
    | RecvShareRequest => discard Server.recv_share_request
    | SendPeerAddresses response => Server.send_peer_addresses response
    end;
  action_of s c :=
    match s, c with
    | State.Idle, RecvShareRequest => Receives
    | State.Busy _, SendPeerAddresses response => Sends (Message.SharePeers response)
    | State.Done, RecvShareRequest => Unsuited
    | _, _ => Refuses
    end
|}.
Proof. abstract solve_side. Defined.
End sides.
