(* ===== verification/MiniTxsubmission.v ===== *)
(** * Tx-submission of the first generation

    [pallas-network/src/miniprotocols/txsubmission]: the server asks here.  The agents
    are generic in the types of ids and bodies, with the instance for Cardano. *)
From S2P Require Import Prelude Cbor Truncation Effects Protocol ProtocolProps.
From S2P Require Import Multiplexer Channels Agents.

Module State.
Inductive t := Init | Idle | TxIdsNonBlocking | TxIdsBlocking | Txs | Done.
End State.

#[export] Instance State_eq_dec : EqDecision State.t.
Proof. solve_decision. Defined.

Record EraTxId := { txid_era : Z; txid_bytes : bytes }.
Record EraTxBody := { txbody_era : Z; txbody_bytes : bytes }.
Record TxIdAndSize (TxID : Type) := { tx_id : TxID; tx_size : Z }.
Arguments tx_id {TxID} _.
Arguments tx_size {TxID} _.
Arguments Build_TxIdAndSize {TxID} _ _.

Module TxError.
Inductive t := AgencyIsOurs | AgencyIsTheirs | InvalidInbound | InvalidOutbound | AlreadyInitialized
  | Plexer (e : Error.t).
End TxError.

#[export] Instance TxError_agent : AgentError TxError.t := {|
  agency_is_ours := TxError.AgencyIsOurs; agency_is_theirs := TxError.AgencyIsTheirs;
  plexer_error := TxError.Plexer |}.

Module Message.
Inductive t (TxId TxBody : Type) :=
| Init
| RequestTxIds (blocking : bool) (ack req : Z)
| ReplyTxIds (ids : list (TxIdAndSize TxId))
| RequestTxs (ids : list TxId)
| ReplyTxs (txs : list TxBody)
| Done.
#[global] Arguments Init {TxId TxBody}.
#[global] Arguments RequestTxIds {TxId TxBody} _ _ _.
#[global] Arguments ReplyTxIds {TxId TxBody} _.
#[global] Arguments RequestTxs {TxId TxBody} _.
#[global] Arguments ReplyTxs {TxId TxBody} _.
#[global] Arguments Done {TxId TxBody}.
End Message.

(** ** Codec *)
Section codec.
Context `{Minicbor}.

#[export] Instance TxIdAndSize_encode {T} `{Encode T} : Encode (TxIdAndSize T) := fun x =>
  w_array 2 ⊕ encode (tx_id x) ⊕ w_u32 (tx_size x).
#[export] Instance TxIdAndSize_decode {T} `{Decode T} : Decode (TxIdAndSize T) :=
  _ ← d_array;
  tx_id ← decode;
  size ← d_u32;
  mret {| tx_id := tx_id; tx_size := size |}.
#[export] Instance TxIdAndSize_valid {T} `{Valid T} : Valid (TxIdAndSize T) := fun x =>
  valid (tx_id x) /\ in_u 32 (tx_size x).

#[export] Instance EraTxBody_encode : Encode EraTxBody := fun x =>
  w_array 2 ⊕ w_u16 (txbody_era x) ⊕ w_tag CBOR_TAG ⊕ w_bytes (txbody_bytes x).
#[export] Instance EraTxBody_decode : Decode EraTxBody :=
  _ ← d_array;
  era ← d_u16;
  tag ← d_tag;
  if negb (tag =? CBOR_TAG) then dec_fail (DecodeMessage "Expected encoded CBOR data item")
  else body ← d_bytes; mret {| txbody_era := era; txbody_bytes := body |}.
#[export] Instance EraTxBody_valid : Valid EraTxBody := fun x =>
  in_u 16 (txbody_era x) /\ fits_len (txbody_bytes x).

#[export] Instance EraTxId_encode : Encode EraTxId := fun x =>
  w_array 2 ⊕ w_u16 (txid_era x) ⊕ w_bytes (txid_bytes x).
#[export] Instance EraTxId_decode : Decode EraTxId :=
  _ ← d_array;
  era ← d_u16;
  tx_id ← d_bytes;
  mret {| txid_era := era; txid_bytes := tx_id |}.
#[export] Instance EraTxId_valid : Valid EraTxId := fun x => in_u 16 (txid_era x) /\ fits_len (txid_bytes x).

#[export] Instance Message_encode {TxId TxBody} `{Encode TxId, Encode TxBody} : Encode (Message.t TxId TxBody) := fun m =>
  match m with
  | Message.Init => w_array 1 ⊕ w_u16 6
  | Message.RequestTxIds blocking ack req =>
      w_array 4 ⊕ w_u16 0 ⊕ w_bool blocking ⊕ w_u16 ack ⊕ w_u16 req
  | Message.ReplyTxIds ids =>
      w_array 2 ⊕ w_u16 1 ⊕ w_begin_array ⊕ enc_all (encode <$> ids) ⊕ w_end
  | Message.RequestTxs ids =>
      w_array 2 ⊕ w_u16 2 ⊕ w_begin_array ⊕ enc_all (encode <$> ids) ⊕ w_end
  | Message.ReplyTxs txs =>
      w_array 2 ⊕ w_u16 3 ⊕ w_begin_array ⊕ enc_all (encode <$> txs) ⊕ w_end
  | Message.Done => w_array 1 ⊕ w_u16 4
  end.

#[export] Instance Message_decode {TxId TxBody} `{Decode TxId, Decode TxBody} : Decode (Message.t TxId TxBody) :=
  _ ← d_array;
  label ← d_u16;
  match label with
  | 0 =>
      blocking ← d_bool;
      ack ← d_u16;
      req ← d_u16;
      mret (Message.RequestTxIds blocking ack req)
  | 1 => items ← d_seq decode; mret (Message.ReplyTxIds items)
  | 2 => ids ← d_seq decode; mret (Message.RequestTxs ids)
  | 3 => txs ← d_seq decode; mret (Message.ReplyTxs txs)
  | 4 => mret Message.Done
  | 6 => mret Message.Init
  | _ => dec_fail (DecodeMessage "unknown variant for txsubmission message")
  end.

#[export] Instance Message_valid {TxId TxBody} `{Valid TxId, Valid TxBody} : Valid (Message.t TxId TxBody) := fun m =>
  match m with
  | Message.RequestTxIds _ ack req => in_u 16 ack /\ in_u 16 req
  | Message.ReplyTxIds ids => Forall valid ids
  | Message.RequestTxs ids => Forall valid ids
  | Message.ReplyTxs txs => Forall valid txs
  | _ => True
  end.
End codec.

Section laws.
Context `{ML : MinicborLaws} `{!MinicborErrors M}.

#[export] Instance TxIdAndSize_codec {T} `{Codec T} : Codec (TxIdAndSize T).
Proof.
  split.
  - intros [x n] [Hx Hn]. unfold_codec TxIdAndSize_encode TxIdAndSize_decode. solve_parses.
  - unfold decode; unfold TxIdAndSize_decode. solve_stable.
Qed.

#[export] Instance TxIdAndSize_fragment {T} `{Codec T} `{!ErrorStable T} : Fragment (TxIdAndSize T).
Proof. solve_fragment TxIdAndSize_decode. Qed.

#[export] Instance EraTxBody_codec : Codec EraTxBody.
Proof.
  split.
  - intros [x n] [Hx Hn]. unfold_codec EraTxBody_encode EraTxBody_decode. solve_parses.
  - unfold decode; unfold EraTxBody_decode. solve_stable.
Qed.

#[export] Instance EraTxBody_fragment : Fragment EraTxBody.
Proof. solve_fragment EraTxBody_decode. Qed.

#[export] Instance EraTxId_codec : Codec EraTxId.
Proof.
  split.
  - intros [x n] [Hx Hn]. unfold_codec EraTxId_encode EraTxId_decode. solve_parses.
  - unfold decode; unfold EraTxId_decode. solve_stable.
Qed.

#[export] Instance EraTxId_fragment : Fragment EraTxId.
Proof. solve_fragment EraTxId_decode. Qed.

#[export] Instance Message_codec : Codec (Message.t EraTxId EraTxBody).
Proof.
  split.
  - intros m Hm. unfold_codec Message_encode Message_decode.
    destruct m; unfold valid in Hm; cbn in Hm; destruct_and?; solve_parses.
  - unfold decode; unfold Message_decode. solve_stable.
Qed.

#[export] Instance Message_fragment : Fragment (Message.t EraTxId EraTxBody).
Proof. solve_fragment Message_decode. Qed.
End laws.

(** ** The abstract protocol *)
Section machine.
Context {TxId TxBody : Type}.

Definition next (s : State.t) (m : Message.t TxId TxBody) : result Protocol.Error State.t :=
  match s, m with
  | State.Init, Message.Init => Ok State.Idle
  | State.Idle, Message.RequestTxIds blocking _ _ =>
      Ok (if blocking then State.TxIdsBlocking else State.TxIdsNonBlocking)
  | State.Idle, Message.RequestTxs _ => Ok State.Txs
  | (State.TxIdsBlocking | State.TxIdsNonBlocking), Message.ReplyTxIds _ => Ok State.Idle
  | State.TxIdsBlocking, Message.Done => Ok State.Done
  | State.Txs, Message.ReplyTxs _ => Ok State.Idle
  | _, _ => Err Protocol.InvalidInbound
  end.

#[export, refine] Instance agency : Agency next := {
  client_may s _ := match s with State.Idle | State.Done => false | _ => true end;
  server_may s _ := match s with State.Idle => true | _ => false end
}.
Proof. by intros []. Defined.
End machine.

(** ** The client *)
Module Request.
Inductive t (TxId : Type) := TxIds (ack req : Z) | TxIdsNonBlocking (ack req : Z) | Txs (ids : list TxId).
#[global] Arguments TxIds {TxId} _ _.
#[global] Arguments TxIdsNonBlocking {TxId} _ _.
#[global] Arguments Txs {TxId} _.
End Request.

Module Client.
Section client.
Context {TxId TxBody : Type} `{Encode (Message.t TxId TxBody), Decode (Message.t TxId TxBody)}.
Abbreviation method := (comp TxError.t (State.t * ChannelBuffer)).

Definition new (channel : AgentChannel) : State.t * ChannelBuffer := (State.Init, ChannelBuffer_new channel).
Definition is_done (self : State.t) : bool := bool_decide (self = State.Done).

Definition has_agency (self : State.t) : bool :=
  negb (match self with State.Idle => true | _ => false end).

Definition assert_agency_is_ours : method unit := Agents.assert_agency_is_ours has_agency.
Definition assert_agency_is_theirs : method unit := Agents.assert_agency_is_theirs has_agency.

Definition assert_outbound_state (self : State.t) (msg : Message.t TxId TxBody) : result TxError.t unit :=
  match self, msg with
  | State.Init, Message.Init => Ok ()
  | State.TxIdsBlocking, Message.ReplyTxIds _ => Ok ()
  | State.TxIdsBlocking, Message.Done => Ok ()
  | State.TxIdsNonBlocking, Message.ReplyTxIds _ => Ok ()
  | State.Txs, Message.ReplyTxs _ => Ok ()
  | _, _ => Err TxError.InvalidOutbound
  end.

Definition assert_inbound_state (self : State.t) (msg : Message.t TxId TxBody) : result TxError.t unit :=
  match self, msg with
  | State.Idle, Message.RequestTxIds _ _ _ => Ok ()
  | State.Idle, Message.RequestTxs _ => Ok ()
  | _, _ => Err TxError.InvalidInbound
  end.

Definition send_message (msg : Message.t TxId TxBody) : method unit :=
  Agents.send_message has_agency assert_outbound_state msg.
Definition recv_message : method (Message.t TxId TxBody) := Agents.recv_message has_agency assert_inbound_state.

Definition send_init : method unit :=
  let msg := Message.Init in
  _ ← send_message msg;
  set_state State.Idle.

Definition reply_tx_ids (ids : list (TxIdAndSize TxId)) : method unit :=
  let msg := Message.ReplyTxIds ids in
  _ ← send_message msg;
  set_state State.Idle.

Definition reply_txs (txs : list TxBody) : method unit :=
  let msg := Message.ReplyTxs txs in
  _ ← send_message msg;
  set_state State.Idle.

Definition next_request : method (Request.t TxId) :=
  msg ← recv_message;
  match msg with
  | Message.RequestTxIds blocking ack req =>
      match blocking with
      | true => _ ← set_state State.TxIdsBlocking; mret (Request.TxIds ack req)
      | false => _ ← set_state State.TxIdsNonBlocking; mret (Request.TxIdsNonBlocking ack req)
      end
  | Message.RequestTxs x => _ ← set_state State.Txs; mret (Request.Txs x)
  | _ => throw TxError.InvalidInbound
  end.

Definition send_done : method unit :=
  let msg := Message.Done in
  _ ← send_message msg;
  set_state State.Done.
End client.
End Client.

(** ** The server: the errors of its two assertions are exchanged in the code *)
Module Reply.
Inductive t (TxId TxBody : Type) := TxIds (ids : list (TxIdAndSize TxId)) | Txs (bodies : list TxBody) | Done.
#[global] Arguments TxIds {TxId TxBody} _.
#[global] Arguments Txs {TxId TxBody} _.
#[global] Arguments Done {TxId TxBody}.
End Reply.

Module Server.
Section server.
Context {TxId TxBody : Type} `{Encode (Message.t TxId TxBody), Decode (Message.t TxId TxBody)}.
Abbreviation method := (comp TxError.t (State.t * ChannelBuffer)).

Definition new (channel : AgentChannel) : State.t * ChannelBuffer := (State.Init, ChannelBuffer_new channel).
Definition is_done (self : State.t) : bool := bool_decide (self = State.Done).

Definition has_agency (self : State.t) : bool :=
  match self with State.Idle => true | _ => false end.

Definition assert_agency_is_ours : method unit := Agents.assert_agency_is_ours has_agency.
Definition assert_agency_is_theirs : method unit := Agents.assert_agency_is_theirs has_agency.

Definition assert_outbound_state (self : State.t) (msg : Message.t TxId TxBody) : result TxError.t unit :=
  match self, msg with
  | State.Idle, Message.RequestTxIds _ _ _ => Ok ()
  | State.Idle, Message.RequestTxs _ => Ok ()
  | _, _ => Err TxError.InvalidInbound
  end.

Definition assert_inbound_state (self : State.t) (msg : Message.t TxId TxBody) : result TxError.t unit :=
  match self, msg with
  | State.Init, Message.Init => Ok ()
  | State.TxIdsBlocking, Message.ReplyTxIds _ => Ok ()
  | State.TxIdsBlocking, Message.Done => Ok ()
  | State.TxIdsNonBlocking, Message.ReplyTxIds _ => Ok ()
  | State.Txs, Message.ReplyTxs _ => Ok ()
  | _, _ => Err TxError.InvalidOutbound
  end.

Definition send_message (msg : Message.t TxId TxBody) : method unit :=
  Agents.send_message has_agency assert_outbound_state msg.
Definition recv_message : method (Message.t TxId TxBody) := Agents.recv_message has_agency assert_inbound_state.

Definition wait_for_init : method unit :=
  self ← get;
  if negb (bool_decide (self.1 = State.Init)) then throw TxError.AlreadyInitialized
  else
    _ ← recv_message;
    set_state State.Idle.

Definition acknowledge_and_request_tx_ids (blocking : bool) (acknowledge count : Z) : method unit :=
  let msg := Message.RequestTxIds blocking acknowledge count in
  _ ← send_message msg;
  match blocking with
  | true => set_state State.TxIdsBlocking
  | false => set_state State.TxIdsNonBlocking
  end.

Definition request_txs (ids : list TxId) : method unit :=
  let msg := Message.RequestTxs ids in
  _ ← send_message msg;
  set_state State.Txs.

Definition receive_next_reply : method (Reply.t TxId TxBody) :=
  msg ← recv_message;
  match msg with
  | Message.ReplyTxIds ids_and_sizes => _ ← set_state State.Idle; mret (Reply.TxIds ids_and_sizes)
  | Message.ReplyTxs bodies => _ ← set_state State.Idle; mret (Reply.Txs bodies)
  | Message.Done => _ ← set_state State.Done; mret Reply.Done
  | _ => throw TxError.InvalidInbound
  end.
End server.
End Server.

(** ** Both follow the protocol *)
#[export] Hint Unfold Client.assert_agency_is_ours Client.assert_agency_is_theirs Client.assert_outbound_state
  Client.assert_inbound_state Client.send_message Client.recv_message Client.send_init Client.reply_tx_ids
  Client.reply_txs Client.next_request Client.send_done Client.has_agency : agents.
#[export] Hint Unfold Server.assert_agency_is_ours Server.assert_agency_is_theirs Server.assert_outbound_state
  Server.assert_inbound_state Server.send_message Server.recv_message Server.wait_for_init
  Server.acknowledge_and_request_tx_ids Server.request_txs Server.receive_next_reply : agents.

Section sides.
Context {TxId TxBody : Type}.
Abbreviation M := (Message.t TxId TxBody).
Context `{Encode M, Decode M, Valid M}.

Inductive client_call :=
| SendInit
| ReplyTxIds (ids : list (TxIdAndSize TxId))
| ReplyTxs (txs : list TxBody)
| NextRequest
| SendDone.

#[refine] Definition client_side : Side (M := M) next (client_may next) (server_may next) TxError.t := {|
  call := client_call;
  run c :=
    match c with
    | SendInit => Client.send_init (TxId := TxId) (TxBody := TxBody)
    | ReplyTxIds ids => Client.reply_tx_ids (TxBody := TxBody) ids
    | ReplyTxs txs => Client.reply_txs (TxId := TxId) txs
    | NextRequest => discard (Client.next_request (TxId := TxId) (TxBody := TxBody))
    | SendDone => Client.send_done (TxId := TxId) (TxBody := TxBody)
    end;
  action_of s c :=
    match s, c with
    | State.Init, SendInit => Sends Message.Init
    | (State.TxIdsBlocking | State.TxIdsNonBlocking), ReplyTxIds ids => Sends (Message.ReplyTxIds ids)
    | State.TxIdsBlocking, SendDone => Sends Message.Done
    | State.Txs, ReplyTxs txs => Sends (Message.ReplyTxs txs)
    | State.Idle, NextRequest => Receives
    | _, _ => Refuses
    end
|}.
Proof. abstract solve_side. Defined.

Inductive server_call :=
| WaitForInit
| AcknowledgeAndRequestTxIds (blocking : bool) (acknowledge count : Z)
| RequestTxs (ids : list TxId)
| ReceiveNextReply.

#[refine] Definition server_side : Side (M := M) next (server_may next) (client_may next) TxError.t := {|
  call := server_call;
  run c :=
    match c with
    | WaitForInit => Server.wait_for_init (TxId := TxId) (TxBody := TxBody)
    | AcknowledgeAndRequestTxIds blocking acknowledge count =>
        Server.acknowledge_and_request_tx_ids (TxId := TxId) (TxBody := TxBody) blocking acknowledge count
    | RequestTxs ids => Server.request_txs (TxBody := TxBody) ids
    | ReceiveNextReply => discard (Server.receive_next_reply (TxId := TxId) (TxBody := TxBody))
    end;
  action_of s c :=
    match c, s with
    | WaitForInit, State.Init => Receives
    | WaitForInit, _ => Refuses
    | AcknowledgeAndRequestTxIds blocking acknowledge count, State.Idle =>
        Sends (Message.RequestTxIds blocking acknowledge count)
    | RequestTxs ids, State.Idle => Sends (Message.RequestTxs ids)
    | ReceiveNextReply, (State.TxIdsBlocking | State.TxIdsNonBlocking | State.Txs) => Receives
    | ReceiveNextReply, (State.Init | State.Done) => Unsuited
    | _, _ => Refuses
    end
|}.
Proof. abstract solve_side. Defined.
End sides.
