(* ===== verification/MiniHandshake.v ===== *)
(** * Handshake of the first generation

    [pallas-network/src/miniprotocols/handshake]: protocol.rs, client.rs and
    server.rs, which also chooses the version; n2n.rs and n2c.rs, the version numbers,
    the version data with their codecs and the tables a client proposes.  The order in
    which a hash map is visited is a parameter. *)
From S2P Require Import Prelude Cbor Truncation Effects Protocol ProtocolProps.
From S2P Require Import Handshake Multiplexer Channels Agents.

Module HsError.
Inductive t := AgencyIsOurs | AgencyIsTheirs | InvalidInbound | InvalidOutbound | Plexer (e : Error.t).
End HsError.

#[export] Instance HsError_agent : AgentError HsError.t := {|
  agency_is_ours := HsError.AgencyIsOurs; agency_is_theirs := HsError.AgencyIsTheirs;
  plexer_error := HsError.Plexer |}.

Record VersionTable (T : Type) := { values : gmap Z T }.
Arguments values {T} _.
Arguments Build_VersionTable {T} _.

Module RefuseReason.
Inductive t :=
| VersionMismatch (versions : list Z)
| HandshakeDecodeError (version : Z) (msg : bytes)
| Refused (version : Z) (msg : bytes).
End RefuseReason.

Module Message.
Inductive t (D : Type) :=
| Propose (version_table : VersionTable D)
| Accept (version_number : Z) (version_data : D)
| Refuse (reason : RefuseReason.t)
| QueryReply (version_table : VersionTable D).
#[global] Arguments Propose {D} _.
#[global] Arguments Accept {D} _ _.
#[global] Arguments Refuse {D} _.
#[global] Arguments QueryReply {D} _.
End Message.

Module State.
Inductive t := Propose | Confirm | Done.
End State.

#[export] Instance State_eq_dec : EqDecision State.t.
Proof. solve_decision. Defined.

(** ** Codec *)
Section codec.
Context `{Minicbor}.

Definition encode_entry {T} `{Encode T} (m : gmap Z T) (key : Z) : enc :=
  w_u64 key ⊕ match m !! key with Some v => encode v | None => None end.

#[export] Instance VersionTable_encode {T} `{Encode T} : Encode (VersionTable T) := fun t =>
  w_map (Z.of_nat (size (values t))) ⊕
  enc_all (encode_entry (values t) <$> sorted_keys (values t)).

Fixpoint decode_entries {T} `{Decode T} (len : nat) (values : gmap Z T) : dec (gmap Z T) :=
  match len with
  | O => mret values
  | S len =>
      key ← d_u64;
      value ← decode;
      decode_entries len (<[key := value]> values)
  end.

#[export] Instance VersionTable_decode {T} `{Decode T} : Decode (VersionTable T) :=
  len ← d_map;
  match len with
  | None => dec_fail (DecodeMessage "expected def-length map for versiontable")
  | Some len => values ← decode_entries (Z.to_nat len) ∅; mret {| values := values |}
  end.

#[export] Instance VersionTable_valid {T} `{Valid T} : Valid (VersionTable T) := fun t =>
  in_u 64 (Z.of_nat (size (values t))) /\
  forall k v, values t !! k = Some v -> in_u 64 k /\ valid v.

#[export] Instance RefuseReason_encode : Encode RefuseReason.t := fun r =>
  match r with
  | RefuseReason.VersionMismatch versions =>
      w_array 2 ⊕ w_u16 0 ⊕ w_array (Z.of_nat (length versions)) ⊕
      enc_all ((fun v => w_u64 v) <$> versions)
  | RefuseReason.HandshakeDecodeError version msg =>
      w_array 3 ⊕ w_u16 1 ⊕ w_u64 version ⊕ w_str msg
  | RefuseReason.Refused version msg => w_array 3 ⊕ w_u16 2 ⊕ w_u64 version ⊕ w_str msg
  end.

#[export] Instance RefuseReason_decode : Decode RefuseReason.t :=
  _ ← d_array;
  label ← d_u16;
  match label with
  | 0 => versions ← d_seq d_u64; mret (RefuseReason.VersionMismatch versions)
  | 1 => version ← d_u64; msg ← d_str; mret (RefuseReason.HandshakeDecodeError version msg)
  | 2 => version ← d_u64; msg ← d_str; mret (RefuseReason.Refused version msg)
  | _ => dec_fail (DecodeMessage "unknown variant for refusereason")
  end.

#[export] Instance RefuseReason_valid : Valid RefuseReason.t := fun r =>
  match r with
  | RefuseReason.VersionMismatch versions => fits_len versions /\ Forall (in_u 64) versions
  | RefuseReason.HandshakeDecodeError version msg | RefuseReason.Refused version msg =>
      in_u 64 version /\ fits_len msg
  end.

#[export] Instance Message_encode {D} `{Encode D} : Encode (Message.t D) := fun m =>
  match m with
  | Message.Propose version_table => w_array 2 ⊕ w_u16 0 ⊕ encode version_table
  | Message.Accept version_number version_data =>
      w_array 3 ⊕ w_u16 1 ⊕ w_u64 version_number ⊕ encode version_data
  | Message.Refuse reason => w_array 2 ⊕ w_u16 2 ⊕ encode reason
  | Message.QueryReply version_table => w_array 2 ⊕ w_u16 3 ⊕ encode version_table
  end.

#[export] Instance Message_decode {D} `{Decode D} : Decode (Message.t D) :=
  _ ← d_array;
  label ← d_u16;
  match label with
  | 0 => version_table ← decode; mret (Message.Propose version_table)
  | 1 =>
      version_number ← d_u64;
      version_data ← decode;
      mret (Message.Accept version_number version_data)
  | 2 => reason ← decode; mret (Message.Refuse reason)
  | 3 => version_table ← decode; mret (Message.QueryReply version_table)
  | _ => dec_fail (DecodeMessage "unknown variant for handshake message")
  end.

#[export] Instance Message_valid {D} `{Valid D} : Valid (Message.t D) := fun m =>
  match m with
  | Message.Propose version_table | Message.QueryReply version_table => valid version_table
  | Message.Accept version_number version_data => in_u 64 version_number /\ valid version_data
  | Message.Refuse reason => valid reason
  end.
End codec.

Section laws.
Context `{ML : MinicborLaws} `{!MinicborErrors M}.

(** The entries are written and read as in the second generation. *)
Lemma entries_parse {T} `{Codec T} (m acc : gmap Z T) ks :
  (forall k v, m !! k = Some v -> in_u 64 k /\ valid v) ->
  Parses (decode_entries (length ks) acc) (enc_all (encode_entry m <$> ks)) (entries_of m acc ks).
Proof. exact (handshake.decode_entries_parses m acc ks). Qed.

Lemma entries_stable {T} `{Codec T} n (acc : gmap Z T) : Stable (decode_entries n acc).
Proof. exact (handshake.decode_entries_stable n acc). Qed.
#[local] Hint Resolve entries_stable : codec.

Lemma entries_robust {T} `{Codec T} `{!ErrorStable T} n (acc : gmap Z T) : Robust (decode_entries n acc).
Proof. revert acc; induction n as [|n IH]; intros acc; cbn; solve_robust. Qed.
#[local] Hint Resolve entries_robust : codec.

#[export] Instance VersionTable_codec {T} `{Codec T} : Codec (VersionTable T).
Proof.
  split.
  - intros [m] [Hsz Hm]. unfold_codec VersionTable_encode VersionTable_decode.
    eapply Parses_bind; [solve [eauto with codec]|]. cbn.
    eapply Parses_bind_last.
    + rewrite Nat2Z.id, <- length_sorted_keys. by apply entries_parse.
    + rewrite entries_of_sorted. apply Parses_ret.
  - unfold decode; unfold VersionTable_decode. solve_stable.
Qed.

#[export] Instance VersionTable_error_stable {T} `{Codec T} `{!ErrorStable T} : ErrorStable (VersionTable T).
Proof. unfold ErrorStable, decode; unfold VersionTable_decode. solve_robust. Qed.
#[local] Hint Resolve handshake.u64s_parses : codec.

#[export] Instance RefuseReason_codec : Codec RefuseReason.t.
Proof.
  split.
  - intros r Hr. unfold_codec RefuseReason_encode RefuseReason_decode.
    destruct r; destruct Hr; solve_parses.
  - unfold decode; unfold RefuseReason_decode. solve_stable.
Qed.

#[export] Instance RefuseReason_fragment : Fragment RefuseReason.t.
Proof. solve_fragment RefuseReason_decode. Qed.

#[export] Instance Message_codec {D} `{Codec D} : Codec (Message.t D).
Proof.
  split.
  - intros m Hm. unfold_codec Message_encode Message_decode.
    destruct m; unfold valid in Hm; cbn in Hm; destruct_and?; solve_parses.
  - unfold decode; unfold Message_decode. solve_stable.
Qed.

#[export] Instance Message_fragment {D} `{Codec D} `{!ErrorStable D} : Fragment (Message.t D).
Proof. solve_fragment Message_decode. Qed.
End laws.

(** ** The abstract protocol *)
Section machine.
Context {D : Type}.

Definition next (s : State.t) (m : Message.t D) : result Protocol.Error State.t :=
  match s, m with
  | State.Propose, Message.Propose _ => Ok State.Confirm
  | State.Confirm, (Message.Accept _ _ | Message.Refuse _) => Ok State.Done
  | _, _ => Err Protocol.InvalidInbound
  end.

#[export, refine] Instance agency : Agency next := {
  client_may s _ := match s with State.Propose => true | _ => false end;
  server_may s _ := match s with State.Confirm => true | _ => false end
}.
Proof. by intros []. Defined.
End machine.

(** ** The client *)
Module Confirmation.
Inductive t (D : Type) :=
| Accepted (version_number : Z) (version_data : D)
| Rejected (reason : RefuseReason.t)
| QueryReply (version_table : VersionTable D).
#[global] Arguments Accepted {D} _ _.
#[global] Arguments Rejected {D} _.
#[global] Arguments QueryReply {D} _.
End Confirmation.

Module Client.
Section client.
Context {D : Type} `{Encode (Message.t D), Decode (Message.t D)}.
Abbreviation method := (comp HsError.t (State.t * ChannelBuffer)).

Definition new (channel : AgentChannel) : State.t * ChannelBuffer := (State.Propose, ChannelBuffer_new channel).
Definition is_done (self : State.t) : bool := bool_decide (self = State.Done).

Definition has_agency (self : State.t) : bool :=
  match self with
  | State.Propose => true
  | State.Confirm => false
  | State.Done => false
  end.

Definition assert_agency_is_ours : method unit := Agents.assert_agency_is_ours has_agency.
Definition assert_agency_is_theirs : method unit := Agents.assert_agency_is_theirs has_agency.

Definition assert_outbound_state (self : State.t) (msg : Message.t D) : result HsError.t unit :=
  match self, msg with
  | State.Propose, Message.Propose _ => Ok ()
  | _, _ => Err HsError.InvalidOutbound
  end.

Definition assert_inbound_state (self : State.t) (msg : Message.t D) : result HsError.t unit :=
  match self, msg with
  | State.Confirm, Message.Accept _ _ => Ok ()
  | State.Confirm, Message.Refuse _ => Ok ()
  | State.Confirm, Message.QueryReply _ => Ok ()
  | _, _ => Err HsError.InvalidInbound
  end.

Definition send_message (msg : Message.t D) : method unit :=
  Agents.send_message has_agency assert_outbound_state msg.
Definition recv_message : method (Message.t D) := Agents.recv_message has_agency assert_inbound_state.

Definition send_propose (versions : VersionTable D) : method unit :=
  let msg := Message.Propose versions in
  _ ← send_message msg;
  set_state State.Confirm.

(** A query reply leaves the state as it is. *)
Definition recv_while_confirm : method (Confirmation.t D) :=
  msg ← recv_message;
  match msg with
  | Message.Accept v m => _ ← set_state State.Done; mret (Confirmation.Accepted v m)
  | Message.Refuse r => _ ← set_state State.Done; mret (Confirmation.Rejected r)
  | Message.QueryReply version_table => mret (Confirmation.QueryReply version_table)
  | _ => throw HsError.InvalidInbound
  end.

Definition handshake (versions : VersionTable D) : method (Confirmation.t D) :=
  _ ← send_propose versions;
  recv_while_confirm.

Definition unwrap (self : State.t * ChannelBuffer) : AgentChannel := ChannelBuffer_unwrap self.2.
End client.
End Client.

(** ** The server *)

(** [HashMap::into_iter] visits every entry once. *)
Class TableOrder := {
  into_iter : forall {D}, gmap Z D -> list (Z * D);
  into_iter_entries D (m : gmap Z D) : into_iter m ≡ₚ map_to_list m
}.

Module Server.
Section server.
Context {D : Type} `{Encode (Message.t D), Decode (Message.t D)} `{EqDecision D} `{TableOrder}.
Abbreviation method := (comp HsError.t (State.t * ChannelBuffer)).

Definition new (channel : AgentChannel) : State.t * ChannelBuffer := (State.Propose, ChannelBuffer_new channel).
Definition is_done (self : State.t) : bool := bool_decide (self = State.Done).

Definition has_agency (self : State.t) : bool :=
  match self with State.Confirm => true | _ => false end.

Definition assert_agency_is_ours : method unit := Agents.assert_agency_is_ours has_agency.
Definition assert_agency_is_theirs : method unit := Agents.assert_agency_is_theirs has_agency.

Definition assert_outbound_state (self : State.t) (msg : Message.t D) : result HsError.t unit :=
  match self, msg with
  | State.Confirm, Message.Accept _ _ => Ok ()
  | State.Confirm, Message.Refuse _ => Ok ()
  | _, _ => Err HsError.InvalidOutbound
  end.

Definition assert_inbound_state (self : State.t) (msg : Message.t D) : result HsError.t unit :=
  match self, msg with
  | State.Propose, Message.Propose _ => Ok ()
  | _, _ => Err HsError.InvalidInbound
  end.

Definition send_message (msg : Message.t D) : method unit :=
  Agents.send_message has_agency assert_outbound_state msg.
Definition recv_message : method (Message.t D) := Agents.recv_message has_agency assert_inbound_state.

Definition receive_proposed_versions : method (VersionTable D) :=
  msg ← recv_message;
  match msg with
  | Message.Propose v => _ ← set_state State.Confirm; mret v
  | _ => throw HsError.InvalidOutbound
  end.

Definition accept_version (version : Z) (extra_params : D) : method unit :=
  let message := Message.Accept version extra_params in
  _ ← send_message message;
  set_state State.Done.

Definition refuse (reason : RefuseReason.t) : method unit :=
  let message := Message.Refuse reason in
  _ ← send_message message;
  set_state State.Done.

(** [sort_by_key(|v| Reverse(v.0))] *)
Definition newer (a b : Z * D) : Prop := b.1 <= a.1.
#[global] Instance newer_dec : RelDecision newer.
Proof. intros a b. unfold newer. apply _. Defined.

(** The inner loop returns from the whole method at the first entry of the client
    with the number; [None]: the loop ends. *)
Fixpoint match_version (ver_num : Z) (ver_data : D) (client_versions : list (Z * D)) :
    option (method (option (Z * D))) :=
  match client_versions with
  | [] => None
  | (client_ver_num, client_ver_data) :: client_versions =>
      if ver_num =? client_ver_num then
        Some (if decide (ver_data = client_ver_data) then
                _ ← accept_version ver_num ver_data;
                mret (Some (ver_num, ver_data))
              else
                _ ← refuse (RefuseReason.Refused ver_num (text_bytes "Proposed extra params don't match"));
                mret None)
      else match_version ver_num ver_data client_versions
  end.

Fixpoint match_versions (versions client_versions : list (Z * D)) : option (method (option (Z * D))) :=
  match versions with
  | [] => None
  | (ver_num, ver_data) :: versions =>
      match match_version ver_num ver_data client_versions with
      | Some answer => Some answer
      | None => match_versions versions client_versions
      end
  end.

Definition handshake (versions : VersionTable D) : method (option (Z * D)) :=
  proposed ← receive_proposed_versions;
  let client_versions := into_iter (values proposed) in
  let versions := merge_sort newer (into_iter (values versions)) in
  match match_versions versions client_versions with
  | Some answer => answer
  | None =>
      _ ← refuse (RefuseReason.VersionMismatch (fst <$> versions));
      mret None
  end.

Definition unwrap (self : State.t * ChannelBuffer) : AgentChannel := ChannelBuffer_unwrap self.2.
End server.
End Server.

(** ** Both follow the protocol *)
#[export] Hint Unfold Client.assert_agency_is_ours Client.assert_agency_is_theirs Client.assert_outbound_state
  Client.assert_inbound_state Client.send_message Client.recv_message Client.send_propose
  Client.recv_while_confirm : agents.
#[export] Hint Unfold Server.assert_agency_is_ours Server.assert_agency_is_theirs Server.assert_outbound_state
  Server.assert_inbound_state Server.send_message Server.recv_message Server.receive_proposed_versions
  Server.accept_version Server.refuse : agents.

Section sides.
Context {D : Type}.
Abbreviation M := (Message.t D).
Context `{Encode M, Decode M, Valid M}.

Inductive client_call := SendPropose (versions : VersionTable D) | RecvWhileConfirm.

#[refine] Definition client_side : Side (M := M) next (client_may next) (server_may next) HsError.t := {|
  call := client_call;
  run c :=
    match c with
    | SendPropose versions => Client.send_propose versions
    | RecvWhileConfirm => discard (Client.recv_while_confirm (D := D))
    end;
  action_of s c :=
    match c, s with
    | SendPropose versions, State.Propose => Sends (Message.Propose versions)
    | SendPropose _, _ => Refuses
    | RecvWhileConfirm, State.Propose => Refuses
    | RecvWhileConfirm, State.Confirm => Receives
    | RecvWhileConfirm, State.Done => Unsuited
    end
|}.
Proof. abstract solve_side. Defined.

Inductive server_call :=
| ReceiveProposedVersions
| AcceptVersion (version : Z) (extra_params : D)
| Refuse (reason : RefuseReason.t).

#[refine] Definition server_side : Side (M := M) next (server_may next) (client_may next) HsError.t := {|
  call := server_call;
  run c :=
    match c with
    | ReceiveProposedVersions => discard (Server.receive_proposed_versions (D := D))
    | AcceptVersion version extra_params => Server.accept_version version extra_params
    | Refuse reason => Server.refuse (D := D) reason
    end;
  action_of s c :=
    match c, s with
    | ReceiveProposedVersions, State.Propose => Receives
    | ReceiveProposedVersions, State.Confirm => Refuses
    | ReceiveProposedVersions, State.Done => Unsuited
    | AcceptVersion version extra_params, State.Confirm => Sends (Message.Accept version extra_params)
    | Refuse reason, State.Confirm => Sends (Message.Refuse reason)
    | _, _ => Refuses
    end
|}.
Proof. abstract solve_side. Defined.
End sides.

(** ** Versions *)
Module n2n.
Definition PROTOCOL_V7 : Z := 7.
Definition PROTOCOL_V8 : Z := 8.
Definition PROTOCOL_V9 : Z := 9.
Definition PROTOCOL_V10 : Z := 10.
Definition PROTOCOL_V11 : Z := 11.
Definition PROTOCOL_V12 : Z := 12.
Definition PROTOCOL_V13 : Z := 13.
Definition PROTOCOL_V14 : Z := 14.

Definition PEER_SHARING_DISABLED : Z := 0.

Record VersionData := {
  network_magic : Z;
  initiator_only_diffusion_mode : bool;
  peer_sharing : option Z;
  query : option bool
}.

#[global] Instance VersionData_eq_dec : EqDecision VersionData.
Proof. solve_decision. Defined.

Definition new (magic : Z) (diffusion : bool) (sharing : option Z) (q : option bool) : VersionData :=
  {| network_magic := magic; initiator_only_diffusion_mode := diffusion;
     peer_sharing := sharing; query := q |}.

Definition v7_to_v10 (network_magic : Z) : VersionTable VersionData :=
  {| values := collect_map [
    (PROTOCOL_V7, new network_magic true None None);
    (PROTOCOL_V8, new network_magic true None None);
    (PROTOCOL_V9, new network_magic true None None);
    (PROTOCOL_V10, new network_magic true None None)] |}.

Definition v7_and_above_with_query (network_magic : Z) (query : bool) : VersionTable VersionData :=
  {| values := collect_map [
    (PROTOCOL_V7, new network_magic true None None);
    (PROTOCOL_V8, new network_magic true None None);
    (PROTOCOL_V9, new network_magic true None None);
    (PROTOCOL_V10, new network_magic true None None);
    (PROTOCOL_V11, new network_magic true (Some PEER_SHARING_DISABLED) (Some query));
    (PROTOCOL_V12, new network_magic true (Some PEER_SHARING_DISABLED) (Some query));
    (PROTOCOL_V13, new network_magic true (Some PEER_SHARING_DISABLED) (Some query));
    (PROTOCOL_V14, new network_magic true (Some PEER_SHARING_DISABLED) (Some query))] |}.

Definition v7_and_above (network_magic : Z) : VersionTable VersionData :=
  v7_and_above_with_query network_magic false.

Definition v6_and_above (network_magic : Z) : VersionTable VersionData := v7_and_above network_magic.
Definition v4_and_above (network_magic : Z) : VersionTable VersionData := v7_and_above network_magic.

Definition v11_and_above_with_query (network_magic : Z) (query : bool) : VersionTable VersionData :=
  {| values := collect_map [
    (PROTOCOL_V11, new network_magic true (Some PEER_SHARING_DISABLED) (Some query));
    (PROTOCOL_V12, new network_magic true (Some PEER_SHARING_DISABLED) (Some query));
    (PROTOCOL_V13, new network_magic true (Some PEER_SHARING_DISABLED) (Some query));
    (PROTOCOL_V14, new network_magic true (Some PEER_SHARING_DISABLED) (Some query))] |}.

Definition v11_and_above (network_magic : Z) : VersionTable VersionData :=
  v11_and_above_with_query network_magic false.

Section codec.
Context `{Minicbor}.

#[global] Instance VersionData_encode : Encode VersionData := fun v =>
  match peer_sharing v, query v with
  | Some peer_sharing, Some query =>
      w_array 4 ⊕ w_u64 (network_magic v) ⊕ w_bool (initiator_only_diffusion_mode v) ⊕
      w_u8 peer_sharing ⊕ w_bool query
  | _, _ => w_array 2 ⊕ w_u64 (network_magic v) ⊕ w_bool (initiator_only_diffusion_mode v)
  end.

#[global] Instance VersionData_decode : Decode VersionData :=
  len ← d_array;
  network_magic ← d_u64;
  initiator_only_diffusion_mode ← d_bool;
  peer_sharing ← match len with Some 4 => x ← d_u8; mret (Some x) | _ => mret None end;
  query ← match len with Some 4 => x ← d_bool; mret (Some x) | _ => mret None end;
  mret {| network_magic := network_magic;
          initiator_only_diffusion_mode := initiator_only_diffusion_mode;
          peer_sharing := peer_sharing; query := query |}.

(** The two optional fields are written together or not at all. *)
#[global] Instance VersionData_valid : Valid VersionData := fun v =>
  in_u 64 (network_magic v) /\
  match peer_sharing v, query v with
  | Some p, Some _ => in_u 8 p
  | None, None => True
  | _, _ => False
  end.

#[global] Instance VersionData_codec `{!MinicborLaws _} : Codec VersionData.
Proof.
  split.
  - intros [mg df ps q] [Hm Hv]. unfold_codec VersionData_encode VersionData_decode.
    destruct ps as [p|], q as [q|]; try done; cbn.
    + do 3 (eapply Parses_bind; [solve [eauto with codec]|]; cbn).
      eapply Parses_bind; [eapply Parses_bind_last; [solve [eauto with codec]|apply Parses_ret]|].
      eapply Parses_bind_last; [eapply Parses_bind_last; [solve [eauto with codec]|apply Parses_ret]|].
      apply Parses_ret.
    + do 2 (eapply Parses_bind; [solve [eauto with codec]|]; cbn).
      eapply Parses_bind_last; [solve [eauto with codec]|]. apply Parses_ret.
  - unfold decode; unfold VersionData_decode. solve_stable.
Qed.

#[global] Instance VersionData_error_stable `{!MinicborLaws _, !MinicborErrors _} : ErrorStable VersionData.
Proof. unfold ErrorStable, decode; unfold VersionData_decode. solve_robust. Qed.
End codec.
End n2n.

Module n2c.
Definition PROTOCOL_V1 : Z := 1.
Definition PROTOCOL_V2 : Z := 32770.
Definition PROTOCOL_V3 : Z := 32771.
Definition PROTOCOL_V4 : Z := 32772.
Definition PROTOCOL_V5 : Z := 32773.
Definition PROTOCOL_V6 : Z := 32774.
Definition PROTOCOL_V7 : Z := 32775.
Definition PROTOCOL_V8 : Z := 32776.
Definition PROTOCOL_V9 : Z := 32777.
Definition PROTOCOL_V10 : Z := 32778.
Definition PROTOCOL_V11 : Z := 32779.
Definition PROTOCOL_V12 : Z := 32780.
Definition PROTOCOL_V13 : Z := 32781.
Definition PROTOCOL_V14 : Z := 32782.
Definition PROTOCOL_V15 : Z := 32783.
Definition PROTOCOL_V16 : Z := 32784.
Definition PROTOCOL_V17 : Z := 32785.
Definition PROTOCOL_V18 : Z := 32786.
Definition PROTOCOL_V19 : Z := 32787.
Definition PROTOCOL_V20 : Z := 32788.
Definition PROTOCOL_V21 : Z := 32789.
Definition PROTOCOL_V22 : Z := 32790.
Definition PROTOCOL_V23 : Z := 32791.

Definition PROTOCOL_DMQ_V1 : Z := 4097.

(** The network magic and the query flag, [VersionData(NetworkMagic, Option<bool>)]. *)
Record VersionData := { magic : Z; is_query : option bool }.

#[global] Instance VersionData_eq_dec : EqDecision VersionData.
Proof. solve_decision. Defined.

Definition new (magic : Z) (param : option bool) : VersionData :=
  {| magic := magic; is_query := param |}.

Definition v1_and_above (network_magic : Z) : VersionTable VersionData :=
  {| values := collect_map [
    (PROTOCOL_V1, Build_VersionData network_magic None);
    (PROTOCOL_V2, Build_VersionData network_magic None);
    (PROTOCOL_V3, Build_VersionData network_magic None);
    (PROTOCOL_V4, Build_VersionData network_magic None);
    (PROTOCOL_V5, Build_VersionData network_magic None);
    (PROTOCOL_V6, Build_VersionData network_magic None);
    (PROTOCOL_V7, Build_VersionData network_magic None);
    (PROTOCOL_V8, Build_VersionData network_magic None);
    (PROTOCOL_V9, Build_VersionData network_magic None);
    (PROTOCOL_V10, Build_VersionData network_magic None);
    (PROTOCOL_V11, Build_VersionData network_magic None);
    (PROTOCOL_V12, Build_VersionData network_magic None);
    (PROTOCOL_V13, Build_VersionData network_magic None);
    (PROTOCOL_V14, Build_VersionData network_magic None);
    (PROTOCOL_V15, Build_VersionData network_magic (Some false));
    (PROTOCOL_V16, Build_VersionData network_magic (Some false));
    (PROTOCOL_V17, Build_VersionData network_magic (Some false));
    (PROTOCOL_V18, Build_VersionData network_magic (Some false));
    (PROTOCOL_V19, Build_VersionData network_magic (Some false));
    (PROTOCOL_V20, Build_VersionData network_magic (Some false));
    (PROTOCOL_V21, Build_VersionData network_magic (Some false));
    (PROTOCOL_V22, Build_VersionData network_magic (Some false));
    (PROTOCOL_V23, Build_VersionData network_magic (Some false))] |}.

Definition only_v10 (network_magic : Z) : VersionTable VersionData :=
  {| values := collect_map [
    (PROTOCOL_V10, Build_VersionData network_magic None)] |}.

Definition v10_and_above (network_magic : Z) : VersionTable VersionData :=
  {| values := collect_map [
    (PROTOCOL_V10, Build_VersionData network_magic None);
    (PROTOCOL_V11, Build_VersionData network_magic None);
    (PROTOCOL_V12, Build_VersionData network_magic None);
    (PROTOCOL_V13, Build_VersionData network_magic None);
    (PROTOCOL_V14, Build_VersionData network_magic None);
    (PROTOCOL_V15, Build_VersionData network_magic (Some false));
    (PROTOCOL_V16, Build_VersionData network_magic (Some false));
    (PROTOCOL_V17, Build_VersionData network_magic (Some false));
    (PROTOCOL_V18, Build_VersionData network_magic (Some false));
    (PROTOCOL_V19, Build_VersionData network_magic (Some false));
    (PROTOCOL_V20, Build_VersionData network_magic (Some false));
    (PROTOCOL_V21, Build_VersionData network_magic (Some false));
    (PROTOCOL_V22, Build_VersionData network_magic (Some false));
    (PROTOCOL_V23, Build_VersionData network_magic (Some false))] |}.

Definition v15_with_query (network_magic : Z) : VersionTable VersionData :=
  {| values := collect_map [
    (PROTOCOL_V15, Build_VersionData network_magic (Some true))] |}.

Definition dmq (network_magic : Z) : VersionTable VersionData :=
  {| values := collect_map [
    (PROTOCOL_DMQ_V1, Build_VersionData network_magic (Some false))] |}.

Section codec.
Context `{Minicbor}.

#[global] Instance VersionData_encode : Encode VersionData := fun v =>
  match is_query v with
  | None => w_u64 (magic v)
  | Some is_query => w_array 2 ⊕ w_u64 (magic v) ⊕ w_bool is_query
  end.

#[global] Instance VersionData_decode : Decode VersionData :=
  ty ← d_datatype;
  match ty with
  | TU8 | TU16 | TU32 | TU64 =>
      network_magic ← d_u64;
      mret {| magic := network_magic; is_query := None |}
  | TArray =>
      _ ← d_array;
      network_magic ← d_u64;
      is_query ← d_bool;
      mret {| magic := network_magic; is_query := Some is_query |}
  | _ => dec_fail (DecodeMessage "unknown type for VersionData")
  end.

#[global] Instance VersionData_valid : Valid VersionData := fun v => in_u 64 (magic v).

#[global] Instance VersionData_codec `{!MinicborLaws _} : Codec VersionData.
Proof.
  split.
  - intros [mg [q|]] Hm; unfold_codec VersionData_encode VersionData_decode;
      intros b rest Hb; unfold mbind at 1, dec_bind at 1.
    + pose proof Hb as (x & y & [= <-] & _ & Hxy)%enc_app_Some.
      rewrite Hxy, <- app_assoc, datatype_array, app_assoc, <- Hxy by by unfold in_u.
      clear Hxy. revert b rest Hb. change (Parses (_ ← d_array; network_magic ← d_u64; is_query ← d_bool;
        mret {| magic := network_magic; is_query := Some is_query |})
        (w_array 2 ⊕ w_u64 mg ⊕ w_bool q) {| magic := mg; is_query := Some q |}).
      solve_parses.
    + injection Hb as <-. destruct (datatype_u64 mg rest Hm) as (t & -> & Ht).
      assert (Parses (network_magic ← d_u64; mret {| magic := network_magic; is_query := None |})
        (w_u64 mg) {| magic := mg; is_query := None |}) as Hp by solve_parses.
      pose proof (Hp _ rest eq_refl).
      repeat (apply elem_of_cons in Ht as [->|Ht]; [done|]). by apply elem_of_nil in Ht.
  - unfold decode; unfold VersionData_decode. solve_stable.
Qed.

#[global] Instance VersionData_error_stable `{!MinicborLaws _, !MinicborErrors _} : ErrorStable VersionData.
Proof. unfold ErrorStable, decode; unfold VersionData_decode. solve_robust. Qed.
End codec.
End n2c.
