(* ===== verification/MiniLocalstate.v ===== *)
(** * Local state query of the first generation

    [pallas-network/src/miniprotocols/localstate]: protocol.rs, codec.rs, client.rs
    and server.rs.  The queries themselves are items of CBOR the protocol carries. *)
From S2P Require Import Prelude Cbor Truncation Effects Protocol ProtocolProps.
From S2P Require Import Multiplexer Channels Agents MiniCommon.

Module State.
Inductive t := Idle | Acquiring | Acquired | Querying | Done.
End State.

#[export] Instance State_eq_dec : EqDecision State.t.
Proof. solve_decision. Defined.

Module AcquireFailure.
Inductive t := PointTooOld | PointNotOnChain.
End AcquireFailure.

Module Message.
Inductive t :=
| Acquire (point : option Point.t)
| Failure (failure : AcquireFailure.t)
| Acquired
| Query (query : AnyCbor)
| Result (result : AnyCbor)
| ReAcquire (point : option Point.t)
| Release
| Done.
End Message.

(** ** Codec *)
Section codec.
Context `{Minicbor}.

#[export] Instance AcquireFailure_encode : Encode AcquireFailure.t := fun x =>
  let code := match x with AcquireFailure.PointTooOld => 0 | AcquireFailure.PointNotOnChain => 1 end in
  w_u16 code.

#[export] Instance AcquireFailure_decode : Decode AcquireFailure.t :=
  code ← d_u16;
  match code with
  | 0 => mret AcquireFailure.PointTooOld
  | 1 => mret AcquireFailure.PointNotOnChain
  | _ => dec_fail (DecodeMessage "can't infer acquire failure from variant id")
  end.

#[export] Instance AcquireFailure_valid : Valid AcquireFailure.t := fun _ => True.

#[export] Instance Message_encode : Encode Message.t := fun m =>
  match m with
  | Message.Acquire (Some point) => w_array 2 ⊕ w_u16 0 ⊕ encode point
  | Message.Acquire None => w_array 1 ⊕ w_u16 8
  | Message.Acquired => w_array 1 ⊕ w_u16 1
  | Message.Failure failure => w_array 2 ⊕ w_u16 2 ⊕ encode failure
  | Message.Query query => w_array 2 ⊕ w_u16 3 ⊕ encode query
  | Message.Result result => w_array 2 ⊕ w_u16 4 ⊕ encode result
  | Message.ReAcquire (Some point) => w_array 2 ⊕ w_u16 6 ⊕ encode point
  | Message.ReAcquire None => w_array 1 ⊕ w_u16 9
  | Message.Release => w_array 1 ⊕ w_u16 5
  | Message.Done => w_array 1 ⊕ w_u16 7
  end.

(** The point of a label 6 is decoded as an optional one. *)
#[export] Instance Message_decode : Decode Message.t :=
  _ ← d_array;
  label ← d_u16;
  match label with
  | 0 => point ← decode; mret (Message.Acquire (Some point))
  | 8 => mret (Message.Acquire None)
  | 1 => mret Message.Acquired
  | 2 => failure ← decode; mret (Message.Failure failure)
  | 3 => query ← decode; mret (Message.Query query)
  | 4 => response ← decode; mret (Message.Result response)
  | 5 => mret Message.Release
  | 6 => point ← d_option decode; mret (Message.ReAcquire point)
  | 9 => mret (Message.ReAcquire None)
  | 7 => mret Message.Done
  | _ => dec_fail (DecodeMessage "unknown variant for localstate message")
  end.

#[export] Instance Message_valid : Valid Message.t := fun m =>
  match m with
  | Message.Acquire (Some point) | Message.ReAcquire (Some point) => valid point
  | Message.Query x | Message.Result x => valid x
  | _ => True
  end.
End codec.

Section laws.
Context `{ML : MinicborLaws} `{!MinicborErrors M}.

#[export] Instance AcquireFailure_codec : Codec AcquireFailure.t.
Proof.
  split.
  - intros [] _; unfold_codec AcquireFailure_encode AcquireFailure_decode;
      (eapply Parses_bind_last; [solve [eauto with codec]|apply Parses_ret]).
  - unfold decode; unfold AcquireFailure_decode. solve_stable.
Qed.

#[export] Instance AcquireFailure_error_stable : ErrorStable AcquireFailure.t.
Proof. unfold ErrorStable, decode; unfold AcquireFailure_decode. solve_robust. Qed.

Lemma point_not_null (p : Point.t) b : encode p = Some b -> exists n r, in_u 64 n /\ b = e_array n ++ r.
Proof.
  unfold encode, Point_encode. destruct p as [|slot hash].
  - intros [= <-]. exists 0, []. by rewrite app_nil_r.
  - by apply enc_array_head.
Qed.

#[export] Instance Message_codec : Codec Message.t.
Proof.
  split.
  - intros m Hm. unfold_codec Message_encode Message_decode.
    destruct m as [[p|]| | | | |[p|]| |]; unfold valid in Hm; cbn in Hm; try (by solve_parses).
    do 2 (eapply Parses_bind; [solve [eauto with codec]|]; cbn).
    eapply Parses_bind_last; [|apply Parses_ret].
    apply option_array_parses; [apply point_not_null|by apply codec_parses].
  - unfold decode; unfold Message_decode. solve_stable.
Qed.

#[export] Instance Message_fragment : Fragment Message.t.
Proof. solve_fragment Message_decode. Qed.
End laws.

(** ** The abstract protocol *)
Definition next (s : State.t) (m : Message.t) : result Protocol.Error State.t :=
  match s, m with
  | State.Idle, Message.Acquire _ => Ok State.Acquiring
  | State.Idle, Message.Done => Ok State.Done
  | State.Acquiring, Message.Acquired => Ok State.Acquired
  | State.Acquiring, Message.Failure _ => Ok State.Idle
  | State.Acquired, Message.Query _ => Ok State.Querying
  | State.Acquired, Message.ReAcquire _ => Ok State.Acquiring
  | State.Acquired, Message.Release => Ok State.Idle
  | State.Querying, Message.Result _ => Ok State.Acquired
  | _, _ => Err Protocol.InvalidInbound
  end.

#[export, refine] Instance agency : Agency next := {
  client_may s _ := match s with State.Idle | State.Acquired => true | _ => false end;
  server_may s _ := match s with State.Acquiring | State.Querying => true | _ => false end
}.
Proof. by intros []. Defined.

(** ** The client *)
Module ClientError.
Inductive t :=
| AgencyIsOurs | AgencyIsTheirs | InvalidInbound | InvalidOutbound
| AcquirePointNotFound | AcquirePointTooOld
| InvalidCbor (e : decode_error) | Plexer (e : Error.t).
Definition from (x : AcquireFailure.t) : t :=
  match x with
  | AcquireFailure.PointTooOld => AcquirePointTooOld
  | AcquireFailure.PointNotOnChain => AcquirePointNotFound
  end.
End ClientError.

#[export] Instance ClientError_agent : AgentError ClientError.t := {|
  agency_is_ours := ClientError.AgencyIsOurs; agency_is_theirs := ClientError.AgencyIsTheirs;
  plexer_error := ClientError.Plexer |}.

Module Client.
Section client.
Context `{Minicbor}.
Abbreviation method := (comp ClientError.t (State.t * ChannelBuffer)).

Definition new (channel : AgentChannel) : State.t * ChannelBuffer := (State.Idle, ChannelBuffer_new channel).
Definition is_done (self : State.t) : bool := bool_decide (self = State.Done).

Definition has_agency (self : State.t) : bool :=
  match self with
  | State.Idle => true
  | State.Acquired => true
  | _ => false
  end.

Definition assert_agency_is_ours : method unit := Agents.assert_agency_is_ours has_agency.
Definition assert_agency_is_theirs : method unit := Agents.assert_agency_is_theirs has_agency.

Definition assert_outbound_state (self : State.t) (msg : Message.t) : result ClientError.t unit :=
  match self, msg with
  | State.Idle, Message.Acquire _ => Ok ()
  | State.Idle, Message.Done => Ok ()
  | State.Acquired, Message.Query _ => Ok ()
  | State.Acquired, Message.ReAcquire _ => Ok ()
  | State.Acquired, Message.Release => Ok ()
  | _, _ => Err ClientError.InvalidOutbound
  end.

Definition assert_inbound_state (self : State.t) (msg : Message.t) : result ClientError.t unit :=
  match self, msg with
  | State.Acquiring, Message.Acquired => Ok ()
  | State.Acquiring, Message.Failure _ => Ok ()
  | State.Querying, Message.Result _ => Ok ()
  | _, _ => Err ClientError.InvalidInbound
  end.

Definition send_message (msg : Message.t) : method unit :=
  Agents.send_message has_agency assert_outbound_state msg.
Definition recv_message : method Message.t := Agents.recv_message has_agency assert_inbound_state.

Definition send_acquire (point : option Point.t) : method unit :=
  let msg := Message.Acquire point in
  _ ← send_message msg;
  set_state State.Acquiring.

Definition send_reacquire (point : option Point.t) : method unit :=
  let msg := Message.ReAcquire point in
  _ ← send_message msg;
  set_state State.Acquiring.

Definition send_release : method unit :=
  let msg := Message.Release in
  _ ← send_message msg;
  set_state State.Idle.

Definition send_done : method unit :=
  let msg := Message.Done in
  _ ← send_message msg;
  set_state State.Done.

(** A failure is reported as an error, with the state already idle again. *)
Definition recv_while_acquiring : method unit :=
  msg ← recv_message;
  match msg with
  | Message.Acquired => set_state State.Acquired
  | Message.Failure x => _ ← set_state State.Idle; throw (ClientError.from x)
  | _ => throw ClientError.InvalidInbound
  end.

Definition acquire (point : option Point.t) : method unit :=
  _ ← send_acquire point;
  recv_while_acquiring.

Definition send_query (request : AnyCbor) : method Message.t :=
  let msg := Message.Query request in
  _ ← send_message msg;
  _ ← set_state State.Querying;
  mret msg.

Definition recv_while_querying : method AnyCbor :=
  msg ← recv_message;
  match msg with
  | Message.Result result => _ ← set_state State.Acquired; mret result
  | _ => throw ClientError.InvalidInbound
  end.

Definition query_any (request : AnyCbor) : method AnyCbor :=
  _ ← send_query request;
  recv_while_querying.

(** [AnyCbor::from_encode] unwraps, and [AnyCbor::into_decode] ignores what follows. *)
Definition query {Q R} `{Encode Q, Decode R} (request : Q) : method R :=
  buf ← eval (to_vec request);
  let request := from_raw_bytes buf in
  response ← query_any request;
  match from_slice (raw_bytes response) with
  | Ok x => mret x
  | Err e => throw (ClientError.InvalidCbor e)
  end.
End client.
End Client.

(** ** The server *)
Module ServerError.
Inductive t := AgencyIsOurs | AgencyIsTheirs | InvalidInbound | InvalidOutbound | Plexer (e : Error.t).
End ServerError.

#[export] Instance ServerError_agent : AgentError ServerError.t := {|
  agency_is_ours := ServerError.AgencyIsOurs; agency_is_theirs := ServerError.AgencyIsTheirs;
  plexer_error := ServerError.Plexer |}.

Record ClientAcquireRequest := { acquire_point : option Point.t }.

Module ClientQueryRequest.
Inductive t :=
| ReAcquire (point : option Point.t)
| Query (query : AnyCbor)
| Release.
End ClientQueryRequest.

Module Server.
Section server.
Context `{Minicbor}.
Abbreviation method := (comp ServerError.t (State.t * ChannelBuffer)).

Definition new (channel : AgentChannel) : State.t * ChannelBuffer := (State.Idle, ChannelBuffer_new channel).
Definition is_done (self : State.t) : bool := bool_decide (self = State.Done).

Definition has_agency (self : State.t) : bool :=
  match self with State.Acquiring | State.Querying => true | _ => false end.

Definition assert_agency_is_ours : method unit := Agents.assert_agency_is_ours has_agency.
Definition assert_agency_is_theirs : method unit := Agents.assert_agency_is_theirs has_agency.

Definition assert_outbound_state (self : State.t) (msg : Message.t) : result ServerError.t unit :=
  match self, msg with
  | State.Acquiring, Message.Acquired => Ok ()
  | State.Acquiring, Message.Failure _ => Ok ()
  | State.Querying, Message.Result _ => Ok ()
  | _, _ => Err ServerError.InvalidOutbound
  end.

Definition assert_inbound_state (self : State.t) (msg : Message.t) : result ServerError.t unit :=
  match self, msg with
  | State.Idle, Message.Acquire _ => Ok ()
  | State.Idle, Message.Done => Ok ()
  | State.Acquired, Message.Query _ => Ok ()
  | State.Acquired, Message.ReAcquire _ => Ok ()
  | State.Acquired, Message.Release => Ok ()
  | _, _ => Err ServerError.InvalidInbound
  end.

Definition send_message (msg : Message.t) : method unit :=
  Agents.send_message has_agency assert_outbound_state msg.
Definition recv_message : method Message.t := Agents.recv_message has_agency assert_inbound_state.

Definition send_failure (reason : AcquireFailure.t) : method unit :=
  let msg := Message.Failure reason in
  _ ← send_message msg;
  set_state State.Idle.

Definition send_acquired : method unit :=
  let msg := Message.Acquired in
  _ ← send_message msg;
  set_state State.Acquired.

Definition send_result (response : AnyCbor) : method unit :=
  let msg := Message.Result response in
  _ ← send_message msg;
  set_state State.Acquired.

Definition recv_while_idle : method (option ClientAcquireRequest) :=
  msg ← recv_message;
  match msg with
  | Message.Acquire point => _ ← set_state State.Acquiring; mret (Some {| acquire_point := point |})
  | Message.Done => _ ← set_state State.Done; mret None
  | _ => throw ServerError.InvalidInbound
  end.

Definition recv_while_acquired : method ClientQueryRequest.t :=
  msg ← recv_message;
  match msg with
  | Message.ReAcquire point => _ ← set_state State.Acquiring; mret (ClientQueryRequest.ReAcquire point)
  | Message.Query query => _ ← set_state State.Querying; mret (ClientQueryRequest.Query query)
  | Message.Release => _ ← set_state State.Idle; mret ClientQueryRequest.Release
  | _ => throw ServerError.InvalidInbound
  end.
End server.
End Server.

(** ** Both follow the protocol *)
#[export] Hint Unfold Client.assert_agency_is_ours Client.assert_agency_is_theirs Client.assert_outbound_state
  Client.assert_inbound_state Client.send_message Client.recv_message Client.send_acquire Client.send_reacquire
  Client.send_release Client.send_done Client.recv_while_acquiring Client.send_query
  Client.recv_while_querying : agents.
#[export] Hint Unfold Server.assert_agency_is_ours Server.assert_agency_is_theirs Server.assert_outbound_state
  Server.assert_inbound_state Server.send_message Server.recv_message Server.send_failure Server.send_acquired
  Server.send_result Server.recv_while_idle Server.recv_while_acquired : agents.

Section sides.
Context `{Minicbor}.

(** The errors that report the server's answer. *)
Definition answered (m : comp ClientError.t (State.t * ChannelBuffer) unit) : comp ClientError.t (State.t * ChannelBuffer) unit := fun self =>
  match m self with
  | Returned (Err (ClientError.AcquirePointNotFound | ClientError.AcquirePointTooOld)) self => Returned (Ok ()) self
  | o => o
  end.
#[local] Hint Unfold answered : agents.

Inductive client_call :=
| SendAcquire (point : option Point.t)
| SendReacquire (point : option Point.t)
| SendRelease
| SendDone
| RecvWhileAcquiring
| SendQuery (request : AnyCbor)
| RecvWhileQuerying.

#[refine] Definition client_side : Side next (client_may next) (server_may next) ClientError.t := {|
  call := client_call;
  run c :=
    match c with
    | SendAcquire point => Client.send_acquire point
    | SendReacquire point => Client.send_reacquire point
    | SendRelease => Client.send_release
    | SendDone => Client.send_done
    | RecvWhileAcquiring => answered Client.recv_while_acquiring
    | SendQuery request => discard (Client.send_query request)
    | RecvWhileQuerying => discard Client.recv_while_querying
    end;
  action_of s c :=
    match s, c with
    | State.Idle, SendAcquire point => Sends (Message.Acquire point)
    | State.Idle, SendDone => Sends Message.Done
    | State.Acquired, SendReacquire point => Sends (Message.ReAcquire point)
    | State.Acquired, SendRelease => Sends Message.Release
    | State.Acquired, SendQuery request => Sends (Message.Query request)
    | State.Acquiring, RecvWhileAcquiring => Receives
    | State.Querying, RecvWhileQuerying => Receives
    | (State.Querying | State.Done), RecvWhileAcquiring => Unsuited
    | (State.Acquiring | State.Done), RecvWhileQuerying => Unsuited
    | _, _ => Refuses
    end
|}.
Proof. abstract (solve_side; match goal with failure : AcquireFailure.t |- _ => by destruct failure end). Defined.

Inductive server_call :=
| SendFailure (reason : AcquireFailure.t)
| SendAcquired
| SendResult (response : AnyCbor)
| RecvWhileIdle
| RecvWhileAcquired.

#[refine] Definition server_side : Side next (server_may next) (client_may next) ServerError.t := {|
  call := server_call;
  run c :=
    match c with
    | SendFailure reason => Server.send_failure reason
    | SendAcquired => Server.send_acquired
    | SendResult response => Server.send_result response
    | RecvWhileIdle => discard Server.recv_while_idle
    | RecvWhileAcquired => discard Server.recv_while_acquired
    end;
  action_of s c :=
    match s, c with
    | State.Acquiring, SendFailure reason => Sends (Message.Failure reason)
    | State.Acquiring, SendAcquired => Sends Message.Acquired
    | State.Querying, SendResult response => Sends (Message.Result response)
    | State.Idle, RecvWhileIdle => Receives
    | State.Acquired, RecvWhileAcquired => Receives
    | (State.Acquired | State.Done), RecvWhileIdle => Unsuited
    | (State.Idle | State.Done), RecvWhileAcquired => Unsuited
    | _, _ => Refuses
    end
|}.
Proof. abstract solve_side. Defined.
End sides.
