(* ===== verification/MiniLocaltxsubmission.v ===== *)
(** * Local transaction submission of the first generation

    [pallas-network/src/miniprotocols/localtxsubmission]: protocol.rs (the protocol,
    not the ledger's rejections), the codec of the messages, client.rs and server.rs.
    The agents are generic in what is submitted and in the rejections; so are those of
    [localmsgsubmission]. *)
From S2P Require Import Prelude Cbor FlatBase Truncation Effects Protocol ProtocolProps.
From S2P Require Import Multiplexer Channels Agents.

(** [Error], whose variant for the multiplexer is called [ChannelError] here. *)
Module TxsError.
Inductive t := AgencyIsOurs | AgencyIsTheirs | InvalidInbound | InvalidOutbound | ChannelError (e : Error.t).
End TxsError.

#[export] Instance TxsError_agent : AgentError TxsError.t := {|
  agency_is_ours := TxsError.AgencyIsOurs; agency_is_theirs := TxsError.AgencyIsTheirs;
  plexer_error := TxsError.ChannelError |}.

Module State.
Inductive t := Idle | Busy | Done.
End State.

#[export] Instance State_eq_dec : EqDecision State.t.
Proof. solve_decision. Defined.

Module Message.
Inductive t (Tx Reject : Type) :=
| SubmitTx (tx : Tx)
| AcceptTx
| RejectTx (reject : Reject)
| Done.
#[global] Arguments SubmitTx {Tx Reject} _.
#[global] Arguments AcceptTx {Tx Reject}.
#[global] Arguments RejectTx {Tx Reject} _.
#[global] Arguments Done {Tx Reject}.
End Message.

Record EraTx := { tx_era : Z; tx_bytes : bytes }.

(** ** Codec *)

(** [Reject: From<String>] *)
Class FromText (Reject : Type) := from_text : bytes -> Reject.

(** [Decoder::input] after [Decoder::array] failed: the whole input.  What the failed
    call leaves unread is up to minicbor. *)
Class Undecoded := d_input : dec bytes.

Section codec.
Context `{Minicbor}.

#[export] Instance EraTx_encode : Encode EraTx := fun x =>
  w_array 2 ⊕ w_u16 (tx_era x) ⊕ w_tag CBOR_TAG ⊕ w_bytes (tx_bytes x).
#[export] Instance EraTx_decode : Decode EraTx :=
  _ ← d_array;
  era ← d_u16;
  tag ← d_tag;
  if negb (tag =? CBOR_TAG) then dec_fail (DecodeMessage "Expected encoded CBOR data item")
  else body ← d_bytes; mret {| tx_era := era; tx_bytes := body |}.
#[export] Instance EraTx_valid : Valid EraTx := fun x => in_u 16 (tx_era x) /\ fits_len (tx_bytes x).

Context {Tx Reject : Type}.

#[export] Instance Message_encode `{Encode Tx, Encode Reject} : Encode (Message.t Tx Reject) := fun m =>
  match m with
  | Message.SubmitTx tx => w_array 2 ⊕ w_u16 0 ⊕ encode tx
  | Message.AcceptTx => w_array 1 ⊕ w_u16 1
  | Message.RejectTx rejection => w_array 2 ⊕ w_u16 2 ⊕ encode rejection
  | Message.Done => w_array 1 ⊕ w_u16 3
  end.

(** The match on the label. *)
Definition decode_labelled `{Decode Tx, Decode Reject} : dec (Message.t Tx Reject) :=
  label ← d_u16;
  match label with
  | 0 => tx ← decode; mret (Message.SubmitTx tx)
  | 1 => mret Message.AcceptTx
  | 2 => rejection ← decode; mret (Message.RejectTx rejection)
  | 3 => mret Message.Done
  | _ => dec_fail (DecodeMessage "can't decode Message")
  end.

(** The node sends a plutus error as plain text. *)
Definition decode_text `{Undecoded, FromText Reject} : dec (Message.t Tx Reject) :=
  input ← d_input;
  match from_utf8 input with
  | Some _ => mret (Message.RejectTx (from_text input))
  | None => dec_fail (DecodeMessage "Not valid as a string")
  end.

#[export] Instance Message_decode `{Decode Tx, Decode Reject, Undecoded, FromText Reject} :
    Decode (Message.t Tx Reject) := fun b =>
  match d_array b with
  | Err _ => decode_text b
  | Ok (_, r) => decode_labelled r
  end.

#[export] Instance Message_valid `{Valid Tx, Valid Reject} : Valid (Message.t Tx Reject) := fun m =>
  match m with
  | Message.SubmitTx tx => valid tx
  | Message.RejectTx rejection => valid rejection
  | _ => True
  end.
End codec.

Section laws.
Context `{ML : MinicborLaws} `{!MinicborErrors M}.

#[export] Instance EraTx_codec : Codec EraTx.
Proof.
  split.
  - intros [x n] [Hx Hn]. unfold_codec EraTx_encode EraTx_decode. solve_parses.
  - unfold decode; unfold EraTx_decode. solve_stable.
Qed.

#[export] Instance EraTx_error_stable : ErrorStable EraTx.
Proof. unfold ErrorStable, decode; unfold EraTx_decode. solve_robust. Qed.

Context {Tx Reject : Type} `{Codec Tx, !ErrorStable Tx, Codec Reject, !ErrorStable Reject, Undecoded, FromText Reject}.

Lemma labelled_stable : Stable (decode_labelled (Tx := Tx) (Reject := Reject)).
Proof. unfold decode_labelled. solve_stable. Qed.

Lemma labelled_robust : Robust (decode_labelled (Tx := Tx) (Reject := Reject)).
Proof. unfold decode_labelled. solve_robust. Qed.

(** A message is the header of a short array, and what its label says. *)
Lemma labelled_message (x : Message.t Tx Reject) w :
  valid x -> encode x = Some w ->
  exists n v, 0 <= n < 24 /\ w = e_array n ++ v /\ Parses decode_labelled (Some v) x.
Proof.
  intros Hx Hw.
  assert (exists n e, 0 <= n < 24 /\ encode x = w_array n ⊕ e /\ Parses decode_labelled e x) as (n & e & Hn & He & Hp).
  { unfold encode, Message_encode, decode_labelled, valid, Message_valid in *.
    destruct x; [exists 2|exists 1|exists 2|exists 1]; eexists; (split; [lia|]; split; [reflexivity|solve_parses]). }
  rewrite He in Hw. apply enc_app_Some in Hw as (h & v & [= <-] & -> & ->). by exists n, v.
Qed.

(** What is no array is taken for a text, so the codec is no [Fragment]: the empty
    input is a rejection. *)
#[export] Instance Message_framed : Framed (Message.t Tx Reject).
Proof.
  assert (forall n (v : bytes), 0 <= n < 24 ->
    decode (A := Message.t Tx Reject) (e_array n ++ v) = decode_labelled v) as Hd.
  { intros n v Hn. unfold decode, Message_decode. by rewrite (array_parses n ltac:(unfold in_u; lia) _ v eq_refl). }
  split.
  - intros x Hx w rest Hw. destruct (labelled_message x w Hx Hw) as (n & v & Hn & -> & Hp).
    rewrite <- app_assoc, Hd by done. by apply Hp.
  - intros x p s Hx Hw Hne Hs. destruct (labelled_message x _ Hx Hw) as (n & v & Hn & Hpv & Hp).
    pose proof (array_short n _ Hn eq_refl) as Hl. destruct (e_array n) as [|h [|]] eqn:Eh; try done.
    destruct p as [|h' p]; [done|]. injection Hpv as -> <-. change (h :: p) with ([h] ++ p).
    rewrite <- Eh, Hd by done. by apply (truncated_input _ x p s labelled_stable labelled_robust).
  - intros x w Hx Hw ->. destruct (labelled_message x _ Hx Hw) as (n & v & Hn & Hpv & _).
    pose proof (array_short n _ Hn eq_refl) as Hl. symmetry in Hpv. apply app_eq_nil in Hpv as [Hpv _]. by rewrite Hpv in Hl.
Qed.
End laws.

(** ** The abstract protocol *)
Section machine.
Context {Tx Reject : Type}.

Definition next (s : State.t) (m : Message.t Tx Reject) : result Protocol.Error State.t :=
  match s, m with
  | State.Idle, Message.SubmitTx _ => Ok State.Busy
  | State.Idle, Message.Done => Ok State.Done
  | State.Busy, (Message.AcceptTx | Message.RejectTx _) => Ok State.Idle
  | _, _ => Err Protocol.InvalidInbound
  end.

#[export, refine] Instance agency : Agency next := {
  client_may s _ := match s with State.Idle => true | _ => false end;
  server_may s _ := match s with State.Busy => true | _ => false end
}.
Proof. by intros []. Defined.
End machine.

(** ** The client *)
Module Response.
Inductive t (Reject : Type) := Accepted | Rejected (reject : Reject).
#[global] Arguments Accepted {Reject}.
#[global] Arguments Rejected {Reject} _.
End Response.

Module Client.
Section client.
Context {Tx Reject : Type} `{Encode (Message.t Tx Reject), Decode (Message.t Tx Reject)}.
Abbreviation method := (comp TxsError.t (State.t * ChannelBuffer)).

Definition new (channel : AgentChannel) : State.t * ChannelBuffer := (State.Idle, ChannelBuffer_new channel).

Definition has_agency (self : State.t) : bool :=
  match self with
  | State.Idle => true
  | State.Busy | State.Done => false
  end.

Definition assert_agency_is_ours : method unit := Agents.assert_agency_is_ours has_agency.
Definition assert_agency_is_theirs : method unit := Agents.assert_agency_is_theirs has_agency.

Definition assert_outbound_state (self : State.t) (msg : Message.t Tx Reject) : result TxsError.t unit :=
  match self, msg with
  | State.Idle, (Message.SubmitTx _ | Message.Done) => Ok ()
  | _, _ => Err TxsError.InvalidOutbound
  end.

Definition assert_inbound_state (self : State.t) (msg : Message.t Tx Reject) : result TxsError.t unit :=
  match self, msg with
  | State.Busy, (Message.AcceptTx | Message.RejectTx _) => Ok ()
  | _, _ => Err TxsError.InvalidInbound
  end.

Definition send_message (msg : Message.t Tx Reject) : method unit :=
  Agents.send_message has_agency assert_outbound_state msg.
Definition recv_message : method (Message.t Tx Reject) := Agents.recv_message has_agency assert_inbound_state.

Definition send_submit_tx (tx : Tx) : method unit :=
  let msg := Message.SubmitTx tx in
  _ ← send_message msg;
  set_state State.Busy.

Definition recv_submit_tx_response : method (Response.t Reject) :=
  msg ← recv_message;
  match msg with
  | Message.AcceptTx => _ ← set_state State.Idle; mret Response.Accepted
  | Message.RejectTx rejection => _ ← set_state State.Idle; mret (Response.Rejected rejection)
  | _ => throw TxsError.InvalidInbound
  end.

Definition submit_tx (tx : Tx) : method (Response.t Reject) :=
  _ ← send_submit_tx tx;
  recv_submit_tx_response.

Definition terminate_gracefully : method unit :=
  let msg := Message.Done in
  _ ← send_message msg;
  set_state State.Done.
End client.
End Client.

(** ** The server: the errors of its two assertions are exchanged in the code *)
Module Request.
Inductive t (Tx : Type) := Submit (tx : Tx) | Done.
#[global] Arguments Submit {Tx} _.
#[global] Arguments Done {Tx}.
End Request.

Module Server.
Section server.
Context {Tx Reject : Type} `{Encode (Message.t Tx Reject), Decode (Message.t Tx Reject)}.
Abbreviation method := (comp TxsError.t (State.t * ChannelBuffer)).

Definition new (channel : AgentChannel) : State.t * ChannelBuffer := (State.Idle, ChannelBuffer_new channel).

Definition has_agency (self : State.t) : bool :=
  match self with
  | State.Idle => false
  | State.Busy | State.Done => true
  end.

Definition assert_agency_is_ours : method unit := Agents.assert_agency_is_ours has_agency.
Definition assert_agency_is_theirs : method unit := Agents.assert_agency_is_theirs has_agency.

Definition assert_outbound_state (self : State.t) (msg : Message.t Tx Reject) : result TxsError.t unit :=
  match self, msg with
  | State.Busy, (Message.AcceptTx | Message.RejectTx _) => Ok ()
  | _, _ => Err TxsError.InvalidInbound
  end.

Definition assert_inbound_state (self : State.t) (msg : Message.t Tx Reject) : result TxsError.t unit :=
  match self, msg with
  | State.Idle, (Message.SubmitTx _ | Message.Done) => Ok ()
  | _, _ => Err TxsError.InvalidOutbound
  end.

Definition send_message (msg : Message.t Tx Reject) : method unit :=
  Agents.send_message has_agency assert_outbound_state msg.
Definition recv_message : method (Message.t Tx Reject) := Agents.recv_message has_agency assert_inbound_state.

Definition send_submit_tx_response (response : Response.t Reject) : method unit :=
  match response with
  | Response.Accepted =>
      let msg := Message.AcceptTx in
      _ ← send_message msg;
      set_state State.Idle
  | Response.Rejected reject =>
      let msg := Message.RejectTx reject in
      _ ← send_message msg;
      set_state State.Idle
  end.

Definition recv_next_request : method (Request.t Tx) :=
  msg ← recv_message;
  match msg with
  | Message.SubmitTx tx => _ ← set_state State.Busy; mret (Request.Submit tx)
  | Message.Done => _ ← set_state State.Done; mret Request.Done
  | _ => throw TxsError.InvalidInbound
  end.
End server.
End Server.

(** ** Both follow the protocol *)
#[export] Hint Unfold Client.assert_agency_is_ours Client.assert_agency_is_theirs Client.assert_outbound_state
  Client.assert_inbound_state Client.send_message Client.recv_message Client.send_submit_tx
  Client.recv_submit_tx_response Client.terminate_gracefully : agents.
#[export] Hint Unfold Server.assert_agency_is_ours Server.assert_agency_is_theirs Server.assert_outbound_state
  Server.assert_inbound_state Server.send_message Server.recv_message Server.send_submit_tx_response
  Server.recv_next_request : agents.

Section sides.
Context {Tx Reject : Type}.
Abbreviation M := (Message.t Tx Reject).
Context `{Encode M, Decode M, Valid M}.

Inductive client_call := SendSubmitTx (tx : Tx) | RecvSubmitTxResponse | TerminateGracefully.

#[refine] Definition client_side : Side (M := M) next (client_may next) (server_may next) TxsError.t := {|
  call := client_call;
  run c :=
    match c with
    | SendSubmitTx tx => Client.send_submit_tx (Reject := Reject) tx
    | RecvSubmitTxResponse => discard (Client.recv_submit_tx_response (Tx := Tx) (Reject := Reject))
    | TerminateGracefully => Client.terminate_gracefully (Tx := Tx) (Reject := Reject)
    end;
  action_of s c :=
    match s, c with
    | State.Idle, SendSubmitTx tx => Sends (Message.SubmitTx tx)
    | State.Idle, TerminateGracefully => Sends Message.Done
    | State.Busy, RecvSubmitTxResponse => Receives
    | State.Done, RecvSubmitTxResponse => Unsuited
    | _, _ => Refuses
    end
|}.
Proof. abstract solve_side. Defined.

Inductive server_call := SendAccepted | SendRejected (reject : Reject) | RecvNextRequest.

#[refine] Definition server_side : Side (M := M) next (server_may next) (client_may next) TxsError.t := {|
  call := server_call;
  run c :=
    match c with
    | SendAccepted => Server.send_submit_tx_response (Tx := Tx) (Reject := Reject) Response.Accepted
    | SendRejected reject => Server.send_submit_tx_response (Tx := Tx) (Response.Rejected reject)
    | RecvNextRequest => discard (Server.recv_next_request (Tx := Tx) (Reject := Reject))
    end;
  action_of s c :=
    match s, c with
    | State.Busy, SendAccepted => Sends Message.AcceptTx
    | State.Busy, SendRejected reject => Sends (Message.RejectTx reject)
    | State.Idle, RecvNextRequest => Receives
    | _, _ => Refuses
    end
|}.
Proof. abstract solve_side. Defined.
End sides.
