(* ===== verification/MiniLocalmsg.v ===== *)
(** * Messages of the decentralised message queue

    [pallas-network/src/miniprotocols/localmsgsubmission]: protocol.rs and codec.rs.
    Its client and server are those of [MiniLocaltxsubmission], with these messages
    and rejections. *)
From S2P Require Import Prelude Cbor Truncation Effects Protocol ProtocolProps.
From S2P Require Import Multiplexer Channels Agents MiniLocaltxsubmission.

Record DmqMsgPayload := { msg_body : bytes; kes_period : Z; expires_at : Z }.

Record DmqMsgOperationalCertificate := {
  kes_vk : bytes;
  issue_number : Z;
  start_kes_period : Z;
  cert_sig : bytes
}.

Record DmqMsg := {
  msg_id : bytes;
  msg_payload : DmqMsgPayload;
  kes_signature : bytes;
  operational_certificate : DmqMsgOperationalCertificate;
  cold_verification_key : bytes
}.

Module DmqMsgRejectReason.
Inductive t := Invalid (reason : bytes) | AlreadyReceived | Expired | Other (reason : bytes).
End DmqMsgRejectReason.

Record DmqMsgValidationError := { reject_reason : DmqMsgRejectReason.t }.

#[export] Instance DmqMsgValidationError_from : FromText DmqMsgValidationError := fun s =>
  {| reject_reason := DmqMsgRejectReason.Other s |}.

(** ** Codec *)
Section codec.
Context `{Minicbor}.

#[export] Instance DmqMsgPayload_encode : Encode DmqMsgPayload := fun x =>
  w_array 3 ⊕ w_bytes (msg_body x) ⊕ w_u64 (kes_period x) ⊕ w_u32 (expires_at x).
#[export] Instance DmqMsgPayload_decode : Decode DmqMsgPayload :=
  _ ← d_array;
  msg_body ← d_bytes;
  kes_period ← d_u64;
  expires_at ← d_u32;
  mret {| msg_body := msg_body; kes_period := kes_period; expires_at := expires_at |}.
#[export] Instance DmqMsgPayload_valid : Valid DmqMsgPayload := fun x =>
  fits_len (msg_body x) /\ in_u 64 (kes_period x) /\ in_u 32 (expires_at x).

Definition bytes_to_sign (self : DmqMsgPayload) : option bytes := to_vec self.

#[export] Instance OperationalCertificate_encode : Encode DmqMsgOperationalCertificate := fun x =>
  w_array 4 ⊕ w_bytes (kes_vk x) ⊕ w_u64 (issue_number x) ⊕ w_u64 (start_kes_period x) ⊕ w_bytes (cert_sig x).
#[export] Instance OperationalCertificate_decode : Decode DmqMsgOperationalCertificate :=
  _ ← d_array;
  kes_vk ← d_bytes;
  issue_number ← d_u64;
  start_kes_period ← d_u64;
  cert_sig ← d_bytes;
  mret {| kes_vk := kes_vk; issue_number := issue_number; start_kes_period := start_kes_period;
          cert_sig := cert_sig |}.
#[export] Instance OperationalCertificate_valid : Valid DmqMsgOperationalCertificate := fun x =>
  fits_len (kes_vk x) /\ in_u 64 (issue_number x) /\ in_u 64 (start_kes_period x) /\ fits_len (cert_sig x).

#[export] Instance DmqMsg_encode : Encode DmqMsg := fun x =>
  w_array 5 ⊕ w_bytes (msg_id x) ⊕ encode (msg_payload x) ⊕ w_bytes (kes_signature x) ⊕
  encode (operational_certificate x) ⊕ w_bytes (cold_verification_key x).
#[export] Instance DmqMsg_decode : Decode DmqMsg :=
  _ ← d_array;
  msg_id ← d_bytes;
  msg_payload ← decode;
  kes_signature ← d_bytes;
  operational_certificate ← decode;
  cold_verification_key ← d_bytes;
  mret {| msg_id := msg_id; msg_payload := msg_payload; kes_signature := kes_signature;
          operational_certificate := operational_certificate; cold_verification_key := cold_verification_key |}.
#[export] Instance DmqMsg_valid : Valid DmqMsg := fun x =>
  fits_len (msg_id x) /\ valid (msg_payload x) /\ fits_len (kes_signature x) /\
  valid (operational_certificate x) /\ fits_len (cold_verification_key x).

#[export] Instance RejectReason_encode : Encode DmqMsgRejectReason.t := fun x =>
  match x with
  | DmqMsgRejectReason.Invalid reason => w_array 2 ⊕ w_u8 0 ⊕ w_str reason
  | DmqMsgRejectReason.AlreadyReceived => w_array 1 ⊕ w_u8 1
  | DmqMsgRejectReason.Expired => w_array 1 ⊕ w_u8 2
  | DmqMsgRejectReason.Other reason => w_array 2 ⊕ w_u8 3 ⊕ w_str reason
  end.
#[export] Instance RejectReason_decode : Decode DmqMsgRejectReason.t :=
  len ← d_array;
  match len with
  | None => dec_fail (DecodeMessage "Could not decode DmqMsgRejectReason: expected definite length array")
  | Some expected_len =>
      if expected_len =? 0 then
        dec_fail (DecodeMessage "Could not decode DmqMsgRejectReason: empty array is not valid")
      else
        tag ← d_u8;
        match tag, expected_len with
        | 0, 2 => reason ← d_str; mret (DmqMsgRejectReason.Invalid reason)
        | 1, 1 => mret DmqMsgRejectReason.AlreadyReceived
        | 2, 1 => mret DmqMsgRejectReason.Expired
        | 3, 2 => reason ← d_str; mret (DmqMsgRejectReason.Other reason)
        | _, _ => dec_fail (DecodeMessage "Could not decode DmqMsgRejectReason: unknown tag")
        end
  end.
#[export] Instance RejectReason_valid : Valid DmqMsgRejectReason.t := fun x =>
  match x with
  | DmqMsgRejectReason.Invalid reason | DmqMsgRejectReason.Other reason => fits_len reason
  | _ => True
  end.

#[export] Instance DmqMsgValidationError_encode : Encode DmqMsgValidationError := fun x => encode (reject_reason x).
#[export] Instance DmqMsgValidationError_decode : Decode DmqMsgValidationError :=
  reason ← decode;
  mret {| reject_reason := reason |}.
#[export] Instance DmqMsgValidationError_valid : Valid DmqMsgValidationError := fun x => valid (reject_reason x).
End codec.

Section laws.
Context `{ML : MinicborLaws} `{!MinicborErrors M}.

#[export] Instance DmqMsgPayload_codec : Codec DmqMsgPayload.
Proof.
  split.
  - intros [b k e] (Hb & Hk & He). unfold_codec DmqMsgPayload_encode DmqMsgPayload_decode. solve_parses.
  - unfold decode; unfold DmqMsgPayload_decode. solve_stable.
Qed.

#[export] Instance DmqMsgPayload_error_stable : ErrorStable DmqMsgPayload.
Proof. unfold ErrorStable, decode; unfold DmqMsgPayload_decode. solve_robust. Qed.

#[export] Instance OperationalCertificate_codec : Codec DmqMsgOperationalCertificate.
Proof.
  split.
  - intros [v i s c] (Hv & Hi & Hs & Hc). unfold_codec OperationalCertificate_encode OperationalCertificate_decode.
    solve_parses.
  - unfold decode; unfold OperationalCertificate_decode. solve_stable.
Qed.

#[export] Instance OperationalCertificate_error_stable : ErrorStable DmqMsgOperationalCertificate.
Proof. unfold ErrorStable, decode; unfold OperationalCertificate_decode. solve_robust. Qed.

#[export] Instance DmqMsg_codec : Codec DmqMsg.
Proof.
  split.
  - intros [i p s o v] (Hi & Hp & Hs & Ho & Hv). unfold_codec DmqMsg_encode DmqMsg_decode. solve_parses.
  - unfold decode; unfold DmqMsg_decode. solve_stable.
Qed.

#[export] Instance DmqMsg_error_stable : ErrorStable DmqMsg.
Proof. unfold ErrorStable, decode; unfold DmqMsg_decode. solve_robust. Qed.

#[export] Instance RejectReason_codec : Codec DmqMsgRejectReason.t.
Proof.
  split.
  - intros r Hr. unfold_codec RejectReason_encode RejectReason_decode. destruct r; solve_parses.
  - unfold decode; unfold RejectReason_decode. solve_stable.
Qed.

#[export] Instance RejectReason_error_stable : ErrorStable DmqMsgRejectReason.t.
Proof. unfold ErrorStable, decode; unfold RejectReason_decode. solve_robust. Qed.

#[export] Instance DmqMsgValidationError_codec : Codec DmqMsgValidationError.
Proof.
  split.
  - intros [r] Hr. unfold_codec DmqMsgValidationError_encode DmqMsgValidationError_decode. solve_parses.
  - unfold decode; unfold DmqMsgValidationError_decode. solve_stable.
Qed.

#[export] Instance DmqMsgValidationError_error_stable : ErrorStable DmqMsgValidationError.
Proof. unfold ErrorStable, decode; unfold DmqMsgValidationError_decode. solve_robust. Qed.
End laws.

(** ** Local message notification of the first generation

    [pallas-network/src/miniprotocols/localmsgnotification]: protocol.rs, codec.rs,
    client.rs and server.rs. *)

Module MsgError.
Inductive t :=
| AgencyIsOurs | AgencyIsTheirs | InvalidInbound | InvalidOutbound | AlreadyInitialized | Plexer (e : Error.t).
End MsgError.

#[export] Instance MsgError_agent : AgentError MsgError.t := {|
  agency_is_ours := MsgError.AgencyIsOurs; agency_is_theirs := MsgError.AgencyIsTheirs;
  plexer_error := MsgError.Plexer |}.

Module State.
Inductive t := Idle | BusyBlocking | BusyNonBlocking | Done.
End State.

#[export] Instance State_eq_dec : EqDecision State.t.
Proof. solve_decision. Defined.

Module Message.
Inductive t :=
| RequestMessagesNonBlocking
| ReplyMessagesNonBlocking (msgs : list DmqMsg) (has_more : bool)
| RequestMessagesBlocking
| ReplyMessagesBlocking (msgs : list DmqMsg)
| ClientDone.
End Message.

(** ** Codec: a blocking reply announces three items and has two *)
Section codec.
Context `{Minicbor}.

#[export] Instance Message_encode : Encode Message.t := fun m =>
  match m with
  | Message.RequestMessagesNonBlocking => w_array 2 ⊕ w_u16 0 ⊕ w_bool false
  | Message.ReplyMessagesNonBlocking msgs has_more =>
      w_array 3 ⊕ w_u16 1 ⊕ (w_begin_array ⊕ enc_all (encode <$> msgs) ⊕ w_end) ⊕ w_bool has_more
  | Message.RequestMessagesBlocking => w_array 2 ⊕ w_u16 0 ⊕ w_bool true
  | Message.ReplyMessagesBlocking msgs =>
      w_array 3 ⊕ w_u16 2 ⊕ w_begin_array ⊕ enc_all (encode <$> msgs) ⊕ w_end
  | Message.ClientDone => w_array 1 ⊕ w_u16 3
  end.

#[export] Instance Message_decode : Decode Message.t :=
  _ ← d_array;
  label ← d_u16;
  match label with
  | 0 =>
      is_blocking ← d_bool;
      match is_blocking with
      | true => mret Message.RequestMessagesBlocking
      | false => mret Message.RequestMessagesNonBlocking
      end
  | 1 =>
      msgs ← d_seq decode;
      has_more ← d_bool;
      mret (Message.ReplyMessagesNonBlocking msgs has_more)
  | 2 => msgs ← d_seq decode; mret (Message.ReplyMessagesBlocking msgs)
  | 3 => mret Message.ClientDone
  | _ => dec_fail (DecodeMessage "unknown variant for localmsgsubmission message")
  end.

#[export] Instance Message_valid : Valid Message.t := fun m =>
  match m with
  | Message.ReplyMessagesNonBlocking msgs _ | Message.ReplyMessagesBlocking msgs => Forall valid msgs
  | _ => True
  end.
End codec.

Section laws.
Context `{ML : MinicborLaws} `{!MinicborErrors M}.

#[export] Instance Message_codec : Codec Message.t.
Proof.
  split.
  - intros m Hm. unfold_codec Message_encode Message_decode.
    destruct m; unfold valid in Hm; cbn in Hm; solve_parses.
  - unfold decode; unfold Message_decode. solve_stable.
Qed.

#[export] Instance Message_fragment : Fragment Message.t.
Proof. solve_fragment Message_decode. Qed.
End laws.

(** ** The abstract protocol

    A client that does not end it: no call of the server waits for a request and for
    the end. *)
Definition next (s : State.t) (m : Message.t) : result Protocol.Error State.t :=
  match s, m with
  | State.Idle, Message.RequestMessagesNonBlocking => Ok State.BusyNonBlocking
  | State.Idle, Message.RequestMessagesBlocking => Ok State.BusyBlocking
  | State.Idle, Message.ClientDone => Ok State.Done
  | State.BusyNonBlocking, Message.ReplyMessagesNonBlocking _ _ => Ok State.Idle
  | State.BusyBlocking, Message.ReplyMessagesBlocking _ => Ok State.Idle
  | _, _ => Err Protocol.InvalidInbound
  end.

#[export, refine] Instance agency : Agency next := {
  client_may s m := match s, m with State.Idle, Message.ClientDone => false | State.Idle, _ => true | _, _ => false end;
  server_may s _ := match s with State.BusyBlocking | State.BusyNonBlocking => true | _ => false end
}.
Proof. by intros [] []. Defined.

(** ** The client *)
Record Reply := { reply_msgs : list DmqMsg; reply_has_more : bool }.

Module Client.
Section client.
Context `{Minicbor}.
Abbreviation method := (comp MsgError.t (State.t * ChannelBuffer)).

Definition new (channel : AgentChannel) : State.t * ChannelBuffer := (State.Idle, ChannelBuffer_new channel).
Definition is_done (self : State.t) : bool := bool_decide (self = State.Done).

Definition has_agency (self : State.t) : bool :=
  match self with State.Idle => true | _ => false end.

Definition assert_agency_is_ours : method unit := Agents.assert_agency_is_ours has_agency.
Definition assert_agency_is_theirs : method unit := Agents.assert_agency_is_theirs has_agency.

Definition assert_outbound_state (self : State.t) (msg : Message.t) : result MsgError.t unit :=
  match self, msg with
  | State.Idle, Message.RequestMessagesNonBlocking => Ok ()
  | State.Idle, Message.RequestMessagesBlocking => Ok ()
  | State.Idle, Message.ClientDone => Ok ()
  | _, _ => Err MsgError.InvalidOutbound
  end.

Definition assert_inbound_state (self : State.t) (msg : Message.t) : result MsgError.t unit :=
  match self, msg with
  | State.BusyNonBlocking, Message.ReplyMessagesNonBlocking _ _ => Ok ()
  | State.BusyBlocking, Message.ReplyMessagesBlocking _ => Ok ()
  | _, _ => Err MsgError.InvalidInbound
  end.

Definition send_message (msg : Message.t) : method unit :=
  Agents.send_message has_agency assert_outbound_state msg.
Definition recv_message : method Message.t := Agents.recv_message has_agency assert_inbound_state.

Definition send_request_messages_non_blocking : method unit :=
  let msg := Message.RequestMessagesNonBlocking in
  _ ← send_message msg;
  set_state State.BusyNonBlocking.

Definition send_request_messages_blocking : method unit :=
  let msg := Message.RequestMessagesBlocking in
  _ ← send_message msg;
  set_state State.BusyBlocking.

Definition recv_next_reply : method Reply :=
  msg ← recv_message;
  match msg with
  | Message.ReplyMessagesNonBlocking msgs has_more =>
      _ ← set_state State.Idle;
      mret {| reply_msgs := msgs; reply_has_more := has_more |}
  | Message.ReplyMessagesBlocking msgs =>
      _ ← set_state State.Idle;
      mret {| reply_msgs := msgs; reply_has_more := false |}
  | _ => throw MsgError.InvalidInbound
  end.

Definition send_done : method unit :=
  let msg := Message.ClientDone in
  _ ← send_message msg;
  set_state State.Done.
End client.
End Client.

(** ** The server: the errors of its two assertions are exchanged in the code *)
Module Request.
Inductive t := NonBlocking | Blocking.
End Request.

Module Server.
Section server.
Context `{Minicbor}.
Abbreviation method := (comp MsgError.t (State.t * ChannelBuffer)).

Definition new (channel : AgentChannel) : State.t * ChannelBuffer := (State.Idle, ChannelBuffer_new channel).
Definition is_done (self : State.t) : bool := bool_decide (self = State.Done).

Definition has_agency (self : State.t) : bool :=
  negb (match self with State.Idle => true | _ => false end).

Definition assert_agency_is_ours : method unit := Agents.assert_agency_is_ours has_agency.
Definition assert_agency_is_theirs : method unit := Agents.assert_agency_is_theirs has_agency.

Definition assert_outbound_state (self : State.t) (msg : Message.t) : result MsgError.t unit :=
  match self, msg with
  | State.BusyNonBlocking, Message.ReplyMessagesNonBlocking _ _ => Ok ()
  | State.BusyBlocking, Message.ReplyMessagesBlocking _ => Ok ()
  | _, _ => Err MsgError.InvalidInbound
  end.

Definition assert_inbound_state (self : State.t) (msg : Message.t) : result MsgError.t unit :=
  match self, msg with
  | State.Idle, Message.RequestMessagesNonBlocking => Ok ()
  | State.Idle, Message.RequestMessagesBlocking => Ok ()
  | State.Idle, Message.ClientDone => Ok ()
  | _, _ => Err MsgError.InvalidOutbound
  end.

Definition send_message (msg : Message.t) : method unit :=
  Agents.send_message has_agency assert_outbound_state msg.
Definition recv_message : method Message.t := Agents.recv_message has_agency assert_inbound_state.

Definition send_reply_messages_non_blocking (msgs : list DmqMsg) (has_more : bool) : method unit :=
  let msg := Message.ReplyMessagesNonBlocking msgs has_more in
  _ ← send_message msg;
  set_state State.Idle.

Definition send_reply_messages_blocking (msgs : list DmqMsg) : method unit :=
  let msg := Message.ReplyMessagesBlocking msgs in
  _ ← send_message msg;
  set_state State.Idle.

Definition recv_next_request : method Request.t :=
  msg ← recv_message;
  match msg with
  | Message.RequestMessagesNonBlocking => _ ← set_state State.BusyNonBlocking; mret Request.NonBlocking
  | Message.RequestMessagesBlocking => _ ← set_state State.BusyBlocking; mret Request.Blocking
  | _ => throw MsgError.InvalidInbound
  end.

Definition recv_done : method unit :=
  msg ← recv_message;
  match msg with
  | Message.ClientDone => set_state State.Done
  | _ => throw MsgError.InvalidInbound
  end.
End server.
End Server.

(** ** Both follow the protocol *)
#[export] Hint Unfold Client.assert_agency_is_ours Client.assert_agency_is_theirs Client.assert_outbound_state
  Client.assert_inbound_state Client.send_message Client.recv_message Client.send_request_messages_non_blocking
  Client.send_request_messages_blocking Client.recv_next_reply Client.send_done : agents.
#[export] Hint Unfold Server.assert_agency_is_ours Server.assert_agency_is_theirs Server.assert_outbound_state
  Server.assert_inbound_state Server.send_message Server.recv_message Server.send_reply_messages_non_blocking
  Server.send_reply_messages_blocking Server.recv_next_request Server.recv_done : agents.

Section sides.
Context `{Minicbor}.

Inductive client_call := SendRequestNonBlocking | SendRequestBlocking | RecvNextReply | SendDone.

#[refine] Definition client_side : Side next (client_may next) (server_may next) MsgError.t := {|
  call := client_call;
  run c :=
    match c with
    | SendRequestNonBlocking => Client.send_request_messages_non_blocking
    | SendRequestBlocking => Client.send_request_messages_blocking
    | RecvNextReply => discard Client.recv_next_reply
    | SendDone => Client.send_done
    end;
  action_of s c :=
    match s, c with
    | State.Idle, SendRequestNonBlocking => Sends Message.RequestMessagesNonBlocking
    | State.Idle, SendRequestBlocking => Sends Message.RequestMessagesBlocking
    | State.Idle, SendDone => Unsuited
    | (State.BusyBlocking | State.BusyNonBlocking), RecvNextReply => Receives
    | State.Done, RecvNextReply => Unsuited
    | _, _ => Refuses
    end
|}.
Proof. abstract solve_side. Defined.

Inductive server_call :=
| SendReplyNonBlocking (msgs : list DmqMsg) (has_more : bool)
| SendReplyBlocking (msgs : list DmqMsg)
| RecvNextRequest
| RecvDone.

#[refine] Definition server_side : Side next (server_may next) (client_may next) MsgError.t := {|
  call := server_call;
  run c :=
    match c with
    | SendReplyNonBlocking msgs has_more => Server.send_reply_messages_non_blocking msgs has_more
    | SendReplyBlocking msgs => Server.send_reply_messages_blocking msgs
    | RecvNextRequest => discard Server.recv_next_request
    | RecvDone => Server.recv_done
    end;
  action_of s c :=
    match s, c with
    | State.BusyNonBlocking, SendReplyNonBlocking msgs has_more => Sends (Message.ReplyMessagesNonBlocking msgs has_more)
    | State.BusyBlocking, SendReplyBlocking msgs => Sends (Message.ReplyMessagesBlocking msgs)
    | State.Idle, RecvNextRequest => Receives
    | State.Idle, RecvDone => Unsuited
    | _, _ => Refuses
    end
|}.
Proof. abstract solve_side. Defined.
End sides.
