(* ===== verification/MiniTxmonitor.v ===== *)
(** * Mempool monitor of the first generation

    [pallas-network/src/miniprotocols/txmonitor]: protocol.rs, codec.rs and client.rs;
    there is no server.  A reply to [RequestNextTx] does not say where it ends: how it
    is read depends on what has arrived behind its label. *)
From S2P Require Import Prelude Cbor Truncation Effects Protocol ProtocolProps.
From S2P Require Import Multiplexer Channels Agents.

Module MonError.
Inductive t := AgencyIsOurs | AgencyIsTheirs | InvalidInbound | InvalidOutbound | Plexer (e : Error.t).
End MonError.

#[export] Instance MonError_agent : AgentError MonError.t := {|
  agency_is_ours := MonError.AgencyIsOurs; agency_is_theirs := MonError.AgencyIsTheirs;
  plexer_error := MonError.Plexer |}.

Definition Slot : Type := Z.
Definition TxId : Type := bytes.
Definition TxBody : Type := bytes.
(** [(Era, TagWrap<TxBody, 24>)] *)
Definition Tx : Type := Z * TxBody.

Module State.
Inductive t := Idle | Acquiring | Acquired | Busy | Done.
End State.

#[export] Instance State_eq_dec : EqDecision State.t.
Proof. solve_decision. Defined.

Record MempoolSizeAndCapacity := { capacity_in_bytes : Z; size_in_bytes : Z; number_of_txs : Z }.

Module Message.
Inductive t :=
| Acquire
| AwaitAcquire
| Acquired (slot : Slot)
| RequestHasTx (id : TxId)
| RequestNextTx
| RequestSizeAndCapacity
| ResponseHasTx (has : bool)
| ResponseNextTx (tx : option Tx)
| ResponseSizeAndCapacity (sz : MempoolSizeAndCapacity)
| Release
| Done.
End Message.

(** ** Codec *)
Section codec.
Context `{Minicbor}.

(** [TagWrap] writes its tag and reads any. *)
Definition encode_tx (tx : Tx) : enc := w_array 2 ⊕ w_u8 tx.1 ⊕ w_tag 24 ⊕ w_bytes tx.2.
Definition decode_tx : dec Tx := d_tuple2 d_u8 (_ ← d_tag; d_bytes).
Definition tx_valid (tx : Tx) : Prop := in_u 8 tx.1 /\ fits_len tx.2.

#[export] Instance Message_encode : Encode Message.t := fun m =>
  match m with
  | Message.Done => w_array 1 ⊕ w_u16 0
  | Message.Acquire => w_array 1 ⊕ w_u16 1
  | Message.Acquired slot => w_array 2 ⊕ w_u16 2 ⊕ w_u64 slot
  | Message.Release => w_array 1 ⊕ w_u16 3
  | Message.AwaitAcquire => w_array 1 ⊕ w_u16 4
  | Message.RequestNextTx => w_array 1 ⊕ w_u16 5
  | Message.ResponseNextTx None => w_array 1 ⊕ w_u16 6
  | Message.ResponseNextTx (Some tx) => w_array 2 ⊕ w_u16 6 ⊕ encode_tx tx
  | Message.RequestHasTx tx => w_array 2 ⊕ w_u16 7 ⊕ w_str tx
  | Message.ResponseHasTx tx => w_array 2 ⊕ w_u16 8 ⊕ w_bool tx
  | Message.RequestSizeAndCapacity => w_array 1 ⊕ w_u16 9
  | Message.ResponseSizeAndCapacity sz =>
      w_array 2 ⊕ w_u16 10 ⊕ w_array 3 ⊕ w_u32 (capacity_in_bytes sz) ⊕ w_u32 (size_in_bytes sz) ⊕
      w_u32 (number_of_txs sz)
  end.

(** After label 6: only an array is looked at, and an error is no error. *)
Definition decode_next_tx : dec Message.t := fun b =>
  match d_datatype b with
  | Ok (TArray, r) | Ok (TArrayIndef, r) => (tx ← decode_tx; mret (Message.ResponseNextTx (Some tx))) r
  | Ok (_, r) => Ok (Message.ResponseNextTx None, r)
  | Err _ => Ok (Message.ResponseNextTx None, b)
  end.

#[export] Instance Message_decode : Decode Message.t :=
  _ ← d_array;
  label ← d_u16;
  match label with
  | 0 => mret Message.Done
  | 1 => mret Message.Acquire
  | 2 => slot ← d_u64; mret (Message.Acquired slot)
  | 3 => mret Message.Release
  | 4 => mret Message.AwaitAcquire
  | 5 => mret Message.RequestNextTx
  | 6 => decode_next_tx
  | 7 => id ← d_str; mret (Message.RequestHasTx id)
  | 8 => has ← d_bool; mret (Message.ResponseHasTx has)
  | 9 => mret Message.RequestSizeAndCapacity
  | 10 =>
      _ ← d_array;
      capacity_in_bytes ← d_u32;
      size_in_bytes ← d_u32;
      number_of_txs ← d_u32;
      mret (Message.ResponseSizeAndCapacity {| capacity_in_bytes := capacity_in_bytes;
        size_in_bytes := size_in_bytes; number_of_txs := number_of_txs |})
  | _ => dec_fail (DecodeMessage "can't decode Message")
  end.

#[export] Instance Message_valid : Valid Message.t := fun m =>
  match m with
  | Message.Acquired slot => in_u 64 slot
  | Message.RequestHasTx id => fits_len id
  | Message.ResponseNextTx (Some tx) => tx_valid tx
  | Message.ResponseSizeAndCapacity sz =>
      in_u 32 (capacity_in_bytes sz) /\ in_u 32 (size_in_bytes sz) /\ in_u 32 (number_of_txs sz)
  | _ => True
  end.
End codec.

Section laws.
Context `{ML : MinicborLaws} `{!MinicborErrors M}.

Lemma tx_parses tx : tx_valid tx -> Parses decode_tx (encode_tx tx) tx.
Proof. destruct tx as [era body]. intros [He Hb]. apply tuple2_parses; [eauto with codec|solve_parses]. Qed.

Lemma tx_head tx b : encode_tx tx = Some b -> exists n r, in_u 64 n /\ b = e_array n ++ r.
Proof. apply enc_array_head. unfold in_u. lia. Qed.

(** A reply goes on as its label does. *)
Lemma decode_reply n v : in_u 64 n -> decode (e_array n ++ e_u16 6 ++ v) = decode_next_tx v.
Proof.
  intros Hn. unfold decode, Message_decode, mbind, dec_bind.
  rewrite (array_parses n Hn _ _ eq_refl). by rewrite (u16_parses 6 ltac:(unfold in_u; lia) _ _ eq_refl).
Qed.

Lemma next_tx_some tx : tx_valid tx -> Parses decode_next_tx (encode_tx tx) (Message.ResponseNextTx (Some tx)).
Proof.
  intros Hv b rest Hb. destruct (tx_head tx b Hb) as (n & r & Hn & Hr). unfold decode_next_tx.
  rewrite Hr, <- app_assoc, (datatype_array n _ Hn), app_assoc, <- Hr. unfold mbind, dec_bind.
  by rewrite (tx_parses tx Hv b rest Hb).
Qed.

(** The label alone is a reply already. *)
Lemma label_alone n : in_u 64 n -> decode (e_array n ++ e_u16 6) = Ok (Message.ResponseNextTx None, []).
Proof.
  intros Hn. rewrite <- (app_nil_r (e_u16 6)), decode_reply by done. unfold decode_next_tx. by rewrite datatype_empty.
Qed.

(** Every message is read as it was written; a reply without a transaction only when
    nothing follows. *)
Lemma message_reads m w rest :
  valid m -> encode m = Some w -> (m = Message.ResponseNextTx None -> rest = []) ->
  decode (w ++ rest) = Ok (m, rest).
Proof.
  intros Hv Hw Hrest. assert ((exists tx, m = Message.ResponseNextTx tx) \/ forall tx, m <> Message.ResponseNextTx tx)
    as [[[tx|] ->]|Hne] by (destruct m; eauto).
  - unfold encode, Message_encode in Hw. apply enc_app_Some in Hw as (x & y & [= <-] & Hy & ->). apply enc_app_Some in Hy as (x & v & [= <-] & Hv' & ->).
    rewrite <- !app_assoc, decode_reply by (unfold in_u; lia). by apply next_tx_some.
  - rewrite (Hrest eq_refl), app_nil_r. injection Hw as <-. apply label_alone. unfold in_u. lia.
  - clear Hrest. revert w rest Hw. change (Parses decode (encode m) m).
    unfold_codec Message_encode Message_decode. unfold valid, Message_valid in Hv.
    destruct m as [| | | | | | |tx|[]| |]; try (by destruct (Hne tx)); cbn in Hv; destruct_and?; solve_parses.
Qed.
End laws.

(** ** The client *)
Module Client.
Section client.
Context `{Minicbor}.
Abbreviation method := (comp MonError.t (State.t * ChannelBuffer)).

Definition new (channel : AgentChannel) : State.t * ChannelBuffer := (State.Idle, ChannelBuffer_new channel).
Definition is_done (self : State.t) : bool := bool_decide (self = State.Done).

Definition has_agency (self : State.t) : bool :=
  match self with
  | State.Idle => true
  | State.Acquiring => false
  | State.Acquired => true
  | State.Busy => false
  | State.Done => false
  end.

Definition assert_agency_is_ours : method unit := Agents.assert_agency_is_ours has_agency.
Definition assert_agency_is_theirs : method unit := Agents.assert_agency_is_theirs has_agency.

Definition assert_outbound_state (self : State.t) (msg : Message.t) : result MonError.t unit :=
  match self, msg with
  | State.Idle, Message.Acquire => Ok ()
  | State.Idle, Message.Done => Ok ()
  | State.Acquired, Message.Acquire => Ok ()
  | State.Acquired, Message.RequestHasTx _ => Ok ()
  | State.Acquired, Message.RequestNextTx => Ok ()
  | State.Acquired, Message.RequestSizeAndCapacity => Ok ()
  | _, _ => Err MonError.InvalidOutbound
  end.

Definition assert_inbound_state (self : State.t) (msg : Message.t) : result MonError.t unit :=
  match self, msg with
  | State.Acquiring, Message.Acquired _ => Ok ()
  | State.Busy, Message.ResponseHasTx _ => Ok ()
  | State.Busy, Message.ResponseNextTx _ => Ok ()
  | State.Busy, Message.ResponseSizeAndCapacity _ => Ok ()
  | _, _ => Err MonError.InvalidInbound
  end.

Definition send_message (msg : Message.t) : method unit :=
  Agents.send_message has_agency assert_outbound_state msg.
Definition recv_message : method Message.t := Agents.recv_message has_agency assert_inbound_state.

Definition send_acquire : method unit :=
  let msg := Message.Acquire in
  _ ← send_message msg;
  set_state State.Acquiring.

Definition recv_while_acquiring : method Slot :=
  msg ← recv_message;
  match msg with
  | Message.Acquired slot => _ ← set_state State.Acquired; mret slot
  | _ => throw MonError.InvalidInbound
  end.

Definition acquire : method Slot :=
  _ ← send_acquire;
  recv_while_acquiring.

Definition send_request_has_tx (id : TxId) : method unit :=
  let msg := Message.RequestHasTx id in
  _ ← send_message msg;
  set_state State.Busy.

Definition recv_while_requesting_has_tx : method bool :=
  msg ← recv_message;
  match msg with
  | Message.ResponseHasTx x => _ ← set_state State.Acquired; mret x
  | _ => throw MonError.InvalidInbound
  end.

Definition query_has_tx (id : TxId) : method bool :=
  _ ← send_request_has_tx id;
  recv_while_requesting_has_tx.

Definition send_request_next_tx : method unit :=
  let msg := Message.RequestNextTx in
  _ ← send_message msg;
  set_state State.Busy.

Definition recv_while_requesting_next_tx : method (option Tx) :=
  msg ← recv_message;
  match msg with
  | Message.ResponseNextTx x => _ ← set_state State.Acquired; mret x
  | _ => throw MonError.InvalidInbound
  end.

Definition query_next_tx : method (option Tx) :=
  _ ← send_request_next_tx;
  recv_while_requesting_next_tx.

Definition send_request_size_and_capacity : method unit :=
  let msg := Message.RequestSizeAndCapacity in
  _ ← send_message msg;
  set_state State.Busy.

Definition recv_while_requesting_size_and_capacity : method MempoolSizeAndCapacity :=
  msg ← recv_message;
  match msg with
  | Message.ResponseSizeAndCapacity x => _ ← set_state State.Acquired; mret x
  | _ => throw MonError.InvalidInbound
  end.

Definition query_size_and_capacity : method MempoolSizeAndCapacity :=
  _ ← send_request_size_and_capacity;
  recv_while_requesting_size_and_capacity.

Definition release : method unit :=
  let msg := Message.Release in
  _ ← send_message msg;
  set_state State.Idle.
End client.
End Client.

#[export] Hint Unfold Client.assert_agency_is_ours Client.assert_agency_is_theirs Client.send_message
  Client.recv_message Client.release Client.recv_while_requesting_next_tx : agents.
