(* ===== verification/RollbackBuffer.v ===== *)
(** * Buffer for chain rollbacks

    [pallas-network/src/miniprotocols/chainsync/buffer.rs]: points stay in memory until
    they are deep enough, and a rollback drops the ones it orphans. *)
From S2P Require Import Prelude Cbor Truncation MiniCommon.

Record RollbackBuffer := { points : list Point.t }.

Module RollbackEffect.
Inductive t := Handled | OutOfScope.
End RollbackEffect.

Definition new : RollbackBuffer := {| points := [] |}.

Definition roll_forward (point : Point.t) (self : RollbackBuffer) : RollbackBuffer :=
  {| points := points self ++ [point] |}.

(** [checked_sub], then [drain(0..ready)]. *)
Definition pop_with_depth (min_depth : nat) (self : RollbackBuffer) : list Point.t * RollbackBuffer :=
  if (min_depth <=? length (points self))%nat then
    let ready := (length (points self) - min_depth)%nat in
    (take ready (points self), {| points := drop ready (points self) |})
  else ([], self).

Definition position (point : Point.t) (self : RollbackBuffer) : option nat :=
  fst <$> list_find (fun p => p = point) (points self).

Definition peek (self : RollbackBuffer) : list Point.t := points self.
Definition size (self : RollbackBuffer) : nat := length (points self).
Definition latest (self : RollbackBuffer) : option Point.t := last (points self).
Definition oldest (self : RollbackBuffer) : option Point.t := head (points self).

Definition roll_back (point : Point.t) (self : RollbackBuffer) : RollbackEffect.t * RollbackBuffer :=
  match position point self with
  | Some x => (RollbackEffect.Handled, {| points := take (x + 1) (points self) |})
  | None => (RollbackEffect.OutOfScope, {| points := [] |})
  end.

(** ** What it keeps: the newest part of the chain that was followed

    The chain of a peer, as chain-sync announces it, without a buffer: points are
    appended, and a rollback cuts it after the point it names. *)
Inductive event := Forward (point : Point.t) | Back (point : Point.t) | Pop (min_depth : nat).

(** The chain after a rollback: up to the first occurrence of the point. *)
Fixpoint cut (point : Point.t) (chain : list Point.t) : option (list Point.t) :=
  match chain with
  | [] => None
  | p :: chain => if decide (p = point) then Some [p] else cons p <$> cut point chain
  end.

(** One event at the buffer: what it hands out, and whether it kept up. *)
Definition feed (e : event) (self : RollbackBuffer) : list Point.t * bool * RollbackBuffer :=
  match e with
  | Forward point => ([], true, roll_forward point self)
  | Back point =>
      match roll_back point self with
      | (RollbackEffect.Handled, b) => ([], true, b)
      | (RollbackEffect.OutOfScope, b) => ([], false, b)
      end
  | Pop min_depth => let '(ready, b) := pop_with_depth min_depth self in (ready, true, b)
  end.

(** All events: the points handed out, in order; [None] when a rollback was out of
    scope. *)
Fixpoint feed_all (es : list event) (self : RollbackBuffer) : option (list Point.t * RollbackBuffer) :=
  match es with
  | [] => Some ([], self)
  | e :: es =>
      let '(ready, ok, b) := feed e self in
      if ok then
        '(later, b) ← feed_all es b;
        Some (ready ++ later, b)
      else None
  end.

(** The chain after the events. *)
Fixpoint followed (es : list event) (chain : list Point.t) : list Point.t :=
  match es with
  | [] => chain
  | Forward point :: es => followed es (chain ++ [point])
  | Back point :: es => followed es (default [] (cut point chain))
  | Pop _ :: es => followed es chain
  end.

Lemma position_cut p l :
  match fst <$> list_find (fun q => q = p) l with
  | Some x => cut p l = Some (take (x + 1) l)
  | None => cut p l = None
  end.
Proof.
  induction l as [|q l IH]; [done|]. cbn. destruct (decide (q = p)) as [->|Hq]; cbn; [done|].
  destruct (list_find (fun q => q = p) l) as [[x y]|]; cbn in *; by rewrite IH.
Qed.

Lemma cut_app p l l' c : p ∉ l -> cut p l' = Some c -> cut p (l ++ l') = Some (l ++ c).
Proof.
  intros Hp Hc. induction l as [|q l IH]; [done|]. apply not_elem_of_cons in Hp as [Hq Hp]. cbn.
  rewrite decide_False by done. by rewrite IH.
Qed.

Lemma cut_elem p l c : cut p l = Some c -> p ∈ l /\ exists l', l = c ++ l'.
Proof.
  revert c; induction l as [|q l IH]; intros c; [done|]. cbn. destruct (decide (q = p)) as [->|Hq].
  - intros [= <-]. split; [left|by exists l].
  - destruct (cut p l) as [c'|]; [|done]. intros [= <-]. destruct (IH c' eq_refl) as [Hp [l' ->]].
    split; [by right|by exists l'].
Qed.

(** No point of the chain repeats. *)
Fixpoint fresh_points (es : list event) (chain : list Point.t) : Prop :=
  match es with
  | [] => True
  | Forward point :: es => point ∉ chain /\ fresh_points es (chain ++ [point])
  | Back point :: es => fresh_points es (default [] (cut point chain))
  | Pop _ :: es => fresh_points es chain
  end.

Lemma feed_refines e out b ready b' :
  NoDup (out ++ points b) -> feed e b = (ready, true, b') ->
  (forall p, e = Forward p -> p ∉ out ++ points b) ->
  (out ++ ready) ++ points b' = followed [e] (out ++ points b) /\ NoDup ((out ++ ready) ++ points b').
Proof.
  intros Hn Hf Hp. destruct e as [p|p|d]; cbn in Hf.
  - injection Hf as <- <-. cbn. rewrite app_nil_r, app_assoc. split; [done|].
    apply NoDup_app. split_and!; [done| |apply NoDup_singleton].
    intros x Hx ->%list_elem_of_singleton. by apply (Hp p).
  - unfold roll_back, position in Hf. pose proof (position_cut p (points b)) as Hc.
    destruct (fst <$> list_find (fun q => q = p) (points b)) as [x|]; [|done].
    injection Hf as <- <-. cbn [followed points]. destruct (cut_elem _ _ _ Hc) as [Hin [l' Hl]].
    rewrite app_nil_r. apply NoDup_app in Hn as (Ho & Hd & Hn').
    rewrite (cut_app p out (points b) _ (fun Hpo => Hd p Hpo Hin) Hc). cbn. split; [done|].
    rewrite Hl in Hd, Hn'. apply NoDup_app in Hn' as (Hn' & _ & _).
    apply NoDup_app. split_and!; [done| |done]. intros y Hy Hy'. apply (Hd y Hy), elem_of_app. by left.
  - unfold pop_with_depth in Hf. cbn. destruct (_ <=? _)%nat; injection Hf as <- <-.
    + cbn. by rewrite <- app_assoc, take_drop.
    + by rewrite app_nil_r.
Qed.

Lemma feed_all_refines es out b later b' :
  NoDup (out ++ points b) -> fresh_points es (out ++ points b) -> feed_all es b = Some (later, b') ->
  (out ++ later) ++ points b' = followed es (out ++ points b).
Proof.
  revert out b later b'; induction es as [|e es IH]; intros out b later b' Hn Hfr; cbn [feed_all].
  - intros [= <- <-]. by rewrite app_nil_r.
  - destruct (feed e b) as [[ready ok] b1] eqn:Hf. destruct ok; [|done].
    destruct (feed_all es b1) as [[later' b2]|] eqn:Hfa; [|done]. intros [= <- <-].
    destruct (feed_refines e out b ready b1 Hn Hf) as [He Hn1]; [intros p ->; by destruct Hfr|].
    rewrite app_assoc, (IH (out ++ ready) b1 later' b2 Hn1); [|rewrite He; destruct e; [by destruct Hfr|done..]|done].
    rewrite He. by destruct e.
Qed.

(** C22: (refinement) while no rollback is out of scope, the points handed out followed by those kept are the
    chain the peer announced: [roll_back] drops exactly the orphaned points, and
    [pop_with_depth] hands out the oldest ones in order, each once, and leaves the
    newest [min_depth] of those there are. *)
Theorem buffer_follows_chain es out b :
  fresh_points es [] -> feed_all es new = Some (out, b) ->
  out ++ points b = followed es [] /\
  forall min_depth, let '(ready, b') := pop_with_depth min_depth b in
    ready ++ points b' = points b /\ size b' = Nat.min min_depth (size b).
Proof.
  intros Hfr Hf. split; [exact (feed_all_refines es [] new out b (NoDup_nil_2) Hfr Hf)|].
  intros d. unfold pop_with_depth, size. destruct (Nat.leb_spec d (length (points b))); cbn.
  - rewrite take_drop, length_drop. split; [done|lia].
  - split; [done|lia].
Qed.

(** A point is handed out, and the chain goes back to one that is kept. *)
Lemma buffer_follows_chain_witness :
  let p i := Point.new i [i] in
  exists b, feed_all [Forward (p 1); Forward (p 2); Forward (p 3); Pop 2; Forward (p 4); Back (p 3); Forward (p 5)] new
      = Some ([p 1], b) /\
    [p 1] ++ points b = [p 1; p 2; p 3; p 5].
Proof.
  intros p. eexists. split; [vm_compute; reflexivity|].
  refine (proj1 (buffer_follows_chain [Forward (p 1); Forward (p 2); Forward (p 3); Pop 2; Forward (p 4); Back (p 3);
    Forward (p 5)] _ _ _ _)); [|vm_compute; reflexivity].
  vm_compute. repeat split; intros H; repeat (apply elem_of_cons in H as [H|H]; [discriminate|]); by apply elem_of_nil in H.
Defined.
