(* ===== verification/AgentProps.v ===== *)
(** * Properties of the first generation

    Sessions of a client and a server of every mini-protocol, transfers of block
    ranges, the outcome of a handshake, and what two agents cannot do. *)
From S2P Require Import Prelude Cbor Rfc8949 Truncation Effects Protocol ProtocolProps.
From S2P Require Import Multiplexer Channels Agents MiniCommon MiniChainsync.
From S2P Require Import MiniBlockfetch MiniKeepalive MiniPeersharing MiniTxsubmission.
From S2P Require Import MiniHandshake MiniLocalstate MiniLocaltxsubmission.
From S2P Require Import MiniLocalmsg MiniTxmonitor.

(** ** Sessions *)



(** ** Block ranges *)
Section ranges.
Context `{ML : MinicborLaws} `{!MinicborErrors M}.
Import MiniBlockfetch.

(** The messages that answer a request. *)
Definition reply_to_range (blocks : list Body) : list Message.t :=
  match blocks with
  | [] => [Message.NoBlocks]
  | _ => Message.StartBatch :: (Message.Block <$> blocks) ++ [Message.BatchDone]
  end.

Definition sent_bytes (b : ChannelBuffer) : bytes := concat (snd <$> outbound b).

Lemma encodes (m : Message.t) : is_Some (encode m).
Proof. unfold encode, Message_encode. destruct m as [[[] []]| | | | |]; eexists; reflexivity. Qed.

Lemma sent_with cs b : sent_bytes (with_sent cs b) = sent_bytes b ++ concat cs.
Proof. unfold sent_bytes, outbound. cbn. by rewrite fmap_app, concat_app, snd_pair. Qed.

Lemma connected_sent cs b : connected b -> connected (with_sent cs b).
Proof. by destruct b as [[? [? ? []] ?] ?]. Qed.

(** One message of the server. *)
Lemma server_sends_message m s b :
  connected b -> Server.has_agency s = true -> Server.assert_outbound_state s m = Ok () ->
  exists b', Server.send_message m (s, b) = Returned (Ok ()) (s, b') /\ connected b' /\
    sent_bytes b' = sent_bytes b ++ written [m].
Proof.
  intros Hb Ha Ho. destruct (encodes m) as [w Hw]. exists (with_sent (chunks MAX_SEGMENT_PAYLOAD_LENGTH w) b).
  split_and!; [|by apply connected_sent|].
  - evaluate. cbn [fst snd]. rewrite Ha. cbn. unfold Server.assert_outbound_state in Ho. rewrite Ho.
    by rewrite (send_msg_sent m w b Hb Hw).
  - rewrite sent_with, (proj1 (chunks_max w)). unfold written. cbn. by rewrite Hw, app_nil_r.
Qed.

Lemma written_cons (m : Message.t) ms : written (m :: ms) = written [m] ++ written ms.
Proof. unfold written. cbn. by rewrite app_nil_r. Qed.

Lemma written_app (ms ms' : list Message.t) : written (ms ++ ms') = written ms ++ written ms'.
Proof. unfold written. by rewrite fmap_app, concat_app. Qed.

Lemma server_sends_blocks blocks b :
  connected b ->
  exists b', Server.send_blocks blocks (State.Streaming, b) = Returned (Ok ()) (State.Streaming, b') /\ connected b' /\
    sent_bytes b' = sent_bytes b ++ written (Message.Block <$> blocks).
Proof.
  revert b; induction blocks as [|block blocks IH]; intros b Hb.
  - exists b. cbn. by rewrite app_nil_r.
  - destruct (server_sends_message (Message.Block block) State.Streaming b Hb) as (b1 & Hr1 & Hb1 & Hs1); [done..|].
    destruct (IH b1 Hb1) as (b2 & Hr2 & Hb2 & Hs2). exists b2. cbn [Server.send_blocks].
    unfold mbind, comp_bind, Server.send_block. rewrite Hr1, Hr2, fmap_cons, written_cons. split_and!; [done..|].
    by rewrite Hs2, Hs1, app_assoc.
Qed.

Lemma server_sends_range blocks b :
  connected b ->
  exists b', Server.send_block_range blocks (State.Busy, b) = Returned (Ok ()) (State.Idle, b') /\ connected b' /\
    sent_bytes b' = sent_bytes b ++ written (reply_to_range blocks).
Proof.
  intros Hb. destruct blocks as [|block blocks].
  - destruct (server_sends_message Message.NoBlocks State.Busy b Hb) as (b1 & Hr1 & Hb1 & Hs1); [done..|].
    exists b1. cbn [Server.send_block_range]. unfold Server.send_no_blocks, mbind, comp_bind. by rewrite Hr1.
  - destruct (server_sends_message Message.StartBatch State.Busy b Hb) as (b1 & Hr1 & Hb1 & Hs1); [done..|].
    destruct (server_sends_blocks (block :: blocks) b1 Hb1) as (b2 & Hr2 & Hb2 & Hs2).
    destruct (server_sends_message Message.BatchDone State.Streaming b2 Hb2) as (b3 & Hr3 & Hb3 & Hs3); [done..|].
    exists b3. unfold Server.send_block_range, Server.send_start_batch, Server.send_batch_done, mbind, comp_bind.
    rewrite Hr1. cbn [set_state modify snd]. unfold set_state, modify. cbn [snd]. rewrite Hr2, Hr3. split_and!; [done..|].
    change (reply_to_range (block :: blocks)) with (Message.StartBatch :: (Message.Block <$> block :: blocks) ++ [Message.BatchDone]).
    by rewrite Hs3, Hs2, Hs1, (written_cons Message.StartBatch (_ ++ _)), written_app, <- !app_assoc.
Qed.

(** What a receiver finds: the bytes of messages, in chunks that are not empty. *)
Definition holds (ms : list Message.t) (b : ChannelBuffer) : Prop := inbound b = written ms /\ filled b.

Lemma receives m ms b :
  valid m -> holds (m :: ms) b ->
  exists t q, recv_full_msg b = Returned (Ok m) (with_inbound t q b) /\ holds ms (with_inbound t q b).
Proof.
  intros Hm [Hb Hf]. destruct (encodes m) as [w Hw]. rewrite written_cons in Hb. unfold written at 1 in Hb. cbn in Hb.
  rewrite Hw, app_nil_r in Hb. destruct (recv_whole m w _ b Hm Hw Hb Hf) as (t & q & Hr & Ht & Hq).
  by exists t, q.
Qed.

Lemma holds_nothing t q b : holds [] (with_inbound t q b) -> with_inbound t q b = with_inbound [] [] b.
Proof.
  intros [Hi Hf]. by destruct (drained t q Hi Hf) as [-> ->].
Qed.

Lemma collects fuel (all blocks : list Body) b :
  (length blocks < fuel)%nat -> Forall fits_len blocks ->
  holds ((Message.Block <$> blocks) ++ [Message.BatchDone]) b ->
  Client.collect_blocks fuel all (State.Streaming, b) = Returned (Ok (all ++ blocks)) (State.Idle, with_inbound [] [] b).
Proof.
  revert all blocks b; induction fuel as [|fuel IH]; intros all blocks b Hf Hv Hb; [lia|].
  cbn [Client.collect_blocks]. destruct blocks as [|block blocks]; cbn [fmap list_fmap app length] in *.
  - destruct (receives Message.BatchDone [] b I Hb) as (t & q & Hr & Hh).
    apply holds_nothing in Hh. evaluate. cbn. rewrite Hr. cbn. by rewrite Hh, app_nil_r.
  - apply Forall_cons in Hv as [Hbl Hv]. destruct (receives (Message.Block block) _ b Hbl Hb) as (t & q & Hr & Hh).
    evaluate. cbn. rewrite Hr. cbn. rewrite (cons_middle block all blocks), app_assoc.
    exact (IH (all ++ [block]) blocks _ ltac:(lia) Hv Hh).
Qed.

Lemma written_length (ms : list Message.t) : Forall valid ms -> (length ms <= length (written ms))%nat.
Proof.
  induction 1 as [|m ms Hm _ IH]; [done|]. rewrite written_cons, length_app. unfold written at 1. cbn.
  destruct (encodes m) as [w Hw]. rewrite Hw, app_nil_r. cbn. pose proof (framed_nonempty m w Hm Hw).
  destruct w; [done|]. cbn [length]. lia.
Qed.

Lemma reply_valid (blocks : list Body) : Forall fits_len blocks -> Forall valid (reply_to_range blocks).
Proof.
  intros Hv. unfold reply_to_range. destruct blocks as [|block blocks]; [by repeat constructor|].
  constructor; [done|]. apply Forall_app. split; [|by repeat constructor]. apply Forall_fmap. eapply Forall_impl; [exact Hv|done].
Qed.

(** The client's request, once the reply is there. *)
Lemma client_requests range (blocks : list Body) w b :
  Forall fits_len blocks -> connected b -> encode (Message.RequestRange range) = Some w ->
  holds (reply_to_range blocks) b ->
  exists t q, let b1 := with_inbound t q (with_sent (chunks MAX_SEGMENT_PAYLOAD_LENGTH w) b) in
  match blocks with
  | [] => Client.request_range range (State.Idle, b) = Returned (Ok None) (State.Idle, b1) /\ holds [] b1
  | _ => Client.request_range range (State.Idle, b) = Returned (Ok (Some ())) (State.Streaming, b1) /\
         holds ((Message.Block <$> blocks) ++ [Message.BatchDone]) b1
  end.
Proof.
  intros Hv Hc Hw Hb. set (b0 := with_sent (chunks MAX_SEGMENT_PAYLOAD_LENGTH w) b).
  destruct blocks as [|block blocks]; cbn [reply_to_range] in Hb.
  - destruct (receives Message.NoBlocks [] b0 I Hb) as (t & q & Hr & Hh). exists t, q. cbn zeta. split; [|done].
    unfold Client.request_range. evaluate. cbn. rewrite (send_msg_sent _ w b Hc Hw). cbn. fold b0. by rewrite Hr.
  - destruct (receives Message.StartBatch _ b0 I Hb) as (t & q & Hr & Hh). exists t, q. cbn zeta. split; [|done].
    unfold Client.request_range. evaluate. cbn. rewrite (send_msg_sent _ w b Hc Hw). cbn. fold b0. by rewrite Hr.
Qed.
End ranges.

(** (roundtrip) what [Server::send_block_range] writes for a list of blocks [Client::fetch_range]
    returns, whatever segments the bytes arrive in; no blocks are reported as the error [NoBlocks]. Both
    ends are idle again afterwards and nothing is left unread. *)
Theorem block_range_roundtrip `{ML : MinicborLaws} `{!MinicborErrors M}
    (range : MiniBlockfetch.Range) (blocks : list MiniBlockfetch.Body) (sb cb : ChannelBuffer) :
  Forall fits_len blocks -> connected sb -> sent_bytes sb = [] -> connected cb ->
  exists sb' w,
    MiniBlockfetch.Server.send_block_range blocks (MiniBlockfetch.State.Busy, sb) =
      Returned (Ok ()) (MiniBlockfetch.State.Idle, sb') /\
    encode (MiniBlockfetch.Message.RequestRange range) = Some w /\
    forall cs, concat cs = sent_bytes sb' -> Forall (.≠ []) cs ->
      MiniBlockfetch.Client.fetch_range range (MiniBlockfetch.State.Idle, with_inbound [] cs cb) =
        Returned (match blocks with [] => Err MiniBlockfetch.ClientError.NoBlocks | _ => Ok blocks end)
          (MiniBlockfetch.State.Idle, with_inbound [] [] (with_sent (chunks MAX_SEGMENT_PAYLOAD_LENGTH w) cb)).
Proof.
  intros Hv Hsb Hs Hcb. destruct (server_sends_range blocks sb Hsb) as (sb' & Hr & _ & Hw). rewrite Hs in Hw.
  destruct (encodes (MiniBlockfetch.Message.RequestRange range)) as [w Hreq].
  exists sb', w. split; [done|]. split; [done|]. intros cs Hcs Hne. set (b := with_inbound [] cs cb).
  assert (holds (reply_to_range blocks) b) as Hb by (split; [unfold b; by rewrite inbound_with, Hcs|done]).
  destruct (client_requests range blocks w b Hv Hcb Hreq Hb) as (t & q & Hc). cbn zeta in Hc.
  unfold MiniBlockfetch.Client.fetch_range, mbind at 1, comp_bind at 1, get. cbn [snd].
  pose proof (written_length _ (reply_valid blocks Hv)) as Hl. rewrite <- (proj1 Hb) in Hl.
  set (fuel := S (length (inbound b))). destruct blocks as [|block blocks]; destruct Hc as [Hc Hh].
  - unfold mbind, comp_bind. rewrite Hc. cbn. by rewrite (holds_nothing _ _ _ Hh).
  - unfold mbind, comp_bind. rewrite Hc. cbn [MiniBlockfetch.Client.ok_or mret comp_ret].
    rewrite (collects fuel [] (block :: blocks)); [|unfold fuel|done|done].
    + by rewrite with_inbound_twice.
    + unfold reply_to_range in Hl. rewrite length_cons, length_app, length_fmap in Hl. cbn [length] in Hl |- *.
      apply le_n_S. etransitivity; [|exact Hl]. rewrite Nat.add_1_r. apply le_S, le_S, le_n.
Qed.

(** Two blocks, whose bytes arrive one at a time. *)
Lemma block_range_roundtrip_witness :
  let b := ChannelBuffer_new {| agent_protocol := 3; to_plexer := channel_new; from_plexer := channel_new |} in
  let range := (MiniCommon.Point.Origin, MiniCommon.Point.new 5 [9]) in
  exists sb' cb',
    MiniBlockfetch.Server.send_block_range [[1; 2]; [3]] (MiniBlockfetch.State.Busy, b) =
      Returned (Ok ()) (MiniBlockfetch.State.Idle, sb') /\
    sent_bytes sb' = [129; 2; 130; 4; 216; 24; 66; 1; 2; 130; 4; 216; 24; 65; 3; 129; 5] /\
    MiniBlockfetch.Client.fetch_range range
      (MiniBlockfetch.State.Idle, with_inbound [] ((fun x => [x]) <$> sent_bytes sb') b) =
      Returned (Ok [[1; 2]; [3]]) (MiniBlockfetch.State.Idle, cb').
Proof.
  intros b range.
  destruct (block_range_roundtrip range [[1; 2]; [3]] b b) as (sb' & w & Hs & _ & Hc).
  - repeat (constructor; [unfold fits_len, in_u; cbn; lia|]). constructor.
  - split; reflexivity.
  - reflexivity.
  - split; reflexivity.
  - assert (sent_bytes sb' = [129; 2; 130; 4; 216; 24; 66; 1; 2; 130; 4; 216; 24; 65; 3; 129; 5]) as Hb.
    { vm_compute in Hs. injection Hs as <-. vm_compute. reflexivity. }
    exists sb'. eexists. split; [exact Hs|]. split; [exact Hb|]. apply Hc; rewrite Hb; [reflexivity|].
    repeat constructor; discriminate.
Defined.

(** ** The handshake *)
Section handshake.
Context {D : Type} `{EqDecision D} `{MiniHandshake.TableOrder}.
Import MiniHandshake.

(** What the server of the table [ours] has to answer to the table [theirs]. *)
Definition greatest_common (ours theirs : gmap Z D) (v : Z) : Prop :=
  is_Some (ours !! v) /\ is_Some (theirs !! v) /\
  forall v', is_Some (ours !! v') -> is_Some (theirs !! v') -> v' <= v.

Inductive right_answer (ours theirs : gmap Z D) : Message.t D -> Prop :=
| agrees v d :
    greatest_common ours theirs v -> ours !! v = Some d -> theirs !! v = Some d ->
    right_answer ours theirs (Message.Accept v d)
| differs v d d' :
    greatest_common ours theirs v -> ours !! v = Some d -> theirs !! v = Some d' -> d <> d' ->
    right_answer ours theirs
      (Message.Refuse (RefuseReason.Refused v (text_bytes "Proposed extra params don't match")))
| mismatch vs :
    (forall v, ours !! v = None \/ theirs !! v = None) ->
    vs ≡ₚ (map_to_list ours).*1 -> StronglySorted (fun a b => b <= a) vs ->
    right_answer ours theirs (Message.Refuse (RefuseReason.VersionMismatch vs)).

(** What the client makes of it. *)
Definition confirms (m : Message.t D) (c : Confirmation.t D) : Prop :=
  match m with
  | Message.Accept v d => c = Confirmation.Accepted v d
  | Message.Refuse r => c = Confirmation.Rejected r
  | _ => False
  end.

Definition agreed (m : Message.t D) : option (Z * D) :=
  match m with Message.Accept v d => Some (v, d) | _ => None end.

Lemma into_iter_lookup (m : gmap Z D) v d : (v, d) ∈ into_iter m <-> m !! v = Some d.
Proof. rewrite into_iter_entries. apply elem_of_map_to_list. Qed.

Lemma into_iter_keys (m : gmap Z D) : NoDup (into_iter m).*1.
Proof. rewrite into_iter_entries. apply NoDup_fst_map_to_list. Qed.

#[local] Instance newer_total : Total (Server.newer (D := D)).
Proof. intros [a x] [b y]. unfold Server.newer. cbn. lia. Qed.
#[local] Instance newer_trans : Transitive (Server.newer (D := D)).
Proof. intros [a x] [b y] [c z]. unfold Server.newer. cbn. lia. Qed.

Definition by_age (m : gmap Z D) : list (Z * D) := merge_sort Server.newer (into_iter m).

Lemma by_age_lookup m v d : (v, d) ∈ by_age m <-> m !! v = Some d.
Proof. unfold by_age. by rewrite merge_sort_Permutation, into_iter_lookup. Qed.

Lemma by_age_sorted m : StronglySorted Server.newer (by_age m).
Proof. apply StronglySorted_merge_sort; apply _. Qed.

Lemma by_age_keys m : (by_age m).*1 ≡ₚ (map_to_list m).*1 /\ StronglySorted (fun a b => b <= a) (by_age m).*1.
Proof.
  split; [unfold by_age; by rewrite merge_sort_Permutation, into_iter_entries|].
  pose proof (by_age_sorted m) as Hs. induction Hs as [|x l _ IH Hx]; [constructor|].
  cbn. constructor; [done|]. apply Forall_fmap. eapply Forall_impl; [exact Hx|done].
Qed.

Context `{Encode (Message.t D), Decode (Message.t D)}.

(** The method that gives an answer. *)
Definition answers (answer : Message.t D) : comp HsError.t (State.t * ChannelBuffer) (option (Z * D)) :=
  _ ← Server.send_message answer;
  _ ← set_state State.Done;
  mret (agreed answer).

Definition answer_to v (d d' : D) : Message.t D :=
  if decide (d = d') then Message.Accept v d
  else Message.Refuse (RefuseReason.Refused v (text_bytes "Proposed extra params don't match")).

Lemma match_version_spec v d cl :
  match Server.match_version v d cl with
  | Some m => exists d', (v, d') ∈ cl /\ forall self, m self = answers (answer_to v d d') self
  | None => v ∉ cl.*1
  end.
Proof.
  induction cl as [|[v' d'] cl IH]; cbn; [apply not_elem_of_nil|]. destruct (Z.eqb_spec v v') as [->|Hv].
  - exists d'. split; [by left|]. intros self. unfold answer_to, answers. case_decide; unfold mbind, comp_bind;
      unfold Server.accept_version, Server.refuse, mbind, comp_bind; by destruct (Server.send_message _ self) as [[]| |].
  - destruct (Server.match_version v d cl) as [m|]; [destruct IH as (x & Hx & Hm); exists x; split; [by right|done]|].
    by apply not_elem_of_cons.
Qed.

(** The first entry of [vs] that has a counterpart. *)
Lemma match_versions_spec vs cl :
  match Server.match_versions vs cl with
  | Some m => exists pre v d post d', vs = pre ++ (v, d) :: post /\ (forall x, x ∈ pre.*1 -> x ∉ cl.*1) /\
      (v, d') ∈ cl /\ forall self, m self = answers (answer_to v d d') self
  | None => forall v, v ∈ vs.*1 -> v ∉ cl.*1
  end.
Proof.
  induction vs as [|[v d] vs IH]; cbn; [intros v Hv; by apply elem_of_nil in Hv|].
  pose proof (match_version_spec v d cl) as Hm. destruct (Server.match_version v d cl) as [m|].
  - destruct Hm as (d' & Hd & Hm). exists [], v, d, vs, d'. split_and!; [done| |done|done].
    intros x Hx. by apply elem_of_nil in Hx.
  - destruct (Server.match_versions vs cl) as [m|].
    + destruct IH as (pre & v1 & d1 & post & d' & -> & Hpre & Hd & Hm').
      exists ((v, d) :: pre), v1, d1, post, d'. split_and!; [done| |done|done].
      intros x [->|Hx]%elem_of_cons; [done|by apply Hpre].
    + intros x [->|Hx]%elem_of_cons; [done|by apply IH].
Qed.

(** The answer is the right one, and the method gives it. *)
Lemma server_answers (ours theirs : gmap Z D) :
  exists answer, right_answer ours theirs answer /\ forall self,
    match Server.match_versions (by_age ours) (into_iter theirs) with
    | Some m => m
    | None =>
        _ ← Server.refuse (RefuseReason.VersionMismatch (fst <$> by_age ours));
        mret None
    end self = answers answer self.
Proof.
  pose proof (match_versions_spec (by_age ours) (into_iter theirs)) as Hm.
  assert (forall (m : gmap Z D) l v, (forall d, (v, d) ∈ l <-> m !! v = Some d) -> v ∉ l.*1 <-> m !! v = None) as Hkey.
  { intros m l v Hl. rewrite eq_None_not_Some. apply not_iff_compat. split.
    - intros ([? d] & -> & Hd)%list_elem_of_fmap. exists d. by apply Hl.
    - intros [d Hd%Hl]. apply list_elem_of_fmap. by exists (v, d). }
  destruct (Server.match_versions _ _) as [m|].
  - destruct Hm as (pre & v & d & post & d' & Hvs & Hpre & Hd' & Hm). exists (answer_to v d d'). split; [|exact Hm].
    assert (ours !! v = Some d) as Ho by (apply by_age_lookup; rewrite Hvs; set_solver).
    assert (theirs !! v = Some d') as Ht by by apply into_iter_lookup.
    assert (greatest_common ours theirs v) as Hg.
    { split_and!; [by eexists..|]. intros v' [x Hx%by_age_lookup] Hv'. rewrite Hvs in Hx.
      apply elem_of_app in Hx as [Hx|[[= <- <-]|Hx]%elem_of_cons]; [|done|].
      - destruct (Hpre v'); [apply list_elem_of_fmap; by exists (v', x)|].
        destruct Hv' as [y Hy%into_iter_lookup]. apply list_elem_of_fmap. by exists (v', y).
      - pose proof (by_age_sorted ours) as Hs. rewrite Hvs in Hs. apply StronglySorted_app in Hs as (_ & _ & Hs).
        apply StronglySorted_inv in Hs as [_ Hs]. rewrite list.Forall_forall in Hs. exact (Hs _ Hx). }
    unfold answer_to. case_decide; [subst; by eapply agrees|by eapply differs].
  - exists (Message.Refuse (RefuseReason.VersionMismatch (fst <$> by_age ours))). split.
    + destruct (by_age_keys ours) as [Hp Hs]. apply mismatch; [|done..]. intros v.
      destruct (ours !! v) as [d|] eqn:Ho; [|by left]. right. apply (Hkey theirs (into_iter theirs) v); [intros; apply into_iter_lookup|].
      apply Hm. apply list_elem_of_fmap. exists (v, d). split; [done|]. by apply by_age_lookup.
    + intros self. unfold answers, Server.refuse, mbind, comp_bind. by destruct (Server.send_message _ self) as [[]| |].
Qed.
End handshake.

Section answer.
Context `{ML : MinicborLaws} `{!MinicborErrors M} {D : Type} `{Codec D, !ErrorStable D}.
Import MiniHandshake.

(** The answer can be written and is read back. *)
Lemma right_answer_sound (ours theirs : VersionTable D) answer :
  valid ours -> (forall d : D, is_Some (encode d)) -> right_answer (values ours) (values theirs) answer ->
  valid answer /\ is_Some (encode answer).
Proof.
  intros [Hsz Hv] Htot Ha. unfold encode, Message_encode, valid, Message_valid.
  destruct Ha as [v d Hg Ho Ht|v d d' Hg Ho Ht Hd|vs Hno Hp Hs].
  - split; [by apply Hv|]. do 3 (apply enc_app_is_Some; [by eexists|]). apply Htot.
  - split; [|unfold encode, RefuseReason_encode; cbn; by eexists].
    split; [by destruct (Hv _ _ Ho)|]. unfold fits_len, in_u. vm_compute. done.
  - split.
    + assert (length vs = size (values ours)) as Hl.
      { by rewrite Hp, length_fmap, length_map_to_list. }
      split; [unfold fits_len; by rewrite Hl|]. rewrite Hp. apply Forall_fmap, list.Forall_forall.
      intros [v d] Hd%elem_of_map_to_list. by destruct (Hv v d Hd).
    + unfold encode, RefuseReason_encode. do 5 (apply enc_app_is_Some; [by eexists|]).
      clear. induction vs as [|v vs [b Hb]]; [by eexists|]. cbn. rewrite Hb. by eexists.
Qed.

(** The server gives an answer, and the client is told. *)
Lemma answer_given (answer : Message.t D) w b :
  (exists ours theirs, right_answer ours theirs answer) -> connected b ->
  encode answer = Some w ->
  answers answer (State.Confirm, b) = Returned (Ok (agreed answer)) (State.Done, with_sent (chunks MAX_SEGMENT_PAYLOAD_LENGTH w) b).
Proof.
  intros (ours & theirs & Ha) Hb Hw. unfold answers. evaluate. cbn.
  destruct Ha; cbn -[text_bytes]; by rewrite (send_msg_sent _ w b Hb Hw).
Qed.

Lemma answer_received (theirs : VersionTable D) (answer : Message.t D) proposal w b :
  (exists ours theirs, right_answer ours theirs answer) -> valid answer -> encode answer = Some w ->
  encode (Message.Propose theirs) = Some proposal -> connected b -> filled b -> inbound b = w ->
  exists c, confirms answer c /\
    Client.handshake theirs (State.Propose, b) =
      Returned (Ok c) (State.Done, with_inbound [] [] (with_sent (chunks MAX_SEGMENT_PAYLOAD_LENGTH proposal) b)).
Proof.
  intros (ours & theirs' & Ha) Hv Hw Hp Hb Hf Hin. unfold Client.handshake. evaluate. cbn.
  rewrite (send_msg_sent _ proposal b Hb Hp). cbn. set (b1 := with_sent _ b).
  rewrite (recv_all answer w b1 Hv Hw Hin Hf). cbn. destruct Ha; cbn; by eexists.
Qed.
End answer.

(** C17: (functional) the first generation's handshake, over connected channels that bring the bytes of the
    other end in segments of any length but empty ones, between tables of 64-bit numbers with data that can be
    encoded: both ends agree on the greatest version they have in common if they give the same data for it;
    otherwise the server refuses that version, or, when there is no common one, names its own, newest first.
    The client is told what the server returns, both have sent one message and are done, and no byte is left. *)
Theorem mini_handshake `{ML : MinicborLaws} `{!MinicborErrors M} {D : Type} `{Codec D, !ErrorStable D} `{EqDecision D}
    `{MiniHandshake.TableOrder} (ours theirs : MiniHandshake.VersionTable D) proposal :
  valid ours -> valid theirs -> (forall d : D, is_Some (encode d)) ->
  encode (MiniHandshake.Message.Propose theirs) = Some proposal ->
  exists answer w,
    right_answer (MiniHandshake.values ours) (MiniHandshake.values theirs) answer /\ encode answer = Some w /\
    (forall sb, connected sb -> filled sb -> inbound sb = proposal ->
      MiniHandshake.Server.handshake ours (MiniHandshake.State.Propose, sb) =
        Returned (Ok (agreed answer)) (MiniHandshake.State.Done,
          with_sent (chunks MAX_SEGMENT_PAYLOAD_LENGTH w) (with_inbound [] [] sb))) /\
    (forall cb, connected cb -> filled cb -> inbound cb = w ->
      exists c, confirms answer c /\
        MiniHandshake.Client.handshake theirs (MiniHandshake.State.Propose, cb) =
          Returned (Ok c) (MiniHandshake.State.Done,
            with_inbound [] [] (with_sent (chunks MAX_SEGMENT_PAYLOAD_LENGTH proposal) cb))).
Proof.
  intros Ho Ht Htot Hprop. destruct (server_answers (MiniHandshake.values ours) (MiniHandshake.values theirs)) as (answer & Ha & Hrun).
  destruct (right_answer_sound ours theirs answer Ho Htot Ha) as (Hv & w & Hw). exists answer, w. split_and!; [done..| |].
  - intros sb Hc Hf Hin. unfold MiniHandshake.Server.handshake, MiniHandshake.Server.receive_proposed_versions.
    evaluate. cbn. rewrite (recv_all (MiniHandshake.Message.Propose theirs) proposal sb Ht Hprop Hin Hf). cbn. etransitivity; [apply Hrun|].
    apply answer_given; by eauto.
  - intros cb Hc Hf Hin. eapply answer_received; by eauto.
Qed.

(** Both propose version 14 of the node-to-node protocol; the client also has 13. *)
Lemma mini_handshake_witness :
  let order := {| MiniHandshake.into_iter := fun D m => map_to_list m;
                  MiniHandshake.into_iter_entries := fun D m => reflexivity _ |} : MiniHandshake.TableOrder in
  let d := MiniHandshake.n2n.new 42 true (Some 0) (Some false) in
  let ours := MiniHandshake.Build_VersionTable {[14 := d]} in
  let theirs := MiniHandshake.Build_VersionTable (<[13 := d]> {[14 := d]}) in
  let b := ChannelBuffer_new {| agent_protocol := 0; to_plexer := channel_new; from_plexer := channel_new |} in
  exists proposal w sb' cb', encode (MiniHandshake.Message.Propose theirs) = Some proposal /\
    encode (MiniHandshake.Message.Accept 14 d) = Some w /\
    MiniHandshake.Server.handshake ours (MiniHandshake.State.Propose, with_inbound [] [proposal] b) =
      Returned (Ok (Some (14, d))) (MiniHandshake.State.Done, sb') /\
    MiniHandshake.Client.handshake theirs (MiniHandshake.State.Propose, with_inbound [] [w] b) =
      Returned (Ok (MiniHandshake.Confirmation.Accepted 14 d)) (MiniHandshake.State.Done, cb').
Proof.
  intros order d ours theirs b.
  assert (in_u 64 14 /\ in_u 64 13 /\ valid d) as (H14 & H13 & Hd).
  { split; [unfold in_u; lia|]. split; [unfold in_u; lia|]. split; cbn; unfold in_u; lia. }
  assert (exists p, encode (MiniHandshake.Message.Propose theirs) = Some p /\ p <> []) as (proposal & Hp & Hne)
    by (eexists; split; [vm_compute; reflexivity|discriminate]).
  assert (exists w, encode (MiniHandshake.Message.Accept 14 d) = Some w /\ w <> []) as (w & Hw & Hwne)
    by (eexists; split; [vm_compute; reflexivity|discriminate]).
  destruct (mini_handshake (M := rfc8949) ours theirs proposal) as (answer & w' & Ha & Hw' & Hs & Hc).
  - split; [unfold in_u; vm_compute; done|]. intros k v. unfold ours. cbn [MiniHandshake.values].
    rewrite lookup_singleton_Some. intros [<- <-]. by split.
  - split; [unfold in_u; vm_compute; done|]. intros k v. unfold theirs. cbn [MiniHandshake.values].
    rewrite lookup_insert_Some, lookup_singleton_Some. intros [[<- <-]|[_ [<- <-]]]; by split.
  - intros v. unfold encode; unfold MiniHandshake.n2n.VersionData_encode.
    destruct (MiniHandshake.n2n.peer_sharing v), (MiniHandshake.n2n.query v); eauto.
  - exact Hp.
  - assert (answer = MiniHandshake.Message.Accept 14 d) as ->.
    { destruct Ha as [v x (Hv & _ & _) Hx Ht|v x y (Hv & _ & _) Hx Hy Hxy|vs Hno _ _].
      - revert Hx. unfold ours. cbn [MiniHandshake.values]. rewrite lookup_singleton_Some. by intros [<- <-].
      - destruct Hxy. revert Hx Hy. unfold ours, theirs. cbn [MiniHandshake.values]. rewrite lookup_singleton_Some.
        intros [<- <-]. vm_compute. by intros [= <-].
      - destruct (Hno 14) as [Hn|Hn]; vm_compute in Hn; discriminate. }
    rewrite Hw in Hw'. injection Hw' as <-.
    destruct (Hc (with_inbound [] [w] b)) as (c & -> & Hrun); [split; reflexivity|repeat constructor; exact Hwne|apply app_nil_r|].
    exists proposal, w. eexists _, _. split_and!; [exact Hp|exact Hw| |exact Hrun].
    apply (Hs (with_inbound [] [proposal] b)); [split; reflexivity|repeat constructor; exact Hne|apply app_nil_r].
Defined.

(** ** What two agents cannot do *)

(** A snapshot of the mempool is never released. *)
Section monitor.
Context `{Minicbor}.
Import MiniTxmonitor.

Inductive monitor_call := Acquire | QueryHasTx (id : TxId) | QueryNextTx | QuerySizeAndCapacity | Release.

Definition run_monitor (c : monitor_call) : comp MonError.t (State.t * ChannelBuffer) unit :=
  match c with
  | Acquire => discard Client.acquire
  | QueryHasTx id => discard (Client.query_has_tx id)
  | QueryNextTx => discard Client.query_next_tx
  | QuerySizeAndCapacity => discard Client.query_size_and_capacity
  | Release => Client.release
  end.

(** A call returns, whatever is in the channel. *)
Definition monitor_step (s s' : State.t) : Prop :=
  exists c b r b', run_monitor c (s, b) = Returned r (s', b').

Definition holds_snapshot (s : State.t) : Prop := s <> State.Idle /\ s <> State.Done.

(** Receiving does not change the state, nor does handing over a message. *)
Lemma monitor_recv s b r s' b' : Client.recv_message (s, b) = Returned r (s', b') -> s' = s.
Proof.
  evaluate. destruct (Client.has_agency s); cbn; [intros; by simplify_eq|].
  destruct (recv_full_msg b) as [[m|] b1| |]; cbn; try (intros; by simplify_eq).
  destruct (Client.assert_inbound_state s m); cbn; intros; by simplify_eq.
Qed.

Lemma monitor_send m s b r s' b' : Client.send_message m (s, b) = Returned r (s', b') -> s' = s.
Proof.
  evaluate. destruct (Client.has_agency s); cbn; [|intros; by simplify_eq].
  destruct (Client.assert_outbound_state s m); cbn; [|intros; by simplify_eq].
  destruct (send_msg_chunks m b) as [[[]|] b1| |]; cbn; intros; by simplify_eq.
Qed.

(** A request for the snapshot and its reply. *)
Lemma monitor_query {A} m s1 (reply : Message.t -> comp MonError.t (State.t * ChannelBuffer) A) s b r s' b' :
  (forall m self r' self', reply m self = Returned r' self' -> self' = self \/ self'.1 = State.Acquired) ->
  s1 <> State.Idle /\ s1 <> State.Done -> holds_snapshot s ->
  (_ ← (_ ← Client.send_message m; set_state s1); msg ← Client.recv_message; reply msg) (s, b) = Returned r (s', b') ->
  holds_snapshot s'.
Proof.
  intros Hrep Hs1 Hs. unfold mbind, comp_bind.
  destruct (Client.send_message m (s, b)) as [[[]|e] [s2 b2]| |] eqn:Hsend; try done.
  - unfold set_state, modify. cbn [snd]. destruct (Client.recv_message (s1, b2)) as [[m'|e] [s3 b3]| |] eqn:Hrecv; try done.
    + apply monitor_recv in Hrecv as ->. intros Hr. destruct (Hrep _ _ _ _ Hr) as [[= -> ->]|Hacq]; [done|].
      cbn in Hacq. by rewrite Hacq.
    + apply monitor_recv in Hrecv as ->. by intros [= _ <- _].
  - apply monitor_send in Hsend as ->. by intros [= _ <- _].
Qed.

Lemma discarded {A} (f : comp MonError.t (State.t * ChannelBuffer) A) self r self' :
  discard f self = Returned r self' -> exists r', f self = Returned r' self'.
Proof. unfold discard, mbind, comp_bind. destruct (f self) as [[]| |]; try done; intros [= _ <-]; by eexists. Qed.

Lemma monitor_keeps s s' : monitor_step s s' -> holds_snapshot s -> holds_snapshot s'.
Proof.
  intros (c & b & r & b' & Hr) Hs. destruct c; cbn [run_monitor] in Hr.
  5: { revert Hr. unfold Client.release, mbind, comp_bind. destruct (Client.send_message Message.Release (s, b)) as [[[]|e] [s2 b2]| |] eqn:Hsend; try done.
       - exfalso. revert Hsend. evaluate. destruct s; cbn; done.
       - apply monitor_send in Hsend as ->. by intros [= _ <- _]. }
  all: apply discarded in Hr as [r' Hr]; (eapply monitor_query; [| |exact Hs|exact Hr]); [|by split].
  all: intros m self r1 self1; destruct m; cbn; unfold throw; try (intros [= _ <-]; by left); unfold mbind, comp_bind, set_state, modify, mret, comp_ret;
    intros [= _ <-]; by right.
Qed.
End monitor.

(** (invariant) a snapshot of the mempool is never given up: the client has a method [release], but its
    assertion refuses the message in every state and there is no other way back: once a snapshot was
    requested, no calls, whatever they receive, make the client idle or done again. *)
Theorem snapshot_never_released `{Minicbor} (s s' : MiniTxmonitor.State.t) :
  holds_snapshot s -> rtc monitor_step s s' ->
  holds_snapshot s' /\
  forall b, exists e, MiniTxmonitor.Client.release (s', b) = Returned (Err e) (s', b).
Proof.
  intros Hs Hrun. split.
  - induction Hrun as [|x y z Hxy _ IH]; [done|]. by apply IH, (monitor_keeps x).
  - clear. intros b. unfold MiniTxmonitor.Client.release. evaluate. destruct s'; cbn; by eexists.
Qed.

(** A query whose reply has arrived, and the refusal afterwards. *)
Lemma snapshot_never_released_witness :
  let b := ChannelBuffer_new {| agent_protocol := 9; to_plexer := channel_new; from_plexer := channel_new |} in
  rtc monitor_step MiniTxmonitor.State.Acquired MiniTxmonitor.State.Acquired /\
  exists e, MiniTxmonitor.Client.release (MiniTxmonitor.State.Acquired, b) = Returned (Err e) (MiniTxmonitor.State.Acquired, b).
Proof.
  intros b.
  assert (rtc monitor_step MiniTxmonitor.State.Acquired MiniTxmonitor.State.Acquired) as Hrun.
  { apply rtc_once. exists QueryNextTx, (with_inbound [] [[129; 6]] b). eexists. eexists. vm_compute. reflexivity. }
  split; [exact Hrun|]. refine (proj2 (snapshot_never_released _ _ _ Hrun) b). split; discriminate.
Defined.

(** (error) how [query_next_tx] reads a transaction depends on the segments it arrives in: whole, it is returned;
    when a segment ends behind the label, the label alone is taken for the end of the snapshot and the
    transaction stays in the channel, where the next reply is expected. *)
Theorem next_tx_split `{ML : MinicborLaws} `{!MinicborErrors M} (tx : MiniTxmonitor.Tx) w b :
  MiniTxmonitor.tx_valid tx -> encode (MiniTxmonitor.Message.ResponseNextTx (Some tx)) = Some w ->
  exists label v, w = label ++ v /\ v <> [] /\
    MiniTxmonitor.Client.recv_while_requesting_next_tx (MiniTxmonitor.State.Busy, with_inbound [] [w] b) =
      Returned (Ok (Some tx)) (MiniTxmonitor.State.Acquired, with_inbound [] [] b) /\
    MiniTxmonitor.Client.recv_while_requesting_next_tx (MiniTxmonitor.State.Busy, with_inbound [] [label; v] b) =
      Returned (Ok None) (MiniTxmonitor.State.Acquired, with_inbound [] [v] b).
Proof.
  intros Hv Hw. pose proof (MiniTxmonitor.message_reads (MiniTxmonitor.Message.ResponseNextTx (Some tx)) w [] Hv Hw ltac:(done)) as Hd. rewrite app_nil_r in Hd.
  unfold encode, MiniTxmonitor.Message_encode in Hw. apply enc_app_Some in Hw as (x & y & [= <-] & Hy & ->).
  apply enc_app_Some in Hy as (y1 & v & [= <-] & Htx & ->). exists (e_array 2 ++ e_u16 6), v.
  assert (forall c q, recv_full_msg (M := MiniTxmonitor.Message.t) (with_inbound [] (c :: q) b) =
    match try_decode_message c with
    | Returned (Ok (Some msg)) t => Returned (Ok msg) (with_inbound t q b)
    | Returned (Ok None) t => recv_loop (S (length q)) (with_inbound t q b)
    | Returned (Err e) t => Returned (Err e) (with_inbound t q b)
    | Panicked => Panicked
    | Unfinished => Unfinished
    end) as Hrecv.
  { intros c q. unfold recv_full_msg, mbind, comp_bind, get. cbn [temp with_inbound]. by rewrite (recv_loop_turn _ c q) by done. }
  split; [by rewrite <- app_assoc|]. split; [|split].
  - intros ->. destruct (MiniTxmonitor.tx_head tx [] Htx) as (n & r & Hn & Hr).
    pose proof (MiniTxmonitor.tx_parses tx Hv [] [] Htx) as Hp. unfold MiniTxmonitor.decode_tx in Hp.
    symmetry in Hr. apply app_eq_nil in Hr as [Hr _].
    pose proof (array_parses n Hn _ [] eq_refl) as Ha. rewrite Hr in Ha. apply array_consumes in Ha. cbn in Ha. lia.
  - evaluate. cbn. rewrite Hrecv. unfold try_decode_message. by rewrite Hd.
  - evaluate. cbn. rewrite Hrecv. unfold try_decode_message.
    rewrite MiniTxmonitor.label_alone by (unfold in_u; lia). by cbn.
Qed.

Lemma next_tx_split_witness :
  let b := ChannelBuffer_new {| agent_protocol := 9; to_plexer := channel_new; from_plexer := channel_new |} in
  encode (MiniTxmonitor.Message.ResponseNextTx (Some (5, [7; 8]))) = Some [130; 6; 130; 5; 216; 24; 66; 7; 8] /\
  exists label v, [130; 6; 130; 5; 216; 24; 66; 7; 8] = label ++ v /\ v <> [] /\
    MiniTxmonitor.Client.recv_while_requesting_next_tx (MiniTxmonitor.State.Busy, with_inbound [] [label; v] b) =
      Returned (Ok None) (MiniTxmonitor.State.Acquired, with_inbound [] [v] b).
Proof.
  intros b. split; [vm_compute; reflexivity|].
  destruct (next_tx_split (M := rfc8949) (5, [7; 8]) [130; 6; 130; 5; 216; 24; 66; 7; 8] b) as (label & v & Hw & Hv & _ & Hr).
  - split; cbn; unfold fits_len, in_u; cbn; lia.
  - vm_compute. reflexivity.
  - exists label, v. split; [exact Hw|]. split; [exact Hv|exact Hr].
Defined.

(** (error) the server of the message notifications cannot wait for what comes next: a client that is idle
    may request messages or end the protocol, and each of the two methods that receive refuses
    what the other is for after it has taken the message from the channel, so that it is lost. *)
Theorem notification_lost `{ML : MinicborLaws} `{!MinicborErrors M} (m : MiniLocalmsg.Message.t) w b :
  is_ok (MiniLocalmsg.Client.assert_outbound_state MiniLocalmsg.State.Idle m) = true ->
  encode m = Some w -> inbound b = w -> filled b ->
  (m = MiniLocalmsg.Message.ClientDone /\
    MiniLocalmsg.Server.recv_next_request (MiniLocalmsg.State.Idle, b) =
      Returned (Err MiniLocalmsg.MsgError.InvalidInbound)
        (MiniLocalmsg.State.Idle, with_inbound [] [] b)) \/
  (m <> MiniLocalmsg.Message.ClientDone /\
    MiniLocalmsg.Server.recv_done (MiniLocalmsg.State.Idle, b) =
      Returned (Err MiniLocalmsg.MsgError.InvalidInbound)
        (MiniLocalmsg.State.Idle, with_inbound [] [] b)).
Proof.
  intros Hm Hw Hin Hf. assert (recv_full_msg b = Returned (Ok m) (with_inbound [] [] b)) as Hr.
  { apply (recv_all m w); [|done..]. by destruct m. }
  destruct m; try done; [right|right|left]; (split; [done|]); evaluate; cbn; by rewrite Hr.
Qed.

Lemma notification_lost_witness :
  let b := ChannelBuffer_new {| agent_protocol := 15; to_plexer := channel_new; from_plexer := channel_new |} in
  MiniLocalmsg.Server.recv_next_request (MiniLocalmsg.State.Idle, with_inbound [] [[129; 3]] b) =
    Returned (Err MiniLocalmsg.MsgError.InvalidInbound) (MiniLocalmsg.State.Idle, b).
Proof.
  intros b.
  destruct (notification_lost (M := rfc8949) MiniLocalmsg.Message.ClientDone [129; 3]
    (with_inbound [] [[129; 3]] b)) as [[_ H]|[H _]].
  - reflexivity.
  - vm_compute. reflexivity.
  - reflexivity.
  - repeat constructor; discriminate.
  - exact H.
  - destruct (H eq_refl).
Defined.
