(* ===== verification/Immutable.v ===== *)
(** * The immutable storage of a node: indices and chunks

    [pallas-hardano/src/storage/immutable]: the readers of primary.rs, secondary.rs
    and chunk.rs, each an iterator over a file.  A file is the bytes that can be read
    of it and what comes behind them.  The crate binary_layout is the interface
    [BinaryLayout]. *)
From Stdlib Require Import Ascii.
From S2P Require Import Prelude Effects MiniCommon.

(** ** Files of the standard library *)
Module io.
Inductive Error := UnexpectedEof | InvalidInput | Other (msg : string).
End io.

#[export] Instance io_Error_eq_dec : EqDecision io.Error.
Proof. solve_decision. Defined.

(** Behind the readable contents the file ends, or the device fails. *)
Record File := { contents : bytes; fault : option string }.

Record BufReader := { file : File; stream_position : Z }.
Definition BufReader_new (f : File) : BufReader := {| file := f; stream_position := 0 |}.
Definition move (r : BufReader) (pos : Z) : BufReader := {| file := file r; stream_position := pos |}.

Definition unread (r : BufReader) : bytes := drop (Z.to_nat (stream_position r)) (contents (file r)).

(** An incomplete read leaves the position at the end. *)
Definition read_exact (n : Z) (r : BufReader) : result io.Error bytes * BufReader :=
  if n <=? Z.of_nat (length (unread r))
  then (Ok (take (Z.to_nat n) (unread r)), move r (stream_position r + n))
  else (Err (match fault (file r) with None => io.UnexpectedEof | Some e => io.Other e end),
        move r (Z.max (stream_position r) (Z.of_nat (length (contents (file r)))))).

Definition read_to_end (r : BufReader) : result io.Error bytes * BufReader :=
  (match fault (file r) with None => Ok (unread r) | Some e => Err (io.Other e) end,
   move r (Z.max (stream_position r) (Z.of_nat (length (contents (file r)))))).

(** The position of a file is a non-negative [i64]; it may be behind the end. *)
Definition seek_relative (offset : Z) (r : BufReader) : result io.Error unit * BufReader :=
  let pos := stream_position r + offset in
  if (0 <=? pos) && (pos <? 2 ^ 63) then (Ok (), move r pos) else (Err io.InvalidInput, r).

(** [x as i64] of a [u64]. *)
Definition as_i64 (x : Z) : Z := if x <? 2 ^ 63 then x else x - 2 ^ 64.

(** [vec![0u8; n]]: the capacity of a vector is at most [isize::MAX]. *)
Definition zeroed (n : Z) : option bytes :=
  if n <? 2 ^ 63 then Some (replicate (Z.to_nat n) 0) else None.

(** ** Iterators

    [next] returns the next item, if there is one, and changes the iterator. *)
Class Iterator (T Item : Type) := next : comp Empty_set T (option Item).
#[export] Hint Mode Iterator ! - : typeclass_instances.

(** From [it] on, exactly the items [xs] come, and then none. *)
Inductive Yields `{Iterator T Item} : T -> list Item -> Prop :=
| Yields_end it it' : next it = Returned (Ok None) it' -> Yields it []
| Yields_item it it' x xs : next it = Returned (Ok (Some x)) it' -> Yields it' xs -> Yields it (x :: xs).

(** A method of an object the code owns, and what is done with its value and with
    the object it leaves. *)
Definition run {S T E A B} (m : comp Empty_set S A) (s : S) (k : A -> S -> outcome E T B) : outcome E T B :=
  match m s with
  | Returned (Ok a) s => k a s
  | Returned (Err e) _ => match e with end
  | Panicked => Panicked
  | Unfinished => Unfinished
  end.

(** All items, as [collect] finds them; the fuel is a bound of their number. *)
Fixpoint collect `{Iterator T Item} (fuel : nat) (it : T) : option (list Item) :=
  match fuel, next it with
  | S fuel, Returned (Ok (Some x)) it => (x ::.) <$> collect fuel it
  | S _, Returned (Ok None) _ => Some []
  | _, _ => None
  end.

(** ** Directories *)

(** What the system reports of a directory: the names of its entries, in any order,
    and the files that can be opened. *)
Record Dir := {
  read_dir : result io.Error (list (result io.Error string));
  open_file : string -> result io.Error File
}.

(** A file name at its last dot. *)
Fixpoint rsplit_dot (s : string) : option (string * string) :=
  match s with
  | EmptyString => None
  | String c s' =>
      match rsplit_dot s' with
      | Some (before, after) => Some (String c before, after)
      | None => if decide (c = "."%char) then Some (EmptyString, s') else None
      end
  end.

(** The parts [before] and [after] of [rsplit_file_at_dot]. *)
Definition rsplit_file_at_dot (s : string) : option string * option string :=
  if decide (s = "..") then (Some s, None)
  else match rsplit_dot s with
       | None => (None, Some s)
       | Some (EmptyString, _) => (Some s, None)
       | Some (before, after) => (Some before, Some after)
       end.

Definition file_stem (s : string) : option string :=
  let '(before, after) := rsplit_file_at_dot s in
  match before with Some b => Some b | None => after end.
Definition extension (s : string) : option string :=
  let '(before, after) := rsplit_file_at_dot s in
  match before with Some _ => after | None => None end.

(** [with_extension] replaces an extension the name already has. *)
Definition with_extension (name ext : string) : string :=
  if decide (name = "..") then name else default name (file_stem name) +:+ "." +:+ ext.

(** ** Layouts: fields of big-endian numbers *)
Class BinaryLayout := {
  read_uint : bytes -> Z;
  read_uint_be n z : 0 <= z < 256 ^ Z.of_nat n -> read_uint (be_bytes n z) = z
}.

#[refine] Instance binary_layout : BinaryLayout := { read_uint := of_be }.
Proof. exact of_be_be_bytes. Defined.

Definition field (from len : nat) (view : bytes) : bytes := take len (drop from view).

(** ** The primary index *)
Module primary.
Inductive Error :=
| VersionMissing (e : io.Error)
| CannotReadPrimaryIndex (e : io.Error).

Module Entry.
Inductive t :=
| Empty (slot : Z)
| Occupied (slot offset : Z).

Definition offset (self : t) : option Z :=
  match self with Empty _ => None | Occupied _ x => Some x end.
End Entry.

(** [layout::SIZE] *)
Definition SIZE : Z := 4.

Record Reader := {
  inner : BufReader;
  version : Z;
  last_slot : option Z;
  last_offset : option (result Error Z);
  next_offset : option (result Error Z)
}.

Section reader.
Context `{BinaryLayout}.

Definition read_version (inner : BufReader) : result Error Z * BufReader :=
  match read_exact 1 inner with
  | (Ok buf, inner) => (Ok (hd 0 buf), inner)
  | (Err e, inner) => (Err (VersionMissing e), inner)
  end.

Definition read_offset (f : BufReader) : option (result Error Z) * BufReader :=
  match read_exact SIZE f with
  | (Err io.UnexpectedEof, f) => (None, f)
  | (Err err, f) => (Some (Err (CannotReadPrimaryIndex err)), f)
  | (Ok buf, f) => (Some (Ok (read_uint buf)), f)
  end.

Definition open (f : File) : result Error Reader :=
  let '(version, inner) := read_version (BufReader_new f) in
  match version with
  | Err e => Err e
  | Ok version =>
      let '(last, inner) := read_offset inner in
      let '(next, inner) := read_offset inner in
      Ok {| inner := inner; version := version; last_slot := None;
            last_offset := last; next_offset := next |}
  end.

(** The slot numbers are [u32]. *)
#[global] Instance next : Iterator Reader (result Error Entry.t) := fun r =>
  let taken := {| inner := inner r; version := version r; last_slot := last_slot r;
                  last_offset := None; next_offset := None |} in
  match last_offset r, next_offset r with
  | None, _ => Returned (Ok None) taken
  | Some _, None => Returned (Ok None) taken
  | _, Some (Err err) => Returned (Ok (Some (Err err))) taken
  | Some (Err err), _ => Returned (Ok (Some (Err err))) taken
  | Some (Ok last), Some (Ok next) =>
      match from_option (fun x => checked_add 32 x 1) (Some 0) (last_slot r) with
      | None => Panicked
      | Some slot =>
          let entry := if last <? next then Entry.Occupied slot last else Entry.Empty slot in
          let '(following, inner) := read_offset (inner r) in
          Returned (Ok (Some (Ok entry)))
            {| inner := inner; version := version r; last_slot := Some slot;
               last_offset := Some (Ok next); next_offset := following |}
      end
  end.

Fixpoint next_occupied_loop (fuel : nat) : comp Empty_set Reader (option (result Error Entry.t)) :=
  match fuel with
  | O => unfinished
  | S fuel =>
      next ← next;
      match next with
      | None => mret None
      | Some (Err err) => mret (Some (Err err))
      | Some (Ok (Entry.Occupied _ _ as entry)) => mret (Some (Ok entry))
      | Some (Ok (Entry.Empty _)) => next_occupied_loop fuel
      end
  end.

(** Each turn of the loop uses up an offset that is kept or reads bytes. *)
Definition next_occupied : comp Empty_set Reader (option (result Error Entry.t)) := fun r =>
  next_occupied_loop (3 + length (unread (inner r))) r.
End reader.
End primary.

(** ** The secondary index *)
Module secondary.
Inductive Error :=
| CannotOpenFile (e : io.Error)
| CannotReadSecondaryIndex (e : io.Error)
| InconsistentState
| PrimaryIndexError (e : primary.Error).

Module Entry.
Record t := {
  block_offset : Z;
  header_offset : Z;
  header_size : Z;
  checksum : Z;
  header_hash : bytes;
  block_or_ebb : bytes
}.

Definition from `{BinaryLayout} (view : bytes) : t := {|
  block_offset := read_uint (field 0 8 view);
  header_offset := read_uint (field 8 2 view);
  header_size := read_uint (field 10 2 view);
  checksum := read_uint (field 12 4 view);
  header_hash := field 16 32 view;
  block_or_ebb := field 48 8 view
|}.
End Entry.

(** [layout::SIZE] *)
Definition SIZE : Z := 56.

Record Reader := {
  inner : BufReader;
  index : primary.Reader;
  current : option (result primary.Error primary.Entry.t)
}.

Section reader.
Context `{BinaryLayout}.

Definition open {E} (index : primary.Reader) (f : File) : comp E () Reader := fun s =>
  run primary.next_occupied index (fun current index =>
    Returned (Ok {| inner := BufReader_new f; index := index; current := current |}) s).

Definition failed (r : Reader) (inner : BufReader) : Reader :=
  {| inner := inner; index := index r; current := None |}.

(** [current as u64 - start] is checked; the position is always known. *)
#[global] Instance next : Iterator Reader (result Error Entry.t) := fun r =>
  match current r with
  | None => Returned (Ok None) r
  | Some (Err err) => Returned (Ok (Some (Err (PrimaryIndexError err)))) (failed r (inner r))
  | Some (Ok x) =>
      match primary.Entry.offset x with
      | None => Returned (Ok None) (failed r (inner r))
      | Some current =>
          match checked_sub current (stream_position (inner r)) with
          | None => Panicked
          | Some delta =>
              let '(sought, f) := seek_relative (as_i64 delta) (inner r) in
              match sought with
              | Err err => Returned (Ok (Some (Err (CannotReadSecondaryIndex err)))) (failed r f)
              | Ok _ =>
                  let '(buf, f) := read_exact SIZE f in
                  match buf with
                  | Ok buf =>
                      run primary.next_occupied (index r) (fun current index =>
                        Returned (Ok (Some (Ok (Entry.from buf))))
                          {| inner := f; index := index; current := current |})
                  | Err io.UnexpectedEof =>
                      Returned (Ok (Some (Err InconsistentState))) (failed r f)
                  | Err err =>
                      Returned (Ok (Some (Err (CannotReadSecondaryIndex err)))) (failed r f)
                  end
              end
          end
      end
  end.
Definition read_entries (dir : Dir) (name : string) : comp Error () Reader := fun s =>
  match open_file dir (with_extension name "primary") with
  | Err e => Returned (Err (CannotOpenFile e)) s
  | Ok f =>
      match primary.open f with
      | Err e => Returned (Err (PrimaryIndexError e)) s
      | Ok index =>
          match open_file dir (with_extension name "secondary") with
          | Err e => Returned (Err (CannotOpenFile e)) s
          | Ok f => open index f s
          end
      end
  end.
End reader.
End secondary.

(** ** Chunks *)
Module chunk.
Inductive Error :=
| CannotOpenChunkFile (e : io.Error)
| CannotReadBlock (e : io.Error)
| SecondaryIndexError (e : secondary.Error).

Record Reader := {
  inner : BufReader;
  index : secondary.Reader;
  current : option (result secondary.Error secondary.Entry.t);
  next_entry : option (result secondary.Error secondary.Entry.t)
}.

Section reader.
Context `{BinaryLayout}.

Definition open {E} (index : secondary.Reader) (chunks : File) : comp E () Reader := fun s =>
  run secondary.next index (fun current index =>
  run secondary.next index (fun next index =>
    Returned (Ok {| inner := BufReader_new chunks; index := index;
                    current := current; next_entry := next |}) s)).

Definition read_middle_block (next_offset : Z) : comp Error BufReader bytes := fun f =>
  match checked_sub next_offset (stream_position f) with
  | None => Panicked
  | Some delta =>
      match zeroed delta with
      | None => Panicked
      | Some buf =>
          let '(r, f) := read_exact (Z.of_nat (length buf)) f in
          Returned (match r with Ok buf => Ok buf | Err e => Err (CannotReadBlock e) end) f
      end
  end.

Definition read_last_block : comp Error BufReader bytes := fun f =>
  let '(r, f) := read_to_end f in
  Returned (match r with Ok buf => Ok buf | Err e => Err (CannotReadBlock e) end) f.

#[global] Instance next : Iterator Reader (result Error bytes) := fun r =>
  let taken f := {| inner := f; index := index r; current := None; next_entry := None |} in
  match current r, next_entry r with
  | None, _ => Returned (Ok None) (taken (inner r))
  | _, Some (Err next) => Returned (Ok (Some (Err (SecondaryIndexError next)))) (taken (inner r))
  | Some _, Some (Ok next) =>
      match read_middle_block (secondary.Entry.block_offset next) (inner r) with
      | Returned block f =>
          run secondary.next (index r) (fun following index =>
            Returned (Ok (Some block))
              {| inner := f; index := index; current := Some (Ok next); next_entry := following |})
      | Panicked => Panicked
      | Unfinished => Unfinished
      end
  | Some _, None =>
      match read_last_block (inner r) with
      | Returned block f => Returned (Ok (Some block)) (taken f)
      | Panicked => Panicked
      | Unfinished => Unfinished
      end
  end.

Definition read_blocks (dir : Dir) (name : string) : comp Error () Reader := fun s =>
  match secondary.read_entries dir name s with
  | Returned (Ok index) s =>
      match open_file dir (with_extension name "chunk") with
      | Err e => Returned (Err (CannotOpenChunkFile e)) s
      | Ok chunks => open index chunks s
      end
  | Returned (Err e) s => Returned (Err (SecondaryIndexError e)) s
  | Panicked => Panicked
  | Unfinished => Unfinished
  end.
End reader.
End chunk.

(** ** The immutable storage of a node: the chain

    [pallas-hardano/src/storage/immutable/mod.rs]: the chunks of a directory, the
    search for the chunk of a point, and the iterators over the blocks. *)

(** The decoder of blocks and what is asked of a block. *)
Class BlockDecoder := {
  MultiEraBlock : Type;
  DecodeError : Type;
  decode : bytes -> result DecodeError MultiEraBlock;
  slot : MultiEraBlock -> Z;
  number : MultiEraBlock -> Z;
  hash : MultiEraBlock -> bytes
}.

Module immutable.
Section error.
Context `{BlockDecoder}.
Inductive Error :=
| CannotFindBlock (point : Point.t)
| OriginMissing
| CannotReadDir (e : io.Error)
| CannotDecodeBlock (e : DecodeError)
| ChunkReadError (e : chunk.Error).
End error.
Arguments Error {_}.

(** ** The search for a chunk *)
Section search.
Context {E ChunkT PointT : Type}.
Variables (chunks : list ChunkT) (point : PointT) (cmp : ChunkT -> PointT -> comp E () comparison).

Fixpoint chunk_binary_search_loop (fuel size left right : nat) : comp E () (option nat) :=
  match fuel with
  | O => unfinished
  | S fuel =>
      if decide (0 < size)%nat then
        let mid := (left + size / 2)%nat in
        chunk ← eval (chunks !! mid);
        ordering ← cmp chunk point;
        match ordering with
        | Lt => let right := mid in chunk_binary_search_loop fuel (right - left) left right
        | Gt => let left := (mid + 1)%nat in chunk_binary_search_loop fuel (right - left) left right
        | Eq => mret (Some mid)
        end
      else mret (if decide (right < length chunks)%nat then Some right else None)
  end.

Definition chunk_binary_search : comp E () (option nat) :=
  let size := length chunks in
  chunk_binary_search_loop (S size) size 0 size.
End search.

(** ** Adaptors of iterators *)

(** [iter.peekable()] *)
Record Peekable (T Item : Type) := { iter : T; peeked : option (option Item) }.
Arguments iter {T Item} _.
Arguments peeked {T Item} _.
Arguments Build_Peekable {T Item} _ _.

Section peekable.
Context `{Iterator T Item}.

Definition peekable (it : T) : Peekable T Item := {| iter := it; peeked := None |}.

#[export] Instance peekable_next : Iterator (Peekable T Item) Item := fun p =>
  match peeked p with
  | Some v => Returned (Ok v) {| iter := iter p; peeked := None |}
  | None => run next (iter p) (fun v it => Returned (Ok v) {| iter := it; peeked := None |})
  end.

Definition peek {E} : comp E (Peekable T Item) (option Item) := fun p =>
  match peeked p with
  | Some v => Returned (Ok v) p
  | None => run next (iter p) (fun v it => Returned (Ok v) {| iter := it; peeked := Some v |})
  end.

(** [next] where the item is dropped. *)
Definition advance {E} : comp E (Peekable T Item) () := fun p =>
  run next p (fun _ p => Returned (Ok ()) p).

(** [last], with the fuel of [collect]. *)
Fixpoint iter_last_loop {E S} (fuel : nat) (seen : option Item) (it : T) : comp E S (option Item) :=
  match fuel with
  | O => unfinished
  | S fuel => fun s => run next it (fun v it =>
      match v with None => Returned (Ok seen) s | Some x => iter_last_loop fuel (Some x) it s end)
  end.
Definition iter_last {E S} (fuel : nat) (it : T) : comp E S (option Item) := iter_last_loop fuel None it.
End peekable.

(** ** Up to a point *)
Section till.
Context `{BlockDecoder} `{Iterator T (result chunk.Error bytes)}.

Definition decode_block {S} (data : bytes) : comp Error S MultiEraBlock :=
  returns (match decode data with Ok b => Ok b | Err e => Err (CannotDecodeBlock e) end).

(** The condition behind the loop. *)
Definition is_point (slot' : Z) (block_hash : bytes) (block : MultiEraBlock) : bool :=
  (bool_decide (block_hash = []) && (slot' <=? slot block)) ||
  (bool_decide (hash block = block_hash) && (slot block =? slot')).

(** [while block.slot() < slot]; the fuel bounds the number of blocks. *)
Fixpoint till_loop (fuel : nat) (slot' : Z) (block_hash : bytes) (block : MultiEraBlock) :
    comp Error (Peekable T (result chunk.Error bytes)) () :=
  match fuel with
  | O => unfinished
  | S fuel =>
      if slot block <? slot' then
        advance;;
        v ← peek;
        match v with
        | Some (Ok data) => block ← decode_block data; till_loop fuel slot' block_hash block
        | Some (Err _) | None => mret ()
        end
      else if is_point slot' block_hash block then mret ()
      else throw (CannotFindBlock (Point.Specific slot' block_hash))
  end.

(** The iterator that is returned is the state that is left. *)
Definition iterate_till_point (fuel : nat) (slot' : Z) (block_hash : bytes) :
    comp Error (Peekable T (result chunk.Error bytes)) () :=
  v ← peek;
  match v with
  | Some (Ok data) => block ← decode_block data; till_loop fuel slot' block_hash block
  | Some (Err _) | None => mret ()
  end.
End till.

(** ** The chunks of a directory *)

(** [map_while(|e| e.ok())] *)
Fixpoint while_ok {E A} (l : list (result E A)) : list A :=
  match l with Ok a :: l => a :: while_ok l | _ => [] end.

Definition chunk_names (dir : Dir) : result io.Error (list string) :=
  entries ← read_dir dir;
  mret (omap file_stem (filter (fun e => extension e = Some "chunk") (while_ok entries))).

Definition build_stack_of_chunk_names `{BlockDecoder} (dir : Dir) : result Error (list string) :=
  match chunk_names dir with
  | Err e => Err (CannotReadDir e)
  | Ok chunks => Ok (rev (removelast (merge_sort String.le chunks)))
  end.

(** The last name is taken from the stack. *)
Record ChunkReaders := { dir : Dir; names : list string }.

Fixpoint pop {A} (l : list A) : option (A * list A) :=
  match l with
  | [] => None
  | x :: l => match pop l with None => Some (x, []) | Some (y, l) => Some (y, x :: l) end
  end.

Section chain.
Context `{BinaryLayout}.

#[export] Instance chunk_readers_next : Iterator ChunkReaders (result chunk.Error chunk.Reader) := fun r =>
  match pop (names r) with
  | None => Returned (Ok None) r
  | Some (name, rest) =>
      let r := {| dir := dir r; names := rest |} in
      match chunk.read_blocks (dir r) name () with
      | Returned reader _ => Returned (Ok (Some reader)) r
      | Panicked => Panicked
      | Unfinished => Unfinished
      end
  end.

(** [readers.map_while(Result::ok).flatten()]: the reader in front, and the chunk
    readers until one cannot be opened. *)
Record Blocks := { readers : option ChunkReaders; front : option chunk.Reader }.

Definition flatten (r : ChunkReaders) : Blocks := {| readers := Some r; front := None |}.

Fixpoint flatten_loop (fuel : nat) : comp Empty_set Blocks (option (result chunk.Error bytes)) := fun b =>
  match fuel with
  | O => Unfinished
  | S fuel =>
      let others b :=
        match readers b with
        | None => Returned (Ok None) b
        | Some r => run next r (fun v r =>
            match v with
            | Some (Ok inner) => flatten_loop fuel {| readers := Some r; front := Some inner |}
            | Some (Err _) | None => Returned (Ok None) {| readers := None; front := None |}
            end)
        end in
      match front b with
      | None => others b
      | Some inner => run next inner (fun elt inner =>
          match elt with
          | Some x => Returned (Ok (Some x)) {| readers := readers b; front := Some inner |}
          | None => others {| readers := readers b; front := None |}
          end)
      end
  end.

(** Each turn takes a name. *)
#[export] Instance blocks_next : Iterator Blocks (result chunk.Error bytes) := fun b =>
  flatten_loop (S (from_option (fun r => length (names r)) O (readers b))) b.

Context `{BlockDecoder}.

Definition read_blocks (dir : Dir) : result Error Blocks :=
  names ← build_stack_of_chunk_names dir;
  mret (flatten {| dir := dir; names := names |}).

(** ** From a point *)

(** The two kinds of iterators that are boxed. *)
Inductive FromPoint :=
| FromOrigin (it : Peekable Blocks (result chunk.Error bytes))
| FromBlock (it : Peekable (Peekable Blocks (result chunk.Error bytes)) (result chunk.Error bytes)).

#[export] Instance from_point_next : Iterator FromPoint (result chunk.Error bytes) := fun b =>
  match b with
  | FromOrigin it => run next it (fun v it => Returned (Ok v) (FromOrigin it))
  | FromBlock it => run next it (fun v it => Returned (Ok v) (FromBlock it))
  end.

(** The comparator: the slot of the first block of a chunk against a slot. *)
Definition cmp_first (point : Z) (blocks : chunk.Reader) : comp Error () comparison := fun s =>
  run next blocks (fun v _ =>
    match v with
    | Some (Err e) => Returned (Err (ChunkReadError e)) s
    | Some (Ok data) => (block ← decode_block data; mret (slot block ?= point) : comp Error () comparison) s
    | None => Returned (Ok Gt) s
    end).

Definition cmp (dir : Dir) (chunk_name : string) (point : Z) : comp Error () comparison :=
  blocks ← map_err ChunkReadError (chunk.read_blocks dir chunk_name);
  cmp_first point blocks.

(** The iterator that is returned, in its box. *)
Definition boxed {T} (box : T -> FromPoint) (m : comp Error T ()) (it : T) : comp Error () FromPoint := fun s =>
  match m it with
  | Returned (Ok _) it => Returned (Ok (box it)) s
  | Returned (Err e) _ => Returned (Err e) s
  | Panicked => Panicked
  | Unfinished => Unfinished
  end.

Definition read_from_origin (dir : Dir) (names : list string) : comp Error () FromPoint :=
  boxed FromOrigin
    (v ← peek;
     match v with
     | Some (Ok data) =>
         block ← decode_block data;
         if (slot block =? 0) && (number block =? 0) then mret () else throw OriginMissing
     | Some (Err _) | None => mret ()
     end)
    (peekable (flatten {| dir := dir; names := names |})).

Definition read_from_block (fuel : nat) (dir : Dir) (names : list string) (slot' : Z) (block_hash : bytes) :
    comp Error () FromPoint :=
  found ← chunk_binary_search names slot' (cmp dir);
  match found with
  | None => throw (CannotFindBlock (Point.Specific slot' block_hash))
  | Some chunk_index =>
      let names := take (chunk_index + 1) names in
      boxed FromBlock (iterate_till_point fuel slot' block_hash)
        (peekable (peekable (flatten {| dir := dir; names := names |})))
  end.

Definition read_blocks_from_point (fuel : nat) (dir : Dir) (point : Point.t) : comp Error () FromPoint :=
  names ← returns (build_stack_of_chunk_names dir);
  match point with
  | Point.Origin => read_from_origin dir names
  | Point.Specific slot' block_hash => read_from_block fuel dir names slot' block_hash
  end.

Definition get_tip (fuel : nat) (dir : Dir) : comp Error () (option Point.t) :=
  names ← returns (build_stack_of_chunk_names dir);
  match names with
  | name :: _ =>
      v ← iter_last fuel (flatten {| dir := dir; names := [name] |});
      match v with
      | None => mret None
      | Some (Err e) => throw (ChunkReadError e)
      | Some (Ok data) =>
          block ← decode_block data;
          mret (Some (Point.Specific (slot block) (hash block)))
      end
  | [] => mret None
  end.
End chain.
End immutable.
