(* ===== verification/ImmutableReading.v ===== *)
(** * What the readers of the immutable storage read

    The files of a chunk as a node writes them, and the readers on such files: the
    primary index gives the offsets of the entries of the secondary index, whose
    offsets cut the chunk into its blocks. *)
From S2P Require Import Prelude Effects Immutable.

(** ** Reading a sound file *)

(** The file of [p ++ l], read up to [l]. *)
Definition cursor (p l : bytes) : BufReader :=
  {| file := {| contents := p ++ l; fault := None |}; stream_position := Z.of_nat (length p) |}.

Lemma unread_cursor p l : unread (cursor p l) = l.
Proof. unfold unread, cursor; simpl. by rewrite Nat2Z.id, drop_app_length. Qed.

Lemma cursor_start l : BufReader_new {| contents := l; fault := None |} = cursor [] l.
Proof. done. Qed.

Lemma read_exact_cursor n p a l :
  n = Z.of_nat (length a) -> read_exact n (cursor p (a ++ l)) = (Ok a, cursor (p ++ a) l).
Proof.
  intros ->. unfold read_exact. rewrite unread_cursor, length_app, (proj2 (Z.leb_le _ _)) by lia.
  rewrite Nat2Z.id, take_app_length. unfold move, cursor; simpl.
  rewrite length_app, Nat2Z.inj_add, <- app_assoc. done.
Qed.

Lemma read_exact_short n p l :
  Z.of_nat (length l) < n -> read_exact n (cursor p l) = (Err io.UnexpectedEof, cursor (p ++ l) []).
Proof.
  intros Hn. unfold read_exact. rewrite unread_cursor, (proj2 (Z.leb_gt _ _)) by lia.
  unfold move, cursor; simpl. rewrite app_nil_r, !length_app.
  do 2 f_equal. lia.
Qed.

Lemma read_to_end_cursor p l : read_to_end (cursor p l) = (Ok l, cursor (p ++ l) []).
Proof.
  unfold read_to_end. rewrite unread_cursor. unfold move, cursor; simpl.
  rewrite app_nil_r, !length_app. do 2 f_equal. lia.
Qed.

Lemma seek_nowhere r : 0 <= stream_position r < 2 ^ 63 -> seek_relative (as_i64 0) r = (Ok (), r).
Proof.
  intros Hr. unfold seek_relative, as_i64. simpl. rewrite Z.add_0_r.
  rewrite (proj2 (Z.leb_le _ _)), (proj2 (Z.ltb_lt _ _)) by lia. by destruct r.
Qed.

(** ** The primary index

    Slot by slot, whether there is a block: one more offset than there are slots. *)
Definition step_offset (occupied : bool) (o : Z) : Z := if occupied then o + 56 else o.

Fixpoint index_bytes (o : Z) (slots : list bool) : bytes :=
  match slots with
  | [] => []
  | b :: slots => be_bytes 4 (step_offset b o) ++ index_bytes (step_offset b o) slots
  end.

Definition primary_bytes (version : Z) (slots : list bool) : bytes :=
  version :: be_bytes 4 0 ++ index_bytes 0 slots.

Definition occupied (slots : list bool) : nat := length (filter (eq true) slots).

Lemma occupied_cons b slots : occupied (b :: slots) = ((if b then 1 else 0) + occupied slots)%nat.
Proof. unfold occupied. rewrite filter_cons. by destruct b. Qed.

Section primary.
Context `{BinaryLayout}.
Import primary.

Lemma read_offset_cursor p o l :
  in_u 32 o -> read_offset (cursor p (be_bytes 4 o ++ l)) = (Some (Ok o), cursor (p ++ be_bytes 4 o) l).
Proof.
  intros Ho. unfold read_offset. rewrite read_exact_cursor by by rewrite length_be_bytes.
  by rewrite read_uint_be.
Qed.

Lemma read_offset_end p : read_offset (cursor p []) = (None, cursor p []).
Proof. unfold read_offset. rewrite read_exact_short by done. by rewrite app_nil_r. Qed.

(** The reader before the slots [slots], the first of which has the offset [o]. *)
Definition primary_at (v : Z) (seen : option Z) (p : bytes) (o : Z) (slots : list bool) : Reader :=
  match slots with
  | [] => {| inner := cursor p []; version := v; last_slot := seen;
             last_offset := Some (Ok o); next_offset := None |}
  | b :: slots =>
      {| inner := cursor p (index_bytes (step_offset b o) slots); version := v; last_slot := seen;
         last_offset := Some (Ok o); next_offset := Some (Ok (step_offset b o)) |}
  end.

(** Offsets and slots are in range to the end. *)
Definition in_range (seen : option Z) (o : Z) (slots : list bool) : Prop :=
  0 <= o /\ o + 56 * Z.of_nat (occupied slots) < 2 ^ 32 /\
  from_option (Z.add 1) 0 seen + Z.of_nat (length slots) < 2 ^ 32.

Lemma in_range_step seen o b slots :
  in_range seen o (b :: slots) ->
  in_range (Some (from_option (Z.add 1) 0 seen)) (step_offset b o) slots /\ in_u 32 (step_offset b o).
Proof.
  unfold in_range, in_u, step_offset. rewrite occupied_cons. cbn [length from_option].
  destruct b; lia.
Qed.

Lemma primary_following v seen p o slots :
  in_range seen o slots ->
  exists p', read_offset (cursor p (index_bytes o slots)) =
    (next_offset (primary_at v seen p' o slots), inner (primary_at v seen p' o slots)).
Proof.
  intros Hr. destruct slots as [|b slots]; cbn [index_bytes primary_at next_offset inner].
  - exists p. apply read_offset_end.
  - eexists. apply read_offset_cursor. exact (proj2 (in_range_step _ _ _ _ Hr)).
Qed.

Lemma primary_next v seen p o b slots :
  in_range seen o (b :: slots) ->
  let s := from_option (Z.add 1) 0 seen in
  exists p', next (primary_at v seen p o (b :: slots)) =
    Returned (Ok (Some (Ok (if b then Entry.Occupied s o else Entry.Empty s))))
             (primary_at v (Some s) p' (step_offset b o) slots).
Proof.
  intros Hr s. destruct (in_range_step _ _ _ _ Hr) as [Hr' _].
  destruct (primary_following v (Some s) p _ _ Hr') as [p' Hp].
  exists p'. cbn [primary_at]. unfold next. cbn [last_offset next_offset last_slot inner version].
  assert (Hs : from_option (λ x : Z, checked_add 32 x 1) (Some 0) seen = Some s).
  { destruct Hr as (_ & _ & Hr). unfold s in *. destruct seen as [x|]; [|done].
    simpl in *. apply checked_add_Some. lia. }
  rewrite Hs, Hp. unfold step_offset.
  assert (Ho : (o <? (if b then o + 56 else o)) = b) by (destruct b; [apply Z.ltb_lt|apply Z.ltb_ge]; lia).
  rewrite Ho. by destruct b, slots.
Qed.
End primary.

(** ** Occupied slots *)
Section occupied.
Context `{BinaryLayout}.
Import primary.

(** The slots behind the first occupied one. *)
Fixpoint behind_occupied (slots : list bool) : option (list bool) :=
  match slots with
  | [] => None
  | true :: slots => Some slots
  | false :: slots => behind_occupied slots
  end.

Lemma behind_occupied_count slots rest : behind_occupied slots = Some rest -> occupied slots = S (occupied rest).
Proof.
  induction slots as [|[] slots IH]; simpl; [done|intros [= ->]; by rewrite occupied_cons|].
  rewrite occupied_cons. exact IH.
Qed.

Lemma behind_occupied_none slots : behind_occupied slots = None <-> occupied slots = 0%nat.
Proof. induction slots as [|[] slots IH]; simpl; [done|done|]. rewrite occupied_cons. exact IH. Qed.

Lemma length_index_bytes o slots : length (index_bytes o slots) = (4 * length slots)%nat.
Proof.
  revert o; induction slots as [|b slots IH]; intros o; [done|].
  cbn [index_bytes]. rewrite length_app, length_be_bytes, IH. simpl. lia.
Qed.

Lemma next_occupied_loop_at fuel v seen p o slots :
  in_range seen o slots -> (length slots < fuel)%nat ->
  match behind_occupied slots with
  | None => exists r, next_occupied_loop fuel (primary_at v seen p o slots) = Returned (Ok None) r
  | Some rest => exists s p',
      next_occupied_loop fuel (primary_at v seen p o slots) =
        Returned (Ok (Some (Ok (Entry.Occupied s o)))) (primary_at v (Some s) p' (o + 56) rest) /\
      in_range (Some s) (o + 56) rest
  end.
Proof.
  revert seen p slots; induction fuel as [|fuel IH]; intros seen p slots Hr Hf; [lia|].
  cbn [next_occupied_loop]. unfold mbind, comp_bind.
  destruct slots as [|b slots].
  - simpl. by eexists.
  - destruct (primary_next v seen p o b slots Hr) as [p' Hn]. unfold Immutable.next in *. rewrite Hn.
    destruct (in_range_step _ _ _ _ Hr) as [Hr' _]. simpl in Hf.
    destruct b; cbn [behind_occupied]; [by eexists _, p'|].
    apply (IH _ p' slots); [done|lia].
Qed.

Lemma next_occupied_at v seen p o slots :
  in_range seen o slots ->
  match behind_occupied slots with
  | None => exists r, next_occupied (primary_at v seen p o slots) = Returned (Ok None) r
  | Some rest => exists s p',
      next_occupied (primary_at v seen p o slots) =
        Returned (Ok (Some (Ok (Entry.Occupied s o)))) (primary_at v (Some s) p' (o + 56) rest) /\
      in_range (Some s) (o + 56) rest
  end.
Proof.
  intros Hr. unfold next_occupied. apply next_occupied_loop_at; [done|].
  destruct slots as [|b slots]; cbn [primary_at inner length]; [lia|].
  rewrite unread_cursor, length_index_bytes. lia.
Qed.

Lemma open_primary v slots :
  in_range None 0 slots ->
  exists p, primary.open {| contents := primary_bytes v slots; fault := None |} = Ok (primary_at v None p 0 slots).
Proof.
  intros Hr. unfold primary.open, primary_bytes, read_version. rewrite cursor_start.
  change (v :: be_bytes 4 0 ++ index_bytes 0 slots) with ([v] ++ be_bytes 4 0 ++ index_bytes 0 slots).
  rewrite read_exact_cursor by done.
  rewrite read_offset_cursor by done.
  destruct (primary_following v None ([] ++ [v] ++ be_bytes 4 0) 0 slots Hr) as [p' Hp].
  rewrite app_assoc in Hp. rewrite Hp. exists p'. by destruct slots.
Qed.
End occupied.

(** ** The secondary index *)
Definition entry_bytes (e : secondary.Entry.t) : bytes :=
  be_bytes 8 (secondary.Entry.block_offset e) ++ be_bytes 2 (secondary.Entry.header_offset e) ++
  be_bytes 2 (secondary.Entry.header_size e) ++ be_bytes 4 (secondary.Entry.checksum e) ++
  secondary.Entry.header_hash e ++ secondary.Entry.block_or_ebb e.

Definition entry_valid (e : secondary.Entry.t) : Prop :=
  in_u 64 (secondary.Entry.block_offset e) /\ in_u 16 (secondary.Entry.header_offset e) /\
  in_u 16 (secondary.Entry.header_size e) /\ in_u 32 (secondary.Entry.checksum e) /\
  length (secondary.Entry.header_hash e) = 32%nat /\ length (secondary.Entry.block_or_ebb e) = 8%nat.

Lemma field_app from len p a l : length p = from -> length a = len -> field from len (p ++ a ++ l) = a.
Proof. intros <- <-. unfold field. by rewrite drop_app_length, take_app_length. Qed.

Section secondary.
Context `{BinaryLayout}.
Import secondary.

Lemma length_entry_bytes e : entry_valid e -> length (entry_bytes e) = 56%nat.
Proof.
  intros (_ & _ & _ & _ & Hh & Hb). unfold entry_bytes. rewrite !length_app, !length_be_bytes, Hh, Hb. done.
Qed.

Lemma Entry_roundtrip e : entry_valid e -> Entry.from (entry_bytes e) = e.
Proof.
  destruct e as [bo ho hs cs hh eb]. intros (H1 & H2 & H3 & H4 & H5 & H6); simpl in *.
  unfold Entry.from, entry_bytes; cbn [Entry.block_offset Entry.header_offset Entry.header_size
    Entry.checksum Entry.header_hash Entry.block_or_ebb].
  set (w := be_bytes 8 bo ++ _).
  assert (F : forall from len p a l, length p = from -> length a = len ->
    w = p ++ a ++ l -> field from len w = a) by (intros * ? ? ->; by apply field_app).
  rewrite (F 0%nat 8%nat [] (be_bytes 8 bo) (be_bytes 2 ho ++ be_bytes 2 hs ++ be_bytes 4 cs ++ hh ++ eb)),
    (F 8%nat 2%nat (be_bytes 8 bo) (be_bytes 2 ho) (be_bytes 2 hs ++ be_bytes 4 cs ++ hh ++ eb)),
    (F 10%nat 2%nat (be_bytes 8 bo ++ be_bytes 2 ho) (be_bytes 2 hs) (be_bytes 4 cs ++ hh ++ eb)),
    (F 12%nat 4%nat (be_bytes 8 bo ++ be_bytes 2 ho ++ be_bytes 2 hs) (be_bytes 4 cs) (hh ++ eb)),
    (F 16%nat 32%nat (be_bytes 8 bo ++ be_bytes 2 ho ++ be_bytes 2 hs ++ be_bytes 4 cs) hh eb),
    (F 48%nat 8%nat (be_bytes 8 bo ++ be_bytes 2 ho ++ be_bytes 2 hs ++ be_bytes 4 cs ++ hh) eb [])
    by (unfold w; rewrite ?app_nil_r, <- ?app_assoc, ?length_app, ?length_be_bytes, ?H5; done).
  by rewrite !read_uint_be.
Qed.

(** The reader is before the entries [es], with the primary index at their slots. *)
Definition secondary_ready (r : Reader) (es : list Entry.t) : Prop :=
  exists p, inner r = cursor p (concat (entry_bytes <$> es)) /\
  match es with
  | [] => current r = None
  | _ :: es => exists v s pp slots,
      current r = Some (Ok (primary.Entry.Occupied s (Z.of_nat (length p)))) /\
      index r = primary_at v (Some s) pp (Z.of_nat (length p) + 56) slots /\
      in_range (Some s) (Z.of_nat (length p) + 56) slots /\
      occupied slots = length es
  end.

(** Where the primary index is, the next entry will be. *)
Lemma primary_is_next v seen pp o slots n :
  in_range seen o slots -> occupied slots = n ->
  exists current index, primary.next_occupied (primary_at v seen pp o slots) = Returned (Ok current) index /\
  match n with
  | O => current = None
  | S n => exists s pp' rest, current = Some (Ok (primary.Entry.Occupied s o)) /\
      index = primary_at v (Some s) pp' (o + 56) rest /\ in_range (Some s) (o + 56) rest /\ occupied rest = n
  end.
Proof.
  intros Hr Hn. pose proof (next_occupied_at v seen pp o slots Hr) as HN.
  destruct (behind_occupied slots) as [rest|] eqn:Hb.
  - apply behind_occupied_count in Hb. destruct HN as (s & p' & HN & Hr').
    do 2 eexists. split; [exact HN|]. rewrite <- Hn, Hb. by exists s, p', rest.
  - apply behind_occupied_none in Hb. destruct HN as [r HN].
    do 2 eexists. split; [exact HN|]. by rewrite <- Hn, Hb.
Qed.

Lemma secondary_next r e es :
  secondary_ready r (e :: es) -> entry_valid e ->
  exists r', next r = Returned (Ok (Some (Ok e))) r' /\ secondary_ready r' es.
Proof.
  intros (p & Hi & v & s & pp & slots & Hc & Hx & Hr & Ho) He.
  destruct (primary_is_next v (Some s) pp _ slots _ Hr Ho) as (c & ix & HN & HM).
  unfold next. rewrite Hc. cbn [primary.Entry.offset]. rewrite Hi. cbn [stream_position cursor].
  rewrite checked_sub_le, Z.sub_diag by lia.
  fold (cursor p (concat (entry_bytes <$> e :: es))).
  rewrite seek_nowhere by (simpl; destruct Hr; lia).
  rewrite fmap_cons, concat_cons, read_exact_cursor by by rewrite length_entry_bytes.
  rewrite Hx. unfold run. rewrite HN, Entry_roundtrip by done.
  eexists. split; [reflexivity|]. exists (p ++ entry_bytes e). split; [done|].
  rewrite length_app, length_entry_bytes, Nat2Z.inj_add by done.
  destruct es as [|e' es]; [done|]. destruct HM as (s' & pp' & rest & -> & -> & ? & ?). by exists v, s', pp', rest.
Qed.

Lemma secondary_done r : secondary_ready r [] -> next r = Returned (Ok None) r.
Proof. intros (p & _ & Hc). unfold next. by rewrite Hc. Qed.

(** Opening the indices of a chunk. *)
Lemma secondary_open {E} v p slots es :
  in_range None 0 slots -> occupied slots = length es ->
  exists r, secondary.open (E:=E) (primary_at v None p 0 slots)
      {| contents := concat (entry_bytes <$> es); fault := None |} () = Returned (Ok r) () /\
    secondary_ready r es.
Proof.
  intros Hr Ho. destruct (primary_is_next v None p 0 slots _ Hr Ho) as (c & ix & HN & HM).
  unfold secondary.open, run. rewrite HN. eexists. split; [reflexivity|].
  exists []. split; [done|]. destruct es as [|e es]; [done|].
  destruct HM as (s' & pp' & rest & -> & -> & ? & ?). by exists v, s', pp', rest.
Qed.

(** The entries come one by one. *)
Lemma secondary_yields r es : secondary_ready r es -> Forall entry_valid es -> Yields r (Ok <$> es).
Proof.
  intros Hr He. revert r Hr; induction He as [|e es He _ IH]; intros r Hr.
  - eapply Yields_end. by apply secondary_done.
  - destruct (secondary_next r e es Hr He) as (r' & Hn & Hr'). rewrite fmap_cons. eapply Yields_item; [exact Hn|by apply IH].
Qed.
End secondary.

(** ** Chunks *)

(** The entries [es] cut the blocks [bs], the first of which starts at [o]. *)
Fixpoint aligned (o : Z) (es : list secondary.Entry.t) (bs : list bytes) : Prop :=
  match es, bs with
  | [], [] => True
  | e :: es, b :: bs => secondary.Entry.block_offset e = o /\ aligned (o + Z.of_nat (length b)) es bs
  | _, _ => False
  end.

Lemma aligned_length o es bs : aligned o es bs -> length es = length bs.
Proof. revert o bs; induction es as [|e es IH]; intros o [|b bs]; simpl; try done. intros [_ Ha]. f_equal. by eapply IH. Qed.

Lemma aligned_cons o es b bs : aligned o es (b :: bs) ->
  exists e es', es = e :: es' /\ secondary.Entry.block_offset e = o /\ aligned (o + Z.of_nat (length b)) es' bs.
Proof. destruct es as [|e es]; [done|]. intros [? ?]. eauto. Qed.

(** What a sound chunk consists of. *)
Record sound_chunk (v : Z) (slots : list bool) (es : list secondary.Entry.t) (bs : list bytes) : Prop := {
  sound_slots : occupied slots = length es;
  sound_range : in_range None 0 slots;
  sound_entries : Forall entry_valid es;
  sound_aligned : aligned 0 es bs
}.

(** The files of the chunk [name]: the indices of the blocks [bs], and a file. *)
Definition chunk_indexed (dir : Dir) (name : string) (bs : list bytes) (f : File) : Prop :=
  exists v slots es, sound_chunk v slots es bs /\
  open_file dir (with_extension name "primary") = Ok {| contents := primary_bytes v slots; fault := None |} /\
  open_file dir (with_extension name "secondary") = Ok {| contents := concat (entry_bytes <$> es); fault := None |} /\
  open_file dir (with_extension name "chunk") = Ok f.

(** The file has exactly the blocks. *)
Definition chunk_stored (dir : Dir) (name : string) (bs : list bytes) : Prop :=
  chunk_indexed dir name bs {| contents := concat bs; fault := None |} /\
  Z.of_nat (length (concat bs)) < 2 ^ 63.

Section chunk.
Context `{BinaryLayout}.
Import chunk.

(** The reader is before the entries of the blocks [bs], the first of which starts at [o]. *)
Definition index_ready (r : Reader) (o : Z) (bs : list bytes) : Prop :=
  match bs with
  | [] => current r = None
  | b :: bs => exists e es,
      current r = Some (Ok e) /\ aligned (o + Z.of_nat (length b)) es bs /\ Forall entry_valid es /\
      match es with
      | [] => next_entry r = None
      | e :: es => next_entry r = Some (Ok e) /\ secondary_ready (index r) es
      end
  end.

(** It is before the blocks [bs]. *)
Definition chunk_ready (r : Reader) (bs : list bytes) : Prop :=
  exists p, inner r = cursor p (concat bs) /\ Z.of_nat (length p + length (concat bs)) < 2 ^ 63 /\
  index_ready r (Z.of_nat (length p)) bs.

(** The reader has looked at the entries [es] of the index. *)
Lemma index_looked r es :
  secondary_ready r es -> Forall entry_valid es ->
  exists x r', secondary.next r = Returned (Ok x) r' /\
  match es with
  | [] => x = None
  | e :: es => x = Some (Ok e) /\ secondary_ready r' es
  end.
Proof.
  intros Hr He. destruct es as [|e es].
  - exists None, r. split; [by apply secondary_done|done].
  - apply Forall_cons in He as [He _]. destruct (secondary_next r e es Hr He) as (r' & Hn & Hr').
    by exists (Some (Ok e)), r'.
Qed.

(** The last block has no following entry. *)
Lemma index_last r o b : index_ready r o [b] -> exists e, current r = Some (Ok e) /\ next_entry r = None.
Proof. intros (e & es & Hc & Ha & _ & Hx). destruct es; [by exists e|done]. Qed.

(** Another block: its entry has been read, and the reader moves on to it. *)
Lemma index_step r o b b' bs :
  index_ready r o (b :: b' :: bs) ->
  exists e e' following index', current r = Some (Ok e) /\ next_entry r = Some (Ok e') /\
    secondary.Entry.block_offset e' = o + Z.of_nat (length b) /\
    secondary.next (index r) = Returned (Ok following) index' /\
    forall f, index_ready {| inner := f; index := index'; current := Some (Ok e'); next_entry := following |}
      (o + Z.of_nat (length b)) (b' :: bs).
Proof.
  intros (e & es & Hc & Ha & He & Hx). destruct es as [|e' es]; [done|].
  destruct Hx as [Hn Hx], Ha as [Ho Ha]. apply Forall_cons in He as [_ He].
  destruct (index_looked (index r) es Hx He) as (x & r' & Hs & Hx').
  exists e, e', x, r'. split_and!; try done. intros f. exists e', es. by split_and!.
Qed.

Lemma read_middle_cursor p b l next :
  next = Z.of_nat (length p) + Z.of_nat (length b) -> Z.of_nat (length b) < 2 ^ 63 ->
  read_middle_block next (cursor p (b ++ l)) = Returned (Ok b) (cursor (p ++ b) l).
Proof.
  intros -> Hb. unfold read_middle_block. cbn [stream_position cursor].
  rewrite checked_sub_le by lia. unfold zeroed. rewrite (proj2 (Z.ltb_lt _ _)) by lia.
  fold (cursor p (b ++ l)). rewrite length_replicate.
  by rewrite read_exact_cursor by lia.
Qed.

(** The file ends before the block does. *)
Lemma read_middle_short p l next :
  Z.of_nat (length p) + Z.of_nat (length l) < next < 2 ^ 63 ->
  read_middle_block next (cursor p l) =
    Returned (Err (CannotReadBlock io.UnexpectedEof)) (cursor (p ++ l) []).
Proof.
  intros Hb. unfold read_middle_block. cbn [stream_position cursor].
  rewrite checked_sub_le by lia. unfold zeroed. rewrite (proj2 (Z.ltb_lt _ _)) by lia.
  fold (cursor p l). rewrite length_replicate.
  by rewrite read_exact_short by lia.
Qed.

Lemma chunk_next r b bs :
  chunk_ready r (b :: bs) ->
  exists r', next r = Returned (Ok (Some (Ok b))) r' /\ chunk_ready r' bs.
Proof.
  intros (p & Hi & Hs & Hr). unfold next. rewrite Hi. rewrite concat_cons, length_app in *.
  destruct bs as [|b' bs].
  - destruct (index_last _ _ _ Hr) as (e & -> & ->). unfold read_last_block.
    rewrite read_to_end_cursor. cbn [concat]. rewrite app_nil_r.
    eexists. split; [reflexivity|]. exists (p ++ b). cbn [concat] in *. rewrite length_app. simpl in *.
    split_and!; [done|lia|done].
  - destruct (index_step _ _ _ _ _ Hr) as (e & e' & x & ix & -> & -> & Ho & Hn & Hr').
    rewrite (read_middle_cursor p b _ _ Ho) by lia. unfold run, Immutable.next in *. rewrite Hn.
    eexists. split; [reflexivity|]. exists (p ++ b).
    split; [done|]. rewrite length_app. split; [lia|]. rewrite Nat2Z.inj_add. apply Hr'.
Qed.

Lemma chunk_done r : chunk_ready r [] -> exists r', next r = Returned (Ok None) r'.
Proof. intros (p & _ & _ & Hc). unfold next. rewrite Hc. by eexists. Qed.

Lemma chunk_yields r bs : chunk_ready r bs -> Yields r (Ok <$> bs).
Proof.
  revert r; induction bs as [|b bs IH]; intros r Hr.
  - destruct (chunk_done r Hr) as [r' Hn]. by eapply Yields_end.
  - destruct (chunk_next r b bs Hr) as (r' & Hn & Hr'). rewrite fmap_cons.
    eapply Yields_item; [exact Hn|by apply IH].
Qed.

(** Opening a chunk. *)
Lemma read_blocks_opens dir name bs f :
  chunk_indexed dir name bs f ->
  exists r, read_blocks dir name () = Returned (Ok r) () /\ inner r = BufReader_new f /\ index_ready r 0 bs.
Proof.
  intros (v & slots & es & [Ho Hr He Ha] & Hp & Hse & Hch).
  unfold read_blocks, secondary.read_entries. rewrite Hp.
  destruct (open_primary v slots Hr) as [p ->]. rewrite Hse.
  destruct (secondary_open (E:=secondary.Error) v p slots es Hr Ho) as (ix & -> & Hx). rewrite Hch.
  unfold open, run.
  destruct (index_looked ix es Hx He) as (x & ix' & Hn & Hx'). unfold Immutable.next in *. rewrite Hn.
  destruct es as [|e es], bs as [|b bs]; try done.
  - subst x. rewrite (secondary_done ix Hx) in Hn. injection Hn as <-. rewrite (secondary_done ix Hx).
    by eexists.
  - destruct Hx' as [-> Hx'], Ha as [H0 Ha]. apply Forall_cons in He as [_ He].
    destruct (index_looked ix' es Hx' He) as (y & ix'' & Hn' & Hy). rewrite Hn'.
    eexists. split_and!; [reflexivity|done|]. exists e, es. by split_and!.
Qed.

Lemma read_blocks_stored dir name bs :
  chunk_stored dir name bs -> exists r, read_blocks dir name () = Returned (Ok r) () /\ chunk_ready r bs.
Proof.
  intros [Hx Hs]. destruct (read_blocks_opens dir name bs _ Hx) as (r & Hr & Hi & Ho).
  exists r. split; [done|]. by exists [].
Qed.

(** ** Damaged chunks *)

(** What is read of the blocks [bs] when the file ends after [n] of their bytes. *)
Fixpoint cut (n : nat) (bs : list bytes) : list (result Error bytes) :=
  match bs with
  | [] => []
  | [b] => [Ok (take n b)]
  | b :: bs =>
      if decide (length b <= n)%nat then Ok b :: cut (n - length b) bs
      else Err (CannotReadBlock io.UnexpectedEof) :: cut 0 bs
  end.

(** The reader before the blocks [bs], the first of which starts at [o]; behind the
    end of the file, nothing is left. *)
Definition cut_ready (r : Reader) (n : nat) (o : Z) (bs : list bytes) : Prop :=
  exists p, inner r = cursor p (take n (concat bs)) /\ index_ready r o bs /\
  (o = Z.of_nat (length p) \/ n = 0%nat /\ Z.of_nat (length p) <= o) /\
  o + Z.of_nat (length (concat bs)) < 2 ^ 63.

Lemma cut_yields r n o bs :
  cut_ready r n o bs -> Forall (.≠ []) bs -> Yields r (cut n bs).
Proof.
  revert r n o; induction bs as [|b bs IH]; intros r n o (p & Hi & Hr & Ho & Hs) Hne.
  - eapply Yields_end. unfold Immutable.next, next. by rewrite Hr.
  - apply Forall_cons in Hne as [Hb Hne]. assert (Hb0 : (0 < length b)%nat) by (destruct b; [done|simpl; lia]).
    rewrite concat_cons, length_app, Nat2Z.inj_add in *. destruct bs as [|b' bs].
    + destruct (index_last _ _ _ Hr) as (e & Hc & Hn). cbn [cut]. cbn [concat] in Hi. rewrite app_nil_r in Hi.
      eapply (Yields_item r {| inner := cursor (p ++ take n b) []; index := index r; current := None; next_entry := None |}); [|by eapply Yields_end].
      unfold Immutable.next, next. rewrite Hc, Hn, Hi. unfold read_last_block. by rewrite read_to_end_cursor.
    + destruct (index_step _ _ _ _ _ Hr) as (e & e' & x & ix & Hc & Hn & Hoff & Hsec & Hr').
      set (l := take n _) in Hi. cbn [cut]. case_decide as Hle.
      * destruct Ho as [Ho|[-> Ho]]; [|lia]. unfold l in Hi. rewrite take_app_ge in Hi by done.
        eapply Yields_item; [unfold Immutable.next, next; rewrite Hc, Hn, Hi|eapply IH; [|done]].
        -- rewrite read_middle_cursor by lia. unfold run, Immutable.next. by rewrite Hsec.
        -- exists (p ++ b). rewrite length_app. split_and!; [done|apply Hr'|lia|lia].
      * assert (Hl : (length l <= n)%nat) by (unfold l; rewrite length_take; lia).
        eapply Yields_item; [unfold Immutable.next, next; rewrite Hc, Hn, Hi|eapply IH; [|done]].
        -- rewrite read_middle_short by lia. unfold run, Immutable.next. by rewrite Hsec.
        -- exists (p ++ l). rewrite length_app. split_and!; [done|apply Hr'|lia|lia].
Qed.

(** No entry can be read, but there is an occupied slot. *)
Lemma missing_entry_yields dir name v slots rest f o :
  in_range None 0 slots -> occupied slots = S o -> (length rest < 56)%nat ->
  open_file dir (with_extension name "primary") = Ok {| contents := primary_bytes v slots; fault := None |} ->
  open_file dir (with_extension name "secondary") = Ok {| contents := rest; fault := None |} ->
  open_file dir (with_extension name "chunk") = Ok {| contents := f; fault := None |} ->
  exists r, read_blocks dir name () = Returned (Ok r) () /\ Yields r [Ok f].
Proof.
  intros Hr Ho Hl Hp Hs Hc. unfold read_blocks, secondary.read_entries. rewrite Hp.
  destruct (open_primary v slots Hr) as [p ->]. rewrite Hs.
  destruct (primary_is_next v None p 0 slots _ Hr Ho) as (c & ix & HN & s & pp & rest' & -> & Hix & _).
  unfold secondary.open, run at 1. rewrite HN, Hc, cursor_start.
  unfold open, run at 1, secondary.next at 1. cbn [secondary.current primary.Entry.offset secondary.inner].
  rewrite checked_sub_le by done. change (0 - stream_position (cursor [] rest)) with 0.
  rewrite seek_nowhere, read_exact_short by (unfold secondary.SIZE; simpl; lia).
  unfold run, secondary.next, secondary.failed. cbn [secondary.current].
  eexists. split; [reflexivity|]. rewrite cursor_start.
  eapply (Yields_item _ {| inner := cursor ([] ++ f) []; index := _; current := None; next_entry := None |}).
  - unfold Immutable.next, next. cbn [current next_entry inner index]. unfold read_last_block. by rewrite (read_to_end_cursor [] f).
  - by eapply Yields_end.
Qed.
End chunk.
