(* ===== verification/ImmutableProps.v ===== *)
(** * Properties of the immutable storage

    A directory whose chunks are sound: the chain that is read from it, from the
    beginning and from a point, its tip, and what becomes of damaged chunks. *)
From S2P Require Import Prelude Effects MiniCommon Immutable ImmutableReading.

Import immutable.

(** ** Iterators of blocks *)
Lemma rev_reverse {A} (l : list A) : rev l = reverse l.
Proof. apply rev_alt. Qed.

Lemma elem_of_concat {A} (x : A) ls : x ∈ concat ls -> exists l, x ∈ l /\ l ∈ ls.
Proof.
  induction ls as [|l ls IH]; [by intros ?%not_elem_of_nil|]. intros [Hx|Hx]%elem_of_app.
  - exists l. split; [done|by left].
  - destruct (IH Hx) as (k & ? & ?). exists k. split; [done|by right].
Qed.

Lemma pop_snoc {A} (l : list A) x : pop (l ++ [x]) = Some (x, l).
Proof. induction l as [|y l IH]; [done|]. simpl. by rewrite IH. Qed.

Lemma collect_yields `{Iterator T Item} (it : T) (xs : list Item) fuel :
  Yields it xs -> (length xs < fuel)%nat -> collect fuel it = Some xs.
Proof.
  intros Hy. revert fuel; induction Hy as [it it' Hn|it it' x xs Hn _ IH]; intros [|fuel] Hf; simpl in *; try lia; rewrite Hn; [done|].
  rewrite IH by lia. done.
Qed.

Section flatten.
Context `{BinaryLayout}.

(** The chunks that are left, newest first, and the blocks they hold. *)
Definition stack_holds (dir : Dir) (names : list string) (chunks : list (list bytes)) : Prop :=
  Forall2 (chunk_stored dir) (rev names) chunks.

(** Looking for a block in the chunks that are left. *)
Lemma others_yield dir chunks fuel names :
  stack_holds dir names chunks -> (length names < fuel)%nat ->
  exists v b', flatten_loop fuel {| readers := Some {| dir := dir; names := names |}; front := None |} =
    Returned (Ok v) b' /\
  match concat chunks with
  | [] => v = None
  | x :: xs => v = Some (Ok x) /\
      exists names' r ys chunks', b' = {| readers := Some {| dir := dir; names := names' |}; front := Some r |} /\
        chunk_ready r ys /\ stack_holds dir names' chunks' /\ xs = ys ++ concat chunks'
  end.
Proof.
  unfold stack_holds. revert fuel names; induction chunks as [|bs chunks IH]; intros fuel names HF Hf.
  - apply Forall2_nil_inv_r in HF. destruct fuel as [|fuel]; [lia|].
    apply (f_equal length) in HF. rewrite length_rev in HF. destruct names; [|done]. by do 2 eexists.
  - destruct names as [|n names _] using rev_ind; [by inversion HF|].
    rewrite rev_app_distr in HF. cbn [rev app] in HF. apply Forall2_cons in HF as [Hs HF].
    destruct fuel as [|fuel]; [lia|]. rewrite length_app in Hf. simpl in Hf.
    destruct (read_blocks_stored dir n bs Hs) as (r & Hr & Hready).
    cbn [flatten_loop front readers]. unfold run at 1. unfold next, chunk_readers_next.
    cbn [Immutable.immutable.names Immutable.immutable.dir]. rewrite pop_snoc, Hr.
    destruct fuel as [|fuel]; [lia|]. destruct bs as [|x bs].
    + destruct (chunk_done r Hready) as [r' Hn]. cbn [flatten_loop front readers]. unfold run at 1.
      unfold next. rewrite Hn.
      specialize (IH (S fuel) names HF ltac:(lia)). cbn [flatten_loop front readers] in IH. exact IH.
    + destruct (chunk_next r x bs Hready) as (r' & Hn & Hready'). cbn [flatten_loop front readers].
      unfold run at 1. unfold next. rewrite Hn. do 2 eexists. split; [reflexivity|]. split; [done|].
      by exists names, r', bs, chunks.
Qed.

(** The blocks of the chunk in front, and then those of the other chunks. *)
Lemma flatten_yields dir xs names r ys chunks :
  chunk_ready r ys -> stack_holds dir names chunks -> xs = ys ++ concat chunks ->
  Yields {| readers := Some {| dir := dir; names := names |}; front := Some r |} (Ok (E:=chunk.Error) <$> xs).
Proof.
  revert names r ys chunks; induction xs as [|x xs IH]; intros names r ys chunks Hr Hs Hx.
  - destruct ys; [|done]. destruct (chunk_done r Hr) as [r' Hn].
    destruct (others_yield dir chunks (S (length names)) names Hs ltac:(lia)) as (v & b' & HL & Hv).
    simpl in Hx. rewrite <- Hx in Hv. subst v. eapply Yields_end.
    unfold next, blocks_next. cbn [readers from_option Immutable.immutable.names flatten_loop front].
    unfold run at 1, next at 1. rewrite Hn. exact HL.
  - rewrite fmap_cons. destruct ys as [|y ys].
    + destruct (chunk_done r Hr) as [r' Hn].
      destruct (others_yield dir chunks (S (length names)) names Hs ltac:(lia)) as (v & b' & HL & Hv).
      simpl in Hx. rewrite <- Hx in Hv. destruct Hv as [-> (names' & r2 & ys' & chunks' & -> & Hr2 & Hs2 & Hxs)].
      eapply Yields_item; [|by eapply IH].
      unfold next, blocks_next. cbn [readers from_option Immutable.immutable.names flatten_loop front].
      unfold run at 1, next at 1. rewrite Hn. exact HL.
    + simpl in Hx. injection Hx as -> ->. destruct (chunk_next r y ys Hr) as (r' & Hn & Hr').
      eapply Yields_item; [|by eapply IH].
      unfold next, blocks_next. cbn [readers from_option Immutable.immutable.names flatten_loop front].
      unfold run at 1, next at 1. by rewrite Hn.
Qed.

Lemma flatten_all dir names chunks :
  stack_holds dir names chunks ->
  Yields (flatten {| dir := dir; names := names |}) (Ok (E:=chunk.Error) <$> concat chunks).
Proof.
  intros Hs. destruct (others_yield dir chunks (S (length names)) names Hs ltac:(lia)) as (v & b' & HL & Hv).
  destruct (concat chunks) as [|x xs].
  - subst v. eapply Yields_end. exact HL.
  - destruct Hv as [-> (names' & r & ys & chunks' & -> & Hr & Hs' & ->)]. rewrite fmap_cons.
    eapply Yields_item; [exact HL|]. by eapply flatten_yields.
Qed.
End flatten.

(** ** The search

    Each chunk stands for a key, which the comparator compares with the target. *)
Section search.
Context {E ChunkT PointT : Type} (chunks : list ChunkT) (keys : list Z) (point : PointT) (target : Z)
  (cmp : ChunkT -> PointT -> comp E () comparison).
Hypothesis cmp_key :
  Forall2 (fun c k => cmp c point () = Returned (Ok (k ?= target)) ()) chunks keys.
Hypothesis keys_descend : StronglySorted (fun a b => b < a) keys.

Lemma keys_ordered i j a b : keys !! i = Some a -> keys !! j = Some b -> (i < j)%nat -> b < a.
Proof.
  intros Ha Hb Hij. pose proof keys_descend as HS. rewrite <- (take_drop j keys) in HS.
  apply (StronglySorted_app_1_elem_of _ _ _ a b HS).
  - apply list_elem_of_lookup. exists i. by rewrite lookup_take_lt.
  - apply list_elem_of_lookup. exists 0%nat. by rewrite lookup_drop, Nat.add_0_r.
Qed.

Lemma first_at i k :
  keys !! i = Some k -> k <= target -> (forall j d, (j < i)%nat -> keys !! j = Some d -> target < d) ->
  fst <$> list_find (fun k => k <= target) keys = Some i.
Proof.
  intros Hc Hk Hj. apply fmap_Some. exists (i, k). split; [|done]. apply list_find_Some.
  split_and!; [done..|]. intros j d Hd Hlt. specialize (Hj j d Hlt Hd). lia.
Qed.

Lemma search_loop_linear fuel size left right :
  (size < fuel)%nat -> (left <= right <= length keys)%nat -> size = (right - left)%nat ->
  (forall j d, (j < left)%nat -> keys !! j = Some d -> target < d) ->
  (forall j d, (right <= j)%nat -> keys !! j = Some d -> d <= target) ->
  chunk_binary_search_loop chunks point cmp fuel size left right () =
    Returned (Ok (fst <$> list_find (fun k => k <= target) keys)) ().
Proof.
  revert size left right; induction fuel as [|fuel IH]; intros size left right Hf Hlr Hs Hl Hr; [lia|].
  cbn [chunk_binary_search_loop]. case_decide as Hsz.
  - pose proof (Nat.div_lt size 2 Hsz ltac:(lia)). set (mid := (left + size / 2)%nat) in *.
    assert (Hmid : (left <= mid < right)%nat) by (unfold mid; lia). clearbody mid.
    destruct (lookup_lt_is_Some_2 keys mid ltac:(lia)) as [k Hk].
    destruct (Forall2_lookup_r _ _ _ _ _ cmp_key Hk) as (c & Hc & Hcmp).
    unfold eval, mbind, comp_bind. rewrite Hc, Hcmp.
    destruct (Z.compare_spec k target) as [Heq|Hlt|Hgt].
    + unfold mret, comp_ret. rewrite (first_at mid k Hk ltac:(lia)); [done|].
      intros j d Hj Hd. pose proof (keys_ordered j mid d k Hd Hk Hj). lia.
    + apply IH; [lia..|done|]. intros j d Hj Hd. destruct (decide (j = mid)) as [->|]; [simplify_eq; lia|].
      pose proof (keys_ordered mid j k d Hk Hd ltac:(lia)). lia.
    + apply IH; [lia..| |done]. intros j d Hj Hd. destruct (decide (j = mid)) as [->|]; [simplify_eq; lia|].
      pose proof (keys_ordered j mid d k Hd Hk ltac:(lia)). lia.
  - rewrite (Forall2_length _ _ _ cmp_key). unfold mret, comp_ret. case_decide as Hlt.
    + destruct (lookup_lt_is_Some_2 keys right Hlt) as [k Hk].
      rewrite (first_at right k Hk); [done|by apply (Hr right)|]. intros j d Hj. apply Hl. lia.
    + replace (list_find _ keys) with (None : option (nat * Z)); [done|].
      symmetry. apply list_find_None. apply Forall_lookup. intros j d Hd.
      assert (j < left)%nat by (apply lookup_lt_Some in Hd; lia). specialize (Hl j d ltac:(done) Hd). lia.
Qed.

Lemma search_linear :
  chunk_binary_search chunks point cmp () =
    Returned (Ok (fst <$> list_find (fun k => k <= target) keys)) ().
Proof.
  unfold chunk_binary_search. rewrite (Forall2_length _ _ _ cmp_key).
  apply search_loop_linear; [lia..| |]; intros j d Hj Hd; [lia|].
  apply lookup_lt_Some in Hd. lia.
Qed.
End search.

(** ** Up to a point *)
Section till.
Context `{BlockDecoder} `{Iterator T (result chunk.Error bytes)}.

(** Blocks with what they decode to. *)
Definition decoded (chain : list (bytes * MultiEraBlock)) : Prop := Forall (fun x => decode x.1 = Ok x.2) chain.

Definition items (chain : list (bytes * MultiEraBlock)) : list (result chunk.Error bytes) :=
  (fun x => Ok x.1) <$> chain.

(** The chain from the first block that is not before a slot. *)
Fixpoint from_slot (s : Z) (chain : list (bytes * MultiEraBlock)) : list (bytes * MultiEraBlock) :=
  match chain with
  | [] => []
  | x :: chain' => if slot x.2 <? s then from_slot s chain' else chain
  end.

(** What becomes of the search for a point in a chain. *)
Definition point_found (s : Z) (h : bytes) (chain : list (bytes * MultiEraBlock)) : bool :=
  match from_slot s chain with [] => true | x :: _ => is_point s h x.2 end.

Definition till_outcome (s : Z) (h : bytes) (chain : list (bytes * MultiEraBlock))
    (o : outcome Error (Peekable T (result chunk.Error bytes)) ()) : Prop :=
  if point_found s h chain
  then exists it, o = Returned (Ok ()) it /\ Yields it (items (from_slot s chain))
  else exists it, o = Returned (Err (CannotFindBlock (Point.Specific s h))) it.

(** An iterator that has been looked at. *)
Definition peeked_at (p : Peekable T (result chunk.Error bytes)) (l : list (result chunk.Error bytes)) : Prop :=
  peeked p = Some (head l) /\ (l <> [] -> Yields (iter p) (tail l)).

Lemma peekable_yields (it : T) (l : list (result chunk.Error bytes)) : Yields it l -> Yields (peekable it) l.
Proof.
  intros Hy. induction Hy as [it it' Hn|it it' y ys Hn Hy IH].
  - eapply Yields_end. unfold next at 1, peekable_next. simpl. unfold run. by rewrite Hn.
  - eapply Yields_item; [|exact IH]. unfold next at 1, peekable_next. simpl. unfold run. by rewrite Hn.
Qed.

Lemma peeked_yields p l : peeked_at p l -> Yields p l.
Proof.
  intros [Hp Hy]. destruct l as [|x l]; simpl in *.
  - eapply Yields_end. unfold next, peekable_next. by rewrite Hp.
  - eapply Yields_item; [unfold next, peekable_next; by rewrite Hp|]. apply peekable_yields. by apply Hy.
Qed.

Lemma peek_fresh {E} (it : T) (l : list (result chunk.Error bytes)) :
  Yields it l -> exists p, peek (E:=E) (peekable it) = Returned (Ok (head l)) p /\ peeked_at p l.
Proof.
  intros Hy. unfold peek, run. cbn [peeked peekable iter].
  inversion Hy as [? it' Hn|? it' x xs Hn Hy']; subst; rewrite Hn; eexists; (split; [reflexivity|]); by split.
Qed.

Lemma advance_peek {E B} p x l (k : option (result chunk.Error bytes) -> comp E (Peekable T _) B) :
  peeked_at p (x :: l) ->
  exists p', (advance (E:=E);; v ← peek; k v) p = k (head l) p' /\ peeked_at p' l.
Proof.
  intros [Hp Hy]. destruct (peek_fresh (E:=E) (iter p) l (Hy ltac:(done))) as (p' & Hk & Hp').
  exists p'. split; [|done]. unfold advance, mbind, comp_bind, run at 1, next at 1, peekable_next.
  rewrite Hp. unfold peekable in Hk. by rewrite Hk.
Qed.

Lemma till_loop_outcome fuel s h x chain p :
  (length chain < fuel)%nat -> peeked_at p (items (x :: chain)) -> decoded (x :: chain) ->
  till_outcome s h (x :: chain) (till_loop fuel s h x.2 p).
Proof.
  revert x chain p; induction fuel as [|fuel IH]; intros x chain p Hf Hp Hd; [lia|].
  unfold till_outcome, point_found. cbn [till_loop from_slot]. destruct (Z.ltb_spec (slot x.2) s) as [Hlt|Hge].
  - destruct (advance_peek p _ _ (fun v => match v with
      | Some (Ok data) => block ← decode_block data; till_loop fuel s h block
      | Some (Err _) | None => mret ()
      end) Hp) as (p' & -> & Hp').
    apply Forall_cons in Hd as [_ Hd]. destruct chain as [|y chain].
    + simpl. exists p'. split; [done|]. by apply peeked_yields.
    + pose proof Hd as [Hy _]%Forall_cons. cbn [head tail items fmap list_fmap].
      unfold decode_block. rewrite Hy. apply (IH y chain p'); [simpl in Hf; lia|done..].
  - destruct (is_point s h x.2); [|by eexists].
    exists p. split; [done|]. by apply peeked_yields.
Qed.

Lemma iterate_outcome fuel s h chain (it : T) :
  (length chain <= fuel)%nat -> Yields it (items chain) -> decoded chain ->
  till_outcome s h chain (iterate_till_point fuel s h (peekable it)).
Proof.
  intros Hf Hy Hd. destruct (peek_fresh (E:=Error) it _ Hy) as (p & Hk & Hp).
  unfold iterate_till_point, mbind, comp_bind at 1. rewrite Hk. destruct chain as [|x chain].
  - simpl. exists p. split; [done|]. by apply peeked_yields.
  - pose proof Hd as [Hx _]%Forall_cons. cbn [head items fmap list_fmap].
    unfold decode_block. rewrite Hx. by apply till_loop_outcome.
Qed.
End till.

(** ** Directories of sound chunks *)
Section storage.
Context `{BinaryLayout} `{BlockDecoder}.
Abbreviation chain := (list (bytes * MultiEraBlock)).

Definition bytes_of (chunks : list chain) : list (list bytes) := (fun c : chain => c.*1) <$> chunks.

(** The chunks [names], in the order of their names, hold [chunks]; the newest chunk
    may hold anything. *)
Definition storage_holds (dir : Dir) (names : list string) (chunks : list chain) : Prop :=
  exists listed newest, chunk_names dir = Ok listed /\ listed ≡ₚ names ++ [newest] /\
  StronglySorted String.le (names ++ [newest]) /\
  Forall2 (fun name c => chunk_stored dir name c.*1 /\ decoded c) names chunks.

(** No chunk is empty, and a later chunk has later slots only. *)
Definition slots_ascend (chunks : list chain) : Prop :=
  Forall (.≠ []) chunks /\
  StronglySorted (fun c d => forall x y, x ∈ c -> y ∈ d -> slot x.2 < slot y.2) chunks.

Lemma stack_of_names dir names chunks :
  storage_holds dir names chunks -> build_stack_of_chunk_names dir = Ok (rev names).
Proof.
  intros (listed & newest & Hl & Hp & Hs & _). unfold build_stack_of_chunk_names. rewrite Hl.
  assert (merge_sort String.le listed = names ++ [newest]) as ->.
  { apply (StronglySorted_unique String.le); [apply StronglySorted_merge_sort; apply _|done|].
    by rewrite merge_sort_Permutation. }
  by rewrite removelast_last.
Qed.

Lemma stack_of_chunks dir names chunks :
  storage_holds dir names chunks -> stack_holds dir (rev names) (bytes_of chunks).
Proof.
  intros (listed & newest & _ & _ & _ & HF). unfold stack_holds. rewrite rev_involutive.
  apply Forall2_fmap_r. eapply Forall2_impl; [exact HF|]. by intros ?? [? _].
Qed.

Lemma concat_items (chunks : list chain) :
  Ok (E:=chunk.Error) <$> concat (bytes_of chunks) = items (concat chunks).
Proof.
  induction chunks as [|c chunks IH]; [done|]. unfold items, bytes_of in *. rewrite fmap_cons, !concat_cons, !fmap_app, IH.
  by rewrite <- list_fmap_compose.
Qed.

Lemma stored_decoded dir names chunks : storage_holds dir names chunks -> decoded (concat chunks).
Proof.
  intros (listed & newest & _ & _ & _ & HF). unfold decoded. apply Forall_concat.
  clear -HF. induction HF as [|n c ? ? [_ Hc] _ IH]; by constructor.
Qed.

(** The chunks from one on. *)
Lemma storage_suffix dir n1 n2 (c1 c2 : list chain) :
  length n1 = length c1 -> storage_holds dir (n1 ++ n2) (c1 ++ c2) ->
  stack_holds dir (rev n2) (bytes_of c2) /\ decoded (concat c2).
Proof.
  intros Hlen (listed & newest & _ & _ & _ & HF). apply Forall2_app_inv in HF as [_ HF]; [|done]. split.
  - unfold stack_holds. rewrite rev_involutive. apply Forall2_fmap_r.
    eapply Forall2_impl; [exact HF|]. by intros ?? [? _].
  - unfold decoded. apply Forall_concat. clear -HF. induction HF as [|n c ? ? [_ Hc] _ IH]; by constructor.
Qed.

(** The slot by which a chunk is found. *)
Definition first_slot (c : chain) : Z := match c with [] => 0 | x :: _ => slot x.2 end.

Lemma cmp_stored dir name (c : chain) s :
  chunk_stored dir name c.*1 -> decoded c -> c <> [] ->
  cmp dir name s () = Returned (Ok (first_slot c ?= s)) ().
Proof.
  intros Hs Hd Hc. destruct c as [|x c]; [done|]. apply Forall_cons in Hd as [Hd _].
  destruct (read_blocks_stored dir name _ Hs) as (r & Hr & Hready).
  destruct (chunk_next r _ _ Hready) as (r' & Hn & _).
  unfold cmp, map_err, mbind, comp_bind. rewrite Hr. unfold cmp_first, run, next. rewrite Hn.
  unfold decode_block. rewrite Hd. done.
Qed.

Lemma from_slot_skip s old (rest : chain) :
  (forall x, x ∈ old -> slot x.2 < s) -> from_slot s (old ++ rest) = from_slot s rest.
Proof.
  induction old as [|x old IH]; intros Ho; [done|]. cbn [app from_slot].
  rewrite (proj2 (Z.ltb_lt _ _)) by (apply Ho; by left). apply IH. intros y Hy. apply Ho. by right.
Qed.

(** The search finds the last chunk that starts by the slot. *)
Lemma search_splits dir names chunks s :
  storage_holds dir names chunks -> slots_ascend chunks ->
  match chunk_binary_search (rev names) s (cmp dir) () with
  | Returned (Ok None) _ => Forall (fun c => s < first_slot c) chunks
  | Returned (Ok (Some i)) _ => exists c1 c c2 n1 n2,
      chunks = c1 ++ c :: c2 /\ names = n1 ++ n2 /\ length n1 = length c1 /\
      take (i + 1) (rev names) = rev n2 /\ first_slot c <= s
  | _ => False
  end.
Proof.
  intros (listed & newest & _ & _ & _ & HF) [Hne Hs].
  assert (Hkeys : Forall2 (fun n k => cmp dir n s () = Returned (Ok (k ?= s)) ()) (rev names) (rev (first_slot <$> chunks))).
  { rewrite !rev_reverse. apply Forall2_reverse, Forall2_fmap_r. eapply Forall2_same_length_lookup_2; [by eapply Forall2_length|].
    intros i n c Hn Hc. destruct (Forall2_lookup_lr _ _ _ _ _ _ HF Hn Hc) as [Hst Hd].
    apply cmp_stored; [done..|]. rewrite Forall_forall in Hne. apply Hne. by eapply list_elem_of_lookup_2. }
  assert (Hdesc : StronglySorted (fun a b => b < a) (rev (first_slot <$> chunks))).
  { clear -Hs Hne. induction Hs as [|c chunks Hs IH Hc]; [constructor|].
    apply Forall_cons in Hne as [Hc0 Hne]. cbn [fmap list_fmap rev]. apply StronglySorted_app. split_and!; [|by apply IH|repeat constructor].
    intros a b Ha Hb. apply list_elem_of_singleton in Hb as ->.
    rewrite rev_reverse, elem_of_reverse in Ha. apply list_elem_of_fmap in Ha as (d & -> & Hd).
    rewrite Forall_forall in Hc, Hne. specialize (Hc d Hd).
    specialize (Hne d Hd).
    destruct c as [|x c], d as [|y d]; try done. apply (Hc x y); by left. }
  rewrite (search_linear _ _ _ _ _ Hkeys Hdesc).
  destruct (list_find _ _) as [[i k]|] eqn:HL; cbn [fmap option_fmap option_map fst].
  - apply list_find_Some in HL as (Hk & Hle & _).
    rewrite rev_reverse, <- fmap_reverse, <- rev_reverse in Hk. apply list_lookup_fmap_Some in Hk as (c & -> & Hc).
    destruct (list_elem_of_split_length _ _ _ Hc) as (l1 & l2 & Hl & ->).
    apply (f_equal (@rev chain)) in Hl. rewrite rev_involutive, rev_app_distr in Hl. cbn [rev] in Hl. rewrite <- app_assoc in Hl.
    subst chunks. apply Forall2_app_inv_r in HF as (n1 & n2 & HF1 & HF2 & ->).
    exists (rev l2), c, (rev l1), n1, n2. split_and!; [done|done|by eapply Forall2_length| |done].
    apply Forall2_length in HF2. cbn [app length] in HF2. rewrite length_rev in HF2.
    rewrite rev_app_distr, take_app_le by (rewrite length_rev; lia). apply take_ge. rewrite length_rev. lia.
  - apply list_find_None in HL. apply Forall_rev in HL. rewrite rev_involutive in HL. rewrite Forall_fmap in HL. eapply Forall_impl; [exact HL|]. intros c Hc. simpl in *. lia.
Qed.

Lemma last_yields `{Iterator T Item} {E} fuel seen (it : T) (xs : list Item) :
  Yields it xs -> (length xs < fuel)%nat ->
  iter_last_loop (E:=E) fuel seen it () = Returned (Ok (match last xs with Some x => Some x | None => seen end)) ().
Proof.
  intros Hy. revert fuel seen; induction Hy as [it it' Hn|it it' x xs Hn _ IH]; intros [|fuel] seen Hf; simpl in Hf; try lia;
    cbn [iter_last_loop]; unfold run; rewrite Hn; [done|].
  rewrite IH by lia. rewrite last_cons. by destruct (last xs).
Qed.

(** The point of the last block of the last immutable chunk. *)
Definition tip_of (chunks : list chain) : option Point.t :=
  c ← last chunks; x ← last c; Some (Point.Specific (slot x.2) (hash x.2)).

(** C24: From a directory whose chunks are sound, [read_blocks] yields exactly the
    blocks of all chunks but the newest, in the order of the chunk names and of the
    blocks in their chunks, without an error or a panic, and ends; the order in which
    the directory lists its files does not matter.  [get_tip] is the point of the last
    block of the last of these chunks, and none when that chunk is empty. *)
Theorem stored_chain_read_back dir names chunks fuel :
  storage_holds dir names chunks -> Forall (fun c => length c < fuel)%nat chunks ->
  (exists it, read_blocks dir = Ok it /\ Yields it (items (concat chunks))) /\
  get_tip fuel dir () = Returned (Ok (tip_of chunks)) ().
Proof.
  intros Hst Hf. split.
  - unfold read_blocks. rewrite (stack_of_names _ _ _ Hst). eexists. split; [reflexivity|].
    rewrite <- concat_items. apply flatten_all. by eapply stack_of_chunks.
  - unfold get_tip. rewrite (stack_of_names _ _ _ Hst). unfold returns, mbind, comp_bind at 1.
    destruct chunks as [|c chunks _] using rev_ind.
    + destruct Hst as (listed & newest & _ & _ & _ & HF). apply Forall2_nil_inv_r in HF as ->. done.
    + pose proof Hst as (listed & newest & _ & _ & _ & HF).
      apply Forall2_app_inv_r in HF as (n1 & n2 & HF1 & HF2 & ->).
      apply Forall2_cons_inv_r in HF2 as (n & n3 & [Hn Hd] & HF2%Forall2_nil_inv_r & ->). subst n3.
      rewrite rev_app_distr. cbn [rev app].
      assert (Hy : Yields (flatten {| dir := dir; names := [n] |}) (items c)).
      { pose proof (concat_items [c]) as Hi. cbn [concat bytes_of fmap list_fmap app] in Hi. rewrite !app_nil_r in Hi.
        rewrite <- Hi. pose proof (flatten_all dir [n] [c.*1]) as Hall. cbn [concat] in Hall. rewrite app_nil_r in Hall.
        apply Hall. constructor; [exact Hn|constructor]. }
      apply Forall_app in Hf as [_ [Hf _]%Forall_cons].
      unfold comp_bind, iter_last. rewrite (last_yields _ None _ _ Hy) by by (unfold items; rewrite length_fmap).
      unfold tip_of, items. rewrite last_snoc, fmap_last. simpl.
      destruct (last c) as [x|] eqn:Hl; simpl; [|done].
      unfold decode_block, returns. rewrite (proj1 (Forall_forall _ _) Hd x); [done|].
      by apply last_Some_elem_of.
Qed.

(** What is served from a point of a chain, when it is not refused. *)
Definition served (point : Point.t) (c : chain) : option chain :=
  match point, c with
  | Point.Origin, [] => Some []
  | Point.Origin, x :: _ => if (slot x.2 =? 0) && (number x.2 =? 0) then Some c else None
  | Point.Specific _ _, [] => None
  | Point.Specific s h, x :: _ =>
      if (slot x.2 <=? s) && point_found s h c then Some (from_slot s c) else None
  end.

Definition refusal (point : Point.t) : Error :=
  match point with Point.Origin => OriginMissing | _ => CannotFindBlock point end.

(** What an iterator from a point, or its refusal, is. *)
Definition serves (o : outcome Error () FromPoint) (r : option chain) (e : Error) : Prop :=
  match r with
  | Some rest => exists it, o = Returned (Ok it) () /\ Yields it (items rest)
  | None => o = Returned (Err e) ()
  end.

Lemma boxed_yields {T} `{Iterator T (result chunk.Error bytes)} (box : T -> FromPoint) it l :
  (forall it, next (box it) = run next it (fun v it => Returned (Ok v) (box it))) ->
  Yields it l -> Yields (box it) l.
Proof.
  intros Hb Hy. induction Hy as [it it' Hn|it it' x xs Hn _ IH].
  - eapply Yields_end. rewrite Hb. unfold run. by rewrite Hn.
  - eapply Yields_item; [|exact IH]. rewrite Hb. unfold run. by rewrite Hn.
Qed.

Lemma origin_served dir names chunks :
  storage_holds dir names chunks ->
  serves (read_from_origin dir (rev names) ()) (served Point.Origin (concat chunks)) (refusal Point.Origin).
Proof.
  intros Hst. pose proof (flatten_all dir (rev names) _ (stack_of_chunks _ _ _ Hst)) as Hy.
  rewrite concat_items in Hy. destruct (peek_fresh (E:=Error) _ _ Hy) as (p & Hk & Hp%peeked_yields).
  pose proof (stored_decoded _ _ _ Hst) as Hd. apply (boxed_yields FromOrigin) in Hp; [|done].
  unfold read_from_origin, boxed, mbind, comp_bind at 1. rewrite Hk.
  destruct (concat chunks) as [|x c].
  - by exists (FromOrigin p).
  - apply Forall_cons in Hd as [Hx _]. cbn [head items fmap list_fmap]. unfold comp_bind, decode_block, returns.
    rewrite Hx. cbn [served]. destruct (_ && _); [by exists (FromOrigin p)|done].
Qed.

Lemma block_served fuel dir names chunks s h :
  storage_holds dir names chunks -> slots_ascend chunks -> (length (concat chunks) <= fuel)%nat ->
  serves (read_from_block fuel dir (rev names) s h ()) (served (Point.Specific s h) (concat chunks))
    (refusal (Point.Specific s h)).
Proof.
  intros Hst Ha Hf. unfold read_from_block, mbind, comp_bind at 1.
  pose proof (search_splits dir names chunks s Hst Ha) as Hs.
  destruct (chunk_binary_search _ _ _ _) as [[[i|]|e] []| |]; try done.
  - destruct Hs as (c1 & c & c2 & n1 & n2 & -> & -> & Hlen & -> & Hle). destruct Ha as [Hne Ho].
    destruct (storage_suffix dir n1 n2 c1 (c :: c2) Hlen Hst) as [Hy Hd].
    apply flatten_all in Hy. rewrite concat_items in Hy.
    apply Forall_app in Hne as [Hne1 [Hc _]%Forall_cons]. destruct c as [|x c]; [done|].
    assert (Hold : forall y, y ∈ concat c1 -> slot y.2 < slot x.2).
    { intros y (d & Hyd & Hd1)%elem_of_concat.
      refine (StronglySorted_app_1_elem_of _ _ _ d (x :: c) Ho Hd1 ltac:(by left) y x Hyd ltac:(by left)). }
    simpl in Hle. rewrite concat_app.
    apply peekable_yields in Hy. rewrite concat_app, length_app in Hf.
    pose proof (iterate_outcome fuel s h (concat ((x :: c) :: c2)) (peekable (flatten {| dir := dir; names := rev n2 |})) ltac:(lia) Hy Hd) as HO.
    unfold till_outcome, point_found in HO.
    assert (Hsv : served (Point.Specific s h) (concat c1 ++ concat ((x :: c) :: c2)) =
      if point_found s h (concat ((x :: c) :: c2)) then Some (from_slot s (concat ((x :: c) :: c2))) else None).
    { unfold served, point_found. rewrite from_slot_skip by (intros y Hin; specialize (Hold y Hin); lia).
      destruct (concat c1) as [|y old] eqn:Hc1; cbn [app concat].
      - by rewrite (proj2 (Z.leb_le _ _)).
      - rewrite (proj2 (Z.leb_le _ _)); [done|]. specialize (Hold y ltac:(by left)). lia. }
    rewrite Hsv. unfold boxed, point_found. destruct (match from_slot s _ with [] => true | _ => _ end).
    + destruct HO as (p & -> & Hp). exists (FromBlock p). split; [done|]. by apply (boxed_yields FromBlock).
    + destruct HO as (p & ->). done.
  - unfold serves, served. destruct (concat chunks) as [|x c] eqn:Hc; [done|].
    destruct chunks as [|[|y d] chunks]; [done| |].
    + destruct Ha as [[? _]%Forall_cons _]. done.
    + apply Forall_cons in Hs as [Hs _]. simpl in Hc, Hs. injection Hc as -> _.
      by rewrite (proj2 (Z.leb_gt _ _)).
Qed.

(** C23: Reading from a point of a directory whose chunks are sound, none of them empty,
    with later slots in later chunks.  From the origin the whole chain is served, if its
    first block has slot and number zero; otherwise the origin is refused.  From a
    specific point the chain is served from the first block whose slot is not before
    that of the point, if the hash of the point is empty or if this block has the slot
    and the hash of the point; nothing is served, without an error, when the point is
    behind the last block; otherwise, and for every slot before the first block of the
    chain, the point is refused.  So the binary search over the chunks loses no block,
    for any number of chunks, and the iterators end without an error or a panic. *)
Theorem read_from_point_outcome dir names chunks fuel point :
  storage_holds dir names chunks -> slots_ascend chunks -> (length (concat chunks) <= fuel)%nat ->
  match served point (concat chunks) with
  | Some rest => exists it, read_blocks_from_point fuel dir point () = Returned (Ok it) () /\ Yields it (items rest)
  | None => read_blocks_from_point fuel dir point () = Returned (Err (refusal point)) ()
  end.
Proof.
  intros Hst Ha Hf. unfold read_blocks_from_point. rewrite (stack_of_names _ _ _ Hst).
  unfold returns, mbind, comp_bind at 1. destruct point as [|s h].
  - by apply origin_served.
  - by apply block_served.
Qed.

(** A chunk without blocks counts as later than every slot: when the oldest of two
    chunks is empty, every point of the other one is refused. *)
Lemma empty_oldest_chunk_refuses dir n0 n1 c fuel s h :
  storage_holds dir [n0; n1] [[]; c] ->
  read_blocks_from_point fuel dir (Point.Specific s h) () =
    Returned (Err (CannotFindBlock (Point.Specific s h))) ().
Proof.
  intros Hst. unfold read_blocks_from_point. rewrite (stack_of_names _ _ _ Hst).
  destruct Hst as (_ & _ & _ & _ & _ & [[Hs _] _]%Forall2_cons).
  destruct (read_blocks_stored dir n0 [] Hs) as (r & Hr & Hready). destruct (chunk_done r Hready) as [r' Hn].
  assert (Hc : cmp dir n0 s () = Returned (Ok Gt) ()).
  { unfold cmp, map_err, mbind, comp_bind. rewrite Hr. unfold cmp_first, run, next. by rewrite Hn. }
  cbn [rev app]. unfold returns, mbind, comp_bind at 1, read_from_block, mbind, comp_bind at 1.
  unfold chunk_binary_search. cbn [length chunk_binary_search_loop]. rewrite decide_True by lia.
  cbn [lookup list_lookup Nat.add Nat.div Nat.divmod fst]. unfold eval, mbind, comp_bind at 1 2. rewrite Hc. done.
Qed.

(** Two blocks of one slot, as an epoch boundary block and the first block of its
    epoch are: when [y] comes behind [x] in the same slot, the point of [y] is refused
    although the block is stored, because the search stops at the first block of the
    slot and compares its hash. *)
Theorem point_behind_boundary_refused dir names chunks fuel old x y rest :
  storage_holds dir names chunks -> slots_ascend chunks -> (length (concat chunks) <= fuel)%nat ->
  concat chunks = old ++ x :: y :: rest -> (forall z, z ∈ old -> slot z.2 < slot x.2) ->
  slot x.2 = slot y.2 -> hash x.2 <> hash y.2 -> hash y.2 <> [] ->
  let point := Point.Specific (slot y.2) (hash y.2) in
  read_blocks_from_point fuel dir point () = Returned (Err (CannotFindBlock point)) ().
Proof.
  intros Hst Ha Hf Hc Ho Hs Hh Hn point.
  assert (Hsv : served point (concat chunks) = None).
  { rewrite Hc. unfold served, point, point_found.
    rewrite from_slot_skip by (intros z Hz; specialize (Ho z Hz); lia).
    cbn [from_slot]. rewrite (proj2 (Z.ltb_ge _ _)) by lia. unfold is_point.
    rewrite (bool_decide_eq_false_2 _ Hn), (bool_decide_eq_false_2 _ Hh).
    destruct old; cbn [app andb orb]; by rewrite andb_false_r. }
  unfold read_blocks_from_point. rewrite (stack_of_names _ _ _ Hst). unfold returns, mbind, comp_bind at 1.
  pose proof (block_served fuel dir names chunks (slot y.2) (hash y.2) Hst Ha Hf) as HS.
  fold point in HS. by rewrite Hsv in HS.
Qed.
End storage.

(** ** Damaged chunks *)
Section damaged.
Context `{BinaryLayout}.

(** C25: What a reader makes of a damaged chunk, none of whose blocks is empty.  When the
    chunk file ends within its blocks, the blocks that are complete are read, every
    other block but the last is an error, and the last one is a success, with what is
    left of it, which may be nothing.  When no entry of the secondary index can be read
    although a slot is occupied, no error is reported: the whole file is read as one
    block. *)
Theorem damaged_chunk_outcome dir name :
  (forall bs n, Forall (.≠ []) bs -> Z.of_nat (length (concat bs)) < 2 ^ 63 ->
    chunk_indexed dir name bs {| contents := take n (concat bs); fault := None |} ->
    exists r, chunk.read_blocks dir name () = Returned (Ok r) () /\ Yields r (cut n bs)) /\
  (forall v slots rest f, in_range None 0 slots -> (0 < occupied slots)%nat -> (length rest < 56)%nat ->
    open_file dir (with_extension name "primary") = Ok {| contents := primary_bytes v slots; fault := None |} ->
    open_file dir (with_extension name "secondary") = Ok {| contents := rest; fault := None |} ->
    open_file dir (with_extension name "chunk") = Ok {| contents := f; fault := None |} ->
    exists r, chunk.read_blocks dir name () = Returned (Ok r) () /\ Yields r [Ok f]).
Proof.
  split.
  - intros bs n Hne Hs Hx. destruct (read_blocks_opens dir name bs _ Hx) as (r & Hr & Hi & Hix).
    exists r. split; [done|]. apply (cut_yields r n 0); [|done].
    exists []. split_and!; [done|done|by left|done].
  - intros v slots rest f Hr Ho. destruct (occupied slots) as [|o] eqn:Hos; [lia|]. by eapply missing_entry_yields.
Qed.
End damaged.

(** ** Examples *)
Module storage_example.
(** Blocks of a slot, a number and a hash. *)
#[local] Instance toy_blocks : BlockDecoder := {|
  MultiEraBlock := Z * Z * bytes;
  DecodeError := unit;
  decode b := match b with s :: n :: h => Ok (s, n, h) | _ => Err () end;
  slot b := b.1.1;
  number b := b.1.2;
  hash b := b.2
|}.

Definition blk (s n h : Z) : bytes * (Z * Z * bytes) := ([s; n; h], (s, n, [h])).

Definition entry (o : Z) : secondary.Entry.t := {|
  secondary.Entry.block_offset := o; secondary.Entry.header_offset := 0; secondary.Entry.header_size := 2;
  secondary.Entry.checksum := 7; secondary.Entry.header_hash := replicate 32 5;
  secondary.Entry.block_or_ebb := replicate 8 0 |}.

(** A boundary block and a block in slot 0, and two blocks in slots 3 and 5. *)
Definition chunk0 : list (bytes * (Z * Z * bytes)) := [blk 0 0 1; blk 0 1 2].
Definition chunk1 : list (bytes * (Z * Z * bytes)) := [blk 3 2 3; blk 5 3 4].

Definition sound_file (b : bytes) : result io.Error File := Ok {| contents := b; fault := None |}.

Definition files (n : string) : result io.Error File :=
  if decide (n ∈ ["00.primary"; "01.primary"; "02.primary"])
  then sound_file (primary_bytes 1 [true; false; true; false])
  else if decide (n ∈ ["00.secondary"; "01.secondary"])
  then sound_file (entry_bytes (entry 0) ++ entry_bytes (entry 3) ++ [])
  else if decide (n = "02.secondary") then sound_file [1; 2; 3]
  else if decide (n ∈ ["00.chunk"; "02.chunk"]) then sound_file [0; 0; 1; 0; 1; 2]
  else if decide (n = "01.chunk") then sound_file [3; 2; 3; 5; 3; 4]
  else if decide (n = "03.primary") then sound_file (primary_bytes 1 [true; true])
  else if decide (n = "03.secondary") then sound_file (entry_bytes (entry 0) ++ entry_bytes (entry 3) ++ [])
  else if decide (n = "03.chunk") then sound_file [1; 2]
  else Err (io.Other "not found").

Definition toy_dir : Dir := {|
  read_dir := Ok (Ok <$> ["02.chunk"; "01.primary"; "00.chunk"; "01.chunk"; "lock"]);
  open_file := files
|}.

Lemma chunk0_sound : sound_chunk 1 [true; false; true; false] [entry 0; entry 3] chunk0.*1.
Proof. split; [done|by vm_compute|by repeat constructor|done]. Qed.
Lemma chunk1_sound : sound_chunk 1 [true; false; true; false] [entry 0; entry 3] chunk1.*1.
Proof. split; [done|by vm_compute|by repeat constructor|done]. Qed.

Lemma toy_holds : storage_holds (H0:=toy_blocks) toy_dir ["00"; "01"] [chunk0; chunk1].
Proof.
  exists ["02"; "00"; "01"], "02". split_and!; [by vm_compute| | |].
  - apply (Permutation_app_comm ["02"] ["00"; "01"]).
  - repeat constructor.
  - constructor; [split; [split; [|done]|by repeat constructor]|constructor; [split; [split; [|done]|by repeat constructor]|constructor]].
    + exists 1, [true; false; true; false], [entry 0; entry 3]. split; [exact chunk0_sound|by vm_compute].
    + exists 1, [true; false; true; false], [entry 0; entry 3]. split; [exact chunk1_sound|by vm_compute].
Qed.

Lemma toy_ascends : slots_ascend (H0:=toy_blocks) [chunk0; chunk1].
Proof.
  split; [by repeat constructor|]. constructor; [by repeat constructor|]. constructor; [|constructor].
  intros x y Hx Hy. unfold chunk0, chunk1 in *. set_unfold. naive_solver lia.
Qed.
End storage_example.
Import storage_example.

Lemma stored_chain_read_back_witness :
  (exists it, read_blocks (H0:=toy_blocks) toy_dir = Ok it /\ Yields it (items (H:=toy_blocks) (chunk0 ++ chunk1))) /\
  get_tip (H0:=toy_blocks) 5 toy_dir () = Returned (Ok (Some (Point.Specific 5 [4]))) ().
Proof.
  exact (stored_chain_read_back (H0:=toy_blocks) toy_dir ["00"; "01"] [chunk0; chunk1] 5 toy_holds ltac:(repeat constructor)).
Defined.

Lemma read_from_point_outcome_witness :
  (exists it, read_blocks_from_point (H0:=toy_blocks) 4 toy_dir (Point.Specific 4 []) () = Returned (Ok it) () /\
    Yields it (items (H:=toy_blocks) [blk 5 3 4])) /\
  read_blocks_from_point (H0:=toy_blocks) 4 toy_dir (Point.Specific 4 [4]) () =
    Returned (Err (CannotFindBlock (Point.Specific 4 [4]))) ().
Proof.
  pose proof (fun point => read_from_point_outcome (H0:=toy_blocks) toy_dir ["00"; "01"] [chunk0; chunk1] 4 point
    toy_holds toy_ascends ltac:(simpl; lia)) as Hp.
  exact (conj (Hp (Point.Specific 4 [])) (Hp (Point.Specific 4 [4]))).
Defined.

Lemma point_behind_boundary_refused_witness :
  read_blocks_from_point (H0:=toy_blocks) 4 toy_dir (Point.Specific 0 [2]) () =
    Returned (Err (CannotFindBlock (Point.Specific 0 [2]))) ().
Proof.
  apply (point_behind_boundary_refused (H0:=toy_blocks) toy_dir ["00"; "01"] [chunk0; chunk1] 4 [] (blk 0 0 1) (blk 0 1 2) chunk1
    toy_holds toy_ascends ltac:(simpl; lia) eq_refl); [|done..].
  by intros z ?%not_elem_of_nil.
Defined.

Lemma damaged_chunk_outcome_witness :
  (exists r, chunk.read_blocks toy_dir "03" () = Returned (Ok r) () /\
    Yields r [Err (chunk.CannotReadBlock io.UnexpectedEof); Ok []]) /\
  (exists r, chunk.read_blocks toy_dir "02" () = Returned (Ok r) () /\ Yields r [Ok [0; 0; 1; 0; 1; 2]]).
Proof.
  split.
  - apply (proj1 (damaged_chunk_outcome toy_dir "03") [[1; 2; 3]; [4; 5; 6]] 2%nat); [by repeat constructor|done|].
    exists 1, [true; true], [entry 0; entry 3]. split_and!; [|by vm_compute..].
    split; [done|by vm_compute|by repeat constructor|done].
  - by apply (proj2 (damaged_chunk_outcome toy_dir "02") 1 [true; false; true; false] [1; 2; 3]);
      [vm_compute|vm_compute; lia|simpl; lia|vm_compute..].
Defined.
