(* ===== verification/LedgerTypes.v ===== *)
(** * The types of the ledger

    What the validation of transactions reads and keeps: the transactions of all eras
    ([pallas-primitives/src/lib.rs], [byron/model.rs], [alonzo/model.rs],
    [babbage/model.rs], [conway/model.rs]), the views over eras ([pallas-traverse/src]), and the state, the
    parameters and the errors of [pallas-validate/src/utils].  A map is a [gmap],
    hashes and keys are their bytes. *)
From S2P Require Import Prelude Cbor NativeScript PlutusData.

(** ** Common types *)

(** [pallas-codec/src/utils.rs]: a value with the bytes it was decoded from, which are
    none for a value that was not decoded. *)
Record KeepRaw (A : Type) := mkKeepRaw { raw_cbor : bytes; inner : A }.
Arguments mkKeepRaw {A} _ _.
Arguments raw_cbor {A} _.
Arguments inner {A} _.

Module Nullable.
Inductive t (A : Type) := Some (x : A) | Null | Undefined.
Arguments Some {A} _.
Arguments Null {A}.
Arguments Undefined {A}.
End Nullable.

Record RationalNumber := { numerator : Z; denominator : Z }.

Record ExUnits := { mem : Z; steps : Z }.
Record ExUnitPrices := { mem_price : RationalNumber; step_price : RationalNumber }.

Module NetworkId.
Inductive t := Testnet | Mainnet.

Definition to_u8 (id : t) : Z := match id with Testnet => 0 | Mainnet => 1 end.
End NetworkId.

Module Nonce.
Inductive variant := NeutralNonce | Nonce.
Record t := { nonce_variant : variant; hash : option bytes }.
End Nonce.

Module Metadatum.
Inductive t :=
| Int (i : Z)
| Bytes (bs : bytes)
| Text (s : bytes)
| Array (xs : list t)
| Map (kvs : KeyValuePairs.t t t).
End Metadatum.
Abbreviation Metadata := (gmap Z Metadatum.t).

Record PoolMetadata := { url : bytes; metadata_hash : bytes }.

Module Relay.
Inductive t :=
| SingleHostAddr (port : option Z) (ipv4 ipv6 : option bytes)
| SingleHostName (port : option Z) (name : bytes)
| MultiHostName (name : bytes).
End Relay.

#[export] Instance StakeCredential_eq_dec : EqDecision StakeCredential.
Proof. solve_decision. Defined.
#[export] Instance StakeCredential_countable : Countable StakeCredential.
Proof.
  refine (inj_countable' (fun c => match c with ScriptHash h => inl h | AddrKeyhash h => inr h end)
    (fun s => match s with inl h => ScriptHash h | inr h => AddrKeyhash h end) _).
  by intros [].
Defined.

Module TransactionInput.
Record t := mk { transaction_id : bytes; index : Z }.

#[global] Instance eq_dec : EqDecision t.
Proof. solve_decision. Defined.
#[global] Instance countable : Countable t.
Proof.
  refine (inj_countable' (fun x => (transaction_id x, index x)) (fun p => mk p.1 p.2) _).
  by intros [].
Defined.
End TransactionInput.

(** ** Values *)

(** Quantities by policy and name. *)
Abbreviation Multiasset := (gmap bytes (gmap bytes Z)).

Module Value.
Inductive t :=
| Coin (coin : Z)
| Multiasset (coin : Z) (assets : Multiasset).
End Value.
Abbreviation Value := Value.t.

(** ** The Byron era *)
Module byron.
Module Address.
Record t := mk { payload : bytes; crc : Z }.
End Address.

Module TxOut.
Record t := mk { address : Address.t; amount : Z }.
End TxOut.

Module TxIn.
Inductive t :=
| Variant0 (txid : bytes) (index : Z)
| Other (variant : Z) (content : bytes).

#[global] Instance eq_dec : EqDecision t.
Proof. solve_decision. Defined.
#[global] Instance countable : Countable t.
Proof.
  refine (inj_countable' (fun x => match x with Variant0 h i => inl (h, i) | Other v c => inr (v, c) end)
    (fun s => match s with inl p => Variant0 p.1 p.2 | inr p => Other p.1 p.2 end) _).
  by intros [].
Defined.
End TxIn.

Module Tx.
Record t := mk {
  inputs : MaybeIndefArray.t TxIn.t;
  outputs : MaybeIndefArray.t TxOut.t;
  attributes : unit
}.
End Tx.

Module Twit.
Inductive t :=
| PkWitness (pk signature : bytes)
| ScriptWitness (validator redeemer : Z * bytes)
| RedeemWitness (pk signature : bytes)
| Other (variant : Z) (content : bytes).
End Twit.

Module TxPayload.
Record t := mk { transaction : KeepRaw Tx.t; witness : KeepRaw (MaybeIndefArray.t Twit.t) }.
End TxPayload.
End byron.

(** ** The eras from Shelley to Alonzo *)
Module alonzo.
Module TransactionOutput.
Record t := mk { address : bytes; amount : Value; datum_hash : option bytes }.
End TransactionOutput.

Module MoveInstantaneousReward.
Inductive source_pot := Reserves | Treasury.
Inductive target_pot :=
| StakeCredentials (rewards : gmap StakeCredential Z)
| OtherAccountingPot (coin : Z).
Record t := mk { source : source_pot; target : target_pot }.
End MoveInstantaneousReward.

Module Certificate.
Inductive t :=
| StakeRegistration (stc : StakeCredential)
| StakeDeregistration (stc : StakeCredential)
| StakeDelegation (stc : StakeCredential) (pool : bytes)
| PoolRegistration (operator vrf_keyhash : bytes) (pledge cost : Z) (margin : RationalNumber)
    (reward_account : bytes) (pool_owners : list bytes) (relays : list Relay.t)
    (pool_metadata : option PoolMetadata)
| PoolRetirement (pool : bytes) (epoch : Z)
| GenesisKeyDelegation (gkh dkh vrf : bytes)
| MoveInstantaneousRewardsCert (mir : MoveInstantaneousReward.t).
End Certificate.

Module Language.
Inductive t := PlutusV1.
#[global] Instance eq_dec : EqDecision t.
Proof. solve_decision. Defined.
#[global] Instance countable : Countable t.
Proof. refine (inj_countable' (fun _ => tt) (fun _ => PlutusV1) _). by intros []. Defined.
End Language.

Abbreviation CostModels := (gmap Language.t (list Z)).

Module ProtocolParamUpdate.
Record t := mk {
  minfee_a : option Z;
  minfee_b : option Z;
  max_block_body_size : option Z;
  max_transaction_size : option Z;
  max_block_header_size : option Z;
  key_deposit : option Z;
  pool_deposit : option Z;
  maximum_epoch : option Z;
  desired_number_of_stake_pools : option Z;
  pool_pledge_influence : option RationalNumber;
  expansion_rate : option RationalNumber;
  treasury_growth_rate : option RationalNumber;
  decentralization_constant : option RationalNumber;
  extra_entropy : option Nonce.t;
  protocol_version : option (Z * Z);
  min_pool_cost : option Z;
  ada_per_utxo_byte : option Z;
  cost_models_for_script_languages : option CostModels;
  execution_costs : option ExUnitPrices;
  max_tx_ex_units : option ExUnits;
  max_block_ex_units : option ExUnits;
  max_value_size : option Z;
  collateral_percentage : option Z;
  max_collateral_inputs : option Z
}.
End ProtocolParamUpdate.

Module Update.
Record t := mk { proposed_protocol_parameter_updates : gmap bytes ProtocolParamUpdate.t; epoch : Z }.
End Update.

Module TransactionBody.
Record t := mk {
  inputs : list TransactionInput.t;
  outputs : list TransactionOutput.t;
  fee : Z;
  ttl : option Z;
  certificates : option (list Certificate.t);
  withdrawals : option (gmap bytes Z);
  update : option Update.t;
  auxiliary_data_hash : option bytes;
  validity_interval_start : option Z;
  mint : option Multiasset;
  script_data_hash : option bytes;
  collateral : option (list TransactionInput.t);
  required_signers : option (list bytes);
  network_id : option NetworkId.t
}.
End TransactionBody.

Module VKeyWitness.
Record t := mk { vkey : bytes; signature : bytes }.
End VKeyWitness.

(** The scripts of these eras have no leaves of their own. *)
Abbreviation NativeScript := (NativeScript Empty_set).

Module Redeemer.
Inductive RedeemerTag := Spend | Mint | Cert | Reward.
Record t := mk { redeemer_tag : RedeemerTag; index : Z; data : PlutusData; ex_units : ExUnits }.

#[global] Instance tag_eq_dec : EqDecision RedeemerTag.
Proof. solve_decision. Defined.
End Redeemer.

Module RedeemerPointer.
Record t := mk { tag : Redeemer.RedeemerTag; index : Z }.

#[global] Instance eq_dec : EqDecision t.
Proof. solve_decision. Defined.
End RedeemerPointer.

Module BootstrapWitness.
Record t := mk { public_key : bytes; signature : bytes; chain_code : bytes; attributes : bytes }.
End BootstrapWitness.

Module WitnessSet.
Record t := mk {
  vkeywitness : option (list VKeyWitness.t);
  native_script : option (list (KeepRaw NativeScript));
  bootstrap_witness : option (list BootstrapWitness.t);
  plutus_script : option (list bytes);
  plutus_data : option (list (KeepRaw PlutusData));
  redeemer : option (list Redeemer.t)
}.
End WitnessSet.

Module AuxiliaryData.
Record PostAlonzoAuxiliaryData := {
  metadata : option Metadata;
  native_scripts : option (list NativeScript);
  plutus_scripts : option (list bytes)
}.
Record ShelleyMaAuxiliaryData := {
  transaction_metadata : Metadata;
  auxiliary_scripts : option (list NativeScript)
}.
Inductive t :=
| Shelley (metadata : Metadata)
| ShelleyMa (data : ShelleyMaAuxiliaryData)
| PostAlonzo (data : PostAlonzoAuxiliaryData).
End AuxiliaryData.

Module Tx.
Record t := mk {
  transaction_body : KeepRaw TransactionBody.t;
  transaction_witness_set : KeepRaw WitnessSet.t;
  success : bool;
  auxiliary_data : Nullable.t (KeepRaw AuxiliaryData.t)
}.
End Tx.
End alonzo.

(** ** The Babbage era *)
Module babbage.
Module Language.
Inductive t := PlutusV1 | PlutusV2.
#[global] Instance eq_dec : EqDecision t.
Proof. solve_decision. Defined.
End Language.

Module CostModels.
Record t := mk { plutus_v1 : option (list Z); plutus_v2 : option (list Z) }.
End CostModels.

Module ProtocolParamUpdate.
Record t := mk {
  minfee_a : option Z;
  minfee_b : option Z;
  max_block_body_size : option Z;
  max_transaction_size : option Z;
  max_block_header_size : option Z;
  key_deposit : option Z;
  pool_deposit : option Z;
  maximum_epoch : option Z;
  desired_number_of_stake_pools : option Z;
  pool_pledge_influence : option RationalNumber;
  expansion_rate : option RationalNumber;
  treasury_growth_rate : option RationalNumber;
  protocol_version : option (Z * Z);
  min_pool_cost : option Z;
  ada_per_utxo_byte : option Z;
  cost_models_for_script_languages : option CostModels.t;
  execution_costs : option ExUnitPrices;
  max_tx_ex_units : option ExUnits;
  max_block_ex_units : option ExUnits;
  max_value_size : option Z;
  collateral_percentage : option Z;
  max_collateral_inputs : option Z
}.
End ProtocolParamUpdate.

Module Update.
Record t := mk { proposed_protocol_parameter_updates : gmap bytes ProtocolParamUpdate.t; epoch : Z }.
End Update.

Module DatumOption.
Inductive t := Hash (h : bytes) | Data (d : KeepRaw PlutusData).
End DatumOption.

Module ScriptRef.
Inductive t :=
| NativeScript (s : KeepRaw alonzo.NativeScript)
| PlutusV1Script (bs : bytes)
| PlutusV2Script (bs : bytes).
End ScriptRef.

Module PostAlonzoTransactionOutput.
Record t (V S : Type) := mk {
  address : bytes;
  value : V;
  datum_option : option (KeepRaw DatumOption.t);
  script_ref : option S
}.
Arguments mk {V S} _ _ _ _.
Arguments address {V S} _.
Arguments value {V S} _.
Arguments datum_option {V S} _.
Arguments script_ref {V S} _.
End PostAlonzoTransactionOutput.

Module GenTransactionOutput.
Inductive t (A : Type) :=
| Legacy (out : KeepRaw alonzo.TransactionOutput.t)
| PostAlonzo (out : KeepRaw A).
Arguments Legacy {A} _.
Arguments PostAlonzo {A} _.
End GenTransactionOutput.

Abbreviation TransactionOutput :=
  (GenTransactionOutput.t (PostAlonzoTransactionOutput.t Value ScriptRef.t)).

Module TransactionBody.
Record t := mk {
  inputs : list TransactionInput.t;
  outputs : list (KeepRaw TransactionOutput);
  fee : Z;
  ttl : option Z;
  certificates : option (list alonzo.Certificate.t);
  withdrawals : option (gmap bytes Z);
  update : option Update.t;
  auxiliary_data_hash : option bytes;
  validity_interval_start : option Z;
  mint : option Multiasset;
  script_data_hash : option bytes;
  collateral : option (list TransactionInput.t);
  required_signers : option (list bytes);
  network_id : option NetworkId.t;
  collateral_return : option (KeepRaw TransactionOutput);
  total_collateral : option Z;
  reference_inputs : option (list TransactionInput.t)
}.
End TransactionBody.

Module WitnessSet.
Record t := mk {
  vkeywitness : option (list alonzo.VKeyWitness.t);
  native_script : option (list (KeepRaw alonzo.NativeScript));
  bootstrap_witness : option (list alonzo.BootstrapWitness.t);
  plutus_v1_script : option (list bytes);
  plutus_data : option (list (KeepRaw PlutusData));
  redeemer : option (list alonzo.Redeemer.t);
  plutus_v2_script : option (list bytes)
}.
End WitnessSet.

Module Tx.
Record t := mk {
  transaction_body : KeepRaw TransactionBody.t;
  transaction_witness_set : KeepRaw WitnessSet.t;
  success : bool;
  auxiliary_data : Nullable.t (KeepRaw alonzo.AuxiliaryData.t)
}.
End Tx.
End babbage.

(** ** The Conway era

    A [Set] or [NonEmptySet] is the list it wraps. *)
Module conway.
(** The quantities of a value are positive. *)
Module Value.
Inductive t :=
| Coin (coin : Z)
| Multiasset (coin : Z) (assets : Multiasset).
End Value.
Abbreviation Value := Value.t.

Module DRep.
Inductive t := Key (h : bytes) | Script (h : bytes) | Abstain | NoConfidence.
End DRep.

Module Anchor.
Record t := mk { url : bytes; content_hash : bytes }.
End Anchor.

Module Certificate.
Inductive t :=
| StakeRegistration (stc : StakeCredential)
| StakeDeregistration (stc : StakeCredential)
| StakeDelegation (stc : StakeCredential) (pool : bytes)
| PoolRegistration (operator vrf_keyhash : bytes) (pledge cost : Z) (margin : RationalNumber)
    (reward_account : bytes) (pool_owners : list bytes) (relays : list Relay.t)
    (pool_metadata : option PoolMetadata)
| PoolRetirement (pool : bytes) (epoch : Z)
| Reg (stc : StakeCredential) (coin : Z)
| UnReg (stc : StakeCredential) (coin : Z)
| VoteDeleg (stc : StakeCredential) (drep : DRep.t)
| StakeVoteDeleg (stc : StakeCredential) (pool : bytes) (drep : DRep.t)
| StakeRegDeleg (stc : StakeCredential) (pool : bytes) (coin : Z)
| VoteRegDeleg (stc : StakeCredential) (drep : DRep.t) (coin : Z)
| StakeVoteRegDeleg (stc : StakeCredential) (pool : bytes) (drep : DRep.t) (coin : Z)
| AuthCommitteeHot (cold hot : StakeCredential)
| ResignCommitteeCold (cold : StakeCredential) (anchor : option Anchor.t)
| RegDRepCert (drep : StakeCredential) (coin : Z) (anchor : option Anchor.t)
| UnRegDRepCert (drep : StakeCredential) (coin : Z)
| UpdateDRepCert (drep : StakeCredential) (anchor : option Anchor.t).
End Certificate.

Module Language.
Inductive t := PlutusV1 | PlutusV2 | PlutusV3.
#[global] Instance eq_dec : EqDecision t.
Proof. solve_decision. Defined.
End Language.

Module CostModels.
Record t := mk {
  plutus_v1 : option (list Z);
  plutus_v2 : option (list Z);
  plutus_v3 : option (list Z);
  unknown : gmap Z (list Z)
}.
End CostModels.

Module PoolVotingThresholds.
Record t := mk {
  motion_no_confidence : RationalNumber;
  committee_normal : RationalNumber;
  committee_no_confidence : RationalNumber;
  hard_fork_initiation : RationalNumber;
  security_voting_threshold : RationalNumber
}.
End PoolVotingThresholds.

Module DRepVotingThresholds.
Record t := mk {
  motion_no_confidence : RationalNumber;
  committee_normal : RationalNumber;
  committee_no_confidence : RationalNumber;
  update_constitution : RationalNumber;
  hard_fork_initiation : RationalNumber;
  pp_network_group : RationalNumber;
  pp_economic_group : RationalNumber;
  pp_technical_group : RationalNumber;
  pp_governance_group : RationalNumber;
  treasury_withdrawal : RationalNumber
}.
End DRepVotingThresholds.

Module ProtocolParamUpdate.
Record t := mk {
  minfee_a : option Z;
  minfee_b : option Z;
  max_block_body_size : option Z;
  max_transaction_size : option Z;
  max_block_header_size : option Z;
  key_deposit : option Z;
  pool_deposit : option Z;
  maximum_epoch : option Z;
  desired_number_of_stake_pools : option Z;
  pool_pledge_influence : option RationalNumber;
  expansion_rate : option RationalNumber;
  treasury_growth_rate : option RationalNumber;
  min_pool_cost : option Z;
  ada_per_utxo_byte : option Z;
  cost_models_for_script_languages : option CostModels.t;
  execution_costs : option ExUnitPrices;
  max_tx_ex_units : option ExUnits;
  max_block_ex_units : option ExUnits;
  max_value_size : option Z;
  collateral_percentage : option Z;
  max_collateral_inputs : option Z;
  pool_voting_thresholds : option PoolVotingThresholds.t;
  drep_voting_thresholds : option DRepVotingThresholds.t;
  min_committee_size : option Z;
  committee_term_limit : option Z;
  governance_action_validity_period : option Z;
  governance_action_deposit : option Z;
  drep_deposit : option Z;
  drep_inactivity_period : option Z;
  minfee_refscript_cost_per_byte : option RationalNumber
}.
End ProtocolParamUpdate.

Module Voter.
Inductive t :=
| ConstitutionalCommitteeScript (h : bytes)
| ConstitutionalCommitteeKey (h : bytes)
| DRepScript (h : bytes)
| DRepKey (h : bytes)
| StakePoolKey (h : bytes).

#[global] Instance eq_dec : EqDecision t.
Proof. solve_decision. Defined.
#[global] Instance countable : Countable t.
Proof.
  refine (inj_countable'
    (fun v => match v with
              | ConstitutionalCommitteeScript h => (0, h) | ConstitutionalCommitteeKey h => (1, h)
              | DRepScript h => (2, h) | DRepKey h => (3, h) | StakePoolKey h => (4, h)
              end)
    (fun p => if decide (p.1 = 0) then ConstitutionalCommitteeScript p.2
              else if decide (p.1 = 1) then ConstitutionalCommitteeKey p.2
              else if decide (p.1 = 2) then DRepScript p.2
              else if decide (p.1 = 3) then DRepKey p.2 else StakePoolKey p.2) _).
  by intros [].
Defined.
End Voter.

Module GovActionId.
Record t := mk { transaction_id : bytes; action_index : Z }.

#[global] Instance eq_dec : EqDecision t.
Proof. solve_decision. Defined.
#[global] Instance countable : Countable t.
Proof.
  refine (inj_countable' (fun x => (transaction_id x, action_index x)) (fun p => mk p.1 p.2) _).
  by intros [].
Defined.
End GovActionId.

Module Vote.
Inductive t := No | Yes | Abstain.
End Vote.

Module VotingProcedure.
Record t := mk { vote : Vote.t; anchor : option Anchor.t }.
End VotingProcedure.

Module Constitution.
Record t := mk { anchor : Anchor.t; guardrail_script : option bytes }.
End Constitution.

Module GovAction.
Inductive t :=
| ParameterChange (id : option GovActionId.t) (update : ProtocolParamUpdate.t) (script : option bytes)
| HardForkInitiation (id : option GovActionId.t) (version : Z * Z)
| TreasuryWithdrawals (withdrawals : gmap bytes Z) (script : option bytes)
| NoConfidence (id : option GovActionId.t)
| UpdateCommittee (id : option GovActionId.t) (removed : list StakeCredential)
    (added : gmap StakeCredential Z) (threshold : RationalNumber)
| NewConstitution (id : option GovActionId.t) (constitution : Constitution.t)
| Information.
End GovAction.

Module ProposalProcedure.
Record t := mk { deposit : Z; reward_account : bytes; gov_action : GovAction.t; anchor : Anchor.t }.
End ProposalProcedure.

Module ScriptRef.
Inductive t :=
| NativeScript (s : KeepRaw alonzo.NativeScript)
| PlutusV1Script (bs : bytes)
| PlutusV2Script (bs : bytes)
| PlutusV3Script (bs : bytes).

Definition from (value : babbage.ScriptRef.t) : t :=
  match value with
  | babbage.ScriptRef.NativeScript x => NativeScript x
  | babbage.ScriptRef.PlutusV1Script x => PlutusV1Script x
  | babbage.ScriptRef.PlutusV2Script x => PlutusV2Script x
  end.
End ScriptRef.

Abbreviation TransactionOutput :=
  (babbage.GenTransactionOutput.t (babbage.PostAlonzoTransactionOutput.t Value ScriptRef.t)).

(** A minted quantity is not zero. *)
Module TransactionBody.
Record t := mk {
  inputs : list TransactionInput.t;
  outputs : list TransactionOutput;
  fee : Z;
  ttl : option Z;
  certificates : option (list Certificate.t);
  withdrawals : option (gmap bytes Z);
  auxiliary_data_hash : option bytes;
  validity_interval_start : option Z;
  mint : option Multiasset;
  script_data_hash : option bytes;
  collateral : option (list TransactionInput.t);
  required_signers : option (list bytes);
  network_id : option NetworkId.t;
  collateral_return : option TransactionOutput;
  total_collateral : option Z;
  reference_inputs : option (list TransactionInput.t);
  voting_procedures : option (gmap Voter.t (gmap GovActionId.t VotingProcedure.t));
  proposal_procedures : option (list ProposalProcedure.t);
  treasury_value : option Z;
  donation : option Z
}.
End TransactionBody.

Module RedeemerTag.
Inductive t := Spend | Mint | Cert | Reward | Vote | Propose.

#[global] Instance eq_dec : EqDecision t.
Proof. solve_decision. Defined.

(** The order of the declaration, which is derived. *)
Definition number (tag : t) : Z :=
  match tag with Spend => 0 | Mint => 1 | Cert => 2 | Reward => 3 | Vote => 4 | Propose => 5 end.
End RedeemerTag.

Module Redeemer.
Record t := mk { tag : RedeemerTag.t; index : Z; data : PlutusData; ex_units : ExUnits }.
End Redeemer.

Module RedeemersKey.
Record t := mk { tag : RedeemerTag.t; index : Z }.

#[global] Instance eq_dec : EqDecision t.
Proof. solve_decision. Defined.
End RedeemersKey.

Module RedeemersValue.
Record t := mk { data : PlutusData; ex_units : ExUnits }.
End RedeemersValue.

(** The entries of the map in the order of their keys. *)
Module Redeemers.
Inductive t :=
| List (redeemers : list Redeemer.t)
| Map (redeemers : list (RedeemersKey.t * RedeemersValue.t)).
End Redeemers.

Module WitnessSet.
Record t := mk {
  vkeywitness : option (list alonzo.VKeyWitness.t);
  native_script : option (list (KeepRaw alonzo.NativeScript));
  bootstrap_witness : option (list alonzo.BootstrapWitness.t);
  plutus_v1_script : option (list bytes);
  plutus_data : option (KeepRaw (list (KeepRaw PlutusData)));
  redeemer : option (KeepRaw Redeemers.t);
  plutus_v2_script : option (list bytes);
  plutus_v3_script : option (list bytes)
}.
End WitnessSet.

Module Tx.
Record t := mk {
  transaction_body : KeepRaw TransactionBody.t;
  transaction_witness_set : KeepRaw WitnessSet.t;
  success : bool;
  auxiliary_data : Nullable.t (KeepRaw alonzo.AuxiliaryData.t)
}.
End Tx.
End conway.

(** ** Views over the eras *)
Module Era.
Inductive t := Byron | Shelley | Allegra | Mary | Alonzo | Babbage | Conway.
#[global] Instance eq_dec : EqDecision t.
Proof. solve_decision. Defined.
End Era.

Module MultiEraInput.
Inductive t :=
| Byron (x : byron.TxIn.t)
| AlonzoCompatible (x : TransactionInput.t).

#[global] Instance eq_dec : EqDecision t.
Proof. solve_decision. Defined.
#[global] Instance countable : Countable t.
Proof.
  refine (inj_countable' (fun x => match x with Byron x => inl x | AlonzoCompatible x => inr x end)
    (fun s => match s with inl x => Byron x | inr x => AlonzoCompatible x end) _).
  by intros [].
Defined.
End MultiEraInput.

Module MultiEraOutput.
Inductive t :=
| AlonzoCompatible (x : alonzo.TransactionOutput.t) (era : Era.t)
| Babbage (x : babbage.TransactionOutput)
| Conway (x : conway.TransactionOutput)
| Byron (x : byron.TxOut.t).

Definition as_alonzo (o : t) : option alonzo.TransactionOutput.t :=
  match o with AlonzoCompatible x _ => Some x | _ => None end.
Definition as_babbage (o : t) : option babbage.TransactionOutput :=
  match o with Babbage x => Some x | _ => None end.
Definition as_byron (o : t) : option byron.TxOut.t :=
  match o with Byron x => Some x | _ => None end.
Definition as_conway (o : t) : option conway.TransactionOutput :=
  match o with Conway x => Some x | _ => None end.
End MultiEraOutput.

Abbreviation UTxOs := (gmap MultiEraInput.t MultiEraOutput.t).

Module MultiEraValue.
Inductive t :=
| Byron (coin : Z)
| AlonzoCompatible (value : Value)
| Conway (value : conway.Value).
End MultiEraValue.

Module MultiEraTx.
Inductive t :=
| AlonzoCompatible (tx : alonzo.Tx.t) (era : Era.t)
| Babbage (tx : babbage.Tx.t)
| Byron (tx : byron.TxPayload.t)
| Conway (tx : conway.Tx.t).

Definition era (tx : t) : Era.t :=
  match tx with
  | AlonzoCompatible _ era => era
  | Babbage _ => Era.Babbage
  | Byron _ => Era.Byron
  | Conway _ => Era.Conway
  end.
End MultiEraTx.

(** ** State *)
Module CertPointer.
Record t := mk { slot : Z; tx_ix : Z; cert_ix : Z }.

#[global] Instance eq_dec : EqDecision t.
Proof. solve_decision. Defined.
#[global] Instance countable : Countable t.
Proof.
  refine (inj_countable' (fun x => (slot x, tx_ix x, cert_ix x)) (fun p => mk p.1.1 p.1.2 p.2) _).
  by intros [].
Defined.
End CertPointer.

(** The pots of [inst_rewards] are the reserves and the treasury. *)
Module DState.
Record t := mk {
  rewards : gmap StakeCredential Z;
  delegations : gmap StakeCredential bytes;
  ptrs : gmap CertPointer.t StakeCredential;
  fut_gen_delegs : gmap (Z * bytes) (bytes * bytes);
  gen_delegs : gmap bytes (bytes * bytes);
  inst_rewards : gmap StakeCredential Z * gmap StakeCredential Z
}.
End DState.

Module PoolParam.
Record t := mk {
  vrf_keyhash : bytes;
  pledge : Z;
  cost : Z;
  margin : RationalNumber;
  reward_account : bytes;
  pool_owners : list bytes;
  relays : list Relay.t;
  pool_metadata : option PoolMetadata
}.
End PoolParam.

Module PState.
Record t := mk {
  pool_params : gmap bytes PoolParam.t;
  fut_pool_params : gmap bytes PoolParam.t;
  retiring : gmap bytes Z
}.
End PState.

Module CertState.
Record t := mk { pstate : PState.t; dstate : DState.t }.
End CertState.

(** ** Environments

    A time ([chrono::DateTime]) is the seconds since the epoch. *)
Module ByronProtParams.
Record t := mk {
  block_version : Z * Z * Z;
  start_time : Z;
  script_version : Z;
  slot_duration : Z;
  max_block_size : Z;
  max_header_size : Z;
  max_tx_size : Z;
  max_proposal_size : Z;
  mpc_thd : Z;
  heavy_del_thd : Z;
  update_vote_thd : Z;
  update_proposal_thd : Z;
  update_implicit : Z;
  soft_fork_rule : Z * Z * Z;
  summand : Z;
  multiplier : Z;
  unlock_stake_epoch : Z
}.
End ByronProtParams.

Module ShelleyProtParams.
Record t := mk {
  system_start : Z;
  epoch_length : Z;
  slot_length : Z;
  minfee_a : Z;
  minfee_b : Z;
  max_block_body_size : Z;
  max_transaction_size : Z;
  max_block_header_size : Z;
  key_deposit : Z;
  pool_deposit : Z;
  desired_number_of_stake_pools : Z;
  protocol_version : Z * Z;
  min_utxo_value : Z;
  min_pool_cost : Z;
  expansion_rate : RationalNumber;
  treasury_growth_rate : RationalNumber;
  maximum_epoch : Z;
  pool_pledge_influence : RationalNumber;
  decentralization_constant : RationalNumber;
  extra_entropy : Nonce.t
}.
End ShelleyProtParams.

Module AlonzoProtParams.
Record t := mk {
  system_start : Z;
  epoch_length : Z;
  slot_length : Z;
  minfee_a : Z;
  minfee_b : Z;
  max_block_body_size : Z;
  max_transaction_size : Z;
  max_block_header_size : Z;
  key_deposit : Z;
  pool_deposit : Z;
  desired_number_of_stake_pools : Z;
  protocol_version : Z * Z;
  min_pool_cost : Z;
  ada_per_utxo_byte : Z;
  cost_models_for_script_languages : alonzo.CostModels;
  execution_costs : ExUnitPrices;
  max_tx_ex_units : ExUnits;
  max_block_ex_units : ExUnits;
  max_value_size : Z;
  collateral_percentage : Z;
  max_collateral_inputs : Z;
  expansion_rate : RationalNumber;
  treasury_growth_rate : RationalNumber;
  maximum_epoch : Z;
  pool_pledge_influence : RationalNumber;
  decentralization_constant : RationalNumber;
  extra_entropy : Nonce.t
}.
End AlonzoProtParams.

Module BabbageProtParams.
Record t := mk {
  system_start : Z;
  epoch_length : Z;
  slot_length : Z;
  minfee_a : Z;
  minfee_b : Z;
  max_block_body_size : Z;
  max_transaction_size : Z;
  max_block_header_size : Z;
  key_deposit : Z;
  pool_deposit : Z;
  desired_number_of_stake_pools : Z;
  protocol_version : Z * Z;
  min_pool_cost : Z;
  ada_per_utxo_byte : Z;
  cost_models_for_script_languages : babbage.CostModels.t;
  execution_costs : ExUnitPrices;
  max_tx_ex_units : ExUnits;
  max_block_ex_units : ExUnits;
  max_value_size : Z;
  collateral_percentage : Z;
  max_collateral_inputs : Z;
  expansion_rate : RationalNumber;
  treasury_growth_rate : RationalNumber;
  maximum_epoch : Z;
  pool_pledge_influence : RationalNumber;
  decentralization_constant : RationalNumber;
  extra_entropy : Nonce.t
}.
End BabbageProtParams.

Module ConwayProtParams.
Record t := mk {
  system_start : Z;
  epoch_length : Z;
  slot_length : Z;
  minfee_a : Z;
  minfee_b : Z;
  max_block_body_size : Z;
  max_transaction_size : Z;
  max_block_header_size : Z;
  key_deposit : Z;
  pool_deposit : Z;
  desired_number_of_stake_pools : Z;
  protocol_version : Z * Z;
  min_pool_cost : Z;
  ada_per_utxo_byte : Z;
  cost_models_for_script_languages : conway.CostModels.t;
  execution_costs : ExUnitPrices;
  max_tx_ex_units : ExUnits;
  max_block_ex_units : ExUnits;
  max_value_size : Z;
  collateral_percentage : Z;
  max_collateral_inputs : Z;
  expansion_rate : RationalNumber;
  treasury_growth_rate : RationalNumber;
  maximum_epoch : Z;
  pool_pledge_influence : RationalNumber;
  pool_voting_thresholds : conway.PoolVotingThresholds.t;
  drep_voting_thresholds : conway.DRepVotingThresholds.t;
  min_committee_size : Z;
  committee_term_limit : Z;
  governance_action_validity_period : Z;
  governance_action_deposit : Z;
  drep_deposit : Z;
  drep_inactivity_period : Z;
  minfee_refscript_cost_per_byte : RationalNumber
}.
End ConwayProtParams.

Module AccountState.
Record t := mk { treasury : Z; reserves : Z }.
End AccountState.

Module MultiEraProtocolParameters.
Inductive t :=
| Byron (pps : ByronProtParams.t)
| Shelley (pps : ShelleyProtParams.t)
| Alonzo (pps : AlonzoProtParams.t)
| Babbage (pps : BabbageProtParams.t)
| Conway (pps : ConwayProtParams.t).
End MultiEraProtocolParameters.

Module Environment.
Record t := mk {
  prot_params : MultiEraProtocolParameters.t;
  prot_magic : Z;
  block_slot : Z;
  network_id : Z;
  acnt : option AccountState.t
}.
End Environment.

(** ** Errors *)
Module ByronError.
Inductive t :=
| TxInsEmpty
| TxOutsEmpty
| InputNotInUTxO
| OutputWithoutLovelace
| UnknownTxSize
| UnableToComputeFees
| FeesBelowMin
| MaxTxSizeExceeded
| UnableToProcessWitness
| MissingWitness
| WrongSignature.
End ByronError.

Module ShelleyMAError.
Inductive t :=
| TxInsEmpty
| InputNotInUTxO
| TTLExceeded
| AlonzoCompNotShelley
| UnknownTxSize
| MaxTxSizeExceeded
| ValueNotShelley
| MinLovelaceUnreached
| PreservationOfValue
| NegativeValue
| FeesBelowMin
| WrongEraOutput
| AddressDecoding
| WrongNetworkID
| MetadataHash
| MissingVKWitness
| MissingScriptWitness
| WrongSignature
| MintingLacksPolicy
| KeyAlreadyRegistered
| KeyNotRegistered
| PointerInUse
| RewardsNotNull
| PoolAlreadyRegistered
| PoolNotRegistered
| PoolCostBelowMin
| DuplicateGenesisDelegate
| DuplicateGenesisVRF
| GenesisKeyNotInMapping
| InsufficientForInstantaneousRewards
| MIRCertificateTooLateinEpoch
| ScriptDenial.
End ShelleyMAError.

Module AlonzoError.
Inductive t :=
| UnknownTxSize
| TxInsEmpty
| InputNotInUTxO
| CollateralNotInUTxO
| BlockExceedsValInt
| BlockPrecedesValInt
| ValIntUpperBoundMissing
| FeeBelowMin
| CollateralMissing
| TooManyCollaterals
| CollateralNotVKeyLocked
| AddressDecoding
| CollateralMinLovelace
| NonLovelaceCollateral
| NegativeValue
| PreservationOfValue
| MinLovelaceUnreached
| MaxValSizeExceeded
| OutputWrongNetworkID
| TxWrongNetworkID
| RedeemerMissing
| TxExUnitsExceeded
| MaxTxSizeExceeded
| VKWitnessMissing
| VKWrongSignature
| ReqSignerMissing
| ReqSignerWrongSig
| ScriptWitnessMissing
| MintingLacksPolicy
| InputDecoding
| UnneededNativeScript
| UnneededPlutusScript
| UnneededRedeemer
| DatumMissing
| UnneededDatum
| MetadataHash
| ScriptIntegrityHash.
End AlonzoError.

Module PostAlonzoError.
Inductive t :=
| UnknownTxSize
| TxInsEmpty
| InputNotInUTxO
| CollateralNotInUTxO
| ReferenceInputNotInUTxO
| BlockPrecedesValInt
| BlockExceedsValInt
| FeeBelowMin
| CollateralMissing
| TooManyCollaterals
| InputDecoding
| CollateralNotVKeyLocked
| CollateralMinLovelace
| NonLovelaceCollateral
| CollateralWrongAssets
| NegativeValue
| CollateralAnnotation
| PreservationOfValue
| MinLovelaceUnreached
| MaxValSizeExceeded
| AddressDecoding
| OutputWrongNetworkID
| TxWrongNetworkID
| TxExUnitsExceeded
| RedeemerMissing
| UnneededRedeemer
| MaxTxSizeExceeded
| MintingLacksPolicy (policy : bytes)
| MetadataHash
| DatumMissing
| UnneededDatum
| ScriptWitnessMissing
| UnneededNativeScript
| UnneededPlutusV1Script
| UnneededPlutusV2Script
| UnneededPlutusV3Script
| ReqSignerMissing
| ReqSignerWrongSig
| VKWitnessMissing
| VKWrongSignature
| UnsupportedPlutusLanguage
| ScriptIntegrityHash.
End PostAlonzoError.

Module ValidationError.
Inductive t :=
| TxAndProtParamsDiffer
| PParamsByronDoesntNeedAccountState
| EnvMissingAccountState
| UnknownProtParams
| Byron (e : ByronError.t)
| ShelleyMA (e : ShelleyMAError.t)
| Alonzo (e : AlonzoError.t)
| PostAlonzo (e : PostAlonzoError.t).
End ValidationError.
Abbreviation ValidationError := ValidationError.t.
