(* ===== verification/Assets.v ===== *)
(** * Arithmetic of values

    [pallas-validate/src/utils.rs]: sums and comparisons of values, those of the eras up
    to Babbage and those of Conway, and the quantities they stand for.  A method without
    a state is a computation on [unit].  The order in which the maps are gone through
    does not matter for any of them. *)
From S2P Require Import Prelude Cbor Effects NativeScript LedgerTypes.

(** ** Machine integers *)

(** [x as i64] of an [u64], [x as u64] of an [i64]. *)
Definition u64_as_i64 (x : Z) : Z := if x <? 2 ^ 63 then x else x - 2 ^ 64.
Definition i64_as_u64 (x : Z) : Z := x mod 2 ^ 64.
Definition i64_add (a b : Z) : option Z :=
  if (- 2 ^ 63 <=? a + b) && (a + b <? 2 ^ 63) then Some (a + b) else None.

Abbreviation check := (comp ValidationError ()).

(** [checked_add] and [u64::try_from] with the error of the caller. *)
Definition add_lovelace (first second : Z) (err : ValidationError) : check Z :=
  match checked_add 64 first second with Some c => mret c | None => throw err end.
Definition u64_try_from (x : Z) (err : ValidationError) : check Z :=
  if 0 <=? x then mret x else throw err.

(** ** Loops over maps *)
Section loops.
Context {E S : Type}.

(** [for (k, v) in kvs { res.insert(k, f(res.get(k), v)) }] *)
Fixpoint insert_loop {A B} (f : option A -> B -> comp E S A) (res : gmap bytes A) (kvs : list (bytes * B)) :
    comp E S (gmap bytes A) :=
  match kvs with
  | [] => mret res
  | (k, v) :: kvs => x ← f (res !! k) v; insert_loop f (<[k := x]> res) kvs
  end.

(** Every entry is converted and pushed, and the entries are collected. *)
Definition convert {A B} (f : B -> comp E S A) (m : gmap bytes B) : comp E S (gmap bytes A) :=
  insert_loop (fun _ => f) ∅ (map_to_list m).
End loops.

(** ** Sums of multi-assets *)
Definition coerce_to_i64 (value : Multiasset) : Multiasset := fmap (M := gmap bytes) u64_as_i64 <$> value.

Definition coerce_to_coin (value : Multiasset) (err : ValidationError) : check Multiasset :=
  convert (convert (fun amount => u64_try_from amount err)) value.

Definition add_same_policy_assets (old_assets new_assets : gmap bytes Z) : check (gmap bytes Z) :=
  insert_loop (fun old_amount new_amount =>
      match old_amount with
      | Some old_amount => eval (i64_add old_amount new_amount)
      | None => mret new_amount
      end) old_assets (map_to_list new_assets).

Definition add_policies (res : Multiasset) (value : Multiasset) : check Multiasset :=
  insert_loop (fun old_assets new_assets =>
      match old_assets with
      | Some old_assets => add_same_policy_assets old_assets new_assets
      | None => add_same_policy_assets ∅ new_assets
      end) res (map_to_list value).

Definition add_multiasset_values (first second : Multiasset) : check Multiasset :=
  res ← add_policies ∅ first; add_policies res second.

Definition empty_value : Value := Value.Multiasset 0 ∅.

Definition add_values (first second : Value) (err : ValidationError) : check Value :=
  match first, second with
  | Value.Coin f, Value.Coin s => c ← add_lovelace f s err; mret (Value.Coin c)
  | Value.Multiasset f fma, Value.Coin s => c ← add_lovelace f s err; mret (Value.Multiasset c fma)
  | Value.Coin f, Value.Multiasset s sma => c ← add_lovelace f s err; mret (Value.Multiasset c sma)
  | Value.Multiasset f fma, Value.Multiasset s sma =>
      c ← add_lovelace f s err;
      sum ← add_multiasset_values (coerce_to_i64 fma) (coerce_to_i64 sma);
      sum ← coerce_to_coin sum err;
      mret (Value.Multiasset c sum)
  end.

Definition add_minted_value (base_value : Value) (minted_value : Multiasset) (err : ValidationError) : check Value :=
  match base_value with
  | Value.Coin n => ma ← coerce_to_coin minted_value err; mret (Value.Multiasset n ma)
  | Value.Multiasset n mary_base_value =>
      sum ← add_multiasset_values (coerce_to_i64 mary_base_value) minted_value;
      ma ← coerce_to_coin sum err;
      mret (Value.Multiasset n ma)
  end.

(** ** Comparisons *)

(** An amount of zero is passed over, a policy is not. *)
Definition multi_asset_included (fma sma : Multiasset) : bool :=
  forallb (fun '(fpolicy, fassets) =>
      match sma !! fpolicy with
      | Some sassets =>
          forallb (fun '(fasset_name, famount) =>
              if negb (famount =? 0) then
                match (sassets : gmap bytes Z) !! fasset_name with
                | Some samount => famount =? samount
                | None => false
                end
              else true) (map_to_list (fassets : gmap bytes Z))
      | None => false
      end) (map_to_list fma).

Definition multi_assets_are_equal (fma sma : Multiasset) : bool :=
  multi_asset_included fma sma && multi_asset_included sma fma.

Definition is_empty {V} (m : gmap bytes V) : bool := (size m =? 0)%nat.

Definition values_are_equal (first second : Value) : bool :=
  match first, second with
  | Value.Coin f, Value.Coin s => f =? s
  | Value.Multiasset f fma, Value.Coin s => (f =? s) && is_empty fma
  | Value.Coin f, Value.Multiasset s sma => (f =? s) && is_empty sma
  | Value.Multiasset f fma, Value.Multiasset s sma =>
      if negb (f =? s) then false else multi_assets_are_equal fma sma
  end.

Definition lovelace_diff_or_fail (first second : Value) (err : ValidationError) : check Z :=
  match first, second with
  | Value.Coin f, Value.Coin s => if s <=? f then mret (f - s) else throw err
  | Value.Coin _, Value.Multiasset _ _ => throw err
  | Value.Multiasset f fma, Value.Coin s => if (s <=? f) && is_empty fma then mret (f - s) else throw err
  | Value.Multiasset f fma, Value.Multiasset s sma =>
      if (s <=? f) && multi_assets_are_equal fma sma then mret (f - s) else throw err
  end.

Definition get_lovelace_from_alonzo_val (val : Value) : Z :=
  match val with Value.Coin res | Value.Multiasset res _ => res end.

(** ** The size of a value *)
Section size.
Context `{Minicbor}.

Definition Assets_encode (assets : gmap bytes Z) : enc :=
  w_map (Z.of_nat (size assets)) ⊕ enc_all ((fun kv => w_bytes kv.1 ⊕ w_u64 kv.2) <$> map_to_list assets).

Definition Value_encode (val : Value) : enc :=
  match val with
  | Value.Multiasset coin multi =>
      w_array 2 ⊕ w_u64 coin ⊕ w_map (Z.of_nat (size multi)) ⊕
      enc_all ((fun kv => Hash_encode kv.1 ⊕ Assets_encode kv.2) <$> map_to_list multi)
  | Value.Coin coin => w_u64 coin
  end.

Definition get_val_size_in_words (val : Value) : Z :=
  (Z.of_nat (length (default [] (Value_encode val))) + 7) / 8.
End size.

(** ** What the loops compute *)

(** A method without a state either fails or returns. *)
Lemma check_bind {E A B} (m : comp E () A) (f : A -> comp E () B) b :
  yields (m ≫= f) () b () -> exists a, yields m () a () /\ yields (f a) () b ().
Proof. unfold yields, mbind, comp_bind. destruct (m ()) as [[a|e] []| |]; naive_solver. Qed.

Lemma check_eval {E A} (x : option A) (a : A) : yields (eval x : comp E () A) () a () <-> x = Some a.
Proof. unfold yields, eval. destruct x; naive_solver. Qed.

Lemma check_ret {E A} (x a : A) : yields (mret x : comp E () A) () a () <-> x = a.
Proof. unfold yields, mret, comp_ret. naive_solver. Qed.

Lemma check_throw {E A} (e : E) (a : A) : ~ yields (throw e : comp E () A) () a ().
Proof. done. Qed.

Lemma u64_try_from_yields x err y : yields (u64_try_from x err) () y () <-> 0 <= x /\ y = x.
Proof.
  unfold u64_try_from. destruct (Z.leb_spec 0 x); rewrite ?check_ret; [naive_solver|].
  split; [by intros ?%check_throw|lia].
Qed.

Lemma add_lovelace_yields f s err c : yields (add_lovelace f s err) () c () <-> f + s < 2 ^ 64 /\ c = f + s.
Proof.
  unfold add_lovelace. destruct (checked_add 64 f s) as [c'|] eqn:Hc.
  - apply checked_add_Some in Hc as [? ->]. rewrite check_ret. naive_solver.
  - unfold checked_add in Hc. destruct (Z.ltb_spec (f + s) (2 ^ 64)); [done|].
    split; [by intros ?%check_throw|lia].
Qed.

Section loop_laws.
Context {E A B : Type} (f : option A -> B -> comp E () A).

(** The map is updated at the keys that are gone through. *)
Definition updated (res : gmap bytes A) (m : gmap bytes B) (r : gmap bytes A) : Prop :=
  forall k, match m !! k with
       | Some v => exists a, yields (f (res !! k) v) () a () /\ r !! k = Some a
       | None => r !! k = res !! k
       end.

Lemma insert_loop_list res kvs r :
  NoDup kvs.*1 -> yields (insert_loop f res kvs) () r () <-> updated res (list_to_map kvs) r.
Proof.
  revert res; induction kvs as [|[k v] kvs IH]; intros res Hd; cbn [insert_loop].
  { rewrite check_ret. unfold updated. cbn. split; [by intros -> k|]. intros Hr. symmetry.
    apply map_eq. intros k. specialize (Hr k). by rewrite lookup_empty in Hr. }
  apply NoDup_cons in Hd as [Hk Hd]. cbn [fst fmap list_fmap] in *. split.
  - intros (a & Ha & Hr)%check_bind k'. apply IH in Hr; [|done]. specialize (Hr k'). cbn [list_to_map foldr uncurry].
    destruct (decide (k' = k)) as [->|].
    + rewrite lookup_insert_eq. rewrite (not_elem_of_list_to_map_1 _ _ Hk), lookup_insert_eq in Hr. eauto.
    + by rewrite !lookup_insert_ne in * by done.
  - intros Hr. pose proof (Hr k) as Ha. cbn [list_to_map foldr uncurry] in Ha. rewrite lookup_insert_eq in Ha.
    destruct Ha as (a & Ha & Hra). eapply yields_bind; [exact Ha|]. apply IH; [done|]. intros k'. specialize (Hr k').
    cbn [list_to_map foldr uncurry] in Hr. destruct (decide (k' = k)) as [->|].
    + by rewrite (not_elem_of_list_to_map_1 _ _ Hk), lookup_insert_eq.
    + by rewrite !lookup_insert_ne in * by done.
Qed.

Lemma insert_loop_yields (res : gmap bytes A) (m : gmap bytes B) (r : gmap bytes A) :
  yields (insert_loop f res (map_to_list m)) () r () <-> updated res m r.
Proof. rewrite insert_loop_list by apply NoDup_fst_map_to_list. by rewrite list_to_map_to_list. Qed.
End loop_laws.

Lemma convert_yields {E A B} (f : B -> comp E () A) (m : gmap bytes B) (r : gmap bytes A) :
  yields (convert f m) () r () <->
  map_relation (M := gmap bytes) (fun _ b a => yields (f b) () a ()) (fun _ _ => False) (fun _ _ => False) m r.
Proof.
  unfold convert. rewrite insert_loop_yields. unfold updated, map_relation, option_relation.
  apply forall_proper. intros k. rewrite lookup_empty. destruct (m !! k) as [b|], (r !! k) as [a|]; naive_solver.
Qed.

(** ** Quantities *)
Definition amount_of (assets : gmap bytes Z) (name : bytes) : Z := default 0 (assets !! name).
Definition quantity_of (ma : Multiasset) (policy name : bytes) : Z := amount_of (default ∅ (ma !! policy)) name.

(** Every amount has the property. *)
Definition amounts (P : Z -> Prop) (ma : Multiasset) : Prop :=
  map_Forall (fun _ => map_Forall (fun _ => P)) ma.

#[export] Instance amounts_dec (P : Z -> Prop) `{forall x, Decision (P x)} ma : Decision (amounts P ma).
Proof. unfold amounts. apply _. Defined.

Lemma amounts_impl (P Q : Z -> Prop) ma : (forall x, P x -> Q x) -> amounts P ma -> amounts Q ma.
Proof. unfold amounts, map_Forall. naive_solver. Qed.

Lemma quantity_amounts (P : Z -> Prop) ma p n : P 0 -> amounts P ma -> P (quantity_of ma p n).
Proof.
  intros H0 Hma. unfold quantity_of, amount_of. destruct (ma !! p) as [a|] eqn:Hp; cbn [default from_option id].
  - destruct (a !! n) as [x|] eqn:Hn; cbn; [by eapply Hma|done].
  - by rewrite lookup_empty.
Qed.

Lemma coerce_small ma : amounts (fun x => 0 <= x < 2 ^ 63) ma -> coerce_to_i64 ma = ma.
Proof.
  intros Hma. apply map_eq. intros p. unfold coerce_to_i64. rewrite lookup_fmap.
  destruct (ma !! p) as [a|] eqn:Hp; [|done]. cbn. f_equal. apply map_eq. intros n. rewrite lookup_fmap.
  destruct (a !! n) as [x|] eqn:Hn; [|done]. cbn. f_equal. specialize (Hma _ _ Hp _ _ Hn). cbn in Hma.
  unfold u64_as_i64. destruct (Z.ltb_spec x (2 ^ 63)); lia.
Qed.

Lemma coerce_to_coin_yields ma err r :
  yields (coerce_to_coin ma err) () r () <-> amounts (fun x => 0 <= x) ma /\ r = ma.
Proof.
  unfold coerce_to_coin. rewrite convert_yields.
  assert (forall a b, yields (convert (fun amount => u64_try_from amount err) a) () b () <->
    map_Forall (fun _ x => 0 <= x) a /\ b = a) as Hin.
  { intros a b. rewrite convert_yields. split.
    - intros Hr. split.
      + intros n x Hn. specialize (Hr n). rewrite Hn in Hr. destruct (b !! n); [|done]. by apply u64_try_from_yields in Hr as [? _].
      + apply map_eq. intros n. specialize (Hr n). destruct (a !! n), (b !! n); try done.
        by apply u64_try_from_yields in Hr as [_ ->].
    - intros [Ha ->] n. destruct (a !! n) eqn:Hn; [|done]. cbn. apply u64_try_from_yields. split; [by eapply Ha|done]. }
  split.
  - intros Hr. split.
    + intros p a Hp. specialize (Hr p). rewrite Hp in Hr. destruct (r !! p); [|done]. by apply Hin in Hr as [? _].
    + apply map_eq. intros p. specialize (Hr p). destruct (ma !! p), (r !! p); try done. by apply Hin in Hr as [_ ->].
  - intros [Hma ->] p. destruct (ma !! p) eqn:Hp; [|done]. cbn. apply Hin. split; [by eapply Hma|done].
Qed.

Definition in_i64 (x : Z) : Prop := - 2 ^ 63 <= x < 2 ^ 63.
#[export] Instance in_i64_dec x : Decision (in_i64 x).
Proof. unfold in_i64. apply _. Defined.

Lemma add_same_policy_yields old new r :
  yields (add_same_policy_assets old new) () r () ->
  (forall n, amount_of r n = amount_of old n + amount_of new n) /\
  (map_Forall (fun _ => in_i64) old -> map_Forall (fun _ => in_i64) new -> map_Forall (fun _ => in_i64) r).
Proof.
  unfold add_same_policy_assets. rewrite insert_loop_yields. intros Hr. split.
  - intros n. specialize (Hr n). unfold amount_of.
    destruct (new !! n) as [x|]; [|rewrite Hr; cbn; lia]. destruct Hr as (y & Hy & ->).
    destruct (old !! n) as [z|].
    + apply check_eval in Hy. unfold i64_add in Hy. case_match; [|done]. injection Hy as <-. done.
    + apply check_ret in Hy as ->. cbn. lia.
  - intros Ho Hn n x Hx. specialize (Hr n). destruct (new !! n) as [y|] eqn:Hy.
    + destruct Hr as (a & Ha & Hxa). rewrite Hx in Hxa. injection Hxa as ->. destruct (old !! n) as [z|].
      * apply check_eval in Ha. unfold i64_add in Ha. unfold in_i64.
        destruct (Z.leb_spec (- 2 ^ 63) (z + y)), (Z.ltb_spec (z + y) (2 ^ 63)); try done. injection Ha as <-. lia.
      * apply check_ret in Ha as <-. by eapply Hn.
    + rewrite Hx in Hr. by eapply Ho.
Qed.

Lemma add_policies_yields res ma r :
  yields (add_policies res ma) () r () ->
  (forall p n, quantity_of r p n = quantity_of res p n + quantity_of ma p n) /\
  dom r = dom res ∪ dom ma /\
  (amounts in_i64 res -> amounts in_i64 ma -> amounts in_i64 r).
Proof.
  unfold add_policies. rewrite insert_loop_yields. intros Hr. split_and!.
  - intros p n. specialize (Hr p). unfold quantity_of.
    destruct (ma !! p) as [x|]; [|rewrite Hr; cbn; unfold amount_of; rewrite (lookup_empty n); cbn; lia].
    destruct Hr as (y & Hy & ->). by destruct (res !! p); apply add_same_policy_yields in Hy as [Hy _]; rewrite <- Hy.
  - apply set_eq. intros p. specialize (Hr p). rewrite elem_of_union, !elem_of_dom.
    destruct (ma !! p) as [x|]; [destruct Hr as (y & _ & ->); naive_solver|]. rewrite Hr. split; [by left|].
    intros [?|[? ?]]; done.
  - intros Ho Hn p x Hx. specialize (Hr p). destruct (ma !! p) as [y|] eqn:Hy.
    + destruct Hr as (a & Ha & Hxa). rewrite Hx in Hxa. injection Hxa as ->.
      destruct (res !! p) as [z|] eqn:Hz; apply add_same_policy_yields in Ha as [_ Ha]; apply Ha;
        [by eapply Ho|by eapply Hn|apply map_Forall_empty|by eapply Hn].
    + rewrite Hx in Hr. by eapply Ho.
Qed.

Lemma quantity_empty p n : quantity_of ∅ p n = 0.
Proof. unfold quantity_of, amount_of. by rewrite lookup_empty. Qed.

Lemma add_multiasset_yields f s r :
  yields (add_multiasset_values f s) () r () ->
  (forall p n, quantity_of r p n = quantity_of f p n + quantity_of s p n) /\ dom r = dom f ∪ dom s /\
  (amounts in_i64 f -> amounts in_i64 s -> amounts in_i64 r).
Proof.
  intros (x & (Hqx & Hdx & Hax)%add_policies_yields & (Hqr & Hdr & Har)%add_policies_yields)%check_bind. split_and!.
  - intros p n. rewrite Hqr, Hqx, quantity_empty. lia.
  - rewrite Hdr, Hdx. set_solver.
  - intros Hf Hs. apply Har; [|done]. apply Hax; [|done]. apply map_Forall_empty.
Qed.

(** *** Of values *)
Definition quantity (v : Value) (policy name : bytes) : Z :=
  match v with Value.Coin _ => 0 | Value.Multiasset _ ma => quantity_of ma policy name end.

Definition policies (v : Value) : gset bytes :=
  match v with Value.Coin _ => ∅ | Value.Multiasset _ ma => dom ma end.

(** No quantity is changed by [as i64]. *)
Definition small (v : Value) : Prop :=
  match v with Value.Coin _ => True | Value.Multiasset _ ma => amounts (fun x => 0 <= x < 2 ^ 63) ma end.

#[export] Instance small_dec v : Decision (small v).
Proof. destruct v; cbn [small]; apply _. Defined.

Abbreviation lovelace := get_lovelace_from_alonzo_val.

Lemma amounts_small ma : amounts (fun x => 0 <= x) ma -> amounts in_i64 ma -> amounts (fun x => 0 <= x < 2 ^ 63) ma.
Proof. intros H0 Hi p a Hp n x Hn. specialize (H0 _ _ Hp _ _ Hn). specialize (Hi _ _ Hp _ _ Hn). unfold in_i64 in Hi. cbn in *. lia. Qed.

Lemma amounts_i64 ma : amounts (fun x => 0 <= x < 2 ^ 63) ma -> amounts in_i64 ma.
Proof. apply amounts_impl. unfold in_i64. lia. Qed.

(** A sum with [coerce_to_coin]. *)
Lemma coerced_sum_yields f s err r :
  amounts in_i64 f -> amounts in_i64 s ->
  yields (sum ← add_multiasset_values f s; coerce_to_coin sum err) () r () ->
  (forall p n, quantity_of r p n = quantity_of f p n + quantity_of s p n) /\ dom r = dom f ∪ dom s /\
  amounts (fun x => 0 <= x < 2 ^ 63) r.
Proof.
  intros Hf Hs (x & (Hq & Hd & Hi)%add_multiasset_yields & [H0 ->]%coerce_to_coin_yields)%check_bind.
  split_and!; [done..|]. by apply amounts_small, Hi.
Qed.

Lemma add_values_yields f s err r :
  small f -> small s -> yields (add_values f s err) () r () ->
  lovelace r = lovelace f + lovelace s /\ lovelace f + lovelace s < 2 ^ 64 /\
  (forall p n, quantity r p n = quantity f p n + quantity s p n) /\ policies r = policies f ∪ policies s /\ small r.
Proof.
  destruct f as [cf|cf fma], s as [cs|cs sma]; cbn [small add_values lovelace quantity policies]; intros Hf Hs Hr;
    apply check_bind in Hr as (c & (? & ->)%add_lovelace_yields & Hr).
  1-3: apply check_ret in Hr as <-; cbn [small lovelace quantity policies]; split_and!; try done; first [intros; lia|set_solver].
  rewrite !coerce_small in Hr by done.
  apply check_bind in Hr as (x & Hx & (y & Hy & <-%check_ret)%check_bind).
  destruct (coerced_sum_yields fma sma err y) as (Hq & Hd & Ha); [by apply amounts_i64..|by eapply yields_bind|].
  cbn [small lovelace quantity policies]. by split_and!.
Qed.

Lemma add_minted_yields v m err r :
  small v -> amounts in_i64 m -> yields (add_minted_value v m err) () r () ->
  lovelace r = lovelace v /\ (forall p n, quantity r p n = quantity v p n + quantity_of m p n) /\
  policies r = policies v ∪ dom m /\ small r.
Proof.
  destruct v as [c|c ma]; cbn [small add_minted_value quantity policies]; intros Hv Hm Hr.
  - apply check_bind in Hr as (x & [H0 ->]%coerce_to_coin_yields & <-%check_ret).
    cbn [small lovelace quantity policies]. split_and!; try done; [set_solver|by apply amounts_small].
  - rewrite coerce_small in Hr by done. apply check_bind in Hr as (x & Hx & (y & Hy & <-%check_ret)%check_bind).
    destruct (coerced_sum_yields ma m err y) as (Hq & Hd & Ha); [by apply amounts_i64|done|by eapply yields_bind|].
    cbn [small lovelace quantity policies]. by split_and!.
Qed.

(** *** Whatever the amounts

    [as i64] and [as u64] add or take away [2 ^ 64]: sums are right up to multiples of it. *)
Definition same_word (x y : Z) : Prop := exists k, x = y + k * 2 ^ 64.

#[export] Instance same_word_equiv : Equivalence same_word.
Proof.
  split.
  - intros x. exists 0. lia.
  - intros x y [k ->]. exists (- k). lia.
  - intros x y z [k ->] [l ->]. exists (k + l). lia.
Qed.

#[export] Instance add_same_word : Proper (same_word ==> same_word ==> same_word) Z.add.
Proof. intros x x' [k ->] y y' [l ->]. exists (k + l). lia. Qed.

Lemma coerce_same_word ma p n : same_word (quantity_of (coerce_to_i64 ma) p n) (quantity_of ma p n).
Proof.
  unfold quantity_of, amount_of, coerce_to_i64. rewrite lookup_fmap.
  destruct (ma !! p) as [a|]; cbn [fmap option_fmap option_map default from_option id]; [|by rewrite !lookup_empty].
  rewrite lookup_fmap. destruct (a !! n) as [x|]; cbn; [|done].
  unfold u64_as_i64. case_match; [done|]. exists (-1). lia.
Qed.

Lemma add_values_same_word f s err r :
  yields (add_values f s err) () r () ->
  lovelace r = lovelace f + lovelace s /\
  forall p n, same_word (quantity r p n) (quantity f p n + quantity s p n).
Proof.
  destruct f as [cf|cf fma], s as [cs|cs sma]; cbn [add_values lovelace quantity]; intros Hr;
    apply check_bind in Hr as (c & (? & ->)%add_lovelace_yields & Hr).
  1-3: apply check_ret in Hr as <-; cbn [lovelace quantity]; split; [done|]; intros; by rewrite ?Z.add_0_r.
  apply check_bind in Hr as (x & (Hq & _)%add_multiasset_yields & (y & [_ ->]%coerce_to_coin_yields & <-%check_ret)%check_bind).
  cbn [lovelace quantity]. split; [done|]. intros p n. by rewrite Hq, !coerce_same_word.
Qed.

Lemma add_minted_same_word v m err r :
  yields (add_minted_value v m err) () r () ->
  lovelace r = lovelace v /\ forall p n, same_word (quantity r p n) (quantity v p n + quantity_of m p n).
Proof.
  destruct v as [c|c ma]; cbn [add_minted_value lovelace quantity]; intros Hr.
  - apply check_bind in Hr as (x & [_ ->]%coerce_to_coin_yields & <-%check_ret). done.
  - apply check_bind in Hr as (x & (Hq & _)%add_multiasset_yields & (y & [_ ->]%coerce_to_coin_yields & <-%check_ret)%check_bind).
    cbn [lovelace quantity]. split; [done|]. intros p n. by rewrite Hq, coerce_same_word.
Qed.

(** ** What comparisons decide *)
Lemma forallb_map {V} (f : bytes * V -> bool) (m : gmap bytes V) :
  forallb f (map_to_list m) = true <-> forall k v, m !! k = Some v -> f (k, v) = true.
Proof.
  rewrite forallb_forall. split.
  - intros Hf k v Hk. by apply Hf, list_elem_of_In, elem_of_map_to_list.
  - intros Hf [k v] Hk%list_elem_of_In%elem_of_map_to_list. by apply Hf.
Qed.

Lemma multi_asset_included_spec fma sma :
  multi_asset_included fma sma = true <->
  dom fma ⊆ dom sma /\ forall p n, quantity_of fma p n <> 0 -> quantity_of sma p n = quantity_of fma p n.
Proof.
  unfold multi_asset_included. rewrite forallb_map. split.
  - intros Hf. split.
    + intros p [a Hp]%elem_of_dom. specialize (Hf _ _ Hp). cbn in Hf. apply elem_of_dom. by destruct (sma !! p).
    + intros p n. unfold quantity_of, amount_of. destruct (fma !! p) as [a|] eqn:Hp; [|by cbn; rewrite lookup_empty].
      specialize (Hf _ _ Hp). cbn in Hf |- *. destruct (sma !! p) as [b|]; [|done]. rewrite forallb_map in Hf.
      destruct (a !! n) as [x|] eqn:Hn; [|done]. specialize (Hf _ _ Hn). cbn in Hf |- *. intros Hx.
      rewrite (proj2 (Z.eqb_neq x 0)) in Hf by done. cbn in Hf. destruct (b !! n) as [y|]; [|done].
      by apply Z.eqb_eq in Hf.
  - intros [Hd Hq] p a Hp. cbn. assert (is_Some (sma !! p)) as [b Hb].
    { apply elem_of_dom, Hd, elem_of_dom. by eexists. }
    rewrite Hb. rewrite forallb_map. intros n x Hn. cbn. destruct (Z.eqb_spec x 0); [done|]. cbn.
    specialize (Hq p n). unfold quantity_of, amount_of in Hq. rewrite Hp, Hb in Hq. cbn in Hq. rewrite Hn in Hq.
    cbn in Hq. specialize (Hq ltac:(done)). destruct (b !! n); cbn in Hq; [by apply Z.eqb_eq|lia].
Qed.

Lemma multi_assets_are_equal_spec fma sma :
  multi_assets_are_equal fma sma = true <->
  dom fma = dom sma /\ forall p n, quantity_of fma p n = quantity_of sma p n.
Proof.
  unfold multi_assets_are_equal. rewrite andb_true_iff, !multi_asset_included_spec. split.
  - intros [[Hd Hq] [Hd' Hq']]. split; [by apply set_eq; set_solver|]. intros p n.
    specialize (Hq p n). specialize (Hq' p n). lia.
  - intros [Hd Hq]. rewrite Hd. split_and!; [done| |done|]; intros; by rewrite Hq.
Qed.

Lemma is_empty_spec {V} (m : gmap bytes V) : is_empty m = true <-> m = ∅.
Proof. unfold is_empty. by rewrite Nat.eqb_eq, map_size_empty_iff. Qed.

(** Amounts of zero count for nothing, but a policy that is named does. *)
Lemma values_are_equal_spec f s :
  values_are_equal f s = true <->
  lovelace f = lovelace s /\ policies f = policies s /\ forall p n, quantity f p n = quantity s p n.
Proof.
  destruct f as [cf|cf fma], s as [cs|cs sma]; cbn [values_are_equal lovelace policies quantity].
  - rewrite Z.eqb_eq. naive_solver.
  - rewrite andb_true_iff, Z.eqb_eq, is_empty_spec. split.
    + intros [-> ->]. split_and!; [done|by rewrite dom_empty_L|]. intros. by rewrite quantity_empty.
    + intros (? & Hd & _). split; [done|]. by apply dom_empty_inv_L.
  - rewrite andb_true_iff, Z.eqb_eq, is_empty_spec. split.
    + intros [-> ->]. split_and!; [done|by rewrite dom_empty_L|]. intros. by rewrite quantity_empty.
    + intros (? & Hd & _). split; [done|]. by apply dom_empty_inv_L.
  - destruct (Z.eqb_spec cf cs); cbn [negb]; rewrite ?multi_assets_are_equal_spec; naive_solver.
Qed.
