(* ===== verification/ShelleyMA.v ===== *)
(** * Validation of transactions of Shelley, Allegra and Mary

    [pallas-validate/src/phase1/shelley_ma.rs] with the helpers of [utils.rs] that all
    eras share.  A check that changes nothing is a computation on [unit]; the
    certificates change the state of the delegations and pools and count the
    deposits.  The crate cryptoxide is the interface [Cryptoxide]. *)
From S2P Require Import Prelude Cbor Effects Tree NativeScript Address SlotTime LedgerTypes Assets.
Import alonzo ShelleyMAError ValidationError.

(** ** Hashes and signatures *)

(** [Blake2b] with a digest of so many bytes; the signature of a message by a key. *)
Class Cryptoxide := {
  blake2b : nat -> bytes -> bytes;
  ed25519_verify : bytes -> bytes -> bytes -> bool
}.

(** ** Computations on a part of the state *)
Definition stateless {S A} (m : check A) : comp ValidationError S A := locally m ().

(** [&mut] to a part: what is changed before an error stays changed. *)
Definition focus {E S T A} (part : S -> T) (update : T -> S -> S) (m : comp E T A) : comp E S A := fun s =>
  match m (part s) with
  | Returned r t => Returned r (update t s)
  | Panicked => Panicked
  | Unfinished => Unfinished
  end.

(** [Result::ok] *)
Definition ok {E F A} (m : comp F () A) : comp E () (option A) := fun s =>
  match m s with
  | Returned (Ok a) s => Returned (Ok (Some a)) s
  | Returned (Err _) s => Returned (Ok None) s
  | Panicked => Panicked
  | Unfinished => Unfinished
  end.

(** [for x in xs { f(x)? }] *)
Fixpoint for_each {E S A} (f : A -> comp E S ()) (xs : list A) : comp E S () :=
  match xs with
  | [] => mret tt
  | x :: xs => f x;; for_each f xs
  end.

(** [let mut res = ..; for x in xs { res = f(res, x)? }] *)
Fixpoint for_fold {E S A B} (f : B -> A -> comp E S B) (res : B) (xs : list A) : comp E S B :=
  match xs with
  | [] => mret res
  | x :: xs => res ← f res x; for_fold f res xs
  end.

Definition ensure (b : bool) (err : ValidationError) : check () := if b then mret tt else throw err.

(** [ok_or(err)?] *)
Definition ok_or {A} (x : option A) (err : ValidationError) : check A :=
  match x with Some a => mret a | None => throw err end.

Section validation.
Context `{Minicbor, ByronCodec, Cryptoxide}.

(** ** Helpers of all eras *)
Definition Hasher_224 (bs : bytes) : bytes := blake2b 28 bs.
Definition Hasher_256 (bs : bytes) : bytes := blake2b 32 bs.

(** [copy_from_slice] panics at a length other than that of a key or a signature. *)
Definition verify_signature (vk_wit : VKeyWitness.t) (data_to_verify : bytes) : option bool :=
  if (length (VKeyWitness.vkey vk_wit) =? 32)%nat && (length (VKeyWitness.signature vk_wit) =? 64)%nat then
    Some (ed25519_verify data_to_verify (VKeyWitness.vkey vk_wit) (VKeyWitness.signature vk_wit))
  else None.

Definition get_shelley_address (address : bytes) : check (option ShelleyAddress.t) :=
  addr ← ok (from_bytes address);
  mret (match addr with Some (Address.Shelley sa) => Some sa | _ => None end).

Definition get_payment_part (address : bytes) : check (option ShelleyPaymentPart.t) :=
  addr ← get_shelley_address address;
  mret (ShelleyAddress.payment <$> addr).

Definition is_byron_address (address : bytes) : check bool :=
  addr ← ok (from_bytes address);
  mret (match addr with Some (Address.Byron _) => true | _ => false end).

(** The lengths are added as [usize] and cast. *)
Definition get_alonzo_comp_tx_size (mtx : Tx.t) : Z :=
  let body := Z.of_nat (length (raw_cbor (Tx.transaction_body mtx))) in
  let wits := Z.of_nat (length (raw_cbor (Tx.transaction_witness_set mtx))) in
  match Tx.auxiliary_data mtx with
  | Nullable.Some aux_data => (Z.of_nat (length (raw_cbor aux_data)) + body + wits) mod 2 ^ 32
  | _ => (body + wits) mod 2 ^ 32
  end.

Definition aux_data_from_alonzo_tx (mtx : Tx.t) : option bytes :=
  match Tx.auxiliary_data mtx with
  | Nullable.Some x => Some (raw_cbor x)
  | Nullable.Null | Nullable.Undefined => None
  end.

Definition mk_alonzo_vk_wits_check_list (wits : option (list VKeyWitness.t)) (err : ValidationError) :
    check (list (bool * VKeyWitness.t)) :=
  wits ← ok_or wits err;
  mret ((fun x => (false, x)) <$> wits).

(** [let _ = encode(script, &mut payload)] *)
Definition encode_script (script : NativeScript) (payload : bytes) : check bytes :=
  match script_encode script payload with
  | Returned _ payload => mret payload
  | Panicked => eval None
  | Unfinished => unfinished
  end.

Definition compute_native_script_hash (script : NativeScript) : check bytes :=
  payload ← encode_script script [];
  mret (Hasher_224 (0 :: payload)).

(** ** Inputs, time and size *)
Definition check_ins_not_empty (tx_body : TransactionBody.t) : check () :=
  match TransactionBody.inputs tx_body with
  | [] => throw (ShelleyMA TxInsEmpty)
  | _ => mret tt
  end.

Definition utxo (utxos : UTxOs) (input : TransactionInput.t) : option MultiEraOutput.t :=
  utxos !! MultiEraInput.AlonzoCompatible input.

Definition check_ins_in_utxos (tx_body : TransactionBody.t) (utxos : UTxOs) : check () :=
  for_each (fun input =>
      match utxo utxos input with
      | None => throw (ShelleyMA InputNotInUTxO)
      | Some _ => mret tt
      end) (TransactionBody.inputs tx_body).

Definition check_ttl (tx_body : TransactionBody.t) (block_slot : Z) : check () :=
  match TransactionBody.ttl tx_body with
  | Some ttl => if ttl <? block_slot then throw (ShelleyMA TTLExceeded) else mret tt
  | None => throw (ShelleyMA AlonzoCompNotShelley)
  end.

Definition check_tx_size (size : Z) (prot_pps : ShelleyProtParams.t) : check () :=
  if ShelleyProtParams.max_transaction_size prot_pps <? size then throw (ShelleyMA MaxTxSizeExceeded) else mret tt.

(** ** Values *)
Definition compute_min_lovelace (output : TransactionOutput.t) (prot_pps : ShelleyProtParams.t) : option Z :=
  match TransactionOutput.amount output with
  | Value.Coin _ => Some (ShelleyProtParams.min_utxo_value prot_pps)
  | Value.Multiasset lovelace _ =>
      utxo_entry_size ← checked_add 64 27 (get_val_size_in_words (TransactionOutput.amount output));
      let coins_per_utxo_word := ShelleyProtParams.min_utxo_value prot_pps / 27 in
      cost ← checked_mul 64 utxo_entry_size coins_per_utxo_word;
      Some (Z.max lovelace cost)
  end.

Definition check_min_lovelace (tx_body : TransactionBody.t) (prot_pps : ShelleyProtParams.t) (era : Era.t) : check () :=
  for_each (fun output =>
      match era with
      | Era.Shelley | Era.Allegra | Era.Mary =>
          min ← eval (compute_min_lovelace output prot_pps);
          if get_lovelace_from_alonzo_val (TransactionOutput.amount output) <? min
          then throw (ShelleyMA MinLovelaceUnreached) else mret tt
      | _ => throw (ShelleyMA ValueNotShelley)
      end) (TransactionBody.outputs tx_body).

Definition get_consumed (tx_body : TransactionBody.t) (utxos : UTxOs) (stk_refund_count : Z) (era : Era.t)
    (prot_pps : ShelleyProtParams.t) : check Value :=
  let neg_val_err := ShelleyMA NegativeValue in
  res ← for_fold (fun res input =>
      utxo_value ← ok_or (utxo utxos input) (ShelleyMA InputNotInUTxO);
      match MultiEraOutput.as_alonzo utxo_value with
      | Some output =>
          let amount := TransactionOutput.amount output in
          match amount, era with
          | Value.Coin _, _ => add_values res amount neg_val_err
          | Value.Multiasset _ _, Era.Shelley => throw (ShelleyMA ValueNotShelley)
          | _, _ => add_values res amount neg_val_err
          end
      | None =>
          match MultiEraOutput.as_byron utxo_value with
          | Some output => add_values res (Value.Coin (byron.TxOut.amount output)) neg_val_err
          | None => throw (ShelleyMA InputNotInUTxO)
          end
      end) empty_value (TransactionBody.inputs tx_body);
  refunds ← eval (checked_mul 64 (ShelleyProtParams.key_deposit prot_pps) stk_refund_count);
  res ← add_values res (Value.Coin refunds) neg_val_err;
  match TransactionBody.mint tx_body with
  | Some m => add_minted_value res m neg_val_err
  | None => mret res
  end.

Definition get_produced (tx_body : TransactionBody.t) (stk_dep_count pool_count : Z) (era : Era.t)
    (prot_pps : ShelleyProtParams.t) : check Value :=
  let neg_val_err := ShelleyMA NegativeValue in
  res ← for_fold (fun res output =>
      let amount := TransactionOutput.amount output in
      match amount, era with
      | Value.Coin _, _ => add_values res amount neg_val_err
      | Value.Multiasset _ _, Era.Shelley => throw (ShelleyMA WrongEraOutput)
      | _, _ => add_values res amount neg_val_err
      end) empty_value (TransactionBody.outputs tx_body);
  res ← add_values res (Value.Coin (TransactionBody.fee tx_body)) neg_val_err;
  pool_deposits ← eval (checked_mul 64 (ShelleyProtParams.pool_deposit prot_pps) pool_count);
  key_deposits ← eval (checked_mul 64 (ShelleyProtParams.key_deposit prot_pps) stk_dep_count);
  total_deposits ← eval (checked_add 64 pool_deposits key_deposits);
  add_values res (Value.Coin total_deposits) neg_val_err.

Definition check_preservation_of_value (tx_body : TransactionBody.t) (utxos : UTxOs)
    (stk_dep_count stk_refund_count pool_count : Z) (era : Era.t) (prot_pps : ShelleyProtParams.t) : check () :=
  consumed ← get_consumed tx_body utxos stk_refund_count era prot_pps;
  produced ← get_produced tx_body stk_dep_count pool_count era prot_pps;
  if negb (values_are_equal consumed produced) then throw (ShelleyMA PreservationOfValue) else mret tt.

(** The arithmetic is that of [u32]. *)
Definition check_fees (tx_body : TransactionBody.t) (size : Z) (prot_pps : ShelleyProtParams.t) : check () :=
  by_size ← eval (checked_mul 32 (ShelleyProtParams.minfee_a prot_pps) size);
  min ← eval (checked_add 32 (ShelleyProtParams.minfee_b prot_pps) by_size);
  if TransactionBody.fee tx_body <? min then throw (ShelleyMA FeesBelowMin) else mret tt.

(** ** Network and metadata *)
Definition check_network_id (tx_body : TransactionBody.t) (network_id : Z) : check () :=
  for_each (fun output =>
      addr ← get_shelley_address (TransactionOutput.address output);
      addr ← ok_or addr (ShelleyMA AddressDecoding);
      if negb (Network.value (ShelleyAddress.network addr) =? network_id)
      then throw (ShelleyMA WrongNetworkID) else mret tt) (TransactionBody.outputs tx_body).

Definition check_metadata (tx_body : TransactionBody.t) (mtx : Tx.t) : check () :=
  match TransactionBody.auxiliary_data_hash tx_body, aux_data_from_alonzo_tx mtx with
  | Some metadata_hash, Some metadata =>
      if bool_decide (metadata_hash = Hasher_256 metadata) then mret tt else throw (ShelleyMA MetadataHash)
  | None, None => mret tt
  | _, _ => throw (ShelleyMA MetadataHash)
  end.

(** ** Witnesses *)

(** The list with the witness of the key marked. *)
Fixpoint mark_vk_wit (payment_key_hash data_to_verify : bytes) (wits : list (bool * VKeyWitness.t)) :
    check (list (bool * VKeyWitness.t)) :=
  match wits with
  | [] => throw (ShelleyMA MissingVKWitness)
  | (found, vkey_wit) :: wits =>
      if bool_decide (Hasher_224 (VKeyWitness.vkey vkey_wit) = payment_key_hash) then
        valid ← eval (verify_signature vkey_wit data_to_verify);
        if (valid : bool) then mret ((true, vkey_wit) :: wits) else throw (ShelleyMA WrongSignature)
      else
        wits ← mark_vk_wit payment_key_hash data_to_verify wits;
        mret ((found, vkey_wit) :: wits)
  end.

Definition check_vk_wit (payment_key_hash data_to_verify : bytes) : comp ValidationError (list (bool * VKeyWitness.t)) () :=
  wits ← get;
  wits ← stateless (mark_vk_wit payment_key_hash data_to_verify wits);
  put wits.

(** The payload is not cleared between the scripts. *)
Fixpoint find_script (script_hash payload : bytes) (scripts : list NativeScript) : check () :=
  match scripts with
  | [] => throw (ShelleyMA MissingScriptWitness)
  | script :: scripts =>
      payload ← encode_script script payload;
      if bool_decide (Hasher_224 payload = script_hash) then mret tt
      else find_script script_hash payload scripts
  end.

Definition check_native_script_witness (script_hash : bytes) (wits : option (list NativeScript)) : check () :=
  match wits with
  | Some scripts => find_script script_hash [0] scripts
  | None => throw (ShelleyMA MissingScriptWitness)
  end.

(** The first witness that is not covered decides. *)
Fixpoint check_remaining_vk_wits (wits : list (bool * VKeyWitness.t)) (data_to_verify : bytes) : check () :=
  match wits with
  | [] => mret tt
  | (covered, vkey_wit) :: wits =>
      if negb covered then
        valid ← eval (verify_signature vkey_wit data_to_verify);
        if (valid : bool) then mret tt else throw (ShelleyMA WrongSignature)
      else check_remaining_vk_wits wits data_to_verify
  end.

Fixpoint eval_native_script (vkey_wits : list VKeyWitness.t) (native_script : NativeScript) (low_bnd upp_bnd : option Z) :
    bool :=
  match native_script with
  | ScriptAll scripts => forallb (fun scr => eval_native_script vkey_wits scr low_bnd upp_bnd) scripts
  | ScriptAny scripts => existsb (fun scr => eval_native_script vkey_wits scr low_bnd upp_bnd) scripts
  | ScriptPubkey hash =>
      existsb (fun vkey_wit => bool_decide (Hasher_224 (VKeyWitness.vkey vkey_wit) = hash)) vkey_wits
  | ScriptNOfK val scripts =>
      let count := fold_left Z.add ((fun scr => Z.b2z (eval_native_script vkey_wits scr low_bnd upp_bnd)) <$> scripts) 0 in
      val <=? count
  | InvalidBefore val => match low_bnd with Some time => val <=? time | None => false end
  | InvalidHereafter val => match upp_bnd with Some time => time <=? val | None => false end
  | EraLeaf l => match l with end
  end.

Definition check_native_scripts (vkey_wits : list VKeyWitness.t) (native_scripts : list NativeScript)
    (low_bnd upp_bnd : option Z) : check () :=
  for_each (fun native_script =>
      if negb (eval_native_script vkey_wits native_script low_bnd upp_bnd) then throw (ShelleyMA ScriptDenial)
      else mret tt) native_scripts.

Definition check_input_witness (tx_wits : WitnessSet.t) (utxos : UTxOs) (tx_hash : bytes) (input : TransactionInput.t) :
    comp ValidationError (list (bool * VKeyWitness.t)) () :=
  match utxo utxos input with
  | Some multi_era_output =>
      match MultiEraOutput.as_alonzo multi_era_output with
      | Some alonzo_comp_output =>
          part ← stateless (get_payment_part (TransactionOutput.address alonzo_comp_output));
          part ← stateless (ok_or part (ShelleyMA AddressDecoding));
          match part with
          | ShelleyPaymentPart.Key payment_key_hash => check_vk_wit payment_key_hash tx_hash
          | ShelleyPaymentPart.Script script_hash =>
              stateless (check_native_script_witness script_hash (option_map (map inner) (WitnessSet.native_script tx_wits)))
          end
      | None => mret tt
      end
  | None => throw (ShelleyMA InputNotInUTxO)
  end.

Definition check_witnesses (tx_body : KeepRaw TransactionBody.t) (tx_wits : WitnessSet.t) (utxos : UTxOs) : check () :=
  vk_wits ← mk_alonzo_vk_wits_check_list (WitnessSet.vkeywitness tx_wits) (ShelleyMA MissingVKWitness);
  let tx_hash := Hasher_256 (raw_cbor tx_body) in
  let native_scripts :=
    match WitnessSet.native_script tx_wits with
    | Some scripts => inner <$> scripts
    | None => []
    end in
  locally (
    for_each (check_input_witness tx_wits utxos tx_hash) (TransactionBody.inputs (inner tx_body));;
    vk_wits ← get;
    let vkey_wits := vk_wits.*2 in
    stateless (check_native_scripts vkey_wits native_scripts
      (TransactionBody.validity_interval_start (inner tx_body)) (TransactionBody.ttl (inner tx_body)));;
    stateless (check_remaining_vk_wits vk_wits tx_hash)) vk_wits.

(** ** Minting *)
Definition compute_script_hash (script : NativeScript) : check bytes :=
  payload ← encode_script script [];
  mret (Hasher_224 (0 :: payload)).

Fixpoint all_differ (policy : bytes) (scripts : list NativeScript) : check bool :=
  match scripts with
  | [] => mret true
  | script :: scripts =>
      hash ← compute_script_hash script;
      if bool_decide (hash = policy) then mret false else all_differ policy scripts
  end.

Definition check_minting (tx_body : TransactionBody.t) (mtx : Tx.t) : check () :=
  match TransactionBody.mint tx_body with
  | Some minted_value =>
      let native_script_wits :=
        match WitnessSet.native_script (inner (Tx.transaction_witness_set mtx)) with
        | None => []
        | Some wits => inner <$> wits
        end in
      for_each (fun policy =>
          missing ← all_differ policy native_script_wits;
          if (missing : bool) then throw (ShelleyMA MintingLacksPolicy) else mret tt) (map_to_list minted_value).*1
  | None => mret tt
  end.
End validation.

(** ** Certificates *)

(** [if map.contains_key(key) { Err(error) } else { map.insert(..); Ok(()) }] *)
Definition insert_or_err {K V} `{Countable K} (key : K) (value : V) (error : ValidationError) :
    comp ValidationError (gmap K V) () :=
  map ← get;
  match (map : gmap K V) !! key with
  | Some _ => throw error
  | None => put (<[key := value]> map)
  end.

Definition set_rewards (m : gmap StakeCredential Z) (ds : DState.t) : DState.t :=
  DState.mk m (DState.delegations ds) (DState.ptrs ds) (DState.fut_gen_delegs ds) (DState.gen_delegs ds) (DState.inst_rewards ds).
Definition set_delegations (m : gmap StakeCredential bytes) (ds : DState.t) : DState.t :=
  DState.mk (DState.rewards ds) m (DState.ptrs ds) (DState.fut_gen_delegs ds) (DState.gen_delegs ds) (DState.inst_rewards ds).
Definition set_ptrs (m : gmap CertPointer.t StakeCredential) (ds : DState.t) : DState.t :=
  DState.mk (DState.rewards ds) (DState.delegations ds) m (DState.fut_gen_delegs ds) (DState.gen_delegs ds) (DState.inst_rewards ds).
Definition set_fut_gen_delegs (m : gmap (Z * bytes) (bytes * bytes)) (ds : DState.t) : DState.t :=
  DState.mk (DState.rewards ds) (DState.delegations ds) (DState.ptrs ds) m (DState.gen_delegs ds) (DState.inst_rewards ds).
Definition set_inst_rewards (p : gmap StakeCredential Z * gmap StakeCredential Z) (ds : DState.t) : DState.t :=
  DState.mk (DState.rewards ds) (DState.delegations ds) (DState.ptrs ds) (DState.fut_gen_delegs ds) (DState.gen_delegs ds) p.

Definition check_stake_registration (stc : StakeCredential) (ptr : CertPointer.t) : comp ValidationError DState.t () :=
  focus DState.rewards set_rewards (insert_or_err stc 0 (ShelleyMA KeyAlreadyRegistered));;
  focus DState.ptrs set_ptrs (insert_or_err ptr stc (ShelleyMA PointerInUse)).

Definition check_stake_deregistration (stc : StakeCredential) : comp ValidationError DState.t () :=
  ds ← get;
  match DState.rewards ds !! stc with
  | None => throw (ShelleyMA KeyNotRegistered)
  | Some 0 =>
      modify (fun ds => set_ptrs (filter (fun kv => kv.2 <> stc) (DState.ptrs ds)) ds);;
      modify (fun ds => set_delegations (delete stc (DState.delegations ds)) ds);;
      modify (fun ds => set_rewards (delete stc (DState.rewards ds)) ds)
  | Some _ => throw (ShelleyMA RewardsNotNull)
  end.

Definition check_stake_delegation (stc : StakeCredential) (pk : bytes) (ps : PState.t) : comp ValidationError DState.t () :=
  ds ← get;
  match PState.pool_params ps !! pk, DState.rewards ds !! stc with
  | None, _ => throw (ShelleyMA PoolNotRegistered)
  | Some _, Some _ => put (set_delegations (<[stc := pk]> (DState.delegations ds)) ds)
  | Some _, None => throw (ShelleyMA KeyNotRegistered)
  end.

Definition check_pool_reg_or_update (pool_hash : bytes) (pool_param : PoolParam.t) (min_pool_cost : Z) :
    comp ValidationError PState.t () :=
  ps ← get;
  if PoolParam.cost pool_param <? min_pool_cost then throw (ShelleyMA PoolCostBelowMin)
  else
    match PState.pool_params ps !! pool_hash with
    | Some _ =>
        put (PState.mk (PState.pool_params ps) (<[pool_hash := pool_param]> (PState.fut_pool_params ps))
          (delete pool_hash (PState.retiring ps)))
    | None =>
        put (PState.mk (<[pool_hash := pool_param]> (PState.pool_params ps)) (PState.fut_pool_params ps) (PState.retiring ps))
    end.

(** [&] evaluates both sides. *)
Definition check_pool_retirement (pool_hash : bytes) (repoch cepoch emax : Z) : comp ValidationError PState.t () :=
  ps ← get;
  match PState.pool_params ps !! pool_hash with
  | None => throw (ShelleyMA PoolNotRegistered)
  | Some _ =>
      last ← eval (checked_add 64 cepoch emax);
      if (cepoch <? repoch) && (repoch <=? last) then
        put (PState.mk (PState.pool_params ps) (PState.fut_pool_params ps) (<[pool_hash := repoch]> (PState.retiring ps)))
      else throw (ShelleyMA PoolNotRegistered)
  end.

Definition check_genesis_key_delegation (gkh dkh vrf : bytes) (slot stab_win : Z) : comp ValidationError DState.t () :=
  ds ← get;
  let cod := (map_to_list (filter (fun kv => kv.1 <> gkh) (DState.gen_delegs ds))).*2 in
  let fod := (map_to_list (filter (fun kv => kv.1.2 <> gkh) (DState.fut_gen_delegs ds))).*2 in
  let curr_keyhashes := cod.*1 in
  let curr_vrfs := cod.*2 in
  let fut_keyhashes := fod.*1 in
  let fut_vrfs := fod.*2 in
  if bool_decide (dkh ∈ curr_keyhashes) || bool_decide (dkh ∈ fut_keyhashes) ||
     bool_decide (vrf ∈ curr_vrfs) || bool_decide (vrf ∈ fut_vrfs)
  then throw (ShelleyMA DuplicateGenesisDelegate)
  else
    match DState.gen_delegs ds !! gkh with
    | None => throw (ShelleyMA GenesisKeyNotInMapping)
    | Some _ =>
        gen_slot ← eval (checked_add 64 slot stab_win);
        put (set_fut_gen_delegs (<[(gen_slot, gkh) := (dkh, vrf)]> (DState.fut_gen_delegs ds)) ds)
    end.

(** [epoch] and [firstSlot] of the specification, with the parameters of mainnet. *)
Definition to_epoch (genesis : GenesisValues) (slot : Z) : option Z :=
  '(epoch, _) ← absolute_slot_to_relative genesis slot;
  Some epoch.
Definition first_slot (genesis : GenesisValues) (epoch : Z) : option Z := relative_slot_to_absolute genesis epoch 0.

(** [sum::<u64>()] *)
Definition checked_sum (xs : list Z) : option Z := foldr (fun x sum => sum ← sum; checked_add 64 x sum) (Some 0) xs.

Definition check_mir (mir : MoveInstantaneousReward.t) (slot stab_win : Z) (acnt : AccountState.t) :
    comp ValidationError DState.t () :=
  epoch ← eval (to_epoch mainnet slot);
  next ← eval (checked_add 64 epoch 1);
  first ← eval (first_slot mainnet next);
  limit ← eval (checked_sub first stab_win);
  if limit <=? slot then throw (ShelleyMA MIRCertificateTooLateinEpoch)
  else
    ds ← get;
    let '(ir_reserves, ir_treasury) := DState.inst_rewards ds in
    let '(pot, ir_pot) :=
      match MoveInstantaneousReward.source mir with
      | MoveInstantaneousReward.Reserves => (AccountState.reserves acnt, ir_reserves)
      | MoveInstantaneousReward.Treasury => (AccountState.treasury acnt, ir_treasury)
      end in
    let combined :=
      match MoveInstantaneousReward.target mir with
      | MoveInstantaneousReward.StakeCredentials kvp =>
          let kvv := ((fun kv => (kv.1, i64_as_u64 kv.2)) <$> map_to_list kvp) ++ map_to_list ir_pot in
          fold_left (fun combined kv => <[kv.1 := kv.2]> combined) kvv ∅
      | MoveInstantaneousReward.OtherAccountingPot _ => ∅
      end in
    sum ← eval (checked_sum (map_to_list (combined : gmap StakeCredential Z)).*2);
    if pot <? sum then throw (ShelleyMA InsufficientForInstantaneousRewards)
    else
      put (set_inst_rewards
        match MoveInstantaneousReward.source mir with
        | MoveInstantaneousReward.Reserves => (combined, ir_reserves)
        | MoveInstantaneousReward.Treasury => (ir_treasury, combined)
        end ds).

(** The counters of deposits and refunds. *)
Record Counts := { stk_dep_count : Z; stk_refund_count : Z; pool_count : Z }.

Definition on_dstate {A} (m : comp ValidationError DState.t A) : comp ValidationError (CertState.t * Counts) A :=
  focus (fun s => CertState.dstate s.1) (fun ds s => (CertState.mk (CertState.pstate s.1) ds, s.2)) m.
Definition on_pstate {A} (m : comp ValidationError PState.t A) : comp ValidationError (CertState.t * Counts) A :=
  focus (fun s => CertState.pstate s.1) (fun ps s => (CertState.mk ps (CertState.dstate s.1), s.2)) m.

(** [*count += 1] *)
Definition count (field : Counts -> Z) (update : Z -> Counts -> Counts) : comp ValidationError (CertState.t * Counts) () :=
  s ← get;
  n ← eval (checked_add 64 (field s.2) 1);
  put (s.1, update n s.2).
Definition count_stk_dep : comp ValidationError (CertState.t * Counts) () :=
  count stk_dep_count (fun n c => {| stk_dep_count := n; stk_refund_count := stk_refund_count c; pool_count := pool_count c |}).
Definition count_stk_refund : comp ValidationError (CertState.t * Counts) () :=
  count stk_refund_count (fun n c => {| stk_dep_count := stk_dep_count c; stk_refund_count := n; pool_count := pool_count c |}).
Definition count_pool : comp ValidationError (CertState.t * Counts) () :=
  count pool_count (fun n c => {| stk_dep_count := stk_dep_count c; stk_refund_count := stk_refund_count c; pool_count := n |}).

Section certificates.
Variables (tx_ix : Z) (acnt : AccountState.t) (slot stab_win : Z) (prot_pps : ShelleyProtParams.t).

(** The arms of the loop of [check_certificates]. *)
Definition check_certificate (cert : Certificate.t) (ptr : CertPointer.t) (cepoch : Z) :
    comp ValidationError (CertState.t * Counts) () :=
  match cert with
  | Certificate.StakeRegistration stc =>
      count_stk_dep;;
      on_dstate (check_stake_registration stc ptr)
  | Certificate.StakeDeregistration stc =>
      on_dstate (check_stake_deregistration stc);;
      count_stk_refund
  | Certificate.StakeDelegation stc pk =>
      s ← get;
      on_dstate (check_stake_delegation stc pk (CertState.pstate s.1))
  | Certificate.PoolRegistration operator vrf_keyhash pledge cost margin reward_account pool_owners relays pool_metadata =>
      s ← get;
      match PState.pool_params (CertState.pstate s.1) !! operator with
      | None => count_pool
      | Some _ => mret tt
      end;;
      let pool_param := PoolParam.mk vrf_keyhash pledge cost margin reward_account pool_owners relays pool_metadata in
      on_pstate (check_pool_reg_or_update operator pool_param (ShelleyProtParams.min_pool_cost prot_pps))
  | Certificate.PoolRetirement pk repoch =>
      on_pstate (check_pool_retirement pk repoch cepoch (ShelleyProtParams.maximum_epoch prot_pps))
  | Certificate.GenesisKeyDelegation gkh dkh vrf =>
      on_dstate (check_genesis_key_delegation gkh dkh vrf slot stab_win)
  | Certificate.MoveInstantaneousRewardsCert mir => on_dstate (check_mir mir slot stab_win acnt)
  end.

(** [ix as u32] *)
Fixpoint certificates_loop (certs : list Certificate.t) (ix : Z) (ptr : CertPointer.t) (cepoch : Z) :
    comp ValidationError (CertState.t * Counts) () :=
  match certs with
  | [] => mret tt
  | cert :: certs =>
      check_certificate cert ptr cepoch;;
      certificates_loop certs (ix + 1) (CertPointer.mk (CertPointer.slot ptr) (CertPointer.tx_ix ptr) (ix mod 2 ^ 32)) cepoch
  end.

Definition check_certificates (cert_opt : option (list Certificate.t)) : comp ValidationError (CertState.t * Counts) () :=
  match cert_opt with
  | Some certs =>
      cepoch ← eval (to_epoch mainnet slot);
      certificates_loop certs 0 (CertPointer.mk slot tx_ix 0) cepoch
  | None => mret tt
  end.
End certificates.

(** ** Transactions *)

(** Local variables, which are passed on as [&mut], beside the state. *)
Definition beside {E S T A} (t : T) (m : comp E (S * T) A) : comp E S T := fun s =>
  match m (s, t) with
  | Returned (Ok _) (s, t) => Returned (Ok t) s
  | Returned (Err e) (s, _) => Returned (Err e) s
  | Panicked => Panicked
  | Unfinished => Unfinished
  end.

Definition STAB_WIN : Z := 129600.

Section transaction.
Context `{Minicbor, ByronCodec, Cryptoxide}.

Definition validate_shelley_ma_tx (mtx : Tx.t) (txix : Z) (utxos : UTxOs) (prot_pps : ShelleyProtParams.t)
    (acnt : AccountState.t) (block_slot network_id : Z) (era : Era.t) : comp ValidationError CertState.t () :=
  let minted_tx_body := Tx.transaction_body mtx in
  let tx_body := inner minted_tx_body in
  let tx_wits := inner (Tx.transaction_witness_set mtx) in
  let size := get_alonzo_comp_tx_size mtx in
  stateless (check_ins_not_empty tx_body);;
  stateless (check_ins_in_utxos tx_body utxos);;
  stateless (check_ttl tx_body block_slot);;
  stateless (check_tx_size size prot_pps);;
  stateless (check_min_lovelace tx_body prot_pps era);;
  counts ← beside {| stk_dep_count := 0; stk_refund_count := 0; pool_count := 0 |}
    (check_certificates txix acnt block_slot STAB_WIN prot_pps (TransactionBody.certificates tx_body));
  stateless (check_preservation_of_value tx_body utxos (stk_dep_count counts) (stk_refund_count counts)
    (pool_count counts) era prot_pps);;
  stateless (check_fees tx_body size prot_pps);;
  stateless (check_network_id tx_body network_id);;
  stateless (check_metadata tx_body mtx);;
  stateless (check_witnesses minted_tx_body tx_wits utxos);;
  stateless (check_minting tx_body mtx).
End transaction.

(** ** Computations that succeed *)
Lemma yields_bind_inv {E S A B} (m : comp E S A) (f : A -> comp E S B) s b s' :
  yields (m ≫= f) s b s' -> exists a s1, yields m s a s1 /\ yields (f a) s1 b s'.
Proof. unfold yields, mbind, comp_bind. destruct (m s) as [[a|e] s1| |]; naive_solver. Qed.

Lemma yields_get {E S} (s : S) a s' : yields (get : comp E S S) s a s' <-> a = s /\ s' = s.
Proof. unfold yields, get. naive_solver. Qed.
Lemma yields_put {E S} (t s : S) a s' : yields (put t : comp E S ()) s a s' <-> s' = t.
Proof. unfold yields, put. destruct a. naive_solver. Qed.
Lemma yields_modify {E S} (f : S -> S) s a s' : yields (modify f : comp E S ()) s a s' <-> s' = f s.
Proof. unfold yields, modify. destruct a. naive_solver. Qed.
Lemma yields_mret {E S A} (x : A) (s : S) a s' : yields (mret x : comp E S A) s a s' <-> a = x /\ s' = s.
Proof. unfold yields, mret, comp_ret. naive_solver. Qed.
Lemma yields_eval {E S A} (x : option A) (s : S) a s' : yields (eval x : comp E S A) s a s' <-> x = Some a /\ s' = s.
Proof. unfold yields, eval. destruct x; naive_solver. Qed.
Lemma yields_throw {E S A} (e : E) (s : S) (a : A) s' : yields (throw e) s a s' <-> False.
Proof. by unfold yields, throw. Qed.

Lemma yields_stateless {S A} (m : check A) (s : S) a s' : yields (stateless m) s a s' <-> yields m () a () /\ s' = s.
Proof. unfold yields, stateless, locally. destruct (m ()) as [[] []| |]; naive_solver. Qed.

Lemma yields_focus {E S T A} (part : S -> T) update (m : comp E T A) s a s' :
  yields (focus part update m) s a s' <-> exists t, yields m (part s) a t /\ s' = update t s.
Proof. unfold yields, focus. destruct (m (part s)) as [[] t| |]; naive_solver. Qed.

Lemma yields_beside {E S T A} (t : T) (m : comp E (S * T) A) s t' s' :
  yields (beside t m) s t' s' <-> exists a, yields m (s, t) a (s', t').
Proof. unfold yields, beside. destruct (m (s, t)) as [[] []| |]; naive_solver. Qed.

(** Takes apart a computation that yields a value. *)
Ltac yields_step :=
  match goal with
  | H : yields (_ ≫= _) _ _ _ |- _ => apply yields_bind_inv in H as (? & ? & ? & H)
  | H : yields (get : comp _ _ _) _ _ _ |- _ => apply yields_get in H as [-> ->]
  | H : yields (put _) _ _ _ |- _ => apply yields_put in H; subst
  | H : yields (modify _) _ _ _ |- _ => apply yields_modify in H; subst
  | H : yields (mret _) tt _ tt |- _ => apply yields_mret in H as [-> _]
  | H : yields (eval _) tt _ tt |- _ => apply yields_eval in H as [? _]
  | H : yields (mret tt) _ _ _ |- _ => apply yields_mret in H as [_ ->]
  | H : yields (mret _) _ _ _ |- _ => apply yields_mret in H as [-> ->]
  | H : yields (eval _) _ _ _ |- _ => apply yields_eval in H as [? ->]
  | H : yields (throw _) _ _ _ |- _ => by apply yields_throw in H
  | H : yields (stateless _) _ _ _ |- _ => apply yields_stateless in H as [? ->]
  | H : yields (focus _ _ _) _ _ _ |- _ => apply yields_focus in H as (? & ? & ->)
  | H : yields (beside _ _) _ _ _ |- _ => apply yields_beside in H as ([] & ?)
  | u : () |- _ => destruct u
  end.
Ltac yields_steps := repeat yields_step.

Lemma locally_yields {E S T A} (m : comp E S A) s (t : T) a t' :
  yields (locally m s) t a t' <-> exists s', yields m s a s' /\ t' = t.
Proof. unfold yields, locally. destruct (m s) as [[] s'| |]; naive_solver. Qed.

Lemma for_each_yields {E S A} (f : A -> comp E S ()) xs s s' (P : A -> Prop) (I : S -> Prop) :
  (forall x s s', I s -> yields (f x) s () s' -> I s' /\ P x) -> I s -> yields (for_each f xs) s () s' -> I s' /\ Forall P xs.
Proof.
  intros Hf. revert s; induction xs as [|x xs IH]; intros s HI; cbn [for_each]; intros Hr; yields_steps; [done|].
  match goal with H : yields (f x) _ _ _ |- _ => apply Hf in H as [HI' HP]; [|done] end.
  apply IH in Hr as [? ?]; [|done]. split; [done|by constructor].
Qed.

(** A check for each element. *)
Lemma for_each_check {A} (f : A -> check ()) xs (P : A -> Prop) :
  (forall x, yields (f x) () () () -> P x) -> yields (for_each f xs) () () () -> Forall P xs.
Proof.
  intros Hf Hr. eapply (for_each_yields _ _ _ _ P (fun _ => True)) in Hr as [_ ?]; [done| |done].
  intros x [] [] _ Hx. split; [done|by apply Hf].
Qed.

(** ** A cryptography for the witnesses

    A digest is the beginning of the message; a signature is the beginning of the message
    with the key behind it. *)
Module toy.
#[export] Instance crypto : Cryptoxide := {|
  blake2b n m := take n (m ++ replicate n 0);
  ed25519_verify m k s := bool_decide (s = take 32 m ++ k)
|}.
End toy.
