(* ===== verification/Kes.v ===== *)
(** * Key-evolving signatures

    [pallas-crypto/src/kes]: keys that sign in one of [2^depth] periods and forget the
    secrets of those that are over.  The macros of [summed_kes.rs] define one type per
    depth over that of the depth below; here they are functions of the depth.  A key is a
    buffer of bytes that its methods change in place. *)
From Stdlib Require Import String.
From S2P Require Import Prelude Cbor Effects Tree NativeScript Address SlotTime LedgerTypes Assets ShelleyMA.

(** The crate ed25519_dalek: a signing key is its 32 bytes; an error is printed. *)
Class Ed25519 := {
  VerifyingKey : Type;
  vk_as_bytes : VerifyingKey -> bytes;
  vk_from_bytes : bytes -> result string VerifyingKey;
  verifying_key : bytes -> VerifyingKey;
  ed_sign : bytes -> bytes -> bytes;
  verify_strict : VerifyingKey -> bytes -> bytes -> result string ()
}.

Class Ed25519Laws `{Ed25519, Cryptoxide} := {
  vk_length k : length (vk_as_bytes k) = 32%nat;
  vk_parsed k : vk_from_bytes (vk_as_bytes k) = Ok k;
  sign_length sk m : length (ed_sign sk m) = 64%nat;
  sign_verified sk m : length sk = 32%nat -> verify_strict (verifying_key sk) m (ed_sign sk m) = Ok ();
  digest_length m : length (Hasher_256 m) = 32%nat
}.

(** ** Slices

    What panics has no value. *)
Definition assert (b : bool) : option () := if b then Some () else None.

(** [buf[a..b]] *)
Definition slice (a b : nat) (buf : bytes) : option bytes :=
  assert ((a <=? b)%nat && (b <=? length buf)%nat);; Some (take (b - a) (drop a buf)).

(** [buf[a..a + n].copy_from_slice(src)], where [src] has [n] bytes; and [buf[a..]] *)
Definition write (a : nat) (src buf : bytes) : option bytes :=
  assert (a + length src <=? length buf)%nat;; Some (take a buf ++ src ++ drop (a + length src) buf).
Definition write_end (a : nat) (src buf : bytes) : option bytes :=
  assert (a + length src =? length buf)%nat;; Some (take a buf ++ src).

Definition zeros (n : nat) : bytes := replicate n 0.

(** ** Common structures *)
Definition INDIVIDUAL_SECRET_SIZE : nat := 32.
Definition SIGMA_SIZE : nat := 64.
Definition PUBLIC_KEY_SIZE : nat := 32.

Module Depth.
Definition total (depth : nat) : option Z := checked_mul 32 (2 ^ Z.of_nat depth) 1.
Definition half (depth : nat) : option Z :=
  assert (0 <? depth)%nat;; checked_mul 32 (2 ^ (Z.of_nat depth - 1)) 1.
End Depth.

Module Error.
Inductive t :=
| Ed25519Signature (message : string)
| Ed25519InvalidCompressedFormat
| InvalidSecretKeySize (size : nat)
| InvalidPublicKeySize (size : nat)
| InvalidSignatureSize (size : nat)
| InvalidSignatureCount (count : Z) (depth : nat)
| DataInZeroArea
| KeyCannotBeUpdatedMore
| InvalidHashComparison.
End Error.

Section common.
Context `{Ed25519, Cryptoxide}.

Definition from_ed25519_verifyingkey (public : VerifyingKey) : bytes := vk_as_bytes public.

Definition as_ed25519 (pk : bytes) : result Error.t VerifyingKey :=
  match vk_from_bytes pk with Ok key => Ok key | Err _ => Err Error.Ed25519InvalidCompressedFormat end.

Definition PublicKey_from_bytes (bytes : bytes) : result Error.t Prelude.bytes :=
  if (length bytes =? PUBLIC_KEY_SIZE)%nat then Ok bytes else Err (Error.InvalidPublicKeySize (length bytes)).

Definition hash_pair (self other : bytes) : bytes := Hasher_256 (self ++ other).

(** The seeds of both halves; the argument is overwritten. *)
Definition split_slice (bytes : bytes) : option (Prelude.bytes * Prelude.bytes * Prelude.bytes) :=
  assert (length bytes =? 32)%nat;;
  let left_seed := Hasher_256 (1 :: bytes) in
  let right_seed := Hasher_256 (2 :: bytes) in
  Some (left_seed, right_seed, zeros 32).

(** [try_into().expect(..)] to an array of 32 bytes *)
Definition array_32 (bytes : bytes) : option Prelude.bytes := assert (length bytes =? 32)%nat;; Some bytes.
End common.

(** ** One period *)
Module Sum0.
Section sum0.
Context `{Ed25519, Cryptoxide}.

Definition SIZE : nat := 32.

Definition keygen (key_buffer master_seed : bytes) : option (bytes * bytes * bytes) :=
  assert (length key_buffer =? SIZE + 4)%nat;;
  assert (length master_seed =? 32)%nat;;
  secret ← array_32 master_seed;
  key_buffer ← write 0 secret key_buffer;
  Some (key_buffer, from_ed25519_verifyingkey (verifying_key secret), zeros 32).

Definition keygen_slice (in_slice : bytes) (opt_seed : option bytes) : option (bytes * bytes * option bytes) :=
  '(secret, in_slice, opt_seed) ←
    match opt_seed with
    | Some seed =>
        assert (length in_slice =? SIZE)%nat;;
        sk ← array_32 seed;
        Some (sk, in_slice, Some (zeros 32))
    | None =>
        assert (length in_slice =? SIZE + 32)%nat;;
        sk ← array_32 (drop SIZE in_slice);
        Some (sk, take SIZE in_slice ++ zeros 32, None)
    end;
  in_slice ← write 0 secret in_slice;
  Some (from_ed25519_verifyingkey (verifying_key secret), in_slice, opt_seed).

Definition update_slice (key_slice : bytes) (period : Z) : result Error.t () * bytes := (Err Error.KeyCannotBeUpdatedMore, key_slice).

Definition update (key : bytes) : result Error.t () * bytes := (Err Error.KeyCannotBeUpdatedMore, key).
Definition get_period (key : bytes) : Z := 0.
Definition from_bytes (bytes : bytes) : result Error.t Prelude.bytes :=
  if (length bytes =? SIZE + 4)%nat then Ok bytes else Err (Error.InvalidSecretKeySize (length bytes)).

Definition sign_from_slice (sk m : bytes) : option bytes := secret ← array_32 sk; Some (ed_sign secret m).
Definition sign (key m : bytes) : option bytes := secret ← array_32 key; Some (ed_sign secret m).

(** *** Signatures *)
Definition verify (sigma pk m : bytes) : result Error.t () :=
  ed_pk ← as_ed25519 pk;
  match verify_strict ed_pk m sigma with Ok tt => Ok tt | Err e => Err (Error.Ed25519Signature e) end.

Definition SIGNATURE_SIZE : nat := 64.
Definition signature_from_bytes (bytes : bytes) : result Error.t Prelude.bytes :=
  if (length bytes =? SIGNATURE_SIZE)%nat then Ok bytes else Err (Error.InvalidSecretKeySize (length bytes)).
End sum0.
End Sum0.

(** ** The sum composition

    A key of depth [S d]: the key of depth [d] of the current half, the seed of the right
    half (zeros when it is used up), and the public keys of both halves. *)
Definition SIZE (depth : nat) : nat := INDIVIDUAL_SECRET_SIZE + depth * 32 + depth * (PUBLIC_KEY_SIZE * 2).

Section keys.
Context `{Ed25519, Cryptoxide}.

Definition keygen_with (size : nat) (keygen_slice : bytes -> option bytes -> option (bytes * bytes * option bytes))
    (key_buffer seed : bytes) : option (bytes * bytes * bytes) :=
  assert (length key_buffer =? size + 4)%nat;;
  assert (length seed =? 32)%nat;;
  '(pk, in_slice, seed) ← keygen_slice (take size key_buffer) (Some seed);
  let key_buffer := in_slice ++ drop size key_buffer in
  key_buffer ← write_end size (be_bytes 4 0) key_buffer;
  Some (key_buffer, pk, default [] seed).

(** The depth below is [$sk], its size [sk]. *)
Fixpoint keygen_slice (depth : nat) (in_slice : bytes) (opt_seed : option bytes) : option (bytes * bytes * option bytes) :=
  match depth with
  | O => Sum0.keygen_slice in_slice opt_seed
  | S depth =>
      let sk := SIZE depth in
      let size := SIZE (S depth) in
      '(r0, seed, in_slice, opt_seed) ←
        match opt_seed with
        | Some in_seed =>
            assert (length in_slice =? size)%nat;;
            assert (length in_seed =? 32)%nat;;
            '(r0, seed, in_seed) ← split_slice in_seed;
            Some (r0, seed, in_slice, Some in_seed)
        | None =>
            assert (length in_slice =? size + 32)%nat;;
            '(r0, seed, in_seed) ← split_slice (drop size in_slice);
            Some (r0, seed, take size in_slice ++ in_seed, None)
        end;
      in_slice ← write sk seed in_slice;
      let temp_buffer := zeros (sk + 4) in
      '(pk_0, sub, _) ← keygen_slice depth (take sk in_slice) (Some r0);
      let in_slice := sub ++ drop sk in_slice in
      '(_, pk_1, _) ← match depth with
                      | O => Sum0.keygen temp_buffer seed
                      | S _ => keygen_with sk (keygen_slice depth) temp_buffer seed
                      end;
      let pk := hash_pair pk_0 pk_1 in
      in_slice ← write (sk + 32) pk_0 in_slice;
      in_slice ← write (sk + 64) pk_1 in_slice;
      Some (pk, in_slice, opt_seed)
  end.

(** What was changed before an error stays changed. *)
Fixpoint update_slice (depth : nat) (key_slice : bytes) (period : Z) : option (result Error.t () * bytes) :=
  match depth with
  | O => Some (Sum0.update_slice key_slice period)
  | S depth =>
      let sk := SIZE depth in
      next ← checked_add 32 period 1;
      total ← Depth.total (S depth);
      if next =? total then Some (Err Error.KeyCannotBeUpdatedMore, key_slice)
      else
        half ← Depth.half (S depth);
        match next ?= half with
        | Lt =>
            sub ← slice 0 sk key_slice;
            '(r, sub) ← update_slice depth sub period;
            Some (r, sub ++ drop sk key_slice)
        | Eq =>
            sub ← slice 0 (sk + 32) key_slice;
            '(_, sub, _) ← keygen_slice depth sub None;
            Some (Ok (), sub ++ drop (sk + 32) key_slice)
        | Gt =>
            sub ← slice 0 sk key_slice;
            rest ← checked_sub period half;
            '(r, sub) ← update_slice depth sub rest;
            Some (r, sub ++ drop sk key_slice)
        end
  end.

(** *** The methods of a key of depth one or more *)
Definition keygen (depth : nat) (key_buffer seed : bytes) : option (bytes * bytes * bytes) :=
  keygen_with (SIZE depth) (keygen_slice depth) key_buffer seed.

(** [u32_bytes.copy_from_slice(&self.0[Self::SIZE..])] *)
Definition get_period (depth : nat) (key : bytes) : option Z :=
  assert (length key =? SIZE depth + 4)%nat;; Some (of_be (drop (SIZE depth) key)).

Definition update (depth : nat) (key : bytes) : option (result Error.t () * bytes) :=
  period ← get_period depth key;
  '(r, key_slice) ← update_slice depth (take (SIZE depth) key) period;
  let key := key_slice ++ drop (SIZE depth) key in
  match r with
  | Ok tt =>
      next ← checked_add 32 period 1;
      key ← write_end (SIZE depth) (be_bytes 4 next) key;
      Some (Ok (), key)
  | Err e => Some (Err e, key)
  end.

Definition from_bytes (depth : nat) (bytes : bytes) : result Error.t Prelude.bytes :=
  if (length bytes =? SIZE depth + 4)%nat then Ok bytes else Err (Error.InvalidSecretKeySize (length bytes)).

(** The buffer is overwritten. *)
Definition dropped (key : bytes) : bytes := zeros (length key).

Definition to_pk (depth : nat) (key : bytes) : option bytes :=
  pk0 ← slice (SIZE depth - 64) (SIZE depth - 32) key;
  pk0 ← match PublicKey_from_bytes pk0 with Ok pk => Some pk | Err _ => None end;
  pk1 ← slice (SIZE depth - 32) (SIZE depth) key;
  pk1 ← match PublicKey_from_bytes pk1 with Ok pk => Some pk | Err _ => None end;
  Some (hash_pair pk0 pk1).
End keys.

(** ** Signatures with both public keys of every level *)
Module Sum.
Record SumSig (Sigma : Type) := mk { sigma : Sigma; lhs_pk : bytes; rhs_pk : bytes }.
Arguments mk {Sigma} _ _ _.
Arguments sigma {Sigma} _.
Arguments lhs_pk {Sigma} _.
Arguments rhs_pk {Sigma} _.

Fixpoint Sig (depth : nat) : Type := match depth with O => bytes | S depth => SumSig (Sig depth) end.

Section sum.
Context `{Ed25519, Cryptoxide}.

Fixpoint sign_from_slice (depth : nat) (sk m : bytes) : option (Sig depth) :=
  match depth return option (Sig depth) with
  | O => Sum0.sign_from_slice sk m
  | S depth =>
      let size := SIZE depth in
      sub ← slice 0 size sk;
      sigma ← sign_from_slice depth sub m;
      lhs_pk ← slice (size + 32) (size + 64) sk;
      rhs_pk ← slice (size + 64) (size + 96) sk;
      Some (mk sigma lhs_pk rhs_pk)
  end.

Definition sign (depth : nat) (key m : bytes) : option (Sig depth) := sign_from_slice depth key m.

Fixpoint verify (depth : nat) : Sig depth -> Z -> bytes -> bytes -> option (result Error.t ()) :=
  match depth return Sig depth -> Z -> bytes -> bytes -> option (result Error.t ()) with
  | O => fun sigma _ pk m => Some (Sum0.verify sigma pk m)
  | S depth => fun self period pk m =>
      if bool_decide (hash_pair (lhs_pk self) (rhs_pk self) <> pk) then Some (Err Error.InvalidHashComparison)
      else
        half ← Depth.half (S depth);
        if period <? half then verify depth (sigma self) period (lhs_pk self) m
        else
          rest ← checked_sub period half;
          verify depth (sigma self) rest (rhs_pk self) m
  end.

(** *** As bytes *)
Definition SIGNATURE_SIZE (depth : nat) : nat := SIGMA_SIZE + depth * (PUBLIC_KEY_SIZE * 2).

Fixpoint signature_from_bytes (depth : nat) (bytes : bytes) : option (result Error.t (Sig depth)) :=
  match depth return option (result Error.t (Sig depth)) with
  | O => Some (Sum0.signature_from_bytes bytes)
  | S depth =>
      let size := SIGNATURE_SIZE depth in
      if negb (length bytes =? SIGNATURE_SIZE (S depth))%nat then Some (Err (Error.InvalidSignatureSize (length bytes)))
      else
        sub ← slice 0 size bytes;
        lhs ← slice size (size + 32) bytes;
        rhs ← slice (size + 32) (size + 64) bytes;
        sigma ← signature_from_bytes depth sub;
        Some (
          sigma ← sigma;
          lhs_pk ← PublicKey_from_bytes lhs;
          rhs_pk ← PublicKey_from_bytes rhs;
          Ok (mk sigma lhs_pk rhs_pk))
  end.

Fixpoint signature_to_bytes (depth : nat) : Sig depth -> bytes :=
  match depth return Sig depth -> bytes with
  | O => fun sigma => sigma
  | S depth => fun self => signature_to_bytes depth (sigma self) ++ lhs_pk self ++ rhs_pk self
  end.
End sum.
End Sum.

(** ** Compact signatures

    The keys are the same; of every level the signature has the public key of the other
    half only.  That of the leaf has the key it is verified with. *)
Module Compact.
Record CompactSig (Sigma : Type) := mk { sigma : Sigma; pk : bytes }.
Arguments mk {Sigma} _ _.
Arguments sigma {Sigma} _.
Arguments pk {Sigma} _.

Section compact.
Context `{Ed25519, Cryptoxide}.

Fixpoint Sig (depth : nat) : Type := match depth with O => (bytes * VerifyingKey)%type | S depth => CompactSig (Sig depth) end.

(** *** The leaf *)
Definition leaf_sign_from_slice (sk m : bytes) : option (Sig 0) :=
  secret ← array_32 sk; Some (ed_sign secret m, verifying_key secret).

Definition leaf_sign (key m : bytes) : option (Sig 0) :=
  secret ← array_32 key; Some (ed_sign secret m, verifying_key secret).

Definition leaf_recompute (self : Sig 0) (m : bytes) : result Error.t bytes :=
  match verify_strict self.2 m self.1 with Ok tt => Ok (vk_as_bytes self.2) | Err e => Err (Error.Ed25519Signature e) end.

Definition LEAF_SIZE : nat := 64 + 32.

Definition leaf_from_bytes (bytes : bytes) : result Error.t (Sig 0) :=
  if negb (length bytes =? LEAF_SIZE)%nat then Err (Error.InvalidSecretKeySize (length bytes))
  else
    match vk_from_bytes (drop 64 bytes) with
    | Ok ed_key => Ok (take 64 bytes, ed_key)
    | Err e => Err (Error.Ed25519Signature e)
    end.

Definition leaf_to_bytes (self : Sig 0) : bytes := self.1 ++ vk_as_bytes self.2.

(** *** The composition *)
Fixpoint sign_from_slice (depth : nat) (sk m : bytes) (period : Z) : option (Sig depth) :=
  match depth return option (Sig depth) with
  | O => leaf_sign_from_slice sk m
  | S depth =>
      let size := SIZE depth in
      t0 ← Depth.half (S depth);
      sub ← slice 0 size sk;
      if period <? t0 then
        pk ← slice (size + 64) (size + 96) sk;
        sigma ← sign_from_slice depth sub m period;
        Some (mk sigma pk)
      else
        pk ← slice (size + 32) (size + 64) sk;
        rest ← checked_sub period t0;
        sigma ← sign_from_slice depth sub m rest;
        Some (mk sigma pk)
  end.

Definition sign (depth : nat) (key m : bytes) : option (Sig depth) :=
  period ← get_period depth key;
  sign_from_slice depth key m period.

Fixpoint recompute (depth : nat) : Sig depth -> Z -> bytes -> option (result Error.t bytes) :=
  match depth return Sig depth -> Z -> bytes -> option (result Error.t bytes) with
  | O => fun self _ m => Some (leaf_recompute self m)
  | S depth => fun self period m =>
      half ← Depth.half (S depth);
      if period <? half then
        recomputed_key ← recompute depth (sigma self) period m;
        Some (recomputed_key ← recomputed_key; Ok (hash_pair recomputed_key (pk self)))
      else
        rest ← checked_sub period half;
        recomputed_key ← recompute depth (sigma self) rest m;
        Some (recomputed_key ← recomputed_key; Ok (hash_pair (pk self) recomputed_key))
  end.

Definition verify (depth : nat) (self : Sig depth) (period : Z) (pk m : bytes) : option (result Error.t ()) :=
  pk_subtree ← recompute depth self period m;
  Some (pk_subtree ← pk_subtree; if bool_decide (pk = pk_subtree) then Ok () else Err Error.InvalidHashComparison).

(** *** As bytes *)
Definition SIGNATURE_SIZE (depth : nat) : nat := SIGMA_SIZE + (depth + 1) * PUBLIC_KEY_SIZE.

Fixpoint signature_from_bytes (depth : nat) (bytes : bytes) : option (result Error.t (Sig depth)) :=
  match depth return option (result Error.t (Sig depth)) with
  | O => Some (leaf_from_bytes bytes)
  | S depth =>
      let size := SIGNATURE_SIZE depth in
      if negb (length bytes =? SIGNATURE_SIZE (S depth))%nat then Some (Err (Error.InvalidSignatureSize (length bytes)))
      else
        sub ← slice 0 size bytes;
        other ← slice size (size + 32) bytes;
        sigma ← signature_from_bytes depth sub;
        Some (sigma ← sigma; pk ← PublicKey_from_bytes other; Ok (mk sigma pk))
  end.

Fixpoint signature_to_bytes (depth : nat) : Sig depth -> bytes :=
  match depth return Sig depth -> bytes with
  | O => leaf_to_bytes
  | S depth => fun self => signature_to_bytes depth (sigma self) ++ pk self
  end.
End compact.
End Compact.

(** ** The tree of a key

    What the seed of a key determines: the seeds of its leaves, its public key, and what
    the buffer holds in every period. *)
Section tree.
Context `{Ed25519, Cryptoxide}.

Definition left_seed (seed : bytes) : bytes := Hasher_256 (1 :: seed).
Definition right_seed (seed : bytes) : bytes := Hasher_256 (2 :: seed).

Fixpoint leaves (depth : nat) (seed : bytes) : list bytes :=
  match depth with O => [seed] | S depth => leaves depth (left_seed seed) ++ leaves depth (right_seed seed) end.

Fixpoint root_pk (depth : nat) (seed : bytes) : bytes :=
  match depth with
  | O => vk_as_bytes (verifying_key seed)
  | S depth => hash_pair (root_pk depth (left_seed seed)) (root_pk depth (right_seed seed))
  end.

Inductive block :=
| Secret (depth : nat) (seed : bytes)
| Erased
| Public (pk : bytes).

Fixpoint layout (depth : nat) (seed : bytes) (period : Z) : list block :=
  match depth with
  | O => [Secret 0 seed]
  | S depth =>
      (if period <? 2 ^ Z.of_nat depth then layout depth (left_seed seed) period ++ [Secret depth (right_seed seed)]
       else layout depth (right_seed seed) (period - 2 ^ Z.of_nat depth) ++ [Erased]) ++
      [Public (root_pk depth (left_seed seed)); Public (root_pk depth (right_seed seed))]
  end.

Definition block_bytes (b : block) : bytes := match b with Secret _ seed => seed | Erased => zeros 32 | Public pk => pk end.
Definition key_at (depth : nat) (seed : bytes) (period : Z) : bytes := concat (block_bytes <$> layout depth seed period).

(** The leaves whose seeds follow from the secrets in the buffer. *)
Definition derivable (blocks : list block) : list bytes :=
  concat ((fun b => match b with Secret depth seed => leaves depth seed | _ => [] end) <$> blocks).
End tree.

(** ** Slices of known bytes *)
Lemma write_app (a x src b : bytes) n : n = length a -> length x = length src -> write n src (a ++ x ++ b) = Some (a ++ src ++ b).
Proof.
  intros -> Hx. unfold write, assert. rewrite !length_app, (proj2 (Nat.leb_le _ _)) by lia. cbn.
  by rewrite take_app_length, drop_app, drop_ge, drop_app_length' by (rewrite ?Hx; lia).
Qed.

Lemma write_start (x src b : bytes) : length x = length src -> write 0 src (x ++ b) = Some (src ++ b).
Proof. by apply (write_app []). Qed.

Lemma write_end_app (a x src : bytes) n : n = length a -> length x = length src -> write_end n src (a ++ x) = Some (a ++ src).
Proof. intros -> Hx. unfold write_end, assert. by rewrite length_app, (proj2 (Nat.eqb_eq _ _)), take_app_length by lia. Qed.

Lemma slice_app (a x b : bytes) n m : n = length a -> m = (n + length x)%nat -> slice n m (a ++ x ++ b) = Some x.
Proof.
  intros -> ->. unfold slice, assert. rewrite !length_app, !(proj2 (Nat.leb_le _ _)) by lia. cbn.
  rewrite drop_app_length. by replace (length a + length x - length a)%nat with (length x) by lia; rewrite take_app_length.
Qed.

Lemma slice_start (x b : bytes) n : n = length x -> slice 0 n (x ++ b) = Some x.
Proof. intros ->. by apply (slice_app []). Qed.

Lemma split_length (l : bytes) n m : length l = (n + m)%nat -> exists a b, l = a ++ b /\ length a = n /\ length b = m.
Proof. intros Hl. exists (take n l), (drop n l). rewrite take_drop, length_take, length_drop. split_and!; [done|lia..]. Qed.

Lemma array_32_Some (x : bytes) : length x = 32%nat -> array_32 x = Some x.
Proof. intros Hx. unfold array_32. by rewrite Hx. Qed.

Lemma depth_total d : (d <= 31)%nat -> Depth.total d = Some (2 ^ Z.of_nat d).
Proof.
  intros Hd. unfold Depth.total, checked_mul. rewrite Z.mul_1_r.
  by rewrite (proj2 (Z.ltb_lt _ _)) by (apply Z.pow_lt_mono_r; lia).
Qed.

Lemma depth_half d : (d <= 31)%nat -> Depth.half (S d) = Some (2 ^ Z.of_nat d).
Proof.
  intros Hd. unfold Depth.half, checked_mul. cbn [assert Nat.ltb Nat.leb mbind option_bind]. rewrite Z.mul_1_r.
  replace (Z.of_nat (S d) - 1) with (Z.of_nat d) by lia. by rewrite (proj2 (Z.ltb_lt _ _)) by (apply Z.pow_lt_mono_r; lia).
Qed.

Lemma SIZE_S d : SIZE (S d) = (SIZE d + 96)%nat.
Proof. unfold SIZE, INDIVIDUAL_SECRET_SIZE, PUBLIC_KEY_SIZE. lia. Qed.

Lemma pow_S d : 2 ^ Z.of_nat (S d) = 2 * 2 ^ Z.of_nat d.
Proof. rewrite Nat2Z.inj_succ, Z.pow_succ_r by lia. done. Qed.

Section kes.
Context `{Ed25519Laws}.

(** ** Keys *)
Lemma length_left s : length (left_seed s) = 32%nat.
Proof. apply digest_length. Qed.
Lemma length_right s : length (right_seed s) = 32%nat.
Proof. apply digest_length. Qed.
Lemma length_root d s : length (root_pk d s) = 32%nat.
Proof. destruct d; [apply vk_length|apply digest_length]. Qed.

#[local] Hint Resolve length_left length_right length_root : core.

Lemma key_at_0 s p : key_at 0 s p = s.
Proof. apply app_nil_r. Qed.

Lemma key_at_S d s p :
  key_at (S d) s p =
    (if p <? 2 ^ Z.of_nat d then key_at d (left_seed s) p else key_at d (right_seed s) (p - 2 ^ Z.of_nat d)) ++
    (if p <? 2 ^ Z.of_nat d then right_seed s else zeros 32) ++ root_pk d (left_seed s) ++ root_pk d (right_seed s).
Proof.
  unfold key_at. cbn [layout]. destruct (p <? 2 ^ Z.of_nat d); rewrite !fmap_app, !concat_app; cbn [fmap list_fmap block_bytes concat];
    by rewrite !app_nil_r, <- !app_assoc.
Qed.

Lemma length_key_at d s p : length s = 32%nat -> length (key_at d s p) = SIZE d.
Proof.
  revert s p; induction d as [|d IH]; intros s p Hs; [by rewrite key_at_0|].
  rewrite key_at_S, SIZE_S, !length_app, !length_root. destruct (_ <? _); rewrite IH by auto; rewrite ?length_right; unfold zeros; rewrite ?length_replicate; lia.
Qed.

Lemma length_zeros n : length (zeros n) = n.
Proof. apply length_replicate. Qed.

Lemma split_slice_spec s : length s = 32%nat -> split_slice s = Some (left_seed s, right_seed s, zeros 32).
Proof. intros Hs. unfold split_slice. by rewrite Hs. Qed.

(** What [keygen_slice] does with a seed, and with a buffer that ends with one *)
Definition slice_spec (d : nat) : Prop :=
  (forall buf s, length buf = SIZE d -> length s = 32%nat ->
    keygen_slice d buf (Some s) = Some (root_pk d s, key_at d s 0, Some (zeros 32))) /\
  (forall buf s, length buf = SIZE d -> length s = 32%nat ->
    keygen_slice d (buf ++ s) None = Some (root_pk d s, key_at d s 0 ++ zeros 32, None)).

Lemma leaf_spec : slice_spec 0.
Proof.
  split; intros buf s Hb Hs; change (SIZE 0) with 32%nat in Hb; cbn [keygen_slice]; rewrite key_at_0; unfold Sum0.keygen_slice, Sum0.SIZE;
    rewrite ?length_app, Hb, ?Hs; cbn [Nat.eqb assert Nat.add mbind option_bind].
  - rewrite array_32_Some by done. cbn [mbind option_bind].
    rewrite <- (app_nil_r buf), write_start by congruence. cbn [mbind option_bind]. by rewrite app_nil_r.
  - rewrite drop_app_length', array_32_Some by done. cbn [mbind option_bind].
    by rewrite take_app_length', write_start by congruence.
Qed.

Lemma keygen_with_spec d buf t s :
  slice_spec d -> length buf = SIZE d -> length t = 4%nat -> length s = 32%nat ->
  keygen_with (SIZE d) (keygen_slice d) (buf ++ t) s = Some (key_at d s 0 ++ zeros 4, root_pk d s, zeros 32).
Proof.
  intros [Hslice _] Hb Ht Hs. unfold keygen_with. rewrite length_app, Hb, Ht, Hs, !Nat.eqb_refl. cbn [assert mbind option_bind].
  rewrite take_app_length', Hslice, drop_app_length' by done. cbn [mbind option_bind].
  by rewrite write_end_app by (rewrite ?length_key_at; done).
Qed.

Lemma other_half d s :
  slice_spec d -> length s = 32%nat ->
  exists key,
    match d with
    | O => Sum0.keygen (zeros (SIZE d + 4)) s
    | S _ => keygen_with (SIZE d) (keygen_slice d) (zeros (SIZE d + 4)) s
    end = Some (key, root_pk d s, zeros 32).
Proof.
  intros Hd Hs. assert (zeros (SIZE d + 4) = zeros (SIZE d) ++ zeros 4) as -> by apply replicate_add. destruct d as [|d].
  - unfold Sum0.keygen, Sum0.SIZE. rewrite length_app, !length_zeros, Hs, array_32_Some by done. cbn [assert mbind option_bind Nat.eqb].
    eexists. change (SIZE 0 + 4 =? 32 + 4)%nat with true. cbn [assert mbind option_bind]. rewrite write_start by done. done.
  - eexists. apply keygen_with_spec; rewrite ?length_zeros; done.
Qed.

(** The part both cases share *)
Lemma fill_spec d s x0 x1 x2 x3 t opt :
  slice_spec d -> length x0 = SIZE d -> length x1 = 32%nat -> length x2 = 32%nat -> length x3 = 32%nat ->
  (in_slice ← write (SIZE d) (right_seed s) (x0 ++ x1 ++ x2 ++ x3 ++ t);
   let temp_buffer := zeros (SIZE d + 4) in
   '(pk_0, sub, _) ← keygen_slice d (take (SIZE d) in_slice) (Some (left_seed s));
   let in_slice := sub ++ drop (SIZE d) in_slice in
   '(_, pk_1, _) ← match d with
                   | O => Sum0.keygen temp_buffer (right_seed s)
                   | S _ => keygen_with (SIZE d) (keygen_slice d) temp_buffer (right_seed s)
                   end;
   let pk := hash_pair pk_0 pk_1 in
   in_slice ← write (SIZE d + 32) pk_0 in_slice;
   in_slice ← write (SIZE d + 64) pk_1 in_slice;
   Some (pk, in_slice, opt)) = Some (root_pk (S d) s, key_at (S d) s 0 ++ t, opt : option bytes).
Proof.
  intros Hd H0' H1' H2' H3'. rewrite write_app by (rewrite ?length_right; done). cbn [mbind option_bind].
  rewrite take_app_length', (proj1 Hd), drop_app_length' by auto. cbn [mbind option_bind].
  destruct (other_half d (right_seed s)) as [key ->]; [done..|]. cbn [mbind option_bind].
  rewrite (app_assoc (key_at _ _ _)), write_app by (rewrite ?length_app, ?length_key_at, ?length_right, ?length_root; auto).
  cbn [mbind option_bind].
  rewrite (app_assoc (_ ++ _) (root_pk _ _)), write_app
    by (rewrite ?length_app, ?length_key_at, ?length_right, ?length_root by auto; (done || lia)).
  cbn [mbind option_bind]. by rewrite key_at_S, (proj2 (Z.ltb_lt _ _)), <- !app_assoc by lia.
Qed.

Lemma split_node (buf : bytes) d :
  length buf = SIZE (S d) ->
  exists x0 x1 x2 x3, buf = x0 ++ x1 ++ x2 ++ x3 /\ length x0 = SIZE d /\ length x1 = 32%nat /\ length x2 = 32%nat /\ length x3 = 32%nat.
Proof.
  rewrite SIZE_S. intros Hb. destruct (split_length buf (SIZE d) (32 + (32 + 32))) as (x0 & y & -> & H0' & Hy); [lia|].
  destruct (split_length y 32 (32 + 32)) as (x1 & z & -> & H1' & Hz); [done|].
  destruct (split_length z 32 32) as (x2 & x3 & -> & H2' & H3'); [done|]. by exists x0, x1, x2, x3.
Qed.

Lemma keygen_spec d : slice_spec d.
Proof.
  induction d as [|d IH]; [exact leaf_spec|]. split; intros buf s Hb Hs; cbn [keygen_slice].
  - rewrite Hb, Hs, !Nat.eqb_refl, split_slice_spec by done. cbn [assert mbind option_bind Nat.eqb].
    destruct (split_node buf d Hb) as (x0 & x1 & x2 & x3 & -> & ? & ? & ? & ?).
    pose proof (fill_spec d s x0 x1 x2 x3 [] (Some (zeros 32)) IH) as Hfill. rewrite !app_nil_r in Hfill. by apply Hfill.
  - rewrite length_app, Hb, Hs, !Nat.eqb_refl, drop_app_length', split_slice_spec by done. cbn [assert mbind option_bind].
    rewrite take_app_length' by done. destruct (split_node buf d Hb) as (x0 & x1 & x2 & x3 & -> & ? & ? & ? & ?).
    rewrite <- !app_assoc. by apply fill_spec.
Qed.

(** The last period leaves the key as it is; any other has a next one. *)
Definition updated (d : nat) (s : bytes) (p : Z) : result Error.t () * bytes :=
  if p + 1 =? 2 ^ Z.of_nat d then (Err Error.KeyCannotBeUpdatedMore, key_at d s p) else (Ok (), key_at d s (p + 1)).

Lemma checked_next d p : (d <= 31)%nat -> p < 2 ^ Z.of_nat d -> checked_add 32 p 1 = Some (p + 1).
Proof.
  intros Hd Hp. unfold checked_add. assert (2 ^ Z.of_nat d < 2 ^ 32) by (apply Z.pow_lt_mono_r; lia).
  by rewrite (proj2 (Z.ltb_lt _ _)) by lia.
Qed.

Lemma update_slice_spec d s p :
  (d <= 31)%nat -> length s = 32%nat -> 0 <= p < 2 ^ Z.of_nat d -> update_slice d (key_at d s p) p = Some (updated d s p).
Proof.
  revert s p; induction d as [|d IH]; intros s p Hd Hs Hp; [by unfold updated; replace p with 0 by (cbn in Hp; lia)|].
  cbn [update_slice]. unfold updated. rewrite (checked_next (S d)), depth_total by lia. cbn [mbind option_bind].
  destruct (p + 1 =? 2 ^ Z.of_nat (S d)) eqn:Hlast; [done|]. rewrite Z.eqb_neq in Hlast. rewrite depth_half by lia. cbn [mbind option_bind].
  rewrite pow_S in Hp, Hlast. rewrite !key_at_S. destruct (Z.compare_spec (p + 1) (2 ^ Z.of_nat d)) as [Hc|Hc|Hc].
  - rewrite (proj2 (Z.ltb_lt p _)), (proj2 (Z.ltb_ge (p + 1) _)), app_assoc by lia.
    rewrite slice_start, drop_app_length' by (rewrite length_app, length_key_at, length_right by auto; lia). cbn [mbind option_bind].
    rewrite (proj2 (keygen_spec d)) by (rewrite ?length_key_at; auto). cbn [mbind option_bind].
    rewrite <- app_assoc. by replace (p + 1 - 2 ^ Z.of_nat d) with 0 by lia.
  - rewrite !(proj2 (Z.ltb_lt _ _)), slice_start, drop_app_length' by (rewrite ?length_key_at by auto; lia). cbn [mbind option_bind].
    rewrite IH by (auto; lia). unfold updated. by rewrite (proj2 (Z.eqb_neq _ _)) by lia.
  - rewrite !(proj2 (Z.ltb_ge _ _)), slice_start, drop_app_length' by (rewrite ?length_key_at by auto; lia). cbn [mbind option_bind].
    rewrite (proj2 (checked_sub_Some p _ _)) by (split; [lia|reflexivity]). cbn [mbind option_bind].
    rewrite IH by (auto; lia). unfold updated. rewrite (proj2 (Z.eqb_neq _ _)) by lia.
    by replace (p - 2 ^ Z.of_nat d + 1) with (p + 1 - 2 ^ Z.of_nat d) by lia.
Qed.

(** The buffer of a key: the tree in the period, and the period *)
Definition buffer (d : nat) (s : bytes) (p : Z) : bytes := key_at d s p ++ be_bytes 4 p.

Lemma get_period_buffer d s p : length s = 32%nat -> 0 <= p < 2 ^ 32 -> get_period d (buffer d s p) = Some p.
Proof.
  intros Hs Hp. unfold get_period, buffer. rewrite length_app, length_key_at, length_be_bytes, Nat.eqb_refl by done. cbn [assert mbind option_bind].
  by rewrite drop_app_length', of_be_be_bytes by (done || by rewrite length_key_at).
Qed.

Lemma update_buffer d s p :
  (d <= 31)%nat -> length s = 32%nat -> 0 <= p < 2 ^ Z.of_nat d ->
  update d (buffer d s p) =
    Some (if p + 1 =? 2 ^ Z.of_nat d then (Err Error.KeyCannotBeUpdatedMore, buffer d s p) else (Ok (), buffer d s (p + 1))).
Proof.
  intros Hd Hs Hp. assert (2 ^ Z.of_nat d < 2 ^ 32) by (apply Z.pow_lt_mono_r; lia). unfold update.
  rewrite get_period_buffer by (auto; lia). cbn [mbind option_bind]. unfold buffer.
  rewrite take_app_length', update_slice_spec by (auto; by rewrite length_key_at). cbn [mbind option_bind]. unfold updated.
  rewrite drop_app_length' by (by rewrite length_key_at). destruct (p + 1 =? _); [done|].
  rewrite (checked_next d) by lia. cbn [mbind option_bind].
  by rewrite write_end_app by (rewrite ?length_key_at, ?length_be_bytes; done).
Qed.

Lemma keygen_buffer d buf s :
  length buf = (SIZE d + 4)%nat -> length s = 32%nat -> keygen d buf s = Some (buffer d s 0, root_pk d s, zeros 32).
Proof.
  intros Hb Hs. destruct (split_length buf (SIZE d) 4 Hb) as (a & t & -> & Ha & Ht).
  apply keygen_with_spec; auto using keygen_spec.
Qed.

Lemma key_at_pks d s p :
  length s = 32%nat ->
  exists a b, key_at (S d) s p = a ++ b ++ root_pk d (left_seed s) ++ root_pk d (right_seed s) /\ length a = SIZE d /\ length b = 32%nat.
Proof. intros Hs. rewrite key_at_S. do 2 eexists. split; [done|]. destruct (_ <? _); rewrite length_key_at, ?length_right, ?length_zeros; auto. Qed.

Lemma slice_pks d a b x y t :
  length a = SIZE d -> length b = 32%nat -> length x = 32%nat -> length y = 32%nat ->
  slice (SIZE d + 32) (SIZE d + 64) ((a ++ b ++ x ++ y) ++ t) = Some x /\
  slice (SIZE d + 64) (SIZE d + 96) ((a ++ b ++ x ++ y) ++ t) = Some y.
Proof.
  intros Ha Hb Hx Hy. rewrite <- !app_assoc, (app_assoc a b). split; [by rewrite slice_app by (rewrite ?length_app; lia)|].
  rewrite (app_assoc (a ++ b) x). by rewrite slice_app by (rewrite ?length_app; lia).
Qed.

Lemma to_pk_buffer d s p : length s = 32%nat -> to_pk (S d) (buffer (S d) s p) = Some (root_pk (S d) s).
Proof.
  intros Hs. unfold to_pk, buffer. destruct (key_at_pks d s p Hs) as (a & b & -> & Ha & Hb). rewrite SIZE_S.
  replace (SIZE d + 96 - 64)%nat with (SIZE d + 32)%nat by lia. replace (SIZE d + 96 - 32)%nat with (SIZE d + 64)%nat by lia.
  destruct (slice_pks d a b (root_pk d (left_seed s)) (root_pk d (right_seed s)) (be_bytes 4 p)) as [-> ->]; [auto..|].
  cbn [mbind option_bind]. unfold PublicKey_from_bytes. by rewrite !length_root.
Qed.

(** The secrets of the buffer are those of the periods that are left. *)
Lemma length_leaves d s : length (leaves d s) = Z.to_nat (2 ^ Z.of_nat d).
Proof. revert s; induction d as [|d IH]; intros s; [done|]. cbn [leaves]. rewrite length_app, !IH, pow_S. lia. Qed.

Lemma derivable_app x y : derivable (x ++ y) = derivable x ++ derivable y.
Proof. unfold derivable. by rewrite fmap_app, concat_app. Qed.

Lemma derivable_layout d s p : 0 <= p < 2 ^ Z.of_nat d -> derivable (layout d s p) = drop (Z.to_nat p) (leaves d s).
Proof.
  revert s p; induction d as [|d IH]; intros s p Hp; [by replace p with 0 by (cbn in Hp; lia)|].
  rewrite pow_S in Hp. cbn [layout leaves]. rewrite !derivable_app. unfold derivable at 2. cbn [fmap list_fmap concat]. rewrite app_nil_r.
  destruct (p <? 2 ^ Z.of_nat d) eqn:Hlt; rewrite ?Z.ltb_lt, ?Z.ltb_ge in Hlt; rewrite derivable_app, IH by lia;
    unfold derivable; cbn [fmap list_fmap concat]; rewrite !app_nil_r.
  - by rewrite drop_app_le by (rewrite length_leaves; lia).
  - rewrite drop_app_ge, length_leaves by (rewrite length_leaves; lia). f_equal; lia.
Qed.

(** ** Signatures *)
Lemma slice_node d s p t :
  length s = 32%nat ->
  slice 0 (SIZE d) (key_at (S d) s p ++ t) =
    Some (if p <? 2 ^ Z.of_nat d then key_at d (left_seed s) p else key_at d (right_seed s) (p - 2 ^ Z.of_nat d)) /\
  slice (SIZE d + 32) (SIZE d + 64) (key_at (S d) s p ++ t) = Some (root_pk d (left_seed s)) /\
  slice (SIZE d + 64) (SIZE d + 96) (key_at (S d) s p ++ t) = Some (root_pk d (right_seed s)).
Proof.
  intros Hs. rewrite key_at_S. split.
  - rewrite <- !app_assoc. apply slice_start. destruct (_ <? _); by rewrite length_key_at by auto.
  - apply slice_pks; auto; destruct (_ <? _); rewrite ?length_key_at, ?length_right, ?length_zeros; auto.
Qed.

Lemma slice_rest n m (x y : bytes) : n = length x -> m = (n + length y)%nat -> slice n m (x ++ y) = Some y.
Proof. intros. replace (x ++ y) with (x ++ y ++ []) by by rewrite app_nil_r. by apply slice_app. Qed.

Lemma slice_three n (x y z : bytes) :
  length x = n -> length y = 32%nat -> length z = 32%nat ->
  slice 0 n (x ++ y ++ z) = Some x /\ slice n (n + 32) (x ++ y ++ z) = Some y /\ slice (n + 32) (n + 64) (x ++ y ++ z) = Some z.
Proof.
  intros Hx Hy Hz. split_and!; [by apply slice_start|apply slice_app; lia|].
  rewrite app_assoc. apply slice_rest; rewrite ?length_app; lia.
Qed.

Lemma as_ed25519_root s : as_ed25519 (root_pk 0 s) = Ok (verifying_key s).
Proof. unfold as_ed25519. cbn [root_pk]. by rewrite vk_parsed. Qed.

(** A signature in a period verifies in it under the public key, and is its bytes. *)
Lemma sum_sign_spec d s p m t :
  (d <= 31)%nat -> length s = 32%nat -> 0 <= p < 2 ^ Z.of_nat d -> (d = O -> t = []) ->
  exists sigma,
    Sum.sign_from_slice d (key_at d s p ++ t) m = Some sigma /\
    Sum.verify d sigma p (root_pk d s) m = Some (Ok ()) /\
    length (Sum.signature_to_bytes d sigma) = Sum.SIGNATURE_SIZE d /\
    Sum.signature_from_bytes d (Sum.signature_to_bytes d sigma) = Some (Ok sigma).
Proof.
  revert s p t; induction d as [|d IH]; intros s p t Hd Hs Hp Ht.
  { rewrite Ht, app_nil_r, key_at_0 by done. exists (ed_sign s m). cbn [Sum.sign_from_slice Sum.verify Sum.signature_to_bytes Sum.signature_from_bytes].
    unfold Sum0.sign_from_slice, Sum0.verify, Sum0.signature_from_bytes. rewrite array_32_Some, as_ed25519_root by done. cbn.
    rewrite sign_verified, sign_length by done. done. }
  destruct (slice_node d s p t Hs) as (Hsub & Hl & Hr). rewrite pow_S in Hp.
  assert (exists s' p', length s' = 32%nat /\ 0 <= p' < 2 ^ Z.of_nat d /\
    (if p <? 2 ^ Z.of_nat d then key_at d (left_seed s) p else key_at d (right_seed s) (p - 2 ^ Z.of_nat d)) = key_at d s' p' /\
    (forall sigma, Sum.verify (S d) (Sum.mk sigma (root_pk d (left_seed s)) (root_pk d (right_seed s))) p (root_pk (S d) s) m =
      Sum.verify d sigma p' (root_pk d s') m)) as (s' & p' & Hs' & Hp' & Hkey & Hverify).
  { destruct (p <? 2 ^ Z.of_nat d) eqn:Hlt; [exists (left_seed s), p|exists (right_seed s), (p - 2 ^ Z.of_nat d)];
      (split_and!; [by auto|rewrite ?Z.ltb_lt, ?Z.ltb_ge in Hlt; lia..|done|]); intros sigma; cbn [Sum.verify Sum.sigma Sum.lhs_pk Sum.rhs_pk root_pk];
      rewrite bool_decide_eq_false_2, depth_half by (done || lia || by intros []); cbn [mbind option_bind]; rewrite Hlt; [done|].
    rewrite (proj2 (checked_sub_Some p _ _)) by (rewrite Z.ltb_ge in Hlt; split; [lia|reflexivity]). done. }
  destruct (IH s' p' []) as (sigma & Hsign & Hok & Hlen & Hbytes); [lia|done..|]. rewrite app_nil_r in Hsign.
  exists (Sum.mk sigma (root_pk d (left_seed s)) (root_pk d (right_seed s))). split_and!.
  - cbn [Sum.sign_from_slice]. rewrite Hsub, Hl, Hr, Hkey. cbn [mbind option_bind]. by rewrite Hsign.
  - by rewrite Hverify.
  - cbn [Sum.signature_to_bytes Sum.sigma Sum.lhs_pk Sum.rhs_pk]. rewrite !length_app, Hlen, !length_root.
    unfold Sum.SIGNATURE_SIZE, PUBLIC_KEY_SIZE. lia.
  - cbn [Sum.signature_to_bytes Sum.sigma Sum.lhs_pk Sum.rhs_pk Sum.signature_from_bytes]. rewrite !length_app, !length_root, Hlen.
    rewrite (proj2 (Nat.eqb_eq _ _)) by (unfold Sum.SIGNATURE_SIZE, PUBLIC_KEY_SIZE; lia). cbn [negb].
    destruct (slice_three _ _ (root_pk d (left_seed s)) (root_pk d (right_seed s)) Hlen) as (-> & -> & ->); [done..|]. cbn [mbind option_bind].
    rewrite Hbytes. cbn [mbind option_bind].
    unfold PublicKey_from_bytes. by rewrite !length_root.
Qed.

Lemma compact_verify_spec d (sigma : Compact.Sig d) p s m :
  Compact.recompute d sigma p m = Some (Ok (root_pk d s)) -> Compact.verify d sigma p (root_pk d s) m = Some (Ok ()).
Proof. intros Hr. unfold Compact.verify. rewrite Hr. cbn. by rewrite bool_decide_eq_true_2. Qed.

Lemma compact_sign_spec d s p m t :
  (d <= 31)%nat -> length s = 32%nat -> 0 <= p < 2 ^ Z.of_nat d -> (d = O -> t = []) ->
  exists sigma,
    Compact.sign_from_slice d (key_at d s p ++ t) m p = Some sigma /\
    Compact.recompute d sigma p m = Some (Ok (root_pk d s)) /\
    length (Compact.signature_to_bytes d sigma) = Compact.SIGNATURE_SIZE d /\
    Compact.signature_from_bytes d (Compact.signature_to_bytes d sigma) = Some (Ok sigma).
Proof.
  revert s p t; induction d as [|d IH]; intros s p t Hd Hs Hp Ht.
  { rewrite Ht, app_nil_r, key_at_0 by done. exists (ed_sign s m, verifying_key s).
    cbn [Compact.sign_from_slice Compact.recompute Compact.signature_to_bytes Compact.signature_from_bytes].
    unfold Compact.leaf_sign_from_slice, Compact.leaf_recompute, Compact.leaf_from_bytes, Compact.leaf_to_bytes. rewrite array_32_Some by done. cbn.
    rewrite sign_verified, length_app, sign_length, vk_length by done. cbn.
    by rewrite take_app_length', drop_app_length', vk_parsed by (by rewrite sign_length). }
  destruct (slice_node d s p t Hs) as (Hsub & Hl & Hr). rewrite pow_S in Hp.
  assert (exists s' p' other, length s' = 32%nat /\ 0 <= p' < 2 ^ Z.of_nat d /\ length other = 32%nat /\
    Compact.sign_from_slice (S d) (key_at (S d) s p ++ t) m p =
      (sigma ← Compact.sign_from_slice d (key_at d s' p') m p'; Some (Compact.mk sigma other)) /\
    (forall sigma, Compact.recompute d sigma p' m = Some (Ok (root_pk d s')) ->
      Compact.recompute (S d) (Compact.mk sigma other) p m = Some (Ok (root_pk (S d) s))))
    as (s' & p' & other & Hs' & Hp' & Ho & Hkey & Hverify).
  { destruct (p <? 2 ^ Z.of_nat d) eqn:Hlt;
      [exists (left_seed s), p, (root_pk d (right_seed s))|exists (right_seed s), (p - 2 ^ Z.of_nat d), (root_pk d (left_seed s))];
      (split_and!; [by auto|rewrite ?Z.ltb_lt, ?Z.ltb_ge in Hlt; lia..|by auto| |]);
      [|intros sigma Hr'|assert (checked_sub p (2 ^ Z.of_nat d) = Some (p - 2 ^ Z.of_nat d)) as Hsubtract
        by (apply checked_sub_Some; rewrite Z.ltb_ge in Hlt; done)|intros sigma Hr'; assert (checked_sub p (2 ^ Z.of_nat d) = Some (p - 2 ^ Z.of_nat d)) as Hsubtract
        by (apply checked_sub_Some; rewrite Z.ltb_ge in Hlt; done)];
      cbn [Compact.sign_from_slice Compact.recompute Compact.sigma Compact.pk root_pk]; rewrite depth_half by lia; cbn [mbind option_bind];
      rewrite ?Hsub, Hlt, ?Hl, ?Hr; cbn [mbind option_bind]; rewrite ?Hsubtract; cbn [mbind option_bind]; rewrite ?Hr'; done. }
  destruct (IH s' p' []) as (sigma & Hsign & Hok & Hlen & Hbytes); [lia|done..|]. rewrite app_nil_r in Hsign.
  exists (Compact.mk sigma other). split_and!.
  - by rewrite Hkey, Hsign.
  - by apply Hverify.
  - cbn [Compact.signature_to_bytes Compact.sigma Compact.pk]. rewrite length_app, Hlen, Ho.
    unfold Compact.SIGNATURE_SIZE, PUBLIC_KEY_SIZE. lia.
  - cbn [Compact.signature_to_bytes Compact.sigma Compact.pk Compact.signature_from_bytes]. rewrite length_app, Ho, Hlen.
    rewrite (proj2 (Nat.eqb_eq _ _)) by (unfold Compact.SIGNATURE_SIZE, PUBLIC_KEY_SIZE; lia). cbn [negb].
    rewrite slice_start by done. cbn [mbind option_bind].
    rewrite slice_rest by lia. cbn [mbind option_bind]. rewrite Hbytes. cbn [mbind option_bind]. unfold PublicKey_from_bytes. by rewrite Ho.
Qed.

(** A period past the last is taken for the last. *)
Lemma late_periods d sigma p pk m :
  (d <= 31)%nat -> 2 ^ Z.of_nat d <= p -> Sum.verify d sigma p pk m = Sum.verify d sigma (2 ^ Z.of_nat d - 1) pk m.
Proof.
  revert sigma p pk; assert (forall sigma p q pk, (d <= 31)%nat -> 2 ^ Z.of_nat d - 1 <= p -> 2 ^ Z.of_nat d - 1 <= q ->
    Sum.verify d sigma p pk m = Sum.verify d sigma q pk m) as Hany.
  2: { intros; apply Hany; lia. }
  induction d as [|d IH]; intros sigma p q pk Hd Hp Hq; [done|]. rewrite pow_S in Hp, Hq. cbn [Sum.verify].
  case_bool_decide; [done|]. rewrite depth_half by lia. cbn [mbind option_bind]. assert (0 < 2 ^ Z.of_nat d) by lia.
  rewrite !(proj2 (Z.ltb_ge _ _)) by lia.
  rewrite (proj2 (checked_sub_Some p _ _)), (proj2 (checked_sub_Some q _ _)) by (split; [lia|reflexivity]). cbn [mbind option_bind].
  apply IH; lia.
Qed.

(** ** The life of a key *)
Fixpoint updates (d : nat) (n : nat) (key : bytes) : option (result Error.t () * bytes) :=
  match n with
  | O => Some (Ok (), key)
  | S n => '(r, key) ← updates d n key; match r with Ok tt => update d key | Err e => Some (Err e, key) end
  end.

Lemma updates_buffer d s n :
  (d <= 31)%nat -> length s = 32%nat -> Z.of_nat n < 2 ^ Z.of_nat d -> updates d n (buffer d s 0) = Some (Ok (), buffer d s (Z.of_nat n)).
Proof.
  intros Hd Hs; induction n as [|n IH]; intros Hn; [done|]. cbn [updates]. rewrite IH by lia. cbn [mbind option_bind].
  rewrite update_buffer by (auto; lia). rewrite (proj2 (Z.eqb_neq _ _)) by lia. by rewrite Nat2Z.inj_succ.
Qed.

(** C15: the life of a key-evolving key of depth [d + 1], in a buffer of any contents.  Its
    generation overwrites the seed.  After [n] updates, [n] below [2 ^ (d + 1)], its period
    is [n], its public key is still the one it was generated with, and what it signs, in
    either form, verifies in period [n] under that public key and survives its bytes.  The
    secrets left in the buffer lead to the seeds of the periods from [n] on and to no other:
    those of the past are erased.  One more update moves it to the next period, and the one
    after the last period is refused and changes nothing. *)
Theorem kes_lifecycle d buf s n m :
  (d < 31)%nat -> length buf = (SIZE (S d) + 4)%nat -> length s = 32%nat -> Z.of_nat n < 2 ^ Z.of_nat (S d) ->
  exists key0 pk key,
    keygen (S d) buf s = Some (key0, pk, zeros 32) /\
    updates (S d) n key0 = Some (Ok (), key) /\
    get_period (S d) key = Some (Z.of_nat n) /\
    to_pk (S d) key = Some pk /\
    (exists sigma, Sum.sign (S d) key m = Some sigma /\ Sum.verify (S d) sigma (Z.of_nat n) pk m = Some (Ok ()) /\
      Sum.signature_from_bytes (S d) (Sum.signature_to_bytes (S d) sigma) = Some (Ok sigma)) /\
    (exists sigma, Compact.sign (S d) key m = Some sigma /\ Compact.verify (S d) sigma (Z.of_nat n) pk m = Some (Ok ()) /\
      Compact.signature_from_bytes (S d) (Compact.signature_to_bytes (S d) sigma) = Some (Ok sigma)) /\
    take (SIZE (S d)) key = concat (block_bytes <$> layout (S d) s (Z.of_nat n)) /\
    derivable (layout (S d) s (Z.of_nat n)) = drop n (leaves (S d) s) /\
    (if Z.of_nat n + 1 =? 2 ^ Z.of_nat (S d) then update (S d) key = Some (Err Error.KeyCannotBeUpdatedMore, key)
     else exists next, update (S d) key = Some (Ok (), next) /\ get_period (S d) next = Some (Z.of_nat n + 1)).
Proof.
  intros Hd Hb Hs Hn. assert (2 ^ Z.of_nat (S d) < 2 ^ 32) by (apply Z.pow_lt_mono_r; lia).
  exists (buffer (S d) s 0), (root_pk (S d) s), (buffer (S d) s (Z.of_nat n)).
  split_and!; auto using keygen_buffer, updates_buffer, to_pk_buffer.
  - apply get_period_buffer; auto; lia.
  - destruct (sum_sign_spec (S d) s (Z.of_nat n) m (be_bytes 4 (Z.of_nat n))) as (sigma & ? & ? & ? & ?); [lia|done|lia|done|].
    by exists sigma.
  - destruct (compact_sign_spec (S d) s (Z.of_nat n) m (be_bytes 4 (Z.of_nat n))) as (sigma & Hsign & Hr & ? & ?); [lia|done|lia|done|].
    exists sigma. split_and!; [|by apply compact_verify_spec|done].
    unfold Compact.sign. rewrite get_period_buffer by (auto; lia). apply Hsign.
  - unfold buffer. by rewrite take_app_length' by by rewrite length_key_at.
  - rewrite derivable_layout by lia. by rewrite Nat2Z.id.
  - rewrite update_buffer by (auto; lia). destruct (_ =? _) eqn:Hlast; [done|]. rewrite Z.eqb_neq in Hlast.
    exists (buffer (S d) s (Z.of_nat n + 1)). split; [done|]. apply get_period_buffer; auto; lia.
Qed.
End kes.

(** ** An instance for the witness

    A verifying key is the sum of the bytes of the key; a signature has that sum and the
    sum of the message. *)
Import toy.
Module toy_keys.
Definition sum_of (b : bytes) : Z := foldr Z.add 0 b.

#[export] Instance ed25519 : Ed25519 := {|
  VerifyingKey := Z;
  vk_as_bytes k := k :: zeros 31;
  vk_from_bytes b := match b with k :: _ => Ok k | [] => Err "empty"%string end;
  verifying_key := sum_of;
  ed_sign sk m := sum_of sk :: sum_of m :: zeros 62;
  verify_strict k m s := if bool_decide (s = k :: sum_of m :: zeros 62) then Ok () else Err "not signed"%string
|}.

#[export] Instance laws : Ed25519Laws.
Proof.
  split; intros; try done.
  - cbn. by rewrite bool_decide_eq_true_2.
  - unfold Hasher_256. cbn [blake2b crypto]. rewrite length_take, length_app, length_replicate. lia.
Qed.
End toy_keys.
Import toy_keys.

Lemma kes_lifecycle_witness :
  exists key0 pk key,
    keygen 2 (zeros 228) (replicate 32 7) = Some (key0, pk, zeros 32) /\
    updates 2 3 key0 = Some (Ok (), key) /\ update 2 key = Some (Err Error.KeyCannotBeUpdatedMore, key).
Proof.
  destruct (kes_lifecycle 1 (zeros 228) (replicate 32 7) 3 [1; 2]) as (key0 & pk & key & Hk & Hu & _ & _ & _ & _ & _ & _ & Hl);
    [lia|reflexivity|reflexivity|reflexivity|]. exists key0, pk, key. split; [exact Hk|]. split; [exact Hu|exact Hl].
Defined.

(** *** Cases *)

(** The key of the single period is a buffer of 36 bytes, and signing with it converts all
    of them to an array of 32. *)
Lemma sum0_sign_panics `{Ed25519} key m :
  length key = (Sum0.SIZE + 4)%nat -> Sum0.sign key m = None /\ Compact.leaf_sign key m = None.
Proof. intros Hk. unfold Sum0.sign, Compact.leaf_sign, array_32. by rewrite Hk. Qed.

(** A signature of the last period verifies in any later one. *)
Example late_period_verifies :
  (key ← keygen 1 (zeros 132) (replicate 32 7);
   key' ← update 1 key.1.1;
   sigma ← Sum.sign 1 key'.2 [5];
   Sum.verify 1 sigma 1000 key.1.2 [5]) = Some (Ok ()).
Proof. vm_compute. reflexivity. Qed.

(** A signature of a wrong length is refused with the error of secret keys at depth zero. *)
Example sum0_signature_size : Sum0.signature_from_bytes (zeros 63) = Err (Error.InvalidSecretKeySize 63).
Proof. reflexivity. Qed.
