(* ===== verification/ShelleyProps.v ===== *)
(** * Properties of the validation of Shelley, Allegra and Mary

    What an accepted transaction satisfies: values are conserved with the deposits,
    inputs are witnessed; how the state of the delegations changes; and transactions
    that are refused or accepted against the rules. *)
From S2P Require Import Prelude Cbor Rfc8949 Effects Tree NativeScript Address AddressProps SlotTime.
From S2P Require Import LedgerTypes Assets ShelleyMA.
Import alonzo ShelleyMAError ValidationError.

(** The checks of an accepted transaction, one by one. *)
Section accepted.
Context `{Minicbor, ByronCodec, Cryptoxide}.
Context (mtx : Tx.t) (txix : Z) (utxos : UTxOs) (pps : ShelleyProtParams.t) (acnt : AccountState.t) (slot net : Z) (era : Era.t).
Context (cs cs' : CertState.t).

Definition body : TransactionBody.t := inner (Tx.transaction_body mtx).

Record accepted (counts : Counts) : Prop := {
  acc_ins : yields (check_ins_in_utxos body utxos) () () ();
  acc_ttl : yields (check_ttl body slot) () () ();
  acc_certs : yields (check_certificates txix acnt slot STAB_WIN pps (TransactionBody.certificates body))
    (cs, {| stk_dep_count := 0; stk_refund_count := 0; pool_count := 0 |}) () (cs', counts);
  acc_value : yields (check_preservation_of_value body utxos (stk_dep_count counts) (stk_refund_count counts)
    (pool_count counts) era pps) () () ();
  acc_fees : yields (check_fees body (get_alonzo_comp_tx_size mtx) pps) () () ();
  acc_network : yields (check_network_id body net) () () ();
  acc_witnesses : yields (check_witnesses (Tx.transaction_body mtx) (inner (Tx.transaction_witness_set mtx)) utxos) () () ();
  acc_minting : yields (check_minting body mtx) () () ()
}.

Lemma accepted_intro :
  validate_shelley_ma_tx mtx txix utxos pps acnt slot net era cs = Returned (Ok ()) cs' -> exists counts, accepted counts.
Proof.
  fold (yields (validate_shelley_ma_tx mtx txix utxos pps acnt slot net era) cs () cs').
  unfold validate_shelley_ma_tx. intros Hv. yields_steps. subst. eexists. split; eassumption.
Qed.
End accepted.

(** ** Deposits

    What the state holds: a deposit for every registered credential and one for every
    registered pool. *)
Definition key_deposits (cs : CertState.t) : Z := Z.of_nat (base.size (DState.rewards (CertState.dstate cs))).
Definition pool_deposits (cs : CertState.t) : Z := Z.of_nat (base.size (PState.pool_params (CertState.pstate cs))).

Definition deposits (pps : ShelleyProtParams.t) (cs : CertState.t) : Z :=
  ShelleyProtParams.key_deposit pps * key_deposits cs + ShelleyProtParams.pool_deposit pps * pool_deposits cs.

Lemma size_insert_new {K V} `{Countable K} (m : gmap K V) k v :
  m !! k = None -> Z.of_nat (base.size (<[k := v]> m)) = Z.of_nat (base.size m) + 1.
Proof. intros. rewrite map_size_insert_None by done. lia. Qed.

Lemma size_delete_present {K V} `{Countable K} (m : gmap K V) k v :
  m !! k = Some v -> Z.of_nat (base.size (delete k m)) = Z.of_nat (base.size m) - 1.
Proof.
  intros Hk. rewrite <- (insert_delete_id m k v Hk) at 2. rewrite size_insert_new by apply lookup_delete_eq. lia.
Qed.

Lemma insert_or_err_yields {K V} `{Countable K} (k : K) (v : V) e m a m' :
  yields (insert_or_err k v e) m a m' <-> m !! k = None /\ m' = <[k := v]> m.
Proof.
  unfold insert_or_err. split.
  - intros Hi. yields_steps. subst. destruct (m !! k); yields_steps. done.
  - intros [Hk ->]. eapply yields_bind; [by apply yields_get|]. rewrite Hk. by apply yields_put.
Qed.

(** The steps of the counters. *)
Definition counted (s s' : CertState.t * Counts) : Prop :=
  stk_dep_count s'.2 - stk_refund_count s'.2 - key_deposits s'.1 = stk_dep_count s.2 - stk_refund_count s.2 - key_deposits s.1 /\
  pool_count s'.2 - pool_deposits s'.1 = pool_count s.2 - pool_deposits s.1.

Lemma counted_trans s1 s2 s3 : counted s1 s2 -> counted s2 s3 -> counted s1 s3.
Proof. unfold counted. lia. Qed.

Lemma count_yields field update s s' :
  yields (count field update) s () s' <-> field s.2 + 1 < 2 ^ 64 /\ s' = (s.1, update (field s.2 + 1) s.2).
Proof.
  unfold count. split.
  - intros Hc. yields_steps. match goal with H : checked_add _ _ _ = _ |- _ => apply checked_add_Some in H as [? ->] end.
    by subst.
  - intros [Hf ->]. eapply yields_bind; [by apply yields_get|]. eapply yields_bind; [apply yields_eval; split; [|done]|].
    + by apply checked_add_Some.
    + by apply yields_put.
Qed.

(** A step on the state of the delegations alone, or of the pools. *)
Lemma on_dstate_yields {A} (m : comp ValidationError DState.t A) s a s' :
  yields (on_dstate m) s a s' <->
  exists ds, yields m (CertState.dstate s.1) a ds /\ s' = (CertState.mk (CertState.pstate s.1) ds, s.2).
Proof. unfold on_dstate. by rewrite yields_focus. Qed.
Lemma on_pstate_yields {A} (m : comp ValidationError PState.t A) s a s' :
  yields (on_pstate m) s a s' <->
  exists ps, yields m (CertState.pstate s.1) a ps /\ s' = (CertState.mk ps (CertState.dstate s.1), s.2).
Proof. unfold on_pstate. by rewrite yields_focus. Qed.

Lemma registration_yields stc ptr ds ds' :
  yields (check_stake_registration stc ptr) ds () ds' <->
  DState.rewards ds !! stc = None /\ DState.ptrs ds !! ptr = None /\
  ds' = set_ptrs (<[ptr := stc]> (DState.ptrs ds)) (set_rewards (<[stc := 0]> (DState.rewards ds)) ds).
Proof.
  unfold check_stake_registration. split.
  - intros Hr. yields_steps. repeat match goal with H : yields (insert_or_err _ _ _) _ _ _ |- _ => apply insert_or_err_yields in H as [? ->] end.
    done.
  - intros (H1 & H2 & ->). eapply (yields_bind _ _ _ ()); [apply yields_focus; eexists; split; [by apply insert_or_err_yields|done]|].
    apply yields_focus. eexists. split; [by apply insert_or_err_yields|done].
Qed.

Lemma deregistration_yields stc ds ds' :
  yields (check_stake_deregistration stc) ds () ds' <->
  DState.rewards ds !! stc = Some 0 /\
  ds' = set_rewards (delete stc (DState.rewards ds)) (set_delegations (delete stc (DState.delegations ds))
    (set_ptrs (filter (fun kv => kv.2 <> stc) (DState.ptrs ds)) ds)).
Proof.
  unfold check_stake_deregistration. split.
  - intros Hr. yields_steps. destruct (DState.rewards ds !! stc) as [[]|]; yields_steps. done.
  - intros (Hs & ->). eapply yields_bind; [by apply yields_get|]. rewrite Hs.
    repeat (eapply (yields_bind _ _ _ ()); [by apply yields_modify|]). by apply yields_modify.
Qed.

Lemma delegation_yields stc pk ps ds ds' :
  yields (check_stake_delegation stc pk ps) ds () ds' <->
  is_Some (PState.pool_params ps !! pk) /\ is_Some (DState.rewards ds !! stc) /\
  ds' = set_delegations (<[stc := pk]> (DState.delegations ds)) ds.
Proof.
  unfold check_stake_delegation. split.
  - intros Hr. yields_steps. destruct (PState.pool_params ps !! pk), (DState.rewards ds !! stc); yields_steps. split_and!; by try eexists.
  - intros ([? Hp] & [? Hs] & ->). eapply yields_bind; [by apply yields_get|]. rewrite Hp, Hs. by apply yields_put.
Qed.

Lemma pool_reg_yields pool param cost ps ps' :
  yields (check_pool_reg_or_update pool param cost) ps () ps' <->
  cost <= PoolParam.cost param /\
  ps' = match PState.pool_params ps !! pool with
        | Some _ => PState.mk (PState.pool_params ps) (<[pool := param]> (PState.fut_pool_params ps)) (delete pool (PState.retiring ps))
        | None => PState.mk (<[pool := param]> (PState.pool_params ps)) (PState.fut_pool_params ps) (PState.retiring ps)
        end.
Proof.
  unfold check_pool_reg_or_update. split.
  - intros Hr. yields_steps. destruct (Z.ltb_spec (PoolParam.cost param) cost); [yields_steps|].
    destruct (PState.pool_params ps !! pool); yields_steps; (split; [lia|done]).
  - intros (Hc & ->). eapply yields_bind; [by apply yields_get|]. rewrite (proj2 (Z.ltb_ge _ _)) by lia.
    destruct (PState.pool_params ps !! pool); by apply yields_put.
Qed.

Lemma retirement_yields pool repoch cepoch emax ps ps' :
  yields (check_pool_retirement pool repoch cepoch emax) ps () ps' <->
  is_Some (PState.pool_params ps !! pool) /\ cepoch + emax < 2 ^ 64 /\ cepoch < repoch <= cepoch + emax /\
  ps' = PState.mk (PState.pool_params ps) (PState.fut_pool_params ps) (<[pool := repoch]> (PState.retiring ps)).
Proof.
  unfold check_pool_retirement. split.
  - intros Hr. yields_steps. destruct (PState.pool_params ps !! pool); yields_steps.
    match goal with H : checked_add _ _ _ = _ |- _ => apply checked_add_Some in H as [? ->] end.
    destruct (Z.ltb_spec cepoch repoch), (Z.leb_spec repoch (cepoch + emax)); cbn [andb] in *; yields_steps.
    by split_and!.
  - intros ([? Hp] & Hs & Hr & ->). eapply yields_bind; [by apply yields_get|]. rewrite Hp.
    eapply yields_bind; [apply yields_eval; split; [by apply checked_add_Some|done]|].
    rewrite (proj2 (Z.ltb_lt _ _)), (proj2 (Z.leb_le _ _)) by lia. by apply yields_put.
Qed.

(** *** Instantaneous rewards *)
Lemma insert_all {K V} `{Countable K} (kvs : list (K * V)) (m : gmap K V) :
  NoDup kvs.*1 -> fold_left (fun m kv => <[kv.1 := kv.2]> m) kvs m = list_to_map kvs ∪ m.
Proof.
  revert m; induction kvs as [|[k v] kvs IH]; intros m Hd; [by cbn; rewrite map_empty_union|].
  apply NoDup_cons in Hd as [Hk Hd]. cbn [fold_left list_to_map foldr uncurry fst snd]. rewrite IH by done.
  rewrite <- insert_union_l. symmetry. apply insert_union_r. by apply not_elem_of_list_to_map_1.
Qed.

(** The rewards of a certificate joined with those of the pot, which win. *)
Definition credited (mir : MoveInstantaneousReward.t) (ir_pot : gmap StakeCredential Z) : gmap StakeCredential Z :=
  match MoveInstantaneousReward.target mir with
  | MoveInstantaneousReward.StakeCredentials kvp => ir_pot ∪ (i64_as_u64 <$> kvp)
  | MoveInstantaneousReward.OtherAccountingPot _ => ∅
  end.

Lemma combined_credited (kvp : gmap StakeCredential Z) (ir_pot : gmap StakeCredential Z) :
  fold_left (fun combined kv => <[kv.1 := kv.2]> combined)
    (((fun kv => (kv.1, i64_as_u64 kv.2)) <$> map_to_list kvp) ++ map_to_list ir_pot) ∅ = ir_pot ∪ (i64_as_u64 <$> kvp).
Proof.
  rewrite fold_left_app. rewrite (insert_all (_ <$> _)).
  - rewrite insert_all by apply NoDup_fst_map_to_list. rewrite list_to_map_to_list. f_equal.
    rewrite map_union_empty. rewrite <- (list_to_map_to_list (i64_as_u64 <$> kvp)). f_equal.
    by rewrite map_to_list_fmap.
  - rewrite <- list_fmap_compose. apply NoDup_fst_map_to_list.
Qed.

Definition total (m : gmap StakeCredential Z) : Z := foldr Z.add 0 (map_to_list m).*2.

Lemma checked_sum_yields xs n : checked_sum xs = Some n -> n = foldr Z.add 0 xs.
Proof.
  revert n; induction xs as [|x xs IH]; intros n; cbn [checked_sum foldr]; [by intros [= <-]|].
  fold (checked_sum xs). destruct (checked_sum xs) as [sum|]; [|done]. cbn. intros [_ ->]%checked_add_Some.
  by rewrite (IH sum).
Qed.

(** The pots after the certificate: one that draws on the treasury puts the rewards of
    the treasury in the place of those of the reserves, and the other way round. *)
Lemma mir_yields mir slot stab_win acnt ds ds' :
  yields (check_mir mir slot stab_win acnt) ds () ds' ->
  exists epoch first, to_epoch mainnet slot = Some epoch /\ first_slot mainnet (epoch + 1) = Some first /\
    stab_win <= first /\ slot < first - stab_win /\
    match MoveInstantaneousReward.source mir with
    | MoveInstantaneousReward.Reserves =>
        total (credited mir (DState.inst_rewards ds).1) <= AccountState.reserves acnt /\
        ds' = set_inst_rewards (credited mir (DState.inst_rewards ds).1, (DState.inst_rewards ds).1) ds
    | MoveInstantaneousReward.Treasury =>
        total (credited mir (DState.inst_rewards ds).2) <= AccountState.treasury acnt /\
        ds' = set_inst_rewards ((DState.inst_rewards ds).2, credited mir (DState.inst_rewards ds).2) ds
    end.
Proof.
  unfold check_mir. intros Hm. yields_steps. repeat match goal with
    | H : checked_add _ _ _ = _ |- _ => apply checked_add_Some in H as [? ->]
    | H : checked_sub _ _ = _ |- _ => apply checked_sub_Some in H as [? ->] end.
  match type of Hm with yields (if ?b then _ else _) _ _ _ => destruct b eqn:Hl end; [yields_steps|].
  apply Z.leb_gt in Hl. do 2 eexists. split_and!; [done|done|lia|lia|]. yields_steps. unfold credited.
  destruct (DState.inst_rewards _) as [r t], (MoveInstantaneousReward.source mir), (MoveInstantaneousReward.target mir);
    cbn [fst snd] in *; rewrite ?combined_credited in Hm; yields_steps;
    match type of Hm with yields (if ?b then _ else _) _ _ _ => destruct b eqn:Ht end; yields_steps;
    match goal with H : checked_sum _ = _ |- _ => apply checked_sum_yields in H as -> end;
    apply Z.ltb_ge in Ht; done.
Qed.

Lemma genesis_yields gkh dkh vrf slot stab_win ds ds' :
  yields (check_genesis_key_delegation gkh dkh vrf slot stab_win) ds () ds' ->
  is_Some (DState.gen_delegs ds !! gkh) /\
  ds' = set_fut_gen_delegs (<[(slot + stab_win, gkh) := (dkh, vrf)]> (DState.fut_gen_delegs ds)) ds /\
  (forall g d, DState.gen_delegs ds !! g = Some d -> g <> gkh -> d.1 <> dkh /\ d.2 <> vrf) /\
  (forall k d, DState.fut_gen_delegs ds !! k = Some d -> k.2 <> gkh -> d.1 <> dkh /\ d.2 <> vrf).
Proof.
  unfold check_genesis_key_delegation. intros Hg. yields_steps. match goal with H : yields (if ?b then _ else _) _ _ _ |- _ => destruct b eqn:Hb end;
    [yields_steps|].
  rewrite !orb_false_iff, !bool_decide_eq_false in Hb. destruct Hb as [[[Hc Hf] Hcv] Hfv].
  destruct (DState.gen_delegs ds !! gkh) as [d|]; yields_steps.
  match goal with H : checked_add _ _ _ = _ |- _ => apply checked_add_Some in H as [? ->] end. split_and!; [by eexists|done|..].
  - intros g e He Hgk. assert (e ∈ (map_to_list (filter (fun kv => kv.1 <> gkh) (DState.gen_delegs ds))).*2) as He'.
    { apply list_elem_of_fmap. exists (g, e). split; [done|]. by apply elem_of_map_to_list, map_lookup_filter_Some. }
    split; intros <-; [apply Hc|apply Hcv]; by apply list_elem_of_fmap_2.
  - intros k e He Hgk. assert (e ∈ (map_to_list (filter (fun kv => kv.1.2 <> gkh) (DState.fut_gen_delegs ds))).*2) as He'.
    { apply list_elem_of_fmap. exists (k, e). split; [done|]. by apply elem_of_map_to_list, map_lookup_filter_Some. }
    split; intros <-; [apply Hf|apply Hfv]; by apply list_elem_of_fmap_2.
Qed.

(** *** One certificate, and all of them *)
Section certificates.
Context (txix : Z) (acnt : AccountState.t) (slot stab_win : Z) (pps : ShelleyProtParams.t).

Lemma certificate_counted cert ptr cepoch s s' :
  yields (check_certificate acnt slot stab_win pps cert ptr cepoch) s () s' -> counted s s'.
Proof.
  destruct cert; cbn [check_certificate]; unfold count_stk_dep, count_stk_refund, count_pool; intros Hs; yields_steps;
  repeat match goal with
  | H : yields (count _ _) _ _ _ |- _ => apply count_yields in H as [_ ->]
  | H : yields (on_dstate _) _ _ _ |- _ => apply on_dstate_yields in H as (ds & H & ->)
  | H : yields (on_pstate _) _ _ _ |- _ => apply on_pstate_yields in H as (ps & H & ->)
  | H : yields (check_stake_registration _ _) _ _ _ |- _ => apply registration_yields in H as (? & ? & ->)
  | H : yields (check_stake_deregistration _) _ _ _ |- _ => apply deregistration_yields in H as (? & ->)
  | H : yields (check_stake_delegation _ _ _) _ _ _ |- _ => apply delegation_yields in H as (? & ? & ->)
  | H : yields (check_pool_retirement _ _ _ _) _ _ _ |- _ => apply retirement_yields in H as (? & ? & ? & ->)
  | H : yields (check_genesis_key_delegation _ _ _ _ _) _ _ _ |- _ => apply genesis_yields in H as (? & -> & _)
  | H : yields (check_mir _ _ _ _) _ _ _ |- _ =>
      apply mir_yields in H as (? & ? & _ & _ & _ & _ & H); destruct (MoveInstantaneousReward.source _); destruct H as [_ ->]
  end; unfold counted, key_deposits, pool_deposits; cbn [fst snd stk_dep_count stk_refund_count pool_count set_rewards
    set_ptrs set_delegations set_fut_gen_delegs set_inst_rewards DState.rewards CertState.dstate CertState.pstate PState.pool_params]; try lia.
  - rewrite size_insert_new by done. lia.
  - erewrite size_delete_present by done. lia.
  - apply pool_reg_yields in Hs as [_ ->].
    match goal with H : yields (match ?x with _ => _ end) _ _ _ |- _ => destruct x eqn:Hop end; yields_steps.
    + rewrite Hop. cbn [PState.pool_params fst snd]. lia.
    + match goal with H : yields (count _ _) _ _ _ |- _ => apply count_yields in H as [_ ->] end. cbn [fst snd] in *.
      rewrite Hop. cbn [PState.pool_params pool_count stk_dep_count stk_refund_count]. rewrite size_insert_new by done. lia.
Qed.

Lemma certificates_loop_counted certs ix ptr cepoch s s' :
  yields (certificates_loop acnt slot stab_win pps certs ix ptr cepoch) s () s' -> counted s s'.
Proof.
  revert ix ptr s; induction certs as [|cert certs IH]; intros ix ptr s; cbn [certificates_loop]; intros Hs; yields_steps; [done|].
  eapply counted_trans; [by eapply certificate_counted|by eapply IH].
Qed.

Lemma certificates_counted certs s s' :
  yields (check_certificates txix acnt slot stab_win pps certs) s () s' -> counted s s'.
Proof.
  destruct certs as [certs|]; cbn [check_certificates]; intros Hs; yields_steps; [|done]. by eapply certificates_loop_counted.
Qed.
End certificates.

(** ** Conservation of values *)
Definition sum_of {A} (f : A -> Z) (xs : list A) : Z := foldr Z.add 0 (f <$> xs).

Definition input_value (utxos : UTxOs) (input : TransactionInput.t) : Value :=
  match utxo utxos input with
  | Some out =>
      match MultiEraOutput.as_alonzo out, MultiEraOutput.as_byron out with
      | Some out, _ => TransactionOutput.amount out
      | None, Some out => Value.Coin (byron.TxOut.amount out)
      | None, None => Value.Coin 0
      end
  | None => Value.Coin 0
  end.

(** A loop that adds the values of a list. *)
Lemma values_sum {A} (val : A -> Value) (f : Value -> A -> check Value) err xs res r :
  (forall res x r, yields (f res x) () r () -> yields (add_values res (val x) err) () r ()) ->
  small res -> Forall (fun x => small (val x)) xs -> yields (for_fold f res xs) () r () ->
  lovelace r = lovelace res + sum_of (fun x => lovelace (val x)) xs /\
  (forall p n, quantity r p n = quantity res p n + sum_of (fun x => quantity (val x) p n) xs) /\ small r /\
  (forall p, p ∈ policies r <-> p ∈ policies res \/ Exists (fun x => p ∈ policies (val x)) xs).
Proof.
  intros Hf. revert res; induction xs as [|x xs IH]; intros res Hres Hxs; cbn [for_fold].
  { intros Hr. apply check_ret in Hr as <-. unfold sum_of. cbn. split_and!; [lia|intros; lia|done|].
    intros p. rewrite Exists_nil. naive_solver. }
  intros (y & Hy%Hf & Hr)%check_bind. apply Forall_cons in Hxs as [Hx Hxs].
  apply add_values_yields in Hy as (Hl & _ & Hq & Hp & Hy); [|done..].
  apply IH in Hr as (Hl' & Hq' & Hr & Hp'); [|done..]. unfold sum_of in *. cbn. split_and!; [lia|intros; rewrite Hq', Hq; lia|done|].
  intros p. rewrite Hp', Hp, Exists_cons, elem_of_union. tauto.
Qed.

Section values.
Context `{Minicbor, ByronCodec, Cryptoxide}.
Context (tx_body : TransactionBody.t) (utxos : UTxOs) (era : Era.t) (pps : ShelleyProtParams.t).

(** Amounts that [as i64] does not change. *)
Record small_amounts : Prop := {
  small_inputs : Forall (fun i => small (input_value utxos i)) (TransactionBody.inputs tx_body);
  small_outputs : Forall (fun o => small (TransactionOutput.amount o)) (TransactionBody.outputs tx_body);
  small_mint : amounts in_i64 (default ∅ (TransactionBody.mint tx_body))
}.
Context (Hsmall : small_amounts).

Definition minted (p n : bytes) : Z := quantity_of (default ∅ (TransactionBody.mint tx_body)) p n.

Ltac arithmetic :=
  repeat match goal with
  | H : checked_add _ _ _ = _ |- _ => apply checked_add_Some in H as [? ->]
  | H : checked_mul _ _ _ = _ |- _ => apply checked_mul_Some in H as [? ->]
  end.

Lemma consumed_sum refunds r :
  yields (get_consumed tx_body utxos refunds era pps) () r () ->
  lovelace r = sum_of (fun i => lovelace (input_value utxos i)) (TransactionBody.inputs tx_body) +
    ShelleyProtParams.key_deposit pps * refunds /\
  (forall p n, quantity r p n = sum_of (fun i => quantity (input_value utxos i) p n) (TransactionBody.inputs tx_body) + minted p n) /\
  (forall p, p ∈ policies r <-> Exists (fun i => p ∈ policies (input_value utxos i)) (TransactionBody.inputs tx_body) \/
    p ∈ dom (default ∅ (TransactionBody.mint tx_body))).
Proof.
  destruct Hsmall as [Hin _ Hm]. unfold get_consumed. intros (v & Hv & (n & [Hn _]%yields_eval & (w & Hw & Hr)%check_bind)%check_bind)%check_bind.
  arithmetic. eapply values_sum with (val := input_value utxos) in Hv as (Hl & Hq & Hsv & Hp); [| |by apply map_Forall_empty|done].
  1: change (lovelace empty_value) with 0 in Hl.
  2: { intros res x y Hy. apply check_bind in Hy as (o & Ho & Hy). unfold input_value. destruct (utxo utxos x) as [o'|]; [|done].
    apply check_ret in Ho as ->. destruct (MultiEraOutput.as_alonzo o) as [[a [c|c ma] d]|]; cbn [TransactionOutput.amount] in *.
    - done.
    - by destruct era.
    - by destruct (MultiEraOutput.as_byron o). }
  apply add_values_yields in Hw as (Hlw & _ & Hqw & Hpw & Hsw); [|done..]. cbn [quantity policies get_lovelace_from_alonzo_val] in *.
  unfold minted. destruct (TransactionBody.mint tx_body) as [m|]; cbn [default from_option id] in *.
  - apply add_minted_yields in Hr as (Hlr & Hqr & Hpr & _); [|done..]. split_and!; [lia|intros; rewrite Hqr, Hqw, Hq; cbn; rewrite quantity_empty; lia|].
    intros p. rewrite Hpr, Hpw, !elem_of_union, Hp. cbn. set_solver.
  - apply check_ret in Hr as <-. split_and!; [lia|intros; rewrite Hqw, Hq; cbn; rewrite !quantity_empty; lia|].
    intros p. rewrite Hpw, elem_of_union, Hp. cbn. set_solver.
Qed.

Lemma produced_sum deps pools r :
  yields (get_produced tx_body deps pools era pps) () r () ->
  lovelace r = sum_of (fun o => lovelace (TransactionOutput.amount o)) (TransactionBody.outputs tx_body) +
    TransactionBody.fee tx_body + ShelleyProtParams.pool_deposit pps * pools + ShelleyProtParams.key_deposit pps * deps /\
  (forall p n, quantity r p n = sum_of (fun o => quantity (TransactionOutput.amount o) p n) (TransactionBody.outputs tx_body)) /\
  (forall p, p ∈ policies r <-> Exists (fun o => p ∈ policies (TransactionOutput.amount o)) (TransactionBody.outputs tx_body)).
Proof.
  destruct Hsmall as [_ Hout _]. unfold get_produced.
  intros (v & Hv & (w & Hw & (a & [Ha _]%yields_eval & (b & [Hb _]%yields_eval & (c & [Hc _]%yields_eval & Hr)%check_bind)%check_bind)%check_bind)%check_bind)%check_bind.
  arithmetic. eapply values_sum with (val := TransactionOutput.amount) in Hv as (Hl & Hq & Hsv & Hp); [| |by apply map_Forall_empty|done].
  1: change (lovelace empty_value) with 0 in Hl.
  2: { intros res x y Hy. destruct (TransactionOutput.amount x); [done|by destruct era]. }
  apply add_values_yields in Hw as (Hlw & _ & Hqw & Hpw & Hsw); [|done..].
  apply add_values_yields in Hr as (Hlr & _ & Hqr & Hpr & _); [|done..]. cbn [quantity policies get_lovelace_from_alonzo_val] in *.
  split_and!; [lia|intros; rewrite Hqr, Hqw, Hq; cbn; rewrite quantity_empty; lia|].
  intros p. rewrite Hpr, Hpw, !elem_of_union, Hp. cbn. set_solver.
Qed.

Lemma preserved deps refunds pools :
  yields (check_preservation_of_value tx_body utxos deps refunds pools era pps) () () () ->
  sum_of (fun i => lovelace (input_value utxos i)) (TransactionBody.inputs tx_body) + ShelleyProtParams.key_deposit pps * refunds =
    sum_of (fun o => lovelace (TransactionOutput.amount o)) (TransactionBody.outputs tx_body) + TransactionBody.fee tx_body +
    ShelleyProtParams.pool_deposit pps * pools + ShelleyProtParams.key_deposit pps * deps /\
  (forall p n, sum_of (fun i => quantity (input_value utxos i) p n) (TransactionBody.inputs tx_body) + minted p n =
    sum_of (fun o => quantity (TransactionOutput.amount o) p n) (TransactionBody.outputs tx_body)) /\
  (forall p, Exists (fun i => p ∈ policies (input_value utxos i)) (TransactionBody.inputs tx_body) \/
      p ∈ dom (default ∅ (TransactionBody.mint tx_body)) ->
    Exists (fun o => p ∈ policies (TransactionOutput.amount o)) (TransactionBody.outputs tx_body)).
Proof.
  intros (c & (Hlc & Hqc & Hpc)%consumed_sum & (q & (Hlp & Hqp & Hpp)%produced_sum & Hr)%check_bind)%check_bind.
  destruct (values_are_equal c q) eqn:He; [|done]. apply values_are_equal_spec in He as (Hl & Hp & Hq).
  split_and!; [lia|intros; rewrite <- Hqc, <- Hqp; done|]. intros p Hpo. by rewrite <- Hpp, <- Hp, Hpc.
Qed.
End values.

Section conserved.
Context `{Minicbor, ByronCodec, Cryptoxide}.

(** C7: what a transaction that is accepted consumes is what it produces, with the deposits the ledger
    holds before and after it: lovelace, with the fee among what is produced and deposits for every registered
    credential and pool, and every asset, with what is minted among what is consumed.  (docs/shelleyMA.md counts the
    fee twice and what is minted twice, both as produced: its equation is not what the code checks.)  Amounts of
    assets are those that [as i64] does not change, as beyond them assets can be forged ([forged_by_a_cast]).  An
    input that is named twice counts twice ([repeated_input_counts_twice]). *)
Theorem value_conserved mtx txix utxos pps acnt slot net era cs cs' :
  small_amounts (body mtx) utxos ->
  validate_shelley_ma_tx mtx txix utxos pps acnt slot net era cs = Returned (Ok ()) cs' ->
  sum_of (fun i => lovelace (input_value utxos i)) (TransactionBody.inputs (body mtx)) + deposits pps cs =
    sum_of (fun o => lovelace (TransactionOutput.amount o)) (TransactionBody.outputs (body mtx)) +
    TransactionBody.fee (body mtx) + deposits pps cs' /\
  forall p n, sum_of (fun i => quantity (input_value utxos i) p n) (TransactionBody.inputs (body mtx)) + minted (body mtx) p n =
    sum_of (fun o => quantity (TransactionOutput.amount o) p n) (TransactionBody.outputs (body mtx)).
Proof.
  intros Hsmall Hv. apply accepted_intro in Hv as [counts [_ _ Hc Hp _ _ _ _]].
  apply preserved in Hp as (Hl & Hq & _); [|done]. split; [|done].
  apply certificates_counted in Hc as [Hk Hpool]. cbn [fst snd stk_dep_count stk_refund_count pool_count] in *.
  unfold deposits. nia.
Qed.
End conserved.

(** ** Native scripts *)

(** Who signs, and when, satisfies a script. *)
Inductive satisfies (keys : list bytes) (slot : Z) : NativeScript -> Prop :=
| satisfies_key h : h ∈ keys -> satisfies keys slot (ScriptPubkey h)
| satisfies_all xs : (forall x, x ∈ xs -> satisfies keys slot x) -> satisfies keys slot (ScriptAll xs)
| satisfies_any x xs : x ∈ xs -> satisfies keys slot x -> satisfies keys slot (ScriptAny xs)
| satisfies_n n xs ys : sublist ys xs -> n <= Z.of_nat (length ys) -> (forall y, y ∈ ys -> satisfies keys slot y) ->
    satisfies keys slot (ScriptNOfK n xs)
| satisfies_before v : v <= slot -> satisfies keys slot (InvalidBefore v)
| satisfies_hereafter v : slot < v -> satisfies keys slot (InvalidHereafter v).

Lemma sum_bools {A} (P : A -> bool) xs acc :
  fold_left Z.add ((fun x => Z.b2z (P x)) <$> xs) acc = acc + Z.of_nat (length (filter (fun b => b = true) (P <$> xs))).
Proof.
  revert acc; induction xs as [|x xs IH]; intros acc; cbn [fold_left fmap list_fmap]; [cbn; lia|]. rewrite IH.
  rewrite filter_cons. destruct (P x); case_decide; try done; cbn [Z.b2z length]; lia.
Qed.

(** A sublist of elements with a decidable property is as long as those that have it. *)
Lemma sublist_count {A} (P : A -> bool) (ys xs : list A) :
  sublist ys xs -> (forall y, y ∈ ys -> P y = true) -> (length ys <= length (filter (fun b => b = true) (P <$> xs)))%nat.
Proof.
  intros Hs. induction Hs as [|x ys xs Hs IH|x ys xs Hs IH]; intros Hy; cbn [fmap list_fmap length]; [lia|..].
  - rewrite filter_cons_True by (apply Hy; by left). cbn. apply le_n_S, IH. intros y Hin. apply Hy. by right.
  - rewrite filter_cons. case_decide; cbn; [|by apply IH]. specialize (IH Hy). lia.
Qed.

Lemma count_sublist {A} (P : A -> bool) (xs : list A) :
  exists ys, sublist ys xs /\ length ys = length (filter (fun b => b = true) (P <$> xs)) /\ forall y, y ∈ ys -> P y = true.
Proof.
  exists (filter (fun x => P x = true) xs). split_and!.
  - apply sublist_filter.
  - induction xs as [|x xs IH]; [done|]. cbn [fmap list_fmap]. rewrite !filter_cons. case_decide; cbn; [by rewrite IH|done].
  - intros y [? _]%list_elem_of_filter. done.
Qed.

Lemma existsb_exists_elem {A} (f : A -> bool) xs : existsb f xs = true <-> exists x, x ∈ xs /\ f x = true.
Proof. rewrite existsb_exists. by setoid_rewrite list_elem_of_In. Qed.
Lemma forallb_forall_elem {A} (f : A -> bool) xs : forallb f xs = true <-> forall x, x ∈ xs -> f x = true.
Proof. rewrite forallb_forall. by setoid_rewrite list_elem_of_In. Qed.

Section scripts.
Context `{Cryptoxide}.

Definition key_hashes (wits : list VKeyWitness.t) : list bytes := (fun w => Hasher_224 (VKeyWitness.vkey w)) <$> wits.

(** More room makes a script no more satisfied. *)
Definition within (low upp low' upp' : option Z) : Prop :=
  (forall a, low = Some a -> exists a', low' = Some a' /\ a <= a') /\
  (forall b, upp = Some b -> exists b', upp' = Some b' /\ b' <= b).

Lemma eval_within wits s low upp low' upp' :
  within low upp low' upp' -> eval_native_script wits s low upp = true -> eval_native_script wits s low' upp' = true.
Proof.
  intros [Hlow Hupp]. induction s as [s IH] using tree_ind. cbn [kids NativeScript_tree children NativeScript_node] in IH.
  destruct s as [h|xs|xs|n xs|v|v|[]]; cbn [eval_native_script children_of from_option id] in *.
  - done.
  - rewrite !forallb_forall_elem. eauto.
  - rewrite !existsb_exists_elem. intros (x & ? & ?). eauto.
  - rewrite !Z.leb_le, !sum_bools. intros Hn. etransitivity; [exact Hn|].
    destruct (count_sublist (fun scr => eval_native_script wits scr low upp) xs) as (ys & Hys & <- & Hy).
    assert (length ys <= length (filter (fun b => b = true) ((fun scr => eval_native_script wits scr low' upp') <$> xs)))%nat; [|lia].
    apply sublist_count; [done|]. intros y Hin. apply IH; [|by apply Hy]. by eapply sublist_subseteq.
  - destruct low as [a|]; [|done]. destruct (Hlow a) as (a' & -> & ?); [done|]. rewrite !Z.leb_le. lia.
  - destruct upp as [b|]; [|done]. destruct (Hupp b) as (b' & -> & ?); [done|]. rewrite !Z.leb_le. lia.
Qed.

(** In the interval of one slot a script holds when it is satisfied. *)
Lemma eval_at_slot wits s slot :
  eval_native_script wits s (Some slot) (Some (slot + 1)) = true <-> satisfies (key_hashes wits) slot s.
Proof.
  induction s as [s IH] using tree_ind. cbn [kids NativeScript_tree children NativeScript_node] in IH.
  destruct s as [h|xs|xs|n xs|v|v|[]]; cbn [eval_native_script children_of from_option id] in *.
  - rewrite existsb_exists_elem. setoid_rewrite bool_decide_eq_true. split.
    + intros (w & Hw & <-). constructor. by apply (list_elem_of_fmap_2 (fun w => Hasher_224 (VKeyWitness.vkey w))).
    + intros Hs. inversion Hs as [? Hh| | | | |]; subst. apply list_elem_of_fmap in Hh as (w & -> & ?). eauto.
  - rewrite forallb_forall_elem. split.
    + intros Hx. constructor. intros x Hin. by apply IH, Hx.
    + intros Hs. inversion Hs; subst. intros x Hin. apply IH; auto.
  - rewrite existsb_exists_elem. split.
    + intros (x & Hin & Hx). econstructor; [done|]. by apply IH.
    + intros Hs. inversion Hs; subst. eexists. split; [done|]. by apply IH.
  - rewrite Z.leb_le, sum_bools. split.
    + intros Hn. destruct (count_sublist (fun scr => eval_native_script wits scr (Some slot) (Some (slot + 1))) xs) as (ys & Hys & Hl & Hy).
      econstructor; [exact Hys|lia|]. intros y Hin. apply IH; [by eapply sublist_subseteq|by apply Hy].
    + intros Hs. inversion Hs as [| | |? ? ys Hys Hn Hy| |]; subst.
      pose proof (sublist_count (fun scr => eval_native_script wits scr (Some slot) (Some (slot + 1))) ys xs Hys) as Hc.
      rewrite Z.add_0_l. etransitivity; [exact Hn|]. apply Nat2Z.inj_le, Hc. intros y Hin.
      apply IH; [by eapply sublist_subseteq|by apply Hy].
  - rewrite Z.leb_le. split; [by constructor|by inversion 1].
  - rewrite Z.leb_le. split; [constructor; lia|inversion 1; lia].
Qed.
End scripts.

(** C16: a native script that the validator finds satisfied, with the keys of the witnesses and the validity
    interval of the transaction, is satisfied by these keys in every slot of the interval, its end excluded; and for the
    interval of a single slot the evaluation is exact.  A bound that is missing satisfies no time lock on its side. *)
Theorem native_script_sound `{Cryptoxide} wits s low upp :
  (eval_native_script wits s low upp = true ->
    forall slot, (forall a, low = Some a -> a <= slot) -> (forall b, upp = Some b -> slot < b) ->
    satisfies (key_hashes wits) slot s) /\
  forall slot, eval_native_script wits s (Some slot) (Some (slot + 1)) = true <-> satisfies (key_hashes wits) slot s.
Proof.
  split; [|intros; apply eval_at_slot]. intros He slot Hlow Hupp. apply eval_at_slot. eapply eval_within; [|exact He].
  split; [intros a Ha; exists slot; auto|]. intros b Hb. exists (slot + 1). specialize (Hupp b Hb). split; [done|lia].
Qed.

(** ** Witnesses *)
Section witnesses.
Context `{MinicborLaws, ByronCodec, Cryptoxide}.

(** A witness of the transaction whose key has this hash and whose signature holds. *)
Definition signed_by (hash data : bytes) (wits : list VKeyWitness.t) : Prop :=
  exists w, w ∈ wits /\ Hasher_224 (VKeyWitness.vkey w) = hash /\ verify_signature w data = Some true.

(** The hash is that of a prefix of the scripts: the code does not clear its buffer. *)
Definition script_of (hash : bytes) (scripts : list NativeScript) : Prop :=
  exists pre s post, scripts = pre ++ s :: post /\ Hasher_224 (0 :: concat (script_wire <$> pre ++ [s])) = hash.

Lemma mark_vk_wit_yields h data wits wits' :
  yields (mark_vk_wit h data wits) () wits' () -> wits'.*2 = wits.*2 /\ signed_by h data wits.*2.
Proof.
  revert wits'; induction wits as [|[found w] wits IH]; intros wits'; cbn [mark_vk_wit]; [done|].
  case_bool_decide as Hh.
  - intros (valid & [Hv _]%yields_eval & Hr)%check_bind. destruct valid; [|done]. apply check_ret in Hr as <-.
    split; [done|]. exists w. split_and!; [by left|done..].
  - intros (r & Hr & <-%check_ret)%check_bind. apply IH in Hr as [Hw (v & ? & ?)]. cbn. split; [by f_equal|].
    exists v. split; [by right|done].
Qed.

Lemma encode_script_yields s p p' :
  valid_script s -> yields (encode_script s p) () p' () <-> p' = p ++ script_wire s.
Proof.
  intros Hs. unfold encode_script. rewrite script_encode_wire by done. rewrite check_ret. naive_solver.
Qed.

Lemma find_script_yields h pre scripts :
  Forall valid_script (pre ++ scripts) -> yields (find_script h (0 :: concat (script_wire <$> pre)) scripts) () () () ->
  script_of h (pre ++ scripts).
Proof.
  revert pre; induction scripts as [|s scripts IH]; intros pre Hv; cbn [find_script]; [done|].
  intros (p & Hp & Hr)%check_bind. apply encode_script_yields in Hp as ->;
    [|by apply Forall_app in Hv as [_ [Hs _]%Forall_cons]].
  case_bool_decide as Hh.
  - exists pre, s, scripts. split; [done|]. rewrite <- Hh. do 2 f_equal. rewrite fmap_app, concat_app. cbn. by rewrite app_nil_r.
  - replace (pre ++ s :: scripts) with ((pre ++ [s]) ++ scripts) in * by by rewrite <- app_assoc. apply IH; [done|].
    rewrite fmap_app, concat_app. cbn. by rewrite app_nil_r.
Qed.

(** What is asked of the witnesses for the output of an input. *)
Definition witnessed (tx_wits : WitnessSet.t) (tx_hash : bytes) (wits : list VKeyWitness.t) (out : TransactionOutput.t) : Prop :=
  exists addr, get_shelley_address (TransactionOutput.address out) () = Returned (Ok (Some addr)) () /\
    match ShelleyAddress.payment addr with
    | ShelleyPaymentPart.Key h => signed_by h tx_hash wits
    | ShelleyPaymentPart.Script h => exists scripts, WitnessSet.native_script tx_wits = Some scripts /\ script_of h (map inner scripts)
    end.

Context (tx_wits : WitnessSet.t) (utxos : UTxOs) (tx_hash : bytes).
Definition scripts_of : list NativeScript := map inner (default [] (WitnessSet.native_script tx_wits)).
Context (Hscripts : Forall valid_script scripts_of).

Lemma input_witness_yields input wits wits' :
  yields (check_input_witness tx_wits utxos tx_hash input) wits () wits' ->
  wits'.*2 = wits.*2 /\
  exists o, utxo utxos input = Some o /\
    forall out, MultiEraOutput.as_alonzo o = Some out -> witnessed tx_wits tx_hash wits.*2 out.
Proof.
  unfold check_input_witness. destruct (utxo utxos input) as [o|]; [|done].
  destruct (MultiEraOutput.as_alonzo o) as [out|] eqn:Ho; intros Hr; yields_steps.
  2: { split; [done|]. exists o. split; [done|]. by rewrite Ho. }
  match goal with H : yields (get_payment_part _) _ _ _ |- _ => apply check_bind in H as (addr & Ha & Hpart) end.
  apply check_ret in Hpart as <-. destruct addr as [addr|]; cbn [fmap option_fmap option_map ok_or] in *; yields_steps.
  destruct (ShelleyAddress.payment addr) as [h|h] eqn:Hp.
  - unfold check_vk_wit in Hr. yields_steps.
    match goal with H : yields (mark_vk_wit _ _ _) _ _ _ |- _ => apply mark_vk_wit_yields in H as [? ?] end.
    split; [done|]. exists o. split; [done|]. rewrite Ho. intros ? [= <-]. exists addr. split; [done|]. by rewrite Hp.
  - yields_steps. split; [done|]. exists o. split; [done|]. rewrite Ho. intros ? [= <-]. exists addr. split; [done|]. rewrite Hp.
    unfold check_native_script_witness in *. destruct (WitnessSet.native_script tx_wits) as [scripts|] eqn:Hs; cbn [option_map] in *; [|yields_steps].
    exists scripts. split; [done|]. apply (find_script_yields h []); [|done]. unfold scripts_of in Hscripts. by rewrite Hs in Hscripts.
Qed.

Lemma all_differ_yields policy scripts :
  Forall valid_script scripts -> yields (all_differ policy scripts) () false () ->
  exists s, s ∈ scripts /\ Hasher_224 (0 :: script_wire s) = policy.
Proof.
  induction scripts as [|s scripts IH]; cbn [all_differ]; intros Hv; [done|]. apply Forall_cons in Hv as [Hs Hv].
  intros (h & Hh & Hr)%check_bind. apply check_bind in Hh as (p & Hp & <-%check_ret).
  apply encode_script_yields in Hp as ->; [|done]. case_bool_decide as He.
  - exists s. split; [by left|done].
  - apply IH in Hr as (t & ? & ?); [|done]. exists t. split; [by right|done].
Qed.
End witnesses.

Lemma witnesses_yields `{MinicborLaws, ByronCodec, Cryptoxide} tx_body tx_wits utxos :
  let wits := default [] (WitnessSet.vkeywitness tx_wits) in
  Forall valid_script (scripts_of tx_wits) -> yields (check_witnesses tx_body tx_wits utxos) () () () ->
  Forall (fun input => exists o, utxo utxos input = Some o /\
    forall out, MultiEraOutput.as_alonzo o = Some out -> witnessed tx_wits (Hasher_256 (raw_cbor tx_body)) wits out)
    (TransactionBody.inputs (inner tx_body)) /\
  Forall (fun s => eval_native_script wits s (TransactionBody.validity_interval_start (inner tx_body))
    (TransactionBody.ttl (inner tx_body)) = true) (scripts_of tx_wits).
Proof.
  intros wits Hscripts. unfold check_witnesses. intros (ws & Hws & Hw)%check_bind.
  unfold mk_alonzo_vk_wits_check_list in Hws. apply check_bind in Hws as (l & Hl & <-%check_ret).
  assert (wits = l) as ->.
  { unfold wits. by destruct (WitnessSet.vkeywitness _); [apply check_ret in Hl as ->|]. }
  apply locally_yields in Hw as (st & Hw & _). yields_steps.
  match goal with H : yields (for_each (check_input_witness _ _ _) _) _ _ _ |- _ =>
    eapply (for_each_yields _ _ _ _ _ (fun ws => ws.*2 = l)) in H as [Hst Hins] end.
  - split; [exact Hins|]. match goal with H : yields (check_native_scripts _ _ _ _) _ _ _ |- _ => rewrite Hst in H; rename H into Hns end.
    unfold check_native_scripts in Hns. apply for_each_check with (P := fun s => eval_native_script l s
      (TransactionBody.validity_interval_start (inner tx_body)) (TransactionBody.ttl (inner tx_body)) = true) in Hns.
    + unfold scripts_of. by destruct (WitnessSet.native_script tx_wits).
    + intros s Hs. by destruct (eval_native_script _ _ _ _).
  - cbv beta. intros input w w' Hwl Hi. apply input_witness_yields in Hi as [Hw' Ho]; [|done]. rewrite Hwl in Hw', Ho.
    split; [done|exact Ho].
  - rewrite <- list_fmap_compose. by rewrite list_fmap_id.
Qed.

Lemma minting_yields `{MinicborLaws, Cryptoxide} tx_body mtx p :
  Forall valid_script (scripts_of (inner (Tx.transaction_witness_set mtx))) ->
  yields (check_minting tx_body mtx) () () () -> p ∈ dom (default ∅ (TransactionBody.mint tx_body)) ->
  exists s, s ∈ scripts_of (inner (Tx.transaction_witness_set mtx)) /\ Hasher_224 (0 :: script_wire s) = p.
Proof.
  intros Hscripts. unfold check_minting. destruct (TransactionBody.mint tx_body) as [m|]; cbn [default from_option id]; [|set_solver].
  intros Hm [a Hp]%elem_of_dom. apply for_each_check with (P := fun policy =>
    exists s, s ∈ scripts_of (inner (Tx.transaction_witness_set mtx)) /\ Hasher_224 (0 :: script_wire s) = policy) in Hm.
  - rewrite Forall_forall in Hm. apply Hm. apply list_elem_of_fmap. exists (p, a). split; [done|]. by apply elem_of_map_to_list.
  - intros q (b & Hb & Hq)%check_bind. destruct b; [done|]. unfold scripts_of in *.
    destruct (WitnessSet.native_script _); cbn [default from_option id] in *; by apply all_differ_yields in Hb.
Qed.

(** C8: the witnesses an accepted transaction has: for every input whose output is of these eras, a witness of
    its payment key with a signature of the transaction that holds, or scripts that hash to its payment script; every
    native script it carries is satisfied; every policy it mints is the hash of one of them.  Of a Byron output nothing
    is asked ([byron_output_spent_by_anyone]), and a script may name a key that did not sign ([unsigned_key_satisfies]). *)
Theorem inputs_witnessed `{MinicborLaws, ByronCodec, Cryptoxide} mtx txix utxos pps acnt slot net era cs cs' :
  let tx_wits := inner (Tx.transaction_witness_set mtx) in
  let tx_hash := Hasher_256 (raw_cbor (Tx.transaction_body mtx)) in
  let wits := default [] (WitnessSet.vkeywitness tx_wits) in
  Forall valid_script (scripts_of tx_wits) ->
  validate_shelley_ma_tx mtx txix utxos pps acnt slot net era cs = Returned (Ok ()) cs' ->
  Forall (fun input => exists o, utxo utxos input = Some o /\
    forall out, MultiEraOutput.as_alonzo o = Some out -> witnessed tx_wits tx_hash wits out) (TransactionBody.inputs (body mtx)) /\
  Forall (fun s => eval_native_script wits s (TransactionBody.validity_interval_start (body mtx)) (TransactionBody.ttl (body mtx)) = true)
    (scripts_of tx_wits) /\
  (forall p, p ∈ dom (default ∅ (TransactionBody.mint (body mtx))) ->
    exists s, s ∈ scripts_of tx_wits /\ Hasher_224 (0 :: script_wire s) = p).
Proof.
  intros tx_wits tx_hash wits Hscripts Hv. apply accepted_intro in Hv as [counts [_ _ _ _ _ _ Hw Hm]].
  apply witnesses_yields in Hw as [Hins Hns]; [|done]. split_and!; [done..|]. intros p. by apply minting_yields.
Qed.

(** ** The state of delegations and pools *)
Record consistent (cs : CertState.t) : Prop := {
  delegations_registered : dom (DState.delegations (CertState.dstate cs)) ⊆ dom (DState.rewards (CertState.dstate cs));
  delegations_pools stc pk : DState.delegations (CertState.dstate cs) !! stc = Some pk ->
    pk ∈ dom (PState.pool_params (CertState.pstate cs));
  pointers_registered ptr stc : DState.ptrs (CertState.dstate cs) !! ptr = Some stc ->
    stc ∈ dom (DState.rewards (CertState.dstate cs));
  updates_pools : dom (PState.fut_pool_params (CertState.pstate cs)) ⊆ dom (PState.pool_params (CertState.pstate cs));
  retiring_pools : dom (PState.retiring (CertState.pstate cs)) ⊆ dom (PState.pool_params (CertState.pstate cs));
  genesis_known slot gkh d : DState.fut_gen_delegs (CertState.dstate cs) !! (slot, gkh) = Some d ->
    gkh ∈ dom (DState.gen_delegs (CertState.dstate cs))
}.

(** Whatever a computation returns, the state it leaves is as sound as before. *)
Definition keeps {E S A} (I : S -> Prop) (m : comp E S A) : Prop :=
  forall s r s', I s -> m s = Returned r s' -> I s'.

Section keeps.
Context {E S : Type} (I : S -> Prop).

Lemma keeps_ret {A} (a : A) : keeps I (mret a : comp E S A).
Proof. by intros s r s' Hs [= <- <-]. Qed.

Lemma keeps_bind {A B} (m : comp E S A) (f : A -> comp E S B) :
  keeps I m -> (forall a, keeps I (f a)) -> keeps I (m ≫= f).
Proof.
  intros Hm Hf s r s' Hs. unfold mbind, comp_bind. destruct (m s) as [[a|e] s1| |] eqn:Hms; try done.
  - apply Hf. by eapply Hm.
  - intros [= <- <-]. by eapply Hm.
Qed.

Lemma keeps_eval {A} (x : option A) : keeps I (eval x : comp E S A).
Proof. intros s r s' Hs. unfold eval. destruct x; [by intros [= <- <-]|done]. Qed.

Lemma keeps_get : keeps I (get : comp E S S).
Proof. by intros s r s' Hs [= <- <-]. Qed.
End keeps.

Lemma keeps_stateless {S A} (I : S -> Prop) (m : check A) : keeps I (stateless m).
Proof. intros s r s' Hs. unfold stateless, locally. destruct (m ()); naive_solver. Qed.

Lemma keeps_count (I : CertState.t -> Prop) field update : keeps (fun s => I s.1) (count field update).
Proof.
  intros [cs c] r s' Hs. unfold count, mbind, comp_bind, get, eval, put. destruct (checked_add _ _ _); [|done]. by intros [= <- <-].
Qed.

Lemma keeps_on_dstate {A} (I : CertState.t -> Prop) (m : comp ValidationError DState.t A) :
  (forall ps ds r ds', I (CertState.mk ps ds) -> m ds = Returned r ds' -> I (CertState.mk ps ds')) ->
  keeps (fun s => I s.1) (on_dstate m).
Proof.
  intros Hm [[ps ds] c] r s' Hs. unfold on_dstate, focus. cbn. destruct (m ds) as [r' ds'| |] eqn:Hd; try done.
  intros [= <- <-]. by eapply Hm.
Qed.

Lemma keeps_on_pstate {A} (I : CertState.t -> Prop) (m : comp ValidationError PState.t A) :
  (forall ps ds r ps', I (CertState.mk ps ds) -> m ps = Returned r ps' -> I (CertState.mk ps' ds)) ->
  keeps (fun s => I s.1) (on_pstate m).
Proof.
  intros Hm [[ps ds] c] r s' Hs. unfold on_pstate, focus. cbn. destruct (m ps) as [r' ps'| |] eqn:Hd; try done.
  intros [= <- <-]. by eapply Hm.
Qed.

(** Runs a method on a state that is known. *)
Ltac run H :=
  unfold mbind, comp_bind, mret, comp_ret, get, put, modify, throw, eval in H; repeat (case_match; simplify_eq/=); try done.

(** More credentials are registered. *)
Lemma consistent_rewards m ps ds :
  dom (DState.rewards ds) ⊆ dom m -> consistent (CertState.mk ps ds) -> consistent (CertState.mk ps (set_rewards m ds)).
Proof.
  intros Hm [H1 H2 H3 H4 H5 H6]; cbn in *. split; cbn; try done; [by etransitivity|]. intros p s Hp. by eapply Hm, H3.
Qed.

Lemma registration_consistent stc ptr ps ds r ds' :
  consistent (CertState.mk ps ds) -> check_stake_registration stc ptr ds = Returned r ds' -> consistent (CertState.mk ps ds').
Proof.
  intros Hc. unfold check_stake_registration, focus, insert_or_err, mbind, comp_bind, get, put, throw.
  destruct (DState.rewards ds !! stc) as [x|]; [by intros [= <- <-]; destruct ds|].
  apply (consistent_rewards (<[stc := 0]> (DState.rewards ds))) in Hc; [|rewrite dom_insert_L; apply union_subseteq_r].
  cbn [DState.ptrs set_rewards]. destruct (DState.ptrs ds !! ptr) as [x|]; intros [= <- <-]; [by destruct ds|].
  destruct Hc as [H1 H2 H3 H4 H5 H6]. split; try done.
  intros ptr' stc'. cbn. rewrite lookup_insert_Some. intros [[_ <-]|[_ Hp]]; [|by eapply H3].
  rewrite dom_insert_L. by apply elem_of_union_l, elem_of_singleton.
Qed.

Lemma deregistration_consistent stc ps ds r ds' :
  consistent (CertState.mk ps ds) -> check_stake_deregistration stc ds = Returned r ds' -> consistent (CertState.mk ps ds').
Proof.
  intros Hc Hr. pose proof Hc as [H1 H2 H3 H4 H5 H6]; cbn in *. unfold check_stake_deregistration in Hr. run Hr.
  split; cbn; try done; rewrite ?dom_delete_L.
  - by apply difference_mono_r.
  - intros s pk. rewrite lookup_delete_Some. intros [_ ?]. eauto.
  - intros p s. rewrite map_lookup_filter_Some. cbn. intros [Hp Hs]. apply H3 in Hp. apply elem_of_difference.
    split; [done|]. by intros ?%elem_of_singleton.
Qed.

Lemma delegation_consistent stc pk ps ds r ds' :
  consistent (CertState.mk ps ds) -> check_stake_delegation stc pk ps ds = Returned r ds' -> consistent (CertState.mk ps ds').
Proof.
  intros Hc Hr. pose proof Hc as [H1 H2 H3 H4 H5 H6]; cbn in *. unfold check_stake_delegation in Hr. run Hr.
  split; cbn; try done; rewrite ?dom_insert_L.
  - apply union_subseteq. split; [|done]. apply singleton_subseteq_l, elem_of_dom. by eexists.
  - intros s p. rewrite lookup_insert_Some. intros [[_ <-]|[_ ?]]; [apply elem_of_dom; by eexists|eauto].
Qed.

Lemma pool_reg_consistent pool param cost ps ds r ps' :
  consistent (CertState.mk ps ds) -> check_pool_reg_or_update pool param cost ps = Returned r ps' -> consistent (CertState.mk ps' ds).
Proof.
  intros Hc Hr. pose proof Hc as [H1 H2 H3 H4 H5 H6]; cbn in *. unfold check_pool_reg_or_update in Hr. run Hr;
  split; cbn; try done; rewrite ?dom_insert_L, ?dom_delete_L.
  - apply union_subseteq. split; [|done]. apply singleton_subseteq_l, elem_of_dom. by eexists.
  - etransitivity; [apply subseteq_difference_l|]; done.
  - intros stc pk Hp. apply elem_of_union_r. by eapply H2.
  - etransitivity; [done|apply union_subseteq_r].
  - etransitivity; [done|apply union_subseteq_r].
Qed.

Lemma retirement_consistent pool repoch cepoch emax ps ds r ps' :
  consistent (CertState.mk ps ds) -> check_pool_retirement pool repoch cepoch emax ps = Returned r ps' -> consistent (CertState.mk ps' ds).
Proof.
  intros Hc Hr. pose proof Hc as [H1 H2 H3 H4 H5 H6]; cbn in *. unfold check_pool_retirement in Hr. run Hr.
  split; cbn; try done. rewrite dom_insert_L. apply union_subseteq. split; [|done]. apply singleton_subseteq_l, elem_of_dom. by eexists.
Qed.

Lemma genesis_consistent gkh dkh vrf slot stab_win ps ds r ds' :
  consistent (CertState.mk ps ds) -> check_genesis_key_delegation gkh dkh vrf slot stab_win ds = Returned r ds' ->
  consistent (CertState.mk ps ds').
Proof.
  intros Hc Hr. pose proof Hc as [H1 H2 H3 H4 H5 H6]; cbn in *. unfold check_genesis_key_delegation in Hr. run Hr.
  split; cbn; try done. intros sl gk de. rewrite lookup_insert_Some. intros [[[= <- <-] _]|[_ ?]]; [apply elem_of_dom; by eexists|eauto].
Qed.

Lemma mir_consistent mir slot stab_win acnt ps ds r ds' :
  consistent (CertState.mk ps ds) -> check_mir mir slot stab_win acnt ds = Returned r ds' -> consistent (CertState.mk ps ds').
Proof.
  intros Hc Hr. pose proof Hc as [H1 H2 H3 H4 H5 H6]; cbn in *. unfold check_mir in Hr. run Hr; by split.
Qed.

Abbreviation consistent_at := (fun s : CertState.t * Counts => consistent s.1).

Section keeps_certificates.
Context (txix : Z) (acnt : AccountState.t) (slot stab_win : Z) (pps : ShelleyProtParams.t).

Lemma certificate_consistent cert ptr cepoch : keeps consistent_at (check_certificate acnt slot stab_win pps cert ptr cepoch).
Proof.
  destruct cert; cbn [check_certificate].
  - apply keeps_bind; [apply keeps_count|intros _]. apply keeps_on_dstate. intros *. apply registration_consistent.
  - apply keeps_bind; [|intros _; apply keeps_count]. apply keeps_on_dstate. intros *. apply deregistration_consistent.
  - intros [[ps ds] c] r s' Hs. unfold mbind, comp_bind, get, on_dstate, focus; cbn.
    destruct (check_stake_delegation stc pool ps ds) as [r' ds'| |] eqn:Hd; try done. intros [= <- <-].
    by eapply delegation_consistent.
  - apply keeps_bind; [apply keeps_get|intros s]. apply keeps_bind; [case_match; [apply keeps_ret|apply keeps_count]|intros _].
    apply keeps_on_pstate. intros *. apply pool_reg_consistent.
  - apply keeps_on_pstate. intros *. apply retirement_consistent.
  - apply keeps_on_dstate. intros *. apply genesis_consistent.
  - apply keeps_on_dstate. intros *. apply mir_consistent.
Qed.

Lemma certificates_consistent certs : keeps consistent_at (check_certificates txix acnt slot stab_win pps certs).
Proof.
  destruct certs as [certs|]; cbn [check_certificates]; [|apply keeps_ret]. apply keeps_bind; [apply keeps_eval|intros cepoch].
  generalize 0 at 1. generalize (CertPointer.mk slot txix 0).
  induction certs as [|cert certs IH]; intros ptr ix; cbn [certificates_loop]; [apply keeps_ret|].
  apply keeps_bind; [apply certificate_consistent|intros _; apply IH].
Qed.
End keeps_certificates.

Lemma keeps_beside {E S T A} (I : S -> Prop) (t : T) (m : comp E (S * T) A) :
  keeps (fun s => I s.1) m -> keeps I (beside t m).
Proof.
  intros Hm s r s' Hs. unfold beside. destruct (m (s, t)) as [[a|e] [s1 t1]| |] eqn:Hms; try done; intros [= <- <-];
    by apply (Hm (s, t) _ _ Hs Hms).
Qed.

Lemma validation_consistent `{Minicbor, ByronCodec, Cryptoxide} mtx txix utxos pps acnt slot net era :
  keeps consistent (validate_shelley_ma_tx mtx txix utxos pps acnt slot net era).
Proof.
  unfold validate_shelley_ma_tx.
  repeat (apply keeps_bind; [first [apply keeps_stateless|apply keeps_beside, certificates_consistent]|intros ?]).
  apply keeps_stateless.
Qed.

(** C9: validating a transaction keeps the state consistent, whether the transaction is accepted or not and
    although a refused one leaves the changes of its first certificates behind: who delegates or has a pointer is
    registered, delegations, updates and retirements are for registered pools, future genesis delegations for known
    keys. *)
Theorem state_consistent `{Minicbor, ByronCodec, Cryptoxide} mtx txix utxos pps acnt slot net era cs r cs' :
  consistent cs -> validate_shelley_ma_tx mtx txix utxos pps acnt slot net era cs = Returned r cs' -> consistent cs'.
Proof. intros Hc. by apply (validation_consistent mtx txix utxos pps acnt slot net era). Qed.

(** ** Transactions the rules do not allow for *)

(** The pointer of the second certificate is that of the first. *)
Lemma two_registrations_clash txix acnt slot stab_win pps a b certs s s' :
  ~ yields (check_certificates txix acnt slot stab_win pps
      (Some (Certificate.StakeRegistration a :: Certificate.StakeRegistration b :: certs))) s () s'.
Proof.
  cbn [check_certificates certificates_loop check_certificate CertPointer.slot CertPointer.tx_ix]. unfold count_stk_dep. intros Hr. yields_steps.
  repeat match goal with
  | H : yields (count _ _) _ _ _ |- _ => apply count_yields in H as [_ ->]
  | H : yields (on_dstate _) _ _ _ |- _ => apply on_dstate_yields in H as (? & H & ->)
  | H : yields (check_stake_registration _ _) _ _ _ |- _ => apply registration_yields in H as (? & ? & ->)
  end.
  cbn in *. match goal with H : <[_ := _]> _ !! _ = None |- _ => change (0 mod 2 ^ 32) with 0 in H; by rewrite lookup_insert_eq in H end.
Qed.

(** A transaction whose first two certificates register credentials is refused, whatever the state: the
    index of a pointer is advanced after the certificate, to the index of the certificate itself, so that the second
    certificate has the pointer of the first. *)
Theorem second_registration_refused `{Minicbor, ByronCodec, Cryptoxide} mtx txix utxos pps acnt slot net era cs cs' a b certs :
  TransactionBody.certificates (body mtx) = Some (Certificate.StakeRegistration a :: Certificate.StakeRegistration b :: certs) ->
  validate_shelley_ma_tx mtx txix utxos pps acnt slot net era cs <> Returned (Ok ()) cs'.
Proof. intros Hc [counts [_ _ Ha _ _ _ _ _]]%accepted_intro. rewrite Hc in Ha. by apply two_registrations_clash in Ha. Qed.

(** An accepted transaction names every policy it consumes or mints in one of its outputs.  So the last
    tokens of a policy cannot be burnt: a transaction that burns all it consumes of a policy is refused, unless an output
    keeps another asset, or none, of that policy. *)
Theorem last_tokens_not_burnt `{Minicbor, ByronCodec, Cryptoxide} mtx txix utxos pps acnt slot net era cs cs' p :
  small_amounts (body mtx) utxos ->
  Forall (fun o => p ∉ policies (TransactionOutput.amount o)) (TransactionBody.outputs (body mtx)) ->
  p ∈ dom (default ∅ (TransactionBody.mint (body mtx))) ->
  validate_shelley_ma_tx mtx txix utxos pps acnt slot net era cs <> Returned (Ok ()) cs'.
Proof.
  intros Hs Ho Hp [counts [_ _ _ Hv _ _ _ _]]%accepted_intro. apply preserved in Hv as (_ & _ & He); [|done].
  specialize (He p (or_intror Hp)). apply Exists_exists in He as (o & Hin & Hpo). rewrite Forall_forall in Ho. by apply (Ho o).
Qed.

(** *** Instantaneous rewards *)
Lemma byron_epoch slot :
  0 <= slot < 4492800 -> to_epoch mainnet slot = Some (slot * 20 / 432000) /\ slot * 20 / 432000 < 208.
Proof.
  intros Hs. unfold to_epoch, absolute_slot_to_relative. cbn [shelley_known_slot mainnet].
  rewrite (proj2 (Z.ltb_lt _ _)) by lia. unfold compute_era_epoch. cbn [byron_slot_length byron_epoch_length mainnet].
  cbn [Z.ltb Z.compare]. rewrite checked_mul_lt by lia. cbn. split; [done|]. apply Z.div_lt_upper_bound; lia.
Qed.

Lemma byron_first_slot epoch : 0 <= epoch < 208 -> first_slot mainnet epoch = Some (epoch * 21600).
Proof.
  intros He. unfold first_slot, relative_slot_to_absolute. change (shelley_start_epoch mainnet) with (Some 208). cbn [mbind option_bind].
  rewrite (proj2 (Z.ltb_lt _ _)) by lia. unfold compute_absolute_slot_within_era. cbn [byron_slot_length byron_epoch_length mainnet].
  rewrite checked_mul_lt by lia. cbn [mbind option_bind]. rewrite checked_div_pos by lia. cbn [mbind option_bind].
  replace (epoch * 432000 / 20) with (epoch * 21600) by (replace (epoch * 432000) with (epoch * 21600 * 20) by lia; by rewrite Z.div_mul).
  rewrite checked_add_lt by lia. f_equal. lia.
Qed.

(** Instantaneous rewards are reckoned with the epochs of mainnet, whatever the network: in its first
    108000 slots, which another network may have in the Shelley era, the certificate panics, as the stability window does
    not fit before the end of the epoch; and an accepted one on the treasury gives the rewards of the treasury to the
    reserves and drops theirs, one on the reserves the other way round. *)
Theorem instantaneous_rewards_outcome mir slot acnt ds :
  (0 <= slot < 108000 -> check_mir mir slot STAB_WIN acnt ds = Panicked) /\
  forall ds', check_mir mir slot STAB_WIN acnt ds = Returned (Ok ()) ds' ->
    match MoveInstantaneousReward.source mir with
    | MoveInstantaneousReward.Reserves =>
        total (credited mir (DState.inst_rewards ds).1) <= AccountState.reserves acnt /\
        DState.inst_rewards ds' = (credited mir (DState.inst_rewards ds).1, (DState.inst_rewards ds).1)
    | MoveInstantaneousReward.Treasury =>
        total (credited mir (DState.inst_rewards ds).2) <= AccountState.treasury acnt /\
        DState.inst_rewards ds' = ((DState.inst_rewards ds).2, credited mir (DState.inst_rewards ds).2)
    end.
Proof.
  split.
  - intros Hs. destruct (byron_epoch slot) as [He Hl]; [lia|]. unfold check_mir, mbind, comp_bind, eval. rewrite He.
    assert (0 <= slot * 20 / 432000) by (apply Z.div_pos; lia).
    assert (slot * 20 / 432000 < 5) by (apply Z.div_lt_upper_bound; lia).
    rewrite checked_add_lt, byron_first_slot by lia. unfold checked_sub. by rewrite (proj2 (Z.leb_gt _ _)) by (unfold STAB_WIN; lia).
  - intros ds' Hm. apply mir_yields in Hm as (? & ? & _ & _ & _ & _ & Hm). destruct (MoveInstantaneousReward.source mir);
      by destruct Hm as [? ->].
Qed.

(** ** Sample transactions

    With the cryptography of [toy]. *)
Module sample.
Export toy.

Definition key (x : Z) : bytes := replicate 32 x.
Definition hash_of (x : Z) : bytes := replicate 28 x.
Definition raw : bytes := [1; 2; 3].
Definition sign (x : Z) : VKeyWitness.t := VKeyWitness.mk (key x) (Hasher_256 raw ++ key x).
Definition address (x : Z) : bytes := 0x60 :: hash_of x.
Definition policy_script : NativeScript := ScriptPubkey (hash_of 8).
Definition policy : bytes := Hasher_224 (0 :: script_wire policy_script).

Definition pps : ShelleyProtParams.t := {|
  ShelleyProtParams.system_start := 0;
  ShelleyProtParams.epoch_length := 432000;
  ShelleyProtParams.slot_length := 1;
  ShelleyProtParams.minfee_a := 1;
  ShelleyProtParams.minfee_b := 2;
  ShelleyProtParams.max_block_body_size := 65536;
  ShelleyProtParams.max_transaction_size := 16384;
  ShelleyProtParams.max_block_header_size := 1100;
  ShelleyProtParams.key_deposit := 20;
  ShelleyProtParams.pool_deposit := 500;
  ShelleyProtParams.desired_number_of_stake_pools := 150;
  ShelleyProtParams.protocol_version := (4, 0);
  ShelleyProtParams.min_utxo_value := 10;
  ShelleyProtParams.min_pool_cost := 340;
  ShelleyProtParams.expansion_rate := {| numerator := 3; denominator := 1000 |};
  ShelleyProtParams.treasury_growth_rate := {| numerator := 2; denominator := 10 |};
  ShelleyProtParams.maximum_epoch := 18;
  ShelleyProtParams.pool_pledge_influence := {| numerator := 3; denominator := 10 |};
  ShelleyProtParams.decentralization_constant := {| numerator := 0; denominator := 1 |};
  ShelleyProtParams.extra_entropy := {| Nonce.nonce_variant := Nonce.NeutralNonce; Nonce.hash := None |}
|}.
Definition acnt : AccountState.t := AccountState.mk 1000 1000.

Definition input (i : Z) : TransactionInput.t := TransactionInput.mk (key 0) i.
Definition output (x : Z) (v : Value) : TransactionOutput.t := TransactionOutput.mk (address x) v None.
Definition held (i : Z) (x : Z) (v : Value) : MultiEraInput.t * MultiEraOutput.t :=
  (MultiEraInput.AlonzoCompatible (input i), MultiEraOutput.AlonzoCompatible (output x v) Era.Mary).
Definition utxos (l : list (MultiEraInput.t * MultiEraOutput.t)) : UTxOs := list_to_map l.
Definition tokens (c : Z) (l : list (bytes * Z)) : Value := Value.Multiasset c {[ policy := list_to_map l ]}.

Definition tx_body (ins : list Z) (outs : list TransactionOutput.t) (fee : Z) (certs : option (list Certificate.t))
    (start : option Z) (mint : option Multiasset) : TransactionBody.t := {|
  TransactionBody.inputs := input <$> ins;
  TransactionBody.outputs := outs;
  TransactionBody.fee := fee;
  TransactionBody.ttl := Some 200;
  TransactionBody.certificates := certs;
  TransactionBody.withdrawals := None;
  TransactionBody.update := None;
  TransactionBody.auxiliary_data_hash := None;
  TransactionBody.validity_interval_start := start;
  TransactionBody.mint := mint;
  TransactionBody.script_data_hash := None;
  TransactionBody.collateral := None;
  TransactionBody.required_signers := None;
  TransactionBody.network_id := None
|}.
Definition tx (body : TransactionBody.t) (wits : list VKeyWitness.t) (scripts : list NativeScript) : Tx.t :=
  Tx.mk (mkKeepRaw raw body)
    (mkKeepRaw [4] (WitnessSet.mk (Some wits) (Some (mkKeepRaw [] <$> scripts)) None None None None)) true Nullable.Null.

Definition no_state : CertState.t := CertState.mk (PState.mk ∅ ∅ ∅) (DState.mk ∅ ∅ ∅ ∅ ∅ (∅, ∅)).
Definition validate (mtx : Tx.t) (l : list (MultiEraInput.t * MultiEraOutput.t)) (cs : CertState.t) :
    outcome ValidationError CertState.t () :=
  validate_shelley_ma_tx mtx 3 (utxos l) pps acnt 100 0 Era.Mary cs.
Definition accepts (mtx : Tx.t) (l : list (MultiEraInput.t * MultiEraOutput.t)) : bool :=
  match validate mtx l no_state with Returned (Ok _) _ => true | _ => false end.

(** Key 7 registers and pays to key 9, with tokens that the holder of key 8 mints. *)
Definition credential : StakeCredential := AddrKeyhash (hash_of 7).
Definition good_body : TransactionBody.t :=
  tx_body [0; 1] [output 9 (tokens 60 [([1], 5)]); output 7 (Value.Coin 23)] 7
    (Some [Certificate.StakeRegistration credential]) None (Some {[ policy := {[ [1] := 2 ]} ]}).
Definition good_tx : Tx.t := tx good_body [sign 7; sign 8] [policy_script].
Definition good_utxos : list (MultiEraInput.t * MultiEraOutput.t) :=
  [held 0 7 (tokens 50 [([1], 3)]); held 1 7 (Value.Coin 60)].
Definition registered : CertState.t :=
  CertState.mk (PState.mk ∅ ∅ ∅)
    (DState.mk {[ credential := 0 ]} ∅ {[ CertPointer.mk 100 3 0 := credential ]} ∅ ∅ (∅, ∅)).

Lemma good_tx_accepted : validate good_tx good_utxos no_state = Returned (Ok ()) registered.
Proof. vm_compute. reflexivity. Qed.
End sample.

Section samples.
Import sample.

Lemma value_conserved_witness :
  small_amounts (body good_tx) (utxos good_utxos) /\
  sum_of (fun i => lovelace (input_value (utxos good_utxos) i)) (TransactionBody.inputs good_body) + deposits pps no_state =
    sum_of (fun o => lovelace (TransactionOutput.amount o)) (TransactionBody.outputs good_body) + 7 + deposits pps registered /\
  forall p n, sum_of (fun i => quantity (input_value (utxos good_utxos) i) p n) (TransactionBody.inputs good_body) + minted good_body p n =
    sum_of (fun o => quantity (TransactionOutput.amount o) p n) (TransactionBody.outputs good_body).
Proof.
  assert (small_amounts (body good_tx) (utxos good_utxos)) as Hs.
  { split; apply (bool_decide_unpack _); vm_compute; exact I. }
  split; [done|]. apply (value_conserved good_tx 3 (utxos good_utxos) pps acnt 100 0 Era.Mary no_state registered Hs good_tx_accepted).
Defined.

Lemma good_scripts : Forall valid_script (scripts_of (inner (Tx.transaction_witness_set good_tx))).
Proof. constructor; [|done]. split; [done|]. intros c Hc. by apply not_elem_of_nil in Hc. Qed.

Lemma inputs_witnessed_witness :
  Forall valid_script (scripts_of (inner (Tx.transaction_witness_set good_tx))) /\
  exists s, s ∈ scripts_of (inner (Tx.transaction_witness_set good_tx)) /\ Hasher_224 (0 :: script_wire s) = policy.
Proof.
  split; [apply good_scripts|].
  pose proof (inputs_witnessed good_tx 3 (utxos good_utxos) pps acnt 100 0 Era.Mary no_state registered good_scripts good_tx_accepted) as Hw.
  apply (proj2 (proj2 Hw)). apply elem_of_dom. eexists. vm_compute. reflexivity.
Defined.

Lemma no_state_consistent : consistent no_state.
Proof. split; cbn; try done; intros *; rewrite lookup_empty; done. Qed.

Lemma state_consistent_witness : consistent no_state /\ consistent registered.
Proof.
  split; [apply no_state_consistent|].
  exact (state_consistent good_tx 3 (utxos good_utxos) pps acnt 100 0 Era.Mary no_state _ registered no_state_consistent good_tx_accepted).
Defined.

(** Two registrations, the deposits paid. *)
Definition two_registrations : Tx.t :=
  tx (tx_body [1] [output 7 (Value.Coin 13)] 7
    (Some [Certificate.StakeRegistration credential; Certificate.StakeRegistration (AddrKeyhash (hash_of 8))]) None None) [sign 7] [].

Lemma second_registration_refused_witness :
  validate two_registrations good_utxos no_state <> Returned (Ok ()) registered /\
  exists cs, validate two_registrations good_utxos no_state = Returned (Err (ShelleyMA PointerInUse)) cs /\
    base.size (DState.rewards (CertState.dstate cs)) = 2%nat.
Proof.
  split; [by eapply second_registration_refused|]. eexists. split; [by vm_compute|]. by vm_compute.
Defined.

(** All of a policy is consumed and burnt. *)
Definition burn : Tx.t :=
  tx (tx_body [0] [output 7 (Value.Coin 43)] 7 None None (Some {[ policy := {[ [1] := -3 ]} ]})) [sign 7; sign 8] [policy_script].

Lemma last_tokens_not_burnt_witness :
  small_amounts (body burn) (utxos good_utxos) /\
  validate burn good_utxos no_state <> Returned (Ok ()) no_state /\
  validate burn good_utxos no_state = Returned (Err (ShelleyMA PreservationOfValue)) no_state.
Proof.
  assert (small_amounts (body burn) (utxos good_utxos)) as Hs.
  { split; apply (bool_decide_unpack _); vm_compute; exact I. }
  split_and!; [done| |by vm_compute]. apply (last_tokens_not_burnt burn 3 (utxos good_utxos) pps acnt 100 0 Era.Mary no_state no_state policy Hs).
  - repeat constructor; cbn; set_solver.
  - apply elem_of_dom. eexists. vm_compute. reflexivity.
Defined.

(** *** What is accepted *)

(** One token and [2^64 - 1] tokens are none in [i64]: they can be sent to oneself. *)
Definition forgery : Tx.t :=
  tx (tx_body [0] [output 7 (tokens 20 [([1], 3); ([2], 1)]); output 7 (tokens 23 [([2], 18446744073709551615)])] 7 None None None)
    [sign 7] [].
Example forged_by_a_cast : accepts forgery [held 0 7 (tokens 50 [([1], 3)])] = true.
Proof. vm_compute. reflexivity. Qed.

Example repeated_input_counts_twice :
  accepts (tx (tx_body [1; 1] [output 7 (Value.Coin 113)] 7 None None None) [sign 7] []) [held 1 7 (Value.Coin 60)] = true.
Proof. vm_compute. reflexivity. Qed.

Definition byron_output : MultiEraInput.t * MultiEraOutput.t :=
  (MultiEraInput.AlonzoCompatible (input 5), MultiEraOutput.Byron (byron.TxOut.mk (byron.Address.mk [1; 2; 3] 4) 1000)).
Example byron_output_spent_by_anyone :
  accepts (tx (tx_body [5] [output 9 (Value.Coin 993)] 7 None None None) [] []) [byron_output] = true.
Proof. vm_compute. reflexivity. Qed.

(** The signature of key 7 covers; that of key 8 is no signature. *)
Definition locked (s : NativeScript) : MultiEraInput.t * MultiEraOutput.t :=
  (MultiEraInput.AlonzoCompatible (input 6),
   MultiEraOutput.AlonzoCompatible (TransactionOutput.mk (0x70 :: Hasher_224 (0 :: script_wire s)) (Value.Coin 50) None) Era.Mary).
Example unsigned_key_satisfies :
  accepts (tx (tx_body [6] [output 9 (Value.Coin 43)] 7 None None None) [sign 9; VKeyWitness.mk (key 8) (replicate 64 0)] [policy_script])
    [locked policy_script] = true.
Proof. vm_compute. reflexivity. Qed.

(** The lock ends at slot 5000 and the block is at slot 100. *)
Example validity_start_not_checked :
  accepts (tx (tx_body [6] [output 9 (Value.Coin 43)] 7 None (Some 6000) None) [] [InvalidBefore 5000]) [locked (InvalidBefore 5000)] = true.
Proof. vm_compute. reflexivity. Qed.

(** The hash of the second script is that of both. *)
Example second_script_not_found :
  accepts (tx (tx_body [6] [output 9 (Value.Coin 43)] 7 None (Some 50) None) [] [InvalidBefore 5; InvalidBefore 6]) [locked (InvalidBefore 6)] = false /\
  accepts (tx (tx_body [6] [output 9 (Value.Coin 43)] 7 None (Some 50) None) [] [InvalidBefore 6; InvalidBefore 5]) [locked (InvalidBefore 6)] = true.
Proof. split; vm_compute; reflexivity. Qed.
End samples.
