(* ===== verification/ByronTx.v ===== *)
(** * Byron addresses and transactions

    [pallas-addresses/src/byron.rs]: what the payload of a Byron address holds, with its
    codec; and [pallas-validate/src/phase1/byron.rs], the validation of a transaction of
    the Byron era, which is witnessed by keys that hash to the roots of its addresses.
    The codecs that minicbor derives, of the payload and of spending data, are
    parameters, as are the hash SHA3 and the checksum CRC-32. *)
From S2P Require Import Prelude Cbor Rfc8949 Effects NativeScript PlutusData Address SlotTime LedgerTypes.
From S2P Require Import Assets ShelleyMA.

(** ** Payloads of addresses *)
Module AddrDistr.
Inductive t := SingleKeyDistribution (id : bytes) | BootstrapEraDistribution.
End AddrDistr.

Module AddrType.
Inductive t := PubKey | Script | Redeem | Other (x : Z).
#[global] Instance eq_dec : EqDecision t.
Proof. solve_decision. Defined.
End AddrType.

Module AddrAttrProperty.
Inductive t :=
| AddrDistr (x : AddrDistr.t)
| DerivationPath (bs : bytes)
| NetworkTag (bs : bytes).
End AddrAttrProperty.

Module SpendingData.
Inductive t := PubKey (key : bytes) | Script (script : bytes) | Redeem (key : bytes).
End SpendingData.

(** [OrderPreservingProperties] is the list of the properties. *)
Abbreviation AddrAttrs := (list AddrAttrProperty.t).

Module AddressPayload.
Record t := mk { root : bytes; attributes : AddrAttrs; addrtype : AddrType.t }.
End AddressPayload.

Section codecs.
Context `{Minicbor}.

#[export] Instance AddrDistr_decode : Decode AddrDistr.t :=
  d_array;;
  variant ← d_u32;
  match variant with
  | 0 => x ← Hash_decode 28; mret (AddrDistr.SingleKeyDistribution x)
  | 1 => mret AddrDistr.BootstrapEraDistribution
  | _ => dec_fail (DecodeMessage "invalid variant for addrdstr")
  end.
#[export] Instance AddrDistr_encode : Encode AddrDistr.t := fun x =>
  match x with
  | AddrDistr.SingleKeyDistribution x => w_array 2 ⊕ w_u32 0 ⊕ Hash_encode x
  | AddrDistr.BootstrapEraDistribution => w_array 1 ⊕ w_u32 1
  end.

#[export] Instance AddrType_decode : Decode AddrType.t :=
  variant ← d_u32;
  match variant with
  | 0 => mret AddrType.PubKey
  | 1 => mret AddrType.Script
  | 2 => mret AddrType.Redeem
  | x => mret (AddrType.Other x)
  end.
#[export] Instance AddrType_encode : Encode AddrType.t := fun x =>
  match x with
  | AddrType.PubKey => w_u32 0
  | AddrType.Script => w_u32 1
  | AddrType.Redeem => w_u32 2
  | AddrType.Other x => w_u32 x
  end.

#[export] Instance AddrAttrProperty_decode : Decode AddrAttrProperty.t :=
  key ← d_u8;
  match key with
  | 0 => x ← decode; mret (AddrAttrProperty.AddrDistr x)
  | 1 => x ← d_bytes; mret (AddrAttrProperty.DerivationPath x)
  | 2 => x ← d_bytes; mret (AddrAttrProperty.NetworkTag x)
  | _ => dec_fail (DecodeMessage "unknown tag for address attribute")
  end.
#[export] Instance AddrAttrProperty_encode : Encode AddrAttrProperty.t := fun x =>
  match x with
  | AddrAttrProperty.AddrDistr x => w_u8 0 ⊕ encode x
  | AddrAttrProperty.DerivationPath x => w_u8 1 ⊕ w_bytes x
  | AddrAttrProperty.NetworkTag b => w_u8 2 ⊕ w_bytes b
  end.

Fixpoint d_times {A} (n : nat) (d : dec A) : dec (list A) :=
  match n with
  | O => mret []
  | S n => x ← d; xs ← d_times n d; mret (x :: xs)
  end.

(** [unwrap_or_default]: a map of indefinite length has no properties. *)
#[export] Instance AddrAttrs_decode : Decode AddrAttrs :=
  len ← d_map;
  d_times (Z.to_nat (default 0 len)) decode.
#[export] Instance AddrAttrs_encode : Encode AddrAttrs := fun xs =>
  w_map (Z.of_nat (length xs)) ⊕ enc_all (encode <$> xs).
End codecs.

(** The derived codecs. *)
Class PayloadCodec := {
  AddressPayload_encode :: Encode AddressPayload.t;
  AddressPayload_decode :: Decode AddressPayload.t;
  SpendingData_encode :: Encode SpendingData.t
}.

(** The crates cryptoxide and crc. *)
Class ByronHashes := {
  sha3_256 : bytes -> bytes;
  CRC_checksum : bytes -> Z
}.

Section addresses.
Context `{Minicbor, Cryptoxide, PayloadCodec, ByronHashes}.

(** The [unwrap]s are the panics. *)
Definition hash_address_id (addrtype : AddrType.t) (spending_data : SpendingData.t) (attributes : AddrAttrs) : option bytes :=
  buf ← w_array 3 ⊕ encode addrtype ⊕ encode spending_data ⊕ encode attributes;
  Some (Hasher_224 (sha3_256 buf)).

Definition AddressPayload_new (addrtype : AddrType.t) (spending_data : SpendingData.t) (attributes : AddrAttrs) :
    option AddressPayload.t :=
  root ← hash_address_id addrtype spending_data attributes;
  Some (AddressPayload.mk root attributes addrtype).

Definition new_redeem (pubkey : bytes) (network_tag : option bytes) : option AddressPayload.t :=
  let spending_data := SpendingData.Redeem pubkey in
  let attributes := match network_tag with Some x => [AddrAttrProperty.NetworkTag x] | None => [] end in
  AddressPayload_new AddrType.Redeem spending_data attributes.

Definition ByronAddress_new (payload : bytes) (crc : Z) : ByronAddress := {| byron_payload := payload; byron_crc := crc |}.

Definition from_decoded (payload : AddressPayload.t) : option ByronAddress :=
  payload ← Cbor.to_vec payload;
  let c := CRC_checksum payload in
  Some (ByronAddress_new payload c).

(** The checksum is not looked at. *)
Definition ByronAddress_decode_payload (a : ByronAddress) : result Error.t AddressPayload.t :=
  match from_slice (byron_payload a) with Ok p => Ok p | Err e => Err (Error.InvalidByronCbor e) end.
End addresses.

(** ** Validation *)
Module TaggedSignature.
Inductive t := PkWitness (s : bytes) | RedeemWitness (s : bytes).
End TaggedSignature.

Section validation.
Context `{Minicbor, Cryptoxide, PayloadCodec, ByronHashes}.
Import byron ByronError ValidationError.

Definition tx_ins (tx : Tx.t) : list TxIn.t := MaybeIndefArray.deref (Tx.inputs tx).
Definition tx_outs (tx : Tx.t) : list TxOut.t := MaybeIndefArray.deref (Tx.outputs tx).

Definition check_ins_not_empty (tx : Tx.t) : check () :=
  match tx_ins tx with [] => throw (Byron TxInsEmpty) | _ => mret tt end.

Definition check_outs_not_empty (tx : Tx.t) : check () :=
  match tx_outs tx with [] => throw (Byron TxOutsEmpty) | _ => mret tt end.

Definition check_ins_in_utxos (tx : Tx.t) (utxos : UTxOs) : check () :=
  for_each (fun input =>
      match utxos !! MultiEraInput.Byron input with
      | None => throw (Byron InputNotInUTxO)
      | Some _ => mret tt
      end) (tx_ins tx).

Definition check_outs_have_lovelace (tx : Tx.t) : check () :=
  for_each (fun output =>
      if TxOut.amount output =? 0 then throw (Byron OutputWithoutLovelace) else mret tt) (tx_outs tx).

Definition find_tx_out (input : TxIn.t) (utxos : UTxOs) : check TxOut.t :=
  out ← ok_or (utxos !! MultiEraInput.Byron input) (Byron InputNotInUTxO);
  ok_or (MultiEraOutput.as_byron out) (Byron InputNotInUTxO).

Definition mk_byron_address (addr : Address.t) : ByronAddress := ByronAddress_new (Address.payload addr) (Address.crc addr).

Definition is_redeem_utxo (input : TxIn.t) (utxos : UTxOs) : check bool :=
  tx_out ← ok (find_tx_out input utxos);
  mret match tx_out with
  | Some tx_out =>
      let address := mk_byron_address (TxOut.address tx_out) in
      match ByronAddress_decode_payload address with
      | Ok addr_payload => bool_decide (AddressPayload.addrtype addr_payload = AddrType.Redeem)
      | Err _ => false
      end
  | None => false
  end.

Definition check_fees (tx : Tx.t) (size : Z) (utxos : UTxOs) (prot_pps : ByronProtParams.t) : check () :=
  balances ← for_fold (fun (balances : Z * bool) input =>
      let '(inputs_balance, only_redeem_utxos) := balances in
      redeem ← is_redeem_utxo input utxos;
      let only_redeem_utxos := if negb redeem then false else only_redeem_utxos in
      match utxos !! MultiEraInput.Byron input ≫= MultiEraOutput.as_byron with
      | Some byron_utxo =>
          balance ← eval (checked_add 64 inputs_balance (TxOut.amount byron_utxo));
          mret (balance, only_redeem_utxos)
      | None => throw (Byron UnableToComputeFees)
      end) (0, true) (tx_ins tx);
  let '(inputs_balance, only_redeem_utxos) := balances in
  if (only_redeem_utxos : bool) then mret tt
  else
    outputs_balance ← for_fold (fun outputs_balance output =>
        eval (checked_add 64 outputs_balance (TxOut.amount output))) 0 (tx_outs tx);
    total_balance ← eval (checked_sub inputs_balance outputs_balance);
    by_size ← eval (checked_mul 64 (ByronProtParams.multiplier prot_pps) size);
    min_fees ← eval (checked_add 64 (ByronProtParams.summand prot_pps) by_size);
    if total_balance <? min_fees then throw (Byron FeesBelowMin) else mret tt.

Definition check_size (size : Z) (prot_pps : ByronProtParams.t) : check () :=
  if ByronProtParams.max_tx_size prot_pps <? size then throw (Byron MaxTxSizeExceeded) else mret tt.

Definition get_tx_size (mtxp : TxPayload.t) : Z :=
  Z.of_nat (length (raw_cbor (TxPayload.transaction mtxp)) + length (raw_cbor (TxPayload.witness mtxp))).

(** *** Witnesses *)
Fixpoint tag_witnesses (wits : list Twit.t) : check (list (bytes * TaggedSignature.t)) :=
  match wits with
  | [] => mret []
  | wit :: wits =>
      w ← match wit with
          | Twit.PkWitness pk sig => mret (pk, TaggedSignature.PkWitness sig)
          | Twit.RedeemWitness pk sig => mret (pk, TaggedSignature.RedeemWitness sig)
          | _ => throw (Byron UnableToProcessWitness)
          end;
      res ← tag_witnesses wits;
      mret (w :: res)
  end.

Definition convert_to_addr_type (sign : TaggedSignature.t) : AddrType.t :=
  match sign with
  | TaggedSignature.PkWitness _ => AddrType.PubKey
  | TaggedSignature.RedeemWitness _ => AddrType.Redeem
  end.

(** [unreachable!] for the other types of addresses *)
Definition mk_spending_data (pub_key : bytes) (addr_type : AddrType.t) : option SpendingData.t :=
  match addr_type with
  | AddrType.PubKey => Some (SpendingData.PubKey pub_key)
  | AddrType.Redeem => Some (SpendingData.Redeem pub_key)
  | _ => None
  end.

Definition redeems (pub_key : bytes) (sign : TaggedSignature.t) (root : bytes) (attrs : AddrAttrs) (addr_type : AddrType.t) :
    option bool :=
  spending_data ← mk_spending_data pub_key addr_type;
  hash_to_check ← hash_address_id addr_type spending_data attrs;
  Some (bool_decide (hash_to_check = root) && bool_decide (convert_to_addr_type sign = addr_type)).

Fixpoint find_redeeming (root : bytes) (attr : AddrAttrs) (addr_type : AddrType.t)
    (witnesses : list (bytes * TaggedSignature.t)) : check (bytes * TaggedSignature.t) :=
  match witnesses with
  | [] => throw (Byron MissingWitness)
  | (pub_key, sign) :: witnesses =>
      found ← eval (redeems pub_key sign root attr addr_type);
      if (found : bool) then
        match addr_type with
        | AddrType.PubKey | AddrType.Redeem => mret (pub_key, sign)
        | _ => throw (Byron UnableToProcessWitness)
        end
      else find_redeeming root attr addr_type witnesses
  end.

Definition find_raw_witness (tx_out : TxOut.t) (witnesses : list (bytes * TaggedSignature.t)) :
    check (bytes * TaggedSignature.t) :=
  let address := mk_byron_address (TxOut.address tx_out) in
  match ByronAddress_decode_payload address with
  | Err _ => throw (Byron UnableToProcessWitness)
  | Ok addr_payload =>
      find_redeeming (AddressPayload.root addr_payload) (AddressPayload.attributes addr_payload)
        (AddressPayload.addrtype addr_payload) witnesses
  end.

(** [&pk[0..32]] *)
Definition get_verification_key (pk : bytes) : option bytes :=
  if (length pk <? 32)%nat then None else Some (take 32 pk).

Definition get_data_to_verify (sign : TaggedSignature.t) (prot_magic : Z) (tx_hash : bytes) : check bytes :=
  let enc :=
    match sign with TaggedSignature.PkWitness _ => w_u64 1 | TaggedSignature.RedeemWitness _ => w_u64 2 end ⊕
    w_u32 prot_magic ⊕ Hash_encode tx_hash in
  ok_or enc (Byron UnableToProcessWitness).

(** [copy_from_slice] panics at another length. *)
Definition get_signature (tagged_signature : TaggedSignature.t) : option bytes :=
  let inner_sig := match tagged_signature with TaggedSignature.PkWitness sign | TaggedSignature.RedeemWitness sign => sign end in
  if (length inner_sig =? 64)%nat then Some inner_sig else None.

Definition check_input_witness (witnesses : list (bytes * TaggedSignature.t)) (tx_hash : bytes) (prot_magic : Z) (utxos : UTxOs)
    (input : TxIn.t) : check () :=
  tx_out ← find_tx_out input utxos;
  w ← find_raw_witness tx_out witnesses;
  let '(pub_key, sign) := w in
  public_key ← eval (get_verification_key pub_key);
  data_to_verify ← get_data_to_verify sign prot_magic tx_hash;
  signature ← eval (get_signature sign);
  if negb (ed25519_verify data_to_verify public_key signature) then throw (Byron WrongSignature) else mret tt.

Definition check_witnesses (mtxp : TxPayload.t) (utxos : UTxOs) (prot_magic : Z) : check () :=
  let tx := inner (TxPayload.transaction mtxp) in
  let tx_hash := Hasher_256 (raw_cbor (TxPayload.transaction mtxp)) in
  witnesses ← tag_witnesses (MaybeIndefArray.deref (inner (TxPayload.witness mtxp)));
  for_each (check_input_witness witnesses tx_hash prot_magic utxos) (tx_ins tx).

Definition validate_byron_tx (mtxp : TxPayload.t) (utxos : UTxOs) (prot_pps : ByronProtParams.t) (prot_magic : Z) : check () :=
  let tx := inner (TxPayload.transaction mtxp) in
  let size := get_tx_size mtxp in
  check_ins_not_empty tx;;
  check_outs_not_empty tx;;
  check_ins_in_utxos tx utxos;;
  check_outs_have_lovelace tx;;
  check_fees tx size utxos prot_pps;;
  check_size size prot_pps;;
  check_witnesses mtxp utxos prot_magic.
End validation.

(** ** Codecs *)
Section codec_laws.
Context `{MinicborLaws}.

#[export] Instance AddrDistr_valid : Valid AddrDistr.t := fun x =>
  match x with AddrDistr.SingleKeyDistribution h => length h = 28%nat | AddrDistr.BootstrapEraDistribution => True end.
#[export] Instance AddrType_valid : Valid AddrType.t := fun x =>
  match x with AddrType.Other x => in_u 32 x /\ 3 <= x | _ => True end.
#[export] Instance AddrAttrProperty_valid : Valid AddrAttrProperty.t := fun x =>
  match x with
  | AddrAttrProperty.AddrDistr x => valid x
  | AddrAttrProperty.DerivationPath bs | AddrAttrProperty.NetworkTag bs => fits_len bs
  end.
#[export] Instance AddrAttrs_valid : Valid AddrAttrs := fun xs => fits_len xs /\ Forall valid xs.

#[export] Instance AddrDistr_codec : Codec AddrDistr.t.
Proof.
  split.
  - intros m Hm. unfold_codec AddrDistr_encode AddrDistr_decode. destruct m; unfold valid in Hm; cbn in Hm.
    + eapply Parses_bind; [solve [eauto with codec]|]. eapply Parses_bind; [solve [eauto with codec]|].
      eapply Parses_bind_last; [apply Hash_parses; [done|lia]|]. apply Parses_ret.
    + solve_parses.
  - unfold decode; unfold AddrDistr_decode. pose proof (Hash_stable 28). solve_stable.
Qed.

#[export] Instance AddrType_codec : Codec AddrType.t.
Proof.
  split.
  - intros m Hm. unfold_codec AddrType_encode AddrType_decode. destruct m; unfold valid in Hm; cbn in Hm; [solve_parses..|].
    destruct Hm as [Hx H3]. eapply Parses_bind_last; [solve [eauto with codec]|].
    repeat (case_match; try lia); apply Parses_ret.
  - unfold decode; unfold AddrType_decode. apply Stable_bind; [solve [eauto with codec]|intros ?].
    repeat case_match; apply Stable_ret.
Qed.

#[export] Instance AddrAttrProperty_codec : Codec AddrAttrProperty.t.
Proof.
  split.
  - intros m Hm. unfold_codec AddrAttrProperty_encode AddrAttrProperty_decode. destruct m; unfold valid in Hm; cbn in Hm; solve_parses.
  - unfold decode; unfold AddrAttrProperty_decode. solve_stable.
Qed.

Lemma times_parses {A} (d : dec A) (e : A -> enc) xs :
  (forall x, x ∈ xs -> Parses d (e x) x) -> Parses (d_times (length xs) d) (enc_all (e <$> xs)) xs.
Proof.
  induction xs as [|x xs IH]; intros Hx; [apply Parses_ret|]. cbn [length d_times fmap list_fmap enc_all].
  eapply Parses_bind; [apply Hx; by left|]. eapply Parses_bind_last; [apply IH; intros; apply Hx; by right|]. apply Parses_ret.
Qed.

Lemma times_stable {A} (d : dec A) n : Stable d -> Stable (d_times n d).
Proof. intros Hd. induction n as [|n IH]; cbn [d_times]; solve_stable. Qed.

#[export] Instance AddrAttrs_codec : Codec AddrAttrs.
Proof.
  split.
  - intros xs [Hl Hv]. unfold_codec AddrAttrs_encode AddrAttrs_decode. eapply Parses_bind; [solve [eauto with codec]|].
    cbn [default from_option id]. rewrite Nat2Z.id. apply times_parses. intros x Hx. apply codec_parses.
    rewrite list.Forall_forall in Hv. by apply Hv.
  - unfold decode; unfold AddrAttrs_decode. apply Stable_bind; [solve [eauto with codec]|intros len]. apply times_stable, codec_stable.
Qed.
End codec_laws.

Definition valid_payload (p : AddressPayload.t) : Prop :=
  length (AddressPayload.root p) = 28%nat /\ valid (AddressPayload.attributes p) /\ valid (AddressPayload.addrtype p).

(** The derived codec writes an array of the fields, which it reads with their codecs. *)
Class PayloadLaws `{Minicbor, PayloadCodec} : Prop := {
  payload_written p : encode p =
    w_array 3 ⊕ Hash_encode (AddressPayload.root p) ⊕ encode (AddressPayload.attributes p) ⊕ encode (AddressPayload.addrtype p);
  payload_read p :
    Parses (Hash_decode 28) (Hash_encode (AddressPayload.root p)) (AddressPayload.root p) ->
    Parses decode (encode (AddressPayload.attributes p)) (AddressPayload.attributes p) ->
    Parses decode (encode (AddressPayload.addrtype p)) (AddressPayload.addrtype p) ->
    Parses decode (encode p) p
}.

Section payloads.
Context `{MinicborLaws, Cryptoxide, PayloadCodec, ByronHashes, !PayloadLaws}.

Lemma property_written (x : AddrAttrProperty.t) : is_Some (encode x).
Proof. destruct x as [[]| |]; eexists; reflexivity. Qed.

Lemma from_decoded_payload p :
  valid_payload p -> exists a, from_decoded p = Some a /\ byron_crc a = CRC_checksum (byron_payload a) /\
    ByronAddress_decode_payload a = Ok p.
Proof.
  intros (Hr & Ha & Ht). unfold from_decoded, Cbor.to_vec.
  assert (is_Some (encode p)) as [b Hb].
  { rewrite payload_written. apply enc_app_is_Some; [by eexists|]. apply enc_app_is_Some; [by eexists|]. apply enc_app_is_Some.
    - apply enc_app_is_Some; [by eexists|]. apply enc_all_is_Some, list.Forall_forall.
      intros e (x & -> & _)%list_elem_of_fmap. apply property_written.
    - destruct (AddressPayload.addrtype p); by eexists. }
  rewrite Hb. cbn. eexists. split_and!; [done|done|]. unfold ByronAddress_decode_payload, from_slice. cbn [byron_payload ByronAddress_new].
  pose proof (payload_read p ltac:(apply Hash_parses; [done|lia]) ltac:(by apply codec_parses) ltac:(by apply codec_parses) b [] Hb) as Hp.
  rewrite app_nil_r in Hp. by rewrite Hp.
Qed.
End payloads.

(** ** What an accepted transaction satisfies *)
Section accepted.
Context `{Minicbor, Cryptoxide, PayloadCodec, ByronHashes}.
Import byron ByronError ValidationError.

Definition byron_out (utxos : UTxOs) (input : TxIn.t) : option TxOut.t := utxos !! MultiEraInput.Byron input ≫= MultiEraOutput.as_byron.

Definition out_amount (utxos : UTxOs) (input : TxIn.t) : Z :=
  match byron_out utxos input with Some out => TxOut.amount out | None => 0 end.

(** The type of the address, as far as it can be read. *)
Definition address_type (out : TxOut.t) : option AddrType.t :=
  match ByronAddress_decode_payload (mk_byron_address (TxOut.address out)) with
  | Ok p => Some (AddressPayload.addrtype p)
  | Err _ => None
  end.

Definition redeem_out (utxos : UTxOs) (input : TxIn.t) : Prop :=
  exists out, byron_out utxos input = Some out /\ address_type out = Some AddrType.Redeem.

Definition sum_of {A} (f : A -> Z) (xs : list A) : Z := foldr Z.add 0 (f <$> xs).

Lemma find_tx_out_yields input utxos out : yields (find_tx_out input utxos) () out () <-> byron_out utxos input = Some out.
Proof.
  unfold find_tx_out, byron_out. split.
  - intros (o & Ho & Hr)%check_bind. destruct (utxos !! _); [|done]. apply check_ret in Ho as ->. cbn.
    destruct (MultiEraOutput.as_byron o); [|done]. by apply check_ret in Hr as ->.
  - intros Ho. destruct (utxos !! _) as [o|]; [|done]. cbn in Ho. eapply yields_bind; [by apply check_ret|]. rewrite Ho. by apply check_ret.
Qed.

Lemma is_redeem_eq input utxos :
  is_redeem_utxo input utxos () = Returned (Ok (bool_decide (byron_out utxos input ≫= address_type = Some AddrType.Redeem))) ().
Proof.
  unfold is_redeem_utxo, find_tx_out, byron_out, ok, mbind, comp_bind, ok_or, option_bind.
  destruct (utxos !! _) as [o|]; [|done]. cbn. destruct (MultiEraOutput.as_byron o) as [out|]; [|done]. cbn. unfold address_type.
  destruct (ByronAddress_decode_payload _) as [p|e]; [|done]. unfold mret, comp_ret. do 2 f_equal. apply bool_decide_ext.
  split; [by intros ->|by intros [= ->]].
Qed.

Definition balances (utxos : UTxOs) (acc : Z * bool) (ins : list TxIn.t) : check (Z * bool) :=
  for_fold (fun (balances : Z * bool) input =>
      let '(inputs_balance, only_redeem_utxos) := balances in
      redeem ← is_redeem_utxo input utxos;
      let only_redeem_utxos := if negb redeem then false else only_redeem_utxos in
      match utxos !! MultiEraInput.Byron input ≫= MultiEraOutput.as_byron with
      | Some byron_utxo =>
          balance ← eval (checked_add 64 inputs_balance (TxOut.amount byron_utxo));
          mret (balance, only_redeem_utxos)
      | None => throw (Byron UnableToComputeFees)
      end) acc ins.

Lemma balances_yields utxos ins b0 only0 b only :
  yields (balances utxos (b0, only0) ins) () (b, only) () ->
  b = b0 + sum_of (out_amount utxos) ins /\ (only = true -> only0 = true /\ Forall (redeem_out utxos) ins).
Proof.
  revert b0 only0; unfold balances; induction ins as [|input ins IH]; intros b0 only0; cbn [for_fold].
  { intros Hr. unfold yields, mret, comp_ret in Hr. injection Hr as <- <-. unfold sum_of. cbn. split; [lia|done]. }
  intros ([b1 only1] & Hr & Hrest)%check_bind. unfold yields in Hr. rewrite (bind_yields _ _ _ _ _ (is_redeem_eq input utxos)) in Hr.
  fold (byron_out utxos input) in Hr. destruct (byron_out utxos input) as [out|] eqn:Ho; [|done].
  apply check_bind in Hr as (n & [Hn _]%yields_eval & Hr).
  unfold yields, mret, comp_ret in Hr. injection Hr as <- Honly.
  apply checked_add_Some in Hn as [_ ->]. apply IH in Hrest as [-> Hor]. split.
  { unfold sum_of. cbn [fmap list_fmap foldr]. unfold out_amount at 2. rewrite Ho. lia. }
  intros Hall. destruct (Hor Hall) as [Hon Hf]. subst only1. rewrite ?Ho in Hon. cbn [mbind option_bind] in Hon.
  case_bool_decide as Ht; cbn [negb] in Hon; [|done]. split; [done|]. constructor; [|done]. by exists out.
Qed.

Lemma outputs_yields outs b0 b :
  yields (for_fold (fun outputs_balance output => eval (checked_add 64 outputs_balance (TxOut.amount output)) : check Z) b0 outs) () b () ->
  b = b0 + sum_of TxOut.amount outs.
Proof.
  revert b0; induction outs as [|out outs IH]; intros b0; cbn [for_fold].
  { intros Hr. apply check_ret in Hr as <-. unfold sum_of. cbn. lia. }
  intros (b1 & [Hb _]%yields_eval & Hr)%check_bind. apply checked_add_Some in Hb as [_ ->]. apply IH in Hr as ->.
  unfold sum_of. cbn. lia.
Qed.

Lemma outputs_sum outs b0 :
  0 <= b0 -> Forall (fun o => 0 <= TxOut.amount o) outs ->
  let m := for_fold (fun outputs_balance output => eval (checked_add 64 outputs_balance (TxOut.amount output)) : check Z) b0 outs in
  m () = Panicked \/ yields m () (b0 + sum_of TxOut.amount outs) ().
Proof.
  revert b0; induction outs as [|out outs IH]; intros b0 Hb Hpos; cbn [for_fold].
  { right. unfold sum_of. cbn. by rewrite Z.add_0_r. }
  inversion Hpos as [|? ? Ho Houts]; subst. destruct (checked_add 64 b0 (TxOut.amount out)) as [n|] eqn:Hn; [|by left].
  apply checked_add_Some in Hn as [_ ->]. destruct (IH (b0 + TxOut.amount out)) as [Hm|Hm]; [lia|done|by left|right].
  unfold sum_of in *. cbn. by rewrite Z.add_assoc.
Qed.

Lemma fees_yields tx size utxos pps :
  yields (check_fees tx size utxos pps) () () () ->
  Forall (redeem_out utxos) (tx_ins tx) \/
  sum_of TxOut.amount (tx_outs tx) + ByronProtParams.summand pps + ByronProtParams.multiplier pps * size <=
    sum_of (out_amount utxos) (tx_ins tx).
Proof.
  unfold check_fees. fold (balances utxos (0, true) (tx_ins tx)). intros ([b only] & Hb%balances_yields & Hr)%check_bind.
  destruct Hb as [-> Honly]. destruct only; [left; by apply Honly|right].
  yields_steps. repeat match goal with
    | H : checked_add _ _ _ = _ |- _ => apply checked_add_Some in H as [? ->]
    | H : checked_mul _ _ _ = _ |- _ => apply checked_mul_Some in H as [? ->]
    | H : checked_sub _ _ = _ |- _ => apply checked_sub_Some in H as [? ->]
    | H : yields (for_fold _ _ _) _ _ _ |- _ => apply outputs_yields in H as -> end.
  match type of Hr with yields (if ?c then _ else _) _ _ _ => destruct c eqn:Hc end; [done|]. apply Z.ltb_ge in Hc. lia.
Qed.

(** ** Witnesses *)

(** A key with a signature of the transaction that holds, for the payload of an address. *)
Definition unlocks (p : AddressPayload.t) (tx_hash : bytes) (prot_magic : Z) (w : bytes * TaggedSignature.t) : Prop :=
  convert_to_addr_type w.2 = AddressPayload.addrtype p /\
  (exists data, mk_spending_data w.1 (AddressPayload.addrtype p) = Some data /\
    hash_address_id (AddressPayload.addrtype p) data (AddressPayload.attributes p) = Some (AddressPayload.root p)) /\
  (32 <= length w.1)%nat /\
  exists msg sig, yields (get_data_to_verify w.2 prot_magic tx_hash) () msg () /\ get_signature w.2 = Some sig /\
    ed25519_verify msg (take 32 w.1) sig = true.

Lemma find_redeeming_yields root attr ty wits w :
  yields (find_redeeming root attr ty wits) () w () ->
  w ∈ wits /\ convert_to_addr_type w.2 = ty /\
  exists data, mk_spending_data w.1 ty = Some data /\ hash_address_id ty data attr = Some root.
Proof.
  induction wits as [|[pk sign] wits IH]; cbn [find_redeeming]; [done|].
  intros (found & [Hf _]%yields_eval & Hr)%check_bind. destruct found.
  - assert (w = (pk, sign)) as -> by (unfold yields, mret, comp_ret in Hr; by destruct ty; simplify_eq).
    unfold redeems in Hf. destruct (mk_spending_data pk ty) as [data|] eqn:Hd; [|done]. cbn in Hf.
    destruct (hash_address_id ty data attr) as [h|] eqn:Hh; [|done]. cbn in Hf. injection Hf as Hf.
    apply andb_true_iff in Hf as [->%bool_decide_eq_true ?%bool_decide_eq_true].
    split_and!; [by left|done|]. by exists data.
  - apply IH in Hr as (? & ? & ?). split_and!; [by right|done..].
Qed.

Lemma byron_input_witness_yields wits tx_hash magic utxos input :
  yields (check_input_witness wits tx_hash magic utxos input) () () () ->
  exists out p w, byron_out utxos input = Some out /\
    ByronAddress_decode_payload (mk_byron_address (TxOut.address out)) = Ok p /\ w ∈ wits /\ unlocks p tx_hash magic w.
Proof.
  unfold check_input_witness. intros (out & Ho%find_tx_out_yields & Hr)%check_bind.
  apply check_bind in Hr as ([pk sign] & Hw & Hr). unfold find_raw_witness in Hw.
  destruct (ByronAddress_decode_payload _) as [p|e] eqn:Hp; [|done].
  apply find_redeeming_yields in Hw as (Hin & Hty & Hdata). yields_steps.
  exists out, p, (pk, sign). split_and!; [done..|]. unfold unlocks. cbn [fst snd] in *.
  unfold get_verification_key in *. destruct (Nat.ltb_spec (length pk) 32); simplify_eq. split_and!; [done..|].
  do 2 eexists. split_and!; [done..|]. by destruct (ed25519_verify _ _ _).
Qed.

(** C10: what an accepted Byron transaction satisfies: it has inputs and outputs, each input is an unspent
    Byron output with a witness whose key hashes to the root of its address and whose signature of the transaction holds,
    no output is empty, the size is within the limit, and the outputs with the minimal fee are covered by the inputs unless
    all of these are of redeem addresses, in which case the amounts are not compared. *)
Theorem byron_accepted mtxp utxos pps magic :
  let tx := inner (TxPayload.transaction mtxp) in
  let tx_hash := Hasher_256 (raw_cbor (TxPayload.transaction mtxp)) in
  validate_byron_tx mtxp utxos pps magic () = Returned (Ok ()) () ->
  tx_ins tx <> [] /\ tx_outs tx <> [] /\ Forall (fun out => TxOut.amount out <> 0) (tx_outs tx) /\
  get_tx_size mtxp <= ByronProtParams.max_tx_size pps /\
  (Forall (redeem_out utxos) (tx_ins tx) \/
    sum_of TxOut.amount (tx_outs tx) + ByronProtParams.summand pps + ByronProtParams.multiplier pps * get_tx_size mtxp <=
      sum_of (out_amount utxos) (tx_ins tx)) /\
  exists wits, yields (tag_witnesses (MaybeIndefArray.deref (inner (TxPayload.witness mtxp)))) () wits () /\
    Forall (fun input => exists out p w, byron_out utxos input = Some out /\
      ByronAddress_decode_payload (mk_byron_address (TxOut.address out)) = Ok p /\ w ∈ wits /\ unlocks p tx_hash magic w) (tx_ins tx).
Proof.
  intros tx tx_hash Hv. fold (yields (validate_byron_tx mtxp utxos pps magic) () () ()) in Hv. unfold validate_byron_tx in Hv.
  fold tx in Hv. apply check_bind in Hv as ([] & Hins & Hv). apply check_bind in Hv as ([] & Houts & Hv).
  apply check_bind in Hv as ([] & _ & Hv). apply check_bind in Hv as ([] & Hlove & Hv).
  apply check_bind in Hv as ([] & Hfees%fees_yields & Hv). apply check_bind in Hv as ([] & Hsize & Hw). split_and!.
  - unfold check_ins_not_empty in Hins. by destruct (tx_ins tx).
  - unfold check_outs_not_empty in Houts. by destruct (tx_outs tx).
  - unfold check_outs_have_lovelace in Hlove. eapply for_each_check; [|exact Hlove].
    intros out Ho. cbn in Ho. destruct (Z.eqb_spec (TxOut.amount out) 0); done.
  - unfold check_size in Hsize. destruct (Z.ltb_spec (ByronProtParams.max_tx_size pps) (get_tx_size mtxp)); [done|lia].
  - done.
  - unfold check_witnesses in Hw. apply check_bind in Hw as (wits & Hwits & Hw). exists wits. split; [done|].
    eapply for_each_check; [|exact Hw]. intros input. apply byron_input_witness_yields.
Qed.

(** Two transactions on which the validator panics instead of refusing them: one that spends an output whose
    address is neither of a key nor a redeem address, when it has a witness; and one whose outputs exceed its inputs, which
    are not all of redeem addresses. *)
Theorem byron_panics wits tx_hash magic utxos input out ty tx size pps b only :
  (byron_out utxos input = Some out -> address_type out = Some ty -> ty <> AddrType.PubKey -> ty <> AddrType.Redeem -> wits <> [] ->
    check_input_witness wits tx_hash magic utxos input () = Panicked) /\
  (yields (balances utxos (0, true) (tx_ins tx)) () (b, only) () -> only = false ->
    Forall (fun o => 0 <= TxOut.amount o) (tx_outs tx) -> b < sum_of TxOut.amount (tx_outs tx) ->
    check_fees tx size utxos pps () = Panicked).
Proof.
  split.
  - intros Ho Hty Hk Hr Hw. unfold check_input_witness.
    rewrite (bind_yields _ _ _ _ _ (proj2 (find_tx_out_yields _ _ _) Ho)). unfold address_type in Hty. unfold find_raw_witness.
    destruct (ByronAddress_decode_payload _) as [p|e]; [|done]. injection Hty as Hty. rewrite Hty.
    destruct wits as [|[pk sign] wits]; [done|]. cbn [find_redeeming]. by destruct ty.
  - intros Hb -> Hpos Hlt. unfold check_fees. fold (balances utxos (0, true) (tx_ins tx)).
    rewrite (bind_yields _ _ _ _ _ Hb). destruct (outputs_sum (tx_outs tx) 0) as [Hs|Hs]; [done|done| |].
    + unfold mbind, comp_bind. by rewrite Hs.
    + rewrite (bind_yields _ _ _ _ _ Hs). unfold mbind, comp_bind, eval, checked_sub. by rewrite (proj2 (Z.leb_gt _ _)) by lia.
Qed.
End accepted.

(** ** Sample transactions *)
Module byron_sample.
Export toy.

#[export] Instance codec : PayloadCodec := {|
  AddressPayload_encode p := w_array 3 ⊕ Hash_encode (AddressPayload.root p) ⊕ encode (AddressPayload.attributes p) ⊕
    encode (AddressPayload.addrtype p);
  AddressPayload_decode :=
    d_array;; root ← Hash_decode 28; attributes ← decode; addrtype ← decode; mret (AddressPayload.mk root attributes addrtype);
  SpendingData_encode d :=
    match d with
    | SpendingData.PubKey x => w_array 2 ⊕ w_u8 0 ⊕ w_bytes x
    | SpendingData.Script x => w_array 2 ⊕ w_u8 1 ⊕ w_bytes x
    | SpendingData.Redeem x => w_array 2 ⊕ w_u8 2 ⊕ w_bytes x
    end
|}.
#[export] Instance codec_laws : PayloadLaws.
Proof.
  split; [done|]. intros p Hr Ha Ht. unfold encode, decode; cbn [AddressPayload_encode AddressPayload_decode codec].
  eapply Parses_bind; [apply array_parses; unfold in_u; lia|]. eapply Parses_bind; [exact Hr|]. eapply Parses_bind; [exact Ha|].
  eapply Parses_bind_last; [exact Ht|]. destruct p. apply Parses_ret.
Qed.

#[export] Instance hashes : ByronHashes := {| sha3_256 b := drop 5 b; CRC_checksum b := Z.of_nat (length b) |}.

Definition key (x : Z) : bytes := replicate 64 x.
Definition payload_of (t : AddrType.t) (d : SpendingData.t) : AddressPayload.t :=
  default (AddressPayload.mk [] [] t) (AddressPayload_new t d [AddrAttrProperty.NetworkTag [1]]).
Definition address_of (p : AddressPayload.t) : byron.Address.t :=
  let a := default {| byron_payload := []; byron_crc := 0 |} (from_decoded p) in byron.Address.mk (byron_payload a) (byron_crc a).
Definition owned (x : Z) (amount : Z) : byron.TxOut.t :=
  byron.TxOut.mk (address_of (payload_of AddrType.PubKey (SpendingData.PubKey (key x)))) amount.
Definition script_out : byron.TxOut.t := byron.TxOut.mk (address_of (AddressPayload.mk (replicate 28 0) [] AddrType.Script)) 5.

Definition raw : bytes := [1; 2; 3].
Definition message : bytes := default [] (w_u64 1 ⊕ w_u32 42 ⊕ Hash_encode (Hasher_256 raw)).
Definition signature (x : Z) : bytes := take 32 message ++ take 32 (key x).
Definition input (i : Z) : byron.TxIn.t := byron.TxIn.Variant0 (replicate 32 0) i.
Definition tx (ins : list byron.TxIn.t) (outs : list byron.TxOut.t) (wits : list byron.Twit.t) : byron.TxPayload.t :=
  byron.TxPayload.mk (mkKeepRaw raw (byron.Tx.mk (MaybeIndefArray.Def ins) (MaybeIndefArray.Indef outs) tt))
    (mkKeepRaw [4; 5] (MaybeIndefArray.Def wits)).
Definition pps : ByronProtParams.t := {|
  ByronProtParams.block_version := (1, 0, 0);
  ByronProtParams.start_time := 0;
  ByronProtParams.script_version := 0;
  ByronProtParams.slot_duration := 20000;
  ByronProtParams.max_block_size := 2000000;
  ByronProtParams.max_header_size := 2000000;
  ByronProtParams.max_tx_size := 4096;
  ByronProtParams.max_proposal_size := 700;
  ByronProtParams.mpc_thd := 1;
  ByronProtParams.heavy_del_thd := 1;
  ByronProtParams.update_vote_thd := 1;
  ByronProtParams.update_proposal_thd := 1;
  ByronProtParams.update_implicit := 1;
  ByronProtParams.soft_fork_rule := (1, 1, 1);
  ByronProtParams.summand := 10;
  ByronProtParams.multiplier := 2;
  ByronProtParams.unlock_stake_epoch := 1
|}.
Definition utxos : UTxOs := list_to_map
  [(MultiEraInput.Byron (input 0), MultiEraOutput.Byron (owned 7 100));
   (MultiEraInput.Byron (input 1), MultiEraOutput.Byron script_out)].
Definition good : byron.TxPayload.t := tx [input 0] [owned 9 80] [byron.Twit.PkWitness (key 7) (signature 7)].

Lemma good_accepted : validate_byron_tx good utxos pps 42 () = Returned (Ok ()) ().
Proof. vm_compute. reflexivity. Qed.
End byron_sample.

Section byron_samples.
Import byron_sample.

Lemma byron_accepted_witness :
  validate_byron_tx good utxos pps 42 () = Returned (Ok ()) () /\ get_tx_size good <= 4096.
Proof.
  split; [apply good_accepted|]. pose proof (byron_accepted good utxos pps 42 good_accepted) as Hg.
  apply (proj1 (proj2 (proj2 (proj2 Hg)))).
Defined.

Lemma byron_panics_witness :
  check_input_witness [(key 7, TaggedSignature.PkWitness (signature 7))] (Hasher_256 raw) 42 utxos (input 1) () = Panicked /\
  check_fees (inner (byron.TxPayload.transaction (tx [input 0] [owned 9 101] []))) 5 utxos pps () = Panicked.
Proof.
  pose proof (byron_panics [(key 7, TaggedSignature.PkWitness (signature 7))] (Hasher_256 raw) 42 utxos (input 1) script_out AddrType.Script
    (inner (byron.TxPayload.transaction (tx [input 0] [owned 9 101] []))) 5 pps 100 false) as [H1 H2]. split.
  - apply H1; [by vm_compute|by vm_compute|done..].
  - apply H2; [by vm_compute|done|by repeat constructor|by vm_compute].
Defined.
End byron_samples.
