(* ===== verification/Phase1.v ===== *)
(** * Checks the eras from Alonzo on share

    The validators of Alonzo, Babbage and Conway repeat many loops with other errors.
    Each loop is defined here once, with the errors as parameters, and
    [Alonzo], [Babbage] and [Conway] instantiate it where their source has it.  With
    each goes the lemma that says when it succeeds. *)
From Stdlib Require Import String.
From S2P Require Import Prelude Cbor Effects Tree NativeScript PlutusData Address SlotTime LedgerTypes Assets ShelleyMA.
From S2P Require Import ShelleyProps.
Import alonzo ValidationError.

(** The codecs minicbor derives for the ledger types, redeemers and whole
    transactions, and the crate hex. *)
Class DerivedCodecs := {
  alonzo_redeemer_encode : Redeemer.t -> bytes;
  conway_redeemer_encode : conway.Redeemer.t -> bytes;
  conway_redeemer_entry_encode : conway.RedeemersKey.t * conway.RedeemersValue.t -> bytes;
  babbage_tx_encode : babbage.Tx.t -> option bytes;
  conway_tx_encode : conway.Tx.t -> option bytes;
  hex_decode : string -> option bytes
}.

(** ** The order of inputs and policies *)
Definition input_cmp (a b : TransactionInput.t) : comparison :=
  match bytes_cmp (TransactionInput.transaction_id a) (TransactionInput.transaction_id b) with
  | Eq => TransactionInput.index a ?= TransactionInput.index b
  | o => o
  end.

Definition input_le (a b : TransactionInput.t) : Prop := input_cmp a b <> Gt.
#[export] Instance input_le_dec a b : Decision (input_le a b).
Proof. unfold input_le. apply _. Defined.

Definition bytes_le (a b : bytes) : Prop := bytes_cmp a b <> Gt.
#[export] Instance bytes_le_dec a b : Decision (bytes_le a b).
Proof. unfold bytes_le. apply _. Defined.

Definition sorted_inputs (inputs : list TransactionInput.t) : list TransactionInput.t := merge_sort input_le inputs.

(** [keys] of a [BTreeMap], and [sort] on them. *)
Definition keys {V} (m : gmap bytes V) : list bytes := merge_sort bytes_le (map_to_list m).*1.
Definition sorted_keys {V} (m : gmap bytes V) : list bytes := merge_sort bytes_le (keys m).

(** The elements with their indices as [u32]. *)
Definition enumerate {A} (xs : list A) : list (Z * A) := imap (fun i x => (Z.of_nat i mod 2 ^ 32, x)) xs.

Section checks.
Context `{Minicbor, ByronCodec, Cryptoxide}.

(** ** Inputs, times, fees *)
Definition inputs_in_utxos (utxos : UTxOs) (err : ValidationError) (inputs : list TransactionInput.t) : check () :=
  for_each (fun input => match utxo utxos input with None => throw err | Some _ => mret tt end) inputs.

Definition lower_bound_check (validity_interval_start : option Z) (block_slot : Z) (err : ValidationError) : check () :=
  match validity_interval_start with
  | Some lower_bound => if block_slot <? lower_bound then throw err else mret tt
  | None => mret tt
  end.

Definition upper_bound_check (ttl : option Z) (block_slot : Z) (err : ValidationError) : check () :=
  match ttl with
  | Some upper_bound => if upper_bound <? block_slot then throw err else mret tt
  | None => mret tt
  end.

(** [prot_pps.minfee_b + prot_pps.minfee_a * size], in [u32] *)
Definition min_fee_check (fee size minfee_a minfee_b : Z) (err : ValidationError) : check () :=
  by_size ← eval (checked_mul 32 minfee_a size);
  min ← eval (checked_add 32 minfee_b by_size);
  if fee <? min then throw err else mret tt.

(** ** Execution units *)
Definition ex_units_sum (units : list ExUnits) : check ExUnits :=
  for_fold (fun sum ex_units =>
      m ← eval (checked_add 64 (mem sum) (mem ex_units));
      s ← eval (checked_add 64 (steps sum) (steps ex_units));
      mret {| mem := m; steps := s |}) {| mem := 0; steps := 0 |} units.

Definition ex_units_check (sum max : ExUnits) (err : ValidationError) : check () :=
  if (mem max <? mem sum) || (steps max <? steps sum) then throw err else mret tt.

(** ** Scripts that are needed

    The scripts are pairs with a flag, which is set when one is needed. *)
Fixpoint mark {A} (hash_of : A -> check bytes) (hash : bytes) (covered : bool) (scripts : list (bool * A)) :
    check (bool * list (bool * A)) :=
  match scripts with
  | [] => mret (covered, [])
  | (script_covered, script) :: scripts =>
      hashed_script ← hash_of script;
      if bool_decide (hash = hashed_script) then
        r ← mark hash_of hash true scripts;
        mret (r.1, (true, script) :: r.2)
      else
        r ← mark hash_of hash covered scripts;
        mret (r.1, (script_covered, script) :: r.2)
  end.

(** [for (covered, hash) in &mut needed { .. }], where the scripts are the state *)
Fixpoint cover {S} (mark_all : bytes -> S -> check (bool * S)) (needed : list bytes) (scripts : S) :
    check (list (bool * bytes) * S) :=
  match needed with
  | [] => mret ([], scripts)
  | hash :: needed =>
      r ← mark_all hash scripts;
      rest ← cover mark_all needed r.2;
      mret ((r.1, hash) :: rest.1, rest.2)
  end.

Definition all_covered {A} (scripts : list (bool * A)) (err : A -> ValidationError) : check () :=
  for_each (fun s => let '(covered, x) := s in if negb covered then throw (err x) else mret tt) scripts.

(** ** Data

    The first datum with the hash is marked. *)
Fixpoint mark_datum {A} (hash_of : A -> bytes) (datum_hash : bytes) (err : ValidationError) (data : list (bool * A)) :
    check (list (bool * A)) :=
  match data with
  | [] => throw err
  | (found, datum) :: data =>
      if bool_decide (datum_hash = hash_of datum) then mret ((true, datum) :: data)
      else
        data ← mark_datum hash_of datum_hash err data;
        mret ((found, datum) :: data)
  end.

(** ** Redeemers *)
Definition pointers_coincide {P} `{EqDecision P} (redeemers plutus_scripts : list P) (unneeded missing : ValidationError) : check () :=
  for_each (fun redeemer => if forallb (fun x => negb (bool_decide (x = redeemer))) plutus_scripts
                            then throw unneeded else mret tt) redeemers;;
  for_each (fun pointer => if forallb (fun x => negb (bool_decide (x = pointer))) redeemers
                           then throw missing else mret tt) plutus_scripts.

(** ** Keys *)
Fixpoint find_signer (vkey_hash data_to_verify : bytes) (missing wrong : ValidationError) (vkey_wits : list VKeyWitness.t) : check () :=
  match vkey_wits with
  | [] => throw missing
  | vkey_wit :: vkey_wits =>
      if bool_decide (Hasher_224 (VKeyWitness.vkey vkey_wit) = vkey_hash) then
        valid ← eval (verify_signature vkey_wit data_to_verify);
        if negb valid then throw wrong else mret tt
      else find_signer vkey_hash data_to_verify missing wrong vkey_wits
  end.

Definition signers_check (required_signers : option (list bytes)) (vkey_wits : option (list VKeyWitness.t))
    (data_to_verify : bytes) (missing wrong : ValidationError) : check () :=
  match required_signers with
  | Some req_signers =>
      match vkey_wits with
      | Some vkey_wits => for_each (fun req_signer => find_signer req_signer data_to_verify missing wrong vkey_wits) req_signers
      | None => throw missing
      end
  | None => mret tt
  end.

(** The first witness with the key is marked, if its signature holds. *)
Fixpoint mark_witness (payment_key_hash data_to_verify : bytes) (missing wrong : ValidationError)
    (wits : list (bool * VKeyWitness.t)) : check (list (bool * VKeyWitness.t)) :=
  match wits with
  | [] => throw missing
  | (covered, vkey_wit) :: wits =>
      if bool_decide (Hasher_224 (VKeyWitness.vkey vkey_wit) = payment_key_hash) then
        valid ← eval (verify_signature vkey_wit data_to_verify);
        if negb valid then throw wrong else mret ((true, vkey_wit) :: wits)
      else
        wits ← mark_witness payment_key_hash data_to_verify missing wrong wits;
        mret ((covered, vkey_wit) :: wits)
  end.

(** The first witness that is not marked decides. *)
Fixpoint remaining_check (wits : list (bool * VKeyWitness.t)) (data_to_verify : bytes) (wrong : ValidationError) : check () :=
  match wits with
  | [] => mret tt
  | (covered, vkey_wit) :: wits =>
      if negb covered then
        valid ← eval (verify_signature vkey_wit data_to_verify);
        if (valid : bool) then mret tt else throw wrong
      else remaining_check wits data_to_verify wrong
  end.

(** ** Metadata *)
Definition metadata_check (auxiliary_data_hash metadata : option bytes) (err : ValidationError) : check () :=
  match auxiliary_data_hash, metadata with
  | Some metadata_hash, Some metadata =>
      if bool_decide (metadata_hash = Hasher_256 metadata) then mret tt else throw err
  | None, None => mret tt
  | _, _ => throw err
  end.

Definition network_id_check (network_id : option NetworkId.t) (global : Z) (err : ValidationError) : check () :=
  match network_id with
  | Some tx_network_id => if negb (NetworkId.to_u8 tx_network_id =? global) then throw err else mret tt
  | None => mret tt
  end.

Definition address_network_check (network_id : Z) (decoding wrong : ValidationError) (address : bytes) : check () :=
  addr ← get_shelley_address address;
  addr ← ok_or addr decoding;
  if negb (Network.value (ShelleyAddress.network addr) =? network_id) then throw wrong else mret tt.

(** [option_vec_is_empty] *)
Definition option_vec_is_empty {A} (option_vec : option (list A)) : bool :=
  match option_vec with Some [] | None => true | Some _ => false end.

(** ** Hashes of scripts and data *)
Definition compute_plutus_v1_script_hash (script : bytes) : bytes := Hasher_224 (1 :: script).
Definition compute_plutus_v2_script_hash (script : bytes) : bytes := Hasher_224 (2 :: script).
Definition compute_plutus_v3_script_hash (script : bytes) : bytes := Hasher_224 (3 :: script).

(** [let _ = encoder.encode(datum)], one datum after the other *)
Fixpoint encode_data (data : list PlutusData) (buffer : bytes) : check bytes :=
  match data with
  | [] => mret buffer
  | datum :: data =>
      match data_encode datum buffer with
      | Returned _ buffer => encode_data data buffer
      | Panicked => eval None
      | Unfinished => unfinished
      end
  end.
(** ** Values *)
Definition preservation_check (get_consumed get_produced : check Value) (fee : Z) (mint : option Multiasset)
    (negative unequal : ValidationError) : check () :=
  input ← get_consumed;
  produced ← get_produced;
  output ← add_values produced (Value.Coin fee) negative;
  input ← match mint with Some m => add_minted_value input m negative | None => mret input end;
  if negb (values_are_equal input output) then throw unequal else mret tt.

(** ** What inputs spend

    The outputs of the era have an address and perhaps the hash of a datum. *)
Section spent_outputs.
Context (utxos : UTxOs) (address_of : MultiEraOutput.t -> option bytes) (datum_of : MultiEraOutput.t -> option (option bytes)).

Definition script_hash_at (input : TransactionInput.t) : check (option bytes) :=
  match utxo utxos input ≫= address_of with
  | Some address =>
      payment_part ← get_payment_part address;
      mret (match payment_part with Some (ShelleyPaymentPart.Script script_hash) => Some script_hash | _ => None end)
  | None => mret None
  end.

Fixpoint script_hashes (inputs : list TransactionInput.t) : check (list bytes) :=
  match inputs with
  | [] => mret []
  | input :: inputs =>
      hash ← script_hash_at input;
      res ← script_hashes inputs;
      mret (match hash with Some script_hash => script_hash :: res | None => res end)
  end.

Fixpoint spent_hashes (sorted_inputs : list (Z * TransactionInput.t)) : check (list (Z * bytes)) :=
  match sorted_inputs with
  | [] => mret []
  | (index, input) :: sorted_inputs =>
      hash ← script_hash_at input;
      res ← spent_hashes sorted_inputs;
      mret (match hash with Some script_hash => (index, script_hash) :: res | None => res end)
  end.

Definition collaterals_address_check (decoding not_key unknown : ValidationError) (collaterals : list TransactionInput.t) : check () :=
  for_each (fun collateral =>
      match utxo utxos collateral with
      | Some output =>
          match address_of output with
          | Some address =>
              part ← get_payment_part address;
              part ← ok_or part decoding;
              match part with
              | ShelleyPaymentPart.Script _ => throw not_key
              | ShelleyPaymentPart.Key _ => mret tt
              end
          | None => mret tt
          end
      | None => throw unknown
      end) collaterals.

Definition input_data_check {D} (hash_of : D -> bytes) (missing unknown : ValidationError) (inputs : list TransactionInput.t)
    (plutus_data : list (bool * D)) : check (list (bool * D)) :=
  for_fold (fun plutus_data input =>
      match utxo utxos input ≫= datum_of with
      | Some (Some datum_hash) => mark_datum hash_of datum_hash missing plutus_data
      | Some None => mret plutus_data
      | None => throw unknown
      end) plutus_data inputs.

(** An output without an address is passed over, or refused with [other]. *)
Definition owners_check (other : option ValidationError) (decoding missing wrong unknown : ValidationError) (tx_hash : bytes) (inputs : list TransactionInput.t)
    (vk_wits : list (bool * VKeyWitness.t)) : check (list (bool * VKeyWitness.t)) :=
  for_fold (fun vk_wits input =>
      match utxo utxos input with
      | Some output =>
          match address_of output with
          | Some address =>
              part ← get_payment_part address;
              part ← ok_or part decoding;
              match part with
              | ShelleyPaymentPart.Key payment_key_hash => mark_witness payment_key_hash tx_hash missing wrong vk_wits
              | ShelleyPaymentPart.Script _ => mret vk_wits
              end
          | None => match other with Some err => throw err | None => mret vk_wits end
          end
      | None => throw unknown
      end) vk_wits inputs.
End spent_outputs.
End checks.

(** ** When the checks succeed *)
Lemma yields_inj {E S A} (m : comp E S A) s a s1 b s2 : yields m s a s1 -> yields m s b s2 -> a = b /\ s1 = s2.
Proof. unfold yields. intros -> [= -> ->]. done. Qed.

(** A refusal of the one case, and what is known in the other. *)
Lemma check_unless (b : bool) err : yields (if b then throw err else mret tt : check ()) () () () <-> b = false.
Proof. destruct b; [split; [by intros ?%check_throw|done]|done]. Qed.

Lemma check_when (b : bool) err : yields (if b then mret tt else throw err : check ()) () () () <-> b = true.
Proof. destruct b; [done|split; [by intros ?%check_throw|done]]. Qed.

(** The first check of a sequence succeeded. *)
Ltac next H x := apply check_bind in H as ([] & x & H).

Ltac numbers :=
  repeat match goal with
  | H : checked_add _ _ _ = Some _ |- _ => apply checked_add_Some in H as [? ->]
  | H : checked_mul _ _ _ = Some _ |- _ => apply checked_mul_Some in H as [? ->]
  | H : checked_sub _ _ = Some _ |- _ => apply checked_sub_Some in H as [? ->]
  end.

Section laws.
Context `{Minicbor, ByronCodec, Cryptoxide}.

Lemma inputs_in_utxos_yields utxos err inputs :
  yields (inputs_in_utxos utxos err inputs) () () () -> Forall (fun i => is_Some (utxo utxos i)) inputs.
Proof. apply for_each_check. intros i. by destruct (utxo utxos i). Qed.

Lemma lower_bound_yields start slot err :
  yields (lower_bound_check start slot err) () () () <-> forall a, start = Some a -> a <= slot.
Proof.
  unfold lower_bound_check. destruct start as [a|]; [|by split]. rewrite check_unless, Z.ltb_ge. naive_solver.
Qed.

Lemma upper_bound_yields ttl slot err :
  yields (upper_bound_check ttl slot err) () () () <-> forall b, ttl = Some b -> slot <= b.
Proof.
  unfold upper_bound_check. destruct ttl as [b|]; [|by split]. rewrite check_unless, Z.ltb_ge. naive_solver.
Qed.

Lemma min_fee_yields fee size a b err :
  yields (min_fee_check fee size a b err) () () () -> b + a * size <= fee.
Proof.
  unfold min_fee_check. intros (x & Hx%check_eval & (y & Hy%check_eval & Hr)%check_bind)%check_bind. numbers.
  by rewrite check_unless, Z.ltb_ge in Hr.
Qed.

Lemma ex_units_sum_from sum units r :
  yields (for_fold (fun sum ex_units =>
      m ← eval (checked_add 64 (mem sum) (mem ex_units));
      s ← eval (checked_add 64 (steps sum) (steps ex_units));
      mret {| mem := m; steps := s |}) sum units : check ExUnits) () r () ->
  mem r = mem sum + sum_of mem units /\ steps r = steps sum + sum_of steps units.
Proof.
  revert sum; induction units as [|u units IH]; intros sum; cbn [for_fold]; unfold sum_of in *.
  - intros <-%check_ret. cbn. lia.
  - intros (s & (m & Hm%check_eval & (n & Hn%check_eval & <-%check_ret)%check_bind)%check_bind & Hr)%check_bind. numbers.
    apply IH in Hr as [-> ->]. cbn. lia.
Qed.

Lemma sum_of_fmap {A B} (f : B -> Z) (g : A -> B) xs : sum_of f (g <$> xs) = sum_of (fun x => f (g x)) xs.
Proof. unfold sum_of. by rewrite <- list_fmap_compose. Qed.

Lemma ex_units_yields units max err :
  yields (sum ← ex_units_sum units; ex_units_check sum max err) () () () ->
  sum_of mem units <= mem max /\ sum_of steps units <= steps max.
Proof.
  intros (r & [Hm Hs]%ex_units_sum_from & Hr)%check_bind. unfold ex_units_check in Hr.
  rewrite check_unless, orb_false_iff, !Z.ltb_ge in Hr. cbn [mem steps] in *. lia.
Qed.

(** *** Scripts *)
Definition flag {A} (f : A -> bytes) (hash : bytes) (x : bool * A) : bool * A := (x.1 || bool_decide (hash = f x.2), x.2).

Lemma mark_yields {A} (hash_of : A -> check bytes) (f : A -> bytes) hash covered scripts r :
  Forall (fun s => yields (hash_of s.2) () (f s.2) ()) scripts -> yields (mark hash_of hash covered scripts) () r () ->
  r = (covered || bool_decide (hash ∈ f <$> scripts.*2), flag f hash <$> scripts).
Proof.
  revert covered r; induction scripts as [|[c s] scripts IH]; intros covered r Hf; cbn [mark].
  - intros <-%check_ret. cbn. by rewrite bool_decide_false, orb_false_r by set_solver.
  - apply Forall_cons in Hf as [Hs Hf]. intros (h & Hh & Hr)%check_bind. destruct (yields_inj _ _ _ _ _ _ Hs Hh) as [<- _].
    unfold flag at 1. cbn [snd fst] in *. destruct (decide (hash = f s)) as [He|He].
    + rewrite bool_decide_true in Hr by done. apply check_bind in Hr as (p & ->%IH & <-%check_ret); [|done].
      cbn [fst snd fmap list_fmap orb]. rewrite (bool_decide_true (hash ∈ f s :: _)) by (rewrite He; left).
      rewrite bool_decide_true by done. by rewrite !orb_true_r.
    + rewrite bool_decide_false in Hr by done. apply check_bind in Hr as (p & ->%IH & <-%check_ret); [|done].
      cbn [fst snd fmap list_fmap]. rewrite (bool_decide_false (hash = f s)) by done. rewrite orb_false_r. do 2 f_equal.
      apply bool_decide_ext. rewrite elem_of_cons. naive_solver.
Qed.

(** The loop over the needed hashes, where [view] lists the flags and hashes of the
    scripts. *)
Section cover.
Context {S : Type} (mark_all : bytes -> S -> check (bool * S)) (view : S -> list (bool * bytes)) (good : S -> Prop).

Definition marks : Prop := forall hash s r, good s -> yields (mark_all hash s) () r () ->
  r.1 = bool_decide (hash ∈ (view s).*2) /\ good r.2 /\ view r.2 = flag id hash <$> view s.

Lemma flagged_hashes hash (l : list (bool * bytes)) : (flag id hash <$> l).*2 = l.*2.
Proof. rewrite <- list_fmap_compose. by apply list_fmap_ext. Qed.

Lemma cover_yields (Hmarks : marks) needed s r :
  good s -> yields (cover mark_all needed s) () r () ->
  r.1 = (fun h => (bool_decide (h ∈ (view s).*2), h)) <$> needed /\ good r.2 /\
  view r.2 = (fun x => (x.1 || bool_decide (x.2 ∈ needed), x.2)) <$> view s.
Proof.
  revert s r; induction needed as [|h needed IH]; intros s r Hs; cbn [cover].
  - intros <-%check_ret. cbn. split_and!; [done..|]. symmetry. erewrite list_fmap_ext; [apply list_fmap_id|].
    intros ? [b x] _. cbn. by rewrite bool_decide_false, orb_false_r by set_solver.
  - intros (m & Hm & (rest & Hrest & <-%check_ret)%check_bind)%check_bind. apply Hmarks in Hm as (Hb & Hg & Hv); [|done].
    apply IH in Hrest as (Hr & Hgr & Hvr); [|done]. cbn. rewrite Hb, Hr, Hvr, Hv, flagged_hashes. split_and!; [done..|].
    rewrite <- list_fmap_compose. apply list_fmap_ext. intros ? [b x] _. cbn. f_equal. rewrite <- orb_assoc. f_equal.
    rewrite <- bool_decide_or. apply bool_decide_ext. rewrite elem_of_cons. naive_solver.
Qed.
End cover.

Lemma all_covered_yields {A} (scripts : list (bool * A)) err :
  yields (all_covered scripts err) () () () -> Forall (fun s => s.1 = true) scripts.
Proof. apply for_each_check. intros [[] x]; [done|]. by intros ?%check_throw. Qed.

(** *** Data *)
Lemma mark_datum_yields {A} (f : A -> bytes) hash err data r :
  yields (mark_datum f hash err data) () r () ->
  r.*2 = data.*2 /\ hash ∈ f <$> data.*2 /\ Forall2 (fun x y => x.2 = y.2 /\ (y.1 = true -> x.1 = true \/ f y.2 = hash)) data r.
Proof.
  revert r; induction data as [|[found d] data IH]; intros r; cbn [mark_datum]; [by intros ?%check_throw|].
  case_bool_decide as Hh.
  - intros <-%check_ret. cbn. split_and!; [done|rewrite Hh; left|]. constructor; [by split; [|right]|].
    apply Forall_Forall2_diag, Forall_true. auto.
  - intros (p & (Hp & Hin & Hall)%IH & <-%check_ret)%check_bind. cbn. split_and!; [by f_equal|by right|]. constructor; [by split; [|left]|done].
Qed.

(** A loop that marks data for what is spent. *)
Lemma marking_data_yields {A D} (f : list (bool * D) -> A -> check (list (bool * D))) (P : list D -> A -> Prop) (Q : A -> D -> Prop) xs ds r :
  (forall ds x ds', yields (f ds x) () ds' () ->
    ds'.*2 = ds.*2 /\ P ds.*2 x /\ Forall2 (fun a b => a.2 = b.2 /\ (b.1 = true -> a.1 = true \/ Q x b.2)) ds ds') ->
  yields (for_fold f ds xs) () r () -> Forall (fun d => d.1 = false) ds ->
  r.*2 = ds.*2 /\ Forall (P ds.*2) xs /\ Forall (fun d => d.1 = true -> exists x, x ∈ xs /\ Q x d.2) r.
Proof.
  intros Hf Hr Hds. enough (r.*2 = ds.*2 /\ Forall (P ds.*2) xs /\
    Forall2 (fun a b => a.2 = b.2 /\ (b.1 = true -> a.1 = true \/ exists x, x ∈ xs /\ Q x b.2)) ds r) as (? & ? & Ha).
  { split_and!; [done..|]. eapply Forall2_Forall_r; [exact Ha|]. eapply Forall_impl; [exact Hds|]. cbn. intros d Hd e [_ He] Hm.
    destruct (He Hm); [congruence|done]. }
  clear Hds. revert ds Hr; induction xs as [|x xs IH]; intros ds; cbn [for_fold].
  - intros <-%check_ret. split_and!; [done|by constructor|]. apply Forall_Forall2_diag, Forall_true. auto.
  - intros (ds' & (He & HP & Ha)%Hf & (Hr & HPs & Hb)%IH)%check_bind. rewrite He in *. split_and!; [done|by constructor|].
    eapply Forall2_trans; [|exact Ha|exact Hb]. cbn. intros a b c [Eab Hab] [Ebc Hbc]. split; [congruence|]. intros Hc. setoid_rewrite elem_of_cons.
    destruct (Hbc Hc) as [Hb'|(y & ? & ?)]; [|right; exists y; auto]. destruct (Hab Hb') as [?|?]; [by left|right; exists x]. rewrite <- Ebc. auto.
Qed.

(** *** Redeemers *)
Lemma none_equal {P} `{EqDecision P} (ps : list P) p : forallb (fun x => negb (bool_decide (x = p))) ps = false <-> p ∈ ps.
Proof.
  rewrite <- not_true_iff_false, forallb_forall_elem. split.
  - intros Hn. destruct (decide (p ∈ ps)); [done|]. destruct Hn. intros x Hx. rewrite bool_decide_false; [done|]. by intros ->.
  - intros Hp Hn. specialize (Hn p Hp). by rewrite bool_decide_true in Hn.
Qed.

Lemma pointers_coincide_yields {P} `{EqDecision P} (redeemers scripts : list P) unneeded missing :
  yields (pointers_coincide redeemers scripts unneeded missing) () () () <-> forall p, p ∈ redeemers <-> p ∈ scripts.
Proof.
  unfold pointers_coincide. split.
  - intros ([] & Ha & Hb)%check_bind. apply (for_each_check _ _ (fun r => r ∈ scripts)) in Ha; [|by intros x ?%check_unless%none_equal].
    apply (for_each_check _ _ (fun r => r ∈ redeemers)) in Hb; [|by intros x ?%check_unless%none_equal].
    rewrite Forall_forall in Ha, Hb. naive_solver.
  - intros Hp. assert (forall (l m : list P) err, (forall p, p ∈ l -> p ∈ m) ->
      yields (for_each (fun r => if forallb (fun x => negb (bool_decide (x = r))) m then throw err else mret tt : check ()) l) () () ()) as Hl.
    { intros l m err Hlm. induction l as [|x l IH]; [done|]. cbn [for_each]. eapply yields_bind; [|apply IH; intros; apply Hlm; by right].
      apply check_unless, none_equal, Hlm. left. }
    eapply yields_bind; apply Hl; naive_solver.
Qed.

(** *** Keys *)
Lemma find_signer_yields hash data missing wrong wits :
  yields (find_signer hash data missing wrong wits) () () () -> signed_by hash data wits.
Proof.
  induction wits as [|w wits IH]; cbn [find_signer]; [by intros ?%check_throw|]. case_bool_decide as Hh.
  - intros (valid & Hv%check_eval & Hr)%check_bind. destruct valid; [|by apply check_throw in Hr].
    exists w. split_and!; [left|done..].
  - intros (v & ? & ?)%IH. exists v. split; [by right|done].
Qed.

Lemma signers_yields signers wits data missing wrong :
  yields (signers_check signers wits data missing wrong) () () () ->
  Forall (fun h => signed_by h data (default [] wits)) (default [] signers).
Proof.
  unfold signers_check. destruct signers as [signers|]; [|by constructor]. destruct wits as [wits|]; [|by intros ?%check_throw].
  cbn. apply for_each_check. intros h. apply find_signer_yields.
Qed.

Lemma mark_witness_yields h data missing wrong wits wits' :
  yields (mark_witness h data missing wrong wits) () wits' () -> wits'.*2 = wits.*2 /\ signed_by h data wits.*2.
Proof.
  revert wits'; induction wits as [|[covered w] wits IH]; intros wits'; cbn [mark_witness]; [by intros ?%check_throw|].
  case_bool_decide as Hh.
  - intros (valid & Hv%check_eval & Hr)%check_bind. destruct valid; [|by apply check_throw in Hr]. apply check_ret in Hr as <-.
    split; [done|]. exists w. split_and!; [left|done..].
  - intros (r & [Hw (v & ? & ?)]%IH & <-%check_ret)%check_bind. cbn. split; [by f_equal|]. exists v. split; [by right|done].
Qed.

(** A loop over inputs that marks witnesses. *)
Lemma marking_yields {A} (f : list (bool * VKeyWitness.t) -> A -> check (list (bool * VKeyWitness.t))) (P : list VKeyWitness.t -> A -> Prop) xs ws r :
  (forall ws x ws', yields (f ws x) () ws' () -> ws'.*2 = ws.*2 /\ P ws.*2 x) ->
  yields (for_fold f ws xs) () r () -> Forall (P ws.*2) xs.
Proof.
  intros Hf. revert ws; induction xs as [|x xs IH]; intros ws; cbn [for_fold]; [by constructor|].
  intros (y & [Hy HP]%Hf & Hr%IH)%check_bind. rewrite Hy in Hr. by constructor.
Qed.

Lemma check_list_yields wits err ws :
  yields (mk_alonzo_vk_wits_check_list wits err) () ws () -> ws.*2 = default [] wits.
Proof.
  unfold mk_alonzo_vk_wits_check_list. intros (l & Hl & <-%check_ret)%check_bind.
  destruct wits as [wits|]; cbn [ok_or] in Hl; [apply check_ret in Hl as ->|by apply check_throw in Hl].
  rewrite <- list_fmap_compose. cbn. apply list_fmap_id.
Qed.

(** *** Networks and metadata *)
Definition metadata_matches (hash metadata : option bytes) : Prop := hash = Hasher_256 <$> metadata.

Lemma metadata_yields hash metadata err : yields (metadata_check hash metadata err) () () () <-> metadata_matches hash metadata.
Proof.
  unfold metadata_check, metadata_matches. destruct hash as [h|], metadata as [m|]; cbn; try done.
  rewrite check_when, bool_decide_eq_true. naive_solver.
Qed.

Lemma network_id_yields id global err :
  yields (network_id_check id global err) () () () <-> forall n, id = Some n -> NetworkId.to_u8 n = global.
Proof.
  unfold network_id_check. destruct id as [n|]; [|by split]. rewrite check_unless, negb_false_iff, Z.eqb_eq. naive_solver.
Qed.

(** The address is one of Shelley's format, of the network. *)
Definition on_network (network_id : Z) (address : bytes) : Prop :=
  exists addr, yields (get_shelley_address address) () (Some addr) () /\ Network.value (ShelleyAddress.network addr) = network_id.

Lemma address_network_yields net e1 e2 address :
  yields (address_network_check net e1 e2 address) () () () -> on_network net address.
Proof.
  unfold address_network_check. intros (addr & Ha & (a & Hok & Hr)%check_bind)%check_bind.
  destruct addr as [addr|]; cbn [ok_or] in Hok; [apply check_ret in Hok as ->|by apply check_throw in Hok].
  rewrite check_unless, negb_false_iff, Z.eqb_eq in Hr. exists a. done.
Qed.

(** The payment part of an address. *)
Definition pays (address : bytes) (part : ShelleyPaymentPart.t) : Prop := yields (get_payment_part address) () (Some part) ().
End laws.

(** *** Hashes *)
Section hashes.
Context `{MinicborLaws, ByronCodec, Cryptoxide}.

Definition native_hash (s : NativeScript) : bytes := Hasher_224 (0 :: script_wire s).

Lemma native_hash_yields s : valid_script s -> yields (compute_native_script_hash s) () (native_hash s) ().
Proof. intros Hs. eapply yields_bind; [by apply encode_script_yields|done]. Qed.

Lemma encode_data_yields data buffer r :
  Forall valid_data data -> yields (encode_data data buffer) () r () -> r = buffer ++ concat (data_wire <$> data).
Proof.
  revert buffer; induction data as [|d data IH]; intros buffer Hd; cbn [encode_data].
  - intros <-%check_ret. by rewrite app_nil_r.
  - apply Forall_cons in Hd as [Hd Hds]. rewrite data_encode_wire by done. intros ->%IH; [|done]. cbn. by rewrite app_assoc.
Qed.
End hashes.

(** The key or script that locks an output is asked of its address. *)
Lemma payment_part_yields `{Minicbor, ByronCodec, Cryptoxide} address err part :
  yields (part ← get_payment_part address; ok_or part err) () part () -> pays address part.
Proof.
  intros (p & Hp & Hr)%check_bind. unfold pays.
  destruct p as [p|]; cbn [ok_or] in Hr; [by apply check_ret in Hr as ->|by apply check_throw in Hr].
Qed.

(** *** Sorted lists *)
Lemma sorted_keys_elem {V} (m : gmap bytes V) k : k ∈ sorted_keys m <-> k ∈ dom m.
Proof.
  unfold sorted_keys, keys. rewrite !merge_sort_Permutation, elem_of_dom. split.
  - intros [[k' v] [-> Hk%elem_of_map_to_list]]%list_elem_of_fmap. by eexists.
  - intros [v Hv]. apply list_elem_of_fmap. exists (k, v). split; [done|]. by apply elem_of_map_to_list.
Qed.

Lemma keys_elem {V} (m : gmap bytes V) k : k ∈ keys m <-> k ∈ dom m.
Proof. rewrite <- sorted_keys_elem. unfold sorted_keys. by rewrite merge_sort_Permutation. Qed.

Lemma sorted_inputs_elem inputs i : i ∈ sorted_inputs inputs <-> i ∈ inputs.
Proof. unfold sorted_inputs. by rewrite merge_sort_Permutation. Qed.

Lemma enumerate_elem {A} (xs : list A) n x :
  (n, x) ∈ enumerate xs <-> exists k, xs !! k = Some x /\ n = Z.of_nat k mod 2 ^ 32.
Proof.
  unfold enumerate. rewrite list_elem_of_lookup. setoid_rewrite list_lookup_imap. split.
  - intros [k Hk]. destruct (xs !! k) as [y|] eqn:Hy; [|done]. injection Hk as <- <-. by exists k.
  - intros (k & Hk & ->). exists k. by rewrite Hk.
Qed.

(** *** Scripts of one kind *)
Section tagged.
Context {A : Type} (f : A -> bytes).

Definition tagged (scripts : list (bool * A)) : list (bool * bytes) := (fun x => (x.1, f x.2)) <$> scripts.
Definition unmarked (scripts : list A) : list (bool * A) := (fun x => (false, x)) <$> scripts.

Lemma tagged_flag hash scripts : tagged (flag f hash <$> scripts) = flag id hash <$> tagged scripts.
Proof. unfold tagged. by rewrite <- !list_fmap_compose. Qed.

Lemma tagged_hashes scripts : (tagged scripts).*2 = f <$> scripts.*2.
Proof. unfold tagged. by rewrite <- !list_fmap_compose. Qed.

Lemma unmarked_elements scripts : (unmarked scripts).*2 = scripts.
Proof. unfold unmarked. rewrite <- list_fmap_compose. apply list_fmap_id. Qed.

Lemma unmarked_hashes scripts : (tagged (unmarked scripts)).*2 = f <$> scripts.
Proof. by rewrite tagged_hashes, unmarked_elements. Qed.

Lemma unmarked_flags scripts : Forall (fun x => x.1 = false) (tagged (unmarked scripts)).
Proof. unfold tagged, unmarked. by rewrite !Forall_fmap, Forall_forall. Qed.

Lemma tagged_covered scripts : Forall (fun x => x.1 = true) (tagged scripts) <-> Forall (fun x => x.1 = true) scripts.
Proof. unfold tagged. by rewrite Forall_fmap. Qed.
End tagged.

(** Two rounds over the needed hashes that leave no script unmarked and no hash
    uncovered: the hashes are those of the scripts. *)
Lemma two_rounds {S} (view : S -> list (bool * bytes)) (needed needed' : list bytes) s s1 s2 :
  Forall (fun x => x.1 = false) (view s) ->
  view s1 = (fun x => (x.1 || bool_decide (x.2 ∈ needed), x.2)) <$> view s ->
  view s2 = (fun x => (x.1 || bool_decide (x.2 ∈ needed'), x.2)) <$> view s1 ->
  Forall (fun h => h ∈ (view s).*2) needed -> Forall (fun h => h ∈ (view s1).*2) needed' ->
  Forall (fun x => x.1 = true) (view s2) ->
  forall hash, hash ∈ needed \/ hash ∈ needed' <-> hash ∈ (view s).*2.
Proof.
  intros Hf H1 H2 Hn Hn' Ht hash. rewrite H2, H1, !Forall_fmap in Ht. rewrite H1 in Hn'.
  rewrite <- list_fmap_compose in Hn'. cbn in Hn'. pose proof (proj1 (Forall_forall _ _) Hf) as Hf'. pose proof (proj1 (Forall_forall _ _) Ht) as Ht'.
  rewrite Forall_forall in Hn. rewrite Forall_forall in Hn'. split; [naive_solver|].
  intros [[b h] [-> Hh]]%list_elem_of_fmap. specialize (Ht' _ Hh). specialize (Hf' _ Hh). cbn in *. subst b.
  cbn in Ht'. apply orb_true_iff in Ht' as [?%bool_decide_eq_true|?%bool_decide_eq_true]; auto.
Qed.

Lemma covered_needed {A} (p : A -> bytes -> bool) needed err (x : A) :
  yields (all_covered ((fun h => (p x h, h)) <$> needed) err) () () () -> Forall (fun h => p x h = true) needed.
Proof. intros Hc%all_covered_yields. by rewrite Forall_fmap in Hc. Qed.

(** *** Values *)

(** A loop that adds the values of a list, whatever they are. *)
Lemma values_same_word {A} (val : A -> Value) (f : Value -> A -> check Value) err xs res r :
  (forall res x r, yields (f res x) () r () -> yields (add_values res (val x) err) () r ()) ->
  yields (for_fold f res xs) () r () ->
  lovelace r = lovelace res + sum_of (fun x => lovelace (val x)) xs /\
  forall p n, same_word (quantity r p n) (quantity res p n + sum_of (fun x => quantity (val x) p n) xs).
Proof.
  intros Hf. revert res; induction xs as [|x xs IH]; intros res; cbn [for_fold].
  { intros Hr. apply check_ret in Hr as <-. unfold sum_of. cbn. split; [lia|]. intros. by rewrite Z.add_0_r. }
  intros (y & Hy%Hf & Hr)%check_bind. apply add_values_same_word in Hy as [Hl Hq]. apply IH in Hr as [Hl' Hq'].
  unfold sum_of in *. cbn. split; [lia|]. intros p n. by rewrite Hq', Hq, Z.add_assoc.
Qed.

Section values.
Context `{Minicbor, ByronCodec, Cryptoxide}.

Section balance.
Context {I O : Type} (in_value : I -> Value) (out_value : O -> Value) (ins : list I) (outs : list O) (fee : Z) (mint : option Multiasset).

(** Amounts that [as i64] does not change. *)
Record all_small : Prop := {
  ins_small : Forall (fun i => small (in_value i)) ins;
  outs_small : Forall (fun o => small (out_value o)) outs;
  mint_small : amounts in_i64 (default ∅ mint)
}.

(** Nothing is created but what is minted: exactly for lovelace, up to multiples of
    [2 ^ 64] for a token, and exactly where no cast changes an amount. *)
Record conserved : Prop := {
  lovelace_conserved :
    sum_of (fun i => lovelace (in_value i)) ins = sum_of (fun o => lovelace (out_value o)) outs + fee;
  tokens_same_word p n :
    same_word (sum_of (fun i => quantity (in_value i) p n) ins + quantity_of (default ∅ mint) p n)
      (sum_of (fun o => quantity (out_value o) p n) outs);
  tokens_conserved p n :
    all_small -> sum_of (fun i => quantity (in_value i) p n) ins + quantity_of (default ∅ mint) p n =
      sum_of (fun o => quantity (out_value o) p n) outs
}.

Lemma small_preservation (f : Value -> I -> check Value) (g : Value -> O -> check Value) err err' unequal :
  (forall res x r, yields (f res x) () r () -> yields (add_values res (in_value x) err) () r ()) ->
  (forall res x r, yields (g res x) () r () -> yields (add_values res (out_value x) err) () r ()) ->
  all_small ->
  yields (preservation_check (for_fold f empty_value ins) (for_fold g empty_value outs) fee mint err' unequal) () () () ->
  forall p n, sum_of (fun i => quantity (in_value i) p n) ins + quantity_of (default ∅ mint) p n =
    sum_of (fun o => quantity (out_value o) p n) outs.
Proof.
  intros Hf Hg [Hin Hout Hm] (c & Hc & (p & Hp & (o & Ho & (i & Hi & He)%check_bind)%check_bind)%check_bind)%check_bind.
  eapply values_sum with (val := in_value) in Hc as (Hlc & Hqc & Hsc & _); [|exact Hf|by apply map_Forall_empty|done].
  eapply values_sum with (val := out_value) in Hp as (Hlp & Hqp & Hsp & _); [|exact Hg|by apply map_Forall_empty|done].
  apply add_values_yields in Ho as (Hlo & _ & Hqo & _); [|done..]. cbn [quantity get_lovelace_from_alonzo_val] in *.
  rewrite check_unless, negb_false_iff, values_are_equal_spec in He. destruct He as (Hl & _ & Hq).
  change (lovelace empty_value) with 0 in *. destruct mint as [m|]; cbn [default from_option id] in *.
  - apply add_minted_yields in Hi as (Hli & Hqi & _); [|done..]. intros q n. specialize (Hq q n).
    rewrite Hqi, Hqc, Hqo, Hqp in Hq. cbn in Hq. rewrite quantity_empty in Hq. lia.
  - apply check_ret in Hi as <-. intros q n. specialize (Hq q n).
    rewrite Hqc, Hqo, Hqp in Hq. cbn in Hq. rewrite quantity_empty in *. lia.
Qed.

Lemma preservation_yields (f : Value -> I -> check Value) (g : Value -> O -> check Value) err err' unequal :
  (forall res x r, yields (f res x) () r () -> yields (add_values res (in_value x) err) () r ()) ->
  (forall res x r, yields (g res x) () r () -> yields (add_values res (out_value x) err) () r ()) ->
  yields (preservation_check (for_fold f empty_value ins) (for_fold g empty_value outs) fee mint err' unequal) () () () -> conserved.
Proof.
  intros Hf Hg Hp. pose proof (fun Hs => small_preservation f g err err' unequal Hf Hg Hs Hp) as Hsmall.
  revert Hp. intros (c & Hc & (p & Hp & (o & Ho & (i & Hi & He)%check_bind)%check_bind)%check_bind)%check_bind.
  apply (values_same_word in_value f err ins empty_value c Hf) in Hc as [Hlc Hqc].
  apply (values_same_word out_value g err outs empty_value p Hg) in Hp as [Hlp Hqp].
  apply add_values_same_word in Ho as [Hlo Hqo].
  rewrite check_unless, negb_false_iff, values_are_equal_spec in He. destruct He as (Hl & _ & Hq).
  assert (lovelace i = lovelace c /\
    forall q n, same_word (quantity i q n) (quantity c q n + quantity_of (default ∅ mint) q n)) as [Hli Hqi].
  { destruct mint as [m|]; cbn [default from_option id]; [by eapply add_minted_same_word|].
    apply check_ret in Hi as <-. split; [done|]. intros q n. by rewrite quantity_empty, Z.add_0_r. }
  change (lovelace empty_value) with 0 in *. cbn [get_lovelace_from_alonzo_val] in *.
  split; [lia| |intros q n Hs; by apply Hsmall]. intros q n. specialize (Hqi q n). rewrite Hq, Hqo, Hqp, Hqc in Hqi.
  cbn [quantity empty_value] in Hqi. rewrite quantity_empty, Z.add_0_r, !Z.add_0_l in Hqi. by symmetry.
Qed.
End balance.
End values.

(** *** What inputs spend *)
Section spent_laws.
Context `{Minicbor, ByronCodec, Cryptoxide}.
Context (utxos : UTxOs) (address_of : MultiEraOutput.t -> option bytes) (datum_of : MultiEraOutput.t -> option (option bytes)).

(** The output an input spends is locked by a script. *)
Definition locked_by (input : TransactionInput.t) (hash : bytes) : Prop :=
  exists address, utxo utxos input ≫= address_of = Some address /\ pays address (ShelleyPaymentPart.Script hash).

Lemma script_hash_yields input r :
  yields (script_hash_at utxos address_of input) () r () -> forall hash, r = Some hash <-> locked_by input hash.
Proof.
  unfold script_hash_at, locked_by. destruct (utxo utxos input ≫= address_of) as [address|].
  - intros (part & Hp & <-%check_ret)%check_bind hash. split.
    + intros Hh. exists address. split; [done|]. unfold pays. destruct part as [[]|]; simplify_eq. done.
    + intros (a & [= <-] & Hh). destruct (yields_inj _ _ _ _ _ _ Hp Hh) as [-> _]. done.
  - intros <-%check_ret hash. split; [done|]. intros (a & ? & _). done.
Qed.

Lemma script_hashes_yields inputs r :
  yields (script_hashes utxos address_of inputs) () r () -> forall hash, hash ∈ r <-> exists i, i ∈ inputs /\ locked_by i hash.
Proof.
  revert r; induction inputs as [|i inputs IH]; intros r; cbn [script_hashes].
  - intros <-%check_ret hash. split; [by intros ?%elem_of_nil|]. by intros (? & ?%elem_of_nil & _).
  - intros (h & Hh & (res & Hres & <-%check_ret)%check_bind)%check_bind hash.
    pose proof (script_hash_yields _ _ Hh hash) as Hi. specialize (IH _ Hres hash).
    setoid_rewrite elem_of_cons. destruct h as [h|]; [rewrite elem_of_cons|]; naive_solver.
Qed.

Lemma spent_hashes_yields inputs r :
  yields (spent_hashes utxos address_of inputs) () r () ->
  forall k hash, (k, hash) ∈ r <-> exists i, (k, i) ∈ inputs /\ locked_by i hash.
Proof.
  revert r; induction inputs as [|[n i] inputs IH]; intros r; cbn [spent_hashes].
  - intros <-%check_ret k hash. split; [by intros ?%elem_of_nil|]. by intros (? & ?%elem_of_nil & _).
  - intros (h & Hh & (res & Hres & <-%check_ret)%check_bind)%check_bind k hash.
    pose proof (script_hash_yields _ _ Hh hash) as Hi. specialize (IH _ Hres k hash).
    setoid_rewrite elem_of_cons. destruct h as [h|]; [rewrite elem_of_cons|]; naive_solver.
Qed.

(** The outputs of the era are locked by keys; nothing is asked of others. *)
Definition key_locked (input : TransactionInput.t) : Prop :=
  forall address, utxo utxos input ≫= address_of = Some address -> exists hash, pays address (ShelleyPaymentPart.Key hash).

Lemma collaterals_address_yields e1 e2 e3 collaterals :
  yields (collaterals_address_check utxos address_of e1 e2 e3 collaterals) () () () -> Forall key_locked collaterals.
Proof.
  apply for_each_check. intros i Hi address Ha. destruct (utxo utxos i) as [o|]; [|done]. cbn in Ha. rewrite Ha in Hi.
  apply check_bind in Hi as (part & Hp & (p & Hok & Hi)%check_bind).
  assert (pays address p) as Hpay by (eapply payment_part_yields, yields_bind; eassumption).
  destruct p as [h|h]; [by exists h|by apply check_throw in Hi].
Qed.

Lemma input_data_yields {D} (hash_of : D -> bytes) e1 e2 inputs data r :
  yields (input_data_check utxos datum_of hash_of e1 e2 inputs (unmarked data)) () r () ->
  r.*2 = data /\
  Forall (fun i => exists d, utxo utxos i ≫= datum_of = Some d /\ forall hash, d = Some hash -> hash ∈ hash_of <$> data) inputs /\
  Forall (fun d => d.1 = true -> exists i, i ∈ inputs /\ utxo utxos i ≫= datum_of = Some (Some (hash_of d.2))) r.
Proof.
  intros Hr. eapply (marking_data_yields _ (fun ds i => exists d, utxo utxos i ≫= datum_of = Some d /\
    forall hash, d = Some hash -> hash ∈ hash_of <$> ds) (fun i d => utxo utxos i ≫= datum_of = Some (Some (hash_of d)))) in Hr as (He & Hin & Hm).
  - rewrite unmarked_elements in *. done.
  - intros ds x ds' Hx. destruct (utxo utxos x ≫= datum_of) as [[h|]|] eqn:Hd; [| |by apply check_throw in Hx].
    + apply mark_datum_yields in Hx as (? & ? & Ha). split_and!; [done|exists (Some h); split; [done|]; by intros ? [= <-]|].
      eapply Forall2_impl; [exact Ha|]. intros a b [? Hab]. split; [done|]. intros Hb. destruct (Hab Hb) as [|Heq]; [by left|right]. by rewrite Heq.
    + apply check_ret in Hx as <-. split_and!; [done|by exists None|]. apply Forall_Forall2_diag, Forall_true. auto.
  - unfold unmarked. by rewrite Forall_fmap, Forall_forall.
Qed.

(** The owner of an output of the era signed; nothing is asked of others. *)
Definition signed_by_owner (tx_hash : bytes) (wits : list VKeyWitness.t) (input : TransactionInput.t) : Prop :=
  forall address, utxo utxos input ≫= address_of = Some address -> exists part, pays address part /\
    forall hash, part = ShelleyPaymentPart.Key hash -> signed_by hash tx_hash wits.

Lemma owners_yields other e1 e2 e3 e4 tx_hash inputs wits r :
  yields (owners_check utxos address_of other e1 e2 e3 e4 tx_hash inputs wits) () r () ->
  Forall (fun i => signed_by_owner tx_hash wits.*2 i /\ (other <> None -> is_Some (utxo utxos i ≫= address_of))) inputs.
Proof.
  apply (marking_yields _ (fun ws i => signed_by_owner tx_hash ws i /\ (other <> None -> is_Some (utxo utxos i ≫= address_of)))). intros ws input ws' Hi. unfold signed_by_owner. destruct (utxo utxos input) as [o|]; [|by apply check_throw in Hi]. cbn.
  destruct (address_of o) as [address|].
  2: { destruct other; [by apply check_throw in Hi|by apply check_ret in Hi as <-]. }
  apply check_bind in Hi as (part & Hp & (p & Hok & Hi)%check_bind).
  assert (pays address p) as Hpay by (eapply payment_part_yields, yields_bind; eassumption).
  destruct p as [h|h].
  - apply mark_witness_yields in Hi as [-> Hs]. split_and!; [done| |done]. intros ? [= <-]. eexists. split; [exact Hpay|]. by intros ? [= <-].
  - apply check_ret in Hi as <-. split_and!; [done| |done]. intros ? [= <-]. eexists. split; [exact Hpay|]. done.
Qed.
End spent_laws.

(** ** Hashes of scripts in several lists

    From Babbage on the hashes of the scripts are compared, a list for each kind of
    script, and a script may also be one of a reference input. *)
Abbreviation hash_lists := (list (list (bool * bytes))).

Definition mark_hash (hash : bytes) (x : bool * bytes) : bool * bytes := (x.1 || bool_decide (hash = x.2), x.2).

Definition on_hashes (f : bool * bytes -> bool * bytes) (lists : hash_lists) : hash_lists := (fun l : list (bool * bytes) => f <$> l) <$> lists.

Fixpoint cover_hashes (needed : list bytes) (lists : hash_lists) : list (bool * bytes) * hash_lists :=
  match needed with
  | [] => ([], lists)
  | hash :: needed =>
      let covered := existsb (existsb (fun x => bool_decide (hash = x.2))) lists in
      let rest := cover_hashes needed (on_hashes (mark_hash hash) lists) in
      ((covered, hash) :: rest.1, rest.2)
  end.

Definition needed_check (needed : list bytes) (references : list bytes) (err : bytes -> ValidationError) (lists : hash_lists) : check hash_lists :=
  let r := cover_hashes needed lists in
  for_each (fun x : bool * bytes => if negb x.1 && negb (bool_decide (x.2 ∈ references)) then throw (err x.2) else mret tt) r.1;;
  mret r.2.

(** [retain]: what is not among the scripts of reference inputs *)
Definition retained (references : list bytes) (hashes : list bytes) : list (bool * bytes) :=
  filter (fun x => x.2 ∉ references) (unmarked hashes).

Definition unneeded_check (lists : hash_lists) (errs : list ValidationError) : check () :=
  for_each (fun x : list (bool * bytes) * ValidationError => all_covered x.1 (fun _ => x.2)) (zip lists errs).

(** The hashes in the lists. *)
Definition hashes_in (lists : hash_lists) : list bytes := (mjoin lists).*2.

Lemma hashes_in_elem lists h : h ∈ hashes_in lists <-> exists l x, l ∈ lists /\ x ∈ l /\ x.2 = h.
Proof.
  unfold hashes_in. rewrite list_elem_of_fmap. setoid_rewrite list_elem_of_join. split; [|naive_solver].
  intros (x & -> & l & ? & ?). by exists l, x.
Qed.

Lemma hashes_in_cons l lists : hashes_in (l :: lists) = l.*2 ++ hashes_in lists.
Proof. unfold hashes_in. by rewrite <- fmap_app. Qed.

Lemma hashes_in_ext (f : bool * bytes -> bool * bytes) lists :
  (forall x, (f x).2 = x.2) -> hashes_in (on_hashes f lists) = hashes_in lists.
Proof.
  intros Hf. induction lists as [|l lists IH]; [done|].
  change (on_hashes f (l :: lists)) with ((f <$> l) :: on_hashes f lists). rewrite !hashes_in_cons, IH. f_equal.
  rewrite <- list_fmap_compose. apply list_fmap_ext. intros ? x _. apply Hf.
Qed.

Lemma cover_hashes_spec needed lists :
  cover_hashes needed lists =
  ((fun h => (bool_decide (h ∈ hashes_in lists), h)) <$> needed,
   on_hashes (fun x => (x.1 || bool_decide (x.2 ∈ needed), x.2)) lists).
Proof.
  revert lists; induction needed as [|h needed IH]; intros lists; cbn [cover_hashes].
  - cbn. f_equal. unfold on_hashes. symmetry. erewrite list_fmap_ext; [apply list_fmap_id|]. intros i l _. erewrite list_fmap_ext; [apply list_fmap_id|].
    intros ? [b x] _. cbn. by rewrite bool_decide_false, orb_false_r by set_solver.
  - rewrite IH. cbn [fst snd fmap list_fmap]. rewrite hashes_in_ext by done. f_equal; [f_equal; f_equal|].
    + apply eq_true_iff_eq. rewrite bool_decide_eq_true, hashes_in_elem, existsb_exists_elem. setoid_rewrite existsb_exists_elem.
      setoid_rewrite bool_decide_eq_true. naive_solver.
    + unfold on_hashes. rewrite <- list_fmap_compose. apply list_fmap_ext. intros i l _. cbn. rewrite <- list_fmap_compose. apply list_fmap_ext.
      intros j [b x] _. cbn. f_equal. rewrite <- orb_assoc. f_equal. rewrite <- bool_decide_or. apply bool_decide_ext.
      rewrite elem_of_cons. naive_solver.
Qed.

Lemma needed_yields needed references err lists r :
  yields (needed_check needed references err lists) () r () ->
  Forall (fun h => h ∈ references \/ h ∈ hashes_in lists) needed /\
  r = on_hashes (fun x => (x.1 || bool_decide (x.2 ∈ needed), x.2)) lists.
Proof.
  unfold needed_check. rewrite cover_hashes_spec. cbn [fst snd]. intros ([] & Hc & <-%check_ret)%check_bind. split; [|done].
  apply (for_each_check _ _ (fun x => x.2 ∈ references \/ x.1 = true)) in Hc.
  - rewrite Forall_fmap in Hc. eapply Forall_impl; [exact Hc|]. cbn. intros h [|?%bool_decide_eq_true]; auto.
  - intros [b h]. rewrite check_unless, andb_false_iff, !negb_false_iff, bool_decide_eq_true. naive_solver.
Qed.

Lemma unneeded_yields lists errs :
  length lists = length errs -> yields (unneeded_check lists errs) () () () -> Forall (Forall (fun x => x.1 = true)) lists.
Proof.
  intros Hl Hu. apply (for_each_check _ _ (fun x => Forall (fun y => y.1 = true) x.1)) in Hu; [|by intros x ?%all_covered_yields].
  rewrite <- (fst_zip lists errs) by lia. by rewrite Forall_fmap.
Qed.

(** The scripts of the witness set that are not referred to are needed, and what is
    needed is given or referred to. *)
Lemma needed_scripts_yields references hashes needed needed' err err' errs :
  length hashes = length errs ->
  yields (lists ← needed_check needed references err (retained references <$> hashes);
          lists ← needed_check needed' references err' lists; unneeded_check lists errs) () () () ->
  (forall h, h ∈ needed \/ h ∈ needed' -> h ∈ references \/ h ∈ mjoin hashes) /\
  forall h, h ∈ mjoin hashes -> h ∈ references \/ h ∈ needed \/ h ∈ needed'.
Proof.
  intros Hlen (l1 & [H1 ->]%needed_yields & (l2 & [H2 ->]%needed_yields & Hu)%check_bind)%check_bind.
  rewrite hashes_in_ext in H2 by done. apply unneeded_yields in Hu; [|unfold on_hashes; by rewrite !length_fmap].
  assert (forall h, h ∈ hashes_in (retained references <$> hashes) <-> h ∈ mjoin hashes /\ h ∉ references) as Hr.
  { intros h. rewrite hashes_in_elem, list_elem_of_join. unfold retained, unmarked. split.
    - intros (l & x & (hs & -> & Hhs)%list_elem_of_fmap & [Hx (y & -> & Hy)%list_elem_of_fmap]%list_elem_of_filter & <-). cbn in *. eauto.
    - intros [(hs & Hh & Hhs) Hn]. eexists _, (false, h). split_and!; [by apply list_elem_of_fmap; exists hs| |done].
      apply list_elem_of_filter. split; [done|]. apply list_elem_of_fmap. by exists h. }
  rewrite Forall_forall in H1. rewrite Forall_forall in H2. split.
  - intros h [[|?%Hr]%H1|[|?%Hr]%H2]; naive_solver.
  - intros h Hh. destruct (decide (h ∈ references)) as [|Hn]; [by left|right].
    destruct (proj1 (hashes_in_elem _ h) (proj2 (Hr h) (conj Hh Hn))) as (l & x & Hl & Hx & <-). unfold on_hashes in Hu.
    do 2 rewrite Forall_fmap in Hu. rewrite Forall_forall in Hu. specialize (Hu l Hl). cbn in Hu. rewrite !Forall_fmap in Hu.
    rewrite Forall_forall in Hu. specialize (Hu x Hx). cbn in Hu.
    assert (x.1 = false) as He.
    { unfold retained, unmarked in Hl. apply list_elem_of_fmap in Hl as (hs & -> & _). apply list_elem_of_filter in Hx as [_ Hx].
      by apply list_elem_of_fmap in Hx as (? & -> & _). }
    rewrite He in Hu. cbn in Hu. apply orb_true_iff in Hu as [?%bool_decide_eq_true|?%bool_decide_eq_true]; auto.
Qed.

(** ** Codecs for the witnesses

    Redeemers are written as the ledger does; of a whole transaction the pieces are put
    together. *)
Module derived.
Section derived.
Context `{Minicbor}.

Definition ex_units_wire (u : ExUnits) : option bytes := w_array 2 ⊕ w_u64 (mem u) ⊕ w_u64 (steps u).
Definition tag_number (t : Redeemer.RedeemerTag) : Z :=
  match t with Redeemer.Spend => 0 | Redeemer.Mint => 1 | Redeemer.Cert => 2 | Redeemer.Reward => 3 end.

Definition hex_digit (c : Ascii.ascii) : option Z :=
  let n := Z.of_N (Ascii.N_of_ascii c) in
  if (48 <=? n) && (n <=? 57) then Some (n - 48)
  else if (97 <=? n) && (n <=? 102) then Some (n - 87)
  else if (65 <=? n) && (n <=? 70) then Some (n - 55)
  else None.

Fixpoint from_hex (s : string) : option bytes :=
  match s with
  | EmptyString => Some []
  | String hi (String lo s) =>
      h ← hex_digit hi; l ← hex_digit lo; bs ← from_hex s; Some (16 * h + l :: bs)
  | String _ EmptyString => None
  end.

Definition codecs : DerivedCodecs := {|
  alonzo_redeemer_encode r := default [] (w_array 4 ⊕ w_u8 (tag_number (Redeemer.redeemer_tag r)) ⊕ w_u32 (Redeemer.index r) ⊕
    Some (data_wire (Redeemer.data r)) ⊕ ex_units_wire (Redeemer.ex_units r));
  conway_redeemer_encode r := default [] (w_array 4 ⊕ w_u8 (conway.RedeemerTag.number (conway.Redeemer.tag r)) ⊕
    w_u32 (conway.Redeemer.index r) ⊕ Some (data_wire (conway.Redeemer.data r)) ⊕ ex_units_wire (conway.Redeemer.ex_units r));
  conway_redeemer_entry_encode '(k, v) := default [] (w_array 2 ⊕ w_u8 (conway.RedeemerTag.number (conway.RedeemersKey.tag k)) ⊕
    w_u32 (conway.RedeemersKey.index k) ⊕ w_array 2 ⊕ Some (data_wire (conway.RedeemersValue.data v)) ⊕
    ex_units_wire (conway.RedeemersValue.ex_units v));
  babbage_tx_encode mtx := w_array 4 ⊕ Some (raw_cbor (babbage.Tx.transaction_body mtx)) ⊕
    Some (raw_cbor (babbage.Tx.transaction_witness_set mtx)) ⊕ Some [0xf5; 0xf6];
  conway_tx_encode mtx := w_array 4 ⊕ Some (raw_cbor (conway.Tx.transaction_body mtx)) ⊕
    Some (raw_cbor (conway.Tx.transaction_witness_set mtx)) ⊕ Some [0xf5; 0xf6];
  hex_decode := from_hex
|}.
End derived.
#[export] Existing Instance codecs.
End derived.
