(* ===== verification/Alonzo.v ===== *)
(** * Validation of transactions of the Alonzo era

    [pallas-validate/src/phase1/alonzo.rs].  Validation changes no state, so every
    check is a computation on [unit]; the flags of the scripts, data and witnesses
    that have been needed so far are local. *)
From Stdlib Require Import String.
From S2P Require Import Prelude Cbor Rfc8949 Effects Tree NativeScript PlutusData Address AddressProps SlotTime LedgerTypes Assets ShelleyMA.
From S2P Require Import ShelleyProps Phase1.
Import alonzo AlonzoError ValidationError.

(** The scripts of the witness set, native ones and those of Plutus. *)
Abbreviation Scripts := (list (bool * NativeScript) * list (bool * bytes))%type.

(** Only outputs of the format from Shelley to Alonzo are looked into. *)
Definition address_of (output : MultiEraOutput.t) : option bytes := TransactionOutput.address <$> MultiEraOutput.as_alonzo output.
Definition datum_hash_at (output : MultiEraOutput.t) : option (option bytes) := TransactionOutput.datum_hash <$> MultiEraOutput.as_alonzo output.

Section validation.
Context `{Minicbor, ByronCodec, Cryptoxide, DerivedCodecs}.

(** ** Inputs and time *)
Definition check_ins_not_empty (tx_body : TransactionBody.t) : check () :=
  match TransactionBody.inputs tx_body with
  | [] => throw (Alonzo TxInsEmpty)
  | _ => mret tt
  end.

Definition check_ins_and_collateral_in_utxos (tx_body : TransactionBody.t) (utxos : UTxOs) : check () :=
  inputs_in_utxos utxos (Alonzo InputNotInUTxO) (TransactionBody.inputs tx_body);;
  match TransactionBody.collateral tx_body with
  | None => mret tt
  | Some collaterals => inputs_in_utxos utxos (Alonzo CollateralNotInUTxO) collaterals
  end.

Definition check_lower_bound (tx_body : TransactionBody.t) (block_slot : Z) : check () :=
  lower_bound_check (TransactionBody.validity_interval_start tx_body) block_slot (Alonzo BlockPrecedesValInt).

Definition check_upper_bound (tx_body : TransactionBody.t) (block_slot : Z) : check () :=
  upper_bound_check (TransactionBody.ttl tx_body) block_slot (Alonzo BlockExceedsValInt).

Definition check_tx_validity_interval (tx_body : TransactionBody.t) (block_slot : Z) : check () :=
  check_lower_bound tx_body block_slot;;
  check_upper_bound tx_body block_slot.

(** ** Fees and collateral *)
Definition check_min_fee (tx_body : TransactionBody.t) (size : Z) (prot_pps : AlonzoProtParams.t) : check () :=
  min_fee_check (TransactionBody.fee tx_body) size (AlonzoProtParams.minfee_a prot_pps) (AlonzoProtParams.minfee_b prot_pps)
    (Alonzo FeeBelowMin).

Definition presence_of_plutus_scripts (mtx : Tx.t) : bool :=
  match WitnessSet.plutus_script (inner (Tx.transaction_witness_set mtx)) with
  | Some plutus_v1_scripts => negb (bool_decide (plutus_v1_scripts = []))
  | None => false
  end.

(** The length is cast to [u32]. *)
Definition check_collaterals_number (collaterals : list TransactionInput.t) (prot_pps : AlonzoProtParams.t) : check () :=
  let number_collateral := Z.of_nat (length collaterals) mod 2 ^ 32 in
  if number_collateral =? 0 then throw (Alonzo CollateralMissing)
  else if AlonzoProtParams.max_collateral_inputs prot_pps <? number_collateral then throw (Alonzo TooManyCollaterals)
  else mret tt.

Definition check_collaterals_address (collaterals : list TransactionInput.t) (utxos : UTxOs) : check () :=
  collaterals_address_check utxos address_of (Alonzo InputDecoding) (Alonzo CollateralNotVKeyLocked) (Alonzo CollateralNotInUTxO) collaterals.

Definition check_collaterals_assets (tx_body : TransactionBody.t) (utxos : UTxOs) (prot_pps : AlonzoProtParams.t) : check () :=
  fee_percentage ← eval (checked_mul 64 (TransactionBody.fee tx_body) (AlonzoProtParams.collateral_percentage prot_pps));
  match TransactionBody.collateral tx_body with
  | Some collaterals =>
      for_each (fun collateral =>
          match utxo utxos collateral with
          | Some multi_era_output =>
              match MultiEraOutput.as_alonzo multi_era_output with
              | Some output =>
                  let amount := TransactionOutput.amount output in
                  hundredfold ← eval (checked_mul 64 (get_lovelace_from_alonzo_val amount) 100);
                  if hundredfold <? fee_percentage then throw (Alonzo CollateralMinLovelace)
                  else
                    match amount with
                    | Value.Multiasset _ multi_assets =>
                        if negb (is_empty multi_assets) then throw (Alonzo NonLovelaceCollateral) else mret tt
                    | Value.Coin _ => mret tt
                    end
              | None => mret tt
              end
          | None => throw (Alonzo CollateralNotInUTxO)
          end) collaterals
  | None => throw (Alonzo CollateralMissing)
  end.

Definition check_collaterals (tx_body : TransactionBody.t) (utxos : UTxOs) (prot_pps : AlonzoProtParams.t) : check () :=
  collaterals ← ok_or (TransactionBody.collateral tx_body) (Alonzo CollateralMissing);
  check_collaterals_number collaterals prot_pps;;
  check_collaterals_address collaterals utxos;;
  check_collaterals_assets tx_body utxos prot_pps.

Definition check_fee (tx_body : TransactionBody.t) (size : Z) (mtx : Tx.t) (utxos : UTxOs) (prot_pps : AlonzoProtParams.t) : check () :=
  check_min_fee tx_body size prot_pps;;
  if presence_of_plutus_scripts mtx then check_collaterals tx_body utxos prot_pps else mret tt.

(** ** Values *)
Definition get_consumed (tx_body : TransactionBody.t) (utxos : UTxOs) : check Value :=
  for_fold (fun res input =>
      utxo_value ← ok_or (utxo utxos input) (Alonzo InputNotInUTxO);
      match MultiEraOutput.as_alonzo utxo_value with
      | Some output => add_values res (TransactionOutput.amount output) (Alonzo NegativeValue)
      | None =>
          match MultiEraOutput.as_byron utxo_value with
          | Some output => add_values res (Value.Coin (byron.TxOut.amount output)) (Alonzo NegativeValue)
          | None => throw (Alonzo InputNotInUTxO)
          end
      end) empty_value (TransactionBody.inputs tx_body).

Definition get_produced (tx_body : TransactionBody.t) : check Value :=
  for_fold (fun res output => add_values res (TransactionOutput.amount output) (Alonzo NegativeValue))
    empty_value (TransactionBody.outputs tx_body).

Definition check_preservation_of_value (tx_body : TransactionBody.t) (utxos : UTxOs) : check () :=
  preservation_check (get_consumed tx_body utxos) (get_produced tx_body) (TransactionBody.fee tx_body) (TransactionBody.mint tx_body)
    (Alonzo NegativeValue) (Alonzo PreservationOfValue).

Definition compute_min_lovelace (output : TransactionOutput.t) (prot_pps : AlonzoProtParams.t) : option Z :=
  output_entry_size ← checked_add 64 (get_val_size_in_words (TransactionOutput.amount output))
    match TransactionOutput.datum_hash output with Some _ => 37 | None => 27 end;
  checked_mul 64 (AlonzoProtParams.ada_per_utxo_byte prot_pps) output_entry_size.

Definition check_min_lovelace (tx_body : TransactionBody.t) (prot_pps : AlonzoProtParams.t) : check () :=
  for_each (fun output =>
      min ← eval (compute_min_lovelace output prot_pps);
      if get_lovelace_from_alonzo_val (TransactionOutput.amount output) <? min then throw (Alonzo MinLovelaceUnreached)
      else mret tt) (TransactionBody.outputs tx_body).

Definition check_output_val_size (tx_body : TransactionBody.t) (prot_pps : AlonzoProtParams.t) : check () :=
  for_each (fun output =>
      if AlonzoProtParams.max_value_size prot_pps <? get_val_size_in_words (TransactionOutput.amount output)
      then throw (Alonzo MaxValSizeExceeded) else mret tt) (TransactionBody.outputs tx_body).

(** ** Network, size and execution units *)
Definition check_tx_outs_network_id (tx_body : TransactionBody.t) (network_id : Z) : check () :=
  for_each (fun output =>
      address_network_check network_id (Alonzo AddressDecoding) (Alonzo OutputWrongNetworkID) (TransactionOutput.address output))
    (TransactionBody.outputs tx_body).

Definition check_tx_network_id (tx_body : TransactionBody.t) (network_id : Z) : check () :=
  network_id_check (TransactionBody.network_id tx_body) network_id (Alonzo TxWrongNetworkID).

Definition check_network_id (tx_body : TransactionBody.t) (network_id : Z) : check () :=
  check_tx_outs_network_id tx_body network_id;;
  check_tx_network_id tx_body network_id.

Definition check_tx_size (size : Z) (prot_pps : AlonzoProtParams.t) : check () :=
  if AlonzoProtParams.max_transaction_size prot_pps <? size then throw (Alonzo MaxTxSizeExceeded) else mret tt.

Definition check_tx_ex_units (mtx : Tx.t) (prot_pps : AlonzoProtParams.t) : check () :=
  if presence_of_plutus_scripts mtx then
    match WitnessSet.redeemer (inner (Tx.transaction_witness_set mtx)) with
    | Some redeemers_vec =>
        sum ← ex_units_sum (Redeemer.ex_units <$> redeemers_vec);
        ex_units_check sum (AlonzoProtParams.max_tx_ex_units prot_pps) (Alonzo TxExUnitsExceeded)
    | None => throw (Alonzo RedeemerMissing)
    end
  else mret tt.

(** ** Scripts *)
Definition get_script_hash_from_input (input : TransactionInput.t) (utxos : UTxOs) : check (option bytes) :=
  script_hash_at utxos address_of input.

Definition get_script_hashes (tx_body : TransactionBody.t) (utxos : UTxOs) : check (list bytes) :=
  script_hashes utxos address_of (TransactionBody.inputs tx_body).

(** The body of the loops over the hashes that are needed. *)
Definition mark_scripts (hash : bytes) (scripts : Scripts) : check (bool * Scripts) :=
  native ← mark compute_native_script_hash hash false scripts.1;
  plutus ← mark (fun s => mret (compute_plutus_v1_script_hash s)) hash native.1 scripts.2;
  mret (plutus.1, (native.2, plutus.2)).

Definition check_script_inputs (tx_body : TransactionBody.t) (utxos : UTxOs) (scripts : Scripts) : check Scripts :=
  inputs ← get_script_hashes tx_body utxos;
  r ← cover mark_scripts inputs scripts;
  all_covered r.1 (fun _ => Alonzo ScriptWitnessMissing);;
  mret r.2.

Definition check_minting_policies (tx_body : TransactionBody.t) (scripts : Scripts) : check Scripts :=
  match TransactionBody.mint tx_body with
  | None => mret scripts
  | Some minted_value =>
      r ← cover mark_scripts (keys minted_value) scripts;
      all_covered r.1 (fun _ => Alonzo MintingLacksPolicy);;
      mret r.2
  end.

Definition check_needed_scripts_are_included (tx_body : TransactionBody.t) (utxos : UTxOs)
    (native_scripts : list NativeScript) (plutus_v1_scripts : list bytes) : check () :=
  let scripts := (unmarked native_scripts, unmarked plutus_v1_scripts) in
  scripts ← check_script_inputs tx_body utxos scripts;
  scripts ← check_minting_policies tx_body scripts;
  all_covered scripts.1 (fun _ => Alonzo UnneededNativeScript);;
  all_covered scripts.2 (fun _ => Alonzo UnneededPlutusScript).

(** ** Data *)
Definition datum_hash_of (datum : KeepRaw PlutusData) : bytes := Hasher_256 (raw_cbor datum).

Definition check_input_datum_hash_in_witness_set (tx_body : TransactionBody.t) (utxos : UTxOs)
    (plutus_data : list (bool * KeepRaw PlutusData)) : check (list (bool * KeepRaw PlutusData)) :=
  input_data_check utxos datum_hash_at datum_hash_of (Alonzo DatumMissing) (Alonzo InputNotInUTxO) (TransactionBody.inputs tx_body) plutus_data.

Fixpoint find_datum (datum : KeepRaw PlutusData) (outputs : list TransactionOutput.t) : check () :=
  match outputs with
  | [] => throw (Alonzo UnneededDatum)
  | output :: outputs =>
      if bool_decide (TransactionOutput.datum_hash output = Some (datum_hash_of datum)) then mret tt
      else find_datum datum outputs
  end.

Definition check_datums_from_witness_set_in_inputs_or_outputs (tx_body : TransactionBody.t)
    (plutus_data : list (bool * KeepRaw PlutusData)) : check () :=
  for_each (fun x : bool * KeepRaw PlutusData =>
      let '(found, datum) := x in
      if negb found then find_datum datum (TransactionBody.outputs tx_body) else mret tt) plutus_data.

Definition check_datums (tx_body : TransactionBody.t) (utxos : UTxOs) (option_plutus_data : option (list (KeepRaw PlutusData))) :
    check () :=
  let plutus_data := unmarked (default [] option_plutus_data) in
  plutus_data ← check_input_datum_hash_in_witness_set tx_body utxos plutus_data;
  check_datums_from_witness_set_in_inputs_or_outputs tx_body plutus_data.

(** ** Redeemers *)

(** A pointer is pushed for every Plutus script with the hash. *)
Definition pointers_to (tag : Redeemer.RedeemerTag) (plutus_scripts : list bytes) (items : list (Z * bytes)) :
    list RedeemerPointer.t :=
  '(index, hash) ← items;
  plutus_script ← plutus_scripts;
  if bool_decide (hash = compute_plutus_v1_script_hash plutus_script) then [RedeemerPointer.mk tag index] else [].

Definition mk_plutus_script_redeemer_pointers (sorted_inputs : list TransactionInput.t) (mint : option Multiasset)
    (tx_wits : WitnessSet.t) (utxos : UTxOs) : check (list RedeemerPointer.t) :=
  match WitnessSet.plutus_script tx_wits with
  | Some plutus_scripts =>
      spent ← spent_hashes utxos address_of (enumerate sorted_inputs);
      mret (pointers_to Redeemer.Spend plutus_scripts spent ++
            match mint with
            | Some minted_value => pointers_to Redeemer.Mint plutus_scripts (enumerate (sorted_keys minted_value))
            | None => []
            end)
  | None => mret []
  end.

Definition redeemer_pointers_coincide (redeemers plutus_scripts : list RedeemerPointer.t) : check () :=
  pointers_coincide redeemers plutus_scripts (Alonzo UnneededRedeemer) (Alonzo RedeemerMissing).

Definition check_redeemers (tx_body : TransactionBody.t) (tx_wits : WitnessSet.t) (utxos : UTxOs) : check () :=
  let redeemer_pointers :=
    (fun x => RedeemerPointer.mk (Redeemer.redeemer_tag x) (Redeemer.index x)) <$> default [] (WitnessSet.redeemer tx_wits) in
  plutus_scripts ← mk_plutus_script_redeemer_pointers (sorted_inputs (TransactionBody.inputs tx_body)) (TransactionBody.mint tx_body)
    tx_wits utxos;
  redeemer_pointers_coincide redeemer_pointers plutus_scripts.

(** ** Signatures *)
Definition check_remaining_vk_wits (wits : list (bool * VKeyWitness.t)) (data_to_verify : bytes) : check () :=
  remaining_check wits data_to_verify (Alonzo VKWrongSignature).

Definition check_vkey_input_wits (mtx : Tx.t) (vkey_wits : option (list VKeyWitness.t)) (utxos : UTxOs) : check () :=
  let tx_body := inner (Tx.transaction_body mtx) in
  vk_wits ← mk_alonzo_vk_wits_check_list vkey_wits (Alonzo VKWitnessMissing);
  let tx_hash := Hasher_256 (raw_cbor (Tx.transaction_body mtx)) in
  let inputs_and_collaterals := TransactionBody.inputs tx_body ++ default [] (TransactionBody.collateral tx_body) in
  vk_wits ← owners_check utxos address_of None (Alonzo InputDecoding) (Alonzo VKWitnessMissing) (Alonzo VKWrongSignature) (Alonzo InputNotInUTxO)
    tx_hash inputs_and_collaterals vk_wits;
  check_remaining_vk_wits vk_wits tx_hash.

Definition find_and_check_req_signer (vkey_hash : bytes) (vkey_wits : list VKeyWitness.t) (data_to_verify : bytes) : check () :=
  find_signer vkey_hash data_to_verify (Alonzo ReqSignerMissing) (Alonzo ReqSignerWrongSig) vkey_wits.

Definition check_required_signers (required_signers : option (list bytes)) (vkey_wits : option (list VKeyWitness.t))
    (data_to_verify : bytes) : check () :=
  signers_check required_signers vkey_wits data_to_verify (Alonzo ReqSignerMissing) (Alonzo ReqSignerWrongSig).

Definition check_witness_set (mtx : Tx.t) (utxos : UTxOs) : check () :=
  let tx_hash := Hasher_256 (raw_cbor (Tx.transaction_body mtx)) in
  let tx_body := inner (Tx.transaction_body mtx) in
  let tx_wits := inner (Tx.transaction_witness_set mtx) in
  let vkey_wits := WitnessSet.vkeywitness tx_wits in
  let native_scripts := inner <$> default [] (WitnessSet.native_script tx_wits) in
  let plutus_v1_scripts := default [] (WitnessSet.plutus_script tx_wits) in
  check_needed_scripts_are_included tx_body utxos native_scripts plutus_v1_scripts;;
  check_datums tx_body utxos (WitnessSet.plutus_data tx_wits);;
  check_redeemers tx_body tx_wits utxos;;
  check_required_signers (TransactionBody.required_signers tx_body) vkey_wits tx_hash;;
  check_vkey_input_wits mtx vkey_wits utxos.

(** ** Languages, metadata and the hash of the script data *)
Definition check_languages (mtx : Tx.t) (prot_pps : AlonzoProtParams.t) : check () := mret tt.

Definition check_auxiliary_data (tx_body : TransactionBody.t) (mtx : Tx.t) : check () :=
  metadata_check (TransactionBody.auxiliary_data_hash tx_body) (aux_data_from_alonzo_tx mtx) (Alonzo MetadataHash).

(** The cost model of the Alonzo era, on all networks. *)
Definition cost_model_cbor : option bytes := hex_decode
  "a141005901d59f1a000302590001011a00060bc719026d00011a000249f01903e800011a000249f018201a0025cea81971f70419744d186419744d186419744d186419744d186419744d186419744d18641864186419744d18641a000249f018201a000249f018201a000249f018201a000249f01903e800011a000249f018201a000249f01903e800081a000242201a00067e2318760001011a000249f01903e800081a000249f01a0001b79818f7011a000249f0192710011a0002155e19052e011903e81a000249f01903e8011a000249f018201a000249f018201a000249f0182001011a000249f0011a000249f0041a000194af18f8011a000194af18f8011a0002377c190556011a0002bdea1901f1011a000249f018201a000249f018201a000249f018201a000249f018201a000249f018201a000249f018201a000242201a00067e23187600010119f04c192bd200011a000249f018201a000242201a00067e2318760001011a000242201a00067e2318760001011a0025cea81971f704001a000141bb041a000249f019138800011a000249f018201a000302590001011a000249f018201a000249f018201a000249f018201a000249f018201a000249f018201a000249f018201a000249f018201a00330da70101ff".

(** [encode] of a slice: the array of its elements *)
Definition redeemers_encode (redeemer : list Redeemer.t) : bytes :=
  default [] (w_array (Z.of_nat (length redeemer)) ⊕ enc_all ((fun r => Some (alonzo_redeemer_encode r)) <$> redeemer)).

Definition compute_script_integrity_hash (plutus_data : list PlutusData) (redeemer : list Redeemer.t) : check bytes :=
  let value_to_hash := redeemers_encode redeemer in
  plutus_data ← encode_data plutus_data e_begin_array;
  cost_model ← eval cost_model_cbor;
  mret (Hasher_256 (value_to_hash ++ (plutus_data ++ e_end) ++ cost_model)).

Definition check_script_data_hash (tx_body : TransactionBody.t) (mtx : Tx.t) : check () :=
  let tx_wits := inner (Tx.transaction_witness_set mtx) in
  match TransactionBody.script_data_hash tx_body with
  | Some script_data_hash =>
      match WitnessSet.plutus_data tx_wits, WitnessSet.redeemer tx_wits with
      | Some plutus_data, Some redeemer =>
          hash ← compute_script_integrity_hash (inner <$> plutus_data) redeemer;
          if bool_decide (script_data_hash = hash) then mret tt else throw (Alonzo ScriptIntegrityHash)
      | _, _ => throw (Alonzo ScriptIntegrityHash)
      end
  | None =>
      if option_vec_is_empty (WitnessSet.plutus_data tx_wits) && option_vec_is_empty (WitnessSet.redeemer tx_wits)
      then mret tt else throw (Alonzo ScriptIntegrityHash)
  end.

(** ** Minting *)
Fixpoint all_native_differ (policy : bytes) (scripts : list NativeScript) : check bool :=
  match scripts with
  | [] => mret true
  | script :: scripts =>
      hash ← compute_native_script_hash script;
      if bool_decide (hash <> policy) then all_native_differ policy scripts else mret false
  end.

Definition check_minting (tx_body : TransactionBody.t) (mtx : Tx.t) : check () :=
  match TransactionBody.mint tx_body with
  | Some minted_value =>
      let tx_wits := inner (Tx.transaction_witness_set mtx) in
      let native_script_wits := inner <$> default [] (WitnessSet.native_script tx_wits) in
      let plutus_v1_script_wits := default [] (WitnessSet.plutus_script tx_wits) in
      for_each (fun policy =>
          no_native ← all_native_differ policy native_script_wits;
          if no_native && forallb (fun s => bool_decide (compute_plutus_v1_script_hash s <> policy)) plutus_v1_script_wits
          then throw (Alonzo MintingLacksPolicy) else mret tt) (keys minted_value)
  | None => mret tt
  end.

(** ** Transactions *)
Definition validate_alonzo_tx (mtx : Tx.t) (utxos : UTxOs) (prot_pps : AlonzoProtParams.t) (block_slot network_id : Z) : check () :=
  let tx_body := inner (Tx.transaction_body mtx) in
  let size := get_alonzo_comp_tx_size mtx in
  check_ins_not_empty tx_body;;
  check_ins_and_collateral_in_utxos tx_body utxos;;
  check_tx_validity_interval tx_body block_slot;;
  check_fee tx_body size mtx utxos prot_pps;;
  check_preservation_of_value tx_body utxos;;
  check_min_lovelace tx_body prot_pps;;
  check_output_val_size tx_body prot_pps;;
  check_network_id tx_body network_id;;
  check_tx_size size prot_pps;;
  check_tx_ex_units mtx prot_pps;;
  check_witness_set mtx utxos;;
  check_languages mtx prot_pps;;
  check_auxiliary_data tx_body mtx;;
  check_script_data_hash tx_body mtx;;
  check_minting tx_body mtx.
End validation.

(** ** The rules

    [pallas-validate/docs/alonzo.md], for the transactions the validator accepts. *)
Section rules.
Context `{MinicborLaws, ByronCodec, Cryptoxide, DerivedCodecs}.
Context (mtx : Tx.t) (utxos : UTxOs) (pps : AlonzoProtParams.t) (slot net : Z).

Definition tx_body : TransactionBody.t := inner (Tx.transaction_body mtx).
Definition tx_hash : bytes := Hasher_256 (raw_cbor (Tx.transaction_body mtx)).
Definition tx_wits : WitnessSet.t := inner (Tx.transaction_witness_set mtx).
Definition vkey_wits : list VKeyWitness.t := default [] (WitnessSet.vkeywitness tx_wits).
Definition plutus_hashes : list bytes := compute_plutus_v1_script_hash <$> default [] (WitnessSet.plutus_script tx_wits).
Definition witness_hashes : list bytes := (native_hash <$> scripts_of tx_wits) ++ plutus_hashes.
Definition witness_data : list (KeepRaw PlutusData) := default [] (WitnessSet.plutus_data tx_wits).
Definition collateral : list TransactionInput.t := default [] (TransactionBody.collateral tx_body).
Definition minted_policies : gset bytes := dom (default ∅ (TransactionBody.mint tx_body)).

(** The output an input spends, and the script that locks it. *)
Definition spent (input : TransactionInput.t) : option TransactionOutput.t := utxo utxos input ≫= MultiEraOutput.as_alonzo.
Definition spends_script : TransactionInput.t -> bytes -> Prop := locked_by utxos address_of.

Definition scripts_needed (hash : bytes) : Prop :=
  (exists input, input ∈ TransactionBody.inputs tx_body /\ spends_script input hash) \/ hash ∈ minted_policies.

(** The pointers to what Plutus scripts are needed for: the place of the input or of the
    policy among all in their order. *)
Inductive redeemer_needed : RedeemerPointer.t -> Prop :=
| spend_needed k input hash :
    sorted_inputs (TransactionBody.inputs tx_body) !! k = Some input -> spends_script input hash -> hash ∈ plutus_hashes ->
    redeemer_needed (RedeemerPointer.mk Redeemer.Spend (Z.of_nat k mod 2 ^ 32))
| mint_needed k policy :
    sorted_keys (default ∅ (TransactionBody.mint tx_body)) !! k = Some policy -> policy ∈ plutus_hashes ->
    redeemer_needed (RedeemerPointer.mk Redeemer.Mint (Z.of_nat k mod 2 ^ 32)).

Definition good_collateral (input : TransactionInput.t) : Prop :=
  forall out, spent input = Some out ->
    TransactionBody.fee tx_body * AlonzoProtParams.collateral_percentage pps <= lovelace (TransactionOutput.amount out) * 100 /\
    policies (TransactionOutput.amount out) = ∅.

Definition script_integrity (plutus_data : list PlutusData) (redeemers : list Redeemer.t) : option bytes :=
  cost_model ← cost_model_cbor;
  Some (Hasher_256 (redeemers_encode redeemers ++ (e_begin_array ++ concat (data_wire <$> plutus_data) ++ e_end) ++ cost_model)).

Record phase1_valid : Prop := {
  inputs_known : TransactionBody.inputs tx_body <> [] /\
    Forall (fun i => is_Some (utxo utxos i)) (TransactionBody.inputs tx_body ++ collateral);
  within_interval : (forall a, TransactionBody.validity_interval_start tx_body = Some a -> a <= slot) /\
    (forall b, TransactionBody.ttl tx_body = Some b -> slot <= b);
  fee_paid : AlonzoProtParams.minfee_b pps + AlonzoProtParams.minfee_a pps * get_alonzo_comp_tx_size mtx <= TransactionBody.fee tx_body;
  collateral_given : default [] (WitnessSet.plutus_script tx_wits) <> [] ->
    collateral <> [] /\ Z.of_nat (length collateral) mod 2 ^ 32 <= AlonzoProtParams.max_collateral_inputs pps /\
    Forall (fun i => key_locked utxos address_of i /\ good_collateral i) collateral;
  value_preserved : conserved (input_value utxos) TransactionOutput.amount (TransactionBody.inputs tx_body)
    (TransactionBody.outputs tx_body) (TransactionBody.fee tx_body) (TransactionBody.mint tx_body);
  outputs_sound : Forall (fun o =>
      AlonzoProtParams.ada_per_utxo_byte pps * (get_val_size_in_words (TransactionOutput.amount o) +
        match TransactionOutput.datum_hash o with Some _ => 37 | None => 27 end) <= lovelace (TransactionOutput.amount o) /\
      get_val_size_in_words (TransactionOutput.amount o) <= AlonzoProtParams.max_value_size pps /\
      on_network net (TransactionOutput.address o)) (TransactionBody.outputs tx_body);
  network_right : forall n, TransactionBody.network_id tx_body = Some n -> NetworkId.to_u8 n = net;
  size_within : get_alonzo_comp_tx_size mtx <= AlonzoProtParams.max_transaction_size pps;
  units_within : default [] (WitnessSet.plutus_script tx_wits) <> [] -> exists redeemers,
    WitnessSet.redeemer tx_wits = Some redeemers /\
    sum_of (fun r => mem (Redeemer.ex_units r)) redeemers <= mem (AlonzoProtParams.max_tx_ex_units pps) /\
    sum_of (fun r => steps (Redeemer.ex_units r)) redeemers <= steps (AlonzoProtParams.max_tx_ex_units pps);
  scripts_match : forall hash, scripts_needed hash <-> hash ∈ witness_hashes;
  data_given : Forall (fun i => exists d, utxo utxos i ≫= datum_hash_at = Some d /\
      forall hash, d = Some hash -> hash ∈ datum_hash_of <$> witness_data) (TransactionBody.inputs tx_body);
  data_needed : Forall (fun d =>
      (exists i, i ∈ TransactionBody.inputs tx_body /\ utxo utxos i ≫= datum_hash_at = Some (Some (datum_hash_of d))) \/
      exists out, out ∈ TransactionBody.outputs tx_body /\ TransactionOutput.datum_hash out = Some (datum_hash_of d)) witness_data;
  redeemers_match : forall p, p ∈ ((fun r => RedeemerPointer.mk (Redeemer.redeemer_tag r) (Redeemer.index r)) <$>
    default [] (WitnessSet.redeemer tx_wits)) <-> redeemer_needed p;
  owners_signed : Forall (signed_by_owner utxos address_of tx_hash vkey_wits) (TransactionBody.inputs tx_body ++ collateral);
  signers_signed : Forall (fun h => signed_by h tx_hash vkey_wits) (default [] (TransactionBody.required_signers tx_body));
  metadata_hashed : metadata_matches (TransactionBody.auxiliary_data_hash tx_body) (aux_data_from_alonzo_tx mtx);
  script_data_hashed :
    match TransactionBody.script_data_hash tx_body with
    | Some hash => exists data redeemers, WitnessSet.plutus_data tx_wits = Some data /\ WitnessSet.redeemer tx_wits = Some redeemers /\
        script_integrity (inner <$> data) redeemers = Some hash
    | None => witness_data = [] /\ default [] (WitnessSet.redeemer tx_wits) = []
    end
}.

Context (Hscripts : Forall valid_script (scripts_of tx_wits)).
Context (Hdata : Forall valid_data (inner <$> witness_data)).

(** *** Collateral *)
Lemma presence : presence_of_plutus_scripts mtx = negb (bool_decide (default [] (WitnessSet.plutus_script tx_wits) = [])).
Proof. unfold presence_of_plutus_scripts, tx_wits. destruct (WitnessSet.plutus_script _); done. Qed.

Lemma collaterals_yields :
  yields (check_collaterals tx_body utxos pps) () () () ->
  collateral <> [] /\ Z.of_nat (length collateral) mod 2 ^ 32 <= AlonzoProtParams.max_collateral_inputs pps /\
  Forall (fun i => key_locked utxos address_of i /\ good_collateral i) collateral.
Proof.
  unfold check_collaterals. intros (cs & Hcs & ([] & Hn & ([] & Ha & Hv)%check_bind)%check_bind)%check_bind.
  assert (TransactionBody.collateral tx_body = Some cs) as Hc.
  { destruct (TransactionBody.collateral tx_body); cbn in Hcs; [by apply check_ret in Hcs as ->|by apply check_throw in Hcs]. }
  unfold collateral. rewrite Hc. cbn [default from_option id]. unfold check_collaterals_number in Hn.
  destruct (Z.eqb_spec (Z.of_nat (length cs) mod 2 ^ 32) 0) as [|Hne]; [by apply check_throw in Hn|].
  rewrite check_unless, Z.ltb_ge in Hn. split_and!; [by intros ->|done|]. apply Forall_and. split; [by eapply collaterals_address_yields|].
  unfold check_collaterals_assets in Hv. apply check_bind in Hv as (fee & Hf%check_eval & Hv). numbers. rewrite Hc in Hv.
  eapply for_each_check; [|exact Hv]. intros i Hi out Hout. unfold spent in Hout. cbv beta in Hi.
  destruct (utxo utxos i) as [o|]; [|done]. cbn in Hout. rewrite Hout in Hi.
  apply check_bind in Hi as (n & Hn'%check_eval & Hi). numbers.
  destruct (Z.ltb_spec (lovelace (TransactionOutput.amount out) * 100) (TransactionBody.fee tx_body * AlonzoProtParams.collateral_percentage pps));
    [by apply check_throw in Hi|]. split; [done|]. destruct (TransactionOutput.amount out) as [|c ma]; cbn [policies]; [done|].
  rewrite check_unless, negb_false_iff, is_empty_spec in Hi. by rewrite Hi, dom_empty_L.
Qed.

(** *** Values *)
Lemma value_yields :
  yields (check_preservation_of_value tx_body utxos) () () () ->
  conserved (input_value utxos) TransactionOutput.amount (TransactionBody.inputs tx_body) (TransactionBody.outputs tx_body)
    (TransactionBody.fee tx_body) (TransactionBody.mint tx_body).
Proof.
  eapply preservation_yields.
  - intros res x r Hr. apply check_bind in Hr as (out & Ho & Hr). unfold input_value. destruct (utxo utxos x) as [o'|]; [|by apply check_throw in Ho].
    apply check_ret in Ho as ->. destruct (MultiEraOutput.as_alonzo out); [exact Hr|].
    destruct (MultiEraOutput.as_byron out); [exact Hr|by apply check_throw in Hr].
  - done.
Qed.

(** *** Scripts *)
Definition scripts_view (scripts : Scripts) : list (bool * bytes) :=
  tagged native_hash scripts.1 ++ tagged compute_plutus_v1_script_hash scripts.2.
Definition scripts_valid (scripts : Scripts) : Prop := Forall valid_script scripts.1.*2.

Lemma mark_scripts_marks : marks mark_scripts scripts_view scripts_valid.
Proof.
  intros hash [ns ps] r Hg (native & Hn & (plutus & Hp & <-%check_ret)%check_bind)%check_bind.
  apply (mark_yields _ native_hash) in Hn as ->.
  2: { unfold scripts_valid in Hg. rewrite Forall_fmap in Hg. eapply Forall_impl; [exact Hg|]. intros. by apply native_hash_yields. }
  apply (mark_yields _ compute_plutus_v1_script_hash) in Hp as ->; [|by rewrite Forall_forall].
  unfold scripts_view, scripts_valid in *. cbn [fst snd] in *. rewrite fmap_app, !tagged_flag, !fmap_app, !tagged_hashes. split_and!.
  - cbn. rewrite <- bool_decide_or. apply bool_decide_ext. by rewrite elem_of_app.
  - by rewrite <- list_fmap_compose.
  - done.
Qed.

Lemma scripts_yields :
  yields (check_needed_scripts_are_included tx_body utxos (scripts_of tx_wits) (default [] (WitnessSet.plutus_script tx_wits))) () () () ->
  forall hash, scripts_needed hash <-> hash ∈ witness_hashes.
Proof.
  unfold check_needed_scripts_are_included. set (s := (unmarked (scripts_of tx_wits), unmarked _) : Scripts).
  intros (s1 & (hs & Hhs & (r1 & Hr1 & ([] & Hc1 & <-%check_ret)%check_bind)%check_bind)%check_bind & (s2 & Hm & ([] & Hn & Hp)%check_bind)%check_bind)%check_bind hash.
  assert (scripts_valid s) as Hs by (unfold scripts_valid, s; cbn; by rewrite unmarked_elements).
  apply (cover_yields _ _ _ mark_scripts_marks) in Hr1 as (Hr & Hs1 & Hv1); [|done]. rewrite Hr in Hc1.
  apply all_covered_yields in Hc1, Hn, Hp. rewrite Forall_fmap in Hc1.
  assert (exists needed', (forall h, h ∈ needed' <-> h ∈ minted_policies) /\ Forall (fun h => h ∈ (scripts_view r1.2).*2) needed' /\
    scripts_view s2 = (fun x => (x.1 || bool_decide (x.2 ∈ needed'), x.2)) <$> scripts_view r1.2) as (needed' & Hm' & Hc2 & Hv2).
  { unfold check_minting_policies, minted_policies in *. destruct (TransactionBody.mint tx_body) as [m|]; cbn [default from_option id].
    - apply check_bind in Hm as (r2 & Hr2 & ([] & Hc2 & <-%check_ret)%check_bind).
      apply (cover_yields _ _ _ mark_scripts_marks) in Hr2 as (Hr' & _ & Hv2); [|done]. rewrite Hr' in Hc2.
      apply all_covered_yields in Hc2. rewrite Forall_fmap in Hc2. exists (keys m). split_and!; [by intros; apply keys_elem| |done].
      eapply Forall_impl; [exact Hc2|]. by intros h ?%bool_decide_eq_true.
    - apply check_ret in Hm as <-. exists []. split_and!; [set_solver|by constructor|]. symmetry.
      erewrite list_fmap_ext; [apply list_fmap_id|]. intros ? [b x] _. cbn. by rewrite bool_decide_false, orb_false_r by set_solver. }
  assert (witness_hashes = (scripts_view s).*2) as -> by (unfold scripts_view, s; cbn [fst snd]; by rewrite fmap_app, !unmarked_hashes).
  rewrite <- (two_rounds scripts_view hs needed' s r1.2 s2); [|by apply Forall_app; split; apply unmarked_flags|done..| |done|].
  - rewrite Hm'. unfold scripts_needed, get_script_hashes in *. by rewrite (script_hashes_yields _ _ _ _ Hhs).
  - eapply Forall_impl; [exact Hc1|]. by intros h ?%bool_decide_eq_true.
  - by apply Forall_app; split; apply tagged_covered.
Qed.

(** *** Data *)
Lemma data_yields :
  yields (check_datums tx_body utxos (WitnessSet.plutus_data tx_wits)) () () () ->
  Forall (fun i => exists d, utxo utxos i ≫= datum_hash_at = Some d /\
    forall hash, d = Some hash -> hash ∈ datum_hash_of <$> witness_data) (TransactionBody.inputs tx_body) /\
  Forall (fun d =>
      (exists i, i ∈ TransactionBody.inputs tx_body /\ utxo utxos i ≫= datum_hash_at = Some (Some (datum_hash_of d))) \/
      exists out, out ∈ TransactionBody.outputs tx_body /\ TransactionOutput.datum_hash out = Some (datum_hash_of d)) witness_data.
Proof.
  unfold check_datums. fold witness_data. intros (data & (He & Hin & Hmark)%input_data_yields & Hr)%check_bind. split; [done|].
  apply (for_each_check _ _ (fun d => d.1 = false ->
    exists out, out ∈ TransactionBody.outputs tx_body /\ TransactionOutput.datum_hash out = Some (datum_hash_of d.2))) in Hr.
  - rewrite <- He, Forall_fmap. rewrite Forall_forall in Hr. rewrite Forall_forall in Hmark. apply Forall_forall.
    intros [b d] Hbd. cbn. destruct b; [left; apply (Hmark _ Hbd eq_refl)|right; by apply (Hr _ Hbd)].
  - intros [[] d] Hd Hb; [done|]. cbn in *. clear -Hd. induction (TransactionBody.outputs tx_body) as [|out outs IH]; cbn [find_datum] in Hd;
      [by apply check_throw in Hd|]. case_bool_decide; [exists out; split; [left|done]|].
    destruct (IH Hd) as (o & ? & ?). exists o. split; [by right|done].
Qed.

(** *** Redeemers *)
Lemma pointers_to_elem tag scripts items p :
  p ∈ pointers_to tag scripts items <->
  exists k hash, (k, hash) ∈ items /\ hash ∈ compute_plutus_v1_script_hash <$> scripts /\ p = RedeemerPointer.mk tag k.
Proof.
  unfold pointers_to. rewrite list_elem_of_bind. setoid_rewrite list_elem_of_fmap. split.
  - intros ([k h] & (s & Hp & Hs)%list_elem_of_bind & Hi). case_bool_decide; [|by apply elem_of_nil in Hp].
    apply list_elem_of_singleton in Hp as ->. exists k, h. naive_solver.
  - intros (k & h & Hi & (s & -> & Hs) & ->). exists (k, compute_plutus_v1_script_hash s). split; [|done]. apply list_elem_of_bind.
    exists s. split; [|done]. rewrite bool_decide_true by done. by left.
Qed.

Lemma redeemers_yields :
  yields (check_redeemers tx_body tx_wits utxos) () () () ->
  forall p, p ∈ ((fun r => RedeemerPointer.mk (Redeemer.redeemer_tag r) (Redeemer.index r)) <$>
    default [] (WitnessSet.redeemer tx_wits)) <-> redeemer_needed p.
Proof.
  unfold check_redeemers. intros (ps & Hps & Hc)%check_bind p. unfold redeemer_pointers_coincide in Hc.
  rewrite pointers_coincide_yields in Hc. rewrite Hc. clear Hc. unfold mk_plutus_script_redeemer_pointers in Hps.
  destruct (WitnessSet.plutus_script tx_wits) as [scripts|] eqn:Hscr.
  - assert (plutus_hashes = compute_plutus_v1_script_hash <$> scripts) as Hph by (unfold plutus_hashes; by rewrite Hscr).
    apply check_bind in Hps as (hs & Hhs & <-%check_ret). rewrite elem_of_app, pointers_to_elem.
    pose proof (spent_hashes_yields _ _ _ _ Hhs) as Hsp. split.
    + intros [(k & h & Hkh & Hh & ->)|Hm].
      * apply Hsp in Hkh as (i & Hi & Hsc). apply enumerate_elem in Hi as (n & Hn & ->). eapply spend_needed; [done..|by rewrite Hph].
      * destruct (TransactionBody.mint tx_body) as [m|] eqn:Hmint; [|by apply elem_of_nil in Hm].
        apply pointers_to_elem in Hm as (k & h & (n & Hn & ->)%enumerate_elem & Hh & ->).
        eapply mint_needed; [by rewrite Hmint|by rewrite Hph].
    + intros [k i h Hk Hsc Hh|k h Hk Hh]; rewrite Hph in Hh.
      * left. exists (Z.of_nat k mod 2 ^ 32), h. split_and!; [|done..]. apply Hsp. exists i. split; [|done]. apply enumerate_elem. by exists k.
      * right. destruct (TransactionBody.mint tx_body) as [m|]; cbn in Hk;
          [|by apply list_elem_of_lookup_2, sorted_keys_elem in Hk; set_solver].
        apply pointers_to_elem. exists (Z.of_nat k mod 2 ^ 32), h. split_and!; [|done..]. apply enumerate_elem. by exists k.
  - apply check_ret in Hps as <-. assert (plutus_hashes = []) as Hph by (unfold plutus_hashes; by rewrite Hscr).
    split; [by intros ?%elem_of_nil|]. intros [? ? ? ? ? Hh|? ? ? Hh]; rewrite Hph in Hh; by apply elem_of_nil in Hh.
Qed.

(** *** Keys *)
Lemma alonzo_witnesses_yields : yields (check_vkey_input_wits mtx (WitnessSet.vkeywitness tx_wits) utxos) () () () ->
  Forall (signed_by_owner utxos address_of tx_hash vkey_wits) (TransactionBody.inputs tx_body ++ collateral).
Proof.
  unfold check_vkey_input_wits. intros (ws & Hws%check_list_yields & (ws' & Hf%owners_yields & _)%check_bind)%check_bind.
  rewrite Hws in Hf. eapply Forall_impl; [exact Hf|]. by intros i [? _].
Qed.

(** *** Outputs and execution units *)
Lemma alonzo_outputs_yields :
  yields (check_min_lovelace tx_body pps) () () () -> yields (check_output_val_size tx_body pps) () () () ->
  yields (check_tx_outs_network_id tx_body net) () () () ->
  Forall (fun o =>
      AlonzoProtParams.ada_per_utxo_byte pps * (get_val_size_in_words (TransactionOutput.amount o) +
        match TransactionOutput.datum_hash o with Some _ => 37 | None => 27 end) <= lovelace (TransactionOutput.amount o) /\
      get_val_size_in_words (TransactionOutput.amount o) <= AlonzoProtParams.max_value_size pps /\
      on_network net (TransactionOutput.address o)) (TransactionBody.outputs tx_body).
Proof.
  intros Hm Hs Hn. apply (for_each_check _ _ (fun o => AlonzoProtParams.ada_per_utxo_byte pps * (get_val_size_in_words (TransactionOutput.amount o) +
    match TransactionOutput.datum_hash o with Some _ => 37 | None => 27 end) <= lovelace (TransactionOutput.amount o))) in Hm.
  2: { intros o (min & Hmin%check_eval & Ho%check_unless)%check_bind. unfold compute_min_lovelace in Hmin.
       apply bind_Some in Hmin as (e & He & Hmin). numbers. by apply Z.ltb_ge in Ho. }
  apply (for_each_check _ _ (fun o => get_val_size_in_words (TransactionOutput.amount o) <= AlonzoProtParams.max_value_size pps)) in Hs;
    [|by intros o ?%check_unless%Z.ltb_ge].
  apply (for_each_check _ _ (fun o => on_network net (TransactionOutput.address o))) in Hn; [|by intros o ?%address_network_yields].
  rewrite Forall_forall in Hm, Hs. rewrite Forall_forall in Hn. apply Forall_forall. auto.
Qed.

Lemma units_yields : yields (check_tx_ex_units mtx pps) () () () ->
  default [] (WitnessSet.plutus_script tx_wits) <> [] -> exists redeemers,
    WitnessSet.redeemer tx_wits = Some redeemers /\
    sum_of (fun r => mem (Redeemer.ex_units r)) redeemers <= mem (AlonzoProtParams.max_tx_ex_units pps) /\
    sum_of (fun r => steps (Redeemer.ex_units r)) redeemers <= steps (AlonzoProtParams.max_tx_ex_units pps).
Proof.
  unfold check_tx_ex_units. rewrite presence. intros Hu Hp. rewrite bool_decide_false in Hu by done. cbn in Hu.
  change (inner (Tx.transaction_witness_set mtx)) with tx_wits in Hu.
  destruct (WitnessSet.redeemer tx_wits) as [rs|]; [|by apply check_throw in Hu]. exists rs. split; [done|].
  apply ex_units_yields in Hu. by rewrite !sum_of_fmap in Hu.
Qed.

(** *** The hash of the script data *)
Lemma script_data_yields : yields (check_script_data_hash tx_body mtx) () () () ->
  match TransactionBody.script_data_hash tx_body with
  | Some hash => exists data redeemers, WitnessSet.plutus_data tx_wits = Some data /\ WitnessSet.redeemer tx_wits = Some redeemers /\
      script_integrity (inner <$> data) redeemers = Some hash
  | None => witness_data = [] /\ default [] (WitnessSet.redeemer tx_wits) = []
  end.
Proof.
  unfold check_script_data_hash. fold tx_wits. unfold witness_data in *.
  destruct (TransactionBody.script_data_hash tx_body) as [h|].
  - destruct (WitnessSet.plutus_data tx_wits) as [data|]; [|by intros ?%check_throw].
    destruct (WitnessSet.redeemer tx_wits) as [rs|]; [|by intros ?%check_throw].
    intros (h' & (d & Hd & (cm & Hcm%check_eval & <-%check_ret)%check_bind)%check_bind & ->%check_when%bool_decide_eq_true)%check_bind.
    apply encode_data_yields in Hd as ->; [|done]. exists data, rs. split_and!; [done..|]. unfold script_integrity. rewrite Hcm. cbn.
    by rewrite <- !app_assoc.
  - rewrite check_when, andb_true_iff. intros [Hd Hr].
    destruct (WitnessSet.plutus_data tx_wits) as [[]|], (WitnessSet.redeemer tx_wits) as [[]|]; done.
Qed.
End rules.

(** C11: What holds of an Alonzo transaction the validator accepts, of the rules of docs/alonzo.md: inputs and
    collateral are in the UTxO set; the slot is in its interval; the fee; with Plutus scripts, collateral, each of
    it enough, without tokens and locked by a key (Byron outputs are not looked at); outputs; network; size and
    execution units; exactly the scripts, data and redeemers needed; owners and required signers signed; hashes of
    metadata and script data.  Lovelace is conserved; a token up to multiples of 2^64, since amounts are cast to
    i64, and exactly where they fit ([all_small]).  Not among them, because the code has no such check: the languages
    of the cost models, the translation of the upper bound to system time.  Native scripts and data given are such
    as their types allow ([valid_script], [valid_data]). *)
Theorem alonzo_phase1 `{MinicborLaws, ByronCodec, Cryptoxide, DerivedCodecs} mtx utxos pps slot net :
  Forall valid_script (scripts_of (tx_wits mtx)) -> Forall valid_data (inner <$> witness_data mtx) ->
  validate_alonzo_tx mtx utxos pps slot net () = Returned (Ok ()) () ->
  phase1_valid mtx utxos pps slot net.
Proof.
  intros Hs Hd Hv. unfold validate_alonzo_tx in Hv. change (inner (Tx.transaction_body mtx)) with (tx_body mtx) in Hv.
  match type of Hv with ?m () = _ => change (yields m () () ()) in Hv end.
  next Hv Hempty. next Hv Hknown. next Hv Htime. next Hv Hfee. next Hv Hvalue. next Hv Hmin. next Hv Hsize. next Hv Hnet.
  next Hv Htx. next Hv Hunits. next Hv Hwits. next Hv Hlang. next Hv Hmeta. next Hv Hdata.
  next Htime Hlow. next Hfee Hpaid. next Hknown Hins. next Hnet Houts.
  unfold check_witness_set in Hwits. next Hwits Hscripts. next Hwits Hdatums. next Hwits Hred. next Hwits Hsign.
  split.
  - split; [by intros He; unfold check_ins_not_empty in Hempty; rewrite He in Hempty; apply check_throw in Hempty|].
    apply Forall_app. split; [by eapply inputs_in_utxos_yields|]. unfold collateral.
    destruct (TransactionBody.collateral (tx_body mtx)); [by eapply inputs_in_utxos_yields|by constructor].
  - split; [by eapply lower_bound_yields|by eapply upper_bound_yields].
  - by eapply min_fee_yields.
  - intros Hp. rewrite presence, bool_decide_false in Hfee by done. by apply collaterals_yields.
  - by apply value_yields.
  - by apply alonzo_outputs_yields.
  - by eapply network_id_yields.
  - unfold check_tx_size in Htx. by rewrite check_unless, Z.ltb_ge in Htx.
  - by apply units_yields.
  - by apply scripts_yields.
  - by apply data_yields.
  - by apply data_yields.
  - by apply redeemers_yields.
  - by apply alonzo_witnesses_yields.
  - by apply signers_yields in Hsign.
  - by apply metadata_yields in Hmeta.
  - by apply script_data_yields.
Qed.

(** ** A transaction

    Key 7 spends, with a Plutus script that mints and locks an output with a datum. *)
Module alonzo_sample.
Import sample derived.

Definition plutus : bytes := [9; 9].
Definition plutus_hash : bytes := compute_plutus_v1_script_hash plutus.
Definition datum : KeepRaw PlutusData := mkKeepRaw [0x41; 5] (PlutusData.BoundedBytes [5]).
Definition redeemer (tag : Redeemer.RedeemerTag) : Redeemer.t :=
  Redeemer.mk tag 0 (PlutusData.BoundedBytes [6]) {| mem := 10; steps := 20 |}.

Definition alonzo_pps : AlonzoProtParams.t := {|
  AlonzoProtParams.system_start := 0;
  AlonzoProtParams.epoch_length := 432000;
  AlonzoProtParams.slot_length := 1;
  AlonzoProtParams.minfee_a := 1;
  AlonzoProtParams.minfee_b := 2;
  AlonzoProtParams.max_block_body_size := 65536;
  AlonzoProtParams.max_transaction_size := 16384;
  AlonzoProtParams.max_block_header_size := 1100;
  AlonzoProtParams.key_deposit := 20;
  AlonzoProtParams.pool_deposit := 500;
  AlonzoProtParams.desired_number_of_stake_pools := 150;
  AlonzoProtParams.protocol_version := (6, 0);
  AlonzoProtParams.min_pool_cost := 340;
  AlonzoProtParams.ada_per_utxo_byte := 1;
  AlonzoProtParams.cost_models_for_script_languages := ∅;
  AlonzoProtParams.execution_costs := {| mem_price := {| numerator := 1; denominator := 10 |}; step_price := {| numerator := 1; denominator := 10 |} |};
  AlonzoProtParams.max_tx_ex_units := {| mem := 100; steps := 100 |};
  AlonzoProtParams.max_block_ex_units := {| mem := 1000; steps := 1000 |};
  AlonzoProtParams.max_value_size := 5000;
  AlonzoProtParams.collateral_percentage := 150;
  AlonzoProtParams.max_collateral_inputs := 3;
  AlonzoProtParams.expansion_rate := {| numerator := 3; denominator := 1000 |};
  AlonzoProtParams.treasury_growth_rate := {| numerator := 2; denominator := 10 |};
  AlonzoProtParams.maximum_epoch := 18;
  AlonzoProtParams.pool_pledge_influence := {| numerator := 3; denominator := 10 |};
  AlonzoProtParams.decentralization_constant := {| numerator := 0; denominator := 1 |};
  AlonzoProtParams.extra_entropy := {| Nonce.nonce_variant := Nonce.NeutralNonce; Nonce.hash := None |}
|}.

Definition script_output (script : bytes) (v : Value) (d : option bytes) : MultiEraOutput.t :=
  MultiEraOutput.AlonzoCompatible (TransactionOutput.mk (0x70 :: script) v d) Era.Alonzo.
Definition at_ (i : Z) : MultiEraInput.t := MultiEraInput.AlonzoCompatible (input i).
Definition held_by_script : list (MultiEraInput.t * MultiEraOutput.t) :=
  [(at_ 0, script_output plutus_hash (Value.Coin 200) (Some (datum_hash_of datum)));
   (at_ 1, MultiEraOutput.AlonzoCompatible (output 7 (Value.Coin 50)) Era.Alonzo)].

Definition body_with (signers : list Z) (ins : list Z) (outs : list TransactionOutput.t) (mint : option Multiasset) (integrity : option bytes)
    (collateral : option (list Z)) : TransactionBody.t := {|
  TransactionBody.inputs := input <$> ins;
  TransactionBody.outputs := outs;
  TransactionBody.fee := 10;
  TransactionBody.ttl := Some 200;
  TransactionBody.certificates := None;
  TransactionBody.withdrawals := None;
  TransactionBody.update := None;
  TransactionBody.auxiliary_data_hash := None;
  TransactionBody.validity_interval_start := Some 50;
  TransactionBody.mint := mint;
  TransactionBody.script_data_hash := integrity;
  TransactionBody.collateral := collateral ≫= (fun ins : list Z => Some (input <$> ins));
  TransactionBody.required_signers := match signers with [] => None | _ => Some (hash_of <$> signers) end;
  TransactionBody.network_id := Some NetworkId.Testnet
|}.
Definition plutus_redeemers : list Redeemer.t := [redeemer Redeemer.Spend; redeemer Redeemer.Mint].
Definition plutus_body : TransactionBody.t :=
  body_with [8] [0; 1] [output 9 (Value.Multiasset 240 {[ plutus_hash := {[ [1] := 2 ]} ]})] (Some {[ plutus_hash := {[ [1] := 2 ]} ]})
    (script_integrity [inner datum] plutus_redeemers) (Some [1]).
Definition plutus_tx : Tx.t :=
  Tx.mk (mkKeepRaw raw plutus_body)
    (mkKeepRaw [4] (WitnessSet.mk (Some [sign 7; sign 8]) None None (Some [plutus]) (Some [datum]) (Some plutus_redeemers))) true Nullable.Null.

Definition accepts (mtx : Tx.t) (l : list (MultiEraInput.t * MultiEraOutput.t)) : bool :=
  match validate_alonzo_tx mtx (utxos l) alonzo_pps 100 0 () with Returned (Ok _) _ => true | _ => false end.

Lemma plutus_tx_accepted : validate_alonzo_tx plutus_tx (utxos held_by_script) alonzo_pps 100 0 () = Returned (Ok ()) ().
Proof. vm_compute. reflexivity. Qed.
End alonzo_sample.

Section alonzo_samples.
Import sample derived alonzo_sample.

Lemma alonzo_phase1_witness :
  Forall valid_script (scripts_of (tx_wits plutus_tx)) /\ Forall valid_data (inner <$> witness_data plutus_tx) /\
  spends_script (utxos held_by_script) (input 0) plutus_hash /\ plutus_hash ∈ witness_hashes plutus_tx.
Proof.
  assert (Forall valid_script (scripts_of (tx_wits plutus_tx))) as Hs by constructor.
  assert (valid_data (PlutusData.BoundedBytes [5])) as Hdatum by (apply valid_data_intro; [by vm_compute|intros c Hc; by apply not_elem_of_nil in Hc]).
  assert (Forall valid_data (inner <$> witness_data plutus_tx)) as Hd by exact (Forall_cons_2 _ _ _ Hdatum (Forall_nil_2 _)).
  assert (spends_script (utxos held_by_script) (input 0) plutus_hash) as Hi.
  { eexists. split; [by vm_compute|]. unfold pays, yields. vm_compute. reflexivity. }
  split; [exact Hs|]. split; [exact Hd|]. split; [exact Hi|].
  pose proof (alonzo_phase1 plutus_tx (utxos held_by_script) alonzo_pps 100 0 Hs Hd plutus_tx_accepted) as Hv.
  apply (proj1 (scripts_match _ _ _ _ _ Hv plutus_hash)). left. exists (input 0). split; [left|exact Hi].
Defined.

(** *** What is accepted, and what is not *)
Definition simple (body : TransactionBody.t) (wits : option (list VKeyWitness.t)) (scripts : list NativeScript) : Tx.t :=
  Tx.mk (mkKeepRaw raw body) (mkKeepRaw [4] (WitnessSet.mk wits (Some (mkKeepRaw [] <$> scripts)) None None None None)) true Nullable.Null.
Definition native_lock (s : NativeScript) : MultiEraOutput.t := script_output (Hasher_224 (0 :: script_wire s)) (Value.Coin 90) None.

(** The lock opens at slot 5000 and the block is at slot 100. *)
Example native_scripts_not_evaluated :
  accepts (simple (body_with [] [0] [output 9 (Value.Coin 80)] None None None) (Some []) [InvalidBefore 5000])
    [(at_ 0, native_lock (InvalidBefore 5000))] = true.
Proof. vm_compute. reflexivity. Qed.

Example witness_field_required :
  validate_alonzo_tx (simple (body_with [] [0] [output 9 (Value.Coin 80)] None None None) None [InvalidBefore 5])
    (utxos [(at_ 0, native_lock (InvalidBefore 5))]) alonzo_pps 100 0 () = Returned (Err (Alonzo VKWitnessMissing)) ().
Proof. vm_compute. reflexivity. Qed.

Example alonzo_repeated_input :
  accepts (simple (body_with [] [1; 1] [output 7 (Value.Coin 90)] None None None) (Some [sign 7]) []) held_by_script = true.
Proof. vm_compute. reflexivity. Qed.

(** Plutus scripts with a collateral of the Byron era; with two that are enough only
    together; and an output of the Byron era. *)
Definition with_plutus (body : TransactionBody.t) : Tx.t :=
  Tx.mk (mkKeepRaw raw body)
    (mkKeepRaw [4] (WitnessSet.mk (Some [sign 7]) None None (Some [plutus]) (Some []) (Some [redeemer Redeemer.Mint]))) true Nullable.Null.
Definition mints (ins : list Z) (c : Z) (collateral : list Z) : Tx.t :=
  with_plutus (body_with [] ins [output 9 (Value.Multiasset c {[ plutus_hash := {[ [1] := 2 ]} ]})] (Some {[ plutus_hash := {[ [1] := 2 ]} ]})
    (script_integrity [] [redeemer Redeemer.Mint]) (Some collateral)).
Definition wallet : list (MultiEraInput.t * MultiEraOutput.t) :=
  [(at_ 1, MultiEraOutput.AlonzoCompatible (output 7 (Value.Coin 50)) Era.Alonzo);
   (at_ 2, MultiEraOutput.AlonzoCompatible (output 7 (Value.Coin 14)) Era.Alonzo);
   (at_ 3, MultiEraOutput.AlonzoCompatible (output 7 (Value.Coin 14)) Era.Alonzo); byron_output].

Example byron_collateral_unchecked : accepts (mints [1] 40 [5]) wallet = true.
Proof. vm_compute. reflexivity. Qed.

Example collateral_not_summed :
  validate_alonzo_tx (mints [1] 40 [2; 3]) (utxos wallet) alonzo_pps 100 0 () = Returned (Err (Alonzo CollateralMinLovelace)) ().
Proof. vm_compute. reflexivity. Qed.

Example byron_input_not_found :
  validate_alonzo_tx (simple (body_with [] [5] [output 9 (Value.Coin 990)] None None None) (Some []) []) (utxos wallet) alonzo_pps 100 0 () =
  Returned (Err (Alonzo InputNotInUTxO)) ().
Proof. vm_compute. reflexivity. Qed.
End alonzo_samples.
