(* ===== verification/Babbage.v ===== *)
(** * Validation of transactions of the Babbage era

    [pallas-validate/src/phase1/babbage.rs]: the checks of Alonzo with reference inputs
    and scripts, inline data, a balance of the collateral and two versions of Plutus. *)
From Stdlib Require Import String.
From S2P Require Import Prelude Cbor Rfc8949 Effects Tree NativeScript PlutusData Address AddressProps SlotTime LedgerTypes Assets ShelleyMA.
From S2P Require Import ShelleyProps Phase1 Alonzo.
Import babbage PostAlonzoError ValidationError.

(** ** Outputs of both formats *)
Definition out_address (output : TransactionOutput) : bytes :=
  match output with
  | GenTransactionOutput.Legacy output => alonzo.TransactionOutput.address (inner output)
  | GenTransactionOutput.PostAlonzo output => PostAlonzoTransactionOutput.address (inner output)
  end.

Definition out_value (output : TransactionOutput) : Value :=
  match output with
  | GenTransactionOutput.Legacy output => alonzo.TransactionOutput.amount (inner output)
  | GenTransactionOutput.PostAlonzo output => PostAlonzoTransactionOutput.value (inner output)
  end.

Definition get_datum_hash (output : TransactionOutput) : option bytes :=
  match output with
  | GenTransactionOutput.Legacy output => alonzo.TransactionOutput.datum_hash (inner output)
  | GenTransactionOutput.PostAlonzo output =>
      match inner <$> PostAlonzoTransactionOutput.datum_option (inner output) with
      | Some (DatumOption.Hash hash) => Some hash
      | _ => None
      end
  end.

(** Only outputs of the Babbage era are looked into. *)
Definition babbage_address_of (output : MultiEraOutput.t) : option bytes := out_address <$> MultiEraOutput.as_babbage output.
Definition babbage_datum_hash_at (output : MultiEraOutput.t) : option (option bytes) := get_datum_hash <$> MultiEraOutput.as_babbage output.

(** ** The cost models of the code *)
Definition alonzo_model : string :=
  "a141005901d59f1a000302590001011a00060bc719026d00011a000249f01903e800011a000249f018201a0025cea81971f70419744d186419744d186419744d186419744d186419744d186419744d18641864186419744d18641a000249f018201a000249f018201a000249f018201a000249f01903e800011a000249f018201a000249f01903e800081a000242201a00067e2318760001011a000249f01903e800081a000249f01a0001b79818f7011a000249f0192710011a0002155e19052e011903e81a000249f01903e8011a000249f018201a000249f018201a000249f0182001011a000249f0011a000249f0041a000194af18f8011a000194af18f8011a0002377c190556011a0002bdea1901f1011a000249f018201a000249f018201a000249f018201a000249f018201a000249f018201a000249f018201a000242201a00067e23187600010119f04c192bd200011a000249f018201a000242201a00067e2318760001011a000242201a00067e2318760001011a0025cea81971f704001a000141bb041a000249f019138800011a000249f018201a000302590001011a000249f018201a000249f018201a000249f018201a000249f018201a000249f018201a000249f018201a000249f018201a00330da70101ff".
Definition v1_model : string :=
  "a141005901b69f1a0003236119032c01011903e819023b00011903e8195e7104011903e818201a0001ca761928eb041959d818641959d818641959d818641959d818641959d818641959d81864186418641959d81864194c5118201a0002acfa182019b551041a000363151901ff00011a00015c3518201a000797751936f404021a0002ff941a0006ea7818dc0001011903e8196ff604021a0003bd081a00034ec5183e011a00102e0f19312a011a00032e801901a5011a0002da781903e819cf06011a00013a34182019a8f118201903e818201a00013aac0119e143041903e80a1a00030219189c011a00030219189c011a0003207c1901d9011a000330001901ff0119ccf3182019fd40182019ffd5182019581e18201940b318201a00012adf18201a0002ff941a0006ea7818dc0001011a00010f92192da7000119eabb18201a0002ff941a0006ea7818dc0001011a0002ff941a0006ea7818dc0001011a000c504e197712041a001d6af61a0001425b041a00040c660004001a00014fab18201a0003236119032c010119a0de18201a00033d7618201979f41820197fb8182019a95d1820197df718201995aa18201a009063b91903fd0aff".
Definition v2_model : string :=
  "a10198af1a0003236119032c01011903e819023b00011903e8195e7104011903e818201a0001ca761928eb041959d818641959d818641959d818641959d818641959d818641959d81864186418641959d81864194c5118201a0002acfa182019b551041a000363151901ff00011a00015c3518201a000797751936f404021a0002ff941a0006ea7818dc0001011903e8196ff604021a0003bd081a00034ec5183e011a00102e0f19312a011a00032e801901a5011a0002da781903e819cf06011a00013a34182019a8f118201903e818201a00013aac0119e143041903e80a1a00030219189c011a00030219189c011a0003207c1901d9011a000330001901ff0119ccf3182019fd40182019ffd5182019581e18201940b318201a00012adf18201a0002ff941a0006ea7818dc0001011a00010f92192da7000119eabb18201a0002ff941a0006ea7818dc0001011a0002ff941a0006ea7818dc0001011a0011b22c1a0005fdde00021a000c504e197712041a001d6af61a0001425b041a00040c660004001a00014fab18201a0003236119032c010119a0de18201a00033d7618201979f41820197fb8182019a95d1820197df718201995aa18201b00000004a817c8001b00000004a817c8001a009063b91903fd0a1b00000004a817c800001b00000004a817c800".
Definition v1_v2_model : string :=
  "a241005901b69f1a0003236119032c01011903e819023b00011903e8195e7104011903e818201a0001ca761928eb041959d818641959d818641959d818641959d818641959d818641959d81864186418641959d81864194c5118201a0002acfa182019b551041a000363151901ff00011a00015c3518201a000797751936f404021a0002ff941a0006ea7818dc0001011903e8196ff604021a0003bd081a00034ec5183e011a00102e0f19312a011a00032e801901a5011a0002da781903e819cf06011a00013a34182019a8f118201903e818201a00013aac0119e143041903e80a1a00030219189c011a00030219189c011a0003207c1901d9011a000330001901ff0119ccf3182019fd40182019ffd5182019581e18201940b318201a00012adf18201a0002ff941a0006ea7818dc0001011a00010f92192da7000119eabb18201a0002ff941a0006ea7818dc0001011a0002ff941a0006ea7818dc0001011a000c504e197712041a001d6af61a0001425b041a00040c660004001a00014fab18201a0003236119032c010119a0de18201a00033d7618201979f41820197fb8182019a95d1820197df718201995aa18201a009063b91903fd0aff0198af1a0003236119032c01011903e819023b00011903e8195e7104011903e818201a0001ca761928eb041959d818641959d818641959d818641959d818641959d818641959d81864186418641959d81864194c5118201a0002acfa182019b551041a000363151901ff00011a00015c3518201a000797751936f404021a0002ff941a0006ea7818dc0001011903e8196ff604021a0003bd081a00034ec5183e011a00102e0f19312a011a00032e801901a5011a0002da781903e819cf06011a00013a34182019a8f118201903e818201a00013aac0119e143041903e80a1a00030219189c011a00030219189c011a0003207c1901d9011a000330001901ff0119ccf3182019fd40182019ffd5182019581e18201940b318201a00012adf18201a0002ff941a0006ea7818dc0001011a00010f92192da7000119eabb18201a0002ff941a0006ea7818dc0001011a0002ff941a0006ea7818dc0001011a0011b22c1a0005fdde00021a000c504e197712041a001d6af61a0001425b041a00040c660004001a00014fab18201a0003236119032c010119a0de18201a00033d7618201979f41820197fb8182019a95d1820197df718201995aa18201b00000004a817c8001b00000004a817c8001a009063b91903fd0a1b00000004a817c800001b00000004a817c800".
Definition later_v1_model : string :=
  "a141005901b69f1a0003236119032c01011903e819023b00011903e8195e7104011903e818201a0001ca761928eb041959d818641959d818641959d818641959d818641959d818641959d81864186418641959d81864194c5118201a0002acfa182019b551041a000363151901ff00011a00015c3518201a000797751936f404021a0002ff941a0006ea7818dc0001011903e8196ff604021a0003bd081a00034ec5183e011a00102e0f19312a011a00032e801901a5011a0002da781903e819cf06011a00013a34182019a8f118201903e818201a00013aac0119e143041903e80a1a00030219189c011a00030219189c011a0003207c1901d9011a000330001901ff0119ccf3182019fd40182019ffd5182019581e18201940b318201a00012adf18201a0002ff941a0006ea7818dc0001011a00010f92192da7000119eabb18201a0002ff941a0006ea7818dc0001011a0002ff941a0006ea7818dc0001011a000c504e197712041a001d6af61a0001425b041a00040c660004001a00014fab18201a0003236119032c010119a0de18201a00033d7618201979f41820197fb8182019a95d1820197df718201995aa18201a0374f693194a1f0aff".
Definition later_v2_model : string :=
  "a10198af1a0003236119032c01011903e819023b00011903e8195e7104011903e818201a0001ca761928eb041959d818641959d818641959d818641959d818641959d818641959d81864186418641959d81864194c5118201a0002acfa182019b551041a000363151901ff00011a00015c3518201a000797751936f404021a0002ff941a0006ea7818dc0001011903e8196ff604021a0003bd081a00034ec5183e011a00102e0f19312a011a00032e801901a5011a0002da781903e819cf06011a00013a34182019a8f118201903e818201a00013aac0119e143041903e80a1a00030219189c011a00030219189c011a0003207c1901d9011a000330001901ff0119ccf3182019fd40182019ffd5182019581e18201940b318201a00012adf18201a0002ff941a0006ea7818dc0001011a00010f92192da7000119eabb18201a0002ff941a0006ea7818dc0001011a0002ff941a0006ea7818dc0001011a0011b22c1a0005fdde00021a000c504e197712041a001d6af61a0001425b041a00040c660004001a00014fab18201a0003236119032c010119a0de18201a00033d7618201979f41820197fb8182019a95d1820197df718201995aa18201a0223accc0a1a0374f693194a1f0a1a02515e841980b30a".
Definition later_v1_v2_model : string :=
  "a241005901b69f1a0003236119032c01011903e819023b00011903e8195e7104011903e818201a0001ca761928eb041959d818641959d818641959d818641959d818641959d818641959d81864186418641959d81864194c5118201a0002acfa182019b551041a000363151901ff00011a00015c3518201a000797751936f404021a0002ff941a0006ea7818dc0001011903e8196ff604021a0003bd081a00034ec5183e011a00102e0f19312a011a00032e801901a5011a0002da781903e819cf06011a00013a34182019a8f118201903e818201a00013aac0119e143041903e80a1a00030219189c011a00030219189c011a0003207c1901d9011a000330001901ff0119ccf3182019fd40182019ffd5182019581e18201940b318201a00012adf18201a0002ff941a0006ea7818dc0001011a00010f92192da7000119eabb18201a0002ff941a0006ea7818dc0001011a0002ff941a0006ea7818dc0001011a000c504e197712041a001d6af61a0001425b041a00040c660004001a00014fab18201a0003236119032c010119a0de18201a00033d7618201979f41820197fb8182019a95d1820197df718201995aa18201a0374f693194a1f0aff0198af1a0003236119032c01011903e819023b00011903e8195e7104011903e818201a0001ca761928eb041959d818641959d818641959d818641959d818641959d818641959d81864186418641959d81864194c5118201a0002acfa182019b551041a000363151901ff00011a00015c3518201a000797751936f404021a0002ff941a0006ea7818dc0001011903e8196ff604021a0003bd081a00034ec5183e011a00102e0f19312a011a00032e801901a5011a0002da781903e819cf06011a00013a34182019a8f118201903e818201a00013aac0119e143041903e80a1a00030219189c011a00030219189c011a0003207c1901d9011a000330001901ff0119ccf3182019fd40182019ffd5182019581e18201940b318201a00012adf18201a0002ff941a0006ea7818dc0001011a00010f92192da7000119eabb18201a0002ff941a0006ea7818dc0001011a0002ff941a0006ea7818dc0001011a0011b22c1a0005fdde00021a000c504e197712041a001d6af61a0001425b041a00040c660004001a00014fab18201a0003236119032c010119a0de18201a00033d7618201979f41820197fb8182019a95d1820197df718201995aa18201a0223accc0a1a0374f693194a1f0a1a02515e841980b30a".
Definition preview_v2_model : string :=
  "a10198af1a0003236119032c01011903e819023b00011903e8195e7104011903e818201a0001ca761928eb041959d818641959d818641959d818641959d818641959d818641959d81864186418641959d81864194c5118201a0002acfa182019b551041a000363151901ff00011a00015c3518201a000797751936f404021a0002ff941a0006ea7818dc0001011903e8196ff604021a0003bd081a00034ec5183e011a00102e0f19312a011a00032e801901a5011a0002da781903e819cf06011a00013a34182019a8f118201903e818201a00013aac0119e143041903e80a1a00030219189c011a00030219189c011a0003207c1901d9011a000330001901ff0119ccf3182019fd40182019ffd5182019581e18201940b318201a00012adf18201a0002ff941a0006ea7818dc0001011a00010f92192da7000119eabb18201a0002ff941a0006ea7818dc0001011a0002ff941a0006ea7818dc0001011a0011b22c1a0005fdde00021a000c504e197712041a001d6af61a0001425b041a00040c660004001a00014fab18201a0003236119032c010119a0de18201a00033d7618201979f41820197fb8182019a95d1820197df718201995aa18201a0223accc0a1a009063b91903fd0a1a02515e841980b30a".
Definition preview_v1_v2_model : string :=
  "a241005901b69f1a0003236119032c01011903e819023b00011903e8195e7104011903e818201a0001ca761928eb041959d818641959d818641959d818641959d818641959d818641959d81864186418641959d81864194c5118201a0002acfa182019b551041a000363151901ff00011a00015c3518201a000797751936f404021a0002ff941a0006ea7818dc0001011903e8196ff604021a0003bd081a00034ec5183e011a00102e0f19312a011a00032e801901a5011a0002da781903e819cf06011a00013a34182019a8f118201903e818201a00013aac0119e143041903e80a1a00030219189c011a00030219189c011a0003207c1901d9011a000330001901ff0119ccf3182019fd40182019ffd5182019581e18201940b318201a00012adf18201a0002ff941a0006ea7818dc0001011a00010f92192da7000119eabb18201a0002ff941a0006ea7818dc0001011a0002ff941a0006ea7818dc0001011a000c504e197712041a001d6af61a0001425b041a00040c660004001a00014fab18201a0003236119032c010119a0de18201a00033d7618201979f41820197fb8182019a95d1820197df718201995aa18201a009063b91903fd0aff0198af1a0003236119032c01011903e819023b00011903e8195e7104011903e818201a0001ca761928eb041959d818641959d818641959d818641959d818641959d818641959d81864186418641959d81864194c5118201a0002acfa182019b551041a000363151901ff00011a00015c3518201a000797751936f404021a0002ff941a0006ea7818dc0001011903e8196ff604021a0003bd081a00034ec5183e011a00102e0f19312a011a00032e801901a5011a0002da781903e819cf06011a00013a34182019a8f118201903e818201a00013aac0119e143041903e80a1a00030219189c011a00030219189c011a0003207c1901d9011a000330001901ff0119ccf3182019fd40182019ffd5182019581e18201940b318201a00012adf18201a0002ff941a0006ea7818dc0001011a00010f92192da7000119eabb18201a0002ff941a0006ea7818dc0001011a0002ff941a0006ea7818dc0001011a0011b22c1a0005fdde00021a000c504e197712041a001d6af61a0001425b041a00040c660004001a00014fab18201a0003236119032c010119a0de18201a00033d7618201979f41820197fb8182019a95d1820197df718201995aa18201a0223accc0a1a009063b91903fd0a1a02515e841980b30a".

Definition by_languages `{DerivedCodecs} (tx_languages : list Language.t) (v1 v2 both : string) : option bytes :=
  let has_v1 := bool_decide (Language.PlutusV1 ∈ tx_languages) in
  let has_v2 := bool_decide (Language.PlutusV2 ∈ tx_languages) in
  hex_decode (if has_v1 && negb has_v2 then v1 else if negb has_v1 && has_v2 then v2 else both).

Definition cost_model_cbor `{DerivedCodecs} (tx_languages : list Language.t) (network_magic network_id block_slot : Z) : option bytes :=
  if (network_magic =? 1) && (network_id =? 0) then
    if block_slot <? 3974409 then hex_decode alonzo_model
    else if (3974409 <=? block_slot) && (block_slot <=? 20390403) then by_languages tx_languages v1_model v2_model v1_v2_model
    else by_languages tx_languages later_v1_model later_v2_model later_v1_v2_model
  else if (network_magic =? 2) && (network_id =? 0) then
    if block_slot <? 777610 then hex_decode alonzo_model
    else if (777610 <=? block_slot) && (block_slot <? 1900893) then by_languages tx_languages v1_model v2_model v1_v2_model
    else if (1900893 <=? block_slot) && (block_slot <=? 9244810) then
      by_languages tx_languages v1_model preview_v2_model preview_v1_v2_model
    else by_languages tx_languages later_v1_model later_v2_model later_v1_v2_model
  else
    if block_slot <? 72748820 then hex_decode alonzo_model
    else if (72748820 <=? block_slot) && (block_slot <? 84844885) then by_languages tx_languages v1_model v2_model v1_v2_model
    else by_languages tx_languages later_v1_model later_v2_model later_v1_v2_model.

Section validation.
Context `{Minicbor, ByronCodec, Cryptoxide, DerivedCodecs}.

(** [get_babbage_tx_size], [aux_data_from_babbage_tx] *)
Definition get_babbage_tx_size (mtx : Tx.t) : option Z :=
  buff ← babbage_tx_encode mtx; Some (Z.of_nat (length buff) mod 2 ^ 32).

Definition aux_data_from_babbage_tx (mtx : Tx.t) : option bytes :=
  match Tx.auxiliary_data mtx with
  | Nullable.Some x => Some (raw_cbor x)
  | Nullable.Null | Nullable.Undefined => None
  end.

(** ** Inputs and time *)
Definition check_ins_not_empty (tx_body : TransactionBody.t) : check () :=
  match TransactionBody.inputs tx_body with
  | [] => throw (PostAlonzo TxInsEmpty)
  | _ => mret tt
  end.

Definition check_all_ins_in_utxos (tx_body : TransactionBody.t) (utxos : UTxOs) : check () :=
  inputs_in_utxos utxos (PostAlonzo InputNotInUTxO) (TransactionBody.inputs tx_body);;
  match TransactionBody.collateral tx_body with
  | None => mret tt
  | Some collaterals => inputs_in_utxos utxos (PostAlonzo CollateralNotInUTxO) collaterals
  end;;
  match TransactionBody.reference_inputs tx_body with
  | None => mret tt
  | Some reference_inputs => inputs_in_utxos utxos (PostAlonzo ReferenceInputNotInUTxO) reference_inputs
  end.

Definition check_lower_bound (tx_body : TransactionBody.t) (block_slot : Z) : check () :=
  lower_bound_check (TransactionBody.validity_interval_start tx_body) block_slot (PostAlonzo BlockPrecedesValInt).

Definition check_upper_bound (tx_body : TransactionBody.t) (block_slot : Z) : check () :=
  upper_bound_check (TransactionBody.ttl tx_body) block_slot (PostAlonzo BlockExceedsValInt).

Definition check_tx_validity_interval (tx_body : TransactionBody.t) (block_slot : Z) : check () :=
  check_lower_bound tx_body block_slot;;
  check_upper_bound tx_body block_slot.

(** ** Fees and collateral *)
Definition check_min_fee (tx_body : TransactionBody.t) (size : Z) (prot_pps : BabbageProtParams.t) : check () :=
  min_fee_check (TransactionBody.fee tx_body) size (BabbageProtParams.minfee_a prot_pps) (BabbageProtParams.minfee_b prot_pps)
    (PostAlonzo FeeBelowMin).

Definition presence_of_plutus_scripts (mtx : Tx.t) : bool :=
  let minted_witness_set := inner (Tx.transaction_witness_set mtx) in
  let plutus_v1_scripts := default [] (WitnessSet.plutus_v1_script minted_witness_set) in
  let plutus_v2_scripts := default [] (WitnessSet.plutus_v2_script minted_witness_set) in
  negb (bool_decide (plutus_v1_scripts = [])) || negb (bool_decide (plutus_v2_scripts = [])).

Definition check_collaterals_number (collaterals : list TransactionInput.t) (prot_pps : BabbageProtParams.t) : check () :=
  match collaterals with
  | [] => throw (PostAlonzo CollateralMissing)
  | _ =>
      if BabbageProtParams.max_collateral_inputs prot_pps <? Z.of_nat (length collaterals) mod 2 ^ 32
      then throw (PostAlonzo TooManyCollaterals) else mret tt
  end.

Definition check_collaterals_address (collaterals : list TransactionInput.t) (utxos : UTxOs) : check () :=
  collaterals_address_check utxos babbage_address_of (PostAlonzo InputDecoding) (PostAlonzo CollateralNotVKeyLocked)
    (PostAlonzo CollateralNotInUTxO) collaterals.

(** Outputs of a later era are [unimplemented!]. *)
Definition val_from_multi_era_output (multi_era_output : MultiEraOutput.t) : check Value :=
  match multi_era_output with
  | MultiEraOutput.Byron output => mret (Value.Coin (byron.TxOut.amount output))
  | MultiEraOutput.AlonzoCompatible output _ => mret (alonzo.TransactionOutput.amount output)
  | babbage_output =>
      match MultiEraOutput.as_babbage babbage_output with
      | Some output => mret (out_value output)
      | None => eval None
      end
  end.

Definition collateral_return_value (tx_body : TransactionBody.t) : Value :=
  match inner <$> TransactionBody.collateral_return tx_body with
  | Some output => out_value output
  | None => Value.Coin 0
  end.

Definition check_collaterals_assets (tx_body : TransactionBody.t) (utxos : UTxOs) (prot_pps : BabbageProtParams.t) : check () :=
  match TransactionBody.collateral tx_body with
  | Some collaterals =>
      coll_input ← for_fold (fun coll_input collateral =>
          match utxo utxos collateral with
          | Some multi_era_output =>
              val ← val_from_multi_era_output multi_era_output;
              add_values coll_input val (PostAlonzo NegativeValue)
          | None => throw (PostAlonzo CollateralNotInUTxO)
          end) empty_value collaterals;
      paid_collateral ← lovelace_diff_or_fail coll_input (collateral_return_value tx_body) (PostAlonzo NonLovelaceCollateral);
      fee_percentage ← eval (checked_mul 64 (TransactionBody.fee tx_body) (BabbageProtParams.collateral_percentage prot_pps));
      hundredfold ← eval (checked_mul 64 paid_collateral 100);
      if hundredfold <? fee_percentage then throw (PostAlonzo CollateralMinLovelace)
      else
        match TransactionBody.total_collateral tx_body with
        | Some annotated_collateral =>
            if negb (paid_collateral =? annotated_collateral) then throw (PostAlonzo CollateralAnnotation) else mret tt
        | None => mret tt
        end
  | None => throw (PostAlonzo CollateralMissing)
  end.

Definition check_collaterals (tx_body : TransactionBody.t) (utxos : UTxOs) (prot_pps : BabbageProtParams.t) : check () :=
  collaterals ← ok_or (TransactionBody.collateral tx_body) (PostAlonzo CollateralMissing);
  check_collaterals_number collaterals prot_pps;;
  check_collaterals_address collaterals utxos;;
  check_collaterals_assets tx_body utxos prot_pps.

Definition check_fee (tx_body : TransactionBody.t) (size : Z) (mtx : Tx.t) (utxos : UTxOs) (prot_pps : BabbageProtParams.t) : check () :=
  check_min_fee tx_body size prot_pps;;
  if presence_of_plutus_scripts mtx then check_collaterals tx_body utxos prot_pps else mret tt.

(** ** Values *)
Definition get_consumed (tx_body : TransactionBody.t) (utxos : UTxOs) : check Value :=
  for_fold (fun res input =>
      multi_era_output ← ok_or (utxo utxos input) (PostAlonzo InputNotInUTxO);
      val ← val_from_multi_era_output multi_era_output;
      add_values res val (PostAlonzo NegativeValue)) empty_value (TransactionBody.inputs tx_body).

Definition get_produced (tx_body : TransactionBody.t) : check Value :=
  for_fold (fun res output => add_values res (out_value (inner output)) (PostAlonzo NegativeValue))
    empty_value (TransactionBody.outputs tx_body).

Definition check_preservation_of_value (tx_body : TransactionBody.t) (utxos : UTxOs) : check () :=
  preservation_check (get_consumed tx_body utxos) (get_produced tx_body) (TransactionBody.fee tx_body) (TransactionBody.mint tx_body)
    (PostAlonzo NegativeValue) (PostAlonzo PreservationOfValue).

Definition compute_min_lovelace (val : Value) (prot_pps : BabbageProtParams.t) : option Z :=
  words ← checked_add 64 (get_val_size_in_words val) 160;
  checked_mul 64 (BabbageProtParams.ada_per_utxo_byte prot_pps) words.

Definition check_min_lovelace (tx_body : TransactionBody.t) (prot_pps : BabbageProtParams.t) : check () :=
  for_each (fun output =>
      let val := out_value (inner output) in
      min ← eval (compute_min_lovelace val prot_pps);
      if get_lovelace_from_alonzo_val val <? min then throw (PostAlonzo MinLovelaceUnreached) else mret tt)
    (TransactionBody.outputs tx_body).

Definition check_output_val_size (tx_body : TransactionBody.t) (prot_pps : BabbageProtParams.t) : check () :=
  for_each (fun output =>
      if BabbageProtParams.max_value_size prot_pps <? get_val_size_in_words (out_value (inner output))
      then throw (PostAlonzo MaxValSizeExceeded) else mret tt) (TransactionBody.outputs tx_body).

(** ** Network, size and execution units *)
Definition check_tx_outs_network_id (tx_body : TransactionBody.t) (network_id : Z) : check () :=
  for_each (fun output =>
      address_network_check network_id (PostAlonzo AddressDecoding) (PostAlonzo OutputWrongNetworkID) (out_address (inner output)))
    (TransactionBody.outputs tx_body).

Definition check_tx_network_id (tx_body : TransactionBody.t) (network_id : Z) : check () :=
  network_id_check (TransactionBody.network_id tx_body) network_id (PostAlonzo TxWrongNetworkID).

Definition check_network_id (tx_body : TransactionBody.t) (network_id : Z) : check () :=
  check_tx_outs_network_id tx_body network_id;;
  check_tx_network_id tx_body network_id.

Definition check_tx_size (size : Z) (prot_pps : BabbageProtParams.t) : check () :=
  if BabbageProtParams.max_transaction_size prot_pps <? size then throw (PostAlonzo MaxTxSizeExceeded) else mret tt.

Definition check_tx_ex_units (mtx : Tx.t) (prot_pps : BabbageProtParams.t) : check () :=
  if presence_of_plutus_scripts mtx then
    match WitnessSet.redeemer (inner (Tx.transaction_witness_set mtx)) with
    | Some redeemers_vec =>
        sum ← ex_units_sum (alonzo.Redeemer.ex_units <$> redeemers_vec);
        ex_units_check sum (BabbageProtParams.max_tx_ex_units prot_pps) (PostAlonzo TxExUnitsExceeded)
    | None => throw (PostAlonzo RedeemerMissing)
    end
  else mret tt.

(** ** Scripts

    [output] of a reference input, if it is one of Babbage with a script *)
Definition script_ref_at (utxos : UTxOs) (ref_input : TransactionInput.t) : option ScriptRef.t :=
  match utxo utxos ref_input ≫= MultiEraOutput.as_babbage with
  | Some (GenTransactionOutput.PostAlonzo output) => PostAlonzoTransactionOutput.script_ref (inner output)
  | _ => None
  end.

Definition get_script_hash_from_reference_input (ref_input : TransactionInput.t) (utxos : UTxOs) : option bytes :=
  match script_ref_at utxos ref_input with
  | Some (ScriptRef.NativeScript native_script) => Some (Hasher_224 (0 :: raw_cbor native_script))
  | Some (ScriptRef.PlutusV1Script plutus_v1_script) => Some (Hasher_224 (1 :: plutus_v1_script))
  | Some (ScriptRef.PlutusV2Script plutus_v2_script) => Some (Hasher_224 (2 :: plutus_v2_script))
  | None => None
  end.

Definition get_reference_script_hashes (tx_body : TransactionBody.t) (utxos : UTxOs) : list bytes :=
  omap (fun input => get_script_hash_from_reference_input input utxos) (default [] (TransactionBody.reference_inputs tx_body)).

Fixpoint native_script_hashes (scripts : list alonzo.NativeScript) : check (list bytes) :=
  match scripts with
  | [] => mret []
  | script :: scripts =>
      hash ← compute_native_script_hash script;
      hashes ← native_script_hashes scripts;
      mret (hash :: hashes)
  end.

(** The hashes are also printed on the standard error. *)
Definition check_minting (tx_body : TransactionBody.t) (mtx : Tx.t) (utxos : UTxOs) : check () :=
  match TransactionBody.mint tx_body with
  | Some minted_value =>
      let tx_wits := inner (Tx.transaction_witness_set mtx) in
      native_script_wits ← native_script_hashes (inner <$> default [] (WitnessSet.native_script tx_wits));
      let v1_scripts_wits := compute_plutus_v1_script_hash <$> default [] (WitnessSet.plutus_v1_script tx_wits) in
      let v2_scripts_wits := compute_plutus_v2_script_hash <$> default [] (WitnessSet.plutus_v2_script tx_wits) in
      let ref_scripts := get_reference_script_hashes tx_body utxos in
      let all_scripts_wits := native_script_wits ++ v1_scripts_wits ++ v2_scripts_wits ++ ref_scripts in
      for_each (fun policy =>
          if negb (bool_decide (policy ∈ all_scripts_wits)) then throw (PostAlonzo (MintingLacksPolicy policy)) else mret tt)
        (keys minted_value)
  | None => mret tt
  end.

Definition check_well_formedness (tx_body : TransactionBody.t) (mtx : Tx.t) : check () := mret tt.

Definition get_script_hash_from_input (input : TransactionInput.t) (utxos : UTxOs) : check (option bytes) :=
  script_hash_at utxos babbage_address_of input.

Definition get_script_hashes_from_inputs (tx_body : TransactionBody.t) (utxos : UTxOs) : check (list bytes) :=
  script_hashes utxos babbage_address_of (TransactionBody.inputs tx_body).

Definition check_input_scripts (tx_body : TransactionBody.t) (lists : hash_lists) (reference_scripts : list bytes) (utxos : UTxOs) :
    check hash_lists :=
  needed_input_scripts ← get_script_hashes_from_inputs tx_body utxos;
  needed_check needed_input_scripts reference_scripts (fun _ => PostAlonzo ScriptWitnessMissing) lists.

Definition check_minting_policies (tx_body : TransactionBody.t) (lists : hash_lists) (reference_scripts : list bytes) : check hash_lists :=
  match TransactionBody.mint tx_body with
  | None => mret lists
  | Some minted_value => needed_check (keys minted_value) reference_scripts (fun policy => PostAlonzo (MintingLacksPolicy policy)) lists
  end.

Definition check_needed_scripts (tx_body : TransactionBody.t) (utxos : UTxOs)
    (native_scripts plutus_v1_scripts plutus_v2_scripts reference_scripts : list bytes) : check () :=
  let lists := retained reference_scripts <$> [native_scripts; plutus_v1_scripts; plutus_v2_scripts] in
  lists ← check_input_scripts tx_body lists reference_scripts utxos;
  lists ← check_minting_policies tx_body lists reference_scripts;
  unneeded_check lists [PostAlonzo UnneededNativeScript; PostAlonzo UnneededPlutusV1Script; PostAlonzo UnneededPlutusV2Script].

(** ** Data *)
Definition check_input_datum_hash_in_witness_set (tx_body : TransactionBody.t) (utxos : UTxOs)
    (plutus_data_hash : list (bool * bytes)) : check (list (bool * bytes)) :=
  input_data_check utxos babbage_datum_hash_at id (PostAlonzo DatumMissing) (PostAlonzo InputNotInUTxO)
    (TransactionBody.inputs tx_body) plutus_data_hash.

(** In the outputs, in the return of the collateral, in the reference inputs *)
Definition find_datum (hash : bytes) (tx_body : TransactionBody.t) (utxos : UTxOs) : check () :=
  let has output := bool_decide (get_datum_hash output = Some hash) in
  if existsb (fun output => has (inner output)) (TransactionBody.outputs tx_body) then mret tt
  else if match TransactionBody.collateral_return tx_body with Some output => has (inner output) | None => false end then mret tt
  else if existsb (fun reference_input =>
         match utxo utxos reference_input ≫= MultiEraOutput.as_babbage with Some output => has output | None => false end)
       (default [] (TransactionBody.reference_inputs tx_body)) then mret tt
  else throw (PostAlonzo UnneededDatum).

Definition check_remaining_datums (plutus_data_hash : list (bool * bytes)) (tx_body : TransactionBody.t) (utxos : UTxOs) : check () :=
  for_each (fun x : bool * bytes => let '(found, hash) := x in if negb found then find_datum hash tx_body utxos else mret tt)
    plutus_data_hash.

Definition check_datums (tx_body : TransactionBody.t) (utxos : UTxOs) (option_plutus_data : option (list (KeepRaw PlutusData))) : check () :=
  let plutus_data_hashes := unmarked (datum_hash_of <$> default [] option_plutus_data) in
  plutus_data_hashes ← check_input_datum_hash_in_witness_set tx_body utxos plutus_data_hashes;
  check_remaining_datums plutus_data_hashes tx_body utxos.

(** ** Redeemers *)
Definition is_phase_2_script (policy : bytes) (plutus_v1_scripts plutus_v2_scripts reference_scripts : list bytes) : bool :=
  existsb (fun v1_script => bool_decide (policy = v1_script)) plutus_v1_scripts ||
  existsb (fun v2_script => bool_decide (policy = v2_script)) plutus_v2_scripts ||
  existsb (fun ref_script => bool_decide (policy = ref_script)) reference_scripts.

Definition mk_plutus_script_redeemer_pointers (plutus_v1_scripts plutus_v2_scripts reference_scripts : list bytes)
    (tx_body : TransactionBody.t) (utxos : UTxOs) : check (list alonzo.RedeemerPointer.t) :=
  spent ← spent_hashes utxos babbage_address_of (enumerate (sorted_inputs (TransactionBody.inputs tx_body)));
  mret (((fun x => alonzo.RedeemerPointer.mk alonzo.Redeemer.Spend x.1) <$> spent) ++
        match TransactionBody.mint tx_body with
        | Some mint =>
            (fun x => alonzo.RedeemerPointer.mk alonzo.Redeemer.Mint x.1) <$>
              filter (fun x => is_phase_2_script x.2 plutus_v1_scripts plutus_v2_scripts reference_scripts = true)
                (enumerate (sorted_keys mint))
        | None => []
        end).

Definition redeemer_pointers_coincide (redeemers plutus_scripts : list alonzo.RedeemerPointer.t) : check () :=
  pointers_coincide redeemers plutus_scripts (PostAlonzo UnneededRedeemer) (PostAlonzo RedeemerMissing).

Definition check_redeemers (plutus_v1_scripts plutus_v2_scripts reference_scripts : list bytes)
    (tx_body : TransactionBody.t) (tx_wits : WitnessSet.t) (utxos : UTxOs) : check () :=
  let redeemer_pointers :=
    (fun x => alonzo.RedeemerPointer.mk (alonzo.Redeemer.redeemer_tag x) (alonzo.Redeemer.index x)) <$> default [] (WitnessSet.redeemer tx_wits) in
  plutus_scripts ← mk_plutus_script_redeemer_pointers plutus_v1_scripts plutus_v2_scripts reference_scripts tx_body utxos;
  redeemer_pointers_coincide redeemer_pointers plutus_scripts.

(** ** Signatures *)
Definition check_required_signers (required_signers : option (list bytes)) (vkey_wits : option (list alonzo.VKeyWitness.t))
    (data_to_verify : bytes) : check () :=
  signers_check required_signers vkey_wits data_to_verify (PostAlonzo ReqSignerMissing) (PostAlonzo ReqSignerWrongSig).

Definition check_remaining_vk_wits (wits : list (bool * alonzo.VKeyWitness.t)) (data_to_verify : bytes) : check () :=
  remaining_check wits data_to_verify (PostAlonzo VKWrongSignature).

Definition check_vkey_input_wits (mtx : Tx.t) (vkey_wits : option (list alonzo.VKeyWitness.t)) (utxos : UTxOs) : check () :=
  let tx_body := inner (Tx.transaction_body mtx) in
  vk_wits ← mk_alonzo_vk_wits_check_list vkey_wits (PostAlonzo VKWitnessMissing);
  let tx_hash := Hasher_256 (raw_cbor (Tx.transaction_body mtx)) in
  let inputs_and_collaterals := TransactionBody.inputs tx_body ++ default [] (TransactionBody.collateral tx_body) in
  vk_wits ← owners_check utxos babbage_address_of None (PostAlonzo InputDecoding) (PostAlonzo VKWitnessMissing) (PostAlonzo VKWrongSignature)
    (PostAlonzo InputNotInUTxO) tx_hash inputs_and_collaterals vk_wits;
  check_remaining_vk_wits vk_wits tx_hash.

Definition check_witness_set (mtx : Tx.t) (utxos : UTxOs) : check () :=
  let tx_hash := Hasher_256 (raw_cbor (Tx.transaction_body mtx)) in
  let tx_body := inner (Tx.transaction_body mtx) in
  let tx_wits := inner (Tx.transaction_witness_set mtx) in
  let vkey_wits := WitnessSet.vkeywitness tx_wits in
  native_scripts ← native_script_hashes (inner <$> default [] (WitnessSet.native_script tx_wits));
  let plutus_v1_scripts := compute_plutus_v1_script_hash <$> default [] (WitnessSet.plutus_v1_script tx_wits) in
  let plutus_v2_scripts := compute_plutus_v2_script_hash <$> default [] (WitnessSet.plutus_v2_script tx_wits) in
  let reference_scripts := get_reference_script_hashes tx_body utxos in
  check_needed_scripts tx_body utxos native_scripts plutus_v1_scripts plutus_v2_scripts reference_scripts;;
  check_datums tx_body utxos (WitnessSet.plutus_data tx_wits);;
  check_redeemers plutus_v1_scripts plutus_v2_scripts reference_scripts tx_body tx_wits utxos;;
  check_required_signers (TransactionBody.required_signers tx_body) vkey_wits tx_hash;;
  check_vkey_input_wits mtx vkey_wits utxos.

(** ** Languages *)
Definition block_langs (network_magic network_id block_slot : Z) : list Language.t :=
  let since slot := if slot <=? block_slot then [Language.PlutusV1; Language.PlutusV2] else [Language.PlutusV1] in
  if (network_magic =? 1) && (network_id =? 0) then since 3974409
  else if (network_magic =? 2) && (network_id =? 0) then since 777610
  else since 72748820.

Definition compute_all_outputs (mtx : Tx.t) (utxos : UTxOs) : list TransactionOutput :=
  let tx_body := inner (Tx.transaction_body mtx) in
  let spent := omap (fun input => utxo utxos input ≫= MultiEraOutput.as_babbage) in
  spent (TransactionBody.inputs tx_body) ++ spent (default [] (TransactionBody.reference_inputs tx_body)) ++
  (inner <$> TransactionBody.outputs tx_body).

Fixpoint any_byron_addresses (all_outputs : list TransactionOutput) : check bool :=
  match all_outputs with
  | [] => mret false
  | output :: all_outputs =>
      is_byron ← is_byron_address (out_address output);
      if (is_byron : bool) then mret true else any_byron_addresses all_outputs
  end.

Definition any_datums_or_script_refs (all_outputs : list TransactionOutput) : bool :=
  existsb (fun output =>
      match output with
      | GenTransactionOutput.Legacy _ => false
      | GenTransactionOutput.PostAlonzo output =>
          match PostAlonzoTransactionOutput.script_ref (inner output), inner <$> PostAlonzoTransactionOutput.datum_option (inner output) with
          | Some _, _ | None, Some (DatumOption.Data _) => true
          | None, _ => false
          end
      end) all_outputs.

Definition any_reference_inputs (reference_inputs : option (list TransactionInput.t)) : bool :=
  match reference_inputs with
  | Some reference_inputs => negb (bool_decide (reference_inputs = []))
  | None => false
  end.

Definition allowed_langs (mtx : Tx.t) (utxos : UTxOs) : check (list Language.t) :=
  let all_outputs := compute_all_outputs mtx utxos in
  any_byron ← any_byron_addresses all_outputs;
  mret (if (any_byron : bool) then []
        else if any_datums_or_script_refs all_outputs || any_reference_inputs (TransactionBody.reference_inputs (inner (Tx.transaction_body mtx)))
        then [Language.PlutusV2] else [Language.PlutusV1; Language.PlutusV2]).

Definition available_langs (mtx : Tx.t) (utxos : UTxOs) (network_magic network_id block_slot : Z) : check (list Language.t) :=
  allowed_langs ← allowed_langs mtx utxos;
  mret (filter (fun lang => lang ∈ allowed_langs) (block_langs network_magic network_id block_slot)).

Definition tx_languages (mtx : Tx.t) (utxos : UTxOs) : list Language.t :=
  let tx_wits := inner (Tx.transaction_witness_set mtx) in
  let refs := omap (script_ref_at utxos) (default [] (TransactionBody.reference_inputs (inner (Tx.transaction_body mtx)))) in
  let v1_scripts := negb (bool_decide (default [] (WitnessSet.plutus_v1_script tx_wits) = [])) ||
    existsb (fun s => match s with ScriptRef.PlutusV1Script _ => true | _ => false end) refs in
  let v2_scripts := negb (bool_decide (default [] (WitnessSet.plutus_v2_script tx_wits) = [])) ||
    existsb (fun s => match s with ScriptRef.PlutusV2Script _ => true | _ => false end) refs in
  (if v1_scripts then [Language.PlutusV1] else []) ++ (if v2_scripts then [Language.PlutusV2] else []).

Definition check_languages (mtx : Tx.t) (utxos : UTxOs) (network_magic network_id block_slot : Z) : check () :=
  available_langs ← available_langs mtx utxos network_magic network_id block_slot;
  for_each (fun tx_lang => if negb (bool_decide (tx_lang ∈ available_langs)) then throw (PostAlonzo UnsupportedPlutusLanguage) else mret tt)
    (tx_languages mtx utxos).

(** ** Metadata and the hash of the script data *)
Definition check_auxiliary_data (tx_body : TransactionBody.t) (mtx : Tx.t) : check () :=
  metadata_check (TransactionBody.auxiliary_data_hash tx_body) (aux_data_from_babbage_tx mtx) (PostAlonzo MetadataHash).

(** The data as an array of indefinite and of definite length *)
Definition compute_script_integrity_hash (tx_languages : list Language.t) (plutus_data : list PlutusData) (redeemer : list alonzo.Redeemer.t)
    (network_magic network_id block_slot : Z) : check (bytes * bytes) :=
  let value_to_hash := redeemers_encode redeemer in
  indef ← match plutus_data with
          | [] => mret []
          | _ => bs ← encode_data plutus_data e_begin_array; mret (bs ++ e_end)
          end;
  cost_model ← eval (cost_model_cbor tx_languages network_magic network_id block_slot);
  def ← match plutus_data with
        | [] => mret []
        | _ => encode_data plutus_data (default [] (w_array (Z.of_nat (length plutus_data))))
        end;
  mret (Hasher_256 (value_to_hash ++ indef ++ cost_model), Hasher_256 (value_to_hash ++ def ++ cost_model)).

Definition check_script_data_hash (tx_body : TransactionBody.t) (mtx : Tx.t) (utxos : UTxOs) (network_magic network_id block_slot : Z) : check () :=
  let tx_wits := inner (Tx.transaction_witness_set mtx) in
  match TransactionBody.script_data_hash tx_body with
  | Some script_data_hash =>
      match WitnessSet.plutus_data tx_wits, WitnessSet.redeemer tx_wits with
      | Some plutus_data, Some redeemer =>
          hashes ← compute_script_integrity_hash (tx_languages mtx utxos) (inner <$> plutus_data) redeemer network_magic network_id block_slot;
          if bool_decide (script_data_hash = hashes.1) || bool_decide (script_data_hash = hashes.2) then mret tt
          else throw (PostAlonzo ScriptIntegrityHash)
      | _, _ => throw (PostAlonzo ScriptIntegrityHash)
      end
  | None =>
      if option_vec_is_empty (WitnessSet.plutus_data tx_wits) && option_vec_is_empty (WitnessSet.redeemer tx_wits)
      then mret tt else throw (PostAlonzo ScriptIntegrityHash)
  end.

(** ** Transactions *)
Definition validate_babbage_tx (mtx : Tx.t) (utxos : UTxOs) (prot_pps : BabbageProtParams.t) (block_slot network_magic network_id : Z) : check () :=
  let tx_body := inner (Tx.transaction_body mtx) in
  size ← ok_or (get_babbage_tx_size mtx) (PostAlonzo UnknownTxSize);
  check_ins_not_empty tx_body;;
  check_all_ins_in_utxos tx_body utxos;;
  check_tx_validity_interval tx_body block_slot;;
  check_fee tx_body size mtx utxos prot_pps;;
  check_preservation_of_value tx_body utxos;;
  check_min_lovelace tx_body prot_pps;;
  check_output_val_size tx_body prot_pps;;
  check_network_id tx_body network_id;;
  check_tx_size size prot_pps;;
  check_tx_ex_units mtx prot_pps;;
  check_minting tx_body mtx utxos;;
  check_well_formedness tx_body mtx;;
  check_witness_set mtx utxos;;
  check_languages mtx utxos network_magic network_id block_slot;;
  check_auxiliary_data tx_body mtx;;
  check_script_data_hash tx_body mtx utxos network_magic network_id block_slot.
End validation.

(** ** The rules

    [pallas-validate/docs/babbage.md], for the transactions the validator accepts. *)
Section rules.
Context `{MinicborLaws, ByronCodec, Cryptoxide, DerivedCodecs}.
Context (mtx : Tx.t) (utxos : UTxOs) (pps : BabbageProtParams.t) (slot magic net : Z).

Definition body : TransactionBody.t := inner (Tx.transaction_body mtx).
Definition body_hash : bytes := Hasher_256 (raw_cbor (Tx.transaction_body mtx)).
Definition wits : WitnessSet.t := inner (Tx.transaction_witness_set mtx).
Definition keys_given : list alonzo.VKeyWitness.t := default [] (WitnessSet.vkeywitness wits).
Definition natives : list alonzo.NativeScript := inner <$> default [] (WitnessSet.native_script wits).
Definition native_hashes : list bytes := native_hash <$> natives.
Definition v1_hashes : list bytes := compute_plutus_v1_script_hash <$> default [] (WitnessSet.plutus_v1_script wits).
Definition v2_hashes : list bytes := compute_plutus_v2_script_hash <$> default [] (WitnessSet.plutus_v2_script wits).
Definition reference_hashes : list bytes := get_reference_script_hashes body utxos.
Definition data_given : list (KeepRaw PlutusData) := default [] (WitnessSet.plutus_data wits).
Definition collateral_inputs : list TransactionInput.t := default [] (TransactionBody.collateral body).
Definition reference_inputs : list TransactionInput.t := default [] (TransactionBody.reference_inputs body).
Definition plutus_given : Prop := default [] (WitnessSet.plutus_v1_script wits) <> [] \/ default [] (WitnessSet.plutus_v2_script wits) <> [].

(** The value of what an input spends, of any era up to Babbage. *)
Definition spent_value (input : TransactionInput.t) : Value :=
  match utxo utxos input with
  | Some (MultiEraOutput.Byron output) => Value.Coin (byron.TxOut.amount output)
  | Some (MultiEraOutput.AlonzoCompatible output _) => alonzo.TransactionOutput.amount output
  | Some (MultiEraOutput.Babbage output) => out_value output
  | _ => Value.Coin 0
  end.

Definition spends_script_of : TransactionInput.t -> bytes -> Prop := locked_by utxos babbage_address_of.
Definition minted_here : gset bytes := dom (default ∅ (TransactionBody.mint body)).

Definition script_needed (hash : bytes) : Prop :=
  (exists input, input ∈ TransactionBody.inputs body /\ spends_script_of input hash) \/ hash ∈ minted_here.

(** A redeemer is asked for every input a script locks, of any kind, and for the
    policies that are hashes of Plutus scripts or of scripts of reference inputs. *)
Inductive redeemer_asked : alonzo.RedeemerPointer.t -> Prop :=
| spend_asked k input hash :
    sorted_inputs (TransactionBody.inputs body) !! k = Some input -> spends_script_of input hash ->
    redeemer_asked (alonzo.RedeemerPointer.mk alonzo.Redeemer.Spend (Z.of_nat k mod 2 ^ 32))
| mint_asked k policy :
    sorted_keys (default ∅ (TransactionBody.mint body)) !! k = Some policy -> policy ∈ v1_hashes ++ v2_hashes ++ reference_hashes ->
    redeemer_asked (alonzo.RedeemerPointer.mk alonzo.Redeemer.Mint (Z.of_nat k mod 2 ^ 32)).

Definition collateral_balance : Prop :=
  exists paid, paid + lovelace (collateral_return_value body) = sum_of (fun i => lovelace (spent_value i)) collateral_inputs /\
    (forall p n, same_word (sum_of (fun i => quantity (spent_value i) p n) collateral_inputs) (quantity (collateral_return_value body) p n)) /\
    (Forall (fun i => small (spent_value i)) collateral_inputs ->
      forall p n, sum_of (fun i => quantity (spent_value i) p n) collateral_inputs = quantity (collateral_return_value body) p n) /\
    TransactionBody.fee body * BabbageProtParams.collateral_percentage pps <= paid * 100 /\
    forall annotated, TransactionBody.total_collateral body = Some annotated -> annotated = paid.

(** Where the datum with the hash may be asked for besides by the inputs. *)
Definition datum_named (hash : bytes) : Prop :=
  (exists out, out ∈ TransactionBody.outputs body /\ get_datum_hash (inner out) = Some hash) \/
  (exists out, TransactionBody.collateral_return body = Some out /\ get_datum_hash (inner out) = Some hash) \/
  exists i, i ∈ reference_inputs /\ utxo utxos i ≫= babbage_datum_hash_at = Some (Some hash).

Definition data_items (plutus_data : list PlutusData) : bytes := concat (data_wire <$> plutus_data).
Definition integrity (indefinite : bool) (plutus_data : list PlutusData) (redeemers : list alonzo.Redeemer.t) : option bytes :=
  cost_model ← cost_model_cbor (tx_languages mtx utxos) magic net slot;
  Some (Hasher_256 (redeemers_encode redeemers ++
    match plutus_data with
    | [] => []
    | _ => if indefinite then e_begin_array ++ data_items plutus_data ++ e_end
           else default [] (w_array (Z.of_nat (length plutus_data))) ++ data_items plutus_data
    end ++ cost_model)).

Record babbage_valid (size : Z) : Prop := {
  babbage_inputs_known : TransactionBody.inputs body <> [] /\
    Forall (fun i => is_Some (utxo utxos i)) (TransactionBody.inputs body ++ collateral_inputs ++ reference_inputs);
  babbage_interval : (forall a, TransactionBody.validity_interval_start body = Some a -> a <= slot) /\
    (forall b, TransactionBody.ttl body = Some b -> slot <= b);
  babbage_fee : BabbageProtParams.minfee_b pps + BabbageProtParams.minfee_a pps * size <= TransactionBody.fee body;
  babbage_collateral : plutus_given ->
    collateral_inputs <> [] /\ Z.of_nat (length collateral_inputs) mod 2 ^ 32 <= BabbageProtParams.max_collateral_inputs pps /\
    Forall (key_locked utxos babbage_address_of) collateral_inputs /\ collateral_balance;
  babbage_value : conserved spent_value (fun o => out_value (inner o)) (TransactionBody.inputs body) (TransactionBody.outputs body)
    (TransactionBody.fee body) (TransactionBody.mint body);
  babbage_outputs : Forall (fun o =>
      BabbageProtParams.ada_per_utxo_byte pps * (get_val_size_in_words (out_value (inner o)) + 160) <= lovelace (out_value (inner o)) /\
      get_val_size_in_words (out_value (inner o)) <= BabbageProtParams.max_value_size pps /\
      on_network net (out_address (inner o))) (TransactionBody.outputs body);
  babbage_network : forall n, TransactionBody.network_id body = Some n -> NetworkId.to_u8 n = net;
  babbage_size : size <= BabbageProtParams.max_transaction_size pps;
  babbage_units : plutus_given -> exists redeemers,
    WitnessSet.redeemer wits = Some redeemers /\
    sum_of (fun r => mem (alonzo.Redeemer.ex_units r)) redeemers <= mem (BabbageProtParams.max_tx_ex_units pps) /\
    sum_of (fun r => steps (alonzo.Redeemer.ex_units r)) redeemers <= steps (BabbageProtParams.max_tx_ex_units pps);
  babbage_scripts_given : forall hash, script_needed hash -> hash ∈ reference_hashes \/ hash ∈ native_hashes ++ v1_hashes ++ v2_hashes;
  babbage_scripts_needed : forall hash, hash ∈ native_hashes ++ v1_hashes ++ v2_hashes -> hash ∈ reference_hashes \/ script_needed hash;
  babbage_data_given : Forall (fun i => exists d, utxo utxos i ≫= babbage_datum_hash_at = Some d /\
      forall hash, d = Some hash -> hash ∈ datum_hash_of <$> data_given) (TransactionBody.inputs body);
  babbage_data_needed : Forall (fun d =>
      (exists i, i ∈ TransactionBody.inputs body /\ utxo utxos i ≫= babbage_datum_hash_at = Some (Some (datum_hash_of d))) \/
      datum_named (datum_hash_of d)) data_given;
  babbage_redeemers : forall p, p ∈ ((fun r => alonzo.RedeemerPointer.mk (alonzo.Redeemer.redeemer_tag r) (alonzo.Redeemer.index r)) <$>
    default [] (WitnessSet.redeemer wits)) <-> redeemer_asked p;
  babbage_owners : Forall (signed_by_owner utxos babbage_address_of body_hash keys_given) (TransactionBody.inputs body ++ collateral_inputs);
  babbage_signers : Forall (fun h => signed_by h body_hash keys_given) (default [] (TransactionBody.required_signers body));
  babbage_languages :
    (Language.PlutusV2 ∈ tx_languages mtx utxos -> Language.PlutusV2 ∈ block_langs magic net slot) /\
    (Language.PlutusV1 ∈ tx_languages mtx utxos ->
      any_datums_or_script_refs (compute_all_outputs mtx utxos) = false /\ reference_inputs = []);
  babbage_metadata : metadata_matches (TransactionBody.auxiliary_data_hash body) (aux_data_from_babbage_tx mtx);
  babbage_script_data :
    match TransactionBody.script_data_hash body with
    | Some hash => exists data redeemers indefinite, WitnessSet.plutus_data wits = Some data /\ WitnessSet.redeemer wits = Some redeemers /\
        integrity indefinite (inner <$> data) redeemers = Some hash
    | None => data_given = [] /\ default [] (WitnessSet.redeemer wits) = []
    end
}.

Context (Hscripts : Forall valid_script natives).
Context (Hdata : Forall valid_data (inner <$> data_given)).

(** *** Collateral *)
Lemma plutus_presence : plutus_given -> presence_of_plutus_scripts mtx = true.
Proof.
  unfold plutus_given, presence_of_plutus_scripts. fold wits. rewrite orb_true_iff, !negb_true_iff, !bool_decide_eq_false. tauto.
Qed.

Lemma val_yields output v input :
  yields (val_from_multi_era_output output) () v () -> utxo utxos input = Some output -> v = spent_value input.
Proof.
  intros Hv Hi. unfold spent_value. rewrite Hi. destruct output; cbn in Hv; first [by apply check_ret in Hv as <-|by apply check_eval in Hv].
Qed.

Lemma diff_yields v w err paid :
  yields (lovelace_diff_or_fail v w err) () paid () ->
  paid + lovelace w = lovelace v /\ forall p n, quantity v p n = quantity w p n.
Proof.
  assert (forall (b : bool) (n : Z), yields (if b then mret n else throw err : check Z) () paid () -> b = true /\ paid = n) as Hif.
  { intros [] n; [by intros <-%check_ret|by intros ?%check_throw]. }
  destruct v as [f|f fma], w as [s|s sma]; cbn [lovelace_diff_or_fail get_lovelace_from_alonzo_val quantity].
  - intros [? ->]%Hif. split; [lia|done].
  - by intros ?%check_throw.
  - intros [[_ He]%andb_true_iff ->]%Hif. apply is_empty_spec in He as ->. split; [lia|]. intros p n. apply quantity_empty.
  - intros [[_ [_ Hq]%multi_assets_are_equal_spec]%andb_true_iff ->]%Hif. split; [lia|done].
Qed.

Lemma collateral_yields :
  yields (check_collaterals body utxos pps) () () () ->
  collateral_inputs <> [] /\ Z.of_nat (length collateral_inputs) mod 2 ^ 32 <= BabbageProtParams.max_collateral_inputs pps /\
  Forall (key_locked utxos babbage_address_of) collateral_inputs /\ collateral_balance.
Proof.
  unfold check_collaterals. intros (cs & Hcs & ([] & Hn & ([] & Ha & Hv)%check_bind)%check_bind)%check_bind.
  assert (TransactionBody.collateral body = Some cs) as Hc.
  { destruct (TransactionBody.collateral body); cbn in Hcs; [by apply check_ret in Hcs as ->|by apply check_throw in Hcs]. }
  unfold collateral_balance, collateral_inputs. rewrite Hc. cbn [default from_option id]. split_and!.
  - intros ->. by apply check_throw in Hn.
  - destruct cs; [by apply check_throw in Hn|]. unfold check_collaterals_number in Hn. by rewrite check_unless, Z.ltb_ge in Hn.
  - by eapply collaterals_address_yields.
  - unfold check_collaterals_assets in Hv. rewrite Hc in Hv.
    apply check_bind in Hv as (v & Hsum & (paid & Hp%diff_yields & (fee & Hfee%check_eval & (h & Hh%check_eval & Hr)%check_bind)%check_bind)%check_bind).
    numbers. destruct Hp as [Hpl Hpq]. match type of Hsum with yields (for_fold ?f _ _) _ _ _ => set (add := f) in Hsum end.
    assert (forall res x r, yields (add res x) () r () -> yields (add_values res (spent_value x) (PostAlonzo NegativeValue)) () r ()) as Hadd.
    { intros res x r Hx. subst add. cbv beta in Hx. destruct (utxo utxos x) as [o|] eqn:Ho; [|by apply check_throw in Hx].
      apply check_bind in Hx as (w & Hw & Hx). by rewrite <- (val_yields _ _ _ Hw Ho). }
    pose proof (values_same_word spent_value add _ cs empty_value v Hadd Hsum) as [Hl Hq].
    change (lovelace empty_value) with 0 in Hl. exists paid.
    destruct (Z.ltb_spec (paid * 100) (TransactionBody.fee body * BabbageProtParams.collateral_percentage pps)); [by apply check_throw in Hr|].
    split_and!; [lia| | |done|].
    + intros p n. rewrite <- Hpq, Hq. cbn. by rewrite quantity_empty.
    + intros Hs p n. eapply values_sum with (val := spent_value) in Hsum as (_ & Hqs & _); [|exact Hadd|by apply map_Forall_empty|exact Hs].
      rewrite <- Hpq, Hqs. cbn. by rewrite quantity_empty.
    + intros annotated Hann. rewrite Hann, check_unless, negb_false_iff, Z.eqb_eq in Hr. done.
Qed.

Lemma babbage_value_yields :
  yields (check_preservation_of_value body utxos) () () () ->
  conserved spent_value (fun o => out_value (inner o)) (TransactionBody.inputs body) (TransactionBody.outputs body)
    (TransactionBody.fee body) (TransactionBody.mint body).
Proof.
  eapply preservation_yields.
  - intros res x r Hr. apply check_bind in Hr as (out & Ho & (w & Hw & Hr)%check_bind).
    destruct (utxo utxos x) as [o'|] eqn:Hx; [|by apply check_throw in Ho]. apply check_ret in Ho as ->.
    by rewrite <- (val_yields _ _ _ Hw Hx).
  - done.
Qed.

(** *** Outputs and execution units *)
Lemma babbage_outputs_yields :
  yields (check_min_lovelace body pps) () () () -> yields (check_output_val_size body pps) () () () ->
  yields (check_tx_outs_network_id body net) () () () ->
  Forall (fun o =>
      BabbageProtParams.ada_per_utxo_byte pps * (get_val_size_in_words (out_value (inner o)) + 160) <= lovelace (out_value (inner o)) /\
      get_val_size_in_words (out_value (inner o)) <= BabbageProtParams.max_value_size pps /\
      on_network net (out_address (inner o))) (TransactionBody.outputs body).
Proof.
  intros Hm Hs Hn.
  apply (for_each_check _ _ (fun o => BabbageProtParams.ada_per_utxo_byte pps * (get_val_size_in_words (out_value (inner o)) + 160) <=
    lovelace (out_value (inner o)))) in Hm.
  2: { intros o (min & Hmin%check_eval & Ho%check_unless)%check_bind. apply bind_Some in Hmin as (e & He & Hmin). numbers.
       by apply Z.ltb_ge in Ho. }
  apply (for_each_check _ _ (fun o => get_val_size_in_words (out_value (inner o)) <= BabbageProtParams.max_value_size pps)) in Hs;
    [|by intros o ?%check_unless%Z.ltb_ge].
  apply (for_each_check _ _ (fun o => on_network net (out_address (inner o)))) in Hn; [|by intros o ?%address_network_yields].
  rewrite Forall_forall in Hm, Hs. rewrite Forall_forall in Hn. apply Forall_forall. auto.
Qed.

Lemma babbage_units_yields : yields (check_tx_ex_units mtx pps) () () () -> plutus_given -> exists redeemers,
    WitnessSet.redeemer wits = Some redeemers /\
    sum_of (fun r => mem (alonzo.Redeemer.ex_units r)) redeemers <= mem (BabbageProtParams.max_tx_ex_units pps) /\
    sum_of (fun r => steps (alonzo.Redeemer.ex_units r)) redeemers <= steps (BabbageProtParams.max_tx_ex_units pps).
Proof.
  unfold check_tx_ex_units. intros Hu Hp%plutus_presence. rewrite Hp in Hu. fold wits in Hu.
  destruct (WitnessSet.redeemer wits) as [rs|]; [|by apply check_throw in Hu]. exists rs. split; [done|].
  apply ex_units_yields in Hu. by rewrite !sum_of_fmap in Hu.
Qed.

(** *** Scripts *)
Lemma native_hashes_yields scripts r :
  Forall valid_script scripts -> yields (native_script_hashes scripts) () r () -> r = native_hash <$> scripts.
Proof.
  revert r; induction scripts as [|s scripts IH]; intros r Hs; cbn [native_script_hashes]; [by intros <-%check_ret|].
  apply Forall_cons in Hs as [Hs Hss]. intros (h & Hh & (hs & ->%IH & <-%check_ret)%check_bind)%check_bind; [|done].
  by destruct (yields_inj _ _ _ _ _ _ Hh (native_hash_yields s Hs)) as [-> _].
Qed.

Lemma babbage_scripts_yields :
  yields (check_needed_scripts body utxos native_hashes v1_hashes v2_hashes reference_hashes) () () () ->
  (forall hash, script_needed hash -> hash ∈ reference_hashes \/ hash ∈ native_hashes ++ v1_hashes ++ v2_hashes) /\
  forall hash, hash ∈ native_hashes ++ v1_hashes ++ v2_hashes -> hash ∈ reference_hashes \/ script_needed hash.
Proof.
  unfold check_needed_scripts, check_input_scripts. intros (l1 & (hs & Hhs & Hin)%check_bind & (l2 & Hmint & Hu)%check_bind)%check_bind.
  pose proof (script_hashes_yields _ _ _ _ Hhs) as Hneed.
  assert (exists needed' err', (forall h, h ∈ needed' <-> h ∈ minted_here) /\
    yields (needed_check needed' reference_hashes err' l1) () l2 ()) as (needed' & err' & Hm & Hmint').
  { unfold check_minting_policies, minted_here in *. destruct (TransactionBody.mint body) as [m|]; cbn [default from_option id].
    - exists (keys m). eexists. split; [by intros; apply keys_elem|exact Hmint].
    - apply check_ret in Hmint as <-. exists [], (fun _ => PostAlonzo ScriptWitnessMissing). split; [set_solver|]. done. }
  assert (native_hashes ++ v1_hashes ++ v2_hashes = mjoin [native_hashes; v1_hashes; v2_hashes]) as -> by (cbn; by rewrite app_nil_r).
  destruct (needed_scripts_yields reference_hashes [native_hashes; v1_hashes; v2_hashes] hs needed'
    (fun _ => PostAlonzo ScriptWitnessMissing) err' [PostAlonzo UnneededNativeScript; PostAlonzo UnneededPlutusV1Script; PostAlonzo UnneededPlutusV2Script])
    as [Hg Hn]; [done| |].
  - eapply yields_bind; [exact Hin|]. eapply yields_bind; [exact Hmint'|exact Hu].
  - unfold script_needed. setoid_rewrite <- Hm. split; intros hash Hh.
    + apply Hg. destruct Hh as [Hh|Hh]; [left; by apply Hneed|by right].
    + destruct (Hn hash Hh) as [|[Hh'|Hh']]; [by left|right; left; by apply Hneed|by right; right].
Qed.

(** *** Data *)
Lemma find_datum_yields hash : yields (find_datum hash body utxos) () () () -> datum_named hash.
Proof.
  unfold find_datum, datum_named, reference_inputs.
  destruct (existsb _ (TransactionBody.outputs body)) eqn:Ho.
  { intros _. apply existsb_exists_elem in Ho as (out & ? & ?%bool_decide_eq_true). left. by exists out. }
  destruct (TransactionBody.collateral_return body) as [ret|]; [case_bool_decide; [intros _; right; left; by exists ret|]|].
  all: destruct (existsb _ (default [] _)) eqn:Hr; [|by intros ?%check_throw].
  all: intros _; apply existsb_exists_elem in Hr as (i & Hi & Hr); right; right; exists i; split; [done|];
    unfold babbage_datum_hash_at; destruct (utxo utxos i) as [o|]; [|done]; cbn in *;
    destruct (MultiEraOutput.as_babbage o); [|done]; apply bool_decide_eq_true in Hr; cbn; by rewrite Hr.
Qed.

Lemma babbage_data_yields :
  yields (check_datums body utxos (WitnessSet.plutus_data wits)) () () () ->
  Forall (fun i => exists d, utxo utxos i ≫= babbage_datum_hash_at = Some d /\
      forall hash, d = Some hash -> hash ∈ datum_hash_of <$> data_given) (TransactionBody.inputs body) /\
  Forall (fun d =>
      (exists i, i ∈ TransactionBody.inputs body /\ utxo utxos i ≫= babbage_datum_hash_at = Some (Some (datum_hash_of d))) \/
      datum_named (datum_hash_of d)) data_given.
Proof.
  unfold check_datums. fold data_given. intros (data & (He & Hin & Hmark)%input_data_yields & Hr)%check_bind.
  rewrite list_fmap_id in Hin. split; [done|].
  apply (for_each_check _ _ (fun x => x.1 = false -> datum_named x.2)) in Hr; [|by intros [[] h] Hh; [|intros _; apply find_datum_yields]].
  apply (Forall_fmap datum_hash_of (fun h => (exists i, i ∈ TransactionBody.inputs body /\ utxo utxos i ≫= babbage_datum_hash_at = Some (Some h)) \/
    datum_named h)). rewrite <- He, Forall_fmap. rewrite Forall_forall in Hr. rewrite Forall_forall in Hmark. apply Forall_forall.
  intros [b h] Hh. cbn. destruct b; [left; apply (Hmark _ Hh eq_refl)|right; by apply (Hr _ Hh)].
Qed.

(** *** Redeemers *)
Lemma phase_2_elem policy v1 v2 refs : is_phase_2_script policy v1 v2 refs = true <-> policy ∈ v1 ++ v2 ++ refs.
Proof.
  assert (forall l, existsb (fun x => bool_decide (policy = x)) l = true <-> policy ∈ l) as Hl.
  { intros l. rewrite existsb_exists_elem. setoid_rewrite bool_decide_eq_true. naive_solver. }
  unfold is_phase_2_script. rewrite !orb_true_iff, !Hl, !elem_of_app. tauto.
Qed.

Lemma babbage_redeemers_yields :
  yields (check_redeemers v1_hashes v2_hashes reference_hashes body wits utxos) () () () ->
  forall p, p ∈ ((fun r => alonzo.RedeemerPointer.mk (alonzo.Redeemer.redeemer_tag r) (alonzo.Redeemer.index r)) <$>
    default [] (WitnessSet.redeemer wits)) <-> redeemer_asked p.
Proof.
  unfold check_redeemers, redeemer_pointers_coincide. intros (ps & (hs & Hhs & <-%check_ret)%check_bind & Hc)%check_bind p.
  rewrite pointers_coincide_yields in Hc. rewrite Hc. clear Hc. pose proof (spent_hashes_yields _ _ _ _ Hhs) as Hsp.
  rewrite elem_of_app, list_elem_of_fmap. split.
  - intros [([k h] & -> & Hkh)|Hm].
    + apply Hsp in Hkh as (i & (n & Hn & ->)%enumerate_elem & Hi). by eapply spend_asked.
    + destruct (TransactionBody.mint body) as [m|] eqn:Hmint; [|by apply elem_of_nil in Hm].
      apply list_elem_of_fmap in Hm as ([k h] & -> & [Hp Hk]%list_elem_of_filter).
      apply enumerate_elem in Hk as (n & Hn & ->). eapply mint_asked; [by rewrite Hmint|by apply phase_2_elem].
  - intros [k i h Hk Hi|k h Hk Hh].
    + left. exists (Z.of_nat k mod 2 ^ 32, h). split; [done|]. apply Hsp. exists i. split; [|done]. apply enumerate_elem. by exists k.
    + right. destruct (TransactionBody.mint body) as [m|]; cbn in Hk; [|by apply list_elem_of_lookup_2, sorted_keys_elem in Hk; set_solver].
      apply list_elem_of_fmap. exists (Z.of_nat k mod 2 ^ 32, h). split; [done|]. apply list_elem_of_filter. split; [by apply phase_2_elem|].
      apply enumerate_elem. by exists k.
Qed.

(** *** Keys, languages, script data *)
Lemma babbage_witnesses_yields : yields (check_vkey_input_wits mtx (WitnessSet.vkeywitness wits) utxos) () () () ->
  Forall (signed_by_owner utxos babbage_address_of body_hash keys_given) (TransactionBody.inputs body ++ collateral_inputs).
Proof.
  unfold check_vkey_input_wits. intros (ws & Hws%check_list_yields & (ws' & Hf%owners_yields & _)%check_bind)%check_bind.
  rewrite Hws in Hf. eapply Forall_impl; [exact Hf|]. by intros i [? _].
Qed.

Lemma languages_yields : yields (check_languages mtx utxos magic net slot) () () () ->
  (Language.PlutusV2 ∈ tx_languages mtx utxos -> Language.PlutusV2 ∈ block_langs magic net slot) /\
  (Language.PlutusV1 ∈ tx_languages mtx utxos ->
    any_datums_or_script_refs (compute_all_outputs mtx utxos) = false /\ reference_inputs = []).
Proof.
  unfold check_languages, available_langs, allowed_langs.
  intros (langs & (al & (b & Hb & <-%check_ret)%check_bind & <-%check_ret)%check_bind & Hr)%check_bind.
  match type of Hr with context [filter ?P ?l] => set (av := filter P l) in Hr end.
  apply (for_each_check _ _ (fun lang => lang ∈ av)) in Hr;
    [|intros x Hx; apply check_unless in Hx; by apply negb_false_iff, bool_decide_eq_true in Hx].
  rewrite Forall_forall in Hr. split; intros [Hl Hin]%Hr%list_elem_of_filter; [done|].
  destruct b; [by apply elem_of_nil in Hl|]. destruct (any_datums_or_script_refs _ || _) eqn:He.
  - by apply list_elem_of_singleton in Hl.
  - apply orb_false_iff in He as [? Href]. split; [done|]. unfold reference_inputs, any_reference_inputs in *. fold body in Href.
    destruct (TransactionBody.reference_inputs body) as [[]|]; [done| |done]. by rewrite bool_decide_false in Href by done.
Qed.

Lemma babbage_script_data_yields : yields (check_script_data_hash body mtx utxos magic net slot) () () () ->
  match TransactionBody.script_data_hash body with
  | Some hash => exists data redeemers indefinite, WitnessSet.plutus_data wits = Some data /\ WitnessSet.redeemer wits = Some redeemers /\
      integrity indefinite (inner <$> data) redeemers = Some hash
  | None => data_given = [] /\ default [] (WitnessSet.redeemer wits) = []
  end.
Proof.
  unfold check_script_data_hash. fold wits. unfold data_given in *.
  destruct (TransactionBody.script_data_hash body) as [h|].
  - destruct (WitnessSet.plutus_data wits) as [data|]; [|by intros ?%check_throw].
    destruct (WitnessSet.redeemer wits) as [rs|]; [|by intros ?%check_throw]. cbn in Hdata.
    intros (hs & (indef & Hi & (cm & Hcm%check_eval & (def & Hd & <-%check_ret)%check_bind)%check_bind)%check_bind & Hr)%check_bind.
    unfold integrity, data_items. rewrite Hcm. cbn [fst snd] in Hr. exists data, rs. destruct (inner <$> data) as [|d ds] eqn:Hds.
    + apply check_ret in Hi as <-. apply check_ret in Hd as <-. exists true. split_and!; [done..|]. cbn.
      destruct (bool_decide_reflect (h = Hasher_256 (redeemers_encode rs ++ [] ++ cm))) as [->|]; [done|by apply check_throw in Hr].
    + rewrite <- Hds in *. apply check_bind in Hi as (bs & Hbs & <-%check_ret).
      apply encode_data_yields in Hbs as ->; [|done]. apply encode_data_yields in Hd as ->; [|done].
      destruct (bool_decide_reflect (h = Hasher_256 (redeemers_encode rs ++ ((e_begin_array ++ concat (data_wire <$> (inner <$> data))) ++ e_end) ++ cm))) as [->|].
      { exists true. rewrite Hds. split_and!; [done..|]. cbn. by rewrite <- !app_assoc. }
      exists false. rewrite Hds in *. split_and!; [done..|]. cbn [orb] in Hr.
      match type of Hr with context [bool_decide (h = ?x)] => destruct (bool_decide_reflect (h = x)) as [->|] end; [done|by apply check_throw in Hr].
  - rewrite check_when, andb_true_iff. intros [Hd Hr].
    destruct (WitnessSet.plutus_data wits) as [[]|], (WitnessSet.redeemer wits) as [[]|]; done.
Qed.
End rules.


(** ** A transaction

    A Plutus script of version 2 in a reference input unlocks what is spent, another one in
    the witness set mints. *)
Module babbage_sample.
Import sample derived alonzo_sample.

Definition babbage_pps : BabbageProtParams.t := {|
  BabbageProtParams.system_start := 0;
  BabbageProtParams.epoch_length := 432000;
  BabbageProtParams.slot_length := 1;
  BabbageProtParams.minfee_a := 1;
  BabbageProtParams.minfee_b := 2;
  BabbageProtParams.max_block_body_size := 65536;
  BabbageProtParams.max_transaction_size := 16384;
  BabbageProtParams.max_block_header_size := 1100;
  BabbageProtParams.key_deposit := 20;
  BabbageProtParams.pool_deposit := 500;
  BabbageProtParams.desired_number_of_stake_pools := 150;
  BabbageProtParams.protocol_version := (7, 0);
  BabbageProtParams.min_pool_cost := 340;
  BabbageProtParams.ada_per_utxo_byte := 1;
  BabbageProtParams.cost_models_for_script_languages := babbage.CostModels.mk None None;
  BabbageProtParams.execution_costs := {| mem_price := {| numerator := 1; denominator := 10 |}; step_price := {| numerator := 1; denominator := 10 |} |};
  BabbageProtParams.max_tx_ex_units := {| mem := 100; steps := 100 |};
  BabbageProtParams.max_block_ex_units := {| mem := 1000; steps := 1000 |};
  BabbageProtParams.max_value_size := 5000;
  BabbageProtParams.collateral_percentage := 150;
  BabbageProtParams.max_collateral_inputs := 3;
  BabbageProtParams.expansion_rate := {| numerator := 3; denominator := 1000 |};
  BabbageProtParams.treasury_growth_rate := {| numerator := 2; denominator := 10 |};
  BabbageProtParams.maximum_epoch := 18;
  BabbageProtParams.pool_pledge_influence := {| numerator := 3; denominator := 10 |};
  BabbageProtParams.decentralization_constant := {| numerator := 0; denominator := 1 |};
  BabbageProtParams.extra_entropy := {| Nonce.nonce_variant := Nonce.NeutralNonce; Nonce.hash := None |}
|}.

Definition minting : bytes := [8; 8].
Definition minting_hash : bytes := compute_plutus_v2_script_hash minting.
Definition spending_hash : bytes := compute_plutus_v2_script_hash plutus.
Definition post (addr : bytes) (v : Value) (d : option DatumOption.t) (s : option ScriptRef.t) : TransactionOutput :=
  GenTransactionOutput.PostAlonzo (mkKeepRaw [] (PostAlonzoTransactionOutput.mk addr v (mkKeepRaw [] <$> d) s)).
Definition pay (x : Z) (v : Value) : KeepRaw TransactionOutput := mkKeepRaw [] (post (address x) v None None).
Definition owned (i x c : Z) : MultiEraInput.t * MultiEraOutput.t :=
  (at_ i, MultiEraOutput.Babbage (post (address x) (Value.Coin c) None None)).
Definition babbage_utxos : list (MultiEraInput.t * MultiEraOutput.t) :=
  [(at_ 0, MultiEraOutput.Babbage (post (0x70 :: spending_hash) (Value.Coin 300) (Some (DatumOption.Hash (datum_hash_of datum))) None));
   owned 1 7 50; (at_ 4, MultiEraOutput.Babbage (post (address 9) (Value.Coin 5) None (Some (ScriptRef.PlutusV2Script plutus))))].

Definition babbage_body (ins : list Z) (outs : list (KeepRaw TransactionOutput)) (mint : option Multiasset) (integrity : option bytes)
    (collateral refs : option (list Z)) : TransactionBody.t := {|
  TransactionBody.inputs := input <$> ins;
  TransactionBody.outputs := outs;
  TransactionBody.fee := 20;
  TransactionBody.ttl := Some 900000;
  TransactionBody.certificates := None;
  TransactionBody.withdrawals := None;
  TransactionBody.update := None;
  TransactionBody.auxiliary_data_hash := None;
  TransactionBody.validity_interval_start := Some 50;
  TransactionBody.mint := mint;
  TransactionBody.script_data_hash := integrity;
  TransactionBody.collateral := collateral ≫= (fun ins : list Z => Some (input <$> ins));
  TransactionBody.required_signers := None;
  TransactionBody.network_id := Some NetworkId.Testnet;
  TransactionBody.collateral_return := match collateral with Some _ => Some (pay 7 (Value.Coin 15)) | None => None end;
  TransactionBody.total_collateral := match collateral with Some _ => Some 35 | None => None end;
  TransactionBody.reference_inputs := refs ≫= (fun ins : list Z => Some (input <$> ins))
|}.
Definition babbage_tx (body : TransactionBody.t) (wits : WitnessSet.t) : Tx.t :=
  Tx.mk (mkKeepRaw raw body) (mkKeepRaw [4] wits) true Nullable.Null.
Definition mint_two : Multiasset := {[ minting_hash := {[ [1] := 2 ]} ]}.
Definition two_scripts : WitnessSet.t :=
  WitnessSet.mk (Some [sign 7]) None None None (Some [datum]) (Some plutus_redeemers) (Some [minting]).
Definition two_scripts_body (integrity : option bytes) : TransactionBody.t :=
  babbage_body [0] [pay 9 (Value.Multiasset 280 mint_two)] (Some mint_two) integrity (Some [1]) (Some [4]).
Definition two_scripts_integrity : option bytes :=
  integrity (babbage_tx (two_scripts_body None) two_scripts) (utxos babbage_utxos) 800000 2 0 true [inner datum] plutus_redeemers.
Definition two_scripts_tx : Tx.t := babbage_tx (two_scripts_body two_scripts_integrity) two_scripts.

(** On the network Preview *)
Definition babbage_validate (mtx : Tx.t) (l : list (MultiEraInput.t * MultiEraOutput.t)) : outcome ValidationError () () :=
  validate_babbage_tx mtx (utxos l) babbage_pps 800000 2 0 ().

Lemma two_scripts_accepted : babbage_validate two_scripts_tx babbage_utxos = Returned (Ok ()) ().
Proof. vm_compute. reflexivity. Qed.
End babbage_sample.

Section babbage_samples.
Import sample derived alonzo_sample babbage_sample.


(** *** What is accepted, and what is not *)
(** Only the scripts of the witness set ask for collateral and bound the execution units:
    the script that is referred to runs without either. *)
Definition huge_redeemer : alonzo.Redeemer.t :=
  alonzo.Redeemer.mk alonzo.Redeemer.Spend 0 (PlutusData.BoundedBytes [6]) {| mem := 1000000; steps := 1000000 |}.
Definition referred_wits : WitnessSet.t := WitnessSet.mk (Some []) None None None (Some [datum]) (Some [huge_redeemer]) None.
Definition referred_body (integrity : option bytes) : TransactionBody.t :=
  babbage_body [0] [pay 9 (Value.Coin 280)] None integrity None (Some [4]).
Example reference_scripts_without_collateral :
  babbage_validate (babbage_tx (referred_body (integrity (babbage_tx (referred_body None) referred_wits) (utxos babbage_utxos) 800000 2 0 true
    [inner datum] [huge_redeemer])) referred_wits) babbage_utxos = Returned (Ok ()) ().
Proof. vm_compute. reflexivity. Qed.

(** An output that a native script locks cannot be spent: a redeemer is asked for, which
    the hash of the script data then has to cover. *)
Definition native_locked (s : alonzo.NativeScript) : MultiEraInput.t * MultiEraOutput.t :=
  (at_ 6, MultiEraOutput.Babbage (post (0x70 :: Hasher_224 (0 :: script_wire s)) (Value.Coin 300) None None)).
Example native_script_needs_redeemer :
  babbage_validate (babbage_tx (babbage_body [6] [pay 9 (Value.Coin 280)] None None None None)
    (WitnessSet.mk (Some []) (Some [mkKeepRaw [] (InvalidBefore 5)]) None None None None None)) [native_locked (InvalidBefore 5)] =
  Returned (Err (PostAlonzo RedeemerMissing)) ().
Proof. vm_compute. reflexivity. Qed.

(** An output of an earlier era is counted, but then not found. *)
Example earlier_output_not_found :
  babbage_validate (babbage_tx (babbage_body [1] [pay 9 (Value.Coin 180)] None None None None)
    (WitnessSet.mk (Some [sign 7]) None None None None None None))
    [(at_ 1, MultiEraOutput.AlonzoCompatible (output 7 (Value.Coin 200)) Era.Alonzo)] =
  Returned (Err (PostAlonzo InputNotInUTxO)) ().
Proof. vm_compute. reflexivity. Qed.

(** An output of a later era makes the validator panic. *)
Example later_output_panics :
  babbage_validate (babbage_tx (babbage_body [1] [pay 9 (Value.Coin 180)] None None None None)
    (WitnessSet.mk (Some [sign 7]) None None None None None None))
    [(at_ 1, MultiEraOutput.Conway (GenTransactionOutput.Legacy (mkKeepRaw [] (output 7 (Value.Coin 200)))))] = Panicked.
Proof. vm_compute. reflexivity. Qed.

(** A datum is asked for also where a key locks the output. *)
Example datum_of_a_key_asked :
  babbage_validate (babbage_tx (babbage_body [1] [pay 9 (Value.Coin 180)] None None None None)
    (WitnessSet.mk (Some [sign 7]) None None None None None None))
    [(at_ 1, MultiEraOutput.Babbage (post (address 7) (Value.Coin 200) (Some (DatumOption.Hash (datum_hash_of datum))) None))] =
  Returned (Err (PostAlonzo DatumMissing)) ().
Proof. vm_compute. reflexivity. Qed.
End babbage_samples.
