(* ===== verification/ConwayAssets.v ===== *)
(** * Arithmetic of the values of Conway

    [pallas-validate/src/utils.rs]: the quantities of a value are positive, those that are
    minted are not zero.  [into_conway] of [pallas-traverse/src/value.rs] brings the values
    of other eras into this form. *)
From S2P Require Import Prelude Cbor Effects NativeScript SlotTime LedgerTypes Assets.
Import ValidationError.

(** [PositiveCoin::try_from] *)
Definition positive_try_from (x : Z) : option Z := if x =? 0 then None else Some x.

(** The values as they are written, which is as before. *)
Definition plain (v : conway.Value) : Value :=
  match v with conway.Value.Coin c => Value.Coin c | conway.Value.Multiasset c ma => Value.Multiasset c ma end.

Abbreviation LegacyValue := Value.

(** ** Values of all eras *)
Definition value_of (output : MultiEraOutput.t) : MultiEraValue.t :=
  match output with
  | MultiEraOutput.Byron x => MultiEraValue.Byron (byron.TxOut.amount x)
  | MultiEraOutput.AlonzoCompatible x _ => MultiEraValue.AlonzoCompatible (alonzo.TransactionOutput.amount x)
  | MultiEraOutput.Babbage x =>
      match x with
      | babbage.GenTransactionOutput.Legacy x => MultiEraValue.AlonzoCompatible (alonzo.TransactionOutput.amount (inner x))
      | babbage.GenTransactionOutput.PostAlonzo x => MultiEraValue.AlonzoCompatible (babbage.PostAlonzoTransactionOutput.value (inner x))
      end
  | MultiEraOutput.Conway x =>
      match x with
      | babbage.GenTransactionOutput.Legacy x => MultiEraValue.AlonzoCompatible (alonzo.TransactionOutput.amount (inner x))
      | babbage.GenTransactionOutput.PostAlonzo x => MultiEraValue.Conway (babbage.PostAlonzoTransactionOutput.value (inner x))
      end
  end.

(** Amounts of zero are dropped, and policies without any. *)
Definition positive_assets (ma : Multiasset) : Multiasset :=
  filter (fun kv => kv.2 <> ∅) ((filter (fun kv => 0 < kv.2) : gmap bytes Z -> gmap bytes Z) <$> ma).

Definition into_conway (value : MultiEraValue.t) : conway.Value :=
  match value with
  | MultiEraValue.Byron x => conway.Value.Coin x
  | MultiEraValue.AlonzoCompatible (Value.Coin x) => conway.Value.Coin x
  | MultiEraValue.AlonzoCompatible (Value.Multiasset coin assets) =>
      let assets := positive_assets assets in
      if negb (is_empty assets) then conway.Value.Multiasset coin assets else conway.Value.Coin coin
  | MultiEraValue.Conway x => x
  end.

(** ** Sums *)
Definition coerce_to_u64 (value : Multiasset) : Multiasset := value.

Definition conway_coerce_to_coin (value : Multiasset) : check Multiasset :=
  convert (convert (fun amount => eval (positive_try_from amount))) value.

Definition conway_coerce_to_non_zero_coin (value : Multiasset) : check Multiasset :=
  convert (convert (fun amount => eval (positive_try_from (i64_as_u64 amount)))) value.

Definition conway_add_same_policy_assets (old_assets new_assets : gmap bytes Z) : check (gmap bytes Z) :=
  insert_loop (fun old_amount new_amount =>
      match old_amount with
      | Some old_amount => eval (checked_add 64 old_amount new_amount)
      | None => mret new_amount
      end) old_assets (map_to_list new_assets).

Definition conway_add_policies (res value : Multiasset) : check Multiasset :=
  insert_loop (fun old_assets new_assets =>
      match old_assets with
      | Some old_assets => conway_add_same_policy_assets old_assets new_assets
      | None => conway_add_same_policy_assets ∅ new_assets
      end) res (map_to_list value).

Definition conway_add_multiasset_values (first second : Multiasset) : check Multiasset :=
  res ← conway_add_policies ∅ first; conway_add_policies res second.

Definition conway_add_values (first second : conway.Value) (err : ValidationError) : check conway.Value :=
  match first, second with
  | conway.Value.Coin f, conway.Value.Coin s => c ← add_lovelace f s err; mret (conway.Value.Coin c)
  | conway.Value.Multiasset f fma, conway.Value.Coin s => c ← add_lovelace f s err; mret (conway.Value.Multiasset c fma)
  | conway.Value.Coin f, conway.Value.Multiasset s sma => c ← add_lovelace f s err; mret (conway.Value.Multiasset c sma)
  | conway.Value.Multiasset f fma, conway.Value.Multiasset s sma =>
      c ← add_lovelace f s err;
      sum ← conway_add_multiasset_values (coerce_to_u64 fma) (coerce_to_u64 sma);
      sum ← conway_coerce_to_coin sum;
      mret (conway.Value.Multiasset c sum)
  end.

(** The old amount is cast to [i64] and the sum back; a new amount is cast, whatever
    its sign. *)
Definition conway_add_same_non_zero_policy_assets (old_assets new_assets : gmap bytes Z) : check (gmap bytes Z) :=
  insert_loop (fun old_amount new_amount =>
      match old_amount with
      | Some old_amount =>
          result ← eval (i64_add (u64_as_i64 old_amount) new_amount);
          if result <? 0 then throw (PostAlonzo PostAlonzoError.NegativeValue) else mret (i64_as_u64 result)
      | None => mret (i64_as_u64 new_amount)
      end) old_assets (map_to_list new_assets).

Definition conway_add_multiasset_non_negative_values (first second : Multiasset) : check Multiasset :=
  res ← conway_add_policies ∅ first;
  res ← insert_loop (fun old_assets new_assets =>
      match old_assets with
      | Some old_assets => conway_add_same_non_zero_policy_assets old_assets new_assets
      | None => conway_add_same_non_zero_policy_assets ∅ new_assets
      end) res (map_to_list second);
  mret (positive_assets res).

Definition conway_add_minted_non_zero (base_value : conway.Value) (minted_value : Multiasset) : check conway.Value :=
  match base_value with
  | conway.Value.Coin n => ma ← conway_coerce_to_non_zero_coin minted_value; mret (conway.Value.Multiasset n ma)
  | conway.Value.Multiasset n mary_base_value =>
      sum ← conway_add_multiasset_non_negative_values (coerce_to_u64 mary_base_value) minted_value;
      ma ← conway_coerce_to_coin sum;
      mret (conway.Value.Multiasset n ma)
  end.

(** ** Comparisons *)
Definition conway_multi_asset_included (fma sma : Multiasset) : bool :=
  forallb (fun '(fpolicy, fassets) =>
      match sma !! fpolicy with
      | Some sassets =>
          forallb (fun '(fasset_name, famount) =>
              if 1 <=? famount then
                match (sassets : gmap bytes Z) !! fasset_name with
                | Some samount => famount =? samount
                | None => false
                end
              else true) (map_to_list (fassets : gmap bytes Z))
      | None => false
      end) (map_to_list fma).

Definition conway_multi_assets_are_equal (fma sma : Multiasset) : bool :=
  conway_multi_asset_included fma sma && conway_multi_asset_included sma fma.

Definition conway_values_are_equal (first second : conway.Value) : bool :=
  match first, second with
  | conway.Value.Coin f, conway.Value.Coin s => f =? s
  | conway.Value.Multiasset f fma, conway.Value.Coin s => (f =? s) && is_empty fma
  | conway.Value.Coin f, conway.Value.Multiasset s sma => (f =? s) && is_empty sma
  | conway.Value.Multiasset f fma, conway.Value.Multiasset s sma =>
      if negb (f =? s) then false else conway_multi_assets_are_equal fma sma
  end.

Definition conway_lovelace_diff_or_fail (first second : conway.Value) (err : ValidationError) : check Z :=
  match first, second with
  | conway.Value.Coin f, conway.Value.Coin s => if s <=? f then mret (f - s) else throw err
  | conway.Value.Coin _, conway.Value.Multiasset _ _ => throw err
  | conway.Value.Multiasset f fma, conway.Value.Coin s => if (s <=? f) && is_empty fma then mret (f - s) else throw err
  | conway.Value.Multiasset f fma, conway.Value.Multiasset s sma =>
      if (s <=? f) && conway_multi_assets_are_equal fma sma then mret (f - s) else throw err
  end.

Definition get_lovelace_from_conway_val (val : conway.Value) : Z :=
  match val with conway.Value.Coin res | conway.Value.Multiasset res _ => res end.

(** The derived encoding of a value is that of the eras before. *)
Definition conway_get_val_size_in_words `{Minicbor} (val : conway.Value) : Z := get_val_size_in_words (plain val).

(** ** Legacy outputs

    [PositiveCoin::try_from(..).unwrap()] on each amount *)
Definition legacy_value (amount : Value) : check conway.Value :=
  match amount with
  | Value.Coin coin => mret (conway.Value.Coin coin)
  | Value.Multiasset coin assets => assets ← conway_coerce_to_coin assets; mret (conway.Value.Multiasset coin assets)
  end.

Definition conway_out_value (output : conway.TransactionOutput) : check conway.Value :=
  match output with
  | babbage.GenTransactionOutput.Legacy output => legacy_value (alonzo.TransactionOutput.amount (inner output))
  | babbage.GenTransactionOutput.PostAlonzo output => mret (babbage.PostAlonzoTransactionOutput.value (inner output))
  end.

(** ** What they compute *)
Abbreviation coins v := (get_lovelace_from_conway_val v).
Abbreviation tokens_in v := (quantity (plain v)).

(** What the types of the code ensure: the quantities are positive. *)
Definition assets_positive (ma : Multiasset) : Prop := amounts (fun x => 0 < x) ma.
Definition positive (v : conway.Value) : Prop :=
  match v with conway.Value.Coin _ => True | conway.Value.Multiasset _ ma => assets_positive ma end.

#[export] Instance positive_dec v : Decision (positive v).
Proof. destruct v; cbn [positive]; unfold assets_positive; apply _. Defined.

Lemma positive_none ma p n : assets_positive ma -> 0 <= quantity_of ma p n.
Proof. intros Hma. apply (quantity_amounts (fun x => 0 <= x)); [done|]. eapply amounts_impl; [|exact Hma]. cbn. lia. Qed.

Lemma conway_coerce_yields ma r : yields (conway_coerce_to_coin ma) () r () -> r = ma /\ amounts (fun x => x <> 0) ma.
Proof.
  unfold conway_coerce_to_coin. rewrite convert_yields.
  assert (forall a b, yields (convert (fun amount => eval (positive_try_from amount)) a : check _) () b () ->
    b = a /\ map_Forall (fun _ x => x <> 0) a) as Hin.
  { intros a b. rewrite convert_yields. intros Hr.
    assert (forall n x, a !! n = Some x -> b !! n = Some x /\ x <> 0) as Hx.
    { intros n x Hn. specialize (Hr n). rewrite Hn in Hr. destruct (b !! n) as [y|]; [|done]. cbn in Hr. apply check_eval in Hr.
      unfold positive_try_from in Hr. destruct (Z.eqb_spec x 0); [done|]. by injection Hr as ->. }
    split; [|intros n x Hn; by destruct (Hx _ _ Hn)]. apply map_eq. intros n. destruct (a !! n) as [x|] eqn:Hn; [by apply Hx|].
    specialize (Hr n). rewrite Hn in Hr. by destruct (b !! n). }
  intros Hr. assert (forall p a, ma !! p = Some a -> r !! p = Some a /\ map_Forall (fun _ x => x <> 0) a) as Hx.
  { intros p a Hp. specialize (Hr p). rewrite Hp in Hr. destruct (r !! p) as [b|]; [|done]. cbn in Hr. by apply Hin in Hr as [-> ?]. }
  split; [|intros p a Hp; by destruct (Hx _ _ Hp)]. apply map_eq. intros p. destruct (ma !! p) as [a|] eqn:Hp; [by apply Hx|].
  specialize (Hr p). rewrite Hp in Hr. by destruct (r !! p).
Qed.

Lemma conway_same_policy_yields old new r :
  yields (conway_add_same_policy_assets old new) () r () ->
  (forall n, amount_of r n = amount_of old n + amount_of new n) /\
  (map_Forall (fun _ x => 0 < x) old -> map_Forall (fun _ x => 0 < x) new -> map_Forall (fun _ x => 0 < x) r).
Proof.
  unfold conway_add_same_policy_assets. rewrite insert_loop_yields. intros Hr. split.
  - intros n. specialize (Hr n). unfold amount_of. destruct (new !! n) as [x|]; [|rewrite Hr; cbn; lia]. destruct Hr as (y & Hy & ->).
    destruct (old !! n) as [z|]; [apply check_eval in Hy; apply checked_add_Some in Hy as [? ->]|apply check_ret in Hy as ->]; cbn; lia.
  - intros Ho Hn n x Hx. specialize (Hr n). destruct (new !! n) as [y|] eqn:Hy; [|rewrite Hx in Hr; by eapply Ho].
    destruct Hr as (a & Ha & Hxa). rewrite Hx in Hxa. injection Hxa as ->. specialize (Hn _ _ Hy). cbn in Hn.
    destruct (old !! n) as [z|] eqn:Hz; [apply check_eval in Ha; apply checked_add_Some in Ha as [? ->]|by apply check_ret in Ha as <-].
    specialize (Ho _ _ Hz). cbn in Ho. lia.
Qed.

Lemma conway_policies_yields res ma r :
  yields (conway_add_policies res ma) () r () ->
  (forall p n, quantity_of r p n = quantity_of res p n + quantity_of ma p n) /\
  (assets_positive res -> assets_positive ma -> assets_positive r).
Proof.
  unfold conway_add_policies. rewrite insert_loop_yields. intros Hr. split.
  - intros p n. specialize (Hr p). unfold quantity_of.
    destruct (ma !! p) as [x|]; [|rewrite Hr; cbn; unfold amount_of; rewrite (lookup_empty n); cbn; lia].
    destruct Hr as (y & Hy & ->). by destruct (res !! p); apply conway_same_policy_yields in Hy as [Hy _]; rewrite <- Hy.
  - intros Ho Hn p x Hx. specialize (Hr p). destruct (ma !! p) as [y|] eqn:Hy; [|rewrite Hx in Hr; by eapply Ho].
    destruct Hr as (a & Ha & Hxa). rewrite Hx in Hxa. injection Hxa as ->.
    destruct (res !! p) as [z|] eqn:Hz; apply conway_same_policy_yields in Ha as [_ Ha]; apply Ha;
      [by eapply Ho|by eapply Hn|apply map_Forall_empty|by eapply Hn].
Qed.

Lemma conway_add_values_yields f s err r :
  yields (conway_add_values f s err) () r () ->
  coins r = coins f + coins s /\ coins r < 2 ^ 64 /\
  (forall p n, tokens_in r p n = tokens_in f p n + tokens_in s p n) /\ (positive f -> positive s -> positive r).
Proof.
  destruct f as [cf|cf fma], s as [cs|cs sma]; cbn [positive conway_add_values get_lovelace_from_conway_val plain quantity]; intros Hr;
    apply check_bind in Hr as (c & (? & ->)%add_lovelace_yields & Hr).
  1-3: apply check_ret in Hr as <-; cbn; split_and!; try done; intros; lia.
  apply check_bind in Hr as (x & (y & [Hqy Hpy]%conway_policies_yields & [Hqx Hpx]%conway_policies_yields)%check_bind & (z & [-> _]%conway_coerce_yields & <-%check_ret)%check_bind).
  cbn. split_and!; [done..| |].
  - intros p n. rewrite Hqx, Hqy, quantity_empty. done.
  - intros Hf Hs. apply Hpx; [|done]. apply Hpy; [apply map_Forall_empty|done].
Qed.

(** *** Assets without zeros *)
Lemma positive_assets_lookup ma p :
  positive_assets ma !! p =
  (a ← ma !! p; let a := filter (fun kv => 0 < kv.2) (a : gmap bytes Z) in if decide (a = ∅) then None else Some a).
Proof.
  unfold positive_assets. rewrite map_lookup_filter, lookup_fmap. destruct (ma !! p) as [a|]; [|done]. cbn.
  destruct (decide (filter (fun kv => 0 < kv.2) (a : gmap bytes Z) = ∅)) as [->|Hn]; [by rewrite option_guard_False by naive_solver|].
  by rewrite option_guard_True.
Qed.

Lemma positive_assets_positive ma : assets_positive (positive_assets ma).
Proof.
  intros p a. rewrite positive_assets_lookup. destruct (ma !! p) as [b|]; [|done]. cbn. case_decide; [done|].
  intros [= <-] n x [_ Hx]%map_lookup_filter_Some. done.
Qed.

Lemma positive_assets_quantity ma p n : amounts (fun x => 0 <= x) ma -> quantity_of (positive_assets ma) p n = quantity_of ma p n.
Proof.
  intros Hma. unfold quantity_of, amount_of. rewrite positive_assets_lookup. destruct (ma !! p) as [a|] eqn:Hp; [|done]. cbn.
  assert (default 0 (filter (fun kv => 0 < kv.2) a !! n) = default 0 (a !! n)) as Hf.
  { rewrite map_lookup_filter. destruct (a !! n) as [x|] eqn:Hn; [|done]. cbn. specialize (Hma _ _ Hp _ _ Hn). cbn in Hma.
    destruct (decide (0 < x)) as [Hx|Hx]; [by rewrite option_guard_True|]. rewrite option_guard_False by done. cbn. lia. }
  case_decide as He; [|exact Hf]. rewrite He, lookup_empty in Hf. cbn. by rewrite lookup_empty.
Qed.

(** *** Minting

    Tokens that are burnt are held. *)
Definition burns_held (held : bytes -> bytes -> Z) (mint : Multiasset) : Prop :=
  forall p n, quantity_of mint p n < 0 -> 0 < held p n.

Lemma non_zero_policy_yields old new r :
  map_Forall (fun _ x => 0 < x < 2 ^ 63) old -> map_Forall (fun _ => in_i64) new ->
  (forall n, amount_of new n < 0 -> 0 < amount_of old n) ->
  yields (conway_add_same_non_zero_policy_assets old new) () r () ->
  (forall n, amount_of r n = amount_of old n + amount_of new n) /\ map_Forall (fun _ x => 0 <= x) r.
Proof.
  intros Ho Hn Hb. unfold conway_add_same_non_zero_policy_assets. rewrite insert_loop_yields. intros Hr.
  assert (forall n, match new !! n with
    | Some x => exists a, r !! n = Some a /\ 0 <= a /\ a = amount_of old n + x
    | None => r !! n = old !! n end) as Hx.
  { intros n. specialize (Hr n). specialize (Hb n). unfold amount_of in *. destruct (new !! n) as [x|] eqn:Hx; [|done].
    destruct Hr as (a & Ha & ->). exists a. split; [done|]. specialize (Hn _ _ Hx). unfold in_i64 in Hn. cbn in Hn, Hb.
    destruct (old !! n) as [z|] eqn:Hz; cbn in *.
    - specialize (Ho _ _ Hz). cbn in Ho. apply check_bind in Ha as (s & Hs%check_eval & Ha). unfold i64_add, u64_as_i64 in Hs.
      destruct (Z.ltb_spec z (2 ^ 63)); [|lia]. destruct (_ && _) in Hs; [|done]. injection Hs as <-.
      destruct (Z.ltb_spec (z + x) 0); [by apply check_throw in Ha|]. apply check_ret in Ha as <-. unfold i64_as_u64. rewrite Z.mod_small by lia. lia.
    - apply check_ret in Ha as <-. unfold i64_as_u64. rewrite Z.mod_small by lia. lia. }
  split.
  - intros n. specialize (Hx n). unfold amount_of in *. destruct (new !! n); [destruct Hx as (a & -> & _ & ->); done|rewrite Hx; cbn; lia].
  - intros n y Hy. specialize (Hx n). destruct (new !! n); [destruct Hx as (a & Ha & ? & _); by simplify_eq|].
    rewrite Hy in Hx. symmetry in Hx. specialize (Ho _ _ Hx). cbn in Ho. lia.
Qed.

Lemma non_negative_yields f m r :
  amounts (fun x => 0 < x < 2 ^ 63) f -> amounts in_i64 m -> burns_held (quantity_of f) m ->
  yields (conway_add_multiasset_non_negative_values f m) () r () ->
  (forall p n, quantity_of r p n = quantity_of f p n + quantity_of m p n) /\ assets_positive r.
Proof.
  intros Hf Hm Hb (g & Hg & (h & Hh & <-%check_ret)%check_bind)%check_bind. split; [|apply positive_assets_positive].
  assert (forall p, match f !! p with
    | Some a => exists b, g !! p = Some b /\ (forall n, amount_of b n = amount_of a n) /\ map_Forall (fun _ x => 0 < x < 2 ^ 63) b
    | None => g !! p = None end) as Hfg.
  { intros p. unfold conway_add_policies in Hg. rewrite insert_loop_yields in Hg. specialize (Hg p). rewrite lookup_empty in Hg.
    destruct (f !! p) as [a|] eqn:Hp; [|done]. destruct Hg as (b & [Hq Hpos]%conway_same_policy_yields & ->). exists b. split; [done|].
    assert (forall n, amount_of b n = amount_of a n) as Hab by (intros n; rewrite Hq; unfold amount_of at 1; rewrite lookup_empty; done).
    split; [done|]. intros n x Hx. assert (0 < x) as H0.
    { eapply Hpos; [apply map_Forall_empty| |exact Hx]. intros k y Hk. specialize (Hf _ _ Hp _ _ Hk). cbn in Hf. lia. }
    specialize (Hab n). unfold amount_of in Hab. rewrite Hx in Hab. cbn in Hab. destruct (a !! n) as [y|] eqn:Hy; cbn in Hab; [|lia].
    subst y. by specialize (Hf _ _ Hp _ _ Hy). }
  rewrite insert_loop_yields in Hh.
  assert (forall p, (forall n, amount_of (default ∅ (h !! p)) n = quantity_of f p n + quantity_of m p n) /\
    map_Forall (fun _ x => 0 <= x) (default ∅ (h !! p))) as Hsum.
  { intros p. specialize (Hh p). specialize (Hfg p). specialize (Hb p). unfold quantity_of in *. destruct (m !! p) as [a|] eqn:Hp; cbn [default from_option id] in *.
    - destruct Hh as (b & Hb' & ->). cbn [default from_option id]. assert (map_Forall (fun _ => in_i64) a) as Ha by by eapply Hm.
      destruct (f !! p) as [c|]; cbn [default from_option id] in *.
      + destruct Hfg as (d & Hd & Hcd & Hpos). rewrite Hd in Hb'.
        apply non_zero_policy_yields in Hb' as [Hs Hp']; [|done..|by intros n Hn; rewrite Hcd; apply Hb]. split; [|done]. intros n. by rewrite Hs, Hcd.
      + rewrite Hfg in Hb'. apply non_zero_policy_yields in Hb' as [Hs Hp']; [done|apply map_Forall_empty|done|done].
    - rewrite Hh. destruct (f !! p) as [c|]; cbn [default from_option id].
      + destruct Hfg as (d & -> & Hcd & Hpos). cbn. split; [intros n; rewrite Hcd; unfold amount_of at 3; rewrite lookup_empty; cbn; lia|].
        intros n x Hx. specialize (Hpos _ _ Hx). cbn in *. lia.
      + rewrite Hfg. cbn. split; [intros n; unfold amount_of; rewrite !lookup_empty; done|apply map_Forall_empty]. }
  intros p n. rewrite positive_assets_quantity; [apply Hsum|].
  intros q a Hq. destruct (Hsum q) as [_ Ha]. by rewrite Hq in Ha.
Qed.

Lemma conway_minted_yields v m r :
  positive v -> (forall p n, tokens_in v p n < 2 ^ 63) -> amounts in_i64 m -> burns_held (tokens_in v) m ->
  yields (conway_add_minted_non_zero v m) () r () ->
  coins r = coins v /\ (forall p n, tokens_in r p n = tokens_in v p n + quantity_of m p n) /\ positive r.
Proof.
  destruct v as [c|c ma]; cbn [positive plain quantity conway_add_minted_non_zero get_lovelace_from_conway_val]; intros Hv Hs Hm Hb Hr.
  - apply check_bind in Hr as (a & Ha & <-%check_ret). cbn.
    assert (forall p x, m !! p = Some x -> a !! p = Some x /\ map_Forall (fun _ y => 0 < y) x) as Hx.
    { intros p x Hp. unfold conway_coerce_to_non_zero_coin in Ha. rewrite convert_yields in Ha. specialize (Ha p). rewrite Hp in Ha.
      destruct (a !! p) as [y|]; [|done]. cbn in Ha. rewrite convert_yields in Ha.
      assert (forall n z, x !! n = Some z -> y !! n = Some z /\ 0 < z) as Hz.
      { intros n z Hn. specialize (Ha n). rewrite Hn in Ha. destruct (y !! n) as [w|]; [|done]. cbn in Ha. apply check_eval in Ha.
        specialize (Hm _ _ Hp _ _ Hn). unfold in_i64 in Hm. cbn in Hm. specialize (Hb p n). unfold quantity_of, amount_of in Hb.
        rewrite Hp in Hb. cbn in Hb. rewrite Hn in Hb. cbn in Hb. unfold positive_try_from, i64_as_u64 in Ha.
        rewrite Z.mod_small in Ha by lia. destruct (Z.eqb_spec z 0); [done|]. injection Ha as ->. split; [done|lia]. }
      split; [|intros n z Hn; by destruct (Hz _ _ Hn)]. f_equal. symmetry. apply map_eq. intros n.
      destruct (x !! n) as [z|] eqn:Hn; [by destruct (Hz _ _ Hn)|]. specialize (Ha n). rewrite Hn in Ha. by destruct (y !! n). }
    assert (a = m) as ->.
    { apply map_eq. intros p. destruct (m !! p) as [x|] eqn:Hp; [by apply Hx|]. unfold conway_coerce_to_non_zero_coin in Ha.
      rewrite convert_yields in Ha. specialize (Ha p). rewrite Hp in Ha. by destruct (a !! p). }
    split_and!; [done|intros; lia|]. intros p x Hp. by destruct (Hx _ _ Hp).
  - apply check_bind in Hr as (x & Hx & (y & [-> _]%conway_coerce_yields & <-%check_ret)%check_bind).
    apply non_negative_yields in Hx as [Hq Hp]; [|clear Hx|done..]; [cbn; by split_and!|].
    intros p a Hp n y Hy. change (ma !! p = Some a) in Hp. specialize (Hv _ _ Hp _ _ Hy). specialize (Hs p n). unfold quantity_of, amount_of in Hs. rewrite Hp in Hs.
    cbn in *. rewrite Hy in Hs. done.
Qed.

(** Whatever is minted or burnt, the sums are right up to multiples of [2 ^ 64]. *)
Lemma i64_as_u64_same_word x : same_word (i64_as_u64 x) x /\ 0 <= i64_as_u64 x.
Proof.
  unfold i64_as_u64. split; [|apply Z.mod_pos_bound; lia].
  exists (- (x / 2 ^ 64)). pose proof (Z.div_mod x (2 ^ 64)). lia.
Qed.

Lemma u64_as_i64_same_word x : same_word (u64_as_i64 x) x.
Proof. unfold u64_as_i64. case_match; [done|]. exists (-1). lia. Qed.

Lemma non_zero_coins_same_word m a :
  yields (conway_coerce_to_non_zero_coin m) () a () ->
  assets_positive a /\ forall p n, same_word (quantity_of a p n) (quantity_of m p n).
Proof.
  unfold conway_coerce_to_non_zero_coin. rewrite convert_yields. intros Ha.
  assert (forall x y : gmap bytes Z, yields (convert (fun amount => eval (positive_try_from (i64_as_u64 amount))) x : check _) () y () ->
    map_Forall (fun _ z => 0 < z) y /\ forall n, same_word (amount_of y n) (amount_of x n)) as Hin.
  { intros x y. rewrite convert_yields. intros Hy. split.
    - intros n z Hz. specialize (Hy n). rewrite Hz in Hy. destruct (x !! n) as [w|]; [|done]. cbn in Hy. apply check_eval in Hy.
      unfold positive_try_from in Hy. destruct (Z.eqb_spec (i64_as_u64 w) 0); [done|]. injection Hy as <-.
      destruct (i64_as_u64_same_word w). lia.
    - intros n. specialize (Hy n). unfold amount_of. destruct (x !! n) as [w|], (y !! n) as [z|]; try done. cbn in Hy |- *.
      apply check_eval in Hy. unfold positive_try_from in Hy. destruct (_ =? 0); [done|]. injection Hy as <-. apply i64_as_u64_same_word. }
  split.
  - intros p y Hp. specialize (Ha p). rewrite Hp in Ha. destruct (m !! p) as [x|]; [|done]. cbn in Ha. by apply Hin in Ha as [? _].
  - intros p n. specialize (Ha p). unfold quantity_of. destruct (m !! p) as [x|], (a !! p) as [y|]; try done. cbn in Ha |- *.
    by apply Hin in Ha as [_ ?].
Qed.

Lemma non_zero_policy_same_word old new r :
  map_Forall (fun _ x => 0 <= x) old -> yields (conway_add_same_non_zero_policy_assets old new) () r () ->
  map_Forall (fun _ x => 0 <= x) r /\ forall n, same_word (amount_of r n) (amount_of old n + amount_of new n).
Proof.
  intros Ho. unfold conway_add_same_non_zero_policy_assets. rewrite insert_loop_yields. intros Hr.
  assert (forall n, match new !! n with
    | Some x => exists a, r !! n = Some a /\ 0 <= a /\ same_word a (amount_of old n + x)
    | None => r !! n = old !! n end) as Hx.
  { intros n. specialize (Hr n). unfold amount_of. destruct (new !! n) as [x|]; [|done]. destruct Hr as (a & Ha & ->). exists a. split; [done|].
    destruct (old !! n) as [z|]; cbn.
    - apply check_bind in Ha as (s & Hs%check_eval & Ha). unfold i64_add in Hs. destruct (_ && _) in Hs; [|done]. injection Hs as <-.
      destruct (_ <? 0); [by apply check_throw in Ha|]. apply check_ret in Ha as <-.
      destruct (i64_as_u64_same_word (u64_as_i64 z + x)) as [Hs H0]. split; [exact H0|]. by rewrite Hs, u64_as_i64_same_word.
    - apply check_ret in Ha as <-. destruct (i64_as_u64_same_word x). by split. }
  split.
  - intros n y Hy. specialize (Hx n). destruct (new !! n); [destruct Hx as (a & Ha & ? & _); by simplify_eq|].
    rewrite Hy in Hx. by eapply Ho.
  - intros n. specialize (Hx n). unfold amount_of in *. destruct (new !! n); [destruct Hx as (a & -> & _ & Ha); exact Ha|].
    rewrite Hx. cbn. by rewrite Z.add_0_r.
Qed.

Lemma non_negative_same_word f m r :
  assets_positive f -> yields (conway_add_multiasset_non_negative_values f m) () r () ->
  assets_positive r /\ forall p n, same_word (quantity_of r p n) (quantity_of f p n + quantity_of m p n).
Proof.
  intros Hf (g & [Hqg Hpg]%conway_policies_yields & (h & Hh & <-%check_ret)%check_bind)%check_bind.
  split; [apply positive_assets_positive|]. specialize (Hpg (map_Forall_empty _) Hf). rewrite insert_loop_yields in Hh.
  assert (forall p, map_Forall (fun _ x => 0 <= x) (default ∅ (g !! p))) as Hg.
  { intros p. destruct (g !! p) as [a|] eqn:Hp; [|apply map_Forall_empty]. intros n x Hx. specialize (Hpg _ _ Hp _ _ Hx). cbn in Hpg. lia. }
  assert (forall p, map_Forall (fun _ x => 0 <= x) (default ∅ (h !! p)) /\
    forall n, same_word (amount_of (default ∅ (h !! p)) n) (quantity_of g p n + quantity_of m p n)) as Hsum.
  { intros p. specialize (Hh p). specialize (Hg p). unfold quantity_of. destruct (m !! p) as [a|]; cbn [default from_option id] in *.
    - destruct Hh as (b & Hb & ->). cbn [default from_option id]. destruct (g !! p) as [c|]; by apply non_zero_policy_same_word in Hb.
    - rewrite Hh. split; [done|]. intros n. unfold amount_of at 3. rewrite lookup_empty. cbn. by rewrite Z.add_0_r. }
  intros p n. rewrite positive_assets_quantity.
  - destruct (Hsum p) as [_ Hs]. unfold quantity_of at 1. rewrite Hs, Hqg, quantity_empty. done.
  - intros q a Hq. destruct (Hsum q) as [Ha _]. by rewrite Hq in Ha.
Qed.

Lemma conway_minted_same_word v m r :
  yields (conway_add_minted_non_zero v m) () r () ->
  coins r = coins v /\
  (positive v -> positive r /\ forall p n, same_word (tokens_in r p n) (tokens_in v p n + quantity_of m p n)).
Proof.
  destruct v as [c|c ma]; cbn [positive plain quantity conway_add_minted_non_zero get_lovelace_from_conway_val]; intros Hr.
  - apply check_bind in Hr as (a & Ha%non_zero_coins_same_word & <-%check_ret). by split.
  - apply check_bind in Hr as (x & Hx & (y & [-> _]%conway_coerce_yields & <-%check_ret)%check_bind). split; [done|].
    intros Hv. by apply (non_negative_same_word ma).
Qed.

(** *** Comparisons *)
Lemma conway_equal_coins f s : conway_values_are_equal f s = true -> coins f = coins s.
Proof.
  destruct f, s; cbn [conway_values_are_equal get_lovelace_from_conway_val]; rewrite ?andb_true_iff, ?Z.eqb_eq; try tauto.
  case_match eqn:He; [done|]. apply negb_false_iff, Z.eqb_eq in He. done.
Qed.

Lemma conway_included_spec fma sma :
  assets_positive fma -> conway_multi_asset_included fma sma = multi_asset_included fma sma.
Proof.
  intros Hf. apply eq_true_iff_eq. unfold conway_multi_asset_included, multi_asset_included. rewrite !forallb_map.
  apply forall_proper. intros p. apply forall_proper. intros a. split; intros Ha Hp; specialize (Ha Hp); cbn in *;
    (destruct (sma !! p) as [b|]; [|done]); rewrite forallb_map in *; intros n x Hn; specialize (Ha n x Hn); cbn in *;
    specialize (Hf _ _ Hp _ _ Hn); cbn in Hf; rewrite (proj2 (Z.leb_le 1 x)) in * by lia;
    rewrite (proj2 (Z.eqb_neq x 0)) in * by lia; done.
Qed.

Lemma conway_equal_spec f s :
  positive f -> positive s -> conway_values_are_equal f s = values_are_equal (plain f) (plain s).
Proof.
  destruct f, s; cbn [positive plain conway_values_are_equal values_are_equal]; intros Hf Hs; try done.
  unfold conway_multi_assets_are_equal, multi_assets_are_equal. by rewrite !conway_included_spec.
Qed.

Lemma conway_diff_spec f s err :
  positive f -> positive s -> conway_lovelace_diff_or_fail f s err = lovelace_diff_or_fail (plain f) (plain s) err.
Proof.
  destruct f, s; cbn [positive plain conway_lovelace_diff_or_fail lovelace_diff_or_fail]; intros Hf Hs; try done.
  unfold conway_multi_assets_are_equal, multi_assets_are_equal. by rewrite !conway_included_spec.
Qed.

Lemma coins_plain v : lovelace (plain v) = coins v.
Proof. by destruct v. Qed.

Lemma into_conway_positive v :
  (forall w, v = MultiEraValue.Conway w -> positive w) -> positive (into_conway v).
Proof.
  destruct v as [c|[c|c ma]|w]; cbn [into_conway]; intros Hv; try done; [|by apply Hv].
  destruct (negb _); [apply positive_assets_positive|done].
Qed.

(** What the types ensure of an amount of the eras before. *)
Definition amount_typed (amount : Value) : Prop :=
  match amount with Value.Coin _ => True | Value.Multiasset _ ma => amounts (fun x => 0 <= x) ma end.

#[export] Instance amount_typed_dec v : Decision (amount_typed v).
Proof. destruct v; cbn [amount_typed]; apply _. Defined.

Lemma legacy_value_yields amount v :
  yields (legacy_value amount) () v () -> plain v = amount /\ (amount_typed amount -> positive v).
Proof.
  destruct amount as [c|c ma]; cbn [legacy_value amount_typed]; intros Hv.
  - by apply check_ret in Hv as <-.
  - apply check_bind in Hv as (a & [-> Hn]%conway_coerce_yields & <-%check_ret). split; [done|].
    intros Ha p a Hp n x Hx. specialize (Ha _ _ Hp _ _ Hx). specialize (Hn _ _ Hp _ _ Hx). cbn in *. lia.
Qed.
