(* ===== verification/Conway.v ===== *)
(** * Validation of transactions of the Conway era

    [pallas-validate/src/phase1/conway.rs] and the hash of the script data of
    [pallas-primitives/src/conway/script_data.rs]: the checks of Babbage with three
    versions of Plutus, redeemers as a list or a map, withdrawals that scripts allow, and
    values whose quantities are positive. *)
From S2P Require Import Prelude Cbor Rfc8949 Effects Tree NativeScript PlutusData Address AddressProps SlotTime LedgerTypes Assets ShelleyMA.
From S2P Require Import ShelleyProps Phase1 Alonzo Babbage ConwayAssets.
Import conway PostAlonzoError ValidationError.

Abbreviation Legacy := babbage.GenTransactionOutput.Legacy.
Abbreviation PostAlonzoOutput := babbage.GenTransactionOutput.PostAlonzo.

(** ** Outputs *)
Definition conway_out_address (output : TransactionOutput) : bytes :=
  match output with
  | Legacy output => alonzo.TransactionOutput.address (inner output)
  | PostAlonzoOutput output => babbage.PostAlonzoTransactionOutput.address (inner output)
  end.

Definition conway_datum_hash (output : TransactionOutput) : option bytes :=
  match output with
  | Legacy output => alonzo.TransactionOutput.datum_hash (inner output)
  | PostAlonzoOutput output =>
      match inner <$> babbage.PostAlonzoTransactionOutput.datum_option (inner output) with
      | Some (babbage.DatumOption.Hash hash) => Some hash
      | _ => None
      end
  end.

(** [MultiEraOutput::datum] *)
Definition datum (output : MultiEraOutput.t) : option babbage.DatumOption.t :=
  match output with
  | MultiEraOutput.AlonzoCompatible x _ => babbage.DatumOption.Hash <$> alonzo.TransactionOutput.datum_hash x
  | MultiEraOutput.Babbage (babbage.GenTransactionOutput.Legacy x) => babbage.DatumOption.Hash <$> alonzo.TransactionOutput.datum_hash (inner x)
  | MultiEraOutput.Babbage (babbage.GenTransactionOutput.PostAlonzo x) => inner <$> babbage.PostAlonzoTransactionOutput.datum_option (inner x)
  | MultiEraOutput.Byron _ => None
  | MultiEraOutput.Conway (babbage.GenTransactionOutput.Legacy x) => babbage.DatumOption.Hash <$> alonzo.TransactionOutput.datum_hash (inner x)
  | MultiEraOutput.Conway (babbage.GenTransactionOutput.PostAlonzo x) => inner <$> babbage.PostAlonzoTransactionOutput.datum_option (inner x)
  end.

(** Addresses of Conway outputs, and of all but Byron ones *)
Definition conway_address_of (output : MultiEraOutput.t) : option bytes := conway_out_address <$> MultiEraOutput.as_conway output.
Definition shelley_address_of (output : MultiEraOutput.t) : option bytes :=
  match MultiEraOutput.as_conway output, MultiEraOutput.as_alonzo output, MultiEraOutput.as_babbage output with
  | Some conway_output, _, _ => Some (conway_out_address conway_output)
  | None, Some alonzo_output, _ => Some (alonzo.TransactionOutput.address alonzo_output)
  | None, None, Some babbage_output => Some (out_address babbage_output)
  | None, None, None => None
  end.
Definition conway_datum_hash_at (output : MultiEraOutput.t) : option (option bytes) :=
  Some (match datum output with Some (babbage.DatumOption.Hash hash) => Some hash | _ => None end).

(** ** The hash of the script data

    The cost models in the order of their versions, the first of which is 0. *)
Abbreviation LanguageViews := (list (Z * list Z)).

Definition view_encode `{Minicbor} (x : Z * list Z) : enc :=
  let '(lang, cost_model) := x in
  if lang =? 0 then
    inner ← w_begin_array ⊕ enc_all ((fun v => w_i64 v) <$> cost_model) ⊕ w_end;
    w_bytes (e_u8 0) ⊕ w_bytes inner
  else w_u8 lang ⊕ w_array (Z.of_nat (length cost_model)) ⊕ enc_all ((fun v => w_i64 v) <$> cost_model).

(** The first version goes last. *)
Definition LanguageViews_encode `{Minicbor} (views : LanguageViews) : enc :=
  let canonical_order := filter (fun x => x.1 <> 0) views ++ filter (fun x => x.1 = 0) views in
  w_map (Z.of_nat (length views)) ⊕ enc_all (view_encode <$> canonical_order).

Module ScriptData.
Record t := mk {
  redeemers : option Redeemers.t;
  datums : option (KeepRaw (list (KeepRaw PlutusData)));
  language_views : option LanguageViews
}.

Definition build_for (witness : WitnessSet.t) (language_views_opt : option LanguageViews) : option t :=
  let redeemers := inner <$> WitnessSet.redeemer witness in
  let datums := WitnessSet.plutus_data witness in
  match redeemers, datums with
  | None, None => None
  | _, _ =>
      Some (mk redeemers datums
        match redeemers, language_views_opt with Some _, Some _ => language_views_opt | _, _ => None end)
  end.

Section hash.
Context `{Minicbor, Cryptoxide, DerivedCodecs}.

Definition Redeemers_encode (redeemers : Redeemers.t) : enc :=
  match redeemers with
  | Redeemers.List rs => w_array (Z.of_nat (length rs)) ⊕ enc_all ((fun r => Some (conway_redeemer_encode r)) <$> rs)
  | Redeemers.Map rs => w_map (Z.of_nat (length rs)) ⊕ enc_all ((fun r => Some (conway_redeemer_entry_encode r)) <$> rs)
  end.

(** The raw bytes of data that was decoded are not empty. *)
Definition hash (data : t) : option bytes :=
  redeemers ← match redeemers data with Some redeemers => Redeemers_encode redeemers | None => Some [0xa0] end;
  let datums := match datums data with Some datums => raw_cbor datums | None => [] end in
  views ← match language_views data with Some views => LanguageViews_encode views | None => Some [0xa0] end;
  Some (Hasher_256 (redeemers ++ datums ++ views)).
End hash.
End ScriptData.

(** ** The order of reward accounts *)
Definition network_tag (network : Network.t) : Z :=
  match network with Network.Testnet => 0 | Network.Mainnet => 1 | Network.Other tag => tag end.

#[export] Instance network_eq_dec : EqDecision Network.t.
Proof. solve_decision. Defined.

Definition sort_reward_accounts (a b : StakeAddress.t) : comparison :=
  if bool_decide (StakeAddress.network a <> StakeAddress.network b)
  then network_tag (StakeAddress.network a) ?= network_tag (StakeAddress.network b)
  else
    match StakeAddress.payload a, StakeAddress.payload b with
    | StakePayload.Script _, StakePayload.Stake _ => Lt
    | StakePayload.Stake _, StakePayload.Script _ => Gt
    | StakePayload.Script hash_a, StakePayload.Script hash_b => bytes_cmp hash_a hash_b
    | StakePayload.Stake hash_a, StakePayload.Stake hash_b => bytes_cmp hash_a hash_b
    end.

Definition account_le (a b : StakeAddress.t) : Prop := sort_reward_accounts a b <> Gt.
#[export] Instance account_le_dec a b : Decision (account_le a b).
Proof. unfold account_le. apply _. Defined.

Section validation.
Context `{Minicbor, ByronCodec, Cryptoxide, DerivedCodecs}.

Definition get_conway_tx_size (mtx : Tx.t) : option Z :=
  buff ← conway_tx_encode mtx; Some (Z.of_nat (length buff) mod 2 ^ 32).

Definition aux_data_from_conway_tx (mtx : Tx.t) : option bytes :=
  match Tx.auxiliary_data mtx with
  | Nullable.Some x => Some (raw_cbor x)
  | Nullable.Null | Nullable.Undefined => None
  end.

(** ** Inputs and time *)
Definition check_ins_not_empty (tx_body : TransactionBody.t) : check () :=
  match TransactionBody.inputs tx_body with
  | [] => throw (PostAlonzo TxInsEmpty)
  | _ => mret tt
  end.

Definition check_all_ins_in_utxos (tx_body : TransactionBody.t) (utxos : UTxOs) : check () :=
  inputs_in_utxos utxos (PostAlonzo InputNotInUTxO) (TransactionBody.inputs tx_body);;
  match TransactionBody.collateral tx_body with
  | None => mret tt
  | Some collaterals => inputs_in_utxos utxos (PostAlonzo CollateralNotInUTxO) collaterals
  end;;
  match TransactionBody.reference_inputs tx_body with
  | None => mret tt
  | Some reference_inputs => inputs_in_utxos utxos (PostAlonzo ReferenceInputNotInUTxO) reference_inputs
  end.

Definition check_lower_bound (tx_body : TransactionBody.t) (block_slot : Z) : check () :=
  lower_bound_check (TransactionBody.validity_interval_start tx_body) block_slot (PostAlonzo BlockPrecedesValInt).

Definition check_upper_bound (tx_body : TransactionBody.t) (block_slot : Z) : check () :=
  upper_bound_check (TransactionBody.ttl tx_body) block_slot (PostAlonzo BlockExceedsValInt).

Definition check_tx_validity_interval (tx_body : TransactionBody.t) (block_slot : Z) : check () :=
  check_lower_bound tx_body block_slot;;
  check_upper_bound tx_body block_slot.

(** ** Fees and collateral *)
Definition check_min_fee (tx_body : TransactionBody.t) (size : Z) (prot_pps : ConwayProtParams.t) : check () :=
  min_fee_check (TransactionBody.fee tx_body) size (ConwayProtParams.minfee_a prot_pps) (ConwayProtParams.minfee_b prot_pps)
    (PostAlonzo FeeBelowMin).

Definition presence_of_plutus_scripts (mtx : Tx.t) : bool :=
  let minted_witness_set := inner (Tx.transaction_witness_set mtx) in
  let plutus_v1_scripts := default [] (WitnessSet.plutus_v1_script minted_witness_set) in
  let plutus_v2_scripts := default [] (WitnessSet.plutus_v2_script minted_witness_set) in
  let plutus_v3_scripts := default [] (WitnessSet.plutus_v3_script minted_witness_set) in
  negb (bool_decide (plutus_v1_scripts = [])) || negb (bool_decide (plutus_v2_scripts = [])) || negb (bool_decide (plutus_v3_scripts = [])).

Definition check_collaterals_number (collaterals : list TransactionInput.t) (prot_pps : ConwayProtParams.t) : check () :=
  match collaterals with
  | [] => throw (PostAlonzo CollateralMissing)
  | _ =>
      if ConwayProtParams.max_collateral_inputs prot_pps <? Z.of_nat (length collaterals) mod 2 ^ 32
      then throw (PostAlonzo TooManyCollaterals) else mret tt
  end.

Definition check_collaterals_address (collaterals : list TransactionInput.t) (utxos : UTxOs) : check () :=
  collaterals_address_check utxos conway_address_of (PostAlonzo InputDecoding) (PostAlonzo CollateralNotVKeyLocked)
    (PostAlonzo CollateralNotInUTxO) collaterals.

Definition val_from_multi_era_output (multi_era_output : MultiEraOutput.t) : conway.Value := into_conway (value_of multi_era_output).

(** The value of the first input, to which those of the others are added *)
Definition sum_inputs (utxos : UTxOs) (unknown : ValidationError) (first_input : TransactionInput.t) (inputs : list TransactionInput.t) :
    check conway.Value :=
  first ← ok_or (utxo utxos first_input) unknown;
  for_fold (fun res input =>
      multi_era_output ← ok_or (utxo utxos input) unknown;
      conway_add_values res (val_from_multi_era_output multi_era_output) (PostAlonzo NegativeValue))
    (val_from_multi_era_output first) inputs.

Definition collateral_return_value (tx_body : TransactionBody.t) : check conway.Value :=
  match TransactionBody.collateral_return tx_body with
  | Some output => conway_out_value output
  | None => mret (conway.Value.Coin 0)
  end.

Definition check_collaterals_assets (tx_body : TransactionBody.t) (utxos : UTxOs) (prot_pps : ConwayProtParams.t) : check () :=
  match TransactionBody.collateral tx_body with
  | Some [] => eval None
  | Some (first_collateral :: collaterals) =>
      coll_input ← sum_inputs utxos (PostAlonzo CollateralNotInUTxO) first_collateral collaterals;
      coll_return ← collateral_return_value tx_body;
      paid_collateral ← conway_lovelace_diff_or_fail coll_input coll_return (PostAlonzo NonLovelaceCollateral);
      fee_percentage ← eval (checked_mul 64 (TransactionBody.fee tx_body) (ConwayProtParams.collateral_percentage prot_pps));
      hundredfold ← eval (checked_mul 64 paid_collateral 100);
      if hundredfold <? fee_percentage then throw (PostAlonzo CollateralMinLovelace)
      else
        match TransactionBody.total_collateral tx_body with
        | Some annotated_collateral =>
            if negb (paid_collateral =? annotated_collateral) then throw (PostAlonzo CollateralAnnotation) else mret tt
        | None => mret tt
        end
  | None => throw (PostAlonzo CollateralMissing)
  end.

Definition check_collaterals (tx_body : TransactionBody.t) (utxos : UTxOs) (prot_pps : ConwayProtParams.t) : check () :=
  collaterals ← ok_or (TransactionBody.collateral tx_body) (PostAlonzo CollateralMissing);
  check_collaterals_number collaterals prot_pps;;
  check_collaterals_address collaterals utxos;;
  check_collaterals_assets tx_body utxos prot_pps.

Definition check_fee (tx_body : TransactionBody.t) (size : Z) (mtx : Tx.t) (utxos : UTxOs) (prot_pps : ConwayProtParams.t) : check () :=
  check_min_fee tx_body size prot_pps;;
  if presence_of_plutus_scripts mtx then check_collaterals tx_body utxos prot_pps else mret tt.

(** ** Values *)
Definition get_consumed (tx_body : TransactionBody.t) (utxos : UTxOs) : check conway.Value :=
  match TransactionBody.inputs tx_body with
  | [] => throw (PostAlonzo TxInsEmpty)
  | first_input :: inputs => sum_inputs utxos (PostAlonzo InputNotInUTxO) first_input inputs
  end.

Definition get_produced (tx_body : TransactionBody.t) : check conway.Value :=
  match TransactionBody.outputs tx_body with
  | [] => throw (PostAlonzo TxInsEmpty)
  | first_output :: outputs =>
      first ← conway_out_value first_output;
      for_fold (fun res output => val ← conway_out_value output; conway_add_values res val (PostAlonzo NegativeValue)) first outputs
  end.

Definition check_preservation_of_value (tx_body : TransactionBody.t) (utxos : UTxOs) : check () :=
  input ← get_consumed tx_body utxos;
  produced ← get_produced tx_body;
  output ← conway_add_values produced (conway.Value.Coin (TransactionBody.fee tx_body)) (PostAlonzo NegativeValue);
  input ← match TransactionBody.mint tx_body with
          | Some m => conway_add_minted_non_zero input m
          | None => mret input
          end;
  if negb (conway_values_are_equal input output) then throw (PostAlonzo PreservationOfValue) else mret tt.

Definition compute_min_lovelace (val : conway.Value) (prot_pps : ConwayProtParams.t) : option Z :=
  words ← checked_add 64 (conway_get_val_size_in_words val) 160;
  checked_mul 64 (ConwayProtParams.ada_per_utxo_byte prot_pps) words.

Definition check_min_lovelace (tx_body : TransactionBody.t) (prot_pps : ConwayProtParams.t) : check () :=
  for_each (fun output =>
      val ← conway_out_value output;
      min ← eval (compute_min_lovelace val prot_pps);
      if get_lovelace_from_conway_val val <? min then throw (PostAlonzo MinLovelaceUnreached) else mret tt)
    (TransactionBody.outputs tx_body).

Definition check_output_val_size (tx_body : TransactionBody.t) (prot_pps : ConwayProtParams.t) : check () :=
  for_each (fun output =>
      val ← conway_out_value output;
      if ConwayProtParams.max_value_size prot_pps <? conway_get_val_size_in_words val
      then throw (PostAlonzo MaxValSizeExceeded) else mret tt) (TransactionBody.outputs tx_body).

(** ** Network, size and execution units *)
Definition check_tx_outs_network_id (tx_body : TransactionBody.t) (network_id : Z) : check () :=
  for_each (fun output =>
      address_network_check network_id (PostAlonzo AddressDecoding) (PostAlonzo OutputWrongNetworkID) (conway_out_address output))
    (TransactionBody.outputs tx_body).

Definition check_tx_network_id (tx_body : TransactionBody.t) (network_id : Z) : check () :=
  network_id_check (TransactionBody.network_id tx_body) network_id (PostAlonzo TxWrongNetworkID).

Definition check_network_id (tx_body : TransactionBody.t) (network_id : Z) : check () :=
  check_tx_outs_network_id tx_body network_id;;
  check_tx_network_id tx_body network_id.

Definition check_tx_size (size : Z) (prot_pps : ConwayProtParams.t) : check () :=
  if ConwayProtParams.max_transaction_size prot_pps <? size then throw (PostAlonzo MaxTxSizeExceeded) else mret tt.

(** The sums are in the closure of an iterator that is never advanced: they stay 0. *)
Definition check_tx_ex_units (mtx : Tx.t) (prot_pps : ConwayProtParams.t) : check () :=
  if presence_of_plutus_scripts mtx then
    match WitnessSet.redeemer (inner (Tx.transaction_witness_set mtx)) with
    | Some redeemers_vec =>
        ex_units_check {| mem := 0; steps := 0 |} (ConwayProtParams.max_tx_ex_units prot_pps) (PostAlonzo TxExUnitsExceeded)
    | None => throw (PostAlonzo RedeemerMissing)
    end
  else mret tt.

(** ** Scripts *)
Definition conway_script_ref_at (utxos : UTxOs) (ref_input : TransactionInput.t) : option ScriptRef.t :=
  match utxo utxos ref_input ≫= MultiEraOutput.as_conway with
  | Some (PostAlonzoOutput output) => babbage.PostAlonzoTransactionOutput.script_ref (inner output)
  | _ => None
  end.

Definition get_script_hash_from_reference_input (ref_input : TransactionInput.t) (utxos : UTxOs) : option bytes :=
  match conway_script_ref_at utxos ref_input with
  | Some (ScriptRef.NativeScript native_script) => Some (Hasher_224 (0 :: raw_cbor native_script))
  | Some (ScriptRef.PlutusV1Script plutus_v1_script) => Some (Hasher_224 (1 :: plutus_v1_script))
  | Some (ScriptRef.PlutusV2Script plutus_v2_script) => Some (Hasher_224 (2 :: plutus_v2_script))
  | Some (ScriptRef.PlutusV3Script plutus_v3_script) => Some (Hasher_224 (3 :: plutus_v3_script))
  | None => None
  end.

Definition get_reference_script_hashes (tx_body : TransactionBody.t) (utxos : UTxOs) : list bytes :=
  omap (fun input => get_script_hash_from_reference_input input utxos) (default [] (TransactionBody.reference_inputs tx_body)).

Definition check_minting (tx_body : TransactionBody.t) (mtx : Tx.t) (utxos : UTxOs) : check () :=
  match TransactionBody.mint tx_body with
  | Some minted_value =>
      let tx_wits := inner (Tx.transaction_witness_set mtx) in
      native_script_wits ← native_script_hashes (inner <$> default [] (WitnessSet.native_script tx_wits));
      let v1_scripts_wits := compute_plutus_v1_script_hash <$> default [] (WitnessSet.plutus_v1_script tx_wits) in
      let v2_scripts_wits := compute_plutus_v2_script_hash <$> default [] (WitnessSet.plutus_v2_script tx_wits) in
      let v3_scripts_wits := compute_plutus_v3_script_hash <$> default [] (WitnessSet.plutus_v3_script tx_wits) in
      let ref_scripts := get_reference_script_hashes tx_body utxos in
      let all_scripts_wits := native_script_wits ++ v1_scripts_wits ++ v2_scripts_wits ++ v3_scripts_wits ++ ref_scripts in
      for_each (fun policy =>
          if negb (bool_decide (policy ∈ all_scripts_wits)) then throw (PostAlonzo (MintingLacksPolicy policy)) else mret tt)
        (keys minted_value)
  | None => mret tt
  end.

Definition check_well_formedness (tx_body : TransactionBody.t) (mtx : Tx.t) : check () := mret tt.

Definition get_script_hash_from_input (input : TransactionInput.t) (utxos : UTxOs) : check (option bytes) :=
  script_hash_at utxos conway_address_of input.

Definition get_script_hashes_from_inputs (tx_body : TransactionBody.t) (utxos : UTxOs) : check (list bytes) :=
  script_hashes utxos conway_address_of (TransactionBody.inputs tx_body).

Definition check_input_scripts (tx_body : TransactionBody.t) (lists : hash_lists) (reference_scripts : list bytes) (utxos : UTxOs) :
    check hash_lists :=
  needed_input_scripts ← get_script_hashes_from_inputs tx_body utxos;
  needed_check needed_input_scripts reference_scripts (fun _ => PostAlonzo ScriptWitnessMissing) lists.

Definition check_minting_policies (tx_body : TransactionBody.t) (lists : hash_lists) (reference_scripts : list bytes) : check hash_lists :=
  match TransactionBody.mint tx_body with
  | None => mret lists
  | Some minted_value => needed_check (keys minted_value) reference_scripts (fun policy => PostAlonzo (MintingLacksPolicy policy)) lists
  end.

(** A script of the third version that is not needed is reported as one of the second. *)
Definition check_needed_scripts (tx_body : TransactionBody.t) (utxos : UTxOs)
    (native_scripts plutus_v1_scripts plutus_v2_scripts plutus_v3_scripts reference_scripts : list bytes) : check () :=
  let lists := retained reference_scripts <$> [native_scripts; plutus_v1_scripts; plutus_v2_scripts; plutus_v3_scripts] in
  lists ← check_input_scripts tx_body lists reference_scripts utxos;
  lists ← check_minting_policies tx_body lists reference_scripts;
  unneeded_check lists [PostAlonzo UnneededNativeScript; PostAlonzo UnneededPlutusV1Script; PostAlonzo UnneededPlutusV2Script;
    PostAlonzo UnneededPlutusV2Script].

(** ** Data *)
Definition check_input_datum_hash_in_witness_set (tx_body : TransactionBody.t) (utxos : UTxOs)
    (plutus_data_hash : list (bool * bytes)) : check (list (bool * bytes)) :=
  input_data_check utxos conway_datum_hash_at id (PostAlonzo DatumMissing) (PostAlonzo InputNotInUTxO)
    (TransactionBody.inputs tx_body) plutus_data_hash.

Definition find_datum (hash : bytes) (tx_body : TransactionBody.t) (utxos : UTxOs) : check () :=
  let has output := bool_decide (conway_datum_hash output = Some hash) in
  if existsb has (TransactionBody.outputs tx_body) then mret tt
  else if match TransactionBody.collateral_return tx_body with Some output => has output | None => false end then mret tt
  else if existsb (fun reference_input =>
         match utxo utxos reference_input ≫= MultiEraOutput.as_conway with Some output => has output | None => false end)
       (default [] (TransactionBody.reference_inputs tx_body)) then mret tt
  else throw (PostAlonzo UnneededDatum).

Definition check_remaining_datums (plutus_data_hash : list (bool * bytes)) (tx_body : TransactionBody.t) (utxos : UTxOs) : check () :=
  for_each (fun x : bool * bytes => let '(found, hash) := x in if negb found then find_datum hash tx_body utxos else mret tt)
    plutus_data_hash.

Definition check_datums (tx_body : TransactionBody.t) (utxos : UTxOs) (option_plutus_data : option (KeepRaw (list (KeepRaw PlutusData)))) :
    check () :=
  let plutus_data := match option_plutus_data with Some plutus_data => inner plutus_data | None => [] end in
  plutus_data_hashes ← check_input_datum_hash_in_witness_set tx_body utxos (unmarked (datum_hash_of <$> plutus_data));
  check_remaining_datums plutus_data_hashes tx_body utxos.

(** ** Redeemers *)
Definition is_phase_2_script (policy : bytes) (plutus_v1_scripts plutus_v2_scripts plutus_v3_scripts reference_scripts : list bytes) : bool :=
  existsb (fun v1_script => bool_decide (policy = v1_script)) plutus_v1_scripts ||
  existsb (fun v2_script => bool_decide (policy = v2_script)) plutus_v2_scripts ||
  existsb (fun v3_script => bool_decide (policy = v3_script)) plutus_v3_scripts ||
  existsb (fun ref_script => bool_decide (policy = ref_script)) reference_scripts.

Fixpoint parse_accounts (accounts : list bytes) : check (list StakeAddress.t) :=
  match accounts with
  | [] => mret []
  | account :: accounts =>
      addr ← ok (from_bytes account);
      match addr with
      | Some (Address.Stake addr) => addrs ← parse_accounts accounts; mret (addr :: addrs)
      | _ => throw (PostAlonzo InputDecoding)
      end
  end.

(** The keys of a [BTreeMap] come in their order. *)
Definition reward_accounts (withdrawals : gmap bytes Z) : check (list StakeAddress.t) :=
  parsed ← parse_accounts (sorted_keys withdrawals);
  mret (merge_sort account_le parsed).

(** A pointer for each place whose script is of phase two *)
Definition pointers_of (tag : RedeemerTag.t) (is_phase_2 : bytes -> bool) (items : list (Z * bytes)) : list RedeemersKey.t :=
  (fun x => RedeemersKey.mk tag x.1) <$> filter (fun x => is_phase_2 x.2 = true) items.

Definition account_scripts (accounts : list StakeAddress.t) : list (Z * bytes) :=
  omap (fun x => if StakeAddress.is_script x.2 then Some (x.1, StakePayload.as_hash (StakeAddress.payload x.2)) else None)
    (enumerate accounts).

Definition mk_plutus_script_redeemer_pointers (plutus_v1_scripts plutus_v2_scripts plutus_v3_scripts reference_scripts : list bytes)
    (tx_body : TransactionBody.t) (utxos : UTxOs) : check (list RedeemersKey.t) :=
  let is_phase_2 hash := is_phase_2_script hash plutus_v1_scripts plutus_v2_scripts plutus_v3_scripts reference_scripts in
  spent ← spent_hashes utxos conway_address_of (enumerate (sorted_inputs (TransactionBody.inputs tx_body)));
  let minted := match TransactionBody.mint tx_body with Some mint => enumerate (sorted_keys mint) | None => [] end in
  accounts ← match TransactionBody.withdrawals tx_body with
             | Some withdrawals => reward_accounts withdrawals
             | None => mret []
             end;
  mret (pointers_of RedeemerTag.Spend is_phase_2 spent ++ pointers_of RedeemerTag.Mint is_phase_2 minted ++
        pointers_of RedeemerTag.Reward is_phase_2 (account_scripts accounts)).

Definition redeemer_key_coincide (redeemers plutus_scripts : list RedeemersKey.t) : check () :=
  pointers_coincide redeemers plutus_scripts (PostAlonzo UnneededRedeemer) (PostAlonzo RedeemerMissing).

Definition redeemer_keys (redeemers : option (KeepRaw Redeemers.t)) : list RedeemersKey.t :=
  match inner <$> redeemers with
  | Some (Redeemers.List redeemers) => (fun x => RedeemersKey.mk (Redeemer.tag x) (Redeemer.index x)) <$> redeemers
  | Some (Redeemers.Map redeemers) => (fun x => RedeemersKey.mk (RedeemersKey.tag x.1) (RedeemersKey.index x.1)) <$> redeemers
  | None => []
  end.

Definition check_redeemers (plutus_v1_scripts plutus_v2_scripts plutus_v3_scripts reference_scripts : list bytes)
    (tx_body : TransactionBody.t) (tx_wits : WitnessSet.t) (utxos : UTxOs) : check () :=
  plutus_scripts ← mk_plutus_script_redeemer_pointers plutus_v1_scripts plutus_v2_scripts plutus_v3_scripts reference_scripts tx_body utxos;
  redeemer_key_coincide (redeemer_keys (WitnessSet.redeemer tx_wits)) plutus_scripts.

(** ** Signatures *)
Definition check_required_signers (required_signers : option (list bytes)) (vkey_wits : option (list alonzo.VKeyWitness.t))
    (data_to_verify : bytes) : check () :=
  signers_check required_signers vkey_wits data_to_verify (PostAlonzo ReqSignerMissing) (PostAlonzo ReqSignerWrongSig).

Definition check_remaining_vk_wits (wits : list (bool * alonzo.VKeyWitness.t)) (data_to_verify : bytes) : check () :=
  remaining_check wits data_to_verify (PostAlonzo VKWrongSignature).

Definition check_vkey_input_wits (mtx : Tx.t) (vkey_wits : option (list alonzo.VKeyWitness.t)) (utxos : UTxOs) : check () :=
  let tx_body := inner (Tx.transaction_body mtx) in
  vk_wits ← mk_alonzo_vk_wits_check_list vkey_wits (PostAlonzo VKWitnessMissing);
  let tx_hash := Hasher_256 (raw_cbor (Tx.transaction_body mtx)) in
  let inputs_and_collaterals := TransactionBody.inputs tx_body ++ default [] (TransactionBody.collateral tx_body) in
  vk_wits ← owners_check utxos shelley_address_of (Some (PostAlonzo InputDecoding)) (PostAlonzo InputDecoding)
    (PostAlonzo VKWitnessMissing) (PostAlonzo VKWrongSignature) (PostAlonzo InputNotInUTxO) tx_hash inputs_and_collaterals vk_wits;
  check_remaining_vk_wits vk_wits tx_hash.

Definition check_witness_set (mtx : Tx.t) (utxos : UTxOs) : check () :=
  let tx_body := inner (Tx.transaction_body mtx) in
  let tx_hash := Hasher_256 (raw_cbor (Tx.transaction_body mtx)) in
  let tx_wits := inner (Tx.transaction_witness_set mtx) in
  let vkey_wits := Some (default [] (WitnessSet.vkeywitness tx_wits)) in
  native_scripts ← native_script_hashes (inner <$> default [] (WitnessSet.native_script tx_wits));
  let plutus_v1_scripts := compute_plutus_v1_script_hash <$> default [] (WitnessSet.plutus_v1_script tx_wits) in
  let plutus_v2_scripts := compute_plutus_v2_script_hash <$> default [] (WitnessSet.plutus_v2_script tx_wits) in
  let plutus_v3_scripts := compute_plutus_v3_script_hash <$> default [] (WitnessSet.plutus_v3_script tx_wits) in
  let reference_scripts := get_reference_script_hashes tx_body utxos in
  check_needed_scripts tx_body utxos native_scripts plutus_v1_scripts plutus_v2_scripts plutus_v3_scripts reference_scripts;;
  check_datums tx_body utxos (WitnessSet.plutus_data tx_wits);;
  check_redeemers plutus_v1_scripts plutus_v2_scripts plutus_v3_scripts reference_scripts tx_body tx_wits utxos;;
  check_required_signers (TransactionBody.required_signers tx_body) vkey_wits tx_hash;;
  check_vkey_input_wits mtx vkey_wits utxos.

(** ** Languages *)
Definition available_langs (prot_pps : ConwayProtParams.t) : list Language.t :=
  let cost_models := ConwayProtParams.cost_models_for_script_languages prot_pps in
  (if CostModels.plutus_v1 cost_models then [Language.PlutusV1] else []) ++
  (if CostModels.plutus_v2 cost_models then [Language.PlutusV2] else []) ++
  (if CostModels.plutus_v3 cost_models then [Language.PlutusV3] else []).

Definition compute_all_outputs (mtx : Tx.t) (utxos : UTxOs) : list TransactionOutput :=
  let tx_body := inner (Tx.transaction_body mtx) in
  let spent := omap (fun input => utxo utxos input ≫= MultiEraOutput.as_conway) in
  spent (TransactionBody.inputs tx_body) ++ spent (default [] (TransactionBody.reference_inputs tx_body)) ++
  TransactionBody.outputs tx_body.

Fixpoint any_byron_addresses (all_outputs : list TransactionOutput) : check bool :=
  match all_outputs with
  | [] => mret false
  | output :: all_outputs =>
      is_byron ← is_byron_address (conway_out_address output);
      if (is_byron : bool) then mret true else any_byron_addresses all_outputs
  end.

Definition any_datums_or_script_refs (all_outputs : list TransactionOutput) : bool :=
  existsb (fun output =>
      match output with
      | Legacy _ => false
      | PostAlonzoOutput output =>
          match babbage.PostAlonzoTransactionOutput.script_ref (inner output),
            inner <$> babbage.PostAlonzoTransactionOutput.datum_option (inner output) with
          | Some _, _ | None, Some (babbage.DatumOption.Data _) => true
          | None, _ => false
          end
      end) all_outputs.

Definition allowed_tx_langs (mtx : Tx.t) (utxos : UTxOs) : check (list Language.t) :=
  let all_outputs := compute_all_outputs mtx utxos in
  any_byron ← any_byron_addresses all_outputs;
  mret (if (any_byron : bool) then []
        else if any_datums_or_script_refs all_outputs || any_reference_inputs (TransactionBody.reference_inputs (inner (Tx.transaction_body mtx)))
        then [Language.PlutusV2; Language.PlutusV3] else [Language.PlutusV1; Language.PlutusV2; Language.PlutusV3]).

Definition tx_languages (mtx : Tx.t) (utxos : UTxOs) : list Language.t :=
  let tx_wits := inner (Tx.transaction_witness_set mtx) in
  let refs := omap (conway_script_ref_at utxos) (default [] (TransactionBody.reference_inputs (inner (Tx.transaction_body mtx)))) in
  let v1_scripts := negb (bool_decide (default [] (WitnessSet.plutus_v1_script tx_wits) = [])) ||
    existsb (fun s => match s with ScriptRef.PlutusV1Script _ => true | _ => false end) refs in
  let v2_scripts := negb (bool_decide (default [] (WitnessSet.plutus_v2_script tx_wits) = [])) ||
    existsb (fun s => match s with ScriptRef.PlutusV2Script _ => true | _ => false end) refs in
  let v3_scripts := negb (bool_decide (default [] (WitnessSet.plutus_v3_script tx_wits) = [])) ||
    existsb (fun s => match s with ScriptRef.PlutusV3Script _ => true | _ => false end) refs in
  (if v1_scripts then [Language.PlutusV1] else []) ++ (if v2_scripts then [Language.PlutusV2] else []) ++
  (if v3_scripts then [Language.PlutusV3] else []).

(** Either of the lists suffices. *)
Definition check_languages (mtx : Tx.t) (utxos : UTxOs) (prot_pps : ConwayProtParams.t) : check () :=
  let used_langs := tx_languages mtx utxos in
  allowed_langs ← allowed_tx_langs mtx utxos;
  let available_langs := available_langs prot_pps in
  for_each (fun tx_lang =>
      if negb (bool_decide (tx_lang ∈ available_langs)) && negb (bool_decide (tx_lang ∈ allowed_langs))
      then throw (PostAlonzo UnsupportedPlutusLanguage) else mret tt) used_langs.

(** ** Metadata and the hash of the script data *)
Definition check_auxiliary_data (tx_body : TransactionBody.t) (mtx : Tx.t) : check () :=
  metadata_check (TransactionBody.auxiliary_data_hash tx_body) (aux_data_from_conway_tx mtx) (PostAlonzo MetadataHash).

(** The languages come in their order, so the views are those of the map. *)
Definition cost_model_for_tx (tx_languages : list Language.t) (prot_pps : ConwayProtParams.t) : option LanguageViews :=
  let cost_models := ConwayProtParams.cost_models_for_script_languages prot_pps in
  mapM (fun lang =>
      match lang with
      | Language.PlutusV1 => pair 0 <$> CostModels.plutus_v1 cost_models
      | Language.PlutusV2 => pair 1 <$> CostModels.plutus_v2 cost_models
      | Language.PlutusV3 => pair 2 <$> CostModels.plutus_v3 cost_models
      end) tx_languages.

Definition check_script_data_hash (tx_body : TransactionBody.t) (mtx : Tx.t) (utxos : UTxOs) (prot_pps : ConwayProtParams.t) : check () :=
  let tx_languages := tx_languages mtx utxos in
  match TransactionBody.script_data_hash tx_body with
  | None => match tx_languages with [] => mret tt | _ => throw (PostAlonzo ScriptIntegrityHash) end
  | Some provided =>
      language_views ← ok_or (cost_model_for_tx tx_languages prot_pps) (PostAlonzo ScriptIntegrityHash);
      script_data ← ok_or (ScriptData.build_for (inner (Tx.transaction_witness_set mtx)) (Some language_views)) (PostAlonzo ScriptIntegrityHash);
      expected ← eval (ScriptData.hash script_data);
      if negb (bool_decide (provided = expected)) then throw (PostAlonzo ScriptIntegrityHash) else mret tt
  end.

(** ** Transactions *)
Definition validate_conway_tx (mtx : Tx.t) (utxos : UTxOs) (prot_pps : ConwayProtParams.t) (block_slot network_id : Z) : check () :=
  let tx_body := inner (Tx.transaction_body mtx) in
  size ← ok_or (get_conway_tx_size mtx) (PostAlonzo UnknownTxSize);
  check_ins_not_empty tx_body;;
  check_all_ins_in_utxos tx_body utxos;;
  check_tx_validity_interval tx_body block_slot;;
  check_fee tx_body size mtx utxos prot_pps;;
  check_preservation_of_value tx_body utxos;;
  check_min_lovelace tx_body prot_pps;;
  check_output_val_size tx_body prot_pps;;
  check_network_id tx_body network_id;;
  check_tx_size size prot_pps;;
  check_tx_ex_units mtx prot_pps;;
  check_minting tx_body mtx utxos;;
  check_well_formedness tx_body mtx;;
  check_witness_set mtx utxos;;
  check_languages mtx utxos prot_pps;;
  check_auxiliary_data tx_body mtx;;
  check_script_data_hash tx_body mtx utxos prot_pps.
End validation.

(** ** The rules the validator ensures *)

(** A sum that begins with the first value. *)
Lemma conway_sum {A} (val : A -> conway.Value) (f : conway.Value -> A -> check conway.Value) err xs res r :
  (forall res x r, yields (f res x) () r () -> yields (conway_add_values res (val x) err) () r ()) ->
  yields (for_fold f res xs) () r () ->
  coins r = coins res + sum_of (fun x => coins (val x)) xs /\
  (forall p n, tokens_in r p n = tokens_in res p n + sum_of (fun x => tokens_in (val x) p n) xs) /\
  (positive res -> Forall (fun x => positive (val x)) xs -> positive r).
Proof.
  intros Hf. revert res; induction xs as [|x xs IH]; intros res; cbn [for_fold].
  { intros <-%check_ret. unfold sum_of. cbn. split_and!; [lia|intros; lia|done]. }
  intros (y & Hy%Hf%conway_add_values_yields & Hr)%check_bind. destruct Hy as (Hl & _ & Hq & Hy).
  apply IH in Hr as (Hl' & Hq' & Hr). unfold sum_of in *. cbn. split_and!; [lia|intros; rewrite Hq', Hq; lia|].
  intros Hres [Hx Hxs]%Forall_cons. auto.
Qed.

Section rules.
Context `{MinicborLaws, ByronCodec, Cryptoxide, DerivedCodecs}.
Context (mtx : Tx.t) (utxos : UTxOs) (pps : ConwayProtParams.t) (slot net : Z).

Definition the_body : TransactionBody.t := inner (Tx.transaction_body mtx).
Definition the_hash : bytes := Hasher_256 (raw_cbor (Tx.transaction_body mtx)).
Definition the_wits : WitnessSet.t := inner (Tx.transaction_witness_set mtx).
Definition the_keys : list alonzo.VKeyWitness.t := default [] (WitnessSet.vkeywitness the_wits).
Definition the_natives : list alonzo.NativeScript := inner <$> default [] (WitnessSet.native_script the_wits).
Definition the_native_hashes : list bytes := native_hash <$> the_natives.
Definition the_v1_hashes : list bytes := compute_plutus_v1_script_hash <$> default [] (WitnessSet.plutus_v1_script the_wits).
Definition the_v2_hashes : list bytes := compute_plutus_v2_script_hash <$> default [] (WitnessSet.plutus_v2_script the_wits).
Definition the_v3_hashes : list bytes := compute_plutus_v3_script_hash <$> default [] (WitnessSet.plutus_v3_script the_wits).
Definition the_references : list bytes := get_reference_script_hashes the_body utxos.
Definition given_scripts : list bytes := the_native_hashes ++ the_v1_hashes ++ the_v2_hashes ++ the_v3_hashes.
Definition phase_2_scripts : list bytes := the_v1_hashes ++ the_v2_hashes ++ the_v3_hashes ++ the_references.
Definition the_data : list (KeepRaw PlutusData) := match WitnessSet.plutus_data the_wits with Some data => inner data | None => [] end.
Definition the_collateral : list TransactionInput.t := default [] (TransactionBody.collateral the_body).
Definition the_reference_inputs : list TransactionInput.t := default [] (TransactionBody.reference_inputs the_body).
Definition the_mint : Multiasset := default ∅ (TransactionBody.mint the_body).
Definition plutus_witnessed : Prop :=
  default [] (WitnessSet.plutus_v1_script the_wits) <> [] \/ default [] (WitnessSet.plutus_v2_script the_wits) <> [] \/
  default [] (WitnessSet.plutus_v3_script the_wits) <> [].

(** Values of what inputs spend, and of outputs. *)
Definition spent_coins (input : TransactionInput.t) : conway.Value :=
  match utxo utxos input with Some output => val_from_multi_era_output output | None => conway.Value.Coin 0 end.
Definition paid_value (output : TransactionOutput) : LegacyValue :=
  match output with
  | Legacy output => alonzo.TransactionOutput.amount (inner output)
  | PostAlonzoOutput output => plain (babbage.PostAlonzoTransactionOutput.value (inner output))
  end.

(** What the types of the code ensure of an output. *)
Definition well_typed (output : TransactionOutput) : Prop :=
  match output with
  | Legacy output => amount_typed (alonzo.TransactionOutput.amount (inner output))
  | PostAlonzoOutput output => positive (babbage.PostAlonzoTransactionOutput.value (inner output))
  end.

(** What is spent fits into [i64] and what is burnt is held: no cast changes an amount. *)
Record honest_values : Prop := {
  inputs_positive : Forall (fun i => positive (spent_coins i)) (TransactionBody.inputs the_body);
  outputs_typed : Forall well_typed (TransactionBody.outputs the_body);
  sums_small : forall p n, sum_of (fun i => tokens_in (spent_coins i) p n) (TransactionBody.inputs the_body) < 2 ^ 63;
  mint_typed : amounts in_i64 the_mint;
  burns_are_held : burns_held (fun p n => sum_of (fun i => tokens_in (spent_coins i) p n) (TransactionBody.inputs the_body)) the_mint
}.

(** The value of what is spent and minted is that of outputs and fee: of lovelace exactly,
    of a token up to multiples of [2 ^ 64], because what is held and minted is cast, and
    exactly for honest values. *)
Record values_balance : Prop := {
  lovelace_balance : sum_of (fun i => coins (spent_coins i)) (TransactionBody.inputs the_body) =
    sum_of (fun o => lovelace (paid_value o)) (TransactionBody.outputs the_body) + TransactionBody.fee the_body;
  tokens_same p n :
    Forall (fun i => positive (spent_coins i)) (TransactionBody.inputs the_body) ->
    Forall well_typed (TransactionBody.outputs the_body) ->
    same_word (sum_of (fun i => tokens_in (spent_coins i) p n) (TransactionBody.inputs the_body) + quantity_of the_mint p n)
      (sum_of (fun o => quantity (paid_value o) p n) (TransactionBody.outputs the_body));
  tokens_balance p n : honest_values ->
    sum_of (fun i => tokens_in (spent_coins i) p n) (TransactionBody.inputs the_body) + quantity_of the_mint p n =
      sum_of (fun o => quantity (paid_value o) p n) (TransactionBody.outputs the_body)
}.

Definition collateral_covers : Prop :=
  Forall (fun i => positive (spent_coins i)) the_collateral ->
  (forall o, TransactionBody.collateral_return the_body = Some o -> well_typed o) ->
  let back := match TransactionBody.collateral_return the_body with Some o => paid_value o | None => plain (conway.Value.Coin 0) end in
  exists paid, paid + lovelace back = sum_of (fun i => coins (spent_coins i)) the_collateral /\
    (forall p n, sum_of (fun i => tokens_in (spent_coins i) p n) the_collateral = quantity back p n) /\
    TransactionBody.fee the_body * ConwayProtParams.collateral_percentage pps <= paid * 100 /\
    forall annotated, TransactionBody.total_collateral the_body = Some annotated -> annotated = paid.

(** Scripts of Conway outputs and of policies. *)
Definition asks_script : TransactionInput.t -> bytes -> Prop := locked_by utxos conway_address_of.
Definition needs_script (hash : bytes) : Prop :=
  (exists input, input ∈ TransactionBody.inputs the_body /\ asks_script input hash) \/ hash ∈ dom the_mint.

Inductive asks_redeemer : RedeemersKey.t -> Prop :=
| spend_asks k input hash :
    sorted_inputs (TransactionBody.inputs the_body) !! k = Some input -> asks_script input hash -> hash ∈ phase_2_scripts ->
    asks_redeemer (RedeemersKey.mk RedeemerTag.Spend (Z.of_nat k mod 2 ^ 32))
| mint_asks k policy :
    sorted_keys the_mint !! k = Some policy -> policy ∈ phase_2_scripts ->
    asks_redeemer (RedeemersKey.mk RedeemerTag.Mint (Z.of_nat k mod 2 ^ 32))
| reward_asks withdrawals accounts k account hash :
    TransactionBody.withdrawals the_body = Some withdrawals -> yields (reward_accounts withdrawals) () accounts () ->
    accounts !! k = Some account -> StakeAddress.payload account = StakePayload.Script hash -> hash ∈ phase_2_scripts ->
    asks_redeemer (RedeemersKey.mk RedeemerTag.Reward (Z.of_nat k mod 2 ^ 32)).

Definition names_datum (hash : bytes) : Prop :=
  (exists out, out ∈ TransactionBody.outputs the_body /\ conway_datum_hash out = Some hash) \/
  (exists out, TransactionBody.collateral_return the_body = Some out /\ conway_datum_hash out = Some hash) \/
  exists i out, i ∈ the_reference_inputs /\ utxo utxos i ≫= MultiEraOutput.as_conway = Some out /\ conway_datum_hash out = Some hash.

Record conway_valid (size : Z) : Prop := {
  conway_inputs_known : TransactionBody.inputs the_body <> [] /\
    Forall (fun i => is_Some (utxo utxos i)) (TransactionBody.inputs the_body ++ the_collateral ++ the_reference_inputs);
  conway_interval : (forall a, TransactionBody.validity_interval_start the_body = Some a -> a <= slot) /\
    (forall b, TransactionBody.ttl the_body = Some b -> slot <= b);
  conway_fee : ConwayProtParams.minfee_b pps + ConwayProtParams.minfee_a pps * size <= TransactionBody.fee the_body;
  conway_collateral : plutus_witnessed ->
    the_collateral <> [] /\ Z.of_nat (length the_collateral) mod 2 ^ 32 <= ConwayProtParams.max_collateral_inputs pps /\
    Forall (key_locked utxos conway_address_of) the_collateral /\ collateral_covers;
  conway_value : values_balance;
  conway_outputs : TransactionBody.outputs the_body <> [] /\ Forall (fun o => exists v, yields (conway_out_value o) () v () /\
      ConwayProtParams.ada_per_utxo_byte pps * (conway_get_val_size_in_words v + 160) <= coins v /\
      conway_get_val_size_in_words v <= ConwayProtParams.max_value_size pps /\
      on_network net (conway_out_address o)) (TransactionBody.outputs the_body);
  conway_network : forall n, TransactionBody.network_id the_body = Some n -> NetworkId.to_u8 n = net;
  conway_size : size <= ConwayProtParams.max_transaction_size pps;
  conway_redeemers_given : plutus_witnessed -> is_Some (WitnessSet.redeemer the_wits);
  conway_scripts_given : forall hash, needs_script hash -> hash ∈ the_references \/ hash ∈ given_scripts;
  conway_scripts_needed : forall hash, hash ∈ given_scripts -> hash ∈ the_references \/ needs_script hash;
  conway_data_given : Forall (fun i => exists output, utxo utxos i = Some output /\
      forall hash, datum output = Some (babbage.DatumOption.Hash hash) -> hash ∈ datum_hash_of <$> the_data) (TransactionBody.inputs the_body);
  conway_data_needed : Forall (fun d =>
      (exists i output, i ∈ TransactionBody.inputs the_body /\ utxo utxos i = Some output /\
        datum output = Some (babbage.DatumOption.Hash (datum_hash_of d))) \/
      names_datum (datum_hash_of d)) the_data;
  conway_redeemers : forall p, p ∈ redeemer_keys (WitnessSet.redeemer the_wits) <-> asks_redeemer p;
  conway_owners : Forall (fun i => signed_by_owner utxos shelley_address_of the_hash the_keys i /\
      is_Some (utxo utxos i ≫= shelley_address_of)) (TransactionBody.inputs the_body ++ the_collateral);
  conway_signers : Forall (fun h => signed_by h the_hash the_keys) (default [] (TransactionBody.required_signers the_body));
  conway_languages : exists allowed, yields (allowed_tx_langs mtx utxos) () allowed () /\
    Forall (fun l => l ∈ available_langs pps \/ l ∈ allowed) (tx_languages mtx utxos);
  conway_metadata : metadata_matches (TransactionBody.auxiliary_data_hash the_body) (aux_data_from_conway_tx mtx);
  conway_script_data :
    match TransactionBody.script_data_hash the_body with
    | Some hash => exists views data, cost_model_for_tx (tx_languages mtx utxos) pps = Some views /\
        ScriptData.build_for the_wits (Some views) = Some data /\ ScriptData.hash data = Some hash
    | None => tx_languages mtx utxos = []
    end
}.

Context (Hscripts : Forall valid_script the_natives).

(** *** Values *)
Lemma sum_inputs_yields unknown first inputs r :
  yields (sum_inputs utxos unknown first inputs) () r () ->
  coins r = sum_of (fun i => coins (spent_coins i)) (first :: inputs) /\
  (forall p n, tokens_in r p n = sum_of (fun i => tokens_in (spent_coins i) p n) (first :: inputs)) /\
  (Forall (fun i => positive (spent_coins i)) (first :: inputs) -> positive r).
Proof.
  intros (o & Ho & Hr)%check_bind.
  destruct (utxo utxos first) as [o'|] eqn:Hu; [|by apply check_throw in Ho]. apply check_ret in Ho as ->.
  assert (spent_coins first = val_from_multi_era_output o) as Hfirst by (unfold spent_coins; by rewrite Hu).
  eapply conway_sum with (val := spent_coins) in Hr as (Hl & Hq & Hp); [|intros res x y Hx].
  - unfold sum_of in *. cbn [fmap list_fmap foldr]. rewrite Hfirst. split_and!; [done..|].
    intros [Hf Hi]%Forall_cons. apply Hp; [|done]. by rewrite <- Hfirst.
  - apply check_bind in Hx as (out & Hout & Hx). unfold spent_coins. destruct (utxo utxos x) as [o'|]; [|by apply check_throw in Hout].
    apply check_ret in Hout as ->. exact Hx.
Qed.

Lemma out_value_yields output v :
  yields (conway_out_value output) () v () -> plain v = paid_value output /\ (well_typed output -> positive v).
Proof.
  destruct output as [o|o]; cbn [well_typed conway_out_value paid_value]; intros Hv.
  - by apply legacy_value_yields in Hv.
  - by apply check_ret in Hv as <-.
Qed.

Lemma paid_sum outputs res r :
  yields (for_fold (fun res output => val ← conway_out_value output;
    conway_add_values res val (PostAlonzo NegativeValue)) res outputs) () r () ->
  coins r = coins res + sum_of (fun o => lovelace (paid_value o)) outputs /\
  (forall p n, tokens_in r p n = tokens_in res p n + sum_of (fun o => quantity (paid_value o) p n) outputs) /\
  (positive res -> Forall well_typed outputs -> positive r).
Proof.
  revert res; induction outputs as [|o outputs IH]; intros res; cbn [for_fold].
  { intros <-%check_ret. unfold sum_of. cbn. split_and!; [lia|intros; lia|done]. }
  intros (y & (w & [Hw Hpw]%out_value_yields & Hy%conway_add_values_yields)%check_bind & Hr)%check_bind.
  destruct Hy as (Hl & _ & Hq & Hy). apply IH in Hr as (Hl' & Hq' & Hr).
  rewrite <- (coins_plain w), Hw in Hl. rewrite Hw in Hq. unfold sum_of in *. cbn [fmap list_fmap foldr].
  split_and!; [lia|intros; rewrite Hq', Hq; lia|]. intros Hres [Ho Hos]%Forall_cons. auto.
Qed.

Lemma conway_produced_yields r :
  yields (get_produced the_body) () r () ->
  coins r = sum_of (fun o => lovelace (paid_value o)) (TransactionBody.outputs the_body) /\
  (forall p n, tokens_in r p n = sum_of (fun o => quantity (paid_value o) p n) (TransactionBody.outputs the_body)) /\
  (Forall well_typed (TransactionBody.outputs the_body) -> positive r).
Proof.
  unfold get_produced. destruct (TransactionBody.outputs the_body) as [|first outputs]; [by intros ?%check_throw|].
  intros (v & [Hv Hp]%out_value_yields & (Hl & Hq & Hpr)%paid_sum)%check_bind. unfold sum_of in *. cbn [fmap list_fmap foldr].
  rewrite <- Hv, coins_plain. split_and!; [done| |].
  - intros p n. by rewrite Hq.
  - intros [Hf Ho]%Forall_cons. auto.
Qed.

Lemma conway_value_yields : yields (check_preservation_of_value the_body utxos) () () () -> values_balance.
Proof.
  unfold check_preservation_of_value, get_consumed.
  destruct (TransactionBody.inputs the_body) as [|first inputs] eqn:Hins; [by intros (c & ?%check_throw & _)%check_bind|].
  intros (c & Hc & (p & Hp & (o & Ho & (i & Hi & He)%check_bind)%check_bind)%check_bind)%check_bind.
  apply sum_inputs_yields in Hc as (Hlc & Hqc & Hpc). apply conway_produced_yields in Hp as (Hlp & Hqp & Hpp).
  apply conway_add_values_yields in Ho as (Hlo & _ & Hqo & Hpo). rewrite check_unless, negb_false_iff in He. rewrite <- Hins in *.
  assert (coins i = coins c /\ (positive c -> positive i /\
    forall q n, same_word (tokens_in i q n) (tokens_in c q n + quantity_of the_mint q n))) as [Hli Hmi].
  { unfold the_mint. destruct (TransactionBody.mint the_body) as [m|]; cbn [default from_option id]; [by eapply conway_minted_same_word|].
    apply check_ret in Hi as <-. split; [done|]. intros Hpos. split; [done|]. intros q n. by rewrite quantity_empty, Z.add_0_r. }
  assert (Forall (fun i => positive (spent_coins i)) (TransactionBody.inputs the_body) ->
    Forall well_typed (TransactionBody.outputs the_body) ->
    forall q n, tokens_in i q n = sum_of (fun o => quantity (paid_value o) q n) (TransactionBody.outputs the_body)) as Hio.
  { intros Hin Hout q n. rewrite conway_equal_spec, values_are_equal_spec in He by naive_solver. destruct He as (_ & _ & Hq).
    rewrite Hq, Hqo, Hqp. cbn. lia. }
  split.
  - apply conway_equal_coins in He. cbn [get_lovelace_from_conway_val] in *. lia.
  - intros q n Hin Hout. rewrite <- Hqc, <- Hio by done. destruct Hmi as [_ Hmi]; [auto|]. by symmetry.
  - intros q n [Hin Hout Hs Hm Hb]. rewrite <- Hqc, <- Hio by done. unfold the_mint in *.
    destruct (TransactionBody.mint the_body) as [m|]; cbn [default from_option id] in *.
    + apply conway_minted_yields in Hi as (_ & Hqi & _); [by rewrite Hqi|auto|intros; rewrite Hqc; apply Hs|done|].
      intros q' n' Hn. rewrite Hqc. by apply Hb.
    + apply check_ret in Hi as <-. rewrite quantity_empty. lia.
Qed.

Lemma conway_collateral_yields :
  yields (check_collaterals the_body utxos pps) () () () ->
  the_collateral <> [] /\ Z.of_nat (length the_collateral) mod 2 ^ 32 <= ConwayProtParams.max_collateral_inputs pps /\
  Forall (key_locked utxos conway_address_of) the_collateral /\ collateral_covers.
Proof.
  unfold check_collaterals. intros (cs & Hcs & ([] & Hn & ([] & Ha & Hv)%check_bind)%check_bind)%check_bind.
  assert (TransactionBody.collateral the_body = Some cs) as Hc.
  { destruct (TransactionBody.collateral the_body); cbn in Hcs; [by apply check_ret in Hcs as ->|by apply check_throw in Hcs]. }
  unfold collateral_covers, the_collateral. rewrite Hc. cbn [default from_option id]. split_and!.
  - intros ->. by apply check_throw in Hn.
  - destruct cs; [by apply check_throw in Hn|]. unfold check_collaterals_number in Hn. by rewrite check_unless, Z.ltb_ge in Hn.
  - by eapply collaterals_address_yields.
  - intros Hs Hret. unfold check_collaterals_assets in Hv. rewrite Hc in Hv. destruct cs as [|first cs]; [by apply check_throw in Hn|].
    apply check_bind in Hv as (v & Hsum & (back & Hback & (paid & Hpd & (fee & Hfee%check_eval & (h & Hh%check_eval & Hr)%check_bind)%check_bind)%check_bind)%check_bind).
    numbers. apply sum_inputs_yields in Hsum as (Hl & Hq & Hp). specialize (Hp Hs).
    assert (plain back = match TransactionBody.collateral_return the_body with Some o => paid_value o | None => plain (conway.Value.Coin 0) end /\
      positive back) as [Hpb Hpos].
    { unfold collateral_return_value in Hback. destruct (TransactionBody.collateral_return the_body) as [o|].
      - apply out_value_yields in Hback as [? Hb]. split; [done|by apply Hb, Hret].
      - by apply check_ret in Hback as <-. }
    rewrite <- Hpb. rewrite conway_diff_spec in Hpd by done. apply diff_yields in Hpd as [Hpl Hpq]. exists paid. rewrite <- Hl.
    rewrite (coins_plain v) in Hpl.
    destruct (Z.ltb_spec (paid * 100) (TransactionBody.fee the_body * ConwayProtParams.collateral_percentage pps)); [by apply check_throw in Hr|].
    split_and!; [done| |done|].
    + intros p n. by rewrite <- Hpq, Hq.
    + intros annotated Hann. rewrite Hann, check_unless, negb_false_iff, Z.eqb_eq in Hr. done.
Qed.

Lemma conway_outputs_yields :
  yields (check_min_lovelace the_body pps) () () () -> yields (check_output_val_size the_body pps) () () () ->
  yields (check_tx_outs_network_id the_body net) () () () ->
  Forall (fun o => exists v, yields (conway_out_value o) () v () /\
      ConwayProtParams.ada_per_utxo_byte pps * (conway_get_val_size_in_words v + 160) <= coins v /\
      conway_get_val_size_in_words v <= ConwayProtParams.max_value_size pps /\
      on_network net (conway_out_address o)) (TransactionBody.outputs the_body).
Proof.
  intros Hm Hs Hn.
  apply (for_each_check _ _ (fun o => exists v, yields (conway_out_value o) () v () /\
    ConwayProtParams.ada_per_utxo_byte pps * (conway_get_val_size_in_words v + 160) <= coins v)) in Hm.
  2: { intros o (v & Hv & (min & Hmin%check_eval & Ho%check_unless)%check_bind)%check_bind. apply bind_Some in Hmin as (e & He & Hmin).
       numbers. apply Z.ltb_ge in Ho. by exists v. }
  apply (for_each_check _ _ (fun o => forall v, yields (conway_out_value o) () v () ->
    conway_get_val_size_in_words v <= ConwayProtParams.max_value_size pps)) in Hs.
  2: { intros o (v & Hv & Ho%check_unless%Z.ltb_ge)%check_bind w Hw. by destruct (yields_inj _ _ _ _ _ _ Hv Hw) as [-> _]. }
  apply (for_each_check _ _ (fun o => on_network net (conway_out_address o))) in Hn; [|by intros o ?%address_network_yields].
  rewrite Forall_forall in Hm. rewrite Forall_forall in Hs. rewrite Forall_forall in Hn. apply Forall_forall. intros o Ho.
  destruct (Hm o Ho) as (v & Hv & ?). exists v. split_and!; [done..|by apply (Hs o)|by apply Hn].
Qed.

(** *** Scripts *)
Lemma plutus_present : plutus_witnessed -> presence_of_plutus_scripts mtx = true.
Proof.
  unfold plutus_witnessed, presence_of_plutus_scripts. fold the_wits. rewrite !orb_true_iff, !negb_true_iff, !bool_decide_eq_false. tauto.
Qed.

Lemma conway_scripts_yields :
  yields (check_needed_scripts the_body utxos the_native_hashes the_v1_hashes the_v2_hashes the_v3_hashes the_references) () () () ->
  (forall hash, needs_script hash -> hash ∈ the_references \/ hash ∈ given_scripts) /\
  forall hash, hash ∈ given_scripts -> hash ∈ the_references \/ needs_script hash.
Proof.
  unfold check_needed_scripts, check_input_scripts. intros (l1 & (hs & Hhs & Hin)%check_bind & (l2 & Hmint & Hu)%check_bind)%check_bind.
  pose proof (script_hashes_yields _ _ _ _ Hhs) as Hneed.
  assert (exists needed' err', (forall h, h ∈ needed' <-> h ∈ dom the_mint) /\
    yields (needed_check needed' the_references err' l1) () l2 ()) as (needed' & err' & Hm & Hmint').
  { unfold check_minting_policies, the_mint in *. destruct (TransactionBody.mint the_body) as [m|]; cbn [default from_option id].
    - exists (keys m). eexists. split; [by intros; apply keys_elem|exact Hmint].
    - apply check_ret in Hmint as <-. exists [], (fun _ => PostAlonzo ScriptWitnessMissing). split; [set_solver|done]. }
  assert (given_scripts = mjoin [the_native_hashes; the_v1_hashes; the_v2_hashes; the_v3_hashes]) as ->
    by (unfold given_scripts; cbn; by rewrite app_nil_r).
  destruct (needed_scripts_yields the_references [the_native_hashes; the_v1_hashes; the_v2_hashes; the_v3_hashes] hs needed'
    (fun _ => PostAlonzo ScriptWitnessMissing) err' [PostAlonzo UnneededNativeScript; PostAlonzo UnneededPlutusV1Script;
      PostAlonzo UnneededPlutusV2Script; PostAlonzo UnneededPlutusV2Script]) as [Hg Hn]; [reflexivity| |].
  - eapply yields_bind; [exact Hin|]. eapply yields_bind; [exact Hmint'|exact Hu].
  - unfold needs_script. setoid_rewrite <- Hm. split; intros hash Hh.
    + apply Hg. destruct Hh as [Hh|Hh]; [left; by apply Hneed|by right].
    + destruct (Hn hash Hh) as [|[Hh'|Hh']]; [by left|right; left; by apply Hneed|by right; right].
Qed.

(** *** Data *)
Lemma conway_find_datum hash : yields (find_datum hash the_body utxos) () () () -> names_datum hash.
Proof.
  unfold find_datum, names_datum, the_reference_inputs. destruct (existsb _ (TransactionBody.outputs the_body)) eqn:Ho.
  { intros _. apply existsb_exists_elem in Ho as (out & ? & ?%bool_decide_eq_true). left. by exists out. }
  destruct (TransactionBody.collateral_return the_body) as [ret|]; [case_bool_decide; [intros _; right; left; by exists ret|]|].
  all: destruct (existsb _ (default [] _)) eqn:Hr; [|by intros ?%check_throw].
  all: intros _; apply existsb_exists_elem in Hr as (i & Hi & Hr); right; right;
    destruct (utxo utxos i ≫= MultiEraOutput.as_conway) as [out|] eqn:Hout; [|done]; apply bool_decide_eq_true in Hr; by exists i, out.
Qed.

Lemma conway_data_yields :
  yields (check_datums the_body utxos (WitnessSet.plutus_data the_wits)) () () () ->
  Forall (fun i => exists output, utxo utxos i = Some output /\
      forall hash, datum output = Some (babbage.DatumOption.Hash hash) -> hash ∈ datum_hash_of <$> the_data) (TransactionBody.inputs the_body) /\
  Forall (fun d =>
      (exists i output, i ∈ TransactionBody.inputs the_body /\ utxo utxos i = Some output /\
        datum output = Some (babbage.DatumOption.Hash (datum_hash_of d))) \/
      names_datum (datum_hash_of d)) the_data.
Proof.
  assert (forall i d, utxo utxos i ≫= conway_datum_hash_at = Some d <-> exists output, utxo utxos i = Some output /\
    d = match datum output with Some (babbage.DatumOption.Hash hash) => Some hash | _ => None end) as Hat.
  { intros i d. destruct (utxo utxos i) as [o|]; cbn; [|naive_solver]. unfold conway_datum_hash_at. split; [intros [= <-]; by exists o|].
    by intros (o' & [= <-] & ->). }
  unfold check_datums. fold the_data. intros (data & (He & Hin & Hmark)%input_data_yields & Hr)%check_bind.
  rewrite list_fmap_id in Hin. split.
  - eapply Forall_impl; [exact Hin|]. intros i (d & (o & Ho & ->)%Hat & Hd). exists o. split; [done|]. intros h Hh. apply Hd. by rewrite Hh.
  - apply (for_each_check _ _ (fun x => x.1 = false -> names_datum x.2)) in Hr; [|by intros [[] h] Hh; [|intros _; apply conway_find_datum]].
    apply (Forall_fmap datum_hash_of (fun h => (exists i output, i ∈ TransactionBody.inputs the_body /\ utxo utxos i = Some output /\
      datum output = Some (babbage.DatumOption.Hash h)) \/ names_datum h)).
    rewrite <- He, Forall_fmap. rewrite Forall_forall in Hr. rewrite Forall_forall in Hmark. apply Forall_forall.
    intros [b h] Hh. cbn. destruct b; [left|right; by apply (Hr _ Hh)].
    destruct (Hmark _ Hh eq_refl) as (i & Hi & (o & Ho & Hd)%Hat). exists i, o. split_and!; [done..|]. cbn in Hd.
    destruct (datum o) as [[]|]; by simplify_eq.
Qed.

(** *** Redeemers *)
Lemma conway_phase_2_elem policy v1 v2 v3 refs : is_phase_2_script policy v1 v2 v3 refs = true <-> policy ∈ v1 ++ v2 ++ v3 ++ refs.
Proof.
  assert (forall l, existsb (fun x => bool_decide (policy = x)) l = true <-> policy ∈ l) as Hl.
  { intros l. rewrite existsb_exists_elem. setoid_rewrite bool_decide_eq_true. naive_solver. }
  unfold is_phase_2_script. rewrite !orb_true_iff, !Hl, !elem_of_app. tauto.
Qed.

Lemma pointers_of_elem tag f items p :
  p ∈ pointers_of tag f items <-> exists k hash, (k, hash) ∈ items /\ f hash = true /\ p = RedeemersKey.mk tag k.
Proof.
  unfold pointers_of. rewrite list_elem_of_fmap. setoid_rewrite list_elem_of_filter. split.
  - intros ([k h] & -> & Hf & Hi). by exists k, h.
  - intros (k & h & Hi & Hf & ->). by exists (k, h).
Qed.

Lemma account_scripts_elem accounts n hash :
  (n, hash) ∈ account_scripts accounts <->
  exists k account, accounts !! k = Some account /\ StakeAddress.payload account = StakePayload.Script hash /\ n = Z.of_nat k mod 2 ^ 32.
Proof.
  unfold account_scripts. rewrite list_elem_of_omap. unfold StakeAddress.is_script. split.
  - intros ([m a] & (k & Hk & ->)%enumerate_elem & Ha). cbn in Ha. exists k, a.
    destruct (StakeAddress.payload a) as [h|h]; [done|]. injection Ha as <- <-. done.
  - intros (k & a & Hk & Ha & ->). exists (Z.of_nat k mod 2 ^ 32, a). split; [apply enumerate_elem; by exists k|]. cbn. by rewrite Ha.
Qed.

Lemma conway_redeemers_yields :
  yields (check_redeemers the_v1_hashes the_v2_hashes the_v3_hashes the_references the_body the_wits utxos) () () () ->
  forall p, p ∈ redeemer_keys (WitnessSet.redeemer the_wits) <-> asks_redeemer p.
Proof.
  unfold check_redeemers, redeemer_key_coincide, mk_plutus_script_redeemer_pointers.
  intros (ps & (hs & Hhs & (accounts & Hacc & <-%check_ret)%check_bind)%check_bind & Hc)%check_bind p.
  rewrite pointers_coincide_yields in Hc. rewrite Hc. clear Hc. pose proof (spent_hashes_yields _ _ _ _ Hhs) as Hsp.
  rewrite !elem_of_app, !pointers_of_elem. setoid_rewrite conway_phase_2_elem. split.
  - intros [(k & h & Hkh & Hp & ->)|[(k & h & Hkh & Hp & ->)|(k & h & Hkh & Hp & ->)]].
    + apply Hsp in Hkh as (i & Hki & Hi). apply enumerate_elem in Hki as (n & Hn & ->). by eapply spend_asks.
    + destruct (TransactionBody.mint the_body) as [m|] eqn:Hm; [|by apply elem_of_nil in Hkh].
      apply enumerate_elem in Hkh as (n & Hn & ->). apply mint_asks with h; [|done]. unfold the_mint. by rewrite Hm.
    + apply account_scripts_elem in Hkh as (n & a & Hn & Ha & ->).
      destruct (TransactionBody.withdrawals the_body) as [w|] eqn:Hw; [|apply check_ret in Hacc as <-; by rewrite lookup_nil in Hn].
      by eapply reward_asks.
  - intros [k i h Hk Hi Hp|k h Hk Hp|w accounts' k a h Hw Hacc' Hk Ha Hp].
    + left. exists (Z.of_nat k mod 2 ^ 32), h. split_and!; [|done..]. apply Hsp. exists i. split; [|done]. apply enumerate_elem. by exists k.
    + right; left. exists (Z.of_nat k mod 2 ^ 32), h. split_and!; [|done..]. unfold the_mint in Hk.
      destruct (TransactionBody.mint the_body) as [m|]; cbn in Hk; [|by apply list_elem_of_lookup_2, sorted_keys_elem in Hk; set_solver].
      apply enumerate_elem. by exists k.
    + right; right. rewrite Hw in Hacc. destruct (yields_inj _ _ _ _ _ _ Hacc Hacc') as [<- _].
      exists (Z.of_nat k mod 2 ^ 32), h. split_and!; [|done..]. apply account_scripts_elem. by exists k, a.
Qed.

(** *** Keys and script data *)
Lemma conway_witnesses_yields : yields (check_vkey_input_wits mtx (Some the_keys) utxos) () () () ->
  Forall (fun i => signed_by_owner utxos shelley_address_of the_hash the_keys i /\ is_Some (utxo utxos i ≫= shelley_address_of))
    (TransactionBody.inputs the_body ++ the_collateral).
Proof.
  unfold check_vkey_input_wits. intros (ws & Hws%check_list_yields & (ws' & Hf%owners_yields & _)%check_bind)%check_bind.
  rewrite Hws in Hf. eapply Forall_impl; [exact Hf|]. intros i [Hi Ha]. split; [exact Hi|]. by apply Ha.
Qed.

Lemma conway_script_data_yields : yields (check_script_data_hash the_body mtx utxos pps) () () () ->
  match TransactionBody.script_data_hash the_body with
  | Some hash => exists views data, cost_model_for_tx (tx_languages mtx utxos) pps = Some views /\
      ScriptData.build_for the_wits (Some views) = Some data /\ ScriptData.hash data = Some hash
  | None => tx_languages mtx utxos = []
  end.
Proof.
  unfold check_script_data_hash. fold the_wits. destruct (TransactionBody.script_data_hash the_body) as [h|].
  - intros (views & Hv & (data & Hd & (e & He%check_eval & Hr)%check_bind)%check_bind)%check_bind. exists views, data.
    rewrite check_unless, negb_false_iff, bool_decide_eq_true in Hr. subst e.
    destruct (cost_model_for_tx _ _) as [views'|]; [apply check_ret in Hv as ->|by apply check_throw in Hv].
    destruct (ScriptData.build_for _ _) as [data'|]; [apply check_ret in Hd as ->|by apply check_throw in Hd]. done.
  - destruct (tx_languages mtx utxos); [done|]. by intros ?%check_throw.
Qed.


Lemma conway_languages_yields : yields (check_languages mtx utxos pps) () () () ->
  exists allowed, yields (allowed_tx_langs mtx utxos) () allowed () /\
    Forall (fun l => l ∈ available_langs pps \/ l ∈ allowed) (tx_languages mtx utxos).
Proof.
  unfold check_languages. intros (allowed & Ha & Hl)%check_bind. exists allowed. split; [done|].
  apply (for_each_check _ _ (fun l => l ∈ available_langs pps \/ l ∈ allowed)) in Hl; [done|]. intros l Hc.
  rewrite check_unless, andb_false_iff, !negb_false_iff, !bool_decide_eq_true in Hc. done.
Qed.

Lemma conway_known_yields : yields (check_ins_not_empty the_body) () () () -> yields (check_all_ins_in_utxos the_body utxos) () () () ->
  TransactionBody.inputs the_body <> [] /\
  Forall (fun i => is_Some (utxo utxos i)) (TransactionBody.inputs the_body ++ the_collateral ++ the_reference_inputs).
Proof.
  intros He Hknown. next Hknown Hins. next Hknown Hcol. unfold check_ins_not_empty in He.
  split; [by intros Hn; rewrite Hn in He; apply check_throw in He|].
  rewrite !Forall_app. split; [by eapply inputs_in_utxos_yields|]. unfold the_collateral, the_reference_inputs. split.
  - destruct (TransactionBody.collateral the_body); [by eapply inputs_in_utxos_yields|by constructor].
  - destruct (TransactionBody.reference_inputs the_body); [by eapply inputs_in_utxos_yields|by constructor].
Qed.
End rules.

(** C13: What holds of a Conway transaction the validator accepts: inputs of every kind in the UTxO set; interval; fee;
    with Plutus scripts, collateral that pays what is annotated, enough, and returns its tokens; outputs and size;
    the scripts that Conway outputs and policies need given or referred to and no others given; exactly the data
    and redeemers asked for, withdrawals included; signatures of owners and required signers; Plutus versions that
    are allowed or have a cost model; hashes of metadata and script data.  Lovelace is conserved.  A token is up to
    multiples of 2^64, because of casts between u64 and i64, and exactly where each token spent is below 2^63 in
    sum and burnt only where it is held ([honest_values]): otherwise tokens can be forged ([burning_forges]) or
    lost ([minting_destroys]).  The quantities are positive, as their types ensure ([positive], [well_typed]).
    Execution units are not bounded ([execution_units_not_summed]). *)
Theorem conway_phase1 `{MinicborLaws, ByronCodec, Cryptoxide, DerivedCodecs} mtx utxos pps slot net :
  Forall valid_script (the_natives mtx) ->
  validate_conway_tx mtx utxos pps slot net () = Returned (Ok ()) () ->
  exists size, get_conway_tx_size mtx = Some size /\ conway_valid mtx utxos pps slot net size.
Proof.
  intros Hs Hv. unfold validate_conway_tx in Hv. change (inner (Tx.transaction_body mtx)) with (the_body mtx) in Hv.
  match type of Hv with ?m () = _ => change (yields m () () ()) in Hv end.
  apply check_bind in Hv as (size & Hsz & Hv). destruct (get_conway_tx_size mtx) as [n|]; [|by apply check_throw in Hsz].
  apply check_ret in Hsz as ->. exists size. split; [done|].
  next Hv Hempty. next Hv Hknown. next Hv Htime. next Hv Hfee. next Hv Hvalue. next Hv Hmin. next Hv Hsize. next Hv Hnet.
  next Hv Htx. next Hv Hunits. next Hv Hmint. next Hv Hform. next Hv Hwits. next Hv Hlang. next Hv Hmeta.
  next Htime Hlow. next Hfee Hpaid. next Hnet Houts.
  unfold check_witness_set in Hwits. apply check_bind in Hwits as (nh & Hnh & Hwits).
  apply native_hashes_yields in Hnh as ->; [|done].
  next Hwits Hscripts. next Hwits Hdatums. next Hwits Hred. next Hwits Hsign.
  apply conway_scripts_yields in Hscripts as [Hgiven Hneeded]; [|done..]. apply conway_data_yields in Hdatums as [Hdg Hdn].
  split.
  - by apply conway_known_yields.
  - split; [by eapply lower_bound_yields|by eapply upper_bound_yields].
  - by eapply min_fee_yields.
  - intros Hp%plutus_present. rewrite Hp in Hfee. by apply conway_collateral_yields.
  - by apply conway_value_yields.
  - split; [|by apply conway_outputs_yields]. intros Ho. unfold check_preservation_of_value in Hvalue.
    apply check_bind in Hvalue as (c & _ & (p & Hp & _)%check_bind). unfold get_produced in Hp. rewrite Ho in Hp. by apply check_throw in Hp.
  - by eapply network_id_yields.
  - unfold check_tx_size in Htx. by rewrite check_unless, Z.ltb_ge in Htx.
  - intros Hp%plutus_present. unfold check_tx_ex_units in Hunits. rewrite Hp in Hunits. fold (the_wits mtx) in Hunits.
    destruct (WitnessSet.redeemer (the_wits mtx)); [done|by apply check_throw in Hunits].
  - done.
  - done.
  - done.
  - done.
  - by apply conway_redeemers_yields.
  - by apply conway_witnesses_yields.
  - by apply signers_yields in Hsign.
  - by apply conway_languages_yields.
  - by apply metadata_yields in Hmeta.
  - by apply conway_script_data_yields.
Qed.

(** ** A transaction

    A Plutus script of version 3 in a reference input unlocks what is spent, another one in
    the witness set mints, and the first also allows a withdrawal. *)
Module conway_sample.
Import sample derived alonzo_sample.

Definition half : RationalNumber := {| numerator := 1; denominator := 2 |}.
Definition conway_pps : ConwayProtParams.t := {|
  ConwayProtParams.system_start := 0;
  ConwayProtParams.epoch_length := 432000;
  ConwayProtParams.slot_length := 1;
  ConwayProtParams.minfee_a := 1;
  ConwayProtParams.minfee_b := 2;
  ConwayProtParams.max_block_body_size := 65536;
  ConwayProtParams.max_transaction_size := 16384;
  ConwayProtParams.max_block_header_size := 1100;
  ConwayProtParams.key_deposit := 20;
  ConwayProtParams.pool_deposit := 500;
  ConwayProtParams.desired_number_of_stake_pools := 150;
  ConwayProtParams.protocol_version := (9, 0);
  ConwayProtParams.min_pool_cost := 340;
  ConwayProtParams.ada_per_utxo_byte := 1;
  ConwayProtParams.cost_models_for_script_languages := conway.CostModels.mk (Some [1]) (Some [2; 3]) (Some [4; 5]) ∅;
  ConwayProtParams.execution_costs := {| mem_price := half; step_price := half |};
  ConwayProtParams.max_tx_ex_units := {| mem := 100; steps := 100 |};
  ConwayProtParams.max_block_ex_units := {| mem := 1000; steps := 1000 |};
  ConwayProtParams.max_value_size := 5000;
  ConwayProtParams.collateral_percentage := 150;
  ConwayProtParams.max_collateral_inputs := 3;
  ConwayProtParams.expansion_rate := half;
  ConwayProtParams.treasury_growth_rate := half;
  ConwayProtParams.maximum_epoch := 18;
  ConwayProtParams.pool_pledge_influence := half;
  ConwayProtParams.pool_voting_thresholds := conway.PoolVotingThresholds.mk half half half half half;
  ConwayProtParams.drep_voting_thresholds := conway.DRepVotingThresholds.mk half half half half half half half half half half;
  ConwayProtParams.min_committee_size := 7;
  ConwayProtParams.committee_term_limit := 146;
  ConwayProtParams.governance_action_validity_period := 6;
  ConwayProtParams.governance_action_deposit := 100;
  ConwayProtParams.drep_deposit := 500;
  ConwayProtParams.drep_inactivity_period := 20;
  ConwayProtParams.minfee_refscript_cost_per_byte := half
|}.

Definition forging : bytes := [8; 8].
Definition forging_hash : bytes := compute_plutus_v3_script_hash forging.
Definition unlocking_hash : bytes := compute_plutus_v3_script_hash plutus.
Definition conway_post (addr : bytes) (v : conway.Value) (d : option babbage.DatumOption.t) (s : option ScriptRef.t) : TransactionOutput :=
  PostAlonzoOutput (mkKeepRaw [] (babbage.PostAlonzoTransactionOutput.mk addr v (mkKeepRaw [] <$> d) s)).
Definition to_key (x : Z) (v : conway.Value) : TransactionOutput := conway_post (address x) v None None.
Definition owns (i x : Z) (v : conway.Value) : MultiEraInput.t * MultiEraOutput.t := (at_ i, MultiEraOutput.Conway (to_key x v)).
Definition conway_utxos : list (MultiEraInput.t * MultiEraOutput.t) :=
  [(at_ 0, MultiEraOutput.Conway (conway_post (0x70 :: unlocking_hash) (conway.Value.Coin 300)
     (Some (babbage.DatumOption.Hash (datum_hash_of datum))) None));
   owns 1 7 (conway.Value.Coin 50);
   (at_ 4, MultiEraOutput.Conway (conway_post (address 9) (conway.Value.Coin 5) None (Some (ScriptRef.PlutusV3Script plutus))))].

Definition conway_body (ins : list Z) (outs : list TransactionOutput) (withdrawals : option (gmap bytes Z)) (mint : option Multiasset)
    (integrity : option bytes) (collateral refs : option (list Z)) : TransactionBody.t := {|
  TransactionBody.inputs := input <$> ins;
  TransactionBody.outputs := outs;
  TransactionBody.fee := 20;
  TransactionBody.ttl := Some 900000;
  TransactionBody.certificates := None;
  TransactionBody.withdrawals := withdrawals;
  TransactionBody.auxiliary_data_hash := None;
  TransactionBody.validity_interval_start := Some 50;
  TransactionBody.mint := mint;
  TransactionBody.script_data_hash := integrity;
  TransactionBody.collateral := collateral ≫= (fun ins : list Z => Some (input <$> ins));
  TransactionBody.required_signers := None;
  TransactionBody.network_id := Some NetworkId.Testnet;
  TransactionBody.collateral_return := match collateral with Some _ => Some (to_key 7 (conway.Value.Coin 15)) | None => None end;
  TransactionBody.total_collateral := match collateral with Some _ => Some 35 | None => None end;
  TransactionBody.reference_inputs := refs ≫= (fun ins : list Z => Some (input <$> ins));
  TransactionBody.voting_procedures := None;
  TransactionBody.proposal_procedures := None;
  TransactionBody.treasury_value := None;
  TransactionBody.donation := None
|}.
Definition conway_tx (body : TransactionBody.t) (wits : WitnessSet.t) : Tx.t :=
  Tx.mk (mkKeepRaw raw body) (mkKeepRaw [4] wits) true Nullable.Null.
Definition conway_wits (keys : list Z) (scripts : list alonzo.NativeScript) (data : list (KeepRaw PlutusData)) (redeemers : option Redeemers.t)
    (v2 v3 : list bytes) : WitnessSet.t :=
  WitnessSet.mk (Some (sign <$> keys)) (Some (mkKeepRaw [] <$> scripts)) None None
    (match data with [] => None | _ => Some (mkKeepRaw [0x81; 0x41; 5] data) end) (mkKeepRaw [] <$> redeemers) (Some v2) (Some v3).
Definition for_each_tag (tags : list RedeemerTag.t) (units : Z) : option Redeemers.t :=
  Some (Redeemers.Map ((fun tag => (RedeemersKey.mk tag 0,
    RedeemersValue.mk (PlutusData.BoundedBytes [6]) {| mem := units; steps := units |})) <$> tags)).

(** With the hash of its script data *)
Definition sealed (body : option bytes -> TransactionBody.t) (wits : WitnessSet.t) (l : list (MultiEraInput.t * MultiEraOutput.t)) : Tx.t :=
  let tx := conway_tx (body None) wits in
  conway_tx (body (
    views ← cost_model_for_tx (tx_languages tx (utxos l)) conway_pps;
    data ← ScriptData.build_for wits (Some views);
    ScriptData.hash data)) wits.

Definition forged : Multiasset := {[ forging_hash := {[ [1] := 2 ]} ]}.
Definition three_scripts_tx : Tx.t :=
  sealed (fun integrity => conway_body [0] [to_key 9 (conway.Value.Multiasset 280 forged)] (Some {[ 0xf0 :: unlocking_hash := 0 ]})
      (Some forged) integrity (Some [1]) (Some [4]))
    (conway_wits [7] [] [datum] (for_each_tag [RedeemerTag.Spend; RedeemerTag.Mint; RedeemerTag.Reward] 10) [] [forging]) conway_utxos.

Definition conway_validate (mtx : Tx.t) (l : list (MultiEraInput.t * MultiEraOutput.t)) : outcome ValidationError () () :=
  validate_conway_tx mtx (utxos l) conway_pps 800000 0 ().

Lemma three_scripts_accepted : conway_validate three_scripts_tx conway_utxos = Returned (Ok ()) ().
Proof. vm_compute. reflexivity. Qed.
End conway_sample.

Section conway_samples.
Import sample derived alonzo_sample conway_sample.

Lemma conway_phase1_witness :
  Forall valid_script (the_natives three_scripts_tx) /\
  asks_redeemer three_scripts_tx (utxos conway_utxos) (RedeemersKey.mk RedeemerTag.Reward 0).
Proof.
  assert (Forall valid_script (the_natives three_scripts_tx)) as Hs by constructor.
  split; [exact Hs|].
  destruct (conway_phase1 three_scripts_tx (utxos conway_utxos) conway_pps 800000 0 Hs three_scripts_accepted) as (size & _ & Hv).
  apply (proj1 (conway_redeemers _ _ _ _ _ _ Hv _)). right. right. left.
Defined.

(** *** What is accepted, and what is not *)
Definition conway_purse : list (MultiEraInput.t * MultiEraOutput.t) := owns 3 7 (conway.Value.Coin 300) :: conway_utxos.
Definition accepted (mtx : Tx.t) (l : list (MultiEraInput.t * MultiEraOutput.t)) : bool :=
  match conway_validate mtx l with Returned (Ok _) _ => true | _ => false end.
Definition pays_with (keys : list Z) (scripts : list alonzo.NativeScript) (body : option bytes -> TransactionBody.t) : Tx.t :=
  conway_tx (body None) (conway_wits keys scripts [] None [] []).

(** Whatever the execution units are: their sum is never computed. *)
Definition mints_with (redeemers : option Redeemers.t) (l : list (MultiEraInput.t * MultiEraOutput.t)) : Tx.t :=
  sealed (fun integrity => conway_body [3] [to_key 9 (conway.Value.Multiasset 280 forged)] None (Some forged) integrity (Some [1]) None)
    (conway_wits [7] [] [] redeemers [] [forging]) l.
Example execution_units_not_summed : accepted (mints_with (for_each_tag [RedeemerTag.Mint] 1000000) conway_purse) conway_purse = true.
Proof. vm_compute. reflexivity. Qed.

(** A script of version 3 that is not needed *)
Example unneeded_v3_reported_as_v2 :
  conway_validate (conway_tx (conway_body [3] [to_key 9 (conway.Value.Coin 280)] None None None (Some [1]) None)
    (conway_wits [7] [] [] (for_each_tag [] 0) [] [forging])) conway_purse = Returned (Err (PostAlonzo UnneededPlutusV2Script)) ().
Proof. vm_compute. reflexivity. Qed.

(** Burning two tokens, of which none is held, credits 2^64 - 2. *)
Definition of_policy (n : Z) : Multiasset := {[ Hasher_224 (0 :: script_wire (ScriptPubkey (hash_of 8))) := {[ [1] := n ]} ]}.
Example burning_forges :
  accepted (pays_with [7] [ScriptPubkey (hash_of 8)] (fun integrity =>
    conway_body [3] [to_key 9 (conway.Value.Multiasset 280 (of_policy (2 ^ 64 - 2)))] None (Some (of_policy (-2))) integrity None None))
    conway_purse = true.
Proof. vm_compute. reflexivity. Qed.

(** Whoever holds 2^64 - 1 tokens and mints five more is left with four. *)
Example minting_destroys :
  accepted (pays_with [7] [ScriptPubkey (hash_of 8)] (fun integrity =>
    conway_body [3] [to_key 9 (conway.Value.Multiasset 280 (of_policy 4))] None (Some (of_policy 5)) integrity None None))
    [owns 3 7 (conway.Value.Multiasset 300 (of_policy (2 ^ 64 - 1)))] = true.
Proof. vm_compute. reflexivity. Qed.

(** An output of the Babbage era that a script locks is spent without any script. *)
Example earlier_scripts_not_asked :
  accepted (pays_with [] [] (fun integrity => conway_body [3] [to_key 9 (conway.Value.Coin 280)] None None integrity None None))
    [(at_ 3, MultiEraOutput.Babbage (babbage.GenTransactionOutput.PostAlonzo (mkKeepRaw []
        (babbage.PostAlonzoTransactionOutput.mk (0x70 :: unlocking_hash) (LedgerTypes.Value.Coin 300) None None))))] = true.
Proof. vm_compute. reflexivity. Qed.

(** A script account is withdrawn from without its script, and what is withdrawn, other
    than nothing, does not count as consumed. *)
Definition withdraws (amount : Z) : Tx.t :=
  pays_with [7] [] (fun integrity =>
    conway_body [3] [to_key 9 (conway.Value.Coin (280 + amount))] (Some {[ 0xf0 :: unlocking_hash := amount ]}) None integrity None None).
Example withdrawal_without_script : accepted (withdraws 0) conway_purse = true.
Proof. vm_compute. reflexivity. Qed.
Example withdrawal_not_consumed : conway_validate (withdraws 5) conway_purse = Returned (Err (PostAlonzo PreservationOfValue)) ().
Proof. vm_compute. reflexivity. Qed.

(** A script that is withdrawn with cannot be in the witness set. *)
Example withdrawal_script_refused :
  conway_validate (sealed (fun integrity => conway_body [3] [to_key 9 (conway.Value.Coin 280)] (Some {[ 0xf0 :: forging_hash := 0 ]}) None
      integrity (Some [1]) None) (conway_wits [7] [] [] (for_each_tag [RedeemerTag.Reward] 1) [] [forging]) conway_purse) conway_purse =
  Returned (Err (PostAlonzo UnneededPlutusV2Script)) ().
Proof. vm_compute. reflexivity. Qed.

(** The lock of a native script opens at slot 5000000, the block is at 800000. *)
Example conway_natives_not_evaluated :
  accepted (pays_with [] [InvalidBefore 5000000] (fun integrity => conway_body [2] [to_key 9 (conway.Value.Coin 280)] None None integrity None None))
    [(at_ 2, MultiEraOutput.Conway (conway_post (0x70 :: Hasher_224 (0 :: script_wire (InvalidBefore 5000000))) (conway.Value.Coin 300) None None))]
  = true.
Proof. vm_compute. reflexivity. Qed.

(** Without outputs it is the inputs that are said to be missing. *)
Example no_outputs : conway_validate (pays_with [7] [] (fun integrity => conway_body [3] [] None None integrity None None)) conway_purse =
  Returned (Err (PostAlonzo TxInsEmpty)) ().
Proof. vm_compute. reflexivity. Qed.

(** An amount of zero in an output of the old form makes the validator panic. *)
Example zero_amount_panics :
  conway_validate (pays_with [7] [] (fun integrity => conway_body [3] [Legacy (mkKeepRaw [] (output 9 (LedgerTypes.Value.Multiasset 280 {[ [1] := {[ [1] := 0 ]} ]})))]
    None None integrity None None)) conway_purse = Panicked.
Proof. vm_compute. reflexivity. Qed.

(** Without cost models, PlutusV3 is still let through by what the features used allow:
    the hash of the script data then fails. *)
Example languages_either : forall (mtx : Tx.t) (pps : ConwayProtParams.t) (allowed : list Language.t),
  yields (allowed_tx_langs mtx (utxos conway_purse)) () allowed () ->
  Forall (fun l => l ∈ allowed) (tx_languages mtx (utxos conway_purse)) ->
  yields (check_languages mtx (utxos conway_purse) pps) () () ().
Proof.
  intros mtx pps allowed Ha Hl. unfold check_languages. eapply yields_bind; [exact Ha|]. cbn beta zeta.
  induction Hl as [|l ls Hl _ IH]; [done|]. cbn [for_each]. eapply yields_bind; [|exact IH].
  rewrite (bool_decide_eq_true_2 (l ∈ allowed)) by done. cbn [negb]. by rewrite andb_false_r.
Qed.
End conway_samples.
