(* ===== verification/Ledgers.v ===== *)
(** * Validation of transactions of any era

    [pallas-validate/src/phase1/mod.rs]: the parameters of the environment choose the
    validator; and the parameters' times of [utils/environment.rs]. *)
From S2P Require Import Prelude Cbor Rfc8949 Effects Tree NativeScript PlutusData Address AddressProps SlotTime LedgerTypes Assets ShelleyMA.
From S2P Require Import ShelleyProps ByronTx Phase1 Alonzo Babbage Conway.

(** ** Parameters *)
Definition protocol_version (pps : MultiEraProtocolParameters.t) : Z :=
  match pps with
  | MultiEraProtocolParameters.Byron pps => (ByronProtParams.block_version pps).1.1
  | MultiEraProtocolParameters.Shelley pps => (ShelleyProtParams.protocol_version pps).1
  | MultiEraProtocolParameters.Alonzo pps => (AlonzoProtParams.protocol_version pps).1
  | MultiEraProtocolParameters.Babbage pps => (BabbageProtParams.protocol_version pps).1
  | MultiEraProtocolParameters.Conway pps => (ConwayProtParams.protocol_version pps).1
  end.

Definition FIVE_DAYS_IN_SECONDS : Z := 5 * 24 * 60 * 60.

(** A division by zero panics. *)
Definition epoch_length (pps : MultiEraProtocolParameters.t) : option Z :=
  match pps with
  | MultiEraProtocolParameters.Byron pps => checked_div FIVE_DAYS_IN_SECONDS (ByronProtParams.slot_duration pps / 1000)
  | MultiEraProtocolParameters.Shelley pps => Some (ShelleyProtParams.epoch_length pps)
  | MultiEraProtocolParameters.Alonzo pps => Some (AlonzoProtParams.epoch_length pps)
  | MultiEraProtocolParameters.Babbage pps => Some (BabbageProtParams.epoch_length pps)
  | MultiEraProtocolParameters.Conway pps => Some (ConwayProtParams.epoch_length pps)
  end.

Definition slot_length (pps : MultiEraProtocolParameters.t) : Z :=
  match pps with
  | MultiEraProtocolParameters.Byron pps => ByronProtParams.slot_duration pps / 1000
  | MultiEraProtocolParameters.Shelley pps => ShelleyProtParams.slot_length pps
  | MultiEraProtocolParameters.Alonzo pps => AlonzoProtParams.slot_length pps
  | MultiEraProtocolParameters.Babbage pps => BabbageProtParams.slot_length pps
  | MultiEraProtocolParameters.Conway pps => ConwayProtParams.slot_length pps
  end.

(** ** Transactions *)
Section ledgers.
Context `{Minicbor, ByronCodec, PayloadCodec, ByronHashes, Cryptoxide, DerivedCodecs}.

Definition validate_tx (metx : MultiEraTx.t) (txix : Z) (env : Environment.t) (utxos : UTxOs) : comp ValidationError CertState.t () :=
  let block_slot := Environment.block_slot env in
  let network_id := Environment.network_id env in
  let prot_magic := Environment.prot_magic env in
  match Environment.prot_params env, Environment.acnt env with
  | MultiEraProtocolParameters.Byron bpp, None =>
      match metx with
      | MultiEraTx.Byron mtxp => stateless (validate_byron_tx mtxp utxos bpp prot_magic)
      | _ => throw ValidationError.TxAndProtParamsDiffer
      end
  | MultiEraProtocolParameters.Byron _, Some _ => throw ValidationError.PParamsByronDoesntNeedAccountState
  | MultiEraProtocolParameters.Shelley spp, Some acnt =>
      match metx with
      | MultiEraTx.AlonzoCompatible mtx (Era.Shelley | Era.Allegra | Era.Mary) =>
          validate_shelley_ma_tx mtx txix utxos spp acnt block_slot network_id (MultiEraTx.era metx)
      | _ => throw ValidationError.TxAndProtParamsDiffer
      end
  | MultiEraProtocolParameters.Alonzo app, _ =>
      match metx with
      | MultiEraTx.AlonzoCompatible mtx Era.Alonzo => stateless (validate_alonzo_tx mtx utxos app block_slot network_id)
      | _ => throw ValidationError.TxAndProtParamsDiffer
      end
  | MultiEraProtocolParameters.Babbage bpp, _ =>
      match metx with
      | MultiEraTx.Babbage mtx => stateless (validate_babbage_tx mtx utxos bpp block_slot prot_magic network_id)
      | _ => throw ValidationError.TxAndProtParamsDiffer
      end
  | MultiEraProtocolParameters.Conway cpp, _ =>
      match metx with
      | MultiEraTx.Conway mtx => stateless (validate_conway_tx mtx utxos cpp block_slot network_id)
      | _ => throw ValidationError.TxAndProtParamsDiffer
      end
  | _, None => throw ValidationError.EnvMissingAccountState
  end.

(** [txix.try_into().unwrap()] *)
Definition transaction_index (txix : Z) : option Z := if txix <? 2 ^ 32 then Some txix else None.

Fixpoint validate_from (txix : Z) (metxs : list MultiEraTx.t) (env : Environment.t) (utxos : UTxOs) : comp ValidationError CertState.t () :=
  match metxs with
  | [] => mret tt
  | metx :: metxs =>
      ix ← eval (transaction_index txix);
      validate_tx metx ix env utxos;;
      validate_from (txix + 1) metxs env utxos
  end.

(** The state is that of a copy, until all are accepted. *)
Definition validate_txs (metxs : list MultiEraTx.t) (env : Environment.t) (utxos : UTxOs) : comp ValidationError CertState.t () :=
  delta_state ← (fun cert_state =>
    match validate_from 0 metxs env utxos cert_state with
    | Returned (Ok _) delta_state => Returned (Ok delta_state) cert_state
    | Returned (Err e) _ => Returned (Err e) cert_state
    | Panicked => Panicked
    | Unfinished => Unfinished
    end);
  put delta_state.

(** ** The rule LEDGERS *)
Definition of_parameters (pps : MultiEraProtocolParameters.t) (metx : MultiEraTx.t) : Prop :=
  match pps with
  | MultiEraProtocolParameters.Byron _ => MultiEraTx.era metx = Era.Byron
  | MultiEraProtocolParameters.Shelley _ => MultiEraTx.era metx ∈ [Era.Shelley; Era.Allegra; Era.Mary]
  | MultiEraProtocolParameters.Alonzo _ => MultiEraTx.era metx = Era.Alonzo
  | MultiEraProtocolParameters.Babbage _ => MultiEraTx.era metx = Era.Babbage
  | MultiEraProtocolParameters.Conway _ => MultiEraTx.era metx = Era.Conway
  end.

Definition is_shelley (pps : MultiEraProtocolParameters.t) : Prop :=
  match pps with MultiEraProtocolParameters.Shelley _ => True | _ => False end.

Section rule.
Context (env : Environment.t) (utxos : UTxOs).

Inductive ledgers : Z -> list MultiEraTx.t -> CertState.t -> CertState.t -> Prop :=
| ledgers_nil txix cs : ledgers txix [] cs cs
| ledgers_cons txix metx metxs cs cs1 cs' :
    txix < 2 ^ 32 -> yields (validate_tx metx txix env utxos) cs () cs1 -> ledgers (txix + 1) metxs cs1 cs' ->
    ledgers txix (metx :: metxs) cs cs'.

Lemma transaction_index_Some txix ix : transaction_index txix = Some ix <-> txix < 2 ^ 32 /\ ix = txix.
Proof. unfold transaction_index. destruct (Z.ltb_spec txix (2 ^ 32)); split; intros; simplify_eq; lia || (f_equal; lia). Qed.

Lemma validate_from_ledgers txix metxs cs cs' : yields (validate_from txix metxs env utxos) cs () cs' <-> ledgers txix metxs cs cs'.
Proof.
  revert txix cs; induction metxs as [|metx metxs IH]; intros txix cs; cbn [validate_from].
  - split; [intros [= <-]; constructor|by inversion 1].
  - unfold yields, mbind, comp_bind, eval. split.
    + destruct (transaction_index txix) as [ix|] eqn:Hix; [|done]. apply transaction_index_Some in Hix as [? ->].
      destruct (validate_tx metx txix env utxos cs) as [[[]|e] cs1| |] eqn:Htx; try done. intros Hr. econstructor; [done|done|by apply IH].
    + inversion 1 as [|? ? ? ? cs1 ? Hix Htx Hr]; subst. rewrite (proj2 (transaction_index_Some txix txix)) by done.
      unfold yields in Htx. rewrite Htx. by apply IH.
Qed.

Lemma validate_from_error txix metxs cs e cs' :
  validate_from txix metxs env utxos cs = Returned (Err e) cs' ->
  exists before metx after cs1, metxs = before ++ metx :: after /\ ledgers txix before cs cs1 /\
    validate_tx metx (txix + Z.of_nat (length before)) env utxos cs1 = Returned (Err e) cs'.
Proof.
  revert txix cs; induction metxs as [|metx metxs IH]; intros txix cs; cbn [validate_from]; [done|].
  unfold mbind, comp_bind, eval. destruct (transaction_index txix) as [ix|] eqn:Hix; [|done].
  apply transaction_index_Some in Hix as [? ->]. destruct (validate_tx metx txix env utxos cs) as [[[]|e'] cs1| |] eqn:Htx; try done.
  - intros (before & metx' & after & cs2 & -> & Hl & He)%IH. exists (metx :: before), metx', after, cs2. split_and!; [done|by econstructor|].
    rewrite <- He. f_equal. cbn [length]. lia.
  - intros [= <- <-]. exists [], metx, metxs, cs. split_and!; [done|constructor|]. rewrite <- Htx. f_equal. cbn. lia.
Qed.

Lemma stateless_state {S} (m : check ()) (s s' : S) : yields (stateless m) s () s' -> s' = s.
Proof. unfold yields, stateless, locally. destruct (m ()); naive_solver. Qed.

(** The parameters are those of the era, and only those of Shelley change the state. *)
Lemma validate_tx_era metx txix cs cs' : yields (validate_tx metx txix env utxos) cs () cs' ->
  of_parameters (Environment.prot_params env) metx /\ (~ is_shelley (Environment.prot_params env) -> cs' = cs).
Proof.
  unfold validate_tx. destruct (Environment.prot_params env), (Environment.acnt env), metx as [mtx []|mtx|mtx|mtx]; try done;
    cbn [of_parameters is_shelley MultiEraTx.era]; intros Hv;
    first [by split; [repeat constructor|intros []]|by apply stateless_state in Hv].
Qed.

Lemma validate_tx_consistent metx txix : keeps consistent (validate_tx metx txix env utxos).
Proof.
  unfold validate_tx. repeat case_match;
    first [apply keeps_stateless|apply validation_consistent|by intros s r s' Hs [= <- <-]].
Qed.

Lemma ledgers_era txix metxs cs cs' : ledgers txix metxs cs cs' ->
  Forall (of_parameters (Environment.prot_params env)) metxs /\
  (~ is_shelley (Environment.prot_params env) -> cs' = cs) /\ (consistent cs -> consistent cs').
Proof.
  induction 1 as [|txix metx metxs cs cs1 cs' _ Htx _ (Hf & Hs & Hc)]; [done|].
  pose proof (validate_tx_era _ _ _ _ Htx) as [Hp Hs1].
  split_and!; [by constructor|intros Hn; by rewrite Hs, Hs1|]. intros Hcs. apply Hc. by eapply validate_tx_consistent.
Qed.

End rule.

(** C14: The transactions of a block are accepted exactly by the rule LEDGERS: one after
    the other, each from the state its predecessor leaves.  They are then of the era of
    the parameters, a consistent state stays consistent, and only under parameters of
    Shelley it changes.  If one is refused the state is as before, and the error is that of
    the first refused one.  The UTxO set is the same for all of them
    ([two_spend_the_same]). *)
Theorem validate_txs_ledgers metxs env utxos cs :
  (forall cs', yields (validate_txs metxs env utxos) cs () cs' <-> ledgers env utxos 0 metxs cs cs') /\
  (forall cs', yields (validate_txs metxs env utxos) cs () cs' ->
    Forall (of_parameters (Environment.prot_params env)) metxs /\
    (~ is_shelley (Environment.prot_params env) -> cs' = cs) /\ (consistent cs -> consistent cs')) /\
  forall e cs', validate_txs metxs env utxos cs = Returned (Err e) cs' ->
    cs' = cs /\
    exists before metx after cs1 cs2, metxs = before ++ metx :: after /\ ledgers env utxos 0 before cs cs1 /\
      validate_tx metx (Z.of_nat (length before)) env utxos cs1 = Returned (Err e) cs2.
Proof.
  assert (forall cs', yields (validate_txs metxs env utxos) cs () cs' <-> ledgers env utxos 0 metxs cs cs') as Hok.
  { intros cs'. rewrite <- validate_from_ledgers. unfold validate_txs, yields, mbind, comp_bind, put.
    destruct (validate_from 0 metxs env utxos cs) as [[[]|e] cs1| |]; naive_solver. }
  split_and!; [done|intros cs' Hl%Hok; by eapply ledgers_era|].
  intros e cs'. unfold validate_txs, mbind, comp_bind, put. destruct (validate_from 0 metxs env utxos cs) as [[[]|e'] cs1| |] eqn:Hv; try done.
  intros [= <- <-]. split; [done|]. apply validate_from_error in Hv as (before & metx & after & cs2 & -> & Hl & He).
  by exists before, metx, after, cs2, cs1.
Qed.
End ledgers.

(** ** Blocks *)
Module ledgers_sample.
Import sample derived byron_sample.

Definition mary_env : Environment.t :=
  Environment.mk (MultiEraProtocolParameters.Shelley sample.pps) 1 100 0 (Some acnt).
Definition plain_tx : alonzo.Tx.t :=
  sample.tx (sample.tx_body [1] [sample.output 9 (Value.Coin 53)] 7 None None None) [sign 7] [].
Definition mary (tx : alonzo.Tx.t) : MultiEraTx.t := MultiEraTx.AlonzoCompatible tx Era.Mary.
End ledgers_sample.

Section ledgers_samples.
Import sample derived byron_sample ledgers_sample.

(** Both spend the same output: the first does not remove it. *)
Example two_spend_the_same :
  validate_txs [mary plain_tx; mary plain_tx] mary_env (sample.utxos good_utxos) no_state = Returned (Ok ()) no_state.
Proof. vm_compute. reflexivity. Qed.

(** The second transaction is of another era: what the first registered is dropped. *)
Lemma validate_txs_ledgers_witness :
  (exists e, validate_txs [mary good_tx; MultiEraTx.Byron byron_sample.good] mary_env (sample.utxos good_utxos) no_state =
    Returned (Err e) no_state) /\
  Forall (of_parameters (Environment.prot_params mary_env)) [mary plain_tx; mary plain_tx].
Proof.
  split.
  - eexists. vm_compute. reflexivity.
  - apply (validate_txs_ledgers [mary plain_tx; mary plain_tx] mary_env (sample.utxos good_utxos) no_state) with no_state.
    exact two_spend_the_same.
Defined.

(** Slots of less than a second leave Byron epochs without a length. *)
Example short_slots_panic : forall pps, 0 <= ByronProtParams.slot_duration pps < 1000 -> epoch_length (MultiEraProtocolParameters.Byron pps) = None.
Proof. intros pps Hd. unfold epoch_length. by rewrite Z.div_small. Qed.
End ledgers_samples.
